(* ===== verification/_CoqProject ===== *)
-Q . S2P
Prelude.v
F64.v
Strs.v
Core.v
Deliver.v
Tracker.v
PrintableTable.v
PyFmt.v
Task.v
Kahn.v
Graph.v
Order.v
Civil.v
Cron.v
Timer.v
Plan.v
Assign.v
Claims.v
TextFmt.v
Settings.v
Predict.v
Admit.v
Quiet.v
Bytes.v
Lex.v
Signature.v
Crypto.v
Frame.v
StoreDb.v
Identity.v
Leases.v
Policy.v
Board.v
BoardLog.v
WorkRow.v
Work.v
Jobs.v
WorkQuery.v
WorkInv.v
WorkSteps.v
WorkNext.v
WorkAdd.v
WorkEdit.v
WorkFrames.v
JobCards.v
WorkJobs.v
Timers.v
TimerInv.v
Wire.v
Channels.v
ChanInv.v
Messages.v
MsgInv.v
Social.v
Team.v
Reconcile.v
StoreReconcile.v
ReconInv.v
DemoCodec.v
Push.v
Store.v
Chat.v
WorkStore.v
TeamStore.v
ReconStore.v
Framing.v
Notify.v
NotifyText.v
SessionState.v
Hooks.v
HookRun.v
ChannelPush.v
PushMark.v
SessionDemo.v
Metrics.v
Scrub.v
Markers.v
Pump.v
Compat.v
