(* ===== verification/Prelude.v ===== *)
(** * Agora (g-cqd/claudetalk): a verification library for the Rust workspace

    Agora lets coding agents on one machine work together.  A daemon keeps one
    SQLite store: identities with roles, a board of cards, channels with
    end-to-end encrypted messages, leases on paths and resource pools, timers,
    and a queue of tasks whose commands it runs as jobs.  Every change is a signed
    operation that the store authorizes, logs and applies in one transaction.
    Around the store are pure crates: [agora-core] (the rules of the board),
    [agora-crypto] (encodings, signatures, key wrapping), [agora-proto] (frames
    and wire forms), [agora-sched] (ordering, planning, admission, timers,
    signatures of commands) and [agora-deliver] (how a message reaches a
    harness).  On the agents' side, hooks, a push task and a bridge bring the
    messages of the store into a session, each with a cursor of its own.  This
    library models those parts and proves what makes them correct.  Paths below
    are under [src/crates/].

    ** Files and the code they model

    - [Prelude], [F64], [Strs], [Bytes]: Rust's [Result], integers at their
      width, stable sorting, binary64 numbers, UTF-8 strings, byte vectors.
    - [Core]: [agora-core/src/lib.rs].  [Deliver]: [agora-deliver/src/lib.rs].
      [Tracker]: the [Tracker] of [agora-mcp/src/delivery.rs].
    - [agora-sched/src/]: [PyFmt] and [PrintableTable] ([pyfmt.rs]), [Task]
      ([task.rs]), [Kahn] (the worklist shared by the next three), [Graph]
      ([graph.rs]), [Order] ([order.rs]), [Plan] ([plan.rs]), [Civil] and [Cron]
      ([cron.rs]), [Timer] ([timer.rs]), [Assign] ([assign.rs]), [Claims]
      ([claims.rs]), [TextFmt] ([textfmt.rs]), [Settings] ([settings.rs]),
      [Predict] ([predict.rs]), [Admit] ([admit.rs]), [Quiet] ([quiet.rs]),
      [Lex] and [Signature] ([signature.rs] and its directory), [Reconcile]
      ([reconcile.rs]), [Scrub] ([envscrub.rs], [exit.rs], and the way of a job's
      environment through [agora-daemon/src/work.rs], [jobs.rs] and
      [jobs/start.rs] and [agora-run/src/supervise.rs]), [Compat] ([render.rs],
      [compat.rs]).
    - [Crypto]: [agora-crypto/src/lib.rs].  [Frame] and [Wire]:
      [agora-proto/src/frame.rs] and [convert.rs].
    - [agora-store/src/]: [StoreDb] (the tables and the transaction monad),
      [Identity] ([identity.rs], [system.rs]), [Leases] ([leases.rs], and the
      frames of transactions), [Policy] ([policy.rs]), [Board] ([lib.rs],
      [cards_ext.rs]), [Channels] ([channels.rs]), [Messages] ([messages.rs]),
      [Social] ([social.rs]), [WorkRow], [Work] ([work_ops.rs] and its
      directory), [Jobs] ([jobs.rs], [cards_ext/job_sync.rs]), [WorkQuery]
      ([work_query.rs]), [Team] ([sprints.rs],
      [status.rs]), [Timers] ([timers.rs] and
      its directory), [StoreReconcile] ([reconcile.rs] and its directory) and
      [Metrics] ([metrics.rs], [cards_ext/board.rs]).
    - What holds of the store's tables: [BoardLog] (the board is a projection of
      its event log and follows the lifecycle of a card), [ChanInv] (who holds
      the key of a channel), [MsgInv] (messages and cursors), [WorkInv],
      [WorkSteps], [WorkNext], [WorkAdd], [WorkEdit], [WorkJobs] and [JobCards]
      (tasks follow their lifecycle), [WorkFrames] (what a transaction leaves
      alone), [TimerInv] and [ReconInv] (timers and the actions of the
      reconciler keep all of it).
    - [Store] puts the operations together: [call] is the type of every call of
      the store, [exec] runs one, [reachable] is the states that sequences of
      calls at non-decreasing times leave.  [Chat], [WorkStore], [TeamStore] and
      [ReconStore] state what holds of every reachable state for messages, the
      queue and timers, sprints, and reconciliation.  [DemoCodec] instantiates
      the parameters, so that the examples compute.
    - Messages on their way to an agent: [Framing] ([agora-mcp/src/framing.rs]:
      the text of other agents is quoted, bounded and marked as untrusted),
      [Push] ([agora-daemon/src/push.rs] and [presence.rs]: events for
      subscribers over a bounded queue), [Notify] and [NotifyText]
      ([agora-mcp/src/delivery.rs], [push.rs]: the rate and the text of
      notifications), [SessionState] ([agora-client]'s cursor of a session in a
      file), [Hooks] and [HookRun] ([agora-hooks]: the hooks and their runs),
      [ChannelPush] and [PushMark] (the push task of [agora-mcp/src/push.rs] and
      the mark it moves), [SessionDemo] (concrete sessions), [Pump]
      ([agora-bridge/src/pump.rs]).  [Markers]: the managed block of instruction
      files ([agora-cli/src/install/markers.rs]).

    ** How the code is translated

    A table is the list of its rows in rowid order, a [SELECT] a filter and a
    sort, an [UPDATE] a map.  A transaction is a state monad with errors
    ([StoreDb.tx]); [StoreDb.transact] drops the changes of one that fails.  A
    signed operation is a record with the exact bytes it signs.  A [HashMap] or
    [BTreeMap] whose order is not seen is a [gmap]; integers carry their Rust
    bounds where an operation checks, saturates or wraps.  Tasks that run side by
    side are step relations whose steps are the calls between two points at which
    another may run ([Push], [HookRun], [PushMark], [Pump]).

    Code outside [src/] is a parameter: [Crypto.Prims] with [PrimsLaws] (the
    primitives), [Wire.Base64], the JSON readers of arguments and columns
    ([Leases.LeaseCodec], [Policy.PolicyCodec], [Board.BoardCodec],
    [WorkRow.WorkCodec], [Jobs.JobCodec], [Timers.TimerCodec],
    [StoreReconcile.ReconcileCodec], [SessionState.SessionCodec], with laws only
    where a stored value is read back, and [from_str] in [Compat]), [Social.Fts]
    (full-text search), SHA-256, the file system ([Signature.PlaceProbe],
    [Work.Host], the outcomes of reading and writing) and the random source.  The
    daemon that a hook, the push task or the pump asks is a function from a
    cursor to a page, or a failure.  Witnesses instantiate each of them.

    ** What the theorems show

    - The store: no operation is applied twice (C1), the tables keep their
      invariants (C2), cards and tasks only move along their lifecycles by
      someone who may move them (C3, C4), a job runs only a command its claimant
      accepted by its digest (C5, C11), claimed files and leases exclude each
      other (C6, C10), the key of a message is held by the members of its channel
      and by nobody else, the message reaches each of them, and is delivered once
      (C7 to C9), signatures commit to every field that is signed (C12), the next
      task is the first claimable one (C13).
    - What the daemon does by itself: a planned repair takes effect, once, and what is
      planned is what the snapshot calls for (C14 to C16), due timers fire (C17), sprints
      follow their lifecycle (C18), and the flow report is exact (C19).
    - Messages on their way to an agent: escalation ends (C20), a subscriber is
      told of everything it misses and of nothing outside its channels (C21,
      C22), hooks show each message once and in order and the pump loses none, but
      for what an inbox tool returned or a cursor that was set back leaves behind
      (C23, C24), the push task's mark passes over nothing it did not show but
      for what it forgot to have left to the hooks (C25), which does happen (C26),
      and notifications, frames and batches are bounded,
      whole and quoted (C27 to C29).
    - Files, environments and the wire: the managed block comes and goes without
      a trace (C30), a job gets no variable with the name of a secret (C31), frames
      round-trip (C32), and a script has the signature of the plain command it
      spells (C33).
    - The scheduler: orders and plans over given tasks succeed exactly when they
      can, print every task after its prerequisites, and print nothing a terminal
      would act on (C34, C35); schedules are complete and valid (C36, C37),
      assignments are equilibria (C38), cron fires at the exact next instant
      (C39), and the admission pass starts only what fits or is exempt (C40).

    ** Fuel

    Loops that are not structural take fuel, and each has a lemma that the fuel
    given is enough or that the loop is total: the lexer takes two turns for
    each character at most ([Lex]), the words of a token and the wrappers of a
    command each shorten the rest ([Signature]), Kahn's loop and the planner
    visit each task once, the cron search covers the years it bounds ([Cron]), a
    free identifier is found among one more than the rows there are ([Work],
    [Timers]), the parents of a scope repeat after at most all of them
    ([WorkEdit.check_parent_total]), and each page of a backlog moves on, so the
    sequence numbers left bound the pages ([ChannelPush.backlog_pages_total]).

    ** Not modelled

    The code that only moves bytes between the store and the outside: the
    daemon's sockets, tasks and processes, the client's connection, the argument
    parser and the installers of the command line, the transports and tool tables
    of the MCP server, the dialects of the hooks of other agents, the child
    processes of the bridge, the job supervisor ([agora-run], but for the
    environment of a command) and the local web
    view ([agora-stalker]).  What they decide is decided by the modelled code they
    call; what is left is the behaviour of the operating system, of the runtime
    and of other programs.  Within the modelled crates: the types of requests and
    replies, which are declarations with serde names, the two renderings of
    settings and of the delivery tracker, [work_plan] (a read of the queue printed
    by [render]), and opening and migrating a database. *)

From Stdlib Require Export ZArith Lia.
From stdpp Require Export base list gmap strings sorting.

Declare Scope agora_scope.
Delimit Scope agora_scope with agora.

(** ** Results

    Rust's [Result<T, E>], with the error type first so that [result E] is a
    monad and the [x ← e; k] notation is Rust's [?] operator. *)

Inductive result (E A : Type) : Type :=
| Ok (a : A)
| Err (e : E).
Arguments Ok {E A} a.
Arguments Err {E A} e.

#[export] Instance result_ret {E} : MRet (result E) := λ A a, Ok a.

#[export] Instance result_bind {E} : MBind (result E) := λ A B f m,
  match m with Ok a => f a | Err e => Err e end.

#[export] Instance result_map {E} : FMap (result E) := λ A B f m,
  match m with Ok a => Ok (f a) | Err e => Err e end.

Definition is_ok {E A} (r : result E A) : bool :=
  match r with Ok _ => true | Err _ => false end.

(** [Option::ok_or]. *)
Definition ok_or {E A} (o : option A) (e : E) : result E A :=
  match o with Some a => Ok a | None => Err e end.

(** [Result::ok]. *)
Definition res_ok {E A} (r : result E A) : option A :=
  match r with Ok a => Some a | Err _ => None end.

#[export] Instance result_eq_dec {E A} `{EqDecision E, EqDecision A} :
  EqDecision (result E A).
Proof. solve_decision. Defined.

Lemma result_bind_Ok {E A B} (m : result E A) (f : A → result E B) b :
  (m ≫= f) = Ok b → ∃ a, m = Ok a ∧ f a = Ok b.
Proof. destruct m; cbn; naive_solver. Qed.

(** One step of [?]: unfold the result monad and nothing else. *)
Ltac rstep := cbn [mbind result_bind mret result_ret fmap result_map ok_or].
Ltac rstep_in H := cbn [mbind result_bind mret result_ret fmap result_map ok_or] in H.

(** ** Machine integers

    Values are [Z]; the wrap-around, checked and saturating operations of
    Rust are spelled out over the ranges below. *)

Definition i64_min : Z := -9223372036854775808.
Definition i64_max : Z := 9223372036854775807.
Definition u64_max : Z := 18446744073709551615.
Definition u32_max : Z := 4294967295.
Definition i32_max : Z := 2147483647.
Definition i32_min : Z := -2147483648.

Definition in_i64 (z : Z) : bool := (i64_min <=? z)%Z && (z <=? i64_max)%Z.
Definition in_u64 (z : Z) : bool := (0 <=? z)%Z && (z <=? u64_max)%Z.
Definition in_u32 (z : Z) : bool := (0 <=? z)%Z && (z <=? u32_max)%Z.

(** [i64::checked_add] and its relatives: the exact result when it fits. *)
Definition checked_i64 (z : Z) : option Z := if in_i64 z then Some z else None.
Definition checked_u64 (z : Z) : option Z := if in_u64 z then Some z else None.

(** [i64::saturating_add] and its relatives. *)
Definition sat_i64 (z : Z) : Z := Z.max i64_min (Z.min i64_max z).
Definition sat_u64 (z : Z) : Z := Z.max 0 (Z.min u64_max z).
Definition sat_i32 (z : Z) : Z := Z.max i32_min (Z.min i32_max z).

(** Plain [i64] arithmetic in a release build: two's complement wrap-around. *)
Definition wrap_i64 (z : Z) : Z :=
  ((z + 9223372036854775808) mod 18446744073709551616 - 9223372036854775808)%Z.

Lemma wrap_i64_id z : (i64_min ≤ z ≤ i64_max)%Z → wrap_i64 z = z.
Proof. unfold wrap_i64, i64_min, i64_max. intros. rewrite Z.mod_small; lia. Qed.

(** [u64::saturating_sub]. *)
Definition sat_sub_u64 (a b : Z) : Z := Z.max 0 (a - b).

Lemma in_i64_spec z : in_i64 z = true ↔ (i64_min ≤ z ≤ i64_max)%Z.
Proof. unfold in_i64. rewrite andb_true_iff, !Z.leb_le. lia. Qed.

Lemma in_u64_spec z : in_u64 z = true ↔ (0 ≤ z ≤ u64_max)%Z.
Proof. unfold in_u64. rewrite andb_true_iff, !Z.leb_le. lia. Qed.

Lemma checked_i64_Some z w :
  checked_i64 z = Some w ↔ w = z ∧ (i64_min ≤ z ≤ i64_max)%Z.
Proof.
  unfold checked_i64. pose proof (in_i64_spec z).
  destruct (in_i64 z); naive_solver.
Qed.

Lemma checked_i64_None z : checked_i64 z = None ↔ ¬ (i64_min ≤ z ≤ i64_max)%Z.
Proof.
  unfold checked_i64. pose proof (in_i64_spec z).
  destruct (in_i64 z); naive_solver.
Qed.

Lemma checked_u64_Some z w :
  checked_u64 z = Some w ↔ w = z ∧ (0 ≤ z ≤ u64_max)%Z.
Proof.
  unfold checked_u64. pose proof (in_u64_spec z).
  destruct (in_u64 z); naive_solver.
Qed.

Lemma sat_i64_id z : (i64_min ≤ z ≤ i64_max)%Z → sat_i64 z = z.
Proof. unfold sat_i64. lia. Qed.

Lemma sat_u64_range z : (0 ≤ sat_u64 z ≤ u64_max)%Z.
Proof. unfold sat_u64, u64_max. lia. Qed.

(** ** Orderings

    Rust's [Ordering] is [comparison]; [then_with] is the lexicographic
    combination of two comparisons. *)

Definition then_with (c d : comparison) : comparison :=
  match c with Eq => d | _ => c end.

(** What a comparison function promises to [sort_by], [min_by] and the heaps:
    it is a total preorder on the elements that satisfy [P]. *)
Class TotalCmp {A} (P : A → Prop) (cmp : A → A → comparison) : Prop := {
  tc_opp x y : P x → P y → cmp y x = CompOpp (cmp x y);
  tc_trans x y z : P x → P y → P z →
    cmp x y ≠ Gt → cmp y z ≠ Gt → cmp x z ≠ Gt }.
Arguments tc_opp {A} P cmp {_} x y _ _.
Arguments tc_trans {A} P cmp {_} x y z _ _ _ _ _.

Section total_cmp.
Context {A} (P : A → Prop) (cmp : A → A → comparison) `{!TotalCmp P cmp}.

Lemma tc_refl x : P x → cmp x x = Eq.
Proof.
  intros Px. pose proof (tc_opp P cmp x x Px Px) as H.
  destruct (cmp x x); [done|..]; discriminate.
Qed.

Lemma tc_gt_lt x y : P x → P y → cmp x y = Gt ↔ cmp y x = Lt.
Proof.
  intros Px Py. rewrite (tc_opp P cmp x y) by done. destruct (cmp x y); naive_solver.
Qed.

Lemma tc_eq_sym x y : P x → P y → cmp x y = Eq → cmp y x = Eq.
Proof. intros Px Py H. rewrite (tc_opp P cmp x y) by done. by rewrite H. Qed.

Lemma tc_total x y : P x → P y → cmp x y ≠ Gt ∨ cmp y x ≠ Gt.
Proof.
  intros Px Py. rewrite (tc_opp P cmp x y) by done. destruct (cmp x y); naive_solver.
Qed.

Lemma tc_lt_le_trans x y z : P x → P y → P z →
  cmp x y = Lt → cmp y z ≠ Gt → cmp x z = Lt.
Proof.
  intros Px Py Pz Hxy Hyz. apply tc_gt_lt; [done..|].
  destruct (cmp z x) eqn:Hzx; [exfalso..|done].
  - assert (Hyx : cmp y x ≠ Gt) by (apply (tc_trans P cmp y z x); congruence).
    apply Hyx. apply tc_gt_lt; done.
  - assert (Hyx : cmp y x ≠ Gt) by (apply (tc_trans P cmp y z x); congruence).
    apply Hyx. apply tc_gt_lt; done.
Qed.

Lemma tc_le_lt_trans x y z : P x → P y → P z →
  cmp x y ≠ Gt → cmp y z = Lt → cmp x z = Lt.
Proof.
  intros Px Py Pz Hxy Hyz. apply tc_gt_lt; [done..|].
  destruct (cmp z x) eqn:Hzx; [exfalso..|done].
  - assert (Hzy : cmp z y ≠ Gt) by (apply (tc_trans P cmp z x y); congruence).
    apply Hzy. apply tc_gt_lt; done.
  - assert (Hzy : cmp z y ≠ Gt) by (apply (tc_trans P cmp z x y); congruence).
    apply Hzy. apply tc_gt_lt; done.
Qed.

Lemma tc_eq_l x y z : P x → P y → P z → cmp x y = Eq → cmp x z = cmp y z.
Proof.
  intros Px Py Pz Hxy. pose proof (tc_eq_sym _ _ Px Py Hxy) as Hyx.
  destruct (cmp y z) eqn:Hyz.
  - assert (cmp x z ≠ Gt) by (apply (tc_trans P cmp x y z); congruence).
    assert (cmp z x ≠ Gt).
    { apply (tc_trans P cmp z y x); [done..| |congruence].
      rewrite (tc_eq_sym y z); done. }
    rewrite (tc_opp P cmp x z) in * by done. destruct (cmp x z); done.
  - apply (tc_le_lt_trans x y z); congruence.
  - apply tc_gt_lt; [done..|].
    apply (tc_lt_le_trans z y x); [done..| |congruence].
    by apply tc_gt_lt.
Qed.

(** The order a comparison describes. *)
Definition cmp_le (x y : A) : Prop := cmp x y ≠ Gt.

#[global] Instance cmp_le_dec : RelDecision cmp_le.
Proof. intros x y. unfold cmp_le. apply _. Defined.
End total_cmp.
Arguments cmp_le {A} cmp x y /.

Lemma total_cmp_weaken {A} (P Q : A → Prop) cmp :
  (∀ x, Q x → P x) → TotalCmp P cmp → TotalCmp Q cmp.
Proof. intros HQ [H1 H2]. split; eauto. Qed.

(** Agreeing on [P] with a total preorder is enough. *)
Lemma total_cmp_ext {A} (P : A → Prop) c d :
  (∀ x y, P x → P y → c x y = d x y) → TotalCmp P d → TotalCmp P c.
Proof.
  intros Heq [H1 H2]. split.
  - intros x y Px Py. rewrite !Heq by done. by apply H1.
  - intros x y z Px Py Pz. rewrite !Heq by done. by apply H2.
Qed.

Lemma total_cmp_on {A B} (P : B → Prop) cmp (f : A → B) :
  TotalCmp P cmp → TotalCmp (λ x, P (f x)) (λ x y, cmp (f x) (f y)).
Proof. intros [H1 H2]. split; eauto. Qed.

Lemma total_cmp_then {A} (P : A → Prop) c d :
  TotalCmp P c → TotalCmp P d → TotalCmp P (λ x y, then_with (c x y) (d x y)).
Proof.
  intros Hc Hd. split.
  - intros x y Px Py. rewrite (tc_opp P c x y), (tc_opp P d x y) by done.
    by destruct (c x y).
  - intros x y z Px Py Pz Hxy Hyz.
    destruct (c x y) eqn:E1; cbn in Hxy; [|clear Hxy|done].
    + rewrite (tc_eq_l P c x y z) by done.
      destruct (c y z) eqn:E2; cbn in *; [|done..].
      by apply (tc_trans P d x y z).
    + rewrite (tc_lt_le_trans P c x y z); try done.
      destruct (c y z); naive_solver.
Qed.

#[export] Instance Z_total_cmp : TotalCmp (λ _, True) Z.compare.
Proof.
  split.
  - intros x y _ _. apply Z.compare_antisym.
  - intros x y z _ _ _. rewrite !Z.compare_gt_iff. lia.
Qed.

#[export] Instance nat_total_cmp : TotalCmp (λ _, True) Nat.compare.
Proof.
  split.
  - intros x y _ _. apply Nat.compare_antisym.
  - intros x y z _ _ _. rewrite !Nat.compare_gt_iff. lia.
Qed.

(** Rust compares [str] by bytes, as [String.compare] does. *)
#[export] Instance string_total_cmp : TotalCmp (λ _, True) String.compare.
Proof.
  assert (Hle : ∀ s t : string, (s ?= t)%string ≠ Gt ↔ String.le s t).
  { intros s t. unfold String.le, String.leb. destruct (s ?= t)%string; naive_solver. }
  split.
  - intros x y _ _. apply String.compare_antisym.
  - intros x y z _ _ _. rewrite !Hle. apply transitivity.
Qed.

Lemma string_compare_refl s : String.compare s s = Eq.
Proof. by apply (tc_refl (λ _, True) String.compare). Qed.

(** ** Sorting and minima

    [slice::sort_by] is stable; on a total preorder its result is determined,
    so insertion sort models it. *)

Fixpoint insert_by {A} (cmp : A → A → comparison) (x : A) (l : list A) : list A :=
  match l with
  | [] => [x]
  | y :: l' => match cmp x y with Gt => y :: insert_by cmp x l' | _ => x :: l end
  end.

Definition sort_by {A} (cmp : A → A → comparison) (l : list A) : list A :=
  foldr (insert_by cmp) [] l.

(** [Iterator::min_by]: the first of the minimal elements. *)
Fixpoint min_by_from {A} (cmp : A → A → comparison) (m : A) (l : list A) : A :=
  match l with
  | [] => m
  | x :: l' => min_by_from cmp (match cmp m x with Gt => x | _ => m end) l'
  end.

Definition min_by {A} (cmp : A → A → comparison) (l : list A) : option A :=
  match l with [] => None | x :: l' => Some (min_by_from cmp x l') end.

Section sort_perm.
Context {A} (cmp : A → A → comparison).

Lemma insert_by_perm x l : insert_by cmp x l ≡ₚ x :: l.
Proof.
  induction l as [|y l IH]; cbn; [done|].
  destruct (cmp x y); [done..|]. rewrite IH. apply Permutation_swap.
Qed.

Lemma sort_by_cons x l : sort_by cmp (x :: l) = insert_by cmp x (sort_by cmp l).
Proof. done. Qed.

Lemma sort_by_perm l : sort_by cmp l ≡ₚ l.
Proof.
  induction l as [|x l IH]; cbn; [done|]. by rewrite insert_by_perm, IH.
Qed.

Lemma elem_of_sort_by x l : x ∈ sort_by cmp l ↔ x ∈ l.
Proof. by rewrite sort_by_perm. Qed.

Lemma length_sort_by l : length (sort_by cmp l) = length l.
Proof. by rewrite sort_by_perm. Qed.

Lemma min_by_from_elem m l : min_by_from cmp m l ∈ m :: l.
Proof.
  revert m; induction l as [|x l IH]; intros m; cbn; [set_solver|].
  specialize (IH (match cmp m x with Gt => x | _ => m end)).
  destruct (cmp m x); set_solver.
Qed.

Lemma min_by_elem l x : min_by cmp l = Some x → x ∈ l.
Proof.
  destruct l as [|y l]; cbn; [done|]. intros [= <-]. apply min_by_from_elem.
Qed.

Lemma min_by_None l : min_by cmp l = None ↔ l = [].
Proof. by destruct l. Qed.
End sort_perm.

Section sort_sorted.
Context {A} (P : A → Prop) (cmp : A → A → comparison) `{!TotalCmp P cmp}.

Lemma insert_by_sorted x l :
  P x → Forall P l →
  StronglySorted (cmp_le cmp) l → StronglySorted (cmp_le cmp) (insert_by cmp x l).
Proof.
  intros Px. induction l as [|y l IH]; cbn.
  { intros _ _. repeat constructor. }
  intros [Py Pl]%Forall_cons [Hs Hy]%StronglySorted_inv.
  assert (Hmid : cmp x y ≠ Gt → StronglySorted (cmp_le cmp) (x :: y :: l)).
  { intros Hxy. repeat (constructor; [|]); try done.
    apply Forall_forall. intros z Hz.
    rewrite Forall_forall in Hy, Pl. eapply (tc_trans P cmp); [..|by apply Hy]; eauto. }
  destruct (cmp x y) eqn:E; [by apply Hmid..|].
  constructor; [by apply IH|].
  apply Forall_forall. intros z Hz.
  rewrite insert_by_perm in Hz. apply elem_of_cons in Hz as [->|Hz].
  - unfold cmp_le. by rewrite (tc_opp P cmp x y), E by done.
  - rewrite Forall_forall in Hy. by apply Hy.
Qed.

Lemma sort_by_sorted l :
  Forall P l → StronglySorted (cmp_le cmp) (sort_by cmp l).
Proof.
  induction l as [|x l IH]; [constructor|].
  intros [Px Pl]%Forall_cons. rewrite sort_by_cons.
  apply insert_by_sorted; [done| |eauto].
  by rewrite sort_by_perm.
Qed.

(** Stability: elements that tie keep their input order. *)
Lemma sort_by_stable a l :
  P a → Forall P l →
  filter (λ x, cmp a x = Eq) (sort_by cmp l) = filter (λ x, cmp a x = Eq) l.
Proof.
  intros Pa. assert (Hins : ∀ x l, P x → Forall P l →
    filter (λ y, cmp a y = Eq) (insert_by cmp x l)
      = filter (λ y, cmp a y = Eq) (x :: l)).
  { clear l. intros x l Px. induction l as [|y l IH]; cbn; [done|].
    intros [Py Pl]%Forall_cons. destruct (cmp x y) eqn:Exy; [done..|].
    rewrite !filter_cons, IH by done. rewrite filter_cons.
    destruct (decide (cmp a x = Eq)) as [Hax|], (decide (cmp a y = Eq)) as [Hay|];
      try done.
    exfalso. pose proof (tc_eq_l P cmp a x y Pa Px Py Hax). congruence. }
  induction l as [|x l IH]; [done|].
  intros [Px Pl]%Forall_cons. rewrite sort_by_cons, Hins; [|done|by rewrite sort_by_perm].
  rewrite !filter_cons, IH by done. done.
Qed.

Lemma min_by_from_le m l y :
  P m → Forall P l → y ∈ m :: l → cmp (min_by_from cmp m l) y ≠ Gt.
Proof.
  revert m y; induction l as [|x l IH]; intros m y Pm; cbn.
  { intros _ ->%list_elem_of_singleton. by rewrite (tc_refl P cmp). }
  intros [Px Pl]%Forall_cons Hy.
  set (m' := match cmp m x with Gt => x | _ => m end).
  assert (Pm' : P m') by (subst m'; by destruct (cmp m x)).
  assert (Hm' : cmp m' m ≠ Gt ∧ cmp m' x ≠ Gt).
  { subst m'. destruct (cmp m x) eqn:E.
    - by rewrite (tc_refl P cmp), E.
    - by rewrite (tc_refl P cmp), E.
    - rewrite (tc_refl P cmp x) by done. by rewrite (tc_opp P cmp m x), E by done. }
  assert (Pr : P (min_by_from cmp m' l)).
  { pose proof (min_by_from_elem cmp m' l) as [->|?]%elem_of_cons; [done|].
    rewrite Forall_forall in Pl; auto. }
  apply elem_of_cons in Hy as [->|[->|Hy]%elem_of_cons].
  - eapply (tc_trans P cmp _ m'); [done..| |apply Hm']. apply IH; set_solver.
  - eapply (tc_trans P cmp _ m'); [done..| |apply Hm']. apply IH; set_solver.
  - apply IH; set_solver.
Qed.

Lemma min_by_le l x y :
  Forall P l → min_by cmp l = Some x → y ∈ l → cmp x y ≠ Gt.
Proof.
  destruct l as [|z l]; cbn; [done|].
  intros [Pz Pl]%Forall_cons [= <-] Hy. by apply min_by_from_le.
Qed.
End sort_sorted.
