(* ===== verification/F64.v ===== *)
(** * Binary64 floating point

    Rust's [f64] as the Standard Library's [spec_float] at precision 53 and
    exponent bound 1024: every operation is the correctly rounded one and
    computes in the kernel. All NaNs are one value, which [total_cmp] places
    above [+inf] (a quiet NaN with a clear sign bit). [f64::max] and
    [f64::min] ignore a NaN operand; on the two zeros, where Rust allows
    either answer, the model keeps the first operand. *)

From Stdlib Require Import SpecFloat.
From S2P Require Import Prelude.

Definition f64 := spec_float.
Definition prec : Z := 53.
Definition emax : Z := 1024.

Declare Scope f64_scope.
Delimit Scope f64_scope with f64.
Bind Scope f64_scope with f64.

Definition f_add : f64 → f64 → f64 := SFadd prec emax.
Definition f_sub : f64 → f64 → f64 := SFsub prec emax.
Definition f_mul : f64 → f64 → f64 := SFmul prec emax.
Definition f_div : f64 → f64 → f64 := SFdiv prec emax.
Definition f_neg : f64 → f64 := SFopp.
Definition f_abs : f64 → f64 := SFabs.
Definition f_lt : f64 → f64 → bool := SFltb.
Definition f_le : f64 → f64 → bool := SFleb.
Definition f_eq : f64 → f64 → bool := SFeqb.

Notation "x + y" := (f_add x y) : f64_scope.
Notation "x - y" := (f_sub x y) : f64_scope.
Notation "x * y" := (f_mul x y) : f64_scope.
Notation "x / y" := (f_div x y) : f64_scope.
Notation "- x" := (f_neg x) : f64_scope.
Notation "x <? y" := (f_lt x y) : f64_scope.
Notation "x <=? y" := (f_le x y) : f64_scope.
Notation "x =? y" := (f_eq x y) : f64_scope.
Notation "x >? y" := (f_lt y x) (only parsing) : f64_scope.
Notation "x >=? y" := (f_le y x) (only parsing) : f64_scope.

(** [n as f64] for an integer: the nearest double, ties to even. *)
Definition f_of_Z (n : Z) : f64 := binary_normalize prec emax n 0 false.

(** A decimal literal [n / d], correctly rounded. *)
Definition f_lit (n : Z) (d : positive) : f64 :=
  match n with
  | Z0 => S754_zero false
  | Zpos p => SFdiv prec emax (S754_finite false p 0) (S754_finite false d 0)
  | Zneg p => SFdiv prec emax (S754_finite true p 0) (S754_finite false d 0)
  end.

Definition f_zero : f64 := S754_zero false.
Definition f_inf : f64 := S754_infinity false.
Definition f_neg_inf : f64 := S754_infinity true.

Definition is_nan (x : f64) : bool :=
  match x with S754_nan => true | _ => false end.
Definition is_finite (x : f64) : bool :=
  match x with S754_zero _ | S754_finite _ _ _ => true | _ => false end.
Definition is_sign_negative (x : f64) : bool :=
  match x with
  | S754_zero s | S754_infinity s | S754_finite s _ _ => s
  | S754_nan => false
  end.

Definition f_max (x y : f64) : f64 :=
  if is_nan x then y else if is_nan y then x else if (x <? y)%f64 then y else x.
Definition f_min (x y : f64) : f64 :=
  if is_nan x then y else if is_nan y then x else if (y <? x)%f64 then y else x.

(** [f64::partial_cmp]. *)
Definition partial_cmp : f64 → f64 → option comparison := SFcompare.

(** ** Rounding to integers *)

(** The integer part of a finite number, and whether what was cut off is
    below ([Lt]), at ([Eq]) or above ([Gt]) one half; [None] when exact. *)
Definition int_part (m : positive) (e : Z) : Z * option comparison :=
  if (0 <=? e)%Z then (Z.shiftl (Zpos m) e, None)
  else
    let d := (2 ^ (- e))%Z in
    let q := (Zpos m / d)%Z in
    let r := (Zpos m mod d)%Z in
    (q, if (r =? 0)%Z then None else Some (2 * r ?= d)%Z).

(** Rebuilds a signed whole number, keeping the sign of a zero result. *)
Definition f_whole (s : bool) (q : Z) : f64 :=
  match q with
  | Z0 => S754_zero s
  | _ => binary_normalize prec emax (if s then - q else q) 0 s
  end.

Definition round_with (up : bool → Z → option comparison → bool) (x : f64) : f64 :=
  match x with
  | S754_finite s m e =>
      let '(q, r) := int_part m e in
      f_whole s (if up s q r then q + 1 else q)%Z
  | _ => x
  end.

Definition f_trunc : f64 → f64 := round_with (λ _ _ _, false).
Definition f_floor : f64 → f64 :=
  round_with (λ s _ r, s && match r with None => false | _ => true end).
Definition f_ceil : f64 → f64 :=
  round_with (λ s _ r, negb s && match r with None => false | _ => true end).
(** [f64::round]: half away from zero. *)
Definition f_round : f64 → f64 :=
  round_with (λ _ _ r, match r with Some (Eq | Gt) => true | _ => false end).
(** [f64::round_ties_even]. *)
Definition f_round_ties_even : f64 → f64 :=
  round_with (λ _ q r,
    match r with Some Gt => true | Some Eq => Z.odd q | _ => false end).

(** [x as i64], [x as u64], [x as usize]: truncates, saturates, NaN to 0. *)
Definition f_to_int (lo hi : Z) (x : f64) : Z :=
  match x with
  | S754_nan | S754_zero _ => 0
  | S754_infinity s => if s then lo else hi
  | S754_finite s m e =>
      let q := fst (int_part m e) in
      Z.max lo (Z.min hi (if s then - q else q))
  end%Z.

Definition f_as_i64 : f64 → Z := f_to_int i64_min i64_max.
Definition f_as_u64 : f64 → Z := f_to_int 0 u64_max.

(** [x % y]: the exact remainder with the sign of [x]. *)
Definition f_rem (x y : f64) : f64 :=
  match x, y with
  | S754_nan, _ | _, S754_nan => S754_nan
  | S754_infinity _, _ | _, S754_zero _ => S754_nan
  | S754_zero _, _ | _, S754_infinity _ => x
  | S754_finite s mx ex, S754_finite _ my ey =>
      let e := Z.min ex ey in
      let r := (Z.shiftl (Zpos mx) (ex - e) mod Z.shiftl (Zpos my) (ey - e))%Z in
      match r with
      | Z0 => S754_zero s
      | _ => binary_normalize prec emax (if s then - r else r) e s
      end
  end.

(** ** The order

    [rank] maps a number to a triple whose lexicographic order is the order
    of the numbers (canonical mantissas of equal exponent compare by value);
    [total_rank] refines it with the sign of zero and places NaN last. *)

Definition rank (x : f64) : Z * Z * Z :=
  match x with
  | S754_infinity true => (-2, 0, 0)
  | S754_finite true m e => (-1, - e, - Zpos m)
  | S754_zero _ => (0, 0, 0)
  | S754_finite false m e => (1, e, Zpos m)
  | S754_infinity false => (2, 0, 0)
  | S754_nan => (3, 0, 0)
  end%Z.

Definition total_rank (x : f64) : Z * Z * Z :=
  match x with
  | S754_zero s => (0, if s then -1 else 0, 0)%Z
  | _ => rank x
  end.

Definition lex3 (a b : Z * Z * Z) : comparison :=
  then_with (a.1.1 ?= b.1.1)%Z (then_with (a.1.2 ?= b.1.2)%Z (a.2 ?= b.2)%Z).

(** [f64::total_cmp]. *)
Definition total_cmp (x y : f64) : comparison := lex3 (total_rank x) (total_rank y).

#[export] Instance f64_eq_dec : EqDecision f64.
Proof. solve_decision. Defined.

#[export] Instance lex3_total_cmp : TotalCmp (λ _, True) lex3.
Proof.
  unfold lex3. apply (total_cmp_then (λ _, True)); [|apply (total_cmp_then (λ _, True))].
  - apply (total_cmp_on (λ _, True) Z.compare (λ a : Z * Z * Z, a.1.1) _).
  - apply (total_cmp_on (λ _, True) Z.compare (λ a : Z * Z * Z, a.1.2) _).
  - apply (total_cmp_on (λ _, True) Z.compare (λ a : Z * Z * Z, a.2) _).
Qed.

#[export] Instance total_cmp_total : TotalCmp (λ _, True) total_cmp.
Proof. apply (total_cmp_on (λ _, True) lex3 total_rank _). Qed.

Lemma partial_cmp_rank x y :
  is_nan x = false → is_nan y = false →
  partial_cmp x y = Some (lex3 (rank x) (rank y)).
Proof.
  destruct x as [|[]| |[] mx ex], y as [|[]| |[] my ey];
    cbn; try discriminate; intros _ _; try reflexivity.
  - f_equal. unfold lex3; cbn -[Z.compare Z.opp]. rewrite !Z.compare_opp.
    rewrite (Z.compare_antisym ex ey), (Z.compare_antisym (Zpos mx) (Zpos my)).
    by destruct (ex ?= ey)%Z.
  - f_equal. unfold lex3; cbn. by destruct (ex ?= ey)%Z.
Qed.

(** Comparison of two numbers: [partial_cmp] with NaN read as a tie, as the
    sources write it ([partial_cmp(..).unwrap_or(Equal)]). *)
Definition cmp_f64 (a b : f64) : comparison := default Eq (partial_cmp a b).

Notation not_nan x := (is_nan x = false).

#[export] Instance cmp_f64_total : TotalCmp (λ x, not_nan x) cmp_f64.
Proof.
  pose proof (total_cmp_on (λ _, True) lex3 rank _) as [H1 H2].
  unfold cmp_f64. split.
  - intros x y Hx Hy. rewrite !partial_cmp_rank by done. cbn. by apply H1.
  - intros x y z Hx Hy Hz. rewrite !partial_cmp_rank by done. cbn. by apply H2.
Qed.

Lemma f_lt_cmp x y : not_nan x → not_nan y → f_lt x y = true ↔ cmp_f64 x y = Lt.
Proof.
  intros Hx Hy. unfold f_lt, SFltb, cmp_f64, partial_cmp.
  pose proof (partial_cmp_rank x y Hx Hy) as E. unfold partial_cmp in E.
  rewrite E. cbn. destruct (lex3 _ _); naive_solver.
Qed.

Lemma f_le_cmp x y : not_nan x → not_nan y → f_le x y = true ↔ cmp_f64 x y ≠ Gt.
Proof.
  intros Hx Hy. unfold f_le, SFleb, cmp_f64, partial_cmp.
  pose proof (partial_cmp_rank x y Hx Hy) as E. unfold partial_cmp in E.
  rewrite E. cbn. destruct (lex3 _ _); naive_solver.
Qed.

Lemma f_eq_cmp x y : not_nan x → not_nan y → f_eq x y = true ↔ cmp_f64 x y = Eq.
Proof.
  intros Hx Hy. unfold f_eq, SFeqb, cmp_f64, partial_cmp.
  pose proof (partial_cmp_rank x y Hx Hy) as E. unfold partial_cmp in E.
  rewrite E. cbn. destruct (lex3 _ _); naive_solver.
Qed.

(** Every comparison with a NaN is false. *)
Lemma f_lt_nan x y : f_lt x y = true → not_nan x ∧ not_nan y.
Proof. destruct x, y; done. Qed.

Lemma f_le_nan x y : f_le x y = true → not_nan x ∧ not_nan y.
Proof. destruct x, y; done. Qed.

Lemma f_eq_nan x y : f_eq x y = true → not_nan x ∧ not_nan y.
Proof. destruct x, y; done. Qed.

Lemma f_not_lt_le x y : not_nan x → not_nan y → f_lt x y = false ↔ f_le y x = true.
Proof.
  intros Hx Hy. rewrite f_le_cmp, (tc_opp _ cmp_f64 x y) by done.
  pose proof (f_lt_cmp x y Hx Hy) as H.
  destruct (f_lt x y), (cmp_f64 x y); cbn; naive_solver.
Qed.

Lemma f_not_le_lt x y : not_nan x → not_nan y → f_le x y = false ↔ f_lt y x = true.
Proof.
  intros Hx Hy. rewrite f_lt_cmp, (tc_opp _ cmp_f64 x y) by done.
  pose proof (f_le_cmp x y Hx Hy) as H.
  destruct (f_le x y), (cmp_f64 x y); cbn; naive_solver.
Qed.

Lemma f_lt_le x y : f_lt x y = true → f_le x y = true.
Proof.
  intros H. destruct (f_lt_nan _ _ H). apply f_le_cmp; [done..|].
  apply f_lt_cmp in H; congruence.
Qed.

Lemma f_le_refl x : not_nan x → f_le x x = true.
Proof. intros Hx. apply f_le_cmp; [done..|]. by rewrite (tc_refl _ cmp_f64). Qed.

Lemma f_lt_irrefl x : f_lt x x = false.
Proof.
  destruct (f_lt x x) eqn:E; [|done]. destruct (f_lt_nan _ _ E) as [Hx _].
  apply f_lt_cmp in E; [|done..]. by rewrite (tc_refl _ cmp_f64) in E.
Qed.

Lemma f_le_trans x y z : f_le x y = true → f_le y z = true → f_le x z = true.
Proof.
  intros H1 H2. destruct (f_le_nan _ _ H1), (f_le_nan _ _ H2).
  rewrite f_le_cmp in * by done. by apply (tc_trans _ cmp_f64 x y z).
Qed.

Lemma f_lt_le_trans x y z : f_lt x y = true → f_le y z = true → f_lt x z = true.
Proof.
  intros H1 H2. destruct (f_lt_nan _ _ H1), (f_le_nan _ _ H2).
  rewrite f_lt_cmp, f_le_cmp in * by done.
  by apply (tc_lt_le_trans _ cmp_f64 x y z).
Qed.

Lemma f_le_lt_trans x y z : f_le x y = true → f_lt y z = true → f_lt x z = true.
Proof.
  intros H1 H2. destruct (f_le_nan _ _ H1), (f_lt_nan _ _ H2).
  rewrite f_lt_cmp, f_le_cmp in * by done.
  by apply (tc_le_lt_trans _ cmp_f64 x y z).
Qed.

Lemma f_le_total x y : not_nan x → not_nan y → f_le x y = true ∨ f_le y x = true.
Proof.
  intros Hx Hy. rewrite !f_le_cmp by done. by apply (tc_total _ cmp_f64).
Qed.

(** Neither bound of [f64::max] and [f64::min] is exceeded. *)
Lemma f_max_le_l x y : not_nan x → f_le x (f_max x y) = true.
Proof.
  intros Hx. unfold f_max. rewrite Hx.
  destruct (is_nan y) eqn:Hy; [by apply f_le_refl|].
  destruct (f_lt x y) eqn:E; [by apply f_lt_le|by apply f_le_refl].
Qed.

Lemma f_max_le_r x y : not_nan y → f_le y (f_max x y) = true.
Proof.
  intros Hy. unfold f_max. destruct (is_nan x) eqn:Hx; [by apply f_le_refl|].
  rewrite Hy. destruct (f_lt x y) eqn:E; [by apply f_le_refl|].
  by apply f_not_lt_le.
Qed.

Lemma f_min_le_l x y : not_nan x → f_le (f_min x y) x = true.
Proof.
  intros Hx. unfold f_min. rewrite Hx.
  destruct (is_nan y) eqn:Hy; [by apply f_le_refl|].
  destruct (f_lt y x) eqn:E; [by apply f_lt_le|by apply f_le_refl].
Qed.

Lemma f_min_le_r x y : not_nan y → f_le (f_min x y) y = true.
Proof.
  intros Hy. unfold f_min. destruct (is_nan x) eqn:Hx; [by apply f_le_refl|].
  rewrite Hy. destruct (f_lt y x) eqn:E; [by apply f_le_refl|].
  by apply f_not_lt_le.
Qed.

Lemma is_finite_not_nan x : is_finite x = true → not_nan x.
Proof. by destruct x. Qed.

#[export] Hint Resolve is_finite_not_nan f_le_refl f_lt_le : core.

(** ** Exact integers *)

Section exact.
Local Open Scope Z_scope.

Lemma digits_shift k p : digits2_pos (Pos.iter xO p k) = (digits2_pos p + k)%positive.
Proof.
  induction k as [|k IH] using Pos.peano_ind.
  - cbn. lia.
  - rewrite Pos.iter_succ. cbn. rewrite IH. lia.
Qed.

Lemma digits_bound p : 2 ^ (Zpos (digits2_pos p) - 1) <= Zpos p < 2 ^ Zpos (digits2_pos p).
Proof.
  induction p as [p IH|p IH|]; cbn [digits2_pos]; [| |by cbn].
  all: rewrite Pos2Z.inj_succ; replace (Z.succ (Zpos (digits2_pos p)) - 1) with (Z.succ (Zpos (digits2_pos p) - 1)) by lia;
    rewrite !Z.pow_succ_r by lia; lia.
Qed.

Lemma f_of_Z_small p :
  Zpos p < 2 ^ 53 →
  f_of_Z (Zpos p) = S754_finite false
    (match (53 - Zpos (digits2_pos p))%Z with Zpos k => Pos.iter xO p k | _ => p end)
    (Zpos (digits2_pos p) - 53).
Proof.
  intros Hp. pose proof (digits_bound p) as Hd.
  assert (Hd53 : Zpos (digits2_pos p) <= 53).
  { apply Z.nlt_ge. intros H. assert (2 ^ 53 <= 2 ^ (Zpos (digits2_pos p) - 1)) by (apply Z.pow_le_mono_r; lia). lia. }
  unfold f_of_Z. cbn [binary_normalize]. unfold binary_round, shl_align.
  assert (Hf : ∀ d, 0 < d <= 53 → fexp prec emax d = d - 53).
  { intros d Hd'. unfold fexp, emin, prec, emax. lia. }
  rewrite Z.add_0_r, Hf, Z.sub_0_r by lia.
  set (d := Zpos (digits2_pos p)) in *.
  set (r := match d - 53 with Zneg k => (Pos.iter xO p k, d - 53) | _ => (p, 0) end).
  set (m := match (53 - d)%Z with Zpos k => Pos.iter xO p k | _ => p end).
  assert (Hr : r = (m, d - 53) ∧ Zpos (digits2_pos m) = 53).
  { unfold r, m. destruct (d - 53) as [|k|k] eqn:E; [|lia|].
    - replace (53 - d) with 0 by lia. split; [done|]. fold d. lia.
    - replace (53 - d) with (Zpos k) by lia. split; [done|]. rewrite digits_shift. lia. }
  destruct Hr as [-> Hm]. unfold binary_round_aux, shr_fexp. cbn [shr_record_of_loc Zdigits2].
  assert (Hn : fexp prec emax (Zpos (digits2_pos m) + (d - 53)) - (d - 53) = 0).
  { rewrite Hf; lia. }
  rewrite Hn. cbn [shr shr_m loc_of_shr_record round_nearest_even shr_record_of_loc Zdigits2].
  rewrite Hn. cbn [shr shr_m].
  rewrite (proj2 (Z.leb_le _ _)); [done|]. unfold emax, prec. lia.
Qed.

Lemma cmp_of_Z_pos p q :
  Zpos p < 2 ^ 53 → Zpos q < 2 ^ 53 →
  cmp_f64 (f_of_Z (Zpos p)) (f_of_Z (Zpos q)) = (Zpos p ?= Zpos q).
Proof.
  intros Hp Hq. unfold cmp_f64. rewrite partial_cmp_rank; rewrite ?f_of_Z_small by done; [|done..].
  cbn [default rank]. unfold lex3. cbn [fst snd].
  pose proof (digits_bound p) as Bp. pose proof (digits_bound q) as Bq.
  set (dp := Zpos (digits2_pos p)) in *. set (dq := Zpos (digits2_pos q)) in *.
  assert (Hshift : ∀ k x, Zpos (Pos.iter xO x k) = Zpos x * 2 ^ Zpos k).
  { intros k x. induction k as [|k IH] using Pos.peano_ind; [cbn; lia|].
    rewrite Pos.iter_succ, Pos2Z.inj_xO, IH, Pos2Z.inj_succ, Z.pow_succ_r by lia. lia. }
  change (1 ?= 1) with Eq. cbn [then_with].
  destruct (Z.compare_spec (dp - 53) (dq - 53)) as [E|E|E]; cbn [then_with].
  - assert (dp = dq) as Hdd by lia. rewrite <- Hdd.
    destruct (53 - dp) as [|k|k]; [done| |done]. rewrite !Hshift.
    by rewrite <- Zmult_compare_compat_r by lia.
  - symmetry. apply Z.compare_lt_iff. assert (2 ^ dp <= 2 ^ (dq - 1)) by (apply Z.pow_le_mono_r; lia). lia.
  - symmetry. apply Z.compare_gt_iff. assert (2 ^ dq <= 2 ^ (dp - 1)) by (apply Z.pow_le_mono_r; lia). lia.
Qed.

Lemma f_of_Z_neg p : f_of_Z (Zneg p) = f_neg (f_of_Z (Zpos p)).
Proof.
  unfold f_of_Z. cbn [binary_normalize]. unfold binary_round, binary_round_aux.
  destruct (shl_align _ _ _) as [m e]. destruct (shr_fexp _ _ _ _ _) as [r e'].
  destruct (shr_fexp _ _ _ _ _) as [r' e'']. destruct (shr_m r'); try done.
  by case_match.
Qed.

Lemma cmp_f64_neg a b :
  is_nan a = false → is_nan b = false → cmp_f64 (f_neg a) (f_neg b) = cmp_f64 b a.
Proof.
  intros Ha Hb. unfold cmp_f64.
  assert (Hn : ∀ x, is_nan (f_neg x) = is_nan x) by (by intros []).
  rewrite !partial_cmp_rank by (rewrite ?Hn; done). cbn [default].
  destruct a as [|[]| |[] ma ea], b as [|[]| |[] mb eb]; try done;
    unfold lex3; cbn [fst snd rank f_neg SFopp negb].
  - change (1 ?= 1) with Eq. change (-1 ?= -1) with Eq. cbn [then_with].
    by rewrite !Z.compare_opp.
  - change (1 ?= 1) with Eq. change (-1 ?= -1) with Eq. cbn [then_with].
    by rewrite !Z.compare_opp.
Qed.

(** Integers of up to 53 bits convert exactly: they are numbers and keep
    their order. *)
Lemma f_of_Z_not_nan z : Z.abs z < 2 ^ 53 → is_nan (f_of_Z z) = false.
Proof.
  intros Hz. destruct z as [|p|p]; [done|by rewrite f_of_Z_small|].
  rewrite f_of_Z_neg, f_of_Z_small by done. done.
Qed.

Lemma cmp_of_Z x y :
  Z.abs x < 2 ^ 53 → Z.abs y < 2 ^ 53 → cmp_f64 (f_of_Z x) (f_of_Z y) = (x ?= y).
Proof.
  intros Hx Hy. destruct x as [|p|p], y as [|q|q]; try done.
  - by rewrite f_of_Z_small.
  - by rewrite f_of_Z_neg, f_of_Z_small.
  - by rewrite f_of_Z_small.
  - by apply cmp_of_Z_pos.
  - by rewrite f_of_Z_neg, !f_of_Z_small.
  - by rewrite f_of_Z_neg, f_of_Z_small.
  - by rewrite f_of_Z_neg, !f_of_Z_small.
  - rewrite !f_of_Z_neg, cmp_f64_neg, cmp_of_Z_pos by (done || by rewrite f_of_Z_small).
    cbn. apply Pos.compare_antisym.
Qed.
End exact.


(** Rounding a number never makes a NaN. *)
Lemma shr_nonneg p mrs : (0 <= shr_m mrs)%Z → (0 <= shr_m (SpecFloat.iter_pos shr_1 p mrs))%Z.
Proof.
  revert mrs. induction p as [p IH|p IH|]; intros mrs H; cbn.
  1: apply IH, IH. 2: by apply IH, IH.
  all: destruct mrs as [[|[]|] ? ?]; cbn in *; lia.
Qed.

Lemma shr_fexp_nonneg m e l : (0 <= m)%Z → (0 <= shr_m (shr_fexp prec emax m e l).1)%Z.
Proof.
  intros Hm. unfold shr_fexp, shr.
  assert (0 <= shr_m (shr_record_of_loc m l))%Z by (by destruct l as [|[]]).
  destruct (_ - _)%Z; cbn; [done| |done]. by apply shr_nonneg.
Qed.

Lemma binary_round_aux_num s m e l :
  (0 <= m)%Z → is_nan (binary_round_aux prec emax s m e l) = false.
Proof.
  intros Hm. unfold binary_round_aux.
  pose proof (shr_fexp_nonneg m e l Hm) as H1. destruct (shr_fexp _ _ m e l) as [r1 e1]. cbn in H1.
  set (m' := round_nearest_even _ _).
  assert (Hm' : (0 <= m')%Z).
  { unfold m', round_nearest_even. destruct (loc_of_shr_record r1) as [|[]]; try lia.
    destruct (Z.even _); lia. }
  pose proof (shr_fexp_nonneg m' e1 loc_Exact Hm') as H2.
  destruct (shr_fexp _ _ m' _ _) as [r2 e2]. cbn in H2.
  destruct (shr_m r2); [done| |lia]. by destruct (_ <=? _)%Z.
Qed.

Lemma binary_normalize_num m e s : is_nan (binary_normalize prec emax m e s) = false.
Proof.
  destruct m; [done|..]; cbn; unfold binary_round; destruct (shl_align _ _ _);
    by apply binary_round_aux_num.
Qed.

Lemma f_of_Z_num z : is_nan (f_of_Z z) = false.
Proof. apply binary_normalize_num. Qed.

Lemma f_lit_num n d : is_nan (f_lit n d) = false.
Proof.
  assert (H : ∀ s p, is_nan (SFdiv prec emax (S754_finite s p 0) (S754_finite false d 0)) = false).
  { intros s p. cbn [SFdiv]. unfold SFdiv_core_binary.
    set (m' := match (_ - _ - _)%Z with Z0 => _ | Zpos _ => _ | Zneg _ => _ end).
    assert (Hm : (0 <= m')%Z).
    { unfold m'. destruct (_ - _ - _)%Z; try lia. apply Z.shiftl_nonneg. lia. }
    pose proof (Z.div_pos m' (Zpos d) Hm) as Hq. unfold Z.div in Hq.
    destruct (Z.div_eucl m' (Zpos d)) as [q r]. apply binary_round_aux_num. lia. }
  destruct n; [done|apply H..].
Qed.

Lemma f_mul_num x s m e : is_nan x = false → is_nan (x * S754_finite s m e)%f64 = false.
Proof. destruct x; try done. intros _. by apply binary_round_aux_num. Qed.

(** The exponent only grows while digits are shifted out. *)
Lemma binary_round_aux_exp s m e l s' m' e' :
  binary_round_aux prec emax s m e l = S754_finite s' m' e' → (e <= e')%Z.
Proof.
  assert (H : ∀ m e l, (e <= (shr_fexp prec emax m e l).2)%Z).
  { intros m1 e1 l1. unfold shr_fexp, shr. destruct (_ - e1)%Z; cbn; lia. }
  unfold binary_round_aux. pose proof (H m e l) as H1. destruct (shr_fexp _ _ m e l) as [r1 e1].
  set (m1 := round_nearest_even _ _). pose proof (H m1 e1 loc_Exact) as H2.
  destruct (shr_fexp _ _ m1 _ _) as [r2 e2]. cbn in H1, H2.
  destruct (shr_m r2); try done. destruct (_ <=? _)%Z; [|done]. intros [= _ _ <-]. lia.
Qed.

(** Shifting right divides. *)
Lemma shr_div p mrs :
  (0 <= shr_m mrs)%Z → shr_m (SpecFloat.iter_pos shr_1 p mrs) = (shr_m mrs / 2 ^ Zpos p)%Z.
Proof.
  assert (H1 : ∀ mrs, (0 <= shr_m mrs)%Z → shr_m (shr_1 mrs) = (shr_m mrs / 2)%Z).
  { intros [[|[q|q|]|] r t]; cbn [shr_m shr_1]; intros H; try done; Z.div_mod_to_equations; lia. }
  revert mrs. induction p as [p IH|p IH|]; intros mrs H; cbn [SpecFloat.iter_pos].
  - pose proof (H1 mrs H) as Hs.
    assert (0 <= shr_m (shr_1 mrs))%Z by (rewrite Hs; apply Z.div_pos; lia).
    rewrite !IH by (done || by apply shr_nonneg). rewrite Hs, !Z.div_div by lia.
    f_equal. replace (Zpos p~1) with (1 + (Zpos p + Zpos p))%Z by lia. rewrite !Z.pow_add_r by lia. ring.
  - rewrite !IH by (done || by apply shr_nonneg). rewrite Z.div_div by lia.
    f_equal. replace (Zpos p~0) with (Zpos p + Zpos p)%Z by lia. rewrite !Z.pow_add_r by lia. ring.
  - by apply H1.
Qed.

Lemma shr_fexp_pos m e l : (0 < m → 0 <= e → 0 < shr_m (shr_fexp prec emax m e l).1)%Z.
Proof.
  intros Hm He. unfold shr_fexp, shr. destruct m as [|p|]; try lia. cbn [Zdigits2].
  pose proof (digits_bound p) as Hd. set (d := Zpos (digits2_pos p)) in *.
  assert (Hr : shr_m (shr_record_of_loc (Zpos p) l) = Zpos p) by (by destruct l as [|[]]).
  destruct (fexp prec emax (d + e) - e)%Z as [|n|] eqn:Hn; cbn [fst]; rewrite ?Hr; [lia| |lia].
  rewrite shr_div, Hr by (rewrite Hr; lia).
  assert (Zpos n = d - 53)%Z by (unfold fexp, emin, prec, emax in Hn; lia).
  apply Z.div_str_pos. split; [lia|]. etransitivity; [|apply Hd]. apply Z.pow_le_mono_r; lia.
Qed.

(** A whole mantissa rounds to a number above zero, or to infinity. *)
Lemma round_aux_pos s m e l :
  (0 <= e)%Z →
  match binary_round_aux prec emax s (Zpos m) e l with
  | S754_finite s' _ _ | S754_infinity s' => s' = s ∧ True
  | _ => False
  end.
Proof.
  intros He. unfold binary_round_aux.
  assert (Hexp : ∀ m e l, (e <= (shr_fexp prec emax m e l).2)%Z).
  { intros m1 e1 l1. unfold shr_fexp, shr. destruct (_ - e1)%Z; cbn; lia. }
  pose proof (shr_fexp_pos (Zpos m) e l ltac:(lia) He) as H1.
  pose proof (Hexp (Zpos m) e l) as E1. destruct (shr_fexp _ _ (Zpos m) e l) as [r1 e1].
  cbn in H1, E1. set (m1 := round_nearest_even _ _).
  assert (Hm1 : (0 < m1)%Z).
  { unfold m1, round_nearest_even. destruct (loc_of_shr_record r1) as [|[]]; try lia.
    destruct (Z.even _); lia. }
  pose proof (shr_fexp_pos m1 e1 loc_Exact Hm1 ltac:(lia)) as H2.
  destruct (shr_fexp _ _ m1 _ _) as [r2 e2]. cbn in H2.
  destruct (shr_m r2); try lia. by destruct (_ <=? _)%Z.
Qed.

(** A whole number above zero keeps its integer part above zero. *)
Lemma f_of_Z_as_u64 p : (1 <= f_as_u64 (f_of_Z (Zpos p)))%Z.
Proof.
  destruct (Z.lt_ge_cases (Zpos p) (2 ^ 53)) as [Hp|Hp].
  - pose proof (digits_bound p) as Hd. rewrite f_of_Z_small by done. cbn [f_as_u64 f_to_int].
    unfold f_as_u64, f_to_int, int_part, u64_max. set (d := Zpos (digits2_pos p)) in *.
    assert (Hd53 : (d <= 53)%Z).
    { apply Z.nlt_ge. intros H. assert (2 ^ 53 <= 2 ^ (d - 1))%Z by (apply Z.pow_le_mono_r; lia). lia. }
    destruct (Z.leb_spec 0 (d - 53)) as [Hle|Hlt]; cbn [fst].
    + replace (d - 53)%Z with 0%Z by lia. replace (53 - d)%Z with 0%Z by lia. rewrite Z.shiftl_0_r. lia.
    + destruct (53 - d)%Z as [|k|k] eqn:E; try lia. rewrite Z.opp_sub_distr, Z.add_comm.
      replace (53 + - d)%Z with (Zpos k) by lia.
      assert (Hs : Zpos (Pos.iter xO p k) = (Zpos p * 2 ^ Zpos k)%Z).
      { clear. induction k as [|k IH] using Pos.peano_ind; [cbn; lia|].
        rewrite Pos.iter_succ, Pos2Z.inj_xO, IH, Pos2Z.inj_succ, Z.pow_succ_r by lia. lia. }
      rewrite Hs, Z.div_mul by lia. lia.
  - unfold f_of_Z. cbn [binary_normalize]. unfold binary_round, shl_align.
    pose proof (digits_bound p) as Hd. set (d := Zpos (digits2_pos p)) in *.
    assert (Hd53 : (53 < d)%Z).
    { apply Z.nle_gt. intros H. assert (2 ^ d <= 2 ^ 53)%Z by (apply Z.pow_le_mono_r; lia). lia. }
    destruct (fexp prec emax (d + 0) - 0)%Z eqn:Ef;
      [| |unfold fexp, emin, prec, emax in Ef; lia].
    all: pose proof (round_aux_pos false p 0 loc_Exact ltac:(lia)) as Hpos.
    all: destruct (binary_round_aux prec emax false (Zpos p) 0 loc_Exact) as [s'|s'| |s' m' e'] eqn:E;
      try done; [by destruct Hpos as [-> _]|].
    all: destruct Hpos as [-> _]; apply binary_round_aux_exp in E.
    all: unfold f_as_u64, f_to_int, int_part, u64_max; rewrite (proj2 (Z.leb_le 0 e')) by done; cbn [fst].
    all: rewrite Z.shiftl_mul_pow2 by done.
    all: assert (0 < 2 ^ e')%Z by (apply Z.pow_pos_nonneg; lia); nia.
Qed.

(** [total_cmp] only refines the order of the numbers. *)
Lemma total_cmp_le x y : not_nan x → not_nan y → total_cmp x y ≠ Gt → f_le x y = true.
Proof.
  intros Hx Hy Hc. apply f_le_cmp; [done..|]. unfold cmp_f64.
  rewrite partial_cmp_rank by done. cbn. revert Hc. unfold total_cmp.
  destruct x as [[]|[]| |[] mx ex], y as [[]|[]| |[] my ey]; done.
Qed.
