(* ===== verification/Strs.v ===== *)
(** * Rust strings

    A Rust [str] is its UTF-8 bytes, a Standard Library [string]. Functions
    that Rust states on bytes or on ASCII characters work on the bytes
    directly; functions on [char] go through [chars], the code points. *)

From Stdlib Require Import Ascii.
From S2P Require Import Prelude.

Notation byte := ascii (only parsing).

Definition byte_val (c : byte) : Z := Z.of_N (N_of_ascii c).
Definition byte_of (z : Z) : byte := ascii_of_N (Z.to_N z).

Definition in_range (lo hi : Z) (c : byte) : bool :=
  (lo <=? byte_val c)%Z && (byte_val c <=? hi)%Z.

Definition is_ascii_digit (c : byte) : bool := in_range 48 57 c.
Definition is_ascii_upper (c : byte) : bool := in_range 65 90 c.
Definition is_ascii_lower (c : byte) : bool := in_range 97 122 c.
Definition is_ascii_alphabetic (c : byte) : bool := is_ascii_upper c || is_ascii_lower c.
Definition is_ascii_alphanumeric (c : byte) : bool :=
  is_ascii_alphabetic c || is_ascii_digit c.

Definition byte_eqb (a b : byte) : bool := Ascii.eqb a b.

Fixpoint str_len (s : string) : Z :=
  match s with "" => 0 | String _ s' => 1 + str_len s' end%Z.

Definition is_empty_str (s : string) : bool :=
  match s with "" => true | _ => false end.

Fixpoint str_all (p : byte → bool) (s : string) : bool :=
  match s with "" => true | String c s' => p c && str_all p s' end.

Fixpoint str_map (f : byte → byte) (s : string) : string :=
  match s with "" => "" | String c s' => String (f c) (str_map f s') end.

Definition to_ascii_lowercase : string → string :=
  str_map (λ c, if is_ascii_upper c then byte_of (byte_val c + 32) else c).
Definition to_ascii_uppercase : string → string :=
  str_map (λ c, if is_ascii_lower c then byte_of (byte_val c - 32) else c).

(** [str::contains] of a character. *)
Fixpoint contains_byte (x : byte) (s : string) : bool :=
  match s with "" => false | String c s' => byte_eqb c x || contains_byte x s' end.

(** [str::strip_prefix], [str::starts_with]. *)
Fixpoint strip_prefix (p s : string) : option string :=
  match p, s with
  | "", _ => Some s
  | String a p', String b s' => if byte_eqb a b then strip_prefix p' s' else None
  | String _ _, "" => None
  end.

Definition starts_with (p s : string) : bool :=
  match strip_prefix p s with Some _ => true | None => false end.

(** [str::contains] of a text. *)
Fixpoint contains_str (p s : string) : bool :=
  starts_with p s || match s with "" => false | String _ s' => contains_str p s' end.

(** [str::strip_suffix], [str::ends_with]. *)
Fixpoint strip_suffix (p s : string) : option string :=
  if bool_decide (s = p) then Some "" else
  match s with
  | "" => None
  | String c s' => String c <$> strip_suffix p s'
  end.

Definition ends_with (p s : string) : bool :=
  match strip_suffix p s with Some _ => true | None => false end.

(** [str::split] at a character: never empty. *)
Fixpoint split_byte (x : byte) (s : string) : list string :=
  match s with
  | "" => [""]
  | String c s' =>
      if byte_eqb c x then "" :: split_byte x s'
      else match split_byte x s' with
           | [] => [String c ""]
           | w :: ws => String c w :: ws
           end
  end.

(** [str::split_once] at a character. *)
Fixpoint split_once (x : byte) (s : string) : option (string * string) :=
  match s with
  | "" => None
  | String c s' =>
      if byte_eqb c x then Some ("", s')
      else prod_map (String c) id <$> split_once x s'
  end.

(** [slice::join]. *)
Fixpoint join (sep : string) (ws : list string) : string :=
  match ws with
  | [] => ""
  | [w] => w
  | w :: ws' => w +:+ sep +:+ join sep ws'
  end.

(** [str::trim_end_matches] of a character. *)
Fixpoint trim_end_byte (x : byte) (s : string) : string :=
  match s with
  | "" => ""
  | String c s' =>
      match trim_end_byte x s' with
      | "" => if byte_eqb c x then "" else String c ""
      | t => String c t
      end
  end.

(** ** White space

    The length in bytes of the white space character [s] starts with, for
    the characters of [char::is_whitespace]. *)
Definition ws_len (s : string) : option nat :=
  match s with
  | "" => None
  | String a s1 =>
      let x := byte_val a in
      if ((9 <=? x) && (x <=? 13) || (x =? 32))%Z then Some 1%nat else
      match s1 with
      | "" => None
      | String b s2 =>
          let y := byte_val b in
          if ((x =? 194) && ((y =? 133) || (y =? 160)))%Z then Some 2%nat else
          match s2 with
          | "" => None
          | String c _ =>
              let z := byte_val c in
              if ((x =? 225) && (y =? 154) && (z =? 128)
                  || (x =? 226) && (y =? 128) &&
                     ((128 <=? z) && (z <=? 138) || (z =? 168) || (z =? 169) || (z =? 175))
                  || (x =? 226) && (y =? 129) && (z =? 159)
                  || (x =? 227) && (y =? 128) && (z =? 128))%Z
              then Some 3%nat else None
          end
      end
  end.

(** [str::split_whitespace]: [skip] counts the bytes left of a white space
    character that was already recognised, [cur] is the word being read. *)
Fixpoint split_ws_go (skip : nat) (cur : string) (s : string) : list string :=
  let flush := if is_empty_str cur then [] else [cur] in
  match s with
  | "" => flush
  | String c s' =>
      match skip with
      | S k => split_ws_go k "" s'
      | O =>
          match ws_len s with
          | Some n => flush ++ split_ws_go (pred n) "" s'
          | None => split_ws_go 0 (cur +:+ String c "") s'
          end
      end
  end.

Definition split_whitespace (s : string) : list string := split_ws_go 0 "" s.

(** ** Code points *)

Fixpoint chars (s : string) : list Z :=
  match s with
  | "" => []
  | String a s1 =>
      let x := byte_val a in
      if (x <? 128)%Z then x :: chars s1 else
      match s1 with
      | "" => [x]
      | String b s2 =>
          let y := (byte_val b mod 64)%Z in
          if (x <? 224)%Z then ((x mod 32) * 64 + y)%Z :: chars s2 else
          match s2 with
          | "" => [x]
          | String c s3 =>
              let z := (byte_val c mod 64)%Z in
              if (x <? 240)%Z then ((x mod 16) * 4096 + y * 64 + z)%Z :: chars s3 else
              match s3 with
              | "" => [x]
              | String d s4 =>
                  let w := (byte_val d mod 64)%Z in
                  ((x mod 8) * 262144 + y * 4096 + z * 64 + w)%Z :: chars s4
              end
          end
      end
  end.

(** UTF-8 of one code point ([String::push]). *)
Definition encode_char (c : Z) : string :=
  if (c <? 128)%Z then String (byte_of c) "" else
  if (c <? 2048)%Z then
    String (byte_of (192 + c / 64)) (String (byte_of (128 + c mod 64)) "") else
  if (c <? 65536)%Z then
    String (byte_of (224 + c / 4096)) (String (byte_of (128 + c / 64 mod 64))
      (String (byte_of (128 + c mod 64)) "")) else
  String (byte_of (240 + c / 262144)) (String (byte_of (128 + c / 4096 mod 64))
    (String (byte_of (128 + c / 64 mod 64)) (String (byte_of (128 + c mod 64)) ""))).

Fixpoint encode (cs : list Z) : string :=
  match cs with [] => "" | c :: cs' => encode_char c +:+ encode cs' end.

(** ** Numbers as text *)

Definition digit (d : Z) : byte := byte_of (48 + d).

Fixpoint dec_go (fuel : nat) (n : Z) (acc : string) : string :=
  match fuel with
  | O => acc
  | S f =>
      let acc' := String (digit (n mod 10)) acc in
      if (n <? 10)%Z then acc' else dec_go f (n / 10) acc'
  end.

(** Decimal digits of a non-negative integer; [Z.log2 n + 1] steps suffice. *)
Definition dec_abs (n : Z) : string := dec_go (S (Z.to_nat (Z.log2 n))) n "".

(** [Display] of an integer. *)
Definition dec (n : Z) : string :=
  if (n <? 0)%Z then String "-" (dec_abs (- n)) else dec_abs n.

Fixpoint zeros (n : nat) : string :=
  match n with O => "" | S k => String "0" (zeros k) end.

(** [{:0w}] of an integer: zero padding after the sign. *)
Definition dec_pad (w : nat) (n : Z) : string :=
  let body := dec_abs (Z.abs n) in
  let sign := if (n <? 0)%Z then "-" else "" in
  sign +:+ zeros (w - String.length sign - String.length body) +:+ body.

Definition hex_digit (d : Z) : byte :=
  if (d <? 10)%Z then byte_of (48 + d) else byte_of (87 + d).

(** [{:0wx}] of a value below [16 ^ w]. *)
Fixpoint hex_pad (w : nat) (n : Z) : string :=
  match w with
  | O => ""
  | S k => hex_pad k (n / 16) +:+ String (hex_digit (n mod 16)) ""
  end.

Definition digit_val (c : byte) : Z := byte_val c - 48.

(** The value of a run of ASCII digits. *)
Fixpoint digits_val (acc : Z) (s : string) : Z :=
  match s with "" => acc | String c s' => digits_val (acc * 10 + digit_val c) s' end.

(** [!text.is_empty() && text.bytes().all(is_ascii_digit)]. *)
Definition all_digits (text : string) : bool :=
  negb (is_empty_str text) && str_all is_ascii_digit text.

(** [parse::<u32>] and [parse::<u64>] of a text of ASCII digits. *)
Definition parse_digits (max : Z) (text : string) : option Z :=
  if all_digits text then
    let v := digits_val 0 text in if (v <=? max)%Z then Some v else None
  else None.

(** ** Lemmas *)

Lemma byte_val_of z : (0 ≤ z < 256)%Z → byte_val (byte_of z) = z.
Proof.
  intros Hz. unfold byte_val, byte_of. rewrite N_ascii_embedding by lia. lia.
Qed.

Lemma byte_of_val c : byte_of (byte_val c) = c.
Proof. unfold byte_val, byte_of. rewrite N2Z.id. apply ascii_N_embedding. Qed.

Lemma byte_val_range c : (0 ≤ byte_val c < 256)%Z.
Proof. unfold byte_val. pose proof (N_ascii_bounded c). lia. Qed.

Lemma byte_val_inj a b : byte_val a = byte_val b → a = b.
Proof. intros H. by rewrite <- (byte_of_val a), H, byte_of_val. Qed.

Lemma byte_eqb_eq a b : byte_eqb a b = true ↔ a = b.
Proof. apply Ascii.eqb_eq. Qed.

Lemma byte_eqb_refl a : byte_eqb a a = true.
Proof. by apply byte_eqb_eq. Qed.

Lemma str_app_cons c s t : String c s +:+ t = String c (s +:+ t).
Proof. done. Qed.

Lemma str_app_nil_l s : "" +:+ s = s.
Proof. done. Qed.

Lemma str_app_nil_r s : s +:+ "" = s.
Proof. induction s as [|c s IH]; [done|]. exact (f_equal (String c) IH). Qed.

Lemma str_app_assoc a b c : (a +:+ b) +:+ c = a +:+ b +:+ c.
Proof. induction a as [|x a IH]; [done|]. exact (f_equal (String x) IH). Qed.

Lemma encode_app cs ds : encode (cs ++ ds) = encode cs +:+ encode ds.
Proof. induction cs as [|c cs IH]; [done|]. cbn [app encode]. by rewrite IH, str_app_assoc. Qed.

Lemma str_all_app p s t : str_all p (s +:+ t) = str_all p s && str_all p t.
Proof.
  induction s as [|c s IH]; [done|]. rewrite str_app_cons. cbn.
  by rewrite IH, andb_assoc.
Qed.

Lemma str_all_impl p q s :
  (∀ c, p c = true → q c = true) → str_all p s = true → str_all q s = true.
Proof.
  intros Hpq. induction s as [|c s IH]; cbn; [done|].
  intros [? ?]%andb_prop. apply andb_true_intro. auto.
Qed.

(** The bytes of a text as numbers. *)
Fixpoint bytes (s : string) : list Z :=
  match s with "" => [] | String c s' => byte_val c :: bytes s' end.

Lemma str_all_bytes p s x :
  str_all p s = true → x ∈ bytes s → ∃ c, x = byte_val c ∧ p c = true.
Proof.
  induction s as [|c s IH]; cbn; [by intros _ ?%not_elem_of_nil|].
  intros [Hc Hs]%andb_prop [->|Hx]%elem_of_cons; eauto.
Qed.

(** A character takes at least a byte. *)
Lemma chars_length s : length (chars s) ≤ String.length s.
Proof.
  generalize (le_n (String.length s)). generalize (String.length s) at 2 3. intros n.
  revert s. induction n as [|n IH]; intros s Hn; [destruct s; [done|cbn in Hn; lia]|].
  destruct s as [|a s1]; [cbn; lia|]. cbn [chars]. cbn in Hn.
  repeat (case_match; cbn [length String.length] in *; try lia);
    match goal with |- context [chars ?t] => specialize (IH t ltac:(lia)); lia end.
Qed.

Lemma chars_ascii_app s t :
  str_all (λ c, byte_val c <? 128)%Z s = true → chars (s +:+ t) = bytes s ++ chars t.
Proof.
  induction s as [|c s IH]; cbn [str_all]; [done|].
  intros [Hc Hs]%andb_prop. rewrite str_app_cons. cbn. rewrite Hc.
  by rewrite <- IH.
Qed.

Lemma chars_encode_char c s :
  (0 ≤ c < 2097152)%Z → chars (encode_char c +:+ s) = c :: chars s.
Proof.
  intros Hc. unfold encode_char.
  destruct (Z.ltb_spec c 128); [|destruct (Z.ltb_spec c 2048); [|destruct (Z.ltb_spec c 65536)]];
    rewrite !str_app_cons, str_app_nil_l; cbn [chars]; rewrite !byte_val_of by (Z.div_mod_to_equations; lia);
    repeat (match goal with |- context [(?a <? ?b)%Z] => destruct (Z.ltb_spec a b) end;
            try (exfalso; Z.div_mod_to_equations; lia)); f_equal; Z.div_mod_to_equations; lia.
Qed.

Lemma chars_range_n n s : String.length s ≤ n → Forall (λ c, 0 ≤ c < 2097152)%Z (chars s).
Proof.
  revert s. induction n as [|n IH]; intros s Hn.
  { destruct s; [constructor|cbn in Hn; lia]. }
  destruct s as [|a s1]; [constructor|]. cbn [chars].
  pose proof (byte_val_range a). cbn in Hn.
  case_match; [constructor; [lia|apply IH; lia]|].
  destruct s1 as [|b s2]; [repeat constructor; lia|]. cbn in Hn.
  case_match; [constructor; [|apply IH; lia]|].
  { Z.div_mod_to_equations; lia. }
  destruct s2 as [|c s3]; [repeat constructor; lia|]. cbn in Hn.
  case_match; [constructor; [|apply IH; lia]|].
  { Z.div_mod_to_equations; lia. }
  destruct s3 as [|d s4]; [repeat constructor; lia|]. cbn in Hn.
  constructor; [|apply IH; lia].
  Z.div_mod_to_equations; lia.
Qed.

Lemma chars_range s : Forall (λ c, 0 ≤ c < 2097152)%Z (chars s).
Proof. by apply (chars_range_n (String.length s)). Qed.

Lemma strip_prefix_Some p s r : strip_prefix p s = Some r ↔ s = p +:+ r.
Proof.
  revert s. induction p as [|a p IH]; intros s; cbn [strip_prefix].
  { rewrite str_app_nil_l. naive_solver. }
  rewrite str_app_cons. destruct s as [|b s]; [done|].
  destruct (byte_eqb a b) eqn:E.
  - apply byte_eqb_eq in E as ->. rewrite IH. naive_solver.
  - split; [done|]. intros [= -> _]. by rewrite byte_eqb_refl in E.
Qed.

Lemma starts_with_true p s : starts_with p s = true ↔ ∃ r, s = p +:+ r.
Proof.
  unfold starts_with. setoid_rewrite <- strip_prefix_Some.
  destruct (strip_prefix p s); naive_solver.
Qed.

Lemma split_byte_ne x s : split_byte x s ≠ [].
Proof. destruct s; cbn; repeat case_match; done. Qed.

(** Splitting at a separator and joining with it are inverse. *)
Lemma join_split x s : join (String x "") (split_byte x s) = s.
Proof.
  induction s as [|c s IH]; [done|]. cbn [split_byte].
  destruct (split_byte x s) as [|w ws] eqn:E; [by apply split_byte_ne in E|].
  destruct (byte_eqb c x) eqn:Ec.
  - apply byte_eqb_eq in Ec as ->. exact (f_equal (String x) IH).
  - destruct ws; exact (f_equal (String c) IH).
Qed.

Lemma split_app x a b : split_byte x (a +:+ String x b) = split_byte x a ++ split_byte x b.
Proof.
  induction a as [|c a IH].
  - rewrite str_app_nil_l. cbn. by rewrite byte_eqb_refl.
  - rewrite str_app_cons. cbn [split_byte]. rewrite IH.
    destruct (byte_eqb c x); [done|].
    destruct (split_byte x a) eqn:E; [by apply split_byte_ne in E|done].
Qed.

Lemma join_app sep a b :
  a ≠ [] → b ≠ [] → join sep (a ++ b) = join sep a +:+ sep +:+ join sep b.
Proof.
  intros Ha Hb. induction a as [|w a IH]; [done|]. destruct a as [|w' a].
  - destruct b; [done|]. done.
  - cbn [app] in *. change (join sep (w :: w' :: a ++ b)) with
      (w +:+ sep +:+ join sep (w' :: a ++ b)). rewrite IH by done.
    change (join sep (w :: w' :: a)) with (w +:+ sep +:+ join sep (w' :: a)).
    by rewrite !str_app_assoc.
Qed.

(** ** Decimal text reads back *)

Lemma digit_is_digit d : (0 ≤ d < 10)%Z → is_ascii_digit (digit d) = true.
Proof.
  intros Hd. unfold is_ascii_digit, in_range, digit. rewrite byte_val_of by lia.
  apply andb_true_intro. lia.
Qed.

Lemma digit_val_digit d : (0 ≤ d < 10)%Z → digit_val (digit d) = d.
Proof. intros Hd. unfold digit_val, digit. rewrite byte_val_of by lia. lia. Qed.

Lemma digits_val_app acc s t : digits_val acc (s +:+ t) = digits_val (digits_val acc s) t.
Proof. revert acc. induction s as [|c s IH]; intros acc; [done|]. rewrite str_app_cons. apply IH. Qed.

Lemma length_str_app s t : String.length (s +:+ t) = String.length s + String.length t.
Proof. induction s as [|c s IH]; [done|]. rewrite str_app_cons. cbn. by rewrite IH. Qed.

(** What [dec_go] puts in front of its accumulator. *)
Lemma dec_go_spec fuel n acc :
  (0 ≤ n < 2 ^ Z.of_nat fuel)%Z → fuel ≠ 0 →
  ∃ s, dec_go fuel n acc = s +:+ acc ∧ str_all is_ascii_digit s = true ∧ s ≠ "" ∧
    (∀ a, digits_val a s = a * 10 ^ Z.of_nat (String.length s) + n)%Z ∧
    (∀ w, w ≠ 0 → (n < 10 ^ Z.of_nat w)%Z → String.length s ≤ w).
Proof.
  revert n acc. induction fuel as [|f IH]; intros n acc Hn Hf; [done|]. cbn [dec_go].
  pose proof (Z.mod_pos_bound n 10 ltac:(lia)) as Hm.
  destruct (Z.ltb_spec n 10) as [Hlt|Hge].
  - rewrite (Z.mod_small n 10) by lia. exists (String (digit n) ""). split_and!.
    + by rewrite str_app_cons.
    + cbn. by rewrite digit_is_digit by lia.
    + done.
    + intros a. cbn [digits_val String.length]. rewrite digit_val_digit by lia. lia.
    + intros w Hw _. cbn. lia.
  - destruct f as [|f]; [cbn in Hn; lia|].
    destruct (IH (n / 10)%Z (String (digit (n mod 10)) acc)) as (s & Hs & Hd & Hne & Hv & Hw).
    { rewrite Nat2Z.inj_succ, Z.pow_succ_r in Hn by lia.
      split; [apply Z.div_pos; lia|]. apply Z.div_lt_upper_bound; lia. }
    { done. }
    exists (s +:+ String (digit (n mod 10)) ""). split_and!.
    + rewrite Hs, str_app_assoc, str_app_cons. done.
    + rewrite str_all_app, Hd. cbn. by rewrite digit_is_digit.
    + by destruct s.
    + intros a. rewrite digits_val_app, Hv, length_str_app. cbn [digits_val String.length].
      rewrite digit_val_digit by done. rewrite Nat.add_1_r, Nat2Z.inj_succ, Z.pow_succ_r by lia.
      pose proof (Z.div_mod n 10 ltac:(lia)). lia.
    + intros w Hw0 Hnw. rewrite length_str_app. cbn. destruct w as [|w]; [done|].
      assert (Hw' : w ≠ 0) by (intros ->; cbn in Hnw; lia).
      rewrite Nat2Z.inj_succ, Z.pow_succ_r in Hnw by lia.
      specialize (Hw w Hw' ltac:(apply Z.div_lt_upper_bound; lia)). lia.
Qed.

Lemma dec_abs_spec n :
  (0 ≤ n)%Z →
  str_all is_ascii_digit (dec_abs n) = true ∧ dec_abs n ≠ "" ∧
  (∀ a, digits_val a (dec_abs n) = a * 10 ^ Z.of_nat (String.length (dec_abs n)) + n)%Z ∧
  (∀ w, w ≠ 0 → (n < 10 ^ Z.of_nat w)%Z → String.length (dec_abs n) ≤ w).
Proof.
  intros Hn. unfold dec_abs. set (fuel := S (Z.to_nat (Z.log2 n))).
  destruct (dec_go_spec fuel n "") as (s & -> & H); [|done|by rewrite str_app_nil_r].
  split; [done|]. unfold fuel. rewrite Nat2Z.inj_succ, Z2Nat.id by apply Z.log2_nonneg.
  destruct (Z.eq_dec n 0%Z) as [->|Hne]; [done|]. apply Z.log2_spec. lia.
Qed.

Lemma zeros_spec k a :
  digits_val a (zeros k) = (a * 10 ^ Z.of_nat k)%Z ∧
  str_all is_ascii_digit (zeros k) = true ∧ String.length (zeros k) = k.
Proof.
  revert a. induction k as [|k IH]; intros a; cbn [zeros digits_val str_all String.length].
  { split_and!; [lia|done..]. }
  destruct (IH (a * 10 + digit_val "0")%Z) as (H1 & H2 & H3). rewrite H1, H2, H3.
  split_and!; [|done..]. rewrite Nat2Z.inj_succ, Z.pow_succ_r by lia.
  change (digit_val "0") with 0%Z. lia.
Qed.

(** Zero-padded text of a value that fits has exactly the given width. *)
Lemma dec_pad_spec w n :
  w ≠ 0 → (0 ≤ n < 10 ^ Z.of_nat w)%Z →
  String.length (dec_pad w n) = w ∧ str_all is_ascii_digit (dec_pad w n) = true ∧
  digits_val 0 (dec_pad w n) = n.
Proof.
  intros Hw Hn. unfold dec_pad. rewrite (proj2 (Z.ltb_ge n 0)), Z.abs_eq by lia.
  rewrite str_app_nil_l. cbn [String.length]. rewrite Nat.sub_0_r.
  destruct (dec_abs_spec n) as (Hd & _ & Hv & Hl); [lia|]. specialize (Hl w Hw ltac:(lia)).
  destruct (zeros_spec (w - String.length (dec_abs n)) 0) as (Z1 & Z2 & Z3).
  rewrite length_str_app, str_all_app, digits_val_app, Z1, Z2, Z3, Hd, Hv. split_and!; [lia|done|lia].
Qed.

(** ** Parts of a text *)

Lemma contains_app x s t : contains_byte x (s +:+ t) = contains_byte x s || contains_byte x t.
Proof. induction s as [|c s IH]; [done|]. rewrite str_app_cons. cbn [contains_byte]. by rewrite IH, orb_assoc. Qed.

Lemma split_none x s : contains_byte x s = false → split_byte x s = [s].
Proof.
  induction s as [|c s IH]; [done|]. cbn. intros [Hc Hs]%orb_false_elim.
  rewrite Hc. by rewrite IH.
Qed.

Lemma split_parts x s : Forall (λ w, contains_byte x w = false) (split_byte x s).
Proof.
  induction s as [|c s IH]; cbn; [by constructor|].
  destruct (byte_eqb c x) eqn:Hc; [by constructor|].
  destruct (split_byte x s) as [|w ws]; [by repeat constructor; cbn; rewrite Hc|].
  apply Forall_cons in IH as [Hw Hws]. constructor; [|done]. cbn. by rewrite Hc.
Qed.

(** Equal lengths in front, equal parts. *)
Lemma str_app_inj a a' b b' :
  String.length a = String.length a' → a +:+ b = a' +:+ b' → a = a' ∧ b = b'.
Proof.
  revert a'. induction a as [|c a IH]; intros [|c' a'] Hl; cbn in Hl; try lia; [by rewrite !str_app_nil_l|].
  rewrite !str_app_cons. intros [= -> H]. apply IH in H as [-> ->]; [done|lia].
Qed.

Lemma hex_pad_length w n : String.length (hex_pad w n) = w.
Proof. revert n. induction w as [|w IH]; intros n; [done|]. cbn [hex_pad]. rewrite length_str_app, IH. cbn. lia. Qed.

Lemma hex_digit_inj d d' : (0 ≤ d < 16)%Z → (0 ≤ d' < 16)%Z → hex_digit d = hex_digit d' → d = d'.
Proof.
  intros Hd Hd'. unfold hex_digit.
  destruct (Z.ltb_spec d 10), (Z.ltb_spec d' 10); intros Heq%(f_equal byte_val);
    rewrite !byte_val_of in Heq by lia; lia.
Qed.

Lemma hex_pad_inj w n n' :
  (0 ≤ n < 16 ^ Z.of_nat w)%Z → (0 ≤ n' < 16 ^ Z.of_nat w)%Z → hex_pad w n = hex_pad w n' → n = n'.
Proof.
  revert n n'. induction w as [|w IH]; intros n n' Hn Hn'; [cbn in *; lia|].
  rewrite Nat2Z.inj_succ, Z.pow_succ_r in Hn, Hn' by lia. cbn [hex_pad]. intros H.
  apply str_app_inj in H as [H1 H2]; [|by rewrite !hex_pad_length].
  injection H2 as H2. apply hex_digit_inj in H2; [|apply Z.mod_pos_bound; lia..].
  apply IH in H1; [rewrite (Z.div_mod n 16), (Z.div_mod n' 16) by lia; congruence|..].
  all: split; [apply Z.div_pos; lia|apply Z.div_lt_upper_bound; lia].
Qed.
