(* ===== verification/Core.v ===== *)
(** * agora-core: roles and the card lifecycle

    [src/crates/agora-core/src/lib.rs]: the role order, the names of roles and
    card states, and [check_transition], the guard of every card move. *)

From S2P Require Import Prelude.

Inductive Role : Type := Observer | Worker | Supervisor | Controller | Owner.

#[export] Instance Role_eq_dec : EqDecision Role.
Proof. solve_decision. Defined.

(** The derived [PartialOrd]: declaration order. *)
Definition role_rank (r : Role) : nat :=
  match r with
  | Observer => 0 | Worker => 1 | Supervisor => 2 | Controller => 3 | Owner => 4
  end.

Definition role_lt (a b : Role) : bool := Nat.ltb (role_rank a) (role_rank b).
Definition role_le (a b : Role) : bool := Nat.leb (role_rank a) (role_rank b).

Arguments role_lt : simpl never.
Arguments role_le : simpl never.

Definition role_as_str (r : Role) : string :=
  match r with
  | Observer => "observer"
  | Worker => "worker"
  | Supervisor => "supervisor"
  | Controller => "controller"
  | Owner => "owner"
  end.

Definition role_parse (s : string) : option Role :=
  if decide (s = "observer") then Some Observer
  else if decide (s = "worker") then Some Worker
  else if decide (s = "supervisor") then Some Supervisor
  else if decide (s = "controller") then Some Controller
  else if decide (s = "owner") then Some Owner
  else None.

Inductive CardState : Type :=
| Backlog | Ready | Claimed | Doing | Review | Done | Blocked | Cancelled.

#[export] Instance CardState_eq_dec : EqDecision CardState.
Proof. solve_decision. Defined.

Definition card_as_str (s : CardState) : string :=
  match s with
  | Backlog => "backlog"
  | Ready => "ready"
  | Claimed => "claimed"
  | Doing => "doing"
  | Review => "review"
  | Done => "done"
  | Blocked => "blocked"
  | Cancelled => "cancelled"
  end.

Definition card_parse (s : string) : option CardState :=
  if decide (s = "backlog") then Some Backlog
  else if decide (s = "ready") then Some Ready
  else if decide (s = "claimed") then Some Claimed
  else if decide (s = "doing") then Some Doing
  else if decide (s = "review") then Some Review
  else if decide (s = "done") then Some Done
  else if decide (s = "blocked") then Some Blocked
  else if decide (s = "cancelled") then Some Cancelled
  else None.

Definition is_terminal (s : CardState) : bool :=
  match s with Done | Cancelled => true | _ => false end.

Inductive TransitionError : Type :=
| Illegal (from to : CardState)
| Forbidden (role : Role)
| EvidenceRequired
| ReviewRequired.

#[export] Instance TransitionError_eq_dec : EqDecision TransitionError.
Proof. solve_decision. Defined.

Record Gate : Type := mk_gate {
  has_evidence : bool;
  independent_approval : bool;
  require_review : bool }.

(** The [matches!] of the legal pairs. *)
Definition legal (from to : CardState) : bool :=
  match from, to with
  | Backlog, Ready | Ready, Claimed | Claimed, Doing | Claimed, Ready
  | Doing, Review | Doing, Done | Review, Doing | Review, Done | Blocked, Ready => true
  | (Backlog | Ready | Claimed | Doing | Review), Blocked => true
  | (Backlog | Ready | Claimed | Doing | Review | Blocked), Cancelled => true
  | _, _ => false
  end.

Definition check_transition (from to : CardState) (role : Role) (gate : Gate) :
    result TransitionError unit :=
  if negb (legal from to) then Err (Illegal from to) else
  let planning :=
    (bool_decide (to = Ready) && bool_decide (from = Backlog))
    || bool_decide (to = Cancelled) in
  if planning && role_lt role Supervisor then Err (Forbidden role)
  else if negb planning && role_lt role Worker then Err (Forbidden role)
  else if bool_decide (to = Done) && negb (has_evidence gate) then Err EvidenceRequired
  else if bool_decide (to = Done) && require_review gate
          && negb (independent_approval gate) then Err ReviewRequired
  else Ok tt.

(** ** The lifecycle as a step relation *)

(** A move of one card, with the actor's role and what the gate saw. *)
Record move : Type := mk_move {
  mv_from : CardState; mv_to : CardState; mv_role : Role; mv_gate : Gate }.

(** A sequence of accepted moves, each from the state the last one left. *)
Inductive history : CardState → list move → CardState → Prop :=
| history_nil s : history s [] s
| history_snoc s ms t m :
    history s ms t → mv_from m = t →
    check_transition t (mv_to m) (mv_role m) (mv_gate m) = Ok tt →
    history s (ms ++ [m]) (mv_to m).

Definition done_gate (g : Gate) : Prop :=
  has_evidence g = true ∧ (require_review g = true → independent_approval g = true).

Lemma role_parse_as_str r : role_parse (role_as_str r) = Some r.
Proof. by destruct r. Qed.

Lemma card_parse_as_str s : card_parse (card_as_str s) = Some s.
Proof. by destruct s. Qed.

Lemma role_parse_Some s r : role_parse s = Some r → s = role_as_str r.
Proof. unfold role_parse. repeat case_decide; naive_solver. Qed.

Lemma card_parse_Some s c : card_parse s = Some c → s = card_as_str c.
Proof. unfold card_parse. repeat case_decide; naive_solver. Qed.

(** Only a legal pair by a worker or above passes, and Done only through its
    gate. *)
Lemma check_transition_Ok from to role gate :
  check_transition from to role gate = Ok tt →
  legal from to = true ∧ role_le Worker role = true ∧
  (to = Done → done_gate gate ∧ (from = Doing ∨ from = Review)).
Proof.
  unfold check_transition, done_gate.
  destruct (legal from to) eqn:Hl; cbn; [|done].
  destruct (bool_decide (to = Done)) eqn:Hd.
  - apply bool_decide_eq_true in Hd as ->. cbn.
    destruct gate as [[] [] []], role, from; cbn in *; naive_solver.
  - apply bool_decide_eq_false in Hd. cbn.
    destruct role; cbn; intros H; split_and!; try done; exfalso; revert H;
      destruct from, to; cbn; done.
Qed.

(** The mutually exclusive outcomes of [check_transition], in the order the
    guards run. *)
Definition min_role (from to : CardState) : Role :=
  match from, to with
  | Backlog, Ready | _, Cancelled => Supervisor
  | _, _ => Worker
  end.

Definition transition_spec (from to : CardState) (role : Role) (gate : Gate)
    (r : result TransitionError unit) : Prop :=
  let min := min_role from to in
  match r with
  | Err (Illegal f t) => f = from ∧ t = to ∧ legal from to = false
  | Err (Forbidden ro) =>
      ro = role ∧ legal from to = true ∧ role_rank role < role_rank min
  | Err EvidenceRequired =>
      legal from to = true ∧ role_rank min ≤ role_rank role ∧
      to = Done ∧ has_evidence gate = false
  | Err ReviewRequired =>
      legal from to = true ∧ role_rank min ≤ role_rank role ∧
      to = Done ∧ has_evidence gate = true ∧
      require_review gate = true ∧ independent_approval gate = false
  | Ok _ =>
      legal from to = true ∧ role_rank min ≤ role_rank role ∧
      (to = Done → done_gate gate)
  end.

(** [check_transition] answers every request exactly as its branches
    specify: an illegal pair first, then a role below the minimum (supervisor
    for promoting out of backlog and for cancelling, worker otherwise), then
    missing evidence, then missing review, else acceptance. *)
Theorem check_transition_spec from to role gate :
  transition_spec from to role gate (check_transition from to role gate).
Proof.
  unfold check_transition, transition_spec, done_gate.
  assert (Hmin : min_role from to =
    if bool_decide (to = Ready) && bool_decide (from = Backlog)
       || bool_decide (to = Cancelled) then Supervisor else Worker)
    by (by destruct from, to).
  rewrite Hmin. clear Hmin. destruct (legal from to); cbn; [|done].
  destruct (_ || _); cbn.
  - destruct (role_lt role Supervisor) eqn:Hr; cbn.
    { apply Nat.ltb_lt in Hr. naive_solver. }
    apply Nat.ltb_ge in Hr.
    case_bool_decide; destruct gate as [[] [] []]; cbn in *; naive_solver.
  - destruct (role_lt role Worker) eqn:Hr; cbn.
    { apply Nat.ltb_lt in Hr. naive_solver. }
    apply Nat.ltb_ge in Hr.
    case_bool_decide; destruct gate as [[] [] []]; cbn in *; naive_solver.
Qed.

(** A card that went from backlog to done by accepted moves was claimed
    and worked on, its last move came from doing or review, and that move saw
    evidence and, where review is required, an independent approval. *)
Theorem done_history ms :
  history Backlog ms Done →
  ∃ ms' last,
    ms = ms' ++ [last] ∧ mv_to last = Done ∧
    (mv_from last = Doing ∨ mv_from last = Review) ∧ done_gate (mv_gate last) ∧
    (∃ m, m ∈ ms' ∧ mv_to m = Claimed) ∧ (∃ m, m ∈ ms' ∧ mv_to m = Doing).
Proof.
  assert (Hinv : ∀ s ms t, history s ms t → s = Backlog →
    (t = Claimed ∨ t = Doing ∨ t = Review → ∃ m, m ∈ ms ∧ mv_to m = Claimed) ∧
    (t = Doing ∨ t = Review → ∃ m, m ∈ ms ∧ mv_to m = Doing)).
  { clear ms. induction 1 as [|s ms t m Hh IH Hf Hc]; intros ->; [naive_solver|].
    destruct (IH eq_refl) as [IH1 IH2]. apply check_transition_Ok in Hc as (Hl & _ & _).
    assert (Hmem : ∀ c, (∃ x, x ∈ ms ∧ mv_to x = c) → ∃ x, x ∈ ms ++ [m] ∧ mv_to x = c).
    { intros c (x & ? & ?). exists x. set_solver. }
    assert (Hself : ∃ x, x ∈ ms ++ [m] ∧ mv_to x = mv_to m) by (exists m; set_solver).
    destruct t, (mv_to m); cbn in Hl; try discriminate; naive_solver. }
  intros Hh. inversion Hh as [|s ms' t m Hh' Hf Hc Hs Ht Hto]; subst.
  apply check_transition_Ok in Hc as (_ & _ & Hd).
  destruct (Hd Hto) as [Hg Hfrom]. destruct (Hinv _ _ _ Hh' eq_refl) as [H1 H2].
  exists ms', m. naive_solver.
Qed.

Lemma done_history_witness :
  ∃ ms, history Backlog ms Done ∧
  ∃ ms' last,
    ms = ms' ++ [last] ∧ mv_to last = Done ∧
    (mv_from last = Doing ∨ mv_from last = Review) ∧ done_gate (mv_gate last) ∧
    (∃ m, m ∈ ms' ∧ mv_to m = Claimed) ∧ (∃ m, m ∈ ms' ∧ mv_to m = Doing).
Proof.
  set (g := mk_gate true true true).
  set (ms := [mk_move Backlog Ready Supervisor g; mk_move Ready Claimed Worker g;
              mk_move Claimed Doing Worker g; mk_move Doing Review Worker g;
              mk_move Review Done Worker g]).
  assert (Hh : history Backlog ms Done).
  { eapply (history_snoc _ [_; _; _; _] _ (mk_move Review Done Worker g)); [|done..].
    eapply (history_snoc _ [_; _; _] _ (mk_move Doing Review Worker g)); [|done..].
    eapply (history_snoc _ [_; _] _ (mk_move Claimed Doing Worker g)); [|done..].
    eapply (history_snoc _ [_] _ (mk_move Ready Claimed Worker g)); [|done..].
    eapply (history_snoc _ [] _ (mk_move Backlog Ready Supervisor g)); [|done..].
    constructor. }
  exists ms. split; [exact Hh|]. exact (done_history ms Hh).
Defined.
