(* ===== verification/Deliver.v ===== *)
(** * agora-deliver: the delivery ladder

    [src/crates/agora-deliver/src/lib.rs]: which mechanisms a harness has,
    strongest first, how long each rung waits for an ack, and which step is
    next for an unacked message. *)

From Stdlib Require Import Ascii.
From S2P Require Import Prelude Strs.

Inductive Harness : Type :=
| ClaudeCode | Codex | CopilotCli | CopilotVsCode | OpenCode | Cursor | Antigravity
| Unknown.

#[export] Instance Harness_eq_dec : EqDecision Harness.
Proof. solve_decision. Defined.

Definition harness_all : list Harness :=
  [ClaudeCode; Codex; CopilotCli; CopilotVsCode; OpenCode; Cursor; Antigravity; Unknown].

Definition harness_as_str (h : Harness) : string :=
  match h with
  | ClaudeCode => "claude_code"
  | Codex => "codex"
  | CopilotCli => "copilot_cli"
  | CopilotVsCode => "copilot_vscode"
  | OpenCode => "opencode"
  | Cursor => "cursor"
  | Antigravity => "antigravity"
  | Unknown => "unknown"
  end.

(** [Iterator::find]. *)
Definition find_first {A} (p : A → bool) (l : list A) : option A := List.find p l.

Definition harness_parse (s : string) : option Harness :=
  find_first (λ h, bool_decide (harness_as_str h = s)) harness_all.

(** [from_client_name]: Cursor is tested before the VS Code names, because
    Cursor sends [cursor-vscode]. *)
Definition from_client_name (name : string) : Harness :=
  let n := to_ascii_lowercase name in
  let has p := contains_str p n in
  if has "claude" then ClaudeCode
  else if has "codex" then Codex
  else if has "cursor" then Cursor
  else if has "visual studio code" || has "vscode" || has "vs code" then CopilotVsCode
  else if has "copilot" then CopilotCli
  else if has "opencode" then OpenCode
  else if has "antigravity" || bool_decide (n = "agy") || has "gemini" then Antigravity
  else Unknown.

Inductive Mechanism : Type :=
| ChannelPush | ModSubmit | AsyncRewakeHook | OwnedSessionApi | StopContinue
| HookInject | WaitTool.

#[export] Instance Mechanism_eq_dec : EqDecision Mechanism.
Proof. solve_decision. Defined.

Definition mech_all : list Mechanism :=
  [ChannelPush; ModSubmit; AsyncRewakeHook; OwnedSessionApi; StopContinue; HookInject;
   WaitTool].

(** The derived order: strongest first. *)
Definition mech_rank (m : Mechanism) : nat :=
  match m with
  | ChannelPush => 0 | ModSubmit => 1 | AsyncRewakeHook => 2 | OwnedSessionApi => 3
  | StopContinue => 4 | HookInject => 5 | WaitTool => 6
  end.

Definition mech_as_str (m : Mechanism) : string :=
  match m with
  | ChannelPush => "channel_push"
  | ModSubmit => "mod_submit"
  | AsyncRewakeHook => "async_rewake_hook"
  | OwnedSessionApi => "owned_session_api"
  | StopContinue => "stop_continue"
  | HookInject => "hook_inject"
  | WaitTool => "wait_tool"
  end.

Definition mech_parse (s : string) : option Mechanism :=
  find_first (λ m, bool_decide (mech_as_str m = s)) mech_all.

Definition is_pull (m : Mechanism) : bool :=
  match m with
  | ModSubmit | AsyncRewakeHook | StopContinue | HookInject => true
  | _ => false
  end.

Definition wakes_idle (m : Mechanism) : bool :=
  match m with
  | ChannelPush | ModSubmit | AsyncRewakeHook | OwnedSessionApi => true
  | _ => false
  end.

Record Capabilities : Type := mk_caps {
  channels_loaded : bool;
  mods : bool;
  async_rewake : bool;
  owned_session : bool;
  stop_hook : bool;
  context_hook : bool }.

Definition candidates (h : Harness) (c : Capabilities) : list (Mechanism * bool) :=
  match h with
  | ClaudeCode =>
      [(ChannelPush, channels_loaded c); (ModSubmit, mods c);
       (AsyncRewakeHook, async_rewake c); (StopContinue, stop_hook c);
       (HookInject, context_hook c)]
  | Codex | CopilotCli | OpenCode | Antigravity =>
      [(OwnedSessionApi, owned_session c); (StopContinue, stop_hook c);
       (HookInject, context_hook c)]
  | CopilotVsCode | Cursor =>
      [(StopContinue, stop_hook c); (HookInject, context_hook c)]
  | Unknown => []
  end.

Definition ladder (h : Harness) (c : Capabilities) : list Mechanism :=
  (filter (λ p : Mechanism * bool, p.2 = true) (candidates h c)).*1 ++ [WaitTool].

Record Attempt : Type := mk_attempt { rungs_tried : nat; last_ms : Z }.

Definition attempt_default : Attempt := mk_attempt 0 0.

Definition patience_ms (m : Mechanism) : Z := if wakes_idle m then 15000 else 60000.

Inductive Action : Type :=
| Fire (m : Mechanism)
| Hold (at_ms : Z)
| Exhausted.

(** The index [ladder[rungs_tried - 1]] is in range whenever it is reached,
    so its [None] branch is dead. *)
Definition next_action (ladder : list Mechanism) (a : Attempt) (now_ms : Z) : Action :=
  match ladder !! rungs_tried a with
  | None => Exhausted
  | Some m =>
      match rungs_tried a with
      | O => Fire m
      | S k =>
          match ladder !! k with
          | None => Exhausted
          | Some prev =>
              let due := wrap_i64 (last_ms a + patience_ms prev) in
              if (due <=? now_ms)%Z then Fire m else Hold due
          end
      end
  end.

(** ** Properties *)

(** What the probe must have found for a rung to be on the ladder. *)
Definition capable (c : Capabilities) (m : Mechanism) : bool :=
  match m with
  | ChannelPush => channels_loaded c
  | ModSubmit => mods c
  | AsyncRewakeHook => async_rewake c
  | OwnedSessionApi => owned_session c
  | StopContinue => stop_hook c
  | HookInject => context_hook c
  | WaitTool => true
  end.

Lemma patience_pos m : (15000 ≤ patience_ms m ≤ 60000)%Z.
Proof. unfold patience_ms. destruct (wakes_idle m); lia. Qed.

Lemma candidates_capable h c : Forall (λ p, p.2 = capable c p.1) (candidates h c).
Proof. destruct h; repeat constructor. Qed.

(** Every ladder ends with the wait tool, lists its rungs strongest first
    without repetition, holds only rungs the session is capable of, and holds
    every capable rung its harness has a mechanism for. *)
Theorem ladder_spec h c :
  last (ladder h c) = Some WaitTool ∧
  StronglySorted (λ a b, mech_rank a < mech_rank b) (ladder h c) ∧
  (∀ m, m ∈ ladder h c ↔
     m = WaitTool ∨ (capable c m = true ∧ m ∈ (candidates h c).*1)).
Proof.
  split_and!.
  - unfold ladder. by rewrite last_snoc.
  - destruct h, c as [[] [] [] [] [] []]; vm_compute; repeat constructor.
  - intros m. pose proof (candidates_capable h c) as Hc. rewrite Forall_forall in Hc.
    unfold ladder. rewrite elem_of_app, list_elem_of_singleton, !list_elem_of_fmap.
    split.
    + intros [([m' b] & -> & [Hb Hin]%list_elem_of_filter)| ->]; [|by left]. right.
      pose proof (Hc _ Hin). cbn in *. split; [congruence|by exists (m', b)].
    + intros [->|(Hm & [m' b] & -> & Hin)]; [by right|]. left. exists (m', b).
      split; [done|]. apply list_elem_of_filter. pose proof (Hc _ Hin). cbn in *.
      split; [congruence|done].
Qed.

Lemma ladder_nonempty h c : ladder h c ≠ [].
Proof. unfold ladder. by destruct (filter _ _).*1. Qed.

Lemma mech_parse_as_str m : mech_parse (mech_as_str m) = Some m.
Proof. by destruct m. Qed.

Lemma harness_parse_as_str h : harness_parse (harness_as_str h) = Some h.
Proof. by destruct h. Qed.
