(* ===== verification/Tracker.v ===== *)
(** * Delivery bookkeeping of an MCP session

    [src/crates/agora-mcp/src/delivery.rs], [Tracker]: the seen, unacked
    messages of a session and how far each one has climbed its harness's
    delivery ladder. The [BTreeMap] of pending messages is a [gmap]; where the
    source iterates it, the model visits the keys in their order. *)

From stdpp Require Import countable.
From S2P Require Import Prelude Deliver.

#[export] Program Instance Mechanism_countable : Countable Mechanism :=
  inj_countable mech_rank (λ n, mech_all !! n) _.
Next Obligation. by intros []. Qed.

Record Escalation : Type := mk_escalation {
  esc_channel : string;
  esc_seq : Z;
  esc_mechanism : string;
  esc_at_ms : Z;
  esc_executed : bool;
  esc_armed : bool }.

Definition MAX_ESCALATIONS : nat := 200.

Definition record_escalation (log : list Escalation) (e : Escalation) : list Escalation :=
  (if Nat.leb MAX_ESCALATIONS (length log) then tail log else log) ++ [e].

Record Entry : Type := mk_entry { attempt : Attempt; exhausted : bool }.

Definition entry_default : Entry := mk_entry attempt_default false.

Record Tracker : Type := mk_tracker {
  t_ladder : list Mechanism;
  t_push_enabled : bool;
  t_pending : gmap (string * Z) Entry;
  t_escalations : list Escalation;
  t_pushed : Z;
  t_coalesced : Z;
  t_acked : Z;
  t_heartbeats : gmap Mechanism Z;
  t_armed : gset Mechanism }.

Definition new_tracker (l : list Mechanism) (push : bool) : Tracker :=
  mk_tracker l push ∅ [] 0 0 0 ∅ ∅.

(** [self.pending.values_mut()] and the like. *)
Definition with_pending (t : Tracker) (p : gmap (string * Z) Entry) : Tracker :=
  mk_tracker (t_ladder t) (t_push_enabled t) p (t_escalations t) (t_pushed t)
    (t_coalesced t) (t_acked t) (t_heartbeats t) (t_armed t).

(** [take_while(..).count()]. *)
Fixpoint count_while {A} (p : A → bool) (l : list A) : nat :=
  match l with [] => 0 | x :: l' => if p x then S (count_while p l') else 0 end.

Definition rebase (old new : list Mechanism) (e : Entry) : Entry :=
  let n := Nat.min (rungs_tried (attempt e)) (length old) in
  let tried := take n old in
  mk_entry
    (mk_attempt (count_while (λ m, bool_decide (m ∈ tried)) new) (last_ms (attempt e)))
    false.

Definition reconfigure (t : Tracker) (l : list Mechanism) (push : bool) : Tracker :=
  mk_tracker l push (rebase (t_ladder t) l <$> t_pending t) (t_escalations t)
    (t_pushed t) (t_coalesced t) (t_acked t) (t_heartbeats t) (t_armed t).

(** [pending.entry(key).or_default()]. *)
Definition entry_or_default (t : Tracker) (key : string * Z) : Entry :=
  default entry_default (t_pending t !! key).

Definition on_seen (t : Tracker) (channel : string) (seq : Z) : Tracker :=
  with_pending t (<[(channel, seq) := entry_or_default t (channel, seq)]> (t_pending t)).

Definition on_pushed (t : Tracker) (channel : string) (seq now_ms : Z) : Tracker :=
  let e := entry_or_default t (channel, seq) in
  let e' := mk_entry (mk_attempt (Nat.max (rungs_tried (attempt e)) 1) now_ms)
              (exhausted e) in
  mk_tracker (t_ladder t) (t_push_enabled t)
    (<[(channel, seq) := e']> (t_pending t))
    (record_escalation (t_escalations t)
       (mk_escalation channel seq (mech_as_str ChannelPush) now_ms true true))
    (sat_u64 (t_pushed t + 1)) (t_coalesced t) (t_acked t) (t_heartbeats t) (t_armed t).

Definition retain_only (t : Tracker) (keep : gset (string * Z)) : Tracker :=
  with_pending t (filter (λ kv, kv.1 ∈ keep) (t_pending t)).

(** The range from [(channel, i64::MIN)] to [(channel, seq)]. *)
Definition doomed (channel : string) (seq : Z) (kv : (string * Z) * Entry) : Prop :=
  kv.1.1 = channel ∧ (i64_min ≤ kv.1.2 ≤ seq)%Z.

#[export] Instance doomed_dec channel seq kv : Decision (doomed channel seq kv).
Proof. unfold doomed. apply _. Defined.

Definition on_acked (t : Tracker) (channel : string) (seq : Z) : Tracker :=
  let gone := filter (doomed channel seq) (t_pending t) in
  mk_tracker (t_ladder t) (t_push_enabled t) (t_pending t ∖ gone) (t_escalations t)
    (t_pushed t) (t_coalesced t) (sat_u64 (t_acked t + Z.of_nat (size gone)))
    (t_heartbeats t) (t_armed t).

(** [let (waits, recorded) = match m { .. }]: whether the entry waits its
    patience on the rung, and the armed flag of the record, if there is one. *)
Definition rung_outcome (armed : gset Mechanism) (m : Mechanism) : bool * option bool :=
  match m with
  | ChannelPush => (true, None)
  | WaitTool => (true, Some true)
  | _ => let is_armed := bool_decide (m ∈ armed) in (is_armed, Some is_armed)
  end.

(** The inner [for _ in 0..bound] of [tick_with] for one entry: the entry it
    leaves and the rungs it recorded, each with its armed flag. *)
Fixpoint tick_loop (fuel : nat) (l : list Mechanism) (now_ms : Z)
    (armed : gset Mechanism) (e : Entry) : Entry * list (Mechanism * bool) :=
  match fuel with
  | O => (e, [])
  | S f =>
      match next_action l (attempt e) now_ms with
      | Hold _ => (e, [])
      | Exhausted => (mk_entry (attempt e) true, [])
      | Fire m =>
          let tried := S (rungs_tried (attempt e)) in
          let '(waits, recorded) := rung_outcome armed m in
          let rec := match recorded with None => [] | Some a => [(m, a)] end in
          if waits : bool then (mk_entry (mk_attempt tried now_ms) false, rec)
          else
            let '(e', more) :=
              tick_loop f l now_ms armed
                (mk_entry (mk_attempt tried (sat_i64 (now_ms - patience_ms m))) false) in
            (e', rec ++ more)
      end
  end.

(** One entry of [tick_with]: the loop, then the eager exhaustion mark. *)
Definition tick_entry (l : list Mechanism) (now_ms : Z) (armed : gset Mechanism)
    (e : Entry) : Entry * list (Mechanism * bool) :=
  let '(e', rec) := tick_loop (S (length l)) l now_ms armed e in
  (if Nat.leb (length l) (rungs_tried (attempt e'))
   then mk_entry (attempt e') true else e', rec).

Definition key_cmp (a b : string * Z) : comparison :=
  then_with (String.compare a.1 b.1) (Z.compare a.2 b.2).

(** The pending messages in [BTreeMap] order. *)
Definition pending_iter (t : Tracker) : list ((string * Z) * Entry) :=
  sort_by (λ a b, key_cmp a.1 b.1) (map_to_list (t_pending t)).

Definition tick_with (t : Tracker) (now_ms : Z) (armed : gset Mechanism) :
    Tracker * list Escalation :=
  let fired :=
    mjoin ((λ kv : (string * Z) * Entry,
      (λ r : Mechanism * bool,
         mk_escalation kv.1.1 kv.1.2 (mech_as_str r.1) now_ms false r.2)
      <$> snd (tick_entry (t_ladder t) now_ms armed kv.2)) <$> pending_iter t) in
  (mk_tracker (t_ladder t) (t_push_enabled t)
     ((λ e, fst (tick_entry (t_ladder t) now_ms armed e)) <$> t_pending t)
     (foldl record_escalation (t_escalations t) fired)
     (t_pushed t) (t_coalesced t) (t_acked t) (t_heartbeats t) armed,
   fired).

Definition tick (t : Tracker) (now_ms : Z) : Tracker * list Escalation :=
  tick_with t now_ms ∅.

Definition refresh (t : Tracker) (beats : gmap Mechanism Z) (armed : gset Mechanism) :
    Tracker :=
  mk_tracker (t_ladder t) (t_push_enabled t) (t_pending t) (t_escalations t)
    (t_pushed t) (t_coalesced t) (t_acked t) beats armed.

Definition set_heartbeats (t : Tracker) (beats : gmap Mechanism Z) : Tracker :=
  refresh t beats (t_armed t).

Definition note_coalesced (t : Tracker) (n : Z) : Tracker :=
  mk_tracker (t_ladder t) (t_push_enabled t) (t_pending t) (t_escalations t)
    (t_pushed t) (sat_u64 (t_coalesced t + n)) (t_acked t) (t_heartbeats t) (t_armed t).

(** When an entry is next due; [None] when it is waiting on no rung. *)
Definition entry_due (l : list Mechanism) (e : Entry) : option Z :=
  if exhausted e then None else
  match rungs_tried (attempt e) with
  | O => match l with [] => None | _ => Some 0%Z end
  | S k =>
      if Nat.leb (length l) (S k) then None
      else prev ← l !! k; Some (sat_i64 (last_ms (attempt e) + patience_ms prev))
  end.

Definition next_due (t : Tracker) : option Z :=
  min_by Z.compare (omap (λ kv, entry_due (t_ladder t) kv.2) (pending_iter t)).

(** ** Invariant *)

(** An entry marked exhausted has used every rung; the log is bounded. *)
Definition entry_ok (l : list Mechanism) (e : Entry) : Prop :=
  exhausted e = true → length l ≤ rungs_tried (attempt e).

Definition tracker_ok (t : Tracker) : Prop :=
  map_Forall (λ _, entry_ok (t_ladder t)) (t_pending t) ∧
  length (t_escalations t) ≤ MAX_ESCALATIONS.

(** The operations a session applies to its tracker. *)
Inductive op : Type :=
| OpReconfigure (l : list Mechanism) (push : bool)
| OpSeen (channel : string) (seq : Z)
| OpPushed (channel : string) (seq now_ms : Z)
| OpRetain (keep : gset (string * Z))
| OpAcked (channel : string) (seq : Z)
| OpTick (now_ms : Z) (armed : gset Mechanism)
| OpRefresh (beats : gmap Mechanism Z) (armed : gset Mechanism)
| OpCoalesced (n : Z).

Definition apply (t : Tracker) (o : op) : Tracker :=
  match o with
  | OpReconfigure l push => reconfigure t l push
  | OpSeen c s => on_seen t c s
  | OpPushed c s now => on_pushed t c s now
  | OpRetain keep => retain_only t keep
  | OpAcked c s => on_acked t c s
  | OpTick now armed => fst (tick_with t now armed)
  | OpRefresh beats armed => refresh t beats armed
  | OpCoalesced n => note_coalesced t n
  end.

(** ** One entry *)

Lemma record_escalation_bound log e :
  length log ≤ MAX_ESCALATIONS → length (record_escalation log e) ≤ MAX_ESCALATIONS.
Proof.
  unfold record_escalation, MAX_ESCALATIONS. rewrite length_app. cbn [length].
  destruct (Nat.leb_spec 200 (length log)); [|lia].
  destruct log; cbn in *; lia.
Qed.

Lemma record_escalations_bound es log :
  length log ≤ MAX_ESCALATIONS →
  length (foldl record_escalation log es) ≤ MAX_ESCALATIONS.
Proof.
  revert log. induction es as [|e es IH]; intros log; cbn [foldl]; [done|].
  intros. by apply IH, record_escalation_bound.
Qed.

Lemma next_action_fire l a now m :
  next_action l a now = Fire m → l !! rungs_tried a = Some m.
Proof. unfold next_action. repeat case_match; congruence. Qed.

Lemma next_action_exhausted l a now :
  next_action l a now = Exhausted ↔ length l ≤ rungs_tried a.
Proof.
  unfold next_action. rewrite <- lookup_ge_None. split.
  - destruct (l !! rungs_tried a) as [m|] eqn:Hm; [|done].
    destruct (rungs_tried a) as [|k]; [done|].
    destruct (l !! k) as [p|] eqn:Hk; [by case_match|].
    apply lookup_ge_None in Hk. apply lookup_lt_Some in Hm. lia.
  - by intros ->.
Qed.

(** An attempt just stamped [now] does not fire again at [now]. *)
Lemma next_action_stamped l k now m :
  (i64_min ≤ now ≤ i64_max - 60000)%Z →
  next_action l (mk_attempt (S k) now) now ≠ Fire m.
Proof.
  intros Hnow. unfold next_action; cbn. repeat case_match; try congruence.
  pose proof (patience_pos m1). rewrite wrap_i64_id in * by (unfold i64_min, i64_max in *; lia).
  lia.
Qed.

Definition quiescent (l : list Mechanism) (now : Z) (e : Entry) : Prop :=
  ∀ m, next_action l (attempt e) now ≠ Fire m.

(** The entry a fired rung leaves behind, before and after the recursion. *)
Lemma tick_loop_fire f l now armed e m :
  next_action l (attempt e) now = Fire m →
  fst (tick_loop (S f) l now armed e) =
    let tried := S (rungs_tried (attempt e)) in
    if fst (rung_outcome armed m) then mk_entry (mk_attempt tried now) false
    else fst (tick_loop f l now armed
           (mk_entry (mk_attempt tried (sat_i64 (now - patience_ms m))) false)).
Proof.
  intros Ha. cbn [tick_loop]. rewrite Ha. destruct (rung_outcome armed m) as [[] r]; [done|].
  cbn [fst]. by destruct (tick_loop f _ _ _ _).
Qed.

(** With as much fuel as there are rungs left the loop stops by itself. *)
Lemma tick_loop_quiescent fuel l now armed e :
  (i64_min ≤ now ≤ i64_max - 60000)%Z →
  length l - rungs_tried (attempt e) < fuel →
  quiescent l now (fst (tick_loop fuel l now armed e)).
Proof.
  intros Hnow. revert e. induction fuel as [|f IH]; intros e Hf; [lia|].
  destruct (next_action l (attempt e) now) as [m|at_ms|] eqn:Ha.
  - pose proof (next_action_fire _ _ _ _ Ha) as Hlt%lookup_lt_Some.
    rewrite (tick_loop_fire _ _ _ _ _ _ Ha). cbn zeta. case_match.
    + intros m'. by apply next_action_stamped.
    + apply IH. cbn. lia.
  - intros m. cbn [tick_loop]. rewrite Ha. cbn. congruence.
  - intros m. cbn [tick_loop]. rewrite Ha. cbn. congruence.
Qed.

Lemma tick_loop_still fuel l now armed e :
  quiescent l now e →
  ∃ x, tick_loop fuel l now armed e = (mk_entry (attempt e) x, []) ∧
    (x = exhausted e ∨ length l ≤ rungs_tried (attempt e)).
Proof.
  intros Hq. destruct fuel as [|f]; cbn [tick_loop].
  { exists (exhausted e). destruct e; auto. }
  destruct (next_action l (attempt e) now) eqn:Ha.
  - by edestruct Hq.
  - exists (exhausted e). destruct e; auto.
  - exists true. apply next_action_exhausted in Ha. auto.
Qed.

Lemma tick_entry_still l now armed e :
  quiescent l now e →
  tick_entry l now armed e =
    (mk_entry (attempt e) (exhausted e || Nat.leb (length l) (rungs_tried (attempt e))), []).
Proof.
  intros Hq. unfold tick_entry.
  destruct (tick_loop_still (S (length l)) l now armed e Hq) as (x & -> & Hx). cbn.
  destruct (Nat.leb_spec (length l) (rungs_tried (attempt e))) as [H|H].
  - by rewrite orb_true_r.
  - destruct Hx as [->|]; [by rewrite orb_false_r|lia].
Qed.

Lemma tick_entry_mark l now armed e :
  let e' := fst (tick_entry l now armed e) in
  length l ≤ rungs_tried (attempt e') → exhausted e' = true.
Proof.
  cbn zeta. unfold tick_entry. destruct (tick_loop _ l now armed e) as [e' rec].
  destruct (Nat.leb_spec (length l) (rungs_tried (attempt e'))); cbn; [done|lia].
Qed.

Lemma tick_entry_quiescent l now armed e :
  (i64_min ≤ now ≤ i64_max - 60000)%Z →
  quiescent l now (fst (tick_entry l now armed e)).
Proof.
  intros Hnow. unfold tick_entry.
  pose proof (tick_loop_quiescent (S (length l)) l now armed e Hnow ltac:(lia)) as Hq.
  destruct (tick_loop _ l now armed e) as [e' rec]. by case_match.
Qed.

(** The loop never lowers [rungs_tried], raises it when the first decision
    fires, and stamps no later than the tick. *)
Lemma tick_loop_progress fuel l now armed e :
  let e' := fst (tick_loop fuel l now armed e) in
  rungs_tried (attempt e) ≤ rungs_tried (attempt e') ∧
  ((i64_min ≤ now ≤ i64_max)%Z → (i64_min ≤ last_ms (attempt e) ≤ now)%Z →
     (i64_min ≤ last_ms (attempt e') ≤ now)%Z) ∧
  ((∃ m, next_action l (attempt e) now = Fire m) → 0 < fuel →
     rungs_tried (attempt e) < rungs_tried (attempt e')) ∧
  (entry_ok l e → entry_ok l e').
Proof.
  revert e. induction fuel as [|f IH]; intros e.
  { cbn. split_and!; [lia|done|lia|done]. }
  cbn zeta. destruct (next_action l (attempt e) now) as [m|at_ms|] eqn:Ha.
  - rewrite (tick_loop_fire _ _ _ _ _ _ Ha). cbn zeta.
    destruct (fst (rung_outcome armed m)).
    { cbn. split_and!; [lia|lia|lia|done]. }
    destruct (IH (mk_entry (mk_attempt (S (rungs_tried (attempt e)))
      (sat_i64 (now - patience_ms m))) false)) as (H1 & H2 & _ & H4).
    cbn [attempt rungs_tried last_ms] in H1, H2.
    split_and!; [lia| |lia|by intros _; apply H4].
    intros Hn _. apply H2; [done|]. pose proof (patience_pos m). unfold sat_i64, i64_min, i64_max in *. lia.
  - cbn [tick_loop]. rewrite Ha. cbn. split_and!; try done. by intros [? ?].
  - cbn [tick_loop]. rewrite Ha. cbn. split_and!; try done; [by intros [? ?]|].
    apply next_action_exhausted in Ha. by intros _ _.
Qed.

Lemma tick_entry_progress l now armed e :
  let e' := fst (tick_entry l now armed e) in
  rungs_tried (attempt e) ≤ rungs_tried (attempt e') ∧
  ((i64_min ≤ now ≤ i64_max)%Z → (i64_min ≤ last_ms (attempt e) ≤ now)%Z →
     (i64_min ≤ last_ms (attempt e') ≤ now)%Z) ∧
  ((∃ m, next_action l (attempt e) now = Fire m) →
     rungs_tried (attempt e) < rungs_tried (attempt e')) ∧
  (entry_ok l e → entry_ok l e').
Proof.
  cbn zeta. unfold tick_entry.
  destruct (tick_loop_progress (S (length l)) l now armed e) as (H1 & H2 & H3 & H4).
  destruct (tick_loop _ l now armed e) as [e' rec]. cbn in *.
  assert (H3' : (∃ m, next_action l (attempt e) now = Fire m) →
    rungs_tried (attempt e) < rungs_tried (attempt e')) by (intros; apply H3; [done|lia]).
  destruct (Nat.leb_spec (length l) (rungs_tried (attempt e'))); cbn; split_and!; try done.
  by intros _ _.
Qed.

#[global] Arguments tick_entry : simpl never.

(** ** The tracker *)

Lemma tick_with_lookup t now armed k :
  t_pending (fst (tick_with t now armed)) !! k =
    (λ e, fst (tick_entry (t_ladder t) now armed e)) <$> t_pending t !! k.
Proof. cbn. apply lookup_fmap. Qed.

Lemma apply_ok t o : tracker_ok t → tracker_ok (apply t o).
Proof.
  intros [He Hl]. destruct o; split; cbn; try done.
  - intros k e. rewrite lookup_fmap_Some. by intros (e0 & <- & _).
  - apply map_Forall_insert_2; [|done]. unfold entry_or_default.
    destruct (t_pending t !! (channel, seq)) eqn:E; cbn; [by eapply He|done].
  - apply map_Forall_insert_2; [|done]. unfold entry_or_default.
    destruct (t_pending t !! (channel, seq)) as [e|] eqn:E; cbn; [|done].
    intros Hx. pose proof (He _ _ E Hx). cbn. lia.
  - by apply record_escalation_bound.
  - intros k e [? _]%map_lookup_filter_Some. by eapply He.
  - intros k e [? _]%lookup_difference_Some. by eapply He.
  - intros k e. rewrite lookup_fmap_Some. intros (e0 & <- & Hk).
    apply tick_entry_progress. by eapply He.
  - by apply record_escalations_bound.
Qed.

Lemma new_tracker_ok l push : tracker_ok (new_tracker l push).
Proof. split; cbn; [by apply map_Forall_empty|unfold MAX_ESCALATIONS; lia]. Qed.

(** From a new tracker, every sequence of session operations keeps the
    escalation log at no more than 200 entries and marks a message exhausted
    only when every rung of the ladder in use has been tried for it. *)
Theorem tracker_invariant l push ops :
  tracker_ok (foldl apply (new_tracker l push) ops).
Proof.
  generalize (new_tracker_ok l push). generalize (new_tracker l push).
  induction ops as [|o ops IH]; intros t Ht; cbn [foldl]; [done|].
  by apply IH, apply_ok.
Qed.

(** a tick leaves nothing to do at its own time: ticking again at the same
    instant records nothing, advances no message and only stores the armed
    set. *)
Theorem tick_settles t now armed armed' :
  (i64_min ≤ now ≤ i64_max - 60000)%Z →
  let t' := fst (tick_with t now armed) in
  tick_with t' now armed' = (refresh t' (t_heartbeats t') armed', []).
Proof.
  intros Hnow. set (t' := fst (tick_with t now armed)). cbn zeta.
  assert (Hst : ∀ k e, t_pending t' !! k = Some e →
    tick_entry (t_ladder t) now armed' e = (e, [])).
  { intros k e. unfold t' at 1. rewrite tick_with_lookup.
    intros (e0 & Hk & Heq)%fmap_Some. 
    pose proof (tick_entry_quiescent (t_ladder t) now armed e0 Hnow) as Hq.
    pose proof (tick_entry_mark (t_ladder t) now armed e0) as Hm.
    cbn beta zeta in Heq, Hm. rewrite <- Heq in Hq, Hm. rewrite tick_entry_still by done. f_equal.
    destruct e as [a x]; cbn in *. f_equal.
    destruct (Nat.leb_spec (length (t_ladder t)) (rungs_tried a)).
    - rewrite orb_true_r. symmetry. auto.
    - apply orb_false_r. }
  assert (Hp : (λ e, fst (tick_entry (t_ladder t) now armed' e)) <$> t_pending t'
    = t_pending t').
  { apply map_eq. intros k. rewrite lookup_fmap.
    destruct (t_pending t' !! k) eqn:E; [|done]. cbn. by rewrite (Hst _ _ E). }
  assert (Hf : snd (tick_with t' now armed') = []).
  { cbn. apply join_nil. apply Forall_fmap, Forall_forall. intros [k e] Hin.
    unfold pending_iter in Hin. apply elem_of_sort_by, elem_of_map_to_list in Hin. cbn.
    by rewrite (Hst _ _ Hin). }
  unfold tick_with in Hf |- *. cbn [snd] in Hf. rewrite Hf.
  change (t_ladder t') with (t_ladder t) in *. by rewrite Hp.
Qed.

Lemma tick_settles_witness :
  let t := on_seen (new_tracker [ChannelPush; StopContinue; WaitTool] true) "general" 7 in
  let t' := fst (tick_with t 1000 ∅) in
  (i64_min ≤ 1000 ≤ i64_max - 60000)%Z ∧
  tick_with t' 1000 {[StopContinue]}
    = (refresh t' (t_heartbeats t') {[StopContinue]}, []).
Proof.
  split; [by vm_compute|].
  apply (tick_settles (on_seen (new_tracker [ChannelPush; StopContinue; WaitTool] true)
    "general" 7) 1000 ∅ {[StopContinue]}). by vm_compute.
Defined.

(** An entry fires at [now] exactly when it is due by then. *)
Lemma entry_due_fire l e now :
  (0 ≤ now)%Z → entry_ok l e → (i64_min ≤ last_ms (attempt e) ≤ i64_max - 60000)%Z →
  (∃ m, next_action l (attempt e) now = Fire m) ↔
  (∃ d, entry_due l e = Some d ∧ (d ≤ now)%Z).
Proof.
  intros Hnow Hok Hlast. unfold entry_due, entry_ok in *.
  destruct e as [[n last] x]. cbn in *.
  assert (Hx : x = true → ¬ ∃ m, next_action l (mk_attempt n last) now = Fire m).
  { intros ? [m Hm%next_action_fire%lookup_lt_Some]. cbn in Hm. naive_solver lia. }
  destruct x; [split; [intros ?; by edestruct Hx|naive_solver]|]. clear Hx Hok.
  unfold next_action; cbn. destruct n as [|k].
  { destruct l as [|m l]; cbn; naive_solver. }
  destruct (l !! S k) as [m|] eqn:Hm.
  - pose proof (lookup_lt_Some _ _ _ Hm).
    destruct (Nat.leb_spec (length l) (S k)); [lia|].
    destruct (lookup_lt_is_Some_2 l k) as [p Hp]; [lia|]. rewrite Hp. cbn.
    pose proof (patience_pos p). unfold i64_min, i64_max in *.
    rewrite wrap_i64_id, sat_i64_id by (unfold i64_min, i64_max; lia).
    destruct (Z.leb_spec (last + patience_ms p) now); naive_solver lia.
  - apply lookup_ge_None in Hm. destruct (Nat.leb_spec (length l) (S k)); [|lia].
    naive_solver.
Qed.

Lemma elem_of_pending_iter t k e :
  (k, e) ∈ pending_iter t ↔ t_pending t !! k = Some e.
Proof. unfold pending_iter. by rewrite elem_of_sort_by, elem_of_map_to_list. Qed.

(** What [t]'s entry for [k] becomes at a tick differs from what it was. *)
Definition advances (t : Tracker) (now : Z) (armed : gset Mechanism) : Prop :=
  ∃ k e e', t_pending t !! k = Some e ∧
    t_pending (fst (tick_with t now armed)) !! k = Some e' ∧
    rungs_tried (attempt e) < rungs_tried (attempt e').

(** The timer the session sleeps on is exact: a tick at [now] advances some
    message along the ladder if and only if [next_due] names a time at or
    before [now]. *)
Theorem next_due_exact t now armed :
  (0 ≤ now ≤ i64_max)%Z → tracker_ok t →
  map_Forall (λ _ e, (i64_min ≤ last_ms (attempt e) ≤ i64_max - 60000)%Z) (t_pending t) →
  advances t now armed ↔ ∃ d, next_due t = Some d ∧ (d ≤ now)%Z.
Proof.
  intros [Hnow _] [Hok _] Hlast. unfold advances, next_due.
  set (dues := omap _ (pending_iter t)).
  assert (Hin : ∀ d, d ∈ dues ↔ ∃ k e, t_pending t !! k = Some e ∧
    entry_due (t_ladder t) e = Some d).
  { intros d. unfold dues. rewrite list_elem_of_omap. split.
    - intros ([k e] & ?%elem_of_pending_iter & ?). eauto.
    - intros (k & e & ? & ?). exists (k, e). by rewrite elem_of_pending_iter. }
  split.
  - intros (k & e & e' & Hk & Hk' & Hlt). rewrite tick_with_lookup, Hk in Hk'.
    injection Hk' as <-.
    destruct (next_action (t_ladder t) (attempt e) now) as [m|at_ms|] eqn:Ha.
    + assert (Hf : ∃ m, next_action (t_ladder t) (attempt e) now = Fire m) by eauto.
      apply entry_due_fire in Hf as (d & Hd & Hle); eauto.
      assert (Hdin : d ∈ dues) by (apply Hin; eauto).
      destruct (min_by Z.compare dues) as [d0|] eqn:Hmin.
      * exists d0. split; [done|].
        pose proof (min_by_le (λ _, True) Z.compare dues d0 d) as Hm.
        rewrite Z.compare_gt_iff in Hm. transitivity d; [|done].
        apply Z.nlt_ge. apply Hm; [by apply Forall_true|done..].
      * apply min_by_None in Hmin. rewrite Hmin in Hdin. set_solver.
    + rewrite tick_entry_still in Hlt by (intros m; congruence). cbn in Hlt. lia.
    + rewrite tick_entry_still in Hlt by (intros m; congruence). cbn in Hlt. lia.
  - intros (d & Hmin & Hle). apply min_by_elem, Hin in Hmin as (k & e & Hk & Hd).
    exists k, e, (fst (tick_entry (t_ladder t) now armed e)).
    rewrite tick_with_lookup, Hk. split_and!; [done..|].
    apply tick_entry_progress. apply entry_due_fire; eauto.
Qed.

Lemma next_due_exact_witness :
  let t := fst (tick_with
    (on_seen (new_tracker [ChannelPush; StopContinue; WaitTool] true) "general" 7) 1000 ∅) in
  next_due t = Some 16000%Z ∧
  (advances t 20000 ∅ ↔ ∃ d, next_due t = Some d ∧ (d ≤ 20000)%Z).
Proof.
  split; [by vm_compute|]. apply next_due_exact; [by vm_compute| |].
  - split; [|by vm_compute; lia]. intros k e Hk. cbn in Hk.
    rewrite insert_empty, map_fmap_singleton in Hk.
    apply lookup_singleton_Some in Hk as [_ <-]. by vm_compute.
  - intros k e Hk. cbn in Hk.
    rewrite insert_empty, map_fmap_singleton in Hk.
    apply lookup_singleton_Some in Hk as [_ <-]. by vm_compute.
Defined.

(** Ticks at least a minute apart, the first at least a minute after [t0]. *)
Fixpoint spaced (t0 : Z) (steps : list (Z * gset Mechanism)) : Prop :=
  match steps with
  | [] => True
  | (now, _) :: rest =>
      (t0 + 60000 ≤ now ≤ i64_max - 60000)%Z ∧ spaced now rest
  end.

Definition run_ticks (t : Tracker) (steps : list (Z * gset Mechanism)) : Tracker :=
  foldl (λ t s, fst (tick_with t s.1 s.2)) t steps.

Lemma due_fires l e t0 now :
  (i64_min ≤ last_ms (attempt e) ≤ t0)%Z → (t0 + 60000 ≤ now ≤ i64_max)%Z →
  rungs_tried (attempt e) < length l →
  ∃ m, next_action l (attempt e) now = Fire m.
Proof.
  intros Hlast Hnow Hlt. destruct (next_action l (attempt e) now) as [m|at_ms|] eqn:Ha.
  - by exists m.
  - revert Ha. unfold next_action. repeat case_match; try discriminate.
    pose proof (patience_pos m0). unfold i64_min, i64_max in *.
    rewrite wrap_i64_id in * by (unfold i64_min, i64_max; lia).
    match goal with H : (_ <=? _)%Z = false |- _ => apply Z.leb_gt in H end. lia.
  - apply next_action_exhausted in Ha. lia.
Qed.

Lemma run_ticks_exhausts t t0 steps k e :
  (0 ≤ t0)%Z → spaced t0 steps →
  t_pending t !! k = Some e → (i64_min ≤ last_ms (attempt e) ≤ t0)%Z →
  length (t_ladder t) ≤ rungs_tried (attempt e) + length steps →
  (steps = [] → exhausted e = true) →
  ∃ e', t_pending (run_ticks t steps) !! k = Some e' ∧ exhausted e' = true ∧
    length (t_ladder t) ≤ rungs_tried (attempt e').
Proof.
  revert t t0 e. induction steps as [|[now armed] steps IH]; intros t t0 e Ht0; cbn [spaced].
  { intros _ Hk _ Hlen Hx. exists e. cbn in Hlen. split_and!; [done|auto|lia]. }
  intros [Hnow Hsp] Hk Hlast Hlen _. cbn [length] in Hlen.
  destruct (tick_entry_progress (t_ladder t) now armed e) as (H1 & H2 & H3 & _).
  pose proof (tick_entry_mark (t_ladder t) now armed e) as Hmark. cbn zeta in Hmark.
  set (e1 := fst (tick_entry (t_ladder t) now armed e)) in *.
  assert (Hadv : length (t_ladder t) ≤ rungs_tried (attempt e1) + length steps).
  { destruct (decide (rungs_tried (attempt e) < length (t_ladder t))); [|lia].
    assert (rungs_tried (attempt e) < rungs_tried (attempt e1)); [|lia].
    apply H3. eapply due_fires; [done| |done]. lia. }
  apply (IH (fst (tick_with t now armed)) now e1); try done.
  - lia.
  - rewrite tick_with_lookup, Hk. done.
  - unfold i64_min, i64_max in *. lia.
  - intros ->. apply Hmark. cbn in Hadv. lia.
Qed.

(** C20: escalation terminates: a message just seen, ticked at times at least a
    minute apart and never acknowledged, has climbed the whole ladder and is
    marked exhausted once there have been as many ticks as rungs, whichever
    rungs are armed at each of them. *)
Theorem escalation_terminates t channel seq t0 steps :
  (0 ≤ t0)%Z → spaced t0 steps →
  t_pending t !! (channel, seq) = None →
  0 < length (t_ladder t) ≤ length steps →
  ∃ e, t_pending (run_ticks (on_seen t channel seq) steps) !! (channel, seq) = Some e ∧
    exhausted e = true ∧ length (t_ladder t) ≤ rungs_tried (attempt e).
Proof.
  intros Ht0 Hsp Hnone Hlen.
  destruct (run_ticks_exhausts (on_seen t channel seq) t0 steps (channel, seq) entry_default)
    as (e & He & Hx & Hr); [done..| | | | |by exists e].
  - cbn. rewrite lookup_insert_eq. unfold entry_or_default. by rewrite Hnone.
  - cbn. unfold i64_min. lia.
  - cbn. lia.
  - intros ->. cbn in Hlen. lia.
Qed.

Lemma escalation_terminates_witness :
  let t := new_tracker [ModSubmit; WaitTool] true in
  let steps := [(60000%Z, {[ModSubmit]}); (120000%Z, ∅)] : list (Z * gset Mechanism) in
  spaced 0 steps ∧
  ∃ e, t_pending (run_ticks (on_seen t "general" 7) steps) !! ("general", 7%Z) = Some e ∧
    exhausted e = true ∧ length (t_ladder t) ≤ rungs_tried (attempt e).
Proof.
  cbn zeta. assert (Hs : spaced 0 [(60000%Z, {[ModSubmit]}); (120000%Z, ∅)]).
  { cbn. unfold i64_max. lia. }
  split; [exact Hs|].
  apply (escalation_terminates (new_tracker [ModSubmit; WaitTool] true) "general" 7 0
    [(60000%Z, {[ModSubmit]}); (120000%Z, ∅)]); [done|exact Hs|done|cbn; lia].
Defined.
