(* ===== verification/PyFmt.v ===== *)
(** * Python-compatible text

    [src/crates/agora-sched/src/pyfmt.rs]: the number and string formatting the
    scheduler shares with its Python counterpart. Rust's own float formatting
    and parsing ([{:.N}], [{:e}], [str::parse]) are modelled on the exact
    rational value of a double, rounded half to even. *)

From Stdlib Require Import Ascii Floats.SpecFloat.
From S2P Require Import Prelude F64 Strs PrintableTable.

(** The double quote as a byte and as a text. *)
Definition dq_byte : byte := Ascii false true false false false true false false.
Definition dq : string := String dq_byte "".
Definition nl_byte : byte := byte_of 10.

(** ** Printable characters *)

(** [slice::binary_search_by] over the ranges in positions [lo .. hi). *)
Fixpoint range_search (fuel : nat) (l : list (Z * Z)) (lo hi : nat) (code : Z) : bool :=
  match fuel with
  | O => false
  | S f =>
      if Nat.ltb lo hi then
        let mid := lo + (hi - lo) / 2 in
        match l !! mid with
        | None => false
        | Some (a, b) =>
            if (b <? code)%Z then range_search f l (S mid) hi code
            else if (code <? a)%Z then range_search f l lo mid code
            else true
        end
      else false
  end.

Definition is_printable (c : Z) : bool :=
  negb (range_search (S (length NON_PRINTABLE)) NON_PRINTABLE 0 (length NON_PRINTABLE) c).

Definition push_escape (c : Z) : string :=
  if (c =? 92)%Z then "\\"
  else if (c =? 9)%Z then "\t"
  else if (c =? 10)%Z then "\n"
  else if (c =? 13)%Z then "\r"
  else if (c <? 256)%Z then "\x" +:+ hex_pad 2 c
  else if (c <? 65536)%Z then "\u" +:+ hex_pad 4 c
  else "\U" +:+ hex_pad 8 c.

Definition printable_char (c : Z) : string :=
  if is_printable c then encode_char c else push_escape c.

(** Concatenation of the pieces a [for c in s.chars()] loop pushes. *)
Definition concat_map (f : Z → string) (cs : list Z) : string :=
  foldr (λ c acc, f c +:+ acc) "" cs.

Definition printable (s : string) : string := concat_map printable_char (chars s).

Definition repr_str (s : string) : string :=
  let quote := if contains_byte "'" s && negb (contains_byte dq_byte s)
               then dq_byte else "'"%char in
  let q := String quote "" in
  q +:+ concat_map (λ c,
      if (c =? byte_val quote)%Z then "\" +:+ encode_char c
      else if negb (c =? 92)%Z && is_printable c then encode_char c
      else push_escape c) (chars s) +:+ q.

(** ** White space and number syntax *)

Definition is_py_space (c : Z) : bool :=
  ((9 <=? c) && (c <=? 13) || (28 <=? c) && (c <=? 32) || (c =? 133) || (c =? 160)
   || (c =? 5760) || (8192 <=? c) && (c <=? 8202) || (c =? 8232) || (c =? 8233)
   || (c =? 8239) || (c =? 8287) || (c =? 12288))%Z.

Fixpoint drop_while {A} (p : A → bool) (l : list A) : list A :=
  match l with [] => [] | x :: l' => if p x then drop_while p l' else l end.

(** [str::trim_matches]. *)
Definition trim_matches (p : Z → bool) (s : string) : string :=
  encode (rev (drop_while p (rev (drop_while p (chars s))))).

Definition py_strip (s : string) : string := trim_matches is_py_space s.

Definition is_digit_at (s : string) (i : nat) : bool :=
  match String.get i s with Some c => is_ascii_digit c | None => false end.

Definition underscore_ok_at (s : string) (i : nat) : bool :=
  match String.get i s with
  | Some c =>
      negb (byte_eqb c "_") ||
      (match i with O => false | S j => is_digit_at s j end && is_digit_at s (S i))
  | None => true
  end.

Definition underscores_ok (s : string) : bool :=
  forallb (underscore_ok_at s) (seq 0 (String.length s)).

Fixpoint remove_byte (x : byte) (s : string) : string :=
  match s with
  | "" => ""
  | String c s' => if byte_eqb c x then remove_byte x s' else String c (remove_byte x s')
  end.

(** [str::parse::<i64>]. *)
Definition parse_i64 (s : string) : option Z :=
  let '(neg, body) := match s with
    | String "-" r => (true, r)
    | String "+" r => (false, r)
    | _ => (false, s)
    end in
  if all_digits body then
    let v := digits_val 0 body in checked_i64 (if neg : bool then - v else v)
  else None.

Definition py_int (text : string) : option Z :=
  let body := py_strip text in
  if underscores_ok body then parse_i64 (remove_byte "_" body) else None.

(** The longest prefix of digits and the rest. *)
Fixpoint span_digits (s : string) : string * string :=
  match s with
  | String c s' =>
      if is_ascii_digit c then let '(a, b) := span_digits s' in (String c a, b)
      else ("", s)
  | "" => ("", "")
  end.

(** The exponent of [dec2flt]: digits accumulate while below [0x10000]. *)
Fixpoint exp_val (acc : Z) (s : string) : Z :=
  match s with
  | "" => acc
  | String c s' =>
      exp_val (if (acc <? 65536)%Z then acc * 10 + digit_val c else acc)%Z s'
  end.

(** The nearest double to [d * 10 ^ k]. *)
Definition f_decimal (d k : Z) : f64 :=
  if (0 <=? k)%Z then f_lit (d * 10 ^ k) 1 else f_lit d (Z.to_pos (10 ^ (- k))).

Definition parse_exp (s : string) : option Z :=
  match s with
  | "" => Some 0%Z
  | String c r =>
      if byte_eqb c "e" || byte_eqb c "E" then
        let '(neg, body) := match r with
          | String "-" t => (true, t)
          | String "+" t => (false, t)
          | _ => (false, r)
          end in
        if all_digits body then
          Some (if neg : bool then - exp_val 0 body else exp_val 0 body)%Z
        else None
      else None
  end.

Definition parse_decimal (s : string) : option f64 :=
  let '(int, rest) := span_digits s in
  let '(frac, rest') := match rest with
    | String "." r => span_digits r
    | _ => ("", rest)
    end in
  if is_empty_str (int +:+ frac) then None else
  exp ← parse_exp rest';
  Some (f_decimal (digits_val 0 (int +:+ frac)) (exp - str_len frac)).

(** [str::parse::<f64>]. *)
Definition parse_f64 (s : string) : option f64 :=
  let '(neg, body) := match s with
    | String "-" r => (true, r)
    | String "+" r => (false, r)
    | _ => (false, s)
    end in
  let low := to_ascii_lowercase body in
  let magnitude :=
    match parse_decimal body with
    | Some v => Some v
    | None =>
        if bool_decide (low = "nan") then Some S754_nan
        else if bool_decide (low = "inf") || bool_decide (low = "infinity") then Some f_inf
        else None
    end in
  if neg : bool then f_neg <$> magnitude else magnitude.

Definition py_float (text : string) : option f64 :=
  let body := py_strip text in
  if underscores_ok body then parse_f64 (remove_byte "_" body) else None.

(** ** Numbers as text *)

(** [n / d] rounded to an integer, ties to even. *)
Definition round_he (n d : Z) : Z :=
  let q := (n / d)%Z in
  let r := (n mod d)%Z in
  match (2 * r ?= d)%Z with
  | Lt => q
  | Gt => q + 1
  | Eq => if Z.even q then q else q + 1
  end%Z.

(** The exact value of a finite double as a fraction. *)
Definition f_frac (x : f64) : Z * Z :=
  match x with
  | S754_finite _ m e =>
      if (0 <=? e)%Z then (Zpos m * 2 ^ e, 1)%Z else (Zpos m, 2 ^ (- e))%Z
  | _ => (0, 1)%Z
  end.

Definition sign_text (x : f64) : string := if is_sign_negative x then "-" else "".

Definition pad_left (w : nat) (s : string) : string := zeros (w - String.length s) +:+ s.

(** An integer count of [10 ^ -decimals] written with its point. *)
Definition point_text (q : Z) (decimals : nat) : string :=
  let s := pad_left (S decimals) (dec_abs q) in
  match decimals with
  | O => s
  | _ =>
      let n := String.length s - decimals in
      String.substring 0 n s +:+ "." +:+ String.substring n decimals s
  end.

(** [{x:.decimals$}] of a finite [x]. *)
Definition fmt_prec (x : f64) (decimals : nat) : string :=
  let '(n, d) := f_frac x in
  sign_text x +:+ point_text (round_he (n * 10 ^ Z.of_nat decimals) d) decimals.

Definition num_digits (n : Z) : Z := str_len (dec_abs n).

(** The decimal exponent of the first digit of [n / d > 0]. *)
Definition log10_floor (n d : Z) : Z :=
  if (d <=? n)%Z then num_digits (n / d) - 1
  else - num_digits ((d + n - 1) / n - 1).

(** [n / d] in units of [10 ^ -k]. *)
Definition scale10 (n d k : Z) : Z * Z :=
  if (0 <=? k)%Z then (n * 10 ^ k, d)%Z else (n, d * 10 ^ (- k))%Z.

Definition exp_text (digits : string) (e : Z) : string :=
  match digits with
  | String c "" => String c "" +:+ "e" +:+ dec e
  | String c r => String c "." +:+ r +:+ "e" +:+ dec e
  | "" => ""
  end.

(** [{x:.p$e}] of a finite [x]. *)
Definition fmt_exp (x : f64) (p : nat) : string :=
  let '(n, d) := f_frac x in
  sign_text x +:+
  (if (n =? 0)%Z then exp_text (zeros (S p)) 0
   else
     let e := log10_floor n d in
     let '(n', d') := scale10 n d (Z.of_nat p - e) in
     let q := round_he n' d' in
     if (q =? 10 ^ (Z.of_nat p + 1))%Z then exp_text (dec_abs (q / 10)) (e + 1)
     else exp_text (dec_abs q) e).

(** The shortest digits that read back as [x], from [k] digits on: the nearer
    of the two neighbours, the upper one when they are equally near. *)
Fixpoint shortest_from (fuel : nat) (k : Z) (x : f64) (n d e : Z) : Z * Z :=
  let '(n', d') := scale10 n d (k - 1 - e) in
  let lo := (n' / d')%Z in
  let up := (2 * (n' mod d') >=? d')%Z in
  let good q := f_eq (f_decimal q (e - k + 1)) (f_abs x) in
  match good lo, good (lo + 1)%Z with
  | true, true => ((if up then lo + 1 else lo), k)%Z
  | true, false => (lo, k)
  | false, true => (lo + 1, k)%Z
  | false, false =>
      match fuel with
      | O => (round_he n' d', k)
      | S f => shortest_from f (k + 1) x n d e
      end
  end.

(** [{x:e}] of a finite [x]; a double needs at most seventeen digits. *)
Definition fmt_shortest_exp (x : f64) : string :=
  let '(n, d) := f_frac x in
  sign_text x +:+
  (if (n =? 0)%Z then "0e0"
   else
     let e := log10_floor n d in
     let '(q, k) := shortest_from 16 1 x n d e in
     if (q =? 10 ^ k)%Z then exp_text (dec_abs (q / 10)) (e + 1)
     else exp_text (dec_abs q) e).

Definition non_finite_text (x : f64) : option string :=
  match x with
  | S754_nan => Some "nan"
  | S754_infinity false => Some "inf"
  | S754_infinity true => Some "-inf"
  | _ => None
  end.

(** [exp.parse::<i32>().unwrap_or(0)] of what follows the [e]. *)
Definition split_exp (text : string) : string * Z :=
  match split_once "e" text with
  | Some (mantissa, exp) => (mantissa, default 0%Z (parse_i64 exp))
  | None => (text, 0%Z)
  end.

Fixpoint only_digits (s : string) : string :=
  match s with
  | "" => ""
  | String c s' => if is_ascii_digit c then String c (only_digits s') else only_digits s'
  end.

Definition shortest_digits (x : f64) : string * Z :=
  let '(mantissa, exp) := split_exp (fmt_shortest_exp x) in
  let len := String.length (only_digits mantissa) in
  let nearest := fmt_exp x (len - 1) in
  let '(text, exp') :=
    if match parse_f64 nearest with Some v => f_eq v x | None => false end
    then split_exp nearest else (mantissa, exp) in
  let trimmed := trim_end_byte "0" (only_digits text) in
  if is_empty_str trimmed then ("0", 0%Z) else (trimmed, exp').

Definition exp_suffix (exp : Z) : string :=
  "e" +:+ (if (exp <? 0)%Z then "-" else "+") +:+ dec_pad 2 (Z.abs exp).

Definition fixed_digits (digits : string) (exp : Z) : string :=
  if (exp <? 0)%Z then "0." +:+ zeros (Z.to_nat (- exp - 1)) +:+ digits
  else
    let int_len := Z.to_nat (exp + 1) in
    let n := String.length digits in
    if Nat.ltb int_len n then
      String.substring 0 int_len digits +:+ "." +:+ String.substring int_len (n - int_len) digits
    else digits +:+ zeros (int_len - n) +:+ ".0".

Definition sci_digits (digits : string) (exp : Z) : string :=
  (match digits with
   | String h (String _ _ as t) => String h "." +:+ t
   | _ => digits
   end) +:+ exp_suffix exp.

Definition float_repr (x : f64) : string :=
  match non_finite_text x with
  | Some t => t
  | None =>
      let '(digits, exp) := shortest_digits (f_abs x) in
      sign_text x +:+
      (if (-4 <=? exp)%Z && (exp <? 16)%Z then fixed_digits digits exp
       else sci_digits digits exp)
  end.

Definition strip_zeros (text : string) : string :=
  if contains_byte "." text then trim_end_byte "." (trim_end_byte "0" text) else text.

Definition fmt_g (x : f64) : string :=
  match non_finite_text x with
  | Some t => t
  | None =>
      let '(mantissa, exp) := split_exp (fmt_exp x 5) in
      if (-4 <=? exp)%Z && (exp <? 6)%Z then strip_zeros (fmt_prec x (Z.to_nat (5 - exp)))
      else strip_zeros mantissa +:+ exp_suffix exp
  end.

Definition fmt_fixed (x : f64) (decimals : nat) : string :=
  match non_finite_text x with Some t => t | None => fmt_prec x decimals end.

(** Adds one to a text of decimal digits, carrying from its end. *)
Fixpoint increment_go (s : string) : bool * string :=
  match s with
  | "" => (true, "")
  | String c s' =>
      let '(carry, r) := increment_go s' in
      if carry : bool then
        if byte_eqb c "9" then (true, String "0" r)
        else (false, String (byte_of (byte_val c + 1)) r)
      else (false, String c r)
  end.

Definition increment_decimal (digits : string) : string :=
  let '(carry, r) := increment_go digits in if carry : bool then String "1" r else r.

Definition last_byte (s : string) : option byte :=
  String.get (String.length s - 1) s.

Definition round_to_power_of_ten (x : f64) (k : nat) : f64 :=
  let zero := S754_zero (is_sign_negative x) in
  let text := fmt_prec (f_abs x) 1100 in
  let '(int_part, frac_part) := default (text, "") (split_once "." text) in
  let len := String.length int_part in
  if Nat.ltb len k then zero else
  let keep := len - k in
  let head := String.substring 0 keep int_part in
  let rest := String.substring keep k int_part +:+ frac_part in
  let '(first, more) := match rest with String c r => (c, r) | "" => ("0"%char, "") end in
  let beyond_half := negb (str_all (λ c, byte_eqb c "0") more) in
  let last_odd := match last_byte head with
    | Some c => Z.odd (digit_val c) && is_ascii_digit c
    | None => false
    end in
  let round_up := (byte_val "5" <? byte_val first)%Z ||
    (byte_eqb first "5" && (beyond_half || last_odd)) in
  let kept := if round_up then increment_decimal head else head in
  let digits := if is_empty_str kept then "0" else kept in
  let magnitude := default f_zero (parse_f64 (digits +:+ zeros k)) in
  if is_sign_negative x then f_neg magnitude else magnitude.

Definition round_half_even (x : f64) (ndigits : Z) : f64 :=
  if negb (is_finite x) then x
  else if (0 <=? ndigits)%Z then
    if (1100 <=? ndigits)%Z then x
    else default x (parse_f64 (fmt_prec x (Z.to_nat ndigits)))
  else round_to_power_of_ten x (Z.to_nat (- ndigits)).

(** Neumaier's compensated sum, [sum()] of Python 3.12. *)
Definition fsum_step (acc : f64 * f64) (x : f64) : f64 * f64 :=
  let '(hi, lo) := acc in
  let t := (hi + x)%f64 in
  (t, if (f_abs x <=? f_abs hi)%f64 then (lo + ((hi - t) + x))%f64
      else (lo + ((x - t) + hi))%f64).

Definition py_fsum (xs : list f64) : f64 :=
  let '(hi, lo) := foldl fsum_step (f_zero, f_zero) xs in
  if negb (f_eq lo f_zero) && is_finite lo then (hi + lo)%f64 else hi.

(** ** JSON text *)

Inductive PyJson : Type :=
| PNull
| PBool (b : bool)
| PInt (i : Z)
| PFloat (f : f64)
| PStr (s : string)
| PList (items : list PyJson)
| PObject (members : list (string * PyJson)).

Definition utf16_units (c : Z) : list Z :=
  if (c <? 65536)%Z then [c]
  else [55296 + (c - 65536) / 1024; 56320 + (c - 65536) mod 1024]%Z.

Definition json_char (c : Z) : string :=
  if (c =? 34)%Z then "\" +:+ dq
  else if (c =? 92)%Z then "\\"
  else if (c =? 10)%Z then "\n"
  else if (c =? 13)%Z then "\r"
  else if (c =? 9)%Z then "\t"
  else if (c =? 8)%Z then "\b"
  else if (c =? 12)%Z then "\f"
  else if (32 <=? c)%Z && (c <=? 126)%Z then encode_char c
  else concat_map (λ u, "\u" +:+ hex_pad 4 u) (utf16_units c).

Definition write_json_str (s : string) : string :=
  dq +:+ concat_map json_char (chars s) +:+ dq.

Definition json_float (f : f64) : string :=
  match f with
  | S754_nan => "NaN"
  | S754_infinity false => "Infinity"
  | S754_infinity true => "-Infinity"
  | _ => float_repr f
  end.

Fixpoint push_indent (depth : nat) : string :=
  match depth with O => "" | S d => "  " +:+ push_indent d end.

Definition newline : string := String nl_byte "".

Definition close_block (depth : nat) (close : string) : string :=
  newline +:+ push_indent depth +:+ close.

(** The items of a block, each after its separator. *)
Definition json_block (depth : nat) (open close : string) (items : list string) : string :=
  match items with
  | [] => open +:+ close
  | _ =>
      let sep := newline +:+ push_indent (S depth) in
      open +:+ sep +:+ join ("," +:+ sep) items +:+ close_block depth close
  end.

Fixpoint write_json (v : PyJson) (depth : nat) : string :=
  match v with
  | PNull => "null"
  | PBool true => "true"
  | PBool false => "false"
  | PInt i => dec i
  | PFloat f => json_float f
  | PStr s => write_json_str s
  | PList items => json_block depth "[" "]" (map (λ i, write_json i (S depth)) items)
  | PObject members =>
      json_block depth "{" "}"
        (map (λ m, write_json_str (fst m) +:+ ": " +:+ write_json (snd m) (S depth)) members)
  end.

Definition json_dumps_indent2 (v : PyJson) : string := write_json v 0.

(** ** Printable text *)

(** Ranges in order, each non-empty and below the next. *)
Fixpoint ranges_sorted (l : list (Z * Z)) : bool :=
  match l with
  | [] => true
  | (a, b) :: l' =>
      (a <=? b)%Z && match l' with [] => true | (c, _) :: _ => (b <? c)%Z end
      && ranges_sorted l'
  end.

Definition in_ranges (l : list (Z * Z)) (code : Z) : Prop :=
  ∃ i a b, l !! i = Some (a, b) ∧ (a ≤ code ≤ b)%Z.

Lemma ranges_sorted_lookup l i j a b c d :
  ranges_sorted l = true → l !! i = Some (a, b) → l !! j = Some (c, d) → i < j →
  (a ≤ b < c ∧ c ≤ d)%Z.
Proof.
  revert i j a b. induction l as [|[x y] l IH]; intros i j a b Hs Hi Hj Hij; [done|].
  cbn in Hs. apply andb_prop in Hs as [Hs Hl]. apply andb_prop in Hs as [Hxy Hnext].
  apply Z.leb_le in Hxy. destruct j as [|j]; [lia|]. cbn in Hj. destruct i as [|i]; cbn in Hi.
  - simplify_eq. destruct l as [|[u v] l]; [done|]. apply Z.ltb_lt in Hnext.
    destruct j as [|j]; cbn in Hj.
    + simplify_eq. cbn in Hl. apply andb_prop in Hl as [Hl _]. apply andb_prop in Hl as [Hl _].
      apply Z.leb_le in Hl. lia.
    + destruct (IH 0 (S j) u v Hl eq_refl Hj ltac:(lia)). lia.
  - apply (IH i j); try done. lia.
Qed.

(** The halving search decides membership between its bounds. *)
Lemma range_search_spec fuel l lo hi code :
  ranges_sorted l = true → hi ≤ length l → hi - lo < fuel →
  range_search fuel l lo hi code = true ↔
    ∃ i a b, lo ≤ i < hi ∧ l !! i = Some (a, b) ∧ (a ≤ code ≤ b)%Z.
Proof.
  intros Hs. revert lo hi. induction fuel as [|f IH]; intros lo hi Hhi Hf; [lia|].
  cbn [range_search]. destruct (Nat.ltb_spec lo hi) as [Hlt|Hge]; [|split; [done|]].
  2: { intros (i & a & b & ? & _). lia. }
  set (mid := lo + (hi - lo) / 2).
  assert (Hmid : lo ≤ mid < hi).
  { unfold mid. pose proof (Nat.div_lt (hi - lo) 2). lia. }
  destruct (lookup_lt_is_Some_2 l mid) as [[a b] Hm]; [lia|]. rewrite Hm.
  assert (Hord : ∀ i x y, l !! i = Some (x, y) →
    (i < mid → (y < a ≤ b)%Z) ∧ (mid < i → (a ≤ b < x)%Z)).
  { intros i x y Hi. split; intros Hl.
    - pose proof (ranges_sorted_lookup l i mid x y a b Hs Hi Hm Hl). lia.
    - pose proof (ranges_sorted_lookup l mid i a b x y Hs Hm Hi Hl). lia. }
  destruct (Z.ltb_spec b code) as [Hb|Hb]; [|destruct (Z.ltb_spec code a) as [Ha|Ha]].
  - rewrite IH by lia. split; intros (i & x & y & Hr & Hi & Hc); exists i, x, y.
    + split_and!; try done; lia.
    + destruct (Hord i x y Hi) as [H1 H2]. split_and!; try done; try lia.
      destruct (decide (i = mid)) as [->|]; [simplify_eq; lia|].
      destruct (decide (i < mid)) as [Hl|]; [specialize (H1 Hl)|]; lia.
  - rewrite IH by lia. split; intros (i & x & y & Hr & Hi & Hc); exists i, x, y.
    + split_and!; try done; lia.
    + destruct (Hord i x y Hi) as [H1 H2]. split_and!; try done; try lia.
      destruct (decide (i = mid)) as [->|]; [simplify_eq; lia|].
      destruct (decide (mid < i)) as [Hl|]; [specialize (H2 Hl)|]; lia.
  - split; [|done]. intros _. exists mid, a, b. split_and!; try done; lia.
Qed.

Lemma NON_PRINTABLE_sorted : ranges_sorted NON_PRINTABLE = true.
Proof. by vm_compute. Qed.

(** The binary search behind [is_printable] rejects exactly the characters
    that lie in one of the table's ranges. *)
Theorem is_printable_spec c :
  is_printable c = false ↔ in_ranges NON_PRINTABLE c.
Proof.
  unfold is_printable, in_ranges. rewrite negb_false_iff.
  rewrite range_search_spec by (apply NON_PRINTABLE_sorted || lia).
  split.
  - intros (i & a & b & _ & ? & ?). eauto.
  - intros (i & a & b & Hi & ?). exists i, a, b.
    pose proof (lookup_lt_Some _ _ _ Hi). split_and!; try done; lia.
Qed.

(** A printable ASCII byte. *)
Definition is_graphic (c : byte) : bool := in_range 32 126 c.

Lemma is_printable_graphic c : (32 ≤ c ≤ 126)%Z → is_printable c = true.
Proof.
  intros Hc. destruct (is_printable c) eqn:E; [done|]. exfalso.
  assert (Hall : forallb is_printable (Z.of_nat <$> seq 32 95) = true) by by vm_compute.
  rewrite forallb_forall in Hall. rewrite Hall in E; [done|].
  apply list_elem_of_In, list_elem_of_fmap. exists (Z.to_nat c).
  rewrite elem_of_seq. lia.
Qed.

Lemma hex_pad_graphic w n : (0 ≤ n)%Z → str_all is_graphic (hex_pad w n) = true.
Proof.
  revert n. induction w as [|w IH]; intros n Hn; [done|]. cbn [hex_pad].
  rewrite str_all_app, IH by (apply Z.div_pos; lia). cbn. rewrite andb_true_r.
  unfold hex_digit, is_graphic, in_range. pose proof (Z.mod_pos_bound n 16 ltac:(lia)).
  case_match; rewrite byte_val_of by lia; apply andb_true_intro; lia.
Qed.

Lemma push_escape_graphic c : (0 ≤ c)%Z → str_all is_graphic (push_escape c) = true.
Proof.
  intros Hc. unfold push_escape. repeat case_match; try done.
  all: rewrite str_all_app, hex_pad_graphic by done; done.
Qed.

(** Whatever a text holds (control characters, escape sequences, invisible
    or unassigned code points), the line [printable] makes of it consists of
    printable characters only. *)
Theorem printable_safe s : Forall (λ c, is_printable c = true) (chars (printable s)).
Proof.
  unfold printable. pose proof (chars_range s) as Hr. induction Hr as [|c cs Hc _ IH]; [constructor|].
  cbn [concat_map foldr]. unfold printable_char.
  destruct (is_printable c) eqn:Hp.
  - rewrite chars_encode_char by done. by constructor.
  - rewrite chars_ascii_app.
    + apply Forall_app. split; [|done]. pose proof (push_escape_graphic c ltac:(lia)) as Hg.
      apply Forall_forall. intros x Hx. eapply str_all_bytes in Hx as (b & -> & Hb); [|done].
      apply is_printable_graphic. apply andb_prop in Hb as [? ?]. lia.
    + eapply str_all_impl; [|by apply push_escape_graphic; lia].
      intros b [? ?]%andb_prop. apply Z.ltb_lt. lia.
Qed.
