(* ===== verification/Task.v ===== *)
(** * Task lists

    [src/crates/agora-sched/src/task.rs]: the tasks of [order] and [plan], read
    from JSON documents and [--task] specs. A [serde_json] object keeps its
    members in document order (the workspace enables [preserve_order]), so a
    [Map] is an association list in which each key occurs once. *)

From Stdlib Require Import Ascii Floats.SpecFloat.
From S2P Require Import Prelude F64 Strs PyFmt.

(** ** JSON values *)

(** A [serde_json::Number]: an integer of [i64] or [u64], or a finite float. *)
Inductive Number : Type :=
| NInt (z : Z)
| NFloat (f : f64).

Inductive Value : Type :=
| VNull
| VBool (b : bool)
| VNumber (n : Number)
| VString (s : string)
| VArray (items : list Value)
| VObject (fields : list (string * Value)).

Definition JMap : Type := list (string * Value).

Definition as_i64 (n : Number) : option Z :=
  match n with NInt z => checked_i64 z | NFloat _ => None end.
Definition as_u64 (n : Number) : option Z :=
  match n with NInt z => checked_u64 z | NFloat _ => None end.
Definition as_f64 (n : Number) : option f64 :=
  match n with NInt z => Some (f_of_Z z) | NFloat f => Some f end.

Fixpoint jget (key : string) (m : JMap) : option Value :=
  match m with
  | [] => None
  | (k, v) :: m' => if String.eqb k key then Some v else jget key m'
  end.

(** [Map::insert]: an existing key keeps its place and takes the new value. *)
Fixpoint jinsert (key : string) (v : Value) (m : JMap) : JMap :=
  match m with
  | [] => [(key, v)]
  | (k, w) :: m' => if String.eqb k key then (k, v) :: m' else (k, w) :: jinsert key v m'
  end.

(** ** Tasks *)

Inductive Queued : Type :=
| QInt (i : Z)
| QFloat (f : f64)
| QText (s : string).

Record Task : Type := mk_task {
  t_index : nat;
  t_id : string;
  t_title : string;
  t_kind : string;
  t_tier : Z;
  t_queued : option Queued;
  t_after : list string;
  t_size : f64;
  t_value : f64;
  t_files : list string }.

Record InputError : Type := mk_input_error { message : string }.

Definition VALIDITY_KINDS : list string :=
  ["validity"; "correctness"; "safety"; "security"; "data-loss"; "crash"].

(** No character outside ASCII lowercases into one of these words, so the
    ASCII lowercase decides the same membership as [str::to_lowercase]. *)
Definition tier_of (kind : string) : Z :=
  if bool_decide (to_ascii_lowercase kind ∈ VALIDITY_KINDS) then 0 else 1.

Definition number_text (n : Number) : string :=
  match as_i64 n with
  | Some i => dec i
  | None => match as_u64 n with
            | Some i => dec i
            | None => float_repr (default S754_nan (as_f64 n))
            end
  end.

Fixpoint py_repr (v : Value) : string :=
  match v with
  | VNull => "None"
  | VBool true => "True"
  | VBool false => "False"
  | VNumber n => number_text n
  | VString s => repr_str s
  | VArray items => "[" +:+ join ", " (map py_repr items) +:+ "]"
  | VObject fields =>
      "{" +:+ join ", "
        (map (λ kv, repr_str (fst kv) +:+ ": " +:+ py_repr (snd kv)) fields) +:+ "}"
  end.

Definition py_str (v : Value) : string :=
  match v with VString s => s | other => py_repr other end.

(** ** [--task] specs *)

Definition is_key_char (c : byte) : bool :=
  is_ascii_alphabetic c || byte_eqb c "_" || byte_eqb c "-".

(** One or more key characters followed at once by [=]. *)
Fixpoint starts_field_go (seen : bool) (rest : string) : bool :=
  match rest with
  | "" => false
  | String c r => if is_key_char c then starts_field_go true r else seen && byte_eqb c "="
  end.

Definition starts_field (rest : string) : bool := starts_field_go false rest.

(** The parts between the commas that a key follows. *)
Fixpoint split_fields (spec : string) : list string :=
  match spec with
  | "" => [""]
  | String c r =>
      if byte_eqb c "," && starts_field r then "" :: split_fields r
      else match split_fields r with
           | [] => [String c ""]
           | w :: ws => String c w :: ws
           end
  end.

Definition spec_error (spec part : string) : InputError :=
  mk_input_error ("--task " +:+ repr_str spec +:+ ": " +:+ repr_str part +:+ " is not key=value").

Fixpoint parse_parts (spec : string) (parts : list string) :
    result InputError (list (string * string)) :=
  match parts with
  | [] => Ok []
  | part :: rest =>
      match split_once "=" part with
      | None => Err (spec_error spec part)
      | Some (key, value) =>
          more ← parse_parts spec rest;
          let key := py_strip key in
          Ok (if is_empty_str key then more else (key, py_strip value) :: more)
      end
  end.

Definition parse_spec (spec : string) : result InputError (list (string * string)) :=
  parse_parts spec (split_fields spec).

Definition spec_fields (spec : string) : result InputError JMap :=
  pairs ← parse_spec spec;
  Ok (foldl (λ m kv, jinsert (fst kv) (VString (snd kv)) m) [] pairs).

(** ** Fields *)

Definition text_queued (text : string) : Queued :=
  match py_float text with Some f => QFloat f | None => QText text end.

Definition queued_of (raw : option Value) (id : string) : result InputError (option Queued) :=
  match raw with
  | None | Some VNull => Ok None
  | Some (VNumber n) =>
      Ok (Some (match as_i64 n with
                | Some i => QInt i
                | None => QFloat (default S754_nan (as_f64 n))
                end))
  | Some (VString text) => Ok (Some (text_queued text))
  | Some _ => Err (mk_input_error
      ("task " +:+ id +:+ ": queued must be a number or an ISO 8601 time"))
  end.

Definition list_of (raw : option Value) : result InputError (list string) :=
  match raw with
  | None | Some VNull => Ok []
  | Some (VString text) => Ok (filter (λ p, is_empty_str p = false) (split_byte "+" text))
  | Some (VArray items) => Ok (map py_str items)
  | Some other => Err (mk_input_error ("expected a list, not " +:+ py_repr other))
  end.

Definition float_of (raw : Value) : option f64 :=
  match raw with
  | VBool flag => Some (if flag then f_of_Z 1 else f_zero)
  | VNumber n => as_f64 n
  | VString text => py_float text
  | VNull | VArray _ | VObject _ => None
  end.

Definition positive (raw : option Value) (name id : string) : result InputError f64 :=
  match raw with
  | None => Ok (f_of_Z 1)
  | Some raw =>
      number ← ok_or (float_of raw) (mk_input_error
        ("task " +:+ id +:+ ": " +:+ name +:+ " must be a number, not " +:+ py_repr raw));
      if is_nan number || (number <=? f_zero)%f64 then
        Err (mk_input_error ("task " +:+ id +:+ ": " +:+ name +:+ " must be greater than zero"))
      else Ok number
  end.

Definition make_task (fields : JMap) (index : nat) : result InputError Task :=
  let raw_id := from_option py_str "" (jget "id" fields) in
  let id := py_strip raw_id in
  if is_empty_str id then
    Err (mk_input_error ("task at position " +:+ dec (Z.of_nat index + 1) +:+ " has no id"))
  else
    queued ← queued_of (jget "queued" fields) id;
    after ← list_of (jget "after" fields);
    size ← positive (jget "size" fields) "size" id;
    value ← positive (jget "value" fields) "value" id;
    files ← list_of (jget "files" fields);
    let title := from_option py_str "" (jget "title" fields) in
    let kind := from_option py_str "other" (jget "kind" fields) in
    Ok (mk_task index id title kind (tier_of kind) queued after size value files).

(** ** Documents *)

(** [for x in xs { ys.push(f(x)?) }]. *)
Fixpoint try_map {E A B} (f : A → result E B) (l : list A) : result E (list B) :=
  match l with
  | [] => Ok []
  | x :: l' => y ← f x; ys ← try_map f l'; Ok (y :: ys)
  end.

Fixpoint try_imap {E A B} (f : A → nat → result E B) (i : nat) (l : list A) :
    result E (list B) :=
  match l with
  | [] => Ok []
  | x :: l' => y ← f x i; ys ← try_imap f (S i) l'; Ok (y :: ys)
  end.

Definition document_items (document : Value) : result InputError (list JMap) :=
  match match document with VObject m => jget "tasks" m | other => Some other end with
  | Some (VArray items) =>
      try_map (λ item, match item with
        | VObject fields => Ok fields
        | _ => Err (mk_input_error "each task in the JSON must be an object")
        end) items
  | _ => Err (mk_input_error
      ("the JSON must be a list of tasks or an object with a " +:+ dq +:+ "tasks" +:+ dq
       +:+ " list"))
  end.

Definition is_text_queued (t : Task) : bool :=
  match t_queued t with Some (QText _) => true | _ => false end.
Definition is_number_queued (t : Task) : bool :=
  match t_queued t with Some (QInt _ | QFloat _) => true | _ => false end.

Definition load_tasks (documents : list Value) (specs : list string) :
    result InputError (list Task) :=
  raw ← try_map document_items documents;
  spec_maps ← try_map spec_fields specs;
  tasks ← try_imap make_task 0 (mjoin raw ++ spec_maps);
  if existsb is_text_queued tasks && existsb is_number_queued tasks then
    Err (mk_input_error "queued values must be all numbers or all timestamps")
  else Ok tasks.

(** ** Properties *)

(** The parts of a [--task] spec lose nothing: joined by commas they give
    the spec back, and each part after the first starts with a key and [=]. *)
Theorem split_fields_lossless spec :
  join "," (split_fields spec) = spec ∧
  Forall (λ part, starts_field part = true) (tail (split_fields spec)).
Proof.
  assert (Hne : ∀ s, split_fields s ≠ []).
  { intros s. destruct s; cbn; [done|]. repeat case_match; done. }
  assert (Hhead : ∀ s b w ws, split_fields s = w :: ws →
    starts_field_go b s = true → starts_field_go b w = true).
  { induction s as [|c s IH]; intros b w ws Hw Hs; [done|]. cbn in Hw, Hs.
    destruct (byte_eqb c "," && starts_field s) eqn:Hcut.
    { apply andb_prop in Hcut as [Hc%byte_eqb_eq _]. subst c. by destruct b. }
    destruct (split_fields s) as [|w' ws'] eqn:E; [by apply Hne in E|].
    injection Hw as <- <-. cbn. case_match; [by eapply IH|done]. }
  induction spec as [|c s [IH1 IH2]]; [split; [done|constructor]|]. cbn [split_fields].
  destruct (split_fields s) as [|w ws] eqn:E; [by apply Hne in E|].
  destruct (byte_eqb c "," && starts_field s) eqn:Hcut.
  - apply andb_prop in Hcut as [Hc%byte_eqb_eq Hf]. subst c. split.
    + rewrite <- IH1. done.
    + constructor; [|done]. by eapply Hhead.
  - split; [|done]. rewrite <- IH1. by destruct ws.
Qed.

(** What [make_task] promises of the task it returns. *)
Record task_ok (i : nat) (t : Task) : Prop := {
  ok_index : t_index t = i;
  ok_id : t_id t ≠ "";
  ok_tier : t_tier t = tier_of (t_kind t);
  ok_size : f_lt f_zero (t_size t) = true;
  ok_value : f_lt f_zero (t_value t) = true }.

Lemma positive_ok raw name id x :
  positive raw name id = Ok x → f_lt f_zero x = true.
Proof.
  unfold positive. destruct raw as [raw|]; [|by intros [= <-]].
  intros (n & Hn & Hx)%result_bind_Ok. destruct (is_nan n) eqn:Hnan; [done|].
  cbn in Hx. destruct (f_le n f_zero) eqn:Hle; [done|]. injection Hx as <-.
  by apply f_not_le_lt.
Qed.

Lemma make_task_ok fields i t : make_task fields i = Ok t → task_ok i t.
Proof.
  unfold make_task. case_match eqn:Hid; [done|].
  intros (q & _ & H)%result_bind_Ok. apply result_bind_Ok in H as (a & _ & H).
  apply result_bind_Ok in H as (s & Hs%positive_ok & H).
  apply result_bind_Ok in H as (v & Hv%positive_ok & H).
  apply result_bind_Ok in H as (f & _ & H). injection H as <-.
  split; cbn; try done. intros Heq. by rewrite Heq in Hid.
Qed.

Lemma try_imap_lookup {E A B} (f : A → nat → result E B) l n ys i y :
  try_imap f n l = Ok ys → ys !! i = Some y → ∃ x, l !! i = Some x ∧ f x (n + i) = Ok y.
Proof.
  revert n ys i. induction l as [|x l IH]; intros n ys i; cbn.
  { by intros [= <-]. }
  intros (z & Hz & (zs & Hzs & [= <-])%result_bind_Ok)%result_bind_Ok.
  destruct i as [|i]; cbn.
  - intros [= <-]. exists x. by rewrite Nat.add_0_r.
  - intros Hy. destruct (IH _ _ _ Hzs Hy) as (w & ? & ?). exists w.
    by rewrite Nat.add_succ_r.
Qed.

(** every task [load_tasks] returns sits at its own index, has an id, the
    tier of its kind, and a size and a value that are greater than zero (so
    never NaN); and no returned list mixes numeric with textual [queued]. *)
Theorem load_tasks_sound documents specs tasks :
  load_tasks documents specs = Ok tasks →
  (∀ i t, tasks !! i = Some t → task_ok i t) ∧
  ¬ ((∃ t, t ∈ tasks ∧ is_text_queued t = true) ∧
     (∃ t, t ∈ tasks ∧ is_number_queued t = true)).
Proof.
  unfold load_tasks. intros (raw & _ & H)%result_bind_Ok.
  apply result_bind_Ok in H as (maps & _ & H).
  apply result_bind_Ok in H as (ts & Hts & H).
  destruct (existsb is_text_queued ts && existsb is_number_queued ts) eqn:Hmix; [done|].
  injection H as <-. split.
  - intros i t Ht. destruct (try_imap_lookup _ _ _ _ _ _ Hts Ht) as (x & _ & Hx).
    by apply make_task_ok in Hx.
  - intros [(t & Ht & Htext) (u & Hu & Hnum)].
    assert (existsb is_text_queued ts = true).
    { apply existsb_exists. exists t. by rewrite <- list_elem_of_In. }
    assert (existsb is_number_queued ts = true).
    { apply existsb_exists. exists u. by rewrite <- list_elem_of_In. }
    destruct (existsb is_text_queued ts), (existsb is_number_queued ts); done.
Qed.

Lemma load_tasks_sound_witness :
  let specs := ["id=a,size=2.5"; "id=b,after=a,kind=Crash"] in
  ∃ tasks, load_tasks [] specs = Ok tasks ∧ t_tier <$> tasks = [1; 0]%Z ∧
    (∀ i t, tasks !! i = Some t → task_ok i t).
Proof.
  eexists. split; [by vm_compute|]. split; [by vm_compute|].
  eapply (load_tasks_sound [] ["id=a,size=2.5"; "id=b,after=a,kind=Crash"]). by vm_compute.
Defined.
