(* ===== verification/Kahn.v ===== *)
(** * Kahn's algorithm over an abstract worklist

    [Graph::new], [order] and [schedule] all release positions whose in-degree
    has dropped to zero; they differ in the container that holds the released
    ones (a stack, or a heap on keys). [Bag] is what they require of it, and
    the theorems here are proved against it. *)

From stdpp Require Import relations fin_sets.
From S2P Require Import Prelude.

(** A worklist of positions: it gives back each position pushed, once. *)
Class Bag (B : Type) : Type := {
  bag_pop : B → option (nat * B);
  bag_push : nat → B → B;
  bag_elems : B → list nat }.

Class BagLaws (B : Type) `{Bag B} : Prop := {
  bag_pop_None b : bag_pop b = None → bag_elems b = [];
  bag_pop_Some b x b' : bag_pop b = Some (x, b') → bag_elems b ≡ₚ x :: bag_elems b';
  bag_push_elems x b : bag_elems (bag_push x b) ≡ₚ x :: bag_elems b }.

(** A [Vec] used with [push] and [pop]; the top is the head of the list. *)
Definition stack : Type := list nat.

#[export] Instance stack_bag : Bag stack := {
  bag_pop b := match b with [] => None | x :: b' => Some (x, b') end;
  bag_push x b := x :: b;
  bag_elems b := b }.

#[export] Instance stack_bag_laws : BagLaws stack.
Proof. split; cbn; [by intros []|by intros [] ? ? [= -> ->]|done]. Qed.

Section kahn.
Context {B : Type} `{Bag B}.

(** Decrements the in-degree of each dependent, pushing it when it reaches
    zero ([saturating_sub], then the test of [== 0]). *)
Fixpoint release (deps : list nat) (indegree : list nat) (bag : B) : list nat * B :=
  match deps with
  | [] => (indegree, bag)
  | d :: ds =>
      match indegree !! d with
      | None => release ds indegree bag
      | Some k =>
          let k' := pred k in
          release ds (<[d := k']> indegree)
            (if Nat.eqb k' 0 then bag_push d bag else bag)
      end
  end.

Fixpoint kahn_loop (fuel : nat) (succ : nat → list nat) (indegree : list nat)
    (bag : B) : list nat :=
  match fuel with
  | O => []
  | S f =>
      match bag_pop bag with
      | None => []
      | Some (x, bag') =>
          let '(indegree', bag'') := release (succ x) indegree bag' in
          x :: kahn_loop f succ indegree' bag''
      end
  end.
End kahn.

(** The positions whose in-degree is zero: [(0..count).filter(..)]. *)
Definition initial_ready (indegree : list nat) : list nat :=
  filter (λ p, indegree !! p = Some 0) (seq 0 (length indegree)).

(** ** Counting *)

Definition occ (d : nat) (l : list nat) : nat := length (filter (eq d) l).

#[global] Arguments occ : simpl never.

Lemma occ_nil d : occ d [] = 0.
Proof. done. Qed.

Lemma occ_cons d x l : occ d (x :: l) = (if decide (d = x) then 1 else 0) + occ d l.
Proof. unfold occ. rewrite filter_cons. by case_decide. Qed.

Lemma occ_app d l k : occ d (l ++ k) = occ d l + occ d k.
Proof. unfold occ. by rewrite filter_app, length_app. Qed.

Lemma occ_pos d l : 0 < occ d l ↔ d ∈ l.
Proof.
  induction l as [|x l IH]; [rewrite occ_nil; split; [lia|set_solver]|].
  rewrite occ_cons, elem_of_cons, <- IH. case_decide; naive_solver lia.
Qed.

#[export] Instance occ_perm d : Proper (Permutation ==> eq) (occ d).
Proof. intros l k Hp. unfold occ. by rewrite Hp. Qed.

Section release.
Context {B : Type} `{BagLaws B}.

Lemma release_spec deps indegree (bag : B) indegree' bag' :
  release deps indegree bag = (indegree', bag') →
  (∀ d, d ∈ deps → is_Some (indegree !! d)) →
  (∀ d k, indegree !! d = Some k → occ d deps ≤ k) →
  length indegree' = length indegree ∧
  (∀ d k, indegree !! d = Some k → indegree' !! d = Some (k - occ d deps)) ∧
  ∃ l, bag_elems bag' ≡ₚ l ++ bag_elems bag ∧ NoDup l ∧
    (∀ d, d ∈ l ↔ d ∈ deps ∧ indegree !! d = Some (occ d deps)).
Proof.
  revert indegree bag. induction deps as [|x deps IH]; intros indegree bag; cbn [release].
  { intros [= <- <-] _ _. split_and!; [done| |].
    - intros d k ->. by rewrite occ_nil, Nat.sub_0_r.
    - exists []. split_and!; [done|constructor|set_solver]. }
  intros Hr Hsome Hle. destruct (indegree !! x) as [kx|] eqn:Hx.
  - pose proof (Hle x kx Hx) as Hkx. rewrite occ_cons, decide_True in Hkx by done.
    pose proof (lookup_lt_Some _ _ _ Hx) as Hlt.
    assert (Hle' : ∀ d k, <[x:=pred kx]> indegree !! d = Some k → occ d deps ≤ k).
    { intros d k. rewrite list_lookup_insert_Some. intros [(<- & <- & _)|[Hne Hd]]; [lia|].
      specialize (Hle d k Hd). rewrite occ_cons, decide_False in Hle by done. lia. }
    destruct (IH _ _ Hr) as (Hlen & Hdeg & l & Hl & Hnd & Hin); [|done|].
    { intros d Hd. apply lookup_lt_is_Some. rewrite length_insert.
      apply lookup_lt_is_Some, Hsome. by right. }
    rewrite length_insert in Hlen. split_and!; [done| |].
    { intros d k Hd. rewrite occ_cons. destruct (decide (d = x)) as [->|Hne].
      - rewrite (Hdeg x (pred kx)) by (by apply list_lookup_insert_eq).
        simplify_eq. f_equal. lia.
      - rewrite (Hdeg d k) by (by rewrite list_lookup_insert_ne). f_equal. }
    assert (Hin' : ∀ d, d ≠ x → d ∈ l ↔ d ∈ x :: deps ∧
      indegree !! d = Some (occ d (x :: deps))).
    { intros d Hne. rewrite Hin, list_lookup_insert_ne, occ_cons, decide_False by done.
      set_solver. }
    destruct (Nat.eqb_spec (pred kx) 0) as [Hz|Hz].
    + exists (x :: l). rewrite Hl. split_and!.
      * rewrite bag_push_elems. by rewrite <- Permutation_middle.
      * constructor; [|done]. rewrite Hin. intros [Hd _]. apply occ_pos in Hd. lia.
      * intros d. rewrite elem_of_cons. destruct (decide (d = x)) as [->|Hne]; [|naive_solver].
        rewrite Hx, occ_cons, decide_True by done. split; [|by left].
        intros _. split; [by left|]. f_equal. lia.
    + exists l. split_and!; [done..|]. intros d.
      destruct (decide (d = x)) as [->|Hne]; [|by apply Hin'].
      rewrite Hin, list_lookup_insert_eq, Hx, occ_cons, decide_True by done.
      split; intros [Hd [= Heq]].
      * split; [by left|]. f_equal. lia.
      * split; [apply occ_pos; lia|]. f_equal. lia.
  - destruct (Hsome x); [by left|congruence].
Qed.
End release.

Section spec.
Context {B : Type} `{BagLaws B}.
Context (n : nat) (succ : nat → list nat).

(** How often [d] is still to be released by the positions of [l]. *)
Definition pending (d : nat) (l : list nat) : nat := occ d (l ≫= succ).

#[local] Instance pending_perm d : Proper (Permutation ==> eq) (pending d).
Proof. intros l k Hp. unfold pending. by rewrite Hp. Qed.

Lemma pending_cons d x l : pending d (x :: l) = occ d (succ x) + pending d l.
Proof. unfold pending. by rewrite bind_cons, occ_app. Qed.

Lemma pending_pos d l : 0 < pending d l ↔ ∃ p, p ∈ l ∧ d ∈ succ p.
Proof. unfold pending. rewrite occ_pos, list_elem_of_bind. naive_solver. Qed.

(** The state of the loop: [out] has been emitted, [rest] has not; a position
    of [rest] is among the released [elems] exactly when nothing in [rest] still
    has to release it, and whatever was emitted had its predecessors before. *)
Record kahn_inv (indegree elems out rest : list nat) : Prop := {
  inv_perm : out ++ rest ≡ₚ seq 0 n;
  inv_len : length indegree = n;
  inv_deg d : d < n → indegree !! d = Some (pending d rest);
  inv_bag : elems ≡ₚ filter (λ d, pending d rest = 0) rest;
  inv_topo i x p : out !! i = Some x → p < n → x ∈ succ p → p ∈ take i out }.

(** Prerequisites first, everything listed once, and what is left out has a
    prerequisite that is left out too. *)
Record kahn_result (out rest : list nat) : Prop := {
  res_perm : out ++ rest ≡ₚ seq 0 n;
  res_topo i x p : out !! i = Some x → p < n → x ∈ succ p → p ∈ take i out;
  res_stuck d : d ∈ rest → ∃ p, p ∈ rest ∧ d ∈ succ p }.

Lemma inv_bound indegree elems out rest x :
  kahn_inv indegree elems out rest → x ∈ out ∨ x ∈ rest ↔ x < n.
Proof.
  intros Hi. rewrite <- elem_of_app, (inv_perm _ _ _ _ Hi), elem_of_seq. lia.
Qed.

Lemma inv_disjoint indegree elems out rest x :
  kahn_inv indegree elems out rest → x ∈ out → x ∉ rest.
Proof.
  intros Hi Ho Hr. pose proof (NoDup_seq 0 n) as Hnd.
  rewrite <- (inv_perm _ _ _ _ Hi) in Hnd. apply NoDup_app in Hnd as (_ & Hd & _).
  by apply (Hd x).
Qed.

(** A position released by [x] for the last time is still to be emitted. *)
Lemma released_in_rest indegree elems out rest x rest' d :
  kahn_inv indegree elems out rest → rest ≡ₚ x :: rest' → pending x rest = 0 →
  x < n → d < n → d ∈ succ x → d ∈ rest'.
Proof.
  intros Hi Hrest Hx0 Hxn Hdn Hd.
  assert (Hxr : x ∈ rest) by (rewrite Hrest; by left).
  destruct (proj2 (inv_bound _ _ _ _ d Hi) Hdn) as [Ho|Hr].
  - exfalso. apply list_elem_of_lookup in Ho as [i Hio].
    pose proof (inv_topo _ _ _ _ Hi i d x Hio Hxn Hd) as Hxo.
    apply elem_of_take in Hxo as (j & Hj%list_elem_of_lookup_2 & _).
    by eapply inv_disjoint.
  - rewrite Hrest in Hr. apply elem_of_cons in Hr as [->|]; [|done].
    assert (0 < pending x rest) by (apply pending_pos; eauto). lia.
Qed.

Lemma topo_snoc indegree elems out rest x :
  kahn_inv indegree elems out rest → pending x rest = 0 →
  ∀ i y p, (out ++ [x]) !! i = Some y → p < n → y ∈ succ p → p ∈ take i (out ++ [x]).
Proof.
  intros Hi Hx0 i y p Hy Hp Hs. apply lookup_app_Some in Hy as [Hy|[Hlen Hy]].
  - pose proof (inv_topo _ _ _ _ Hi i y p Hy Hp Hs).
    rewrite take_app_le; [done|]. by apply Nat.lt_le_incl, lookup_lt_is_Some_1.
  - apply list_lookup_singleton_Some in Hy as [Heq <-].
    assert (i = length out) as -> by lia. rewrite take_app_length.
    destruct (proj2 (inv_bound _ _ _ _ p Hi) Hp) as [|Hr]; [done|].
    assert (0 < pending x rest) by (apply pending_pos; eauto). lia.
Qed.

(** What [release] does to the in-degrees, and the positions it frees. *)
Definition released (deps indegree indegree' l : list nat) : Prop :=
  length indegree' = length indegree ∧
  (∀ d k, indegree !! d = Some k → indegree' !! d = Some (k - occ d deps)) ∧
  NoDup l ∧ (∀ d, d ∈ l ↔ d ∈ deps ∧ indegree !! d = Some (occ d deps)).

(** A released position still has to be emitted, so what it releases is in
    range and counted. *)
Lemma inv_release_pre indegree elems out rest x :
  (∀ p d, p < n → d ∈ succ p → d < n) →
  kahn_inv indegree elems out rest → x ∈ elems →
  (∀ d, d ∈ succ x → is_Some (indegree !! d)) ∧
  (∀ d k, indegree !! d = Some k → occ d (succ x) ≤ k).
Proof.
  intros Hsucc Hi Hx. rewrite (inv_bag _ _ _ _ Hi) in Hx.
  apply list_elem_of_filter in Hx as [_ Hx].
  assert (Hxn : x < n) by (eapply inv_bound; [done|by right]).
  split.
  - intros d Hd. rewrite (inv_deg _ _ _ _ Hi) by eauto. done.
  - intros d k Hd. pose proof (lookup_lt_Some _ _ _ Hd) as Hdn.
    rewrite (inv_len _ _ _ _ Hi) in Hdn. rewrite (inv_deg _ _ _ _ Hi) in Hd by done.
    apply elem_of_Permutation in Hx as [rest' Hrest].
    simplify_eq. rewrite Hrest, pending_cons. lia.
Qed.

Lemma kahn_step_list indegree elems out rest x elems' indegree' l :
  (∀ p d, p < n → d ∈ succ p → d < n) →
  kahn_inv indegree elems out rest →
  elems ≡ₚ x :: elems' →
  released (succ x) indegree indegree' l →
  ∃ rest', rest ≡ₚ x :: rest' ∧ kahn_inv indegree' (l ++ elems') (out ++ [x]) rest'.
Proof.
  intros Hsucc Hi Hx (Hlen & Hdeg & Hnd & Hin).
  rewrite (inv_bag _ _ _ _ Hi) in Hx.
  assert (Hxr : pending x rest = 0 ∧ x ∈ rest).
  { apply (list_elem_of_filter (λ d, pending d rest = 0)). rewrite Hx. by left. }
  destruct Hxr as [Hx0 [rest' Hrest]%elem_of_Permutation].
  assert (Hxn : x < n) by (eapply inv_bound; [done|]; right; rewrite Hrest; by left).
  assert (Hpx : ∀ d, pending d rest = occ d (succ x) + pending d rest').
  { intros d. by rewrite Hrest, pending_cons. }
  rewrite Hrest, filter_cons, decide_True in Hx by done.
  apply Permutation_cons_inv in Hx.
  exists rest'. split; [done|]. split.
  - rewrite <- (inv_perm _ _ _ _ Hi), Hrest, <- app_assoc. done.
  - by rewrite Hlen, (inv_len _ _ _ _ Hi).
  - intros d Hd. rewrite (Hdeg d (pending d rest)) by (by apply (inv_deg _ _ _ _ Hi)).
    f_equal. rewrite Hpx. lia.
  - rewrite <- Hx.
    pose proof (NoDup_seq 0 n) as Hn. rewrite <- (inv_perm _ _ _ _ Hi), Hrest in Hn.
    apply NoDup_app in Hn as (_ & _ & [_ Hn]%NoDup_cons).
    apply NoDup_Permutation; [|by apply NoDup_filter|].
    + apply NoDup_app. split_and!; [done| |by apply NoDup_filter].
      intros d [Hd Hdk]%Hin [Hd0 _]%list_elem_of_filter. apply occ_pos in Hd.
      rewrite Hpx in Hd0. lia.
    + intros d. rewrite elem_of_app, !list_elem_of_filter, Hin, Hpx.
      split; [intros [[Hd Hk]|[Hd0 Hd]]|intros [Hd0 Hd]].
      * assert (Hdn : d < n) by eauto.
        rewrite (inv_deg _ _ _ _ Hi), Hpx in Hk by done. injection Hk as Hk.
        split; [lia|]. by eapply released_in_rest.
      * split; [lia|done].
      * assert (Hdn : d < n).
        { eapply inv_bound; [done|]. right. rewrite Hrest. by right. }
        destruct (decide (d ∈ succ x)) as [Hs|Hs].
        -- left. split; [done|]. rewrite (inv_deg _ _ _ _ Hi), Hpx by done. f_equal. lia.
        -- right. split; [|done]. rewrite <- occ_pos in Hs. lia.
  - by eapply topo_snoc.
Qed.

#[local] Instance kahn_inv_perm :
  Proper (eq ==> Permutation ==> eq ==> eq ==> iff) kahn_inv.
Proof.
  assert (H1 : ∀ i e e' o r, e ≡ₚ e' → kahn_inv i e o r → kahn_inv i e' o r).
  { intros i e e' o r He [? ? ? Hb ?]. split; try done. by rewrite <- He. }
  intros i ? <- e e' He o ? <- r ? <-. split; by apply H1.
Qed.

Lemma kahn_step indegree bag out rest x bag' indegree' bag'' :
  (∀ p d, p < n → d ∈ succ p → d < n) →
  kahn_inv indegree (bag_elems bag) out rest →
  bag_pop bag = Some (x, bag') →
  release (succ x) indegree bag' = (indegree', bag'') →
  ∃ rest', rest ≡ₚ x :: rest' ∧ kahn_inv indegree' (bag_elems bag'') (out ++ [x]) rest'.
Proof.
  intros Hsucc Hi Hpop%bag_pop_Some Hrel.
  destruct (inv_release_pre _ _ _ _ x Hsucc Hi) as [Hs Hle]; [rewrite Hpop; by left|].
  destruct (release_spec _ _ _ _ _ Hrel Hs Hle) as (H1 & H2 & l & Hl & Hnd & Hin).
  destruct (kahn_step_list _ _ _ _ x (bag_elems bag') indegree' l Hsucc Hi Hpop) as (r & Hr & Hi').
  { done. }
  exists r. split; [done|]. by rewrite Hl.
Qed.

Lemma kahn_loop_spec fuel indegree bag out rest :
  (∀ p d, p < n → d ∈ succ p → d < n) →
  kahn_inv indegree (bag_elems bag) out rest → length rest ≤ fuel →
  ∃ rest', kahn_result (out ++ kahn_loop fuel succ indegree bag) rest'.
Proof.
  intros Hsucc. revert indegree bag out rest.
  induction fuel as [|f IH]; intros indegree bag out rest Hi Hf; cbn [kahn_loop].
  { assert (rest = []) as -> by (apply length_zero_iff_nil; lia).
    exists []. rewrite app_nil_r. destruct Hi. by split; [..|set_solver]. }
  destruct (bag_pop bag) as [[x bag']|] eqn:Hpop.
  - destruct (release (succ x) indegree bag') as [indegree' bag''] eqn:Hrel.
    destruct (kahn_step _ _ _ _ _ _ _ _ Hsucc Hi Hpop Hrel) as (rest' & Hr & Hi').
    destruct (IH _ _ _ _ Hi') as [r Hres].
    { rewrite Hr in Hf. cbn in Hf. lia. }
    exists r. by rewrite cons_middle, app_assoc.
  - exists rest. rewrite app_nil_r. split; [apply Hi|apply Hi|].
    intros d Hd. apply pending_pos. apply bag_pop_None in Hpop.
    pose proof (inv_bag _ _ _ _ Hi) as Hb. rewrite Hpop in Hb.
    apply Nat.neq_0_lt_0. intros Hd0.
    assert (Hin : d ∈ filter (λ d, pending d rest = 0) rest) by (by apply list_elem_of_filter).
    rewrite <- Hb in Hin. by apply not_elem_of_nil in Hin.
Qed.

(** Starting from the true in-degrees and the positions that have none. *)
Lemma kahn_correct (bag : B) indegree :
  (∀ p d, p < n → d ∈ succ p → d < n) →
  length indegree = n →
  (∀ d, d < n → indegree !! d = Some (pending d (seq 0 n))) →
  bag_elems bag ≡ₚ initial_ready indegree →
  ∃ rest, kahn_result (kahn_loop n succ indegree bag) rest.
Proof.
  intros Hsucc Hlen Hdeg Hbag.
  destruct (kahn_loop_spec n indegree bag [] (seq 0 n) Hsucc) as [rest Hr].
  - split; try done. rewrite Hbag. unfold initial_ready. rewrite Hlen.
    apply NoDup_Permutation; [apply NoDup_filter, NoDup_seq..|].
    intros d. rewrite !list_elem_of_filter, elem_of_seq.
    split; intros [Hz Hd]; (split; [|done]); rewrite Hdeg in * by lia; congruence.
  - by rewrite length_seq.
  - by exists rest.
Qed.
(** Whatever the bag prefers among its elements, the loop prefers among the
    positions that are ready at that point. *)
Lemma kahn_loop_pick (better : nat → nat → Prop) fuel indegree bag out rest i x y :
  (∀ p d, p < n → d ∈ succ p → d < n) →
  (∀ b z b' w, bag_pop b = Some (z, b') → Forall (λ w, w < n) (bag_elems b) →
     w ∈ bag_elems b → better z w) →
  kahn_inv indegree (bag_elems bag) out rest →
  kahn_loop fuel succ indegree bag !! i = Some x →
  y < n → y ∉ out ++ take i (kahn_loop fuel succ indegree bag) →
  (∀ p, p < n → y ∈ succ p → p ∈ out ++ take i (kahn_loop fuel succ indegree bag)) →
  better x y.
Proof.
  intros Hsucc Hpick. revert indegree bag out rest i.
  induction fuel as [|f IH]; intros indegree bag out rest i Hi; cbn [kahn_loop]; [done|].
  destruct (bag_pop bag) as [[z bag']|] eqn:Hpop; [|done].
  destruct (release (succ z) indegree bag') as [indegree' bag''] eqn:Hrel.
  destruct i as [|i].
  - cbn. intros [= ->] Hy Hout Hready. rewrite app_nil_r in *.
    assert (Hyr : y ∈ rest) by (destruct (proj2 (inv_bound _ _ _ _ y Hi) Hy); done).
    eapply Hpick; [exact Hpop| |].
    + apply Forall_forall. intros w. rewrite (inv_bag _ _ _ _ Hi).
      intros [_ Hw]%list_elem_of_filter. eapply inv_bound; [done|]. by right.
    + rewrite (inv_bag _ _ _ _ Hi). apply list_elem_of_filter. split; [|done].
      destruct (pending y rest) eqn:E; [done|]. exfalso.
      assert (Hp : 0 < pending y rest) by lia. apply pending_pos in Hp as (p & Hp & Hs).
      eapply (inv_disjoint _ _ _ _ p Hi); [|done]. apply Hready; [|done].
      eapply inv_bound; [done|]. by right.
  - cbn [lookup list_lookup take]. intros Hx Hy Hout Hready.
    destruct (kahn_step _ _ _ _ _ _ _ _ Hsucc Hi Hpop Hrel) as (rest' & _ & Hi').
    eapply (IH _ _ _ _ i Hi'); [done..|by rewrite <- app_assoc|].
    intros p Hp Hs. rewrite <- app_assoc. cbn. by apply Hready.
Qed.
End spec.

(** ** Cycles *)

Section cycles.
Context (n : nat) (succ : nat → list nat).

(** [p] must come before [d]. *)
Definition edge (p d : nat) : Prop := p < n ∧ d ∈ succ p.

Definition acyclic : Prop := ∀ x, ¬ tc edge x x.

(** Positions that all wait for one another close a cycle. *)
Lemma stuck_cycle rest :
  rest ≠ [] → (∀ d, d ∈ rest → d < n) →
  (∀ d, d ∈ rest → ∃ p, p ∈ rest ∧ d ∈ succ p) → ¬ acyclic.
Proof.
  intros Hne Hb Hp Hac. destruct rest as [|x0 rest0] eqn:Hrest; [done|].
  rewrite <- Hrest in *. clear Hne.
  set (f := λ d, from_option snd 0 (list_find (λ p, d ∈ succ p) rest)).
  assert (Hf : ∀ d, d ∈ rest → f d ∈ rest ∧ d ∈ succ (f d)).
  { intros d Hd. unfold f. destruct (list_find _ rest) as [[i p]|] eqn:E; cbn.
    - apply list_find_Some in E as (Hi & Hs & _). eauto using list_elem_of_lookup_2.
    - apply list_find_None in E. destruct (Hp d Hd) as (p & Hpr & Hs).
      rewrite Forall_forall in E. by edestruct E. }
  assert (Hit : ∀ k, Nat.iter k f x0 ∈ rest).
  { induction k as [|k IH]; cbn; [rewrite Hrest; by left|by apply Hf]. }
  assert (Hback : ∀ k i, tc edge (Nat.iter (k + S i) f x0) (Nat.iter i f x0)).
  { induction k as [|k IH]; intros i; cbn.
    - apply tc_once. destruct (Hf _ (Hit i)). split; auto.
    - eapply tc_l; [|apply IH]. destruct (Hf _ (Hit (k + S i))). split; auto. }
  assert (Hnd : NoDup ((λ k, Nat.iter k f x0) <$> seq 0 (S (length rest)))).
  { apply NoDup_fmap_2_strong; [|apply NoDup_seq]. intros i j _ _ Heq.
    destruct (lt_eq_lt_dec i j) as [[Hlt| ->]|Hlt]; [exfalso|done|exfalso].
    - apply (Hac (Nat.iter i f x0)). rewrite Heq at 1.
      replace j with ((j - S i) + S i) by lia. apply Hback.
    - apply (Hac (Nat.iter j f x0)). rewrite <- Heq at 1.
      replace i with ((i - S j) + S j) by lia. apply Hback. }
  apply NoDup_submseteq with (k := rest) in Hnd.
  - apply submseteq_length in Hnd. rewrite length_fmap, length_seq in Hnd. lia.
  - intros y (k & -> & _)%list_elem_of_fmap. apply Hit.
Qed.

(** An order that lists prerequisites first leaves no room for a cycle. *)
Lemma topo_acyclic out :
  out ≡ₚ seq 0 n → (∀ p d, p < n → d ∈ succ p → d < n) →
  (∀ i x p, out !! i = Some x → p < n → x ∈ succ p → p ∈ take i out) → acyclic.
Proof.
  intros Hperm Hsucc Ht.
  assert (Hin : ∀ x, x < n → ∃ i, out !! i = Some x).
  { intros x Hx. apply list_elem_of_lookup. rewrite Hperm, elem_of_seq. lia. }
  assert (Hnd : NoDup out) by (rewrite Hperm; apply NoDup_seq).
  assert (Hlt : ∀ x y, tc edge x y → ∀ i j, out !! i = Some x → out !! j = Some y → i < j).
  { assert (Hone : ∀ x y, edge x y → ∀ i j, out !! i = Some x → out !! j = Some y → i < j).
    { intros x y [Hx Hy] i j Hi Hj. pose proof (Ht j y x Hj Hx Hy) as Hk.
      apply elem_of_take in Hk as (k & Hk & Hkj).
      by rewrite (NoDup_lookup out i k x Hnd Hi Hk). }
    induction 1 as [x y He|x y z He Hyz IH]; [by apply Hone|].
    intros i j Hi Hj. destruct (Hin y) as [k Hk].
    { destruct He as [Hx Hy]. eauto. }
    pose proof (Hone x y He i k Hi Hk). pose proof (IH k j Hk Hj). lia. }
  intros x Hx. assert (Hxn : x < n) by (by inversion Hx; subst; destruct_and?; firstorder).
  destruct (Hin x Hxn) as [i Hi]. pose proof (Hlt x x Hx i i Hi Hi). lia.
Qed.
End cycles.
