(* ===== verification/Graph.v ===== *)
(** * The dependency graph of a task list

    [src/crates/agora-sched/src/graph.rs]: [Graph::new] with its errors, the
    cycle it reports, bottom levels, and the file-overlap predicates. *)

From Stdlib Require Import Ascii.
From stdpp Require Import relations.
From S2P Require Import Prelude F64 Strs PyFmt Task Kahn.

Record Graph : Type := mk_graph {
  g_tasks : list Task;
  g_index : gmap string nat;
  g_dependents : list (list nat);
  g_topo : list nat }.

Definition duplicate_error (id : string) : InputError :=
  mk_input_error ("duplicate task id " +:+ repr_str id).
Definition unknown_error (id pre : string) : InputError :=
  mk_input_error ("task " +:+ repr_str id +:+ " is after unknown task " +:+ repr_str pre).
Definition self_error (id : string) : InputError :=
  mk_input_error ("task " +:+ repr_str id +:+ " is after itself").
Definition cycle_error (ids : list string) : InputError :=
  mk_input_error ("the tasks form a cycle: " +:+ join " -> " ids).

Fixpoint build_index (position : nat) (tasks : list Task) (index : gmap string nat) :
    result InputError (gmap string nat) :=
  match tasks with
  | [] => Ok index
  | task :: rest =>
      match index !! t_id task with
      | Some _ => Err (duplicate_error (t_id task))
      | None => build_index (S position) rest (<[t_id task := position]> index)
      end
  end.

(** [for prerequisite in &task.after]. *)
Fixpoint push_after (index : gmap string nat) (position : nat) (id : string)
    (after : list string) (dependents : list (list nat)) :
    result InputError (list (list nat)) :=
  match after with
  | [] => Ok dependents
  | pre :: rest =>
      match index !! pre with
      | None => Err (unknown_error id pre)
      | Some before =>
          if String.eqb pre id then Err (self_error id)
          else push_after index position id rest
                 (alter (λ l, l ++ [position]) before dependents)
      end
  end.

Fixpoint build_dependents (index : gmap string nat) (position : nat) (tasks : list Task)
    (dependents : list (list nat)) : result InputError (list (list nat)) :=
  match tasks with
  | [] => Ok dependents
  | task :: rest =>
      deps ← push_after index position (t_id task) (t_after task) dependents;
      build_dependents index (S position) rest deps
  end.

Definition id_at (tasks : list Task) (position : nat) : option string :=
  t_id <$> tasks !! position.

(** [Option<&str>] as a key: [None] is smallest. *)
Definition cmp_id_at (tasks : list Task) (a b : nat) : comparison :=
  match id_at tasks a, id_at tasks b with
  | None, None => Eq
  | None, Some _ => Lt
  | Some _, None => Gt
  | Some x, Some y => String.compare x y
  end.

#[export] Instance cmp_id_at_total tasks : TotalCmp (λ _, True) (cmp_id_at tasks).
Proof.
  assert (H : TotalCmp (λ _, True) (λ a b : option string,
    match a, b with
    | None, None => Eq
    | None, Some _ => Lt
    | Some _, None => Gt
    | Some x, Some y => String.compare x y
    end)).
  { split.
    - intros [x|] [y|] _ _; try done. by apply (tc_opp (λ _, True) String.compare).
    - intros [x|] [y|] [z|] _ _ _; try done. by apply (tc_trans (λ _, True) String.compare). }
  exact (total_cmp_on (λ _, True) _ (id_at tasks) H).
Qed.

(** The [loop] of [cycle_path]; [seen] maps a position to its place in [path].
    One step per position is enough, since every step but the last adds one. *)
Fixpoint cycle_loop (fuel : nat) (tasks : list Task) (index : gmap string nat)
    (remaining path : list nat) (seen : gmap nat nat) : option (list nat) :=
  match fuel with
  | O => None
  | S f =>
      last ← last path;
      task ← tasks !! last;
      following ← min_by (cmp_id_at tasks)
        (filter (λ p, p ∈ remaining) (omap (λ pre, index !! pre) (t_after task)));
      match seen !! following with
      | Some first => Some (drop first path ++ [following])
      | None => cycle_loop f tasks index remaining (path ++ [following])
                  (<[following := length path]> seen)
      end
  end.

Definition cycle_path (tasks : list Task) (index : gmap string nat) (remaining : list nat) :
    option (list nat) :=
  start ← min_by (cmp_id_at tasks) remaining;
  cycle_loop (S (length tasks)) tasks index remaining [start] {[start := 0]}.

(** [dependents.get(p).into_iter().flatten()]. *)
Definition deps_of (dependents : list (list nat)) (p : nat) : list nat :=
  default [] (dependents !! p).

Definition Graph_new (tasks : list Task) : result InputError Graph :=
  index ← build_index 0 tasks ∅;
  dependents ← build_dependents index 0 tasks (replicate (length tasks) []);
  let indegree := (λ t, length (t_after t)) <$> tasks in
  let ready : stack := rev (initial_ready indegree) in
  let topo := kahn_loop (length tasks) (deps_of dependents) indegree ready in
  if Nat.ltb (length topo) (length tasks) then
    let remaining := filter (λ p, p ∉ topo) (seq 0 (length tasks)) in
    let ids := match cycle_path tasks index remaining with
      | Some path => omap (id_at tasks) path
      | None => sort_by String.compare (omap (id_at tasks) remaining)
      end in
    Err (cycle_error ids)
  else Ok (mk_graph tasks index dependents topo).

(** One step of [bottom_levels], for the position [current]. *)
Definition level_step (g : Graph) (levels : list f64) (current : nat) : list f64 :=
  let longest := foldl f_max f_zero
    (omap (λ d, levels !! d) (deps_of (g_dependents g) current)) in
  let size := from_option t_size f_zero (g_tasks g !! current) in
  <[current := (size + longest)%f64]> levels.

Definition bottom_levels (g : Graph) : list f64 :=
  foldl (level_step g) (replicate (length (g_tasks g)) f_zero) (rev (g_topo g)).

(** ** File overlap *)

Definition overlap (a b : string) : bool :=
  let a := trim_end_byte "/" a in
  let b := trim_end_byte "/" b in
  bool_decide (a = b)
  || match strip_prefix b a with Some rest => starts_with "/" rest | None => false end
  || match strip_prefix a b with Some rest => starts_with "/" rest | None => false end.

Definition conflict (a b : Task) : bool :=
  String.eqb (t_id a) (t_id b)
  || existsb (λ x, existsb (λ y, overlap x y) (t_files b)) (t_files a).

(** ** Specification *)

(** The task at [p] is a prerequisite of the task at [d]. *)
Definition prereq (tasks : list Task) (p d : nat) : Prop :=
  ∃ tp td, tasks !! p = Some tp ∧ tasks !! d = Some td ∧ t_id tp ∈ t_after td.

Definition tasks_acyclic (tasks : list Task) : Prop := ∀ x, ¬ tc (prereq tasks) x x.

Definition ids_distinct (tasks : list Task) : Prop := NoDup (t_id <$> tasks).

Definition prereqs_known (tasks : list Task) : Prop :=
  ∀ t pre, t ∈ tasks → pre ∈ t_after t → pre ∈ t_id <$> tasks.

(** A closed walk along prerequisites, without another repetition. *)
Definition is_cycle (tasks : list Task) (c : list nat) : Prop :=
  2 ≤ length c ∧ head c = last c ∧ NoDup (tail c) ∧
  ∀ i a b, c !! i = Some a → c !! S i = Some b → prereq tasks b a.

(** ** The index *)

Definition index_ok (tasks : list Task) (index : gmap string nat) : Prop :=
  ∀ id p, index !! id = Some p ↔ id_at tasks p = Some id.

Lemma id_at_snoc tasks task p :
  id_at (tasks ++ [task]) p = if decide (p = length tasks) then Some (t_id task)
                              else id_at tasks p.
Proof.
  unfold id_at. case_decide as Hp.
  - subst. by rewrite lookup_app_r, Nat.sub_diag by lia.
  - destruct (decide (p < length tasks)).
    + by rewrite lookup_app_l.
    + rewrite !lookup_ge_None_2; [done|lia|rewrite length_app; cbn; lia].
Qed.

Lemma elem_of_ids tasks id : id ∈ t_id <$> tasks ↔ ∃ p, id_at tasks p = Some id.
Proof.
  rewrite list_elem_of_lookup. unfold id_at. by setoid_rewrite list_lookup_fmap.
Qed.

Lemma index_ok_fresh tasks index id :
  index_ok tasks index → index !! id = None ↔ id ∉ t_id <$> tasks.
Proof.
  intros Hok. rewrite elem_of_ids, eq_None_not_Some. unfold is_Some, index_ok in *.
  by setoid_rewrite Hok.
Qed.

Lemma index_ok_snoc done task index :
  index_ok done index → index !! t_id task = None →
  index_ok (done ++ [task]) (<[t_id task := length done]> index).
Proof.
  intros Hok Hn id p. rewrite lookup_insert_Some, id_at_snoc. split.
  - intros [[<- <-]|[Hne Hid]]; [by rewrite decide_True|].
    apply Hok in Hid as Hid'. rewrite decide_False; [done|].
    intros ->. unfold id_at in Hid'. by rewrite lookup_ge_None_2 in Hid'.
  - case_decide as Hp; [intros [= <-]; by left|]. intros Hid%Hok.
    right. split; [congruence|done].
Qed.

Lemma build_index_spec done tasks index :
  index_ok done index → ids_distinct done →
  match build_index (length done) tasks index with
  | Ok index' => index_ok (done ++ tasks) index' ∧ ids_distinct (done ++ tasks)
  | Err _ => ¬ ids_distinct (done ++ tasks)
  end.
Proof.
  revert done index. induction tasks as [|task tasks IH]; intros done index Hok Hd; cbn.
  { by rewrite app_nil_r. }
  destruct (index !! t_id task) as [q|] eqn:E.
  - apply Hok in E. unfold ids_distinct. rewrite fmap_app, NoDup_app, fmap_cons.
    intros (_ & Hn & _). apply (Hn (t_id task)); [|by left].
    apply elem_of_ids. eauto.
  - rewrite cons_middle, app_assoc.
    replace (S (length done)) with (length (done ++ [task])) by (rewrite length_app; cbn; lia).
    apply IH; [by apply index_ok_snoc|].
    unfold ids_distinct. rewrite fmap_app. apply NoDup_app. split_and!; [done| |].
    + intros id Hid ->%list_elem_of_singleton.
      by eapply index_ok_fresh in E.
    + apply NoDup_singleton.
Qed.

(** ** The dependents *)

(** The positions a task waits for, as often as it names them. *)
Definition befores (index : gmap string nat) (task : Task) : list nat :=
  omap (λ pre, index !! pre) (t_after task).

Definition after_ok (index : gmap string nat) (task : Task) : Prop :=
  Forall (λ pre, is_Some (index !! pre) ∧ pre ≠ t_id task) (t_after task).

Lemma deps_of_push deps before position p :
  deps_of (alter (λ l, l ++ [position]) before deps) p =
    if decide (p = before ∧ p < length deps) then deps_of deps p ++ [position]
    else deps_of deps p.
Proof.
  unfold deps_of. case_decide as Hp.
  - destruct Hp as [-> Hlt]. rewrite list_lookup_alter_eq.
    destruct (lookup_lt_is_Some_2 deps before Hlt) as [l ->]. done.
  - destruct (decide (p = before)) as [->|Hne].
    + by rewrite list_lookup_alter_eq, lookup_ge_None_2 by lia.
    + by rewrite list_lookup_alter_ne.
Qed.

Lemma push_after_spec index position id after deps :
  (∀ pre p, index !! pre = Some p → p < length deps) →
  match push_after index position id after deps with
  | Ok deps' =>
      Forall (λ pre, is_Some (index !! pre) ∧ pre ≠ id) after ∧
      length deps' = length deps ∧
      ∀ p d, occ d (deps_of deps' p) = occ d (deps_of deps p) +
        (if decide (d = position) then occ p (omap (λ pre, index !! pre) after) else 0)
  | Err _ => ¬ Forall (λ pre, is_Some (index !! pre) ∧ pre ≠ id) after
  end.
Proof.
  revert deps. induction after as [|pre after IH]; intros deps Hb; cbn [push_after].
  { split_and!; [constructor|done|]. intros p d. case_decide; cbn; rewrite ?occ_nil; lia. }
  destruct (index !! pre) as [before|] eqn:Hpre.
  2: { intros [[[? ?] _] _]%Forall_cons. congruence. }
  destruct (String.eqb_spec pre id) as [->|Hne].
  { intros [[_ ?] _]%Forall_cons. done. }
  specialize (IH (alter (λ l, l ++ [position]) before deps)).
  rewrite length_alter in IH. specialize (IH Hb).
  destruct (push_after index position id after _) as [deps'|e].
  - destruct IH as (Hall & Hlen & Hocc). split_and!; [|done|].
    + constructor; [split; [by eexists|done]|done].
    + intros p d. rewrite Hocc, deps_of_push.
      assert (omap (λ pre, index !! pre) (pre :: after)
        = before :: omap (λ pre, index !! pre) after) as -> by (cbn; by rewrite Hpre).
      pose proof (Hb _ _ Hpre). rewrite occ_cons.
      destruct (decide (p = before)) as [->|Hp].
      * rewrite decide_True by done. rewrite occ_app, occ_cons, occ_nil.
        repeat case_decide; lia.
      * rewrite decide_False by naive_solver. by case_decide.
  - intros [_ ?]%Forall_cons. done.
Qed.

Lemma build_dependents_spec index done tasks deps :
  (∀ pre p, index !! pre = Some p → p < length deps) →
  match build_dependents index (length done) tasks deps with
  | Ok deps' =>
      Forall (after_ok index) tasks ∧
      length deps' = length deps ∧
      ∀ p d, occ d (deps_of deps' p) = occ d (deps_of deps p) +
        (if decide (length done ≤ d) then
           occ p (from_option (befores index) [] ((done ++ tasks) !! d)) else 0)
  | Err _ => ¬ Forall (after_ok index) tasks
  end.
Proof.
  revert done deps. induction tasks as [|task tasks IH]; intros done deps Hb;
    cbn [build_dependents].
  { split_and!; [constructor|done|]. intros p d. case_decide; [|lia].
    rewrite lookup_ge_None_2; cbn; rewrite ?occ_nil; [lia|]. rewrite app_nil_r. done. }
  pose proof (push_after_spec index (length done) (t_id task) (t_after task) deps Hb) as Hp.
  destruct (push_after _ _ _ _ _) as [deps1|e]; cbn.
  2: { intros [? _]%Forall_cons. done. }
  destruct Hp as (Hok & Hlen1 & Hocc1).
  specialize (IH (done ++ [task]) deps1). rewrite Hlen1, length_app in IH. cbn in IH.
  rewrite Nat.add_1_r in IH. specialize (IH Hb).
  destruct (build_dependents _ _ _ _) as [deps2|e].
  2: { intros [_ ?]%Forall_cons. done. }
  destruct IH as (Hall & Hlen & Hocc). split_and!; [by constructor|done|].
  intros p d. rewrite Hocc, Hocc1. rewrite <- app_assoc. cbn [app].
  destruct (decide (length done ≤ d)), (decide (S (length done) ≤ d)),
    (decide (d = length done)) as [->|]; try lia.
  rewrite lookup_app_r, Nat.sub_diag by lia. cbn. unfold befores. lia.
Qed.

(** What the graph knows once its index and dependents are built. *)
Record built (tasks : list Task) (index : gmap string nat) (deps : list (list nat)) : Prop := {
  b_index : index_ok tasks index;
  b_after : Forall (after_ok index) tasks;
  b_len : length deps = length tasks;
  b_occ p d : occ d (deps_of deps p) =
    occ p (from_option (befores index) [] (tasks !! d)) }.

Lemma deps_of_replicate n p : deps_of (replicate n []) p = [].
Proof.
  unfold deps_of. destruct (decide (p < n)).
  - by rewrite lookup_replicate_2.
  - by rewrite lookup_ge_None_2 by (rewrite length_replicate; lia).
Qed.

Lemma index_ok_bound tasks index pre p :
  index_ok tasks index → index !! pre = Some p → p < length tasks.
Proof.
  intros Hok Hp%Hok. unfold id_at in Hp. apply fmap_Some in Hp as (t & Ht & _).
  by eapply lookup_lt_Some.
Qed.

Lemma build_spec tasks :
  match (index ← build_index 0 tasks ∅;
         deps ← build_dependents index 0 tasks (replicate (length tasks) []);
         Ok (index, deps)) with
  | Ok (index, deps) => ids_distinct tasks ∧ built tasks index deps
  | Err _ => ¬ (ids_distinct tasks ∧ prereqs_known tasks ∧
                Forall (λ t, t_id t ∉ t_after t) tasks)
  end.
Proof.
  pose proof (build_index_spec [] tasks ∅) as Hi. cbn in Hi.
  destruct (build_index 0 tasks ∅) as [index|e]; cbn.
  2: { intros [? _]. apply Hi; [|constructor|done]. intros id p. unfold id_at.
       by rewrite lookup_empty, lookup_nil. }
  destruct Hi as [Hok Hd]; [|constructor|].
  { intros id p. unfold id_at. by rewrite lookup_empty, lookup_nil. }
  pose proof (build_dependents_spec index [] tasks (replicate (length tasks) [])) as Hb.
  rewrite length_replicate in Hb. cbn [length] in Hb.
  destruct (build_dependents _ _ _ _) as [deps|e]; cbn.
  - destruct Hb as (Hall & Hlen & Hocc). { intros *. by apply index_ok_bound. }
    split; [done|]. split; try done. intros p d.
    rewrite Hocc, deps_of_replicate, decide_True, occ_nil by lia. done.
  - intros (_ & Hk & Hs). apply Hb; [intros *; by apply index_ok_bound|].
    rewrite Forall_forall in Hs |- *. intros t Ht. apply Forall_forall. intros pre Hpre.
    split; [|intros ->; by eapply Hs].
    destruct (index !! pre) eqn:E; [done|]. exfalso.
    eapply index_ok_fresh in E; [|done]. by eapply E, Hk.
Qed.

(** ** The graph's edges are the prerequisites *)

Section built.
Context (tasks : list Task) (index : gmap string nat) (deps : list (list nat)).
Hypothesis Hb : built tasks index deps.

Lemma elem_of_befores p td :
  p ∈ befores index td ↔ ∃ tp, tasks !! p = Some tp ∧ t_id tp ∈ t_after td.
Proof.
  unfold befores. rewrite list_elem_of_omap. split.
  - intros (pre & Hin & Hp%(b_index _ _ _ Hb)). unfold id_at in Hp.
    apply fmap_Some in Hp as (tp & Htp & ->). eauto.
  - intros (tp & Htp & Hin). exists (t_id tp). split; [done|].
    apply (b_index _ _ _ Hb). unfold id_at. by rewrite Htp.
Qed.

Lemma elem_of_deps p d : d ∈ deps_of deps p ↔ prereq tasks p d.
Proof.
  rewrite <- occ_pos, (b_occ _ _ _ Hb), occ_pos. unfold prereq.
  destruct (tasks !! d) as [td|]; cbn.
  - rewrite elem_of_befores. naive_solver.
  - split; [by intros ?%not_elem_of_nil|naive_solver].
Qed.

Lemma prereq_bound p d : prereq tasks p d → p < length tasks ∧ d < length tasks.
Proof. intros (tp & td & Hp & Hd & _). eauto using lookup_lt_Some. Qed.

Lemma deps_bound p d : p < length tasks → d ∈ deps_of deps p → d < length tasks.
Proof. intros _ [_ ?]%elem_of_deps%prereq_bound. done. Qed.

Lemma length_befores td : td ∈ tasks → length (befores index td) = length (t_after td).
Proof.
  intros Htd. pose proof (b_after _ _ _ Hb) as Ha. rewrite Forall_forall in Ha.
  specialize (Ha td Htd). unfold after_ok, befores in *.
  induction Ha as [|pre l [[p Hp] _] _ IH]; [done|]. cbn. rewrite Hp. cbn. by f_equal.
Qed.

(** Every entry of a list of positions below [n] is counted at its place. *)
Lemma sum_occ n l :
  Forall (λ p, p < n) l → foldr Nat.add 0 ((λ p, occ p l) <$> seq 0 n) = length l.
Proof.
  intros Hl. assert (Hadd : ∀ k (f g : nat → nat), foldr Nat.add 0 ((λ p, f p + g p) <$> seq 0 k)
    = foldr Nat.add 0 (f <$> seq 0 k) + foldr Nat.add 0 (g <$> seq 0 k)).
  { intros k f g. generalize 0 at 2 4 6. induction k as [|k IH]; intros m; cbn; [done|].
    rewrite IH. lia. }
  assert (Hone : ∀ k m x, m ≤ x < m + k →
    foldr Nat.add 0 ((λ p, if decide (p = x) then 1 else 0) <$> seq m k) = 1).
  { induction k as [|k IH]; intros m x Hx; cbn; [lia|].
    case_decide as Hm.
    - subst. enough (Hz : ∀ k m, x < m →
        foldr Nat.add 0 ((λ p, if decide (p = x) then 1 else 0) <$> seq m k) = 0).
      { rewrite Hz by lia. done. }
      clear. induction k as [|k IH]; intros m Hm; cbn; [done|].
      rewrite decide_False by lia. by rewrite IH by lia.
    - rewrite IH by lia. done. }
  induction Hl as [|x l Hx _ IH].
  - clear. generalize 0 at 2. induction n as [|n IH]; intros m; cbn; [done|]. apply IH.
  - erewrite list_fmap_ext; [|intros i p _; apply occ_cons].
    rewrite Hadd, IH, (Hone n 0 x) by lia. done.
Qed.

Lemma indegree_pending d :
  d < length tasks →
  ((λ t, length (t_after t)) <$> tasks) !! d =
    Some (pending (deps_of deps) d (seq 0 (length tasks))).
Proof.
  intros Hd. destruct (lookup_lt_is_Some_2 tasks d Hd) as [td Htd].
  rewrite list_lookup_fmap, Htd. cbn. f_equal.
  rewrite <- length_befores by (by eapply list_elem_of_lookup_2).
  rewrite <- (sum_occ (length tasks) (befores index td)).
  - unfold pending. induction (seq 0 (length tasks)) as [|p l IH]; [done|].
    rewrite bind_cons, occ_app. cbn. rewrite IH. f_equal.
    by rewrite (b_occ _ _ _ Hb), Htd.
  - apply Forall_forall. intros p (tp & Htp & _)%elem_of_befores.
    by eapply lookup_lt_Some.
Qed.

Lemma topo_result :
  let indegree := (λ t, length (t_after t)) <$> tasks in
  ∃ rest, kahn_result (length tasks) (deps_of deps)
    (kahn_loop (length tasks) (deps_of deps) indegree (rev (initial_ready indegree) : stack))
    rest.
Proof.
  apply (kahn_correct (B := stack)).
  - apply deps_bound.
  - apply length_fmap.
  - apply indegree_pending.
  - cbn. symmetry. apply Permutation_rev.
Qed.

Lemma acyclic_iff :
  acyclic (length tasks) (deps_of deps) ↔ tasks_acyclic tasks.
Proof.
  assert (Hsub : ∀ x y, edge (length tasks) (deps_of deps) x y ↔ prereq tasks x y).
  { intros x y. unfold edge. rewrite elem_of_deps. split; [by intros []|].
    intros Hp. split; [|done]. by apply prereq_bound in Hp as []. }
  assert (Htc : ∀ x y, tc (edge (length tasks) (deps_of deps)) x y ↔ tc (prereq tasks) x y).
  { intros x y. split; (induction 1 as [x y He|x y z He _ IH]; apply Hsub in He;
      [by apply tc_once|by eapply tc_l]). }
  unfold acyclic, tasks_acyclic. by setoid_rewrite Htc.
Qed.
End built.

(** ** The reported cycle *)

Section cycle.
Context (tasks : list Task) (index : gmap string nat) (deps : list (list nat)).
Context (remaining : list nat).
Hypothesis Hb : built tasks index deps.
Hypothesis Hstuck : ∀ d, d ∈ remaining → ∃ p, p ∈ remaining ∧ prereq tasks p d.
Hypothesis Hbound : ∀ d, d ∈ remaining → d < length tasks.

Lemma following_prereq d :
  d ∈ remaining →
  ∃ task p, tasks !! d = Some task ∧
    min_by (cmp_id_at tasks) (filter (λ p, p ∈ remaining) (befores index task)) = Some p ∧
    p ∈ remaining ∧ prereq tasks p d.
Proof.
  intros Hd. destruct (lookup_lt_is_Some_2 tasks d (Hbound d Hd)) as [task Ht].
  exists task. destruct (Hstuck d Hd) as (q & Hq & Hpre).
  destruct (min_by _ _) as [p|] eqn:E.
  - apply min_by_elem, list_elem_of_filter in E as E'. destruct E' as [Hp Hin].
    exists p. split_and!; try done.
    apply (elem_of_befores tasks index deps Hb) in Hin as (tp & Htp & Hid).
    exists tp, task. done.
  - exfalso. apply min_by_None in E.
    assert (Hqin : q ∈ filter (λ p, p ∈ remaining) (befores index task)).
    { apply list_elem_of_filter. split; [done|].
      apply (elem_of_befores tasks index deps Hb).
      destruct Hpre as (tq & td & Htq & Htd & Hid). simplify_eq. eauto. }
    rewrite E in Hqin. by apply not_elem_of_nil in Hqin.
Qed.

(** The walk so far: distinct remaining positions, each the prerequisite of
    the one before it, all recorded in [seen] with their place. *)
Record walk (path : list nat) (seen : gmap nat nat) : Prop := {
  w_nodup : NoDup path;
  w_in x : x ∈ path → x ∈ remaining;
  w_step i a b : path !! i = Some a → path !! S i = Some b → prereq tasks b a;
  w_seen p i : seen !! p = Some i ↔ path !! i = Some p }.

Lemma walk_snoc path seen d x :
  walk path seen → last path = Some d → x ∈ remaining → prereq tasks x d →
  seen !! x = None → walk (path ++ [x]) (<[x := length path]> seen).
Proof.
  intros Hw Hlast Hx Hpre Hn.
  assert (Hfresh : x ∉ path).
  { intros [i Hi]%list_elem_of_lookup. apply (w_seen _ _ Hw) in Hi. congruence. }
  split.
  - apply NoDup_app. split_and!; [apply Hw| |apply NoDup_singleton].
    intros y Hy ->%list_elem_of_singleton. done.
  - intros y [Hy| ->%list_elem_of_singleton]%elem_of_app; [by apply Hw|done].
  - intros i a b Ha [Hb'|[Hl Hb']]%lookup_app_Some.
    + eapply (w_step _ _ Hw); [|done].
      apply lookup_lt_Some in Hb'. by rewrite lookup_app_l in Ha by lia.
    + apply list_lookup_singleton_Some in Hb' as [Hi <-].
      rewrite last_lookup in Hlast. rewrite lookup_app_l in Ha by lia.
      assert (Nat.pred (length path) = i) by lia. congruence.
  - intros p i. rewrite lookup_insert_Some, lookup_app_Some.
    rewrite list_lookup_singleton_Some. split.
    + intros [[<- <-]|[Hne Hs]]; [right; split; [lia|split; [lia|done]]|].
      left. by apply (w_seen _ _ Hw).
    + intros [Hp|(Hle & Hi & <-)].
      * right. split; [|by apply (w_seen _ _ Hw)].
        intros ->. apply Hfresh. by eapply list_elem_of_lookup_2.
      * left. split; [done|lia].
Qed.

Lemma walk_close path seen d x first :
  walk path seen → last path = Some d → prereq tasks x d → seen !! x = Some first →
  is_cycle tasks (drop first path ++ [x]).
Proof.
  intros Hw Hlast Hpre Hs. apply (w_seen _ _ Hw) in Hs as Hf.
  pose proof (lookup_lt_Some _ _ _ Hf) as Hlt.
  pose proof (drop_S path x first Hf) as Hdrop.
  split_and!.
  - rewrite length_app, length_drop. cbn. lia.
  - rewrite last_snoc, Hdrop. done.
  - rewrite Hdrop. cbn. pose proof (w_nodup _ _ Hw) as Hnd.
    rewrite <- (take_drop first path), Hdrop in Hnd.
    apply NoDup_app in Hnd as (_ & _ & [Hx Hnd]%NoDup_cons).
    apply NoDup_app. split_and!; [done| |apply NoDup_singleton].
    intros y Hy ->%list_elem_of_singleton. done.
  - intros i a b Ha [Hb'|[Hl Hb']]%lookup_app_Some.
    + apply lookup_lt_Some in Hb' as Hl. rewrite lookup_app_l, lookup_drop in Ha by lia.
      rewrite lookup_drop, Nat.add_succ_r in Hb'. by eapply (w_step _ _ Hw).
    + apply list_lookup_singleton_Some in Hb' as [Hi <-].
      rewrite length_drop in Hl, Hi. rewrite lookup_app_l in Ha by (rewrite length_drop; lia).
      rewrite lookup_drop in Ha. rewrite last_lookup in Hlast.
      assert (Nat.pred (length path) = first + i) by lia. congruence.
Qed.

Lemma cycle_loop_spec fuel path seen d :
  walk path seen → last path = Some d → length tasks < fuel + length path →
  ∃ c, cycle_loop fuel tasks index remaining path seen = Some c ∧ is_cycle tasks c ∧
    ∀ x, x ∈ c → x ∈ remaining.
Proof.
  revert path seen d. induction fuel as [|f IH]; intros path seen d Hw Hlast Hf.
  - exfalso. assert (Hsub : path ⊆+ seq 0 (length tasks)).
    { apply NoDup_submseteq; [apply Hw|]. intros x Hx%(w_in _ _ Hw)%Hbound.
      apply elem_of_seq. lia. }
    apply submseteq_length in Hsub. rewrite length_seq in Hsub. lia.
  - cbn [cycle_loop]. rewrite Hlast. cbn [mbind option_bind].
    assert (Hd : d ∈ remaining) by (by eapply (w_in _ _ Hw), last_Some_elem_of).
    destruct (following_prereq d Hd) as (task & p & Ht & Hmin & Hp & Hpre).
    rewrite Ht. cbn [mbind option_bind]. unfold befores in Hmin. rewrite Hmin.
    cbn [mbind option_bind]. destruct (seen !! p) as [first|] eqn:Hs.
    + exists (drop first path ++ [p]). split_and!; [done|by eapply walk_close|].
      intros x [Hx| ->%list_elem_of_singleton]%elem_of_app; [|done].
      apply (w_in _ _ Hw). rewrite <- (take_drop first path). apply elem_of_app. by right.
    + apply (IH _ _ p); [by eapply walk_snoc|by rewrite last_snoc|].
      rewrite length_app. cbn. lia.
Qed.

Lemma cycle_path_spec :
  remaining ≠ [] →
  ∃ c, cycle_path tasks index remaining = Some c ∧ is_cycle tasks c ∧
    ∀ x, x ∈ c → x ∈ remaining.
Proof.
  intros Hne. unfold cycle_path.
  destruct (min_by (cmp_id_at tasks) remaining) as [start|] eqn:E.
  2: { by apply min_by_None in E. }
  apply min_by_elem in E. cbn [mbind option_bind].
  apply (cycle_loop_spec _ _ _ start); [|done|cbn; lia]. split.
  - apply NoDup_singleton.
  - by intros x ->%list_elem_of_singleton.
  - intros i a b _ Hb'. by apply list_lookup_singleton_Some in Hb' as [? _].
  - intros p i. rewrite lookup_singleton_Some, list_lookup_singleton_Some. naive_solver.
Qed.
End cycle.

(** ** [Graph::new] *)

(** What a graph promises to its clients. *)
Record graph_ok (g : Graph) : Prop := {
  gok_ids : ids_distinct (g_tasks g);
  gok_built : built (g_tasks g) (g_index g) (g_dependents g);
  gok_perm : g_topo g ≡ₚ seq 0 (length (g_tasks g));
  gok_topo i x p : g_topo g !! i = Some x → prereq (g_tasks g) p x → p ∈ take i (g_topo g) }.

(** The three ways [Graph_new] ends, by what the task list is. *)
Lemma Graph_new_cases tasks :
  match Graph_new tasks with
  | Ok g => g_tasks g = tasks ∧ graph_ok g
  | Err e =>
      ¬ (ids_distinct tasks ∧ prereqs_known tasks ∧ Forall (λ t, t_id t ∉ t_after t) tasks) ∨
      ∃ c, is_cycle tasks c ∧ e = cycle_error (omap (id_at tasks) c)
  end.
Proof.
  unfold Graph_new. pose proof (build_spec tasks) as Hs.
  destruct (build_index 0 tasks ∅) as [index|e]; cbn [mbind result_bind] in *; [|by left].
  destruct (build_dependents _ _ _ _) as [deps|e]; cbn [mbind result_bind] in *; [|by left].
  destruct Hs as [Hd Hb]. destruct (topo_result tasks index deps Hb) as [rest Hr].
  cbn zeta in Hr. set (topo := kahn_loop _ _ _ _) in *.
  pose proof (res_perm _ _ _ _ Hr) as Hperm.
  assert (Hlen : length topo + length rest = length tasks).
  { apply Permutation_length in Hperm. by rewrite length_app, length_seq in Hperm. }
  destruct (Nat.ltb_spec (length topo) (length tasks)) as [Hlt|Hge].
  - right. set (remaining := filter _ _).
    assert (Hrem : ∀ d, d ∈ remaining ↔ d ∈ rest).
    { intros d. unfold remaining. rewrite list_elem_of_filter, <- Hperm, elem_of_app.
      pose proof (NoDup_seq 0 (length tasks)) as Hnd. rewrite <- Hperm in Hnd.
      apply NoDup_app in Hnd as (_ & Hdis & _). split; [by intros [? []]|].
      intros Hr'. split; [intros Ht; by eapply Hdis|by right]. }
    destruct (cycle_path_spec tasks index deps remaining Hb) as (c & -> & Hc & _).
    + intros d Hd'%Hrem. destruct (res_stuck _ _ _ _ Hr d Hd') as (p & Hp & Hs').
      exists p. split; [by apply Hrem|]. by apply (elem_of_deps tasks index deps Hb).
    + intros d [_ Hd'%elem_of_seq]%list_elem_of_filter. lia.
    + intros He. destruct rest as [|x rest]; [cbn in Hlen; lia|].
      assert (Hx : x ∈ remaining) by (apply Hrem; by left). rewrite He in Hx.
      by apply not_elem_of_nil in Hx.
    + by exists c.
  - split; [done|]. assert (rest = []) as -> by (apply length_zero_iff_nil; lia).
    rewrite app_nil_r in Hperm. split; cbn; try done.
    intros i x p Hx Hp. eapply (res_topo _ _ _ _ Hr); [done| |].
    + by apply prereq_bound in Hp as [? _].
    + by apply (elem_of_deps tasks index deps Hb).
Qed.

Lemma Graph_new_ok tasks g : Graph_new tasks = Ok g → g_tasks g = tasks ∧ graph_ok g.
Proof. intros Hg. pose proof (Graph_new_cases tasks) as H. by rewrite Hg in H. Qed.

Lemma cycle_tc tasks c : is_cycle tasks c → ¬ tasks_acyclic tasks.
Proof.
  intros (Hlen & Hclose & _ & Hstep) Hac. destruct c as [|x c]; [cbn in Hlen; lia|].
  assert (Hwalk : ∀ i y, c !! i = Some y → tc (prereq tasks) y x).
  { induction i as [|i IH]; intros y Hy.
    - apply tc_once. by apply (Hstep 0).
    - destruct (lookup_lt_is_Some_2 c i) as [z Hz].
      { apply lookup_lt_Some in Hy. lia. }
      eapply tc_l; [by apply (Hstep (S i))|by apply IH]. }
  rewrite last_lookup in Hclose. cbn [length Nat.pred head] in Hclose, Hlen.
  destruct (length c) as [|k]; [lia|]. by apply (Hac x), (Hwalk k).
Qed.

Lemma graph_ok_acyclic g : graph_ok g → tasks_acyclic (g_tasks g).
Proof.
  intros Hg. eapply acyclic_iff; [apply Hg|]. apply (topo_acyclic _ _ (g_topo g)).
  - apply Hg.
  - eapply deps_bound, Hg.
  - intros i x p Hx _ Hs. eapply (gok_topo _ Hg); [done|].
    by eapply elem_of_deps; [apply Hg|].
Qed.

Lemma graph_ok_known g : graph_ok g → prereqs_known (g_tasks g).
Proof.
  intros Hg t pre Ht Hpre. pose proof (b_after _ _ _ (gok_built _ Hg)) as Ha.
  rewrite Forall_forall in Ha. specialize (Ha t Ht). unfold after_ok in Ha.
  rewrite Forall_forall in Ha. destruct (Ha pre Hpre) as [[p Hp] _].
  apply (b_index _ _ _ (gok_built _ Hg)) in Hp. apply elem_of_ids. eauto.
Qed.

Lemma acyclic_no_self tasks :
  tasks_acyclic tasks → Forall (λ t, t_id t ∉ t_after t) tasks.
Proof.
  intros Hac. apply Forall_forall. intros t [i Hi]%list_elem_of_lookup Hin.
  apply (Hac i), tc_once. by exists t, t.
Qed.

(** The task lists that have an order. *)
Definition orderable (tasks : list Task) : Prop :=
  ids_distinct tasks ∧ prereqs_known tasks ∧ tasks_acyclic tasks.

Lemma Graph_new_orderable tasks :
  match Graph_new tasks with Ok g => g_tasks g = tasks ∧ graph_ok g ∧ orderable tasks | Err _ => ¬ orderable tasks end.
Proof.
  pose proof (Graph_new_cases tasks) as H. destruct (Graph_new tasks) as [g|e].
  - destruct H as [<- Hok]. split_and!; [done..|]. split_and!; [apply Hok|by apply graph_ok_known|by apply graph_ok_acyclic].
  - intros (Hd & Hk & Hac). destruct H as [H|(c & Hc & _)].
    + apply H. split_and!; [done..|]. by apply acyclic_no_self.
    + by eapply cycle_tc.
Qed.

(** [Graph::new] accepts a task list exactly when its ids are distinct,
    every prerequisite names a task of the list, and no task waits for itself
    along any chain of prerequisites. *)
Theorem Graph_new_accepts tasks :
  (∃ g, Graph_new tasks = Ok g) ↔
  ids_distinct tasks ∧ prereqs_known tasks ∧ tasks_acyclic tasks.
Proof.
  pose proof (Graph_new_orderable tasks) as H. split; [intros [g Hg]; rewrite Hg in H; apply H|].
  intros Ho. destruct (Graph_new tasks) as [g|e]; [by exists g|done].
Qed.

(** In an accepted graph the topological order lists every task once and
    every prerequisite before its dependents, and [dependents[p]] holds exactly
    the tasks that name [p] in their [after] list, as often as they name it. *)
Theorem Graph_new_topological tasks g :
  Graph_new tasks = Ok g →
  g_tasks g = tasks ∧
  g_topo g ≡ₚ seq 0 (length tasks) ∧
  (∀ i j p d, g_topo g !! i = Some p → g_topo g !! j = Some d → prereq tasks p d → i < j) ∧
  (∀ p d tp td, tasks !! p = Some tp → tasks !! d = Some td →
     occ d (deps_of (g_dependents g) p) = length (filter (eq (t_id tp)) (t_after td))).
Proof.
  intros [<- Hg]%Graph_new_ok. split_and!; [done|apply Hg| |].
  - intros i j p d Hi Hj Hp. pose proof (gok_topo _ Hg j d p Hj Hp) as Hin.
    apply elem_of_take in Hin as (k & Hk & Hkj).
    assert (Hnd : NoDup (g_topo g)) by (rewrite (gok_perm _ Hg); apply NoDup_seq).
    by rewrite (NoDup_lookup _ i k p Hnd Hi Hk).
  - intros p d tp td Hp Hd. rewrite (b_occ _ _ _ (gok_built _ Hg)), Hd. cbn. unfold befores.
    induction (t_after td) as [|pre l IH]; [done|].
    assert (Hpre : t_id tp = pre ↔ g_index g !! pre = Some p).
    { rewrite (b_index _ _ _ (gok_built _ Hg) pre p). unfold id_at. rewrite Hp. cbn. naive_solver. }
    rewrite filter_cons. cbn [omap list_omap]. case_decide as Hc.
    + apply Hpre in Hc as Hc'. rewrite Hc', occ_cons, decide_True by done. cbn. f_equal. exact IH.
    + destruct (g_index g !! pre) as [q|] eqn:E; [|exact IH].
      rewrite occ_cons, decide_False by naive_solver. exact IH.
Qed.

(** When ids and prerequisites are in order but the tasks wait for one
    another, [Graph::new] fails with a message that spells out a genuine cycle:
    a closed walk along prerequisites that repeats nothing else. *)
Theorem Graph_new_cycle tasks :
  ids_distinct tasks → prereqs_known tasks → Forall (λ t, t_id t ∉ t_after t) tasks →
  ¬ tasks_acyclic tasks →
  ∃ c, is_cycle tasks c ∧ Graph_new tasks = Err (cycle_error (omap (id_at tasks) c)).
Proof.
  intros Hd Hk Hs Hac. pose proof (Graph_new_cases tasks) as H.
  destruct (Graph_new tasks) as [g|e].
  - destruct H as [<- Hok]. by apply graph_ok_acyclic in Hok.
  - destruct H as [H|(c & Hc & ->)]; [by destruct H|by exists c].
Qed.

(** Three tasks that use, build and fetch; and the same with the last one
    waiting for the first. *)
Definition plain_task (i : nat) (id : string) (after : list string) : Task :=
  mk_task i id "" "other" 1 None after (f_of_Z 1) (f_of_Z 1) [].
Definition chain_tasks : list Task :=
  [plain_task 0 "use" ["build"]; plain_task 1 "build" ["fetch"]; plain_task 2 "fetch" []].
Definition loop_tasks : list Task :=
  [plain_task 0 "a" ["c"]; plain_task 1 "b" ["a"]; plain_task 2 "c" ["b"]].

Lemma Graph_new_topological_witness :
  ∃ g, Graph_new chain_tasks = Ok g ∧ g_topo g = [2; 1; 0] ∧
    g_topo g ≡ₚ seq 0 (length chain_tasks).
Proof.
  eexists. split; [by vm_compute|]. split; [done|].
  eapply (Graph_new_topological chain_tasks). by vm_compute.
Defined.

Lemma Graph_new_cycle_witness :
  ∃ c, is_cycle loop_tasks c ∧
    Graph_new loop_tasks = Err (cycle_error (omap (id_at loop_tasks) c)).
Proof.
  apply (Graph_new_cycle loop_tasks).
  - unfold ids_distinct. cbn. repeat constructor; set_solver.
  - intros t pre Ht Hpre. unfold loop_tasks in *.
    repeat (apply elem_of_cons in Ht as [->|Ht]; [cbn in *; set_solver|]).
    by apply not_elem_of_nil in Ht.
  - repeat constructor; cbn; set_solver.
  - intros Hac. apply (Hac 0).
    apply (tc_l _ 0 1); [|apply (tc_l _ 1 2); [|apply tc_once]].
    all: eexists _, _; split_and!; [done..|]; cbn; by left.
Defined.

(** ** Bottom levels *)

Section levels.
Context (g : Graph) (Hg : graph_ok g).

(** What the level of [x] should be, given the levels of its dependents. *)
Definition level_of (levels : list f64) (x : nat) : f64 :=
  (from_option t_size f_zero (g_tasks g !! x) +
   foldl f_max f_zero (omap (λ d, levels !! d) (deps_of (g_dependents g) x)))%f64.

Lemma level_of_insert levels x y v :
  y ∉ deps_of (g_dependents g) x → level_of (<[y := v]> levels) x = level_of levels x.
Proof.
  intros Hy. unfold level_of. do 2 f_equal.
  induction (deps_of (g_dependents g) x) as [|d l IH]; [done|].
  apply not_elem_of_cons in Hy as [Hd Hl]. cbn [omap list_omap].
  rewrite list_lookup_insert_ne by done. case_match; [f_equal|]; by apply IH.
Qed.

(** Visiting dependents before what they depend on settles every level. *)
Lemma levels_settled l levels0 :
  NoDup l → length levels0 = length (g_tasks g) →
  (∀ x, x ∈ l → x < length (g_tasks g)) →
  (∀ i x d, l !! i = Some x → d ∈ deps_of (g_dependents g) x → d ∈ take i l) →
  let levels := foldl (level_step g) levels0 l in
  length levels = length (g_tasks g) ∧
  ∀ x, x ∈ l → levels !! x = Some (level_of levels x).
Proof.
  intros Hnd Hlen Hb Hdeps. cbn zeta.
  induction l as [|y l IH] using rev_ind; [split; [done|by intros x ?%not_elem_of_nil]|].
  apply NoDup_app in Hnd as (Hnd & Hy & _).
  assert (Hyl : y ∉ l) by (intros Hin; apply (Hy y Hin); by left).
  destruct IH as [IHlen IH]; [done|set_solver| |].
  { intros i x d Hx Hd. pose proof (lookup_lt_Some _ _ _ Hx).
    specialize (Hdeps i x d). rewrite lookup_app_l, take_app_le in Hdeps by lia. auto. }
  assert (Hyd : ∀ x, x ∈ l ++ [y] → y ∉ deps_of (g_dependents g) x).
  { intros x [i Hi]%list_elem_of_lookup Hd. pose proof (lookup_lt_Some _ _ _ Hi) as Hl.
    rewrite length_app in Hl. cbn in Hl. specialize (Hdeps i x y Hi Hd).
    rewrite take_app_le in Hdeps by lia. apply elem_of_take in Hdeps as (k & Hk & _).
    by apply list_elem_of_lookup_2 in Hk. }
  rewrite foldl_app. cbn [foldl]. set (levels := foldl (level_step g) levels0 l) in *.
  change (level_step g levels y) with (<[y := level_of levels y]> levels).
  rewrite length_insert. split; [done|]. intros x Hx.
  rewrite level_of_insert by auto.
  apply elem_of_app in Hx as [Hx|Hx%list_elem_of_singleton].
  - rewrite list_lookup_insert_ne by (intros ->; done). auto.
  - subst x. apply list_lookup_insert_eq. rewrite IHlen. apply Hb. set_solver.
Qed.

Lemma rev_topo_deps i x d :
  rev (g_topo g) !! i = Some x → d ∈ deps_of (g_dependents g) x →
  d ∈ take i (rev (g_topo g)).
Proof.
  intros Hi Hd. apply (elem_of_deps _ _ _ (gok_built _ Hg)) in Hd as Hp.
  assert (Hdn : d ∈ g_topo g).
  { rewrite (gok_perm _ Hg), elem_of_seq. apply prereq_bound in Hp. lia. }
  apply list_elem_of_lookup in Hdn as [j Hj].
  pose proof (gok_topo _ Hg j d x Hj Hp) as Hx. apply elem_of_take in Hx as (k & Hk & Hkj).
  assert (Hrev : ∀ m y, g_topo g !! m = Some y →
    rev (g_topo g) !! (length (g_topo g) - S m) = Some y).
  { intros m y Hm. pose proof (lookup_lt_Some _ _ _ Hm). rewrite <- Hm.
    change (@rev nat) with (@List.rev nat). rewrite rev_alt.
    change (rev_append (g_topo g) []) with (reverse (g_topo g)).
    rewrite reverse_lookup by lia. f_equal. lia. }
  assert (Hnd : NoDup (rev (g_topo g))).
  { rewrite <- Permutation_rev, (gok_perm _ Hg). apply NoDup_seq. }
  pose proof (lookup_lt_Some _ _ _ Hj). pose proof (lookup_lt_Some _ _ _ Hk).
  apply elem_of_take. exists (length (g_topo g) - S j). split; [by apply Hrev|].
  rewrite (NoDup_lookup _ i (length (g_topo g) - S k) x Hnd Hi (Hrev _ _ Hk)). lia.
Qed.

Lemma bottom_levels_settled :
  length (bottom_levels g) = length (g_tasks g) ∧
  ∀ x, x < length (g_tasks g) → bottom_levels g !! x = Some (level_of (bottom_levels g) x).
Proof.
  assert (Hin : ∀ x, x ∈ rev (g_topo g) ↔ x < length (g_tasks g)).
  { intros x. rewrite <- Permutation_rev, (gok_perm _ Hg), elem_of_seq. lia. }
  destruct (levels_settled (rev (g_topo g)) (replicate (length (g_tasks g)) f_zero)) as [H1 H2].
  - rewrite <- Permutation_rev, (gok_perm _ Hg). apply NoDup_seq.
  - apply length_replicate.
  - intros x. apply Hin.
  - apply rev_topo_deps.
  - split; [done|]. intros x Hx. by apply H2, Hin.
Qed.
End levels.

(** The bottom levels solve their defining equation at every task: size
    plus the largest level among the dependents, none counting as zero. *)
Theorem bottom_levels_equation tasks g p t :
  Graph_new tasks = Ok g → tasks !! p = Some t →
  bottom_levels g !! p =
    Some (t_size t + foldl f_max f_zero
            (omap (λ d, bottom_levels g !! d) (deps_of (g_dependents g) p)))%f64.
Proof.
  intros [<- Hg]%Graph_new_ok Ht. destruct (bottom_levels_settled g Hg) as [_ Hl].
  rewrite Hl by (by eapply lookup_lt_Some). unfold level_of. by rewrite Ht.
Qed.

Lemma bottom_levels_equation_witness :
  ∃ g, Graph_new chain_tasks = Ok g ∧
    bottom_levels g = [f_of_Z 1; f_of_Z 2; f_of_Z 3] ∧
    bottom_levels g !! 2 =
      Some (f_of_Z 1 + foldl f_max f_zero
              (omap (λ d, bottom_levels g !! d) (deps_of (g_dependents g) 2)))%f64.
Proof.
  eexists. split; [by vm_compute|]. split; [by vm_compute|].
  eapply (bottom_levels_equation chain_tasks _ 2 (plain_task 2 "fetch" []));
    [by vm_compute|done].
Defined.

(** ** Overlap *)

(** The components of a path, trailing slashes aside. *)
Definition components (path : string) : list string :=
  split_byte "/" (trim_end_byte "/" path).

Lemma below_components a b :
  (a = b ∨ ∃ r, a = b +:+ "/" +:+ r) ↔ split_byte "/" b `prefix_of` split_byte "/" a.
Proof.
  split.
  - intros [->|[r ->]]; [done|]. change ("/" +:+ r) with (String "/" r).
    rewrite split_app. by eexists.
  - intros [k Hk]. pose proof (join_split "/" a) as Ha. rewrite Hk in Ha.
    destruct k as [|w k].
    + rewrite app_nil_r, join_split in Ha. by left.
    + right. rewrite join_app, join_split in Ha by (done || apply split_byte_ne). eauto.
Qed.

Lemma strip_slash a b :
  match strip_prefix b a with Some rest => starts_with "/" rest | None => false end = true
  ↔ ∃ r, a = b +:+ "/" +:+ r.
Proof.
  destruct (strip_prefix b a) as [rest|] eqn:E.
  - apply strip_prefix_Some in E as ->. rewrite starts_with_true.
    split; [naive_solver|]. intros [r Hr]. exists r.
    assert (Hs : strip_prefix b (b +:+ rest) = Some ("/" +:+ r)) by (by apply strip_prefix_Some).
    rewrite (proj2 (strip_prefix_Some b _ rest)) in Hs by done. congruence.
  - split; [done|]. intros [r Hr]. apply strip_prefix_Some in Hr. congruence.
Qed.

(** Two claimed paths overlap exactly when, component by component, one
    leads to the other; in particular sibling names that share a prefix of
    characters do not overlap, and the relation is symmetric. *)
Theorem overlap_components a b :
  overlap a b = true ↔
  components a `prefix_of` components b ∨ components b `prefix_of` components a.
Proof.
  unfold overlap, components. rewrite !orb_true_iff, bool_decide_eq_true, !strip_slash.
  rewrite <- !below_components. naive_solver.
Qed.
