(* ===== verification/Order.v ===== *)
(** * Ordering policies

    [src/crates/agora-sched/src/order.rs]: the keys of the policies, priority
    inheritance along the graph, and Kahn's algorithm on a heap of keys. The
    heap is a list whose [pop] takes the least entry; ids are distinct in a
    graph, so on comparable keys the least entry is unique and the heap's
    internal layout cannot be observed. *)

From stdpp Require Import relations.
From S2P Require Import Prelude F64 Strs Task Kahn Graph.

Inductive OrderPolicy : Type := Fifo | Wsjf | CriticalPath.

Definition policy_parse (s : string) : option OrderPolicy :=
  if String.eqb s "fifo" then Some Fifo
  else if String.eqb s "wsjf" then Some Wsjf
  else if String.eqb s "critical-path" then Some CriticalPath
  else None.

Definition policy_as_str (p : OrderPolicy) : string :=
  match p with Fifo => "fifo" | Wsjf => "wsjf" | CriticalPath => "critical-path" end.

Record Key : Type := mk_key {
  k_tier : Z;
  k_score : f64;
  k_class : Z;
  k_queued : option Queued;
  k_index : nat }.

Definition cmp_queued (a b : option Queued) : comparison :=
  match a, b with
  | None, None => Eq
  | None, Some _ => Gt
  | Some _, None => Lt
  | Some (QText x), Some (QText y) => String.compare x y
  | Some (QText _), Some _ => Gt
  | Some _, Some (QText _) => Lt
  | Some (QInt x), Some (QInt y) => Z.compare x y
  | Some (QInt x), Some (QFloat y) => cmp_f64 (f_of_Z x) y
  | Some (QFloat x), Some (QInt y) => cmp_f64 x (f_of_Z y)
  | Some (QFloat x), Some (QFloat y) => cmp_f64 x y
  end.

Definition cmp_key (a b : Key) : comparison :=
  then_with (k_tier a ?= k_tier b)%Z
    (then_with (cmp_f64 (k_score a) (k_score b))
      (then_with (k_class a ?= k_class b)%Z
        (then_with (cmp_queued (k_queued a) (k_queued b))
          (Nat.compare (k_index a) (k_index b))))).

Definition own_key (task : Task) (level : f64) (policy : OrderPolicy) : Key :=
  let score := match policy with
    | Fifo => f_zero
    | Wsjf => (f_neg (t_value task) / t_size task)%f64
    | CriticalPath => f_neg level
    end in
  mk_key (t_tier task) score
    (match t_queued task with None => 1 | Some _ => 0 end)%Z (t_queued task) (t_index task).

(** One dependent of [task] in [inherit]. *)
Definition inherit_dep (task : nat) (st : list Key * list (option nat)) (dependent : nat) :
    list Key * list (option nat) :=
  let '(effective, source) := st in
  match effective !! dependent, effective !! task with
  | Some candidate, Some current =>
      match cmp_key candidate current with
      | Lt =>
          let inherited := match mjoin (source !! dependent) with
            | Some s => Some s
            | None => Some dependent
            end in
          (<[task := candidate]> effective, <[task := inherited]> source)
      | _ => st
      end
  | _, _ => st
  end.

Definition inherit_task (g : Graph) (st : list Key * list (option nat)) (task : nat) :
    list Key * list (option nat) :=
  foldl (inherit_dep task) st (deps_of (g_dependents g) task).

Definition inherit (g : Graph) (own : list Key) : list Key * list (option nat) :=
  foldl (inherit_task g) (own, replicate (length own) None) (rev (g_topo g)).

(** ** The heap *)

(** A [BinaryHeap<Reverse<Ready>>] of positions under [cmp]. *)
Definition heap (cmp : nat → nat → comparison) : Type := list nat.

Fixpoint remove_one (x : nat) (l : list nat) : list nat :=
  match l with [] => [] | y :: l' => if Nat.eqb x y then l' else y :: remove_one x l' end.

Lemma remove_one_perm x l : x ∈ l → l ≡ₚ x :: remove_one x l.
Proof.
  induction l as [|y l IH]; cbn; [by intros ?%not_elem_of_nil|].
  destruct (Nat.eqb_spec x y) as [->|Hne]; [done|].
  intros [?|Hx]%elem_of_cons; [done|]. rewrite (IH Hx) at 1. apply Permutation_swap.
Qed.

#[export] Instance heap_bag cmp : Bag (heap cmp) := {
  bag_pop b := x ← min_by cmp b; Some (x, remove_one x b);
  bag_push x b := x :: b;
  bag_elems b := b }.

#[export] Instance heap_bag_laws cmp : BagLaws (heap cmp).
Proof.
  split; cbn.
  - intros b. by destruct b.
  - intros b x b'. destruct (min_by cmp b) as [y|] eqn:E; [|done]. cbn.
    intros [= <- <-]. by eapply remove_one_perm, min_by_elem.
  - done.
Qed.

(** [Ready::cmp]: effective key, then id. Every position the heap holds is one
    of the graph's, so both lookups succeed. *)
Definition ready_cmp (g : Graph) (effective : list Key) (a b : nat) : comparison :=
  match effective !! a, effective !! b with
  | Some ka, Some kb => then_with (cmp_key ka kb) (cmp_id_at (g_tasks g) a b)
  | _, _ => cmp_id_at (g_tasks g) a b
  end.

(** Each distinct dependent is released once. *)
Definition succ_once (g : Graph) (p : nat) : list nat :=
  remove_dups (deps_of (g_dependents g) p).

Definition indegree_once (g : Graph) : list nat :=
  (λ t, length (remove_dups (t_after t))) <$> g_tasks g.

Definition kahn (g : Graph) (effective : list Key) : list nat :=
  kahn_loop (length (g_tasks g)) (succ_once g) (indegree_once g)
    (initial_ready (indegree_once g) : heap (ready_cmp g effective)).

Record Ordered : Type := mk_ordered {
  o_order : list nat;
  o_effective : list Key;
  o_source : list (option nat) }.

Definition own_keys (g : Graph) (policy : OrderPolicy) : list Key :=
  zip_with (λ task level, own_key task level policy) (g_tasks g) (bottom_levels g).

Definition order (g : Graph) (policy : OrderPolicy) : Ordered :=
  let '(effective, source) := inherit g (own_keys g policy) in
  mk_ordered (kahn g effective) effective source.

(** ** Keys that compare *)

(** A [queued] that is no NaN and, if an integer, converts exactly. *)
Definition queued_ok (q : option Queued) : Prop :=
  match q with
  | Some (QInt i) => (Z.abs i < 2 ^ 53)%Z
  | Some (QFloat f) => not_nan f
  | _ => True
  end.

Definition key_ok (k : Key) : Prop := not_nan (k_score k) ∧ queued_ok (k_queued k).

(** [queued] as a place in one order: text after numbers, absent last. *)
Definition queued_number (q : option Queued) : f64 :=
  match q with Some (QInt i) => f_of_Z i | Some (QFloat f) => f | _ => f_zero end.
Definition queued_text (q : option Queued) : string :=
  match q with Some (QText s) => s | _ => "" end.
Definition queued_kind (q : option Queued) : Z :=
  match q with Some (QInt _ | QFloat _) => 0 | Some (QText _) => 1 | None => 2 end.

Lemma queued_number_ok q : queued_ok q → not_nan (queued_number q).
Proof. destruct q as [[]|]; try done. apply f_of_Z_not_nan. Qed.

Lemma cmp_queued_split a b :
  queued_ok a → queued_ok b →
  cmp_queued a b = then_with (queued_kind a ?= queued_kind b)%Z
    (then_with (cmp_f64 (queued_number a) (queued_number b))
       (String.compare (queued_text a) (queued_text b))).
Proof.
  destruct a as [[i|f|s]|], b as [[j|h|t]|]; intros Ha Hb; cbn in *; try done.
  - rewrite cmp_of_Z by done. by destruct (i ?= j)%Z.
  - by destruct (cmp_f64 _ _).
  - by destruct (cmp_f64 _ _).
  - by destruct (cmp_f64 _ _).
Qed.

#[export] Instance cmp_queued_total : TotalCmp queued_ok cmp_queued.
Proof.
  eapply total_cmp_ext; [apply cmp_queued_split|].
  apply total_cmp_then; [|apply total_cmp_then].
  - apply (total_cmp_weaken (λ _, True)); [done|].
    apply (total_cmp_on (λ _, True) Z.compare queued_kind _).
  - eapply total_cmp_weaken; [apply queued_number_ok|].
    apply (total_cmp_on (λ x, not_nan x) cmp_f64 queued_number _).
  - apply (total_cmp_weaken (λ _, True)); [done|].
    apply (total_cmp_on (λ _, True) String.compare queued_text _).
Qed.

#[export] Instance cmp_key_total : TotalCmp key_ok cmp_key.
Proof.
  assert (HT : ∀ {A} (f : Key → A) cmp, TotalCmp (λ _, True) cmp →
    TotalCmp key_ok (λ a b, cmp (f a) (f b))).
  { intros A f cmp Hc. apply (total_cmp_weaken (λ _, True)); [done|].
    apply (total_cmp_on (λ _, True) cmp f Hc). }
  unfold cmp_key. repeat apply total_cmp_then.
  - apply (HT _ k_tier Z.compare _).
  - apply (total_cmp_weaken (λ k, not_nan (k_score k))); [by intros k []|].
    apply (total_cmp_on (λ x, not_nan x) cmp_f64 k_score _).
  - apply (HT _ k_class Z.compare _).
  - apply (total_cmp_weaken (λ k, queued_ok (k_queued k))); [by intros k []|].
    apply (total_cmp_on queued_ok cmp_queued k_queued _).
  - apply (HT _ k_index Nat.compare _).
Qed.

(** Scores that are NaN, or integers beyond 2^53 beside floats: neither is
    excluded by [load_tasks], and each breaks transitivity. *)
Definition key_at (score : f64) (queued : option Queued) (index : nat) : Key :=
  mk_key 1 score 0 queued index.

(** [cmp_key] is not the total order it is documented as. A NaN score ties
    with every score, and an integer arrival above 2^53 ties with a float
    arrival it rounds to; in both cases three keys compare in a circle. *)
Theorem cmp_key_not_transitive :
  let a := key_at (f_of_Z 2) (Some (QInt 0)) 0 in
  let b := key_at (f_of_Z 0 / f_of_Z 0)%f64 (Some (QInt 1)) 1 in
  let c := key_at (f_of_Z 1) (Some (QInt 2)) 2 in
  let d := key_at f_zero (Some (QInt (2 ^ 53 + 1))) 0 in
  let e := key_at f_zero (Some (QFloat (f_of_Z (2 ^ 53)))) 1 in
  let f := key_at f_zero (Some (QInt (2 ^ 53))) 2 in
  (cmp_key a b = Lt ∧ cmp_key b c = Lt ∧ cmp_key c a = Lt) ∧
  (cmp_key d e = Lt ∧ cmp_key e f = Lt ∧ cmp_key f d = Lt).
Proof. by vm_compute. Qed.

(** ** Priority inheritance *)

(** What inheritance leaves at a position: the least own key among the task
    and everything that waits for it, and where that key came from. *)
Record inherited (tasks : list Task) (own : list Key) (x : nat) (k : Key)
    (src : option nat) : Prop := {
  ih_from : match src with
    | None => own !! x = Some k
    | Some s => own !! s = Some k ∧ tc (prereq tasks) x s ∧
                ∃ kx, own !! x = Some kx ∧ cmp_key k kx = Lt
    end;
  ih_self kx : own !! x = Some kx → cmp_key k kx ≠ Gt;
  ih_least d kd : tc (prereq tasks) x d → own !! d = Some kd → cmp_key k kd ≠ Gt }.

Section inherit.
Context (g : Graph) (Hg : graph_ok g) (own : list Key).
Hypothesis Hown : Forall key_ok own.
Hypothesis Hlen : length own = length (g_tasks g).

Lemma own_ok x k : own !! x = Some k → key_ok k.
Proof. intros Hx. by eapply Forall_lookup_1. Qed.

Lemma inherited_ok x k src : inherited (g_tasks g) own x k src → key_ok k.
Proof. intros [Hf _ _]. destruct src; [destruct Hf as (Hf & _)|]; by eapply own_ok. Qed.

(** Part of the way through the dependents of [y]: [k] is the best key seen. *)
Record partial (eff : list Key) (y : nat) (seen : list nat) (k : Key) (src : option nat) :
    Prop := {
  pt_from : match src with
    | None => own !! y = Some k
    | Some s => own !! s = Some k ∧ tc (prereq (g_tasks g)) y s ∧
                ∃ ky, own !! y = Some ky ∧ cmp_key k ky = Lt
    end;
  pt_self ky : own !! y = Some ky → cmp_key k ky ≠ Gt;
  pt_seen d kd : d ∈ seen → eff !! d = Some kd → cmp_key k kd ≠ Gt }.

Lemma partial_key_ok eff y seen k src : partial eff y seen k src → key_ok k.
Proof. intros [Hf _ _]. destruct src; [destruct Hf as (Hf & _)|]; by eapply own_ok. Qed.

(** Every dependent was settled before: its entry is final. *)
Definition settled (eff : list Key) (src : list (option nat)) (x : nat) : Prop :=
  ∃ k s, eff !! x = Some k ∧ src !! x = Some s ∧ inherited (g_tasks g) own x k s.

Lemma inherit_dep_step y d seen eff src k s :
  settled eff src d → d ≠ y → prereq (g_tasks g) y d → Forall key_ok eff →
  eff !! y = Some k → src !! y = Some s → partial eff y seen k s →
  ∃ k' s' eff' src', inherit_dep y (eff, src) d = (eff', src') ∧
    eff' = <[y := k']> eff ∧ src' = <[y := s']> src ∧ partial eff y (seen ++ [d]) k' s'.
Proof.
  intros (kd & sd & Hkd & Hsd & Hin) Hne Hpre Hall Hk Hs Hp.
  pose proof (inherited_ok _ _ _ Hin) as Okd. pose proof (partial_key_ok _ _ _ _ _ Hp) as Ok.
  assert (Hkeep : cmp_key kd k ≠ Lt → partial eff y (seen ++ [d]) k s).
  { intros Hc. split; [apply Hp|apply Hp|].
    intros x kx [Hx| ->%list_elem_of_singleton]%elem_of_app Hkx; [by eapply (pt_seen _ _ _ _ _ Hp)|].
    simplify_eq. rewrite (tc_gt_lt key_ok cmp_key) by done. done. }
  unfold inherit_dep. rewrite Hkd, Hk. destruct (cmp_key kd k) eqn:Hc.
  - exists k, s, eff, src. rewrite !list_insert_id by done. split_and!; try done. by apply Hkeep.
  - rewrite Hsd. cbn [mjoin option_join].
    eexists kd, _, _, _. split_and!; [done..|].
    assert (Hlt : ∀ kx, cmp_key k kx ≠ Gt → key_ok kx → cmp_key kd kx = Lt).
    { intros kx Hx Okx. by apply (tc_lt_le_trans key_ok cmp_key kd k kx). }
    destruct (lookup_lt_is_Some_2 own y) as [ky Hky].
    { rewrite Hlen. by apply prereq_bound in Hpre as [? _]. }
    pose proof (own_ok _ _ Hky) as Oky.
    pose proof (Hlt ky (pt_self _ _ _ _ _ Hp ky Hky) Oky) as Hyy.
    split.
    + destruct sd as [sd|]; cbn.
      * destruct (ih_from _ _ _ _ _ Hin) as (Hf & Ht & _).
        split_and!; [done|by eapply tc_l|by exists ky].
      * split_and!; [apply (ih_from _ _ _ _ _ Hin)|by apply tc_once|by exists ky].
    + intros kx Hx. simplify_eq. congruence.
    + intros x kx [Hx| ->%list_elem_of_singleton]%elem_of_app Hkx.
      * pose proof (pt_seen _ _ _ _ _ Hp x kx Hx Hkx) as Hle.
        rewrite Hlt; [done..|]. by eapply Forall_lookup_1 in Hall.
      * simplify_eq. by rewrite (tc_refl key_ok cmp_key).
  - exists k, s, eff, src. rewrite !list_insert_id by done. split_and!; try done. by apply Hkeep.
Qed.

Lemma settled_insert eff src x y k s :
  x ≠ y → settled (<[y := k]> eff) (<[y := s]> src) x ↔ settled eff src x.
Proof. intros Hne. unfold settled. by rewrite !list_lookup_insert_ne. Qed.

Lemma partial_insert eff y seen k s k1 :
  y ∉ seen → partial eff y seen k s → partial (<[y := k1]> eff) y seen k s.
Proof.
  intros Hy [H1 H2 H3]. split; [done..|]. intros d kd Hd. rewrite list_lookup_insert_ne by set_solver.
  by apply H3.
Qed.

Lemma inherit_deps_spec y ds seen eff src k s :
  Forall (λ d, settled eff src d ∧ d ≠ y ∧ prereq (g_tasks g) y d) ds →
  Forall key_ok eff → y ∉ seen → eff !! y = Some k → src !! y = Some s →
  partial eff y seen k s →
  ∃ k' s', foldl (inherit_dep y) (eff, src) ds = (<[y := k']> eff, <[y := s']> src) ∧
    partial eff y (seen ++ ds) k' s'.
Proof.
  revert seen eff src k s. induction ds as [|d ds IH]; intros seen eff src k s Hds Hall Hy Hk Hs Hp.
  { exists k, s. cbn. by rewrite !list_insert_id, app_nil_r. }
  apply Forall_cons in Hds as [(Hset & Hne & Hpre) Hds].
  destruct (inherit_dep_step y d seen eff src k s) as (k1 & s1 & eff1 & src1 & Hstep & -> & -> & Hp1);
    try done.
  cbn [foldl]. rewrite Hstep.
  pose proof (lookup_lt_Some _ _ _ Hk). pose proof (lookup_lt_Some _ _ _ Hs).
  destruct (IH (seen ++ [d]) (<[y := k1]> eff) (<[y := s1]> src) k1 s1) as (k2 & s2 & Hf & Hp2).
  - eapply Forall_impl; [exact Hds|]. intros x (Hx & Hxy & Hpx).
    split_and!; [by apply settled_insert|done..].
  - apply Forall_insert; [done|]. by eapply partial_key_ok.
  - set_solver.
  - by apply list_lookup_insert_eq.
  - by apply list_lookup_insert_eq.
  - apply partial_insert; [set_solver|done].
  - exists k2, s2. rewrite Hf, !list_insert_insert_eq, <- app_assoc in *. split; [done|].
    apply (partial_insert _ _ _ _ _ k) in Hp2.
    + by rewrite list_insert_insert_eq, list_insert_id in Hp2.
    + rewrite Forall_forall in Hds. intros [?|[?|Hin]%elem_of_cons]%elem_of_app; [done..|].
      by destruct (Hds y Hin) as (_ & ? & _).
Qed.

Lemma inherit_task_spec y eff src :
  y < length (g_tasks g) → Forall key_ok eff →
  (∀ d, d ∈ deps_of (g_dependents g) y → settled eff src d ∧ d ≠ y) →
  eff !! y = own !! y → src !! y = Some None →
  ∃ k s, inherit_task g (eff, src) y = (<[y := k]> eff, <[y := s]> src) ∧
    inherited (g_tasks g) own y k s.
Proof.
  intros Hy Hall Hdeps Heff Hsrc.
  destruct (lookup_lt_is_Some_2 own y) as [ky Hky]; [lia|]. rewrite Hky in Heff.
  pose proof (own_ok _ _ Hky) as Oky.
  assert (Hd : ∀ d, d ∈ deps_of (g_dependents g) y ↔ prereq (g_tasks g) y d).
  { intros d. apply (elem_of_deps _ _ _ (gok_built _ Hg)). }
  destruct (inherit_deps_spec y (deps_of (g_dependents g) y) [] eff src ky None)
    as (k & s & Hf & [H1 H2 H3]); try done.
  - apply Forall_forall. intros d Hin. destruct (Hdeps d Hin). by rewrite <- Hd.
  - set_solver.
  - split; [done| |set_solver]. intros k' Hk'. simplify_eq. by rewrite (tc_refl key_ok cmp_key).
  - exists k, s. split; [done|]. cbn [app] in H3. split; [done..|].
    assert (Ok : key_ok k) by (destruct s; [destruct H1 as (H1 & _)|]; by eapply own_ok).
    intros d kd Htc Hkd.
    assert (Hvia : ∀ z, prereq (g_tasks g) y z → ∃ kz sz, key_ok kz ∧ cmp_key k kz ≠ Gt ∧
      inherited (g_tasks g) own z kz sz).
    { intros z Hz%Hd. destruct (Hdeps z Hz) as [(kz & sz & Hkz & _ & Hin) _].
      exists kz, sz. split_and!; [by eapply inherited_ok|by eapply H3|done]. }
    inversion Htc as [? ? Hz|? z ? Hz Htc']; subst.
    + destruct (Hvia d Hz) as (kz & sz & Okz & Hle & Hin).
      apply (tc_trans key_ok cmp_key k kz kd); try done; [by eapply own_ok|].
      by eapply (ih_self _ _ _ _ _ Hin).
    + destruct (Hvia z Hz) as (kz & sz & Okz & Hle & Hin).
      apply (tc_trans key_ok cmp_key k kz kd); try done; [by eapply own_ok|].
      by eapply (ih_least _ _ _ _ _ Hin).
Qed.

Lemma inherit_settled l :
  NoDup l → (∀ x, x ∈ l → x < length (g_tasks g)) →
  (∀ i x d, l !! i = Some x → d ∈ deps_of (g_dependents g) x → d ∈ take i l) →
  ∃ eff src, foldl (inherit_task g) (own, replicate (length own) None) l = (eff, src) ∧
    length eff = length own ∧ length src = length own ∧ Forall key_ok eff ∧
    (∀ x, x ∈ l → settled eff src x) ∧
    (∀ x, x ∉ l → eff !! x = own !! x ∧ src !! x = replicate (length own) None !! x).
Proof.
  induction l as [|y l IH] using rev_ind; intros Hnd Hb Hdeps.
  { exists own, (replicate (length own) None). split_and!; try done.
    - apply length_replicate.
    - by intros x ?%not_elem_of_nil. }
  apply NoDup_app in Hnd as (Hnd & Hy & _).
  assert (Hyl : y ∉ l) by (intros Hin; apply (Hy y Hin); by left).
  destruct IH as (eff & src & Hf & Hle & Hls & Hall & Hset & Hrest); [done|set_solver| |].
  { intros i x d Hx Hd. pose proof (lookup_lt_Some _ _ _ Hx).
    specialize (Hdeps i x d). rewrite lookup_app_l, take_app_le in Hdeps by lia. auto. }
  assert (Hyn : y < length (g_tasks g)) by set_solver.
  destruct (Hrest y Hyl) as [Hye Hys]. rewrite lookup_replicate_2 in Hys by lia.
  destruct (inherit_task_spec y eff src) as (k & s & Ht & Hin); try done.
  { intros d Hd. assert (Hdl : d ∈ l).
    { specialize (Hdeps (length l) y d). rewrite lookup_app_r, Nat.sub_diag in Hdeps by lia.
      rewrite take_app_length in Hdeps. auto. }
    split; [by apply Hset|]. by intros ->. }
  rewrite foldl_app, Hf. cbn [foldl]. rewrite Ht.
  exists (<[y := k]> eff), (<[y := s]> src). rewrite !length_insert. split_and!; try done.
  - apply Forall_insert; [done|]. by eapply inherited_ok.
  - intros x [Hx| ->%list_elem_of_singleton]%elem_of_app.
    + apply settled_insert; [by intros ->|]. by apply Hset.
    + exists k, s. split_and!; [apply list_lookup_insert_eq; lia..|done].
  - intros x [Hx Hxy]%not_elem_of_app. rewrite !list_lookup_insert_ne by set_solver. by apply Hrest.
Qed.

Lemma inherit_spec :
  ∃ eff src, inherit g own = (eff, src) ∧ length eff = length own ∧
    length src = length own ∧ Forall key_ok eff ∧
    ∀ x, x < length (g_tasks g) → settled eff src x.
Proof.
  destruct (inherit_settled (rev (g_topo g))) as (eff & src & Hf & H1 & H2 & H3 & H4 & _).
  - rewrite <- Permutation_rev, (gok_perm _ Hg). apply NoDup_seq.
  - intros x. rewrite <- Permutation_rev, (gok_perm _ Hg), elem_of_seq. lia.
  - by apply rev_topo_deps.
  - exists eff, src. split_and!; try done. intros x Hx. apply H4.
    rewrite <- Permutation_rev, (gok_perm _ Hg), elem_of_seq. lia.
Qed.
End inherit.

(** ** The order *)

Lemma occ_remove_dups d l : occ d (remove_dups l) = if decide (d ∈ l) then 1 else 0.
Proof.
  pose proof (NoDup_remove_dups l) as Hnd. pose proof (elem_of_remove_dups l d) as Hin.
  destruct (decide (d ∈ l)) as [Hd|Hd].
  - apply Hin in Hd. apply elem_of_Permutation in Hd as [k Hk]. rewrite Hk in Hnd |- *.
    apply NoDup_cons in Hnd as [Hn _]. rewrite occ_cons, decide_True by done.
    rewrite <- occ_pos in Hn. lia.
  - rewrite <- Hin, <- occ_pos in Hd. lia.
Qed.

Lemma pending_once g d l :
  pending (succ_once g) d l =
    length (filter (λ p, d ∈ deps_of (g_dependents g) p) l).
Proof.
  induction l as [|p l IH]; [done|]. rewrite pending_cons, IH, filter_cons.
  unfold succ_once at 1. rewrite occ_remove_dups. by case_decide.
Qed.

Section kahn_order.
Context (g : Graph) (Hg : graph_ok g) (effective : list Key).

Notation n := (length (g_tasks g)).

Lemma elem_of_succ_once p d : d ∈ succ_once g p ↔ prereq (g_tasks g) p d.
Proof.
  unfold succ_once. rewrite elem_of_remove_dups.
  apply (elem_of_deps _ _ _ (gok_built _ Hg)).
Qed.

Lemma id_at_inj p q x :
  id_at (g_tasks g) p = Some x → id_at (g_tasks g) q = Some x → p = q.
Proof.
  unfold id_at. rewrite <- !list_lookup_fmap. intros Hp Hq.
  by eapply (NoDup_lookup (t_id <$> g_tasks g)); [apply Hg|..].
Qed.

Lemma indegree_once_pending d :
  d < n → indegree_once g !! d = Some (pending (succ_once g) d (seq 0 n)).
Proof.
  intros Hd. destruct (lookup_lt_is_Some_2 _ d Hd) as [td Htd].
  unfold indegree_once. rewrite list_lookup_fmap, Htd. cbn. f_equal. rewrite pending_once.
  rewrite <- (length_fmap (λ p, default "" (id_at (g_tasks g) p))).
  assert (Hin : ∀ p, p ∈ filter (λ p, d ∈ deps_of (g_dependents g) p) (seq 0 n) ↔
    ∃ tp, g_tasks g !! p = Some tp ∧ t_id tp ∈ t_after td).
  { intros p. rewrite list_elem_of_filter, elem_of_seq, (elem_of_deps _ _ _ (gok_built _ Hg)).
    unfold prereq. split.
    - intros [(tp & td' & Hp & Hd' & Hin) _]. simplify_eq. eauto.
    - intros (tp & Hp & Hin). pose proof (lookup_lt_Some _ _ _ Hp). split; [|lia]. eauto 6. }
  apply Permutation_length, NoDup_Permutation.
  - apply NoDup_remove_dups.
  - apply NoDup_fmap_2_strong; [|apply NoDup_filter, NoDup_seq].
    intros p q (tp & Hp & _)%Hin (tq & Hq & _)%Hin. unfold id_at. rewrite Hp, Hq. cbn.
    intros Heq. eapply (id_at_inj p q (t_id tp)); unfold id_at; [by rewrite Hp|].
    rewrite Hq. cbn. by f_equal.
  - intros x. rewrite elem_of_remove_dups, list_elem_of_fmap. split.
    + intros Hx. destruct (proj1 (elem_of_ids (g_tasks g) x)) as [p Hp].
      { eapply graph_ok_known; [done| |exact Hx]. by eapply list_elem_of_lookup_2. }
      exists p. rewrite Hp. split; [done|]. apply Hin. unfold id_at in Hp.
      apply fmap_Some in Hp as (tp & Hp & ->). eauto.
    + intros (p & -> & (tp & Hp & Hx)%Hin). unfold id_at. by rewrite Hp.
Qed.

Lemma kahn_order_result : ∃ rest, kahn_result n (succ_once g) (kahn g effective) rest.
Proof.
  unfold kahn. apply (kahn_correct (B := heap (ready_cmp g effective))).
  - intros p d _ Hd%elem_of_succ_once. by apply prereq_bound in Hd as [_ ?].
  - apply length_fmap.
  - apply indegree_once_pending.
  - done.
Qed.

(** In an accepted graph no set of tasks waits for itself. *)
Lemma stuck_empty rest :
  (∀ d, d ∈ rest → d < n) →
  (∀ d, d ∈ rest → ∃ p, p ∈ rest ∧ d ∈ succ_once g p) → rest = [].
Proof.
  intros Hb Hs. destruct (decide (rest = [])) as [|Hne]; [done|]. exfalso.
  apply (stuck_cycle n (succ_once g) rest Hne Hb Hs).
  assert (Hsub : ∀ x y, edge n (succ_once g) x y → prereq (g_tasks g) x y).
  { intros x y [_ He]. by apply elem_of_succ_once. }
  intros x Hx. apply (graph_ok_acyclic g Hg x).
  revert Hx. generalize x at 1 3. intros y Hy.
  induction Hy; [apply tc_once; eauto|eapply tc_l; eauto].
Qed.

Lemma kahn_order_complete :
  kahn g effective ≡ₚ seq 0 n ∧
  ∀ i x p, kahn g effective !! i = Some x → prereq (g_tasks g) p x →
    p ∈ take i (kahn g effective).
Proof.
  destruct kahn_order_result as [rest Hr]. pose proof (res_perm _ _ _ _ Hr) as Hp.
  assert (rest = []) as ->.
  { apply stuck_empty; [|apply Hr]. intros d Hd.
    assert (Hin : d ∈ kahn g effective ++ rest) by set_solver.
    rewrite Hp, elem_of_seq in Hin. lia. }
  rewrite app_nil_r in Hp. split; [done|]. intros i x p Hx Hpre.
  eapply (res_topo _ _ _ _ Hr); [done| |].
  - by apply prereq_bound in Hpre as [? _].
  - by apply elem_of_succ_once.
Qed.

Hypothesis Heff : Forall key_ok effective.
Hypothesis Heff_len : length effective = n.

Definition key_of (p : nat) : Key :=
  default (mk_key 0 f_zero 0 None 0) (effective !! p).

Definition name_of (p : nat) : string := default "" (id_at (g_tasks g) p).

Lemma ready_cmp_split a b :
  a < n → b < n →
  ready_cmp g effective a b =
    then_with (cmp_key (key_of a) (key_of b)) (String.compare (name_of a) (name_of b)).
Proof.
  intros Ha Hb. unfold ready_cmp, key_of, name_of, cmp_id_at, id_at.
  destruct (lookup_lt_is_Some_2 effective a) as [ka ->]; [lia|].
  destruct (lookup_lt_is_Some_2 effective b) as [kb ->]; [lia|].
  destruct (lookup_lt_is_Some_2 (g_tasks g) a Ha) as [ta ->].
  destruct (lookup_lt_is_Some_2 (g_tasks g) b Hb) as [tb ->]. done.
Qed.

Lemma ready_cmp_total : TotalCmp (λ p, p < n) (ready_cmp g effective).
Proof.
  eapply total_cmp_ext; [apply ready_cmp_split|]. apply total_cmp_then.
  - apply (total_cmp_weaken (λ p, key_ok (key_of p))).
    + intros p Hp. unfold key_of. destruct (lookup_lt_is_Some_2 effective p) as [k Hk]; [lia|].
      rewrite Hk. by eapply Forall_lookup_1.
    + apply (total_cmp_on key_ok cmp_key key_of _).
  - apply (total_cmp_weaken (λ _, True)); [done|].
    apply (total_cmp_on (λ _, True) String.compare name_of _).
Qed.

Lemma kahn_order_greedy i x y :
  kahn g effective !! i = Some x → y < n → y ∉ take i (kahn g effective) →
  (∀ p, prereq (g_tasks g) p y → p ∈ take i (kahn g effective)) →
  ready_cmp g effective x y ≠ Gt.
Proof.
  intros Hx Hy Hout Hready.
  eapply (kahn_loop_pick (B := heap (ready_cmp g effective)) n (succ_once g)
    (λ a b, ready_cmp g effective a b ≠ Gt) n (indegree_once g) _ [] (seq 0 n) i);
    try done.
  - intros p d _ Hd%elem_of_succ_once. by apply prereq_bound in Hd as [_ ?].
  - intros b z b' w Hpop Hall Hw. cbn in Hpop.
    destruct (min_by (ready_cmp g effective) b) as [m|] eqn:E; [|done]. cbn in Hpop.
    injection Hpop as -> _. by apply (min_by_le _ _ (TotalCmp0 := ready_cmp_total) b).
  - split; try done.
    + apply length_fmap.
    + apply indegree_once_pending.
    + cbn. unfold initial_ready.
      replace (length (indegree_once g)) with n by (symmetry; apply length_fmap).
      apply NoDup_Permutation; [apply NoDup_filter, NoDup_seq..|].
      intros d. rewrite !list_elem_of_filter, elem_of_seq.
      split; intros [Hz Hd]; (split; [|done]); rewrite indegree_once_pending in * by lia;
        congruence.
  - intros p Hp Hs. apply Hready. by apply elem_of_succ_once.
Qed.
End kahn_order.

(** ** Properties *)

Lemma length_own_keys g policy : graph_ok g → length (own_keys g policy) = length (g_tasks g).
Proof.
  intros Hg. unfold own_keys. rewrite length_zip_with.
  destruct (bottom_levels_settled g Hg) as [-> _]. lia.
Qed.

(** An order lists every task of the graph exactly once and never a task
    before one of its prerequisites, under every policy and whatever the keys
    are. *)
Theorem order_respects_prerequisites tasks g policy :
  Graph_new tasks = Ok g →
  o_order (order g policy) ≡ₚ seq 0 (length tasks) ∧
  ∀ i j p d, o_order (order g policy) !! i = Some p → o_order (order g policy) !! j = Some d →
    prereq tasks p d → i < j.
Proof.
  intros [<- Hg]%Graph_new_ok. unfold order. destruct (inherit g _) as [eff src]. cbn.
  destruct (kahn_order_complete g Hg eff) as [Hp Ht]. split; [done|].
  intros i j p d Hi Hj Hpre. pose proof (Ht j d p Hj Hpre) as Hin.
  apply elem_of_take in Hin as (k & Hk & Hkj).
  assert (Hnd : NoDup (kahn g eff)) by (rewrite Hp; apply NoDup_seq).
  by rewrite (NoDup_lookup _ i k p Hnd Hi Hk).
Qed.

(** The order is greedy: at each place, no task that is still unplaced and
    whose prerequisites are all placed has a smaller effective key (then id)
    than the task put there. *)
Theorem order_greedy tasks g policy i x y :
  Graph_new tasks = Ok g → Forall key_ok (own_keys g policy) →
  let o := order g policy in
  o_order o !! i = Some x → y < length tasks → y ∉ take i (o_order o) →
  (∀ p, prereq tasks p y → p ∈ take i (o_order o)) →
  ready_cmp g (o_effective o) x y ≠ Gt.
Proof.
  intros [<- Hg]%Graph_new_ok Hown. cbn zeta. unfold order.
  destruct (inherit_spec g Hg (own_keys g policy) Hown (length_own_keys g policy Hg))
    as (eff & src & -> & Hlen & _ & Hall & _). cbn.
  rewrite length_own_keys in Hlen by done. by apply kahn_order_greedy.
Qed.

(** priority inheritance gives each task the least own key among itself
    and all the tasks that wait for it, directly or not; [source] names the
    task the key came from and is empty exactly when the task kept its own. *)
Theorem order_inheritance tasks g policy x :
  Graph_new tasks = Ok g → Forall key_ok (own_keys g policy) → x < length tasks →
  ∃ k s, o_effective (order g policy) !! x = Some k ∧ o_source (order g policy) !! x = Some s ∧
    inherited tasks (own_keys g policy) x k s.
Proof.
  intros [<- Hg]%Graph_new_ok Hown Hx. unfold order.
  destruct (inherit_spec g Hg (own_keys g policy) Hown (length_own_keys g policy Hg))
    as (eff & src & -> & _ & _ & _ & Hset). exact (Hset x Hx).
Qed.

(** Under [fifo] only the arrivals can be out of order. *)
Lemma own_keys_fifo_ok g :
  Forall (λ t, queued_ok (t_queued t)) (g_tasks g) → Forall key_ok (own_keys g Fifo).
Proof.
  unfold own_keys. generalize (bottom_levels g). intros levels Hq. revert levels.
  induction Hq as [|t ts Ht _ IH]; intros [|l ls]; cbn; constructor; [done|apply IH].
Qed.

(** The urgent task [z] pulls its prerequisite [m] ahead of the older [a]. *)
Definition pull_tasks : list Task :=
  [mk_task 0 "a" "" "other" 1 None [] (f_of_Z 1) (f_of_Z 1) [];
   mk_task 1 "m" "" "other" 1 None [] (f_of_Z 1) (f_of_Z 1) [];
   mk_task 2 "z" "" "crash" 0 None ["m"] (f_of_Z 1) (f_of_Z 1) []].

Lemma order_respects_prerequisites_witness :
  ∃ g, Graph_new pull_tasks = Ok g ∧ o_order (order g Fifo) = [1; 2; 0] ∧
    o_order (order g Fifo) ≡ₚ seq 0 (length pull_tasks).
Proof.
  eexists. split; [by vm_compute|]. split; [by vm_compute|].
  eapply (order_respects_prerequisites pull_tasks _ Fifo). by vm_compute.
Defined.

Lemma order_greedy_witness :
  ∃ g, Graph_new pull_tasks = Ok g ∧
    ready_cmp g (o_effective (order g Fifo)) 1 0 ≠ Gt.
Proof.
  eexists. split; [by vm_compute|].
  eapply (order_greedy pull_tasks _ Fifo 0 1 0).
  - by vm_compute.
  - apply own_keys_fifo_ok. repeat constructor.
  - by vm_compute.
  - by apply Nat.ltb_lt.
  - apply not_elem_of_nil.
  - intros p (tp & td & _ & Hd & Hin). cbn in Hd. injection Hd as <-.
    by apply not_elem_of_nil in Hin.
Defined.

Lemma order_inheritance_witness :
  ∃ g k s, Graph_new pull_tasks = Ok g ∧ o_effective (order g Fifo) !! 1 = Some k ∧
    o_source (order g Fifo) !! 1 = Some s ∧ inherited pull_tasks (own_keys g Fifo) 1 k s.
Proof.
  destruct (Graph_new pull_tasks) as [g|e] eqn:E; [|by vm_compute in E].
  assert (Hk : Forall key_ok (own_keys g Fifo)).
  { apply own_keys_fifo_ok. apply Graph_new_ok in E as [-> _]. repeat constructor. }
  destruct (order_inheritance pull_tasks g Fifo 1 E Hk) as (k & s & H); [cbn; lia|].
  by exists g, k, s.
Defined.
