(* ===== verification/Civil.v ===== *)
(** * Civil time

    The calendar arithmetic of [src/crates/agora-sched/src/cron.rs]
    ([civil_from_days], [days_from_civil], [civil_from_ms], [ms_from_civil]).
    A day number reached from [i64] milliseconds is below 2^37 in magnitude, so
    the additions here cannot overflow and plain [Z] is faithful. *)

From S2P Require Import Prelude.

Local Open Scope Z_scope.

Definition MIN_MS : Z := 60000.
Definition HOUR_MS : Z := 3600000.
Definition DAY_MS : Z := 86400000.
Definition MAX_YEAR_ABS : Z := 300000000.

(** Years of an era as Hinnant's algorithm counts them. *)
Definition yoe_of (doe : Z) : Z :=
  (doe - doe / 1460 + doe / 36524 - doe / 146096) / 365.

Definition civil_from_days (z : Z) : Z * Z * Z :=
  let z := z + 719468 in
  let era := z / 146097 in
  let doe := z - era * 146097 in
  let yoe := yoe_of doe in
  let doy := doe - (365 * yoe + yoe / 4 - yoe / 100) in
  let mp := (5 * doy + 2) / 153 in
  let day := doy - (153 * mp + 2) / 5 + 1 in
  let month := if mp <? 10 then mp + 3 else mp - 9 in
  let year := yoe + era * 400 + (if month <=? 2 then 1 else 0) in
  (year, month, day).

Definition days_from_civil (year month day : Z) : Z :=
  let y := if month <=? 2 then year - 1 else year in
  let era := y / 400 in
  let yoe := y - era * 400 in
  let mp := Z.rem (month + 9) 12 in
  let doy := (153 * mp + 2) / 5 + day - 1 in
  let doe := yoe * 365 + yoe / 4 - yoe / 100 + doy in
  era * 146097 + doe - 719468.

Definition civil_from_ms (ms : Z) : Z * Z * Z * Z * Z * Z :=
  let days := ms / DAY_MS in
  let in_day := ms mod DAY_MS in
  let '(year, month, day) := civil_from_days days in
  let hour := in_day / HOUR_MS in
  let minute := (in_day mod HOUR_MS) / MIN_MS in
  let weekday := (days + 4) mod 7 in
  (year, month, day, hour, minute, weekday).

Definition ms_from_civil (year month day hour minute : Z) : Z :=
  let year := Z.max (- MAX_YEAR_ABS) (Z.min MAX_YEAR_ABS year) in
  let days := days_from_civil year month day in
  sat_i64 (sat_i64 (days * DAY_MS) + (hour * HOUR_MS + minute * MIN_MS)).

(** ** The calendar *)

Definition is_leap (year : Z) : bool :=
  (year mod 4 =? 0) && (negb (year mod 100 =? 0) || (year mod 400 =? 0)).

Definition days_in_month (year month : Z) : Z :=
  if month =? 2 then (if is_leap year then 29 else 28)
  else if (month =? 4) || (month =? 6) || (month =? 9) || (month =? 11) then 30
  else 31.

Definition valid_date (year month day : Z) : Prop :=
  1 <= month <= 12 ∧ 1 <= day <= days_in_month year month.

(** Days before the [y]-th March-based year of an era. *)
Definition year_start (y : Z) : Z := 365 * y + y / 4 - y / 100.

Definition year_last (y : Z) : Z :=
  if y =? 399 then 146096 else year_start (y + 1) - 1.

Definition doe_scaled (doe : Z) : Z := doe - doe / 1460 + doe / 36524 - doe / 146096.

Lemma doe_scaled_step d : 0 <= d < 146096 → doe_scaled d <= doe_scaled (d + 1).
Proof. intros Hd. unfold doe_scaled. Z.div_mod_to_equations. lia. Qed.

Lemma doe_scaled_mono d e : 0 <= d <= e → e <= 146096 → doe_scaled d <= doe_scaled e.
Proof.
  intros Hd He. replace e with (d + Z.of_nat (Z.to_nat (e - d))) by lia.
  assert (Hk : d + Z.of_nat (Z.to_nat (e - d)) <= 146096) by lia. revert Hk.
  induction (Z.to_nat (e - d)) as [|k IH]; intros Hk; [rewrite Z.add_0_r; lia|].
  transitivity (doe_scaled (d + Z.of_nat k)); [apply IH; lia|].
  replace (d + Z.of_nat (S k)) with (d + Z.of_nat k + 1) by lia.
  apply doe_scaled_step. lia.
Qed.

(** At both ends of every year of an era the estimate is that year. *)
Lemma yoe_ends y :
  0 <= y < 400 → y <= yoe_of (year_start y) ∧ yoe_of (year_last y) <= y.
Proof.
  intros Hy.
  assert (Hall : forallb (λ k, (k <=? yoe_of (year_start k)) && (yoe_of (year_last k) <=? k))
    (Z.of_nat <$> seq 0 400) = true) by by vm_compute.
  rewrite forallb_forall in Hall. specialize (Hall y). cbn beta in Hall.
  rewrite andb_true_iff, !Z.leb_le in Hall. apply Hall.
  apply list_elem_of_In, list_elem_of_fmap. exists (Z.to_nat y).
  rewrite elem_of_seq. lia.
Qed.

Lemma yoe_ge y d : 0 <= y < 400 → year_start y <= d <= 146096 → y <= yoe_of d.
Proof.
  intros Hy Hd. destruct (yoe_ends y Hy) as [H _].
  assert (0 <= year_start y) by (unfold year_start; Z.div_mod_to_equations; lia).
  etransitivity; [exact H|]. apply Z.div_le_mono; [lia|]. apply doe_scaled_mono; lia.
Qed.

Lemma year_last_bound y : 0 <= y < 400 → 0 <= year_last y <= 146096.
Proof.
  intros Hy. unfold year_last, year_start.
  destruct (Z.eqb_spec y 399); Z.div_mod_to_equations; lia.
Qed.

Lemma yoe_le y d : 0 <= y < 400 → 0 <= d <= year_last y → yoe_of d <= y.
Proof.
  intros Hy Hd. destruct (yoe_ends y Hy) as [_ H]. pose proof (year_last_bound y Hy).
  etransitivity; [|exact H]. apply Z.div_le_mono; [lia|]. apply doe_scaled_mono; lia.
Qed.

(** The estimated year of an era is the year the day falls in. *)
Lemma yoe_spec d :
  0 <= d <= 146096 →
  0 <= yoe_of d < 400 ∧ year_start (yoe_of d) <= d <= year_last (yoe_of d).
Proof.
  intros Hd. assert (Hr : 0 <= yoe_of d < 400).
  { assert (0 <= yoe_of d) by (apply yoe_ge; [lia|]; change (year_start 0) with 0; lia).
    assert (yoe_of d <= 399) by (apply yoe_le; [lia|]; change (year_last 399) with 146096; lia).
    lia. }
  split; [done|]. set (y := yoe_of d) in *. split.
  - apply Z.nlt_ge. intros Hlt. destruct (Z.eq_dec y 0) as [Hy|Hy].
    { rewrite Hy in Hlt. change (year_start 0) with 0 in Hlt. lia. }
    assert (Hle : yoe_of d <= y - 1); [|fold y in Hle; lia].
    apply yoe_le; [lia|]. unfold year_last.
    destruct (Z.eqb_spec (y - 1) 399); [lia|]. replace (y - 1 + 1) with y by lia. lia.
  - apply Z.nlt_ge. intros Hlt. unfold year_last in Hlt.
    destruct (Z.eqb_spec y 399); [lia|].
    assert (Hge : y + 1 <= yoe_of d); [|fold y in Hge; lia]. apply yoe_ge; lia.
Qed.

Lemma yoe_unique y d :
  0 <= y < 400 → year_start y <= d <= year_last y → yoe_of d = y.
Proof.
  intros Hy Hd. pose proof (year_last_bound y Hy).
  assert (0 <= year_start y) by (unfold year_start; Z.div_mod_to_equations; lia).
  pose proof (yoe_ge y d Hy). pose proof (yoe_le y d Hy). lia.
Qed.

(** A March-based year has 366 days when the February that ends it is long. *)
Lemma year_length y :
  0 <= y < 400 →
  year_last y - year_start y = if is_leap (y + 1) then 365 else 364.
Proof.
  intros Hy. unfold year_last, year_start, is_leap.
  destruct (Z.eqb_spec y 399) as [->|Hne]; [done|].
  destruct (Z.eqb_spec ((y + 1) mod 4) 0), (Z.eqb_spec ((y + 1) mod 100) 0),
    (Z.eqb_spec ((y + 1) mod 400) 0); cbn; Z.div_mod_to_equations; lia.
Qed.

Lemma is_leap_era y era : is_leap (y + era * 400) = is_leap y.
Proof.
  unfold is_leap.
  replace ((y + era * 400) mod 4) with (y mod 4) by (Z.div_mod_to_equations; lia).
  replace ((y + era * 400) mod 100) with (y mod 100) by (Z.div_mod_to_equations; lia).
  by rewrite Z_mod_plus_full.
Qed.

(** The [mp]-th month after February, and how long it can be. *)
Definition march_month (mp : Z) : Z := if mp <? 10 then mp + 3 else mp - 9.

Definition march_start (mp : Z) : Z := (153 * mp + 2) / 5.

Lemma march_month_range mp : 0 <= mp <= 11 → 1 <= march_month mp <= 12.
Proof. unfold march_month. intros. destruct (Z.ltb_spec mp 10); lia. Qed.

Lemma march_month_rem mp : 0 <= mp <= 11 → Z.rem (march_month mp + 9) 12 = mp.
Proof.
  intros Hmp. pose proof (march_month_range mp Hmp). rewrite Z.rem_mod_nonneg by lia.
  unfold march_month in *. destruct (Z.ltb_spec mp 10); Z.div_mod_to_equations; lia.
Qed.

Lemma march_month_inv month :
  1 <= month <= 12 → march_month (Z.rem (month + 9) 12) = month ∧
    0 <= Z.rem (month + 9) 12 <= 11.
Proof.
  intros Hm. rewrite Z.rem_mod_nonneg by lia. unfold march_month.
  pose proof (Z.mod_pos_bound (month + 9) 12). split; [|lia].
  destruct (Z.ltb_spec ((month + 9) mod 12) 10); Z.div_mod_to_equations; lia.
Qed.

(** Consecutive March-based months are as long as the calendar says; the last
    one, February, ends with the year. *)
Lemma march_length year mp :
  0 <= mp < 11 → march_start (mp + 1) - march_start mp = days_in_month year (march_month mp).
Proof.
  intros Hmp. unfold march_start, march_month, days_in_month.
  assert (H : mp = 0 ∨ mp = 1 ∨ mp = 2 ∨ mp = 3 ∨ mp = 4 ∨ mp = 5 ∨ mp = 6 ∨ mp = 7 ∨
    mp = 8 ∨ mp = 9 ∨ mp = 10) by lia.
  by destruct H as [->|[->|[->|[->|[->|[->|[->|[->|[->|[->| ->]]]]]]]]]].
Qed.

Lemma march_month_of_doy doy :
  0 <= doy <= 365 →
  let mp := (5 * doy + 2) / 153 in
  0 <= mp <= 11 ∧ march_start mp <= doy ∧ (mp < 11 → doy < march_start (mp + 1)).
Proof. intros Hd. cbn zeta. unfold march_start. split_and!; Z.div_mod_to_equations; lia. Qed.

Lemma march_month_unique mp doy :
  0 <= mp <= 11 → march_start mp <= doy → (mp < 11 → doy < march_start (mp + 1)) →
  doy <= 365 → (5 * doy + 2) / 153 = mp.
Proof. intros Hm Hlo Hhi Hd. unfold march_start in *. Z.div_mod_to_equations. lia. Qed.

(** A day within a March-based year is a valid day of the calendar, and back. *)
Lemma doy_valid era y doy :
  0 <= y < 400 → 0 <= doy <= year_last y - year_start y →
  let mp := (5 * doy + 2) / 153 in
  let month := march_month mp in
  valid_date (y + era * 400 + (if month <=? 2 then 1 else 0)) month (doy - march_start mp + 1).
Proof.
  intros Hy Hd. cbn zeta. rewrite year_length in Hd by done.
  destruct (march_month_of_doy doy) as (Hmp & Hlo & Hhi).
  { destruct (is_leap (y + 1)); lia. }
  set (mp := (5 * doy + 2) / 153) in *. split; [by apply march_month_range|].
  destruct (Z.eq_dec mp 11) as [->|Hne].
  - change (march_month 11) with 2. change (march_start 11) with 337 in *.
    change (2 <=? 2) with true. unfold days_in_month. change (2 =? 2) with true. cbn iota.
    replace (y + era * 400 + 1) with ((y + 1) + era * 400) by lia. rewrite is_leap_era.
    destruct (is_leap (y + 1)); lia.
  - rewrite <- march_length by lia. lia.
Qed.

Lemma valid_doy era y mp day :
  0 <= y < 400 → 0 <= mp <= 11 →
  let month := march_month mp in
  valid_date (y + era * 400 + (if month <=? 2 then 1 else 0)) month day →
  let doy := march_start mp + day - 1 in
  0 <= doy <= year_last y - year_start y ∧ (5 * doy + 2) / 153 = mp.
Proof.
  intros Hy Hmp month [_ Hday]. cbn zeta. rewrite year_length by done.
  assert (Hst : 0 <= march_start mp) by (unfold march_start; Z.div_mod_to_equations; lia).
  destruct (Z.eq_dec mp 11) as [->|Hne].
  - unfold month in *. change (march_month 11) with 2 in *.
    change (2 <=? 2) with true in Hday. unfold days_in_month in Hday.
    change (2 =? 2) with true in Hday. cbn iota in Hday.
    replace (y + era * 400 + 1) with ((y + 1) + era * 400) in Hday by lia.
    rewrite is_leap_era in Hday. change (march_start 11) with 337 in *.
    split; [destruct (is_leap (y + 1)); lia|].
    destruct (is_leap (y + 1)); apply march_month_unique; change (march_start 11) with 337; lia.
  - unfold month in Hday. rewrite <- march_length in Hday by lia.
    assert (Hend : march_start (mp + 1) <= 337) by (unfold march_start; Z.div_mod_to_equations; lia).
    split; [destruct (is_leap (y + 1)); lia|]. apply march_month_unique; lia.
Qed.

(** [days_from_civil] in terms of the March-based year. *)
Lemma days_from_civil_march era y mp day :
  0 <= y < 400 → 0 <= mp <= 11 →
  let month := march_month mp in
  days_from_civil (y + era * 400 + (if month <=? 2 then 1 else 0)) month day =
    era * 146097 + year_start y + (march_start mp + day - 1) - 719468.
Proof.
  intros Hy Hmp. cbn zeta. unfold days_from_civil. rewrite march_month_rem by done.
  fold (march_start mp).
  set (yy := if march_month mp <=? 2 then _ else _).
  assert (yy = y + era * 400) as -> by (unfold yy; destruct (march_month mp <=? 2); lia).
  replace ((y + era * 400) / 400) with era by (Z.div_mod_to_equations; lia).
  replace (y + era * 400 - era * 400) with y by lia. unfold year_start. lia.
Qed.

Lemma civil_from_days_march era y doy :
  0 <= y < 400 → 0 <= doy <= year_last y - year_start y →
  let mp := (5 * doy + 2) / 153 in
  let month := march_month mp in
  civil_from_days (era * 146097 + year_start y + doy - 719468) =
    (y + era * 400 + (if month <=? 2 then 1 else 0), month, doy - march_start mp + 1).
Proof.
  intros Hy Hd. cbn zeta. unfold civil_from_days.
  pose proof (year_last_bound y Hy) as Hl.
  assert (Hs : 0 <= year_start y) by (unfold year_start; Z.div_mod_to_equations; lia).
  replace (era * 146097 + year_start y + doy - 719468 + 719468)
    with (year_start y + doy + era * 146097) by lia.
  rewrite Z.div_add by lia. rewrite (Z.div_small (year_start y + doy)) by lia.
  rewrite Z.add_0_l.
  replace (year_start y + doy + era * 146097 - era * 146097) with (year_start y + doy) by lia.
  rewrite (yoe_unique y) by lia. fold (year_start y).
  replace (year_start y + doy - year_start y) with doy by lia. done.
Qed.

(** Every day number is a March-based year of an era and a day within it. *)
Lemma days_decompose z :
  ∃ era y doy, 0 <= y < 400 ∧ 0 <= doy <= year_last y - year_start y ∧
    z = era * 146097 + year_start y + doy - 719468.
Proof.
  exists ((z + 719468) / 146097). set (doe := (z + 719468) mod 146097).
  destruct (yoe_spec doe) as [Hy Hd].
  { pose proof (Z.mod_pos_bound (z + 719468) 146097). unfold doe. lia. }
  exists (yoe_of doe), (doe - year_start (yoe_of doe)). split_and!; [lia..|].
  pose proof (Z.div_mod (z + 719468) 146097 ltac:(lia)). unfold doe in *. lia.
Qed.

Lemma date_decompose year month day :
  valid_date year month day →
  ∃ era y mp, 0 <= y < 400 ∧ 0 <= mp <= 11 ∧ month = march_month mp ∧
    year = y + era * 400 + (if month <=? 2 then 1 else 0).
Proof.
  intros [Hm _]. destruct (march_month_inv month Hm) as [Hinv Hr].
  set (yy := if month <=? 2 then year - 1 else year).
  exists (yy / 400), (yy mod 400), (Z.rem (month + 9) 12).
  pose proof (Z.mod_pos_bound yy 400). pose proof (Z.div_mod yy 400 ltac:(lia)).
  split_and!; [lia..|done|]. unfold yy in *. destruct (month <=? 2); lia.
Qed.

(** The two conversions are inverse to one another on the whole calendar. *)
Lemma civil_days_inverse z :
  let '(year, month, day) := civil_from_days z in
  valid_date year month day ∧ days_from_civil year month day = z.
Proof.
  destruct (days_decompose z) as (era & y & doy & Hy & Hd & ->).
  rewrite civil_from_days_march by done. split; [by apply doy_valid|].
  rewrite days_from_civil_march; [lia|done|].
  apply (march_month_of_doy doy). rewrite year_length in Hd by done.
  destruct (is_leap (y + 1)); lia.
Qed.

Lemma days_civil_inverse year month day :
  valid_date year month day →
  civil_from_days (days_from_civil year month day) = (year, month, day).
Proof.
  intros Hv. destruct (date_decompose _ _ _ Hv) as (era & y & mp & Hy & Hmp & -> & ->).
  destruct (valid_doy era y mp day Hy Hmp Hv) as [Hd Hmp'].
  rewrite days_from_civil_march by done.
  rewrite civil_from_days_march by done. rewrite Hmp'. f_equal. lia.
Qed.

(** Within a month the day number counts the days. *)
Lemma days_from_civil_day year month day k :
  days_from_civil year month (day + k) = days_from_civil year month day + k.
Proof. unfold days_from_civil. lia. Qed.

Lemma days_in_month_range year month : 28 <= days_in_month year month <= 31.
Proof. unfold days_in_month. repeat case_match; lia. Qed.

Lemma days_from_civil_first era y :
  0 <= y < 400 → days_from_civil (y + era * 400) 3 1 = era * 146097 + year_start y - 719468.
Proof.
  intros Hy. pose proof (days_from_civil_march era y 0 1 Hy ltac:(lia)) as H. cbn zeta in H.
  change (march_month 0) with 3 in H. change (3 <=? 2) with false in H.
  change (march_start 0) with 0 in H. rewrite Z.add_0_r in H. lia.
Qed.

(** The first of the next month is the length of this one away. *)
Lemma days_next_month year month :
  1 <= month <= 12 →
  (if 12 <=? month then days_from_civil (year + 1) 1 1 else days_from_civil year (month + 1) 1)
    = days_from_civil year month 1 + days_in_month year month.
Proof.
  intros Hm.
  assert (Hv : valid_date year month 1).
  { split; [done|]. pose proof (days_in_month_range year month). lia. }
  destruct (date_decompose _ _ _ Hv) as (era & y & mp & Hy & Hmp & -> & ->).
  rewrite days_from_civil_march by done.
  destruct (Z.eq_dec mp 11) as [->|Hne].
  - change (march_month 11) with 2. change (12 <=? 2) with false. change (2 <=? 2) with true.
    cbn iota. unfold days_in_month. change (2 =? 2) with true. cbn iota.
    replace (y + era * 400 + 1) with ((y + 1) + era * 400) by lia. rewrite is_leap_era.
    pose proof (year_length y Hy) as Hlen. change (march_start 11) with 337.
    destruct (Z.eq_dec y 399) as [->|Hy399].
    + replace (399 + 1 + era * 400) with (0 + (era + 1) * 400) by lia.
      rewrite days_from_civil_first by lia. change (2 + 1) with 3.
      change (year_start 0) with 0. change (year_start 399) with 145731.
      change (is_leap (399 + 1)) with true. lia.
    + change (2 + 1) with 3. rewrite days_from_civil_first by lia.
      unfold year_last in Hlen. destruct (Z.eqb_spec y 399); [done|].
      destruct (is_leap (y + 1)); lia.
  - rewrite <- march_length by lia.
    assert (Hnext : (if 12 <=? march_month mp
      then days_from_civil (y + era * 400 + (if march_month mp <=? 2 then 1 else 0) + 1) 1 1
      else days_from_civil (y + era * 400 + (if march_month mp <=? 2 then 1 else 0))
             (march_month mp + 1) 1) =
      days_from_civil (y + era * 400 + (if march_month (mp + 1) <=? 2 then 1 else 0))
        (march_month (mp + 1)) 1).
    { unfold march_month. destruct (Z.ltb_spec mp 10), (Z.ltb_spec (mp + 1) 10); try lia;
        repeat match goal with |- context [?a <=? ?b] => destruct (Z.leb_spec a b) end;
        try lia; f_equal; lia. }
    rewrite Hnext, days_from_civil_march by lia. lia.
Qed.
