(* ===== verification/Cron.v ===== *)
(** * Cron expressions

    [src/crates/agora-sched/src/cron.rs]: parsing the five fields into bit
    masks, and the search for the next matching minute. *)

From Stdlib Require Import Ascii.
From S2P Require Import Prelude Strs Civil.

Local Open Scope Z_scope.

Definition HORIZON_MS : Z := 8 * 366 * DAY_MS.

Definition FIELDS_MSG : string :=
  "a cron expression has 5 fields: minute hour day-of-month month day-of-week".

Definition MONTH_NAMES : list (string * Z) :=
  [("jan", 1); ("feb", 2); ("mar", 3); ("apr", 4); ("may", 5); ("jun", 6);
   ("jul", 7); ("aug", 8); ("sep", 9); ("oct", 10); ("nov", 11); ("dec", 12)].

Definition DOW_NAMES : list (string * Z) :=
  [("sun", 0); ("mon", 1); ("tue", 2); ("wed", 3); ("thu", 4); ("fri", 5); ("sat", 6)].

Record Field : Type := mk_field {
  f_name : string;
  f_lo : Z;
  f_hi : Z;
  f_names : list (string * Z) }.

Definition MINUTE : Field := mk_field "minute" 0 59 [].
Definition HOUR : Field := mk_field "hour" 0 23 [].
Definition DOM : Field := mk_field "day-of-month" 1 31 [].
Definition MONTH : Field := mk_field "month" 1 12 MONTH_NAMES.
Definition DOW : Field := mk_field "day-of-week" 0 7 DOW_NAMES.

Record Cron : Type := mk_cron {
  c_minutes : Z;
  c_hours : Z;
  c_dom : Z;
  c_months : Z;
  c_dow : Z;
  c_dom_any : bool;
  c_dow_any : bool }.

(** ** Parsing *)

Definition field_err (field : Field) (msg : string) : string :=
  "cron " +:+ f_name field +:+ " field: " +:+ msg.

Definition parse_step (text : string) (field : Field) : result string Z :=
  match parse_digits u32_max text with
  | Some step =>
      if step =? 0 then Err (field_err field "step must be at least 1") else Ok step
  | None => Err (field_err field ("step '" +:+ text +:+ "' is not a number"))
  end.

Fixpoint find_name (text : string) (names : list (string * Z)) : option Z :=
  match names with
  | [] => None
  | (name, value) :: rest => if String.eqb name text then Some value else find_name text rest
  end.

Definition parse_value (text : string) (field : Field) : result string Z :=
  if all_digits text then
    ok_or (v ← parse_digits u32_max text;
           if (f_lo field <=? v) && (v <=? f_hi field) then Some v else None)
      (field_err field (text +:+ " is out of range " +:+ dec (f_lo field) +:+ "-"
                        +:+ dec (f_hi field)))
  else ok_or (find_name text (f_names field))
         (field_err field ("'" +:+ text +:+ "' is not a valid value")).

(** [while value <= hi { mask |= 1 << value; value = value.saturating_add(step) }];
    at most [hi - lo + 1] rounds, as [step] is at least 1. *)
Fixpoint set_range (fuel : nat) (value hi step mask : Z) : Z :=
  match fuel with
  | O => mask
  | S f =>
      if value <=? hi then
        set_range f (Z.min u32_max (value + step)) hi step (Z.lor mask (Z.shiftl 1 value))
      else mask
  end.

(** The values one list item names: from, to and step. *)
Definition parse_item (text item : string) (field : Field) : result string (Z * Z * Z) :=
  if is_empty_str item then
    Err (field_err field ("empty list item in '" +:+ text +:+ "'"))
  else
    rs ← match split_once "/" item with
         | Some (range, step) => step ← parse_step step field; Ok (range, Some step)
         | None => Ok (item, None)
         end;
    let '(range, step) := rs in
    lh ← (if String.eqb range "*" then Ok (f_lo field, f_hi field)
          else match split_once "-" range with
               | Some (from, to) =>
                   from ← parse_value from field;
                   to ← parse_value to field;
                   if to <? from then
                     Err (field_err field ("range " +:+ dec from +:+ "-" +:+ dec to
                                           +:+ " is backwards"))
                   else Ok (from, to)
               | None =>
                   from ← parse_value range field;
                   Ok (from, match step with Some _ => f_hi field | None => from end)
               end);
    Ok (fst lh, snd lh, default 1 step).

Fixpoint parse_items (text : string) (items : list string) (field : Field) (mask : Z) :
    result string Z :=
  match items with
  | [] => Ok mask
  | item :: rest =>
      r ← parse_item text item field;
      let '(lo, hi, step) := r in
      parse_items text rest field (set_range (Z.to_nat (hi - lo + 1)) lo hi step mask)
  end.

Definition parse_field (text : string) (field : Field) : result string Z :=
  let text := to_ascii_lowercase text in
  parse_items text (split_byte "," text) field 0.

(** [T::try_from(bits).unwrap_or_default()] for a type of [w] bits. *)
Definition narrow (w bits : Z) : Z := if bits <? 2 ^ w then bits else 0.

Definition Cron_parse (expr : string) : result string Cron :=
  match split_whitespace expr with
  | [minute; hour; dom; month; dow] =>
      minutes ← parse_field minute MINUTE;
      hours ← parse_field hour HOUR;
      dom_bits ← parse_field dom DOM;
      months ← parse_field month MONTH;
      dow_bits ← parse_field dow DOW;
      let dow_bits := Z.land (Z.lor dow_bits (Z.shiftr dow_bits 7)) 127 in
      Ok (mk_cron minutes (narrow 32 hours) (narrow 32 dom_bits) (narrow 16 months)
            (narrow 8 dow_bits) (starts_with "*" dom) (starts_with "*" dow))
  | _ => Err FIELDS_MSG
  end.

(** ** Search *)

Definition day_matches (c : Cron) (day weekday : Z) : bool :=
  let dom_ok := Z.testbit (c_dom c) day in
  let dow_ok := Z.testbit (c_dow c) weekday in
  if c_dom_any c || c_dow_any c then dom_ok && dow_ok else dom_ok || dow_ok.

Fixpoint trailing_zeros (p : positive) : Z :=
  match p with xO p' => 1 + trailing_zeros p' | _ => 0 end.

Definition next_set (mask from : Z) : option Z :=
  match Z.shiftr mask from with
  | Zpos rest => Some (from + trailing_zeros rest)
  | _ => None
  end.

Definition next_month_start (year month : Z) : option Z :=
  let days := if 12 <=? month then days_from_civil (year + 1) 1 1
              else days_from_civil year (month + 1) 1 in
  checked_i64 (days * DAY_MS).

(** One round of the [while] loop: a match, or where to go on ([None] on
    overflow). *)
Inductive advance_result : Type :=
| Found
| Jump (t : option Z).

Definition advance (c : Cron) (t : Z) : advance_result :=
  let '(year, month, day, hour, minute, weekday) := civil_from_ms t in
  let in_day := t mod DAY_MS in
  let in_hour := minute * MIN_MS in
  if negb (Z.testbit (c_months c) month) then Jump (next_month_start year month)
  else if negb (day_matches c day weekday) then Jump (checked_i64 (t + (DAY_MS - in_day)))
  else if negb (Z.testbit (c_hours c) hour) then
    Jump (match next_set (c_hours c) hour with
          | Some next => checked_i64 (t + ((next - hour) * HOUR_MS - in_hour))
          | None => checked_i64 (t + (DAY_MS - in_day))
          end)
  else if negb (Z.testbit (c_minutes c) minute) then
    Jump (match next_set (c_minutes c) minute with
          | Some next => checked_i64 (t + (next - minute) * MIN_MS)
          | None => checked_i64 (t + (HOUR_MS - in_hour))
          end)
  else Found.

Fixpoint next_loop (fuel : nat) (c : Cron) (horizon t : Z) : option Z :=
  match fuel with
  | O => None
  | S f =>
      if t <=? horizon then
        match advance c t with
        | Found => Some t
        | Jump o => t' ← o; next_loop f c horizon t'
        end
      else None
  end.

(** One round per minute of the horizon, which no search exceeds. *)
Definition search_fuel : nat := Z.to_nat (HORIZON_MS / MIN_MS + 2).

Definition next_after (c : Cron) (after_ms : Z) : option Z :=
  t ← checked_i64 (after_ms + (MIN_MS - after_ms mod MIN_MS));
  let horizon := default i64_max (checked_i64 (t + HORIZON_MS)) in
  next_loop search_fuel c horizon t.

(** ** Specification *)

(** The minute that starts at [t] is one the expression names. *)
Definition cron_matches (c : Cron) (t : Z) : bool :=
  let '(_, month, day, hour, minute, weekday) := civil_from_ms t in
  Z.testbit (c_months c) month && day_matches c day weekday
  && Z.testbit (c_hours c) hour && Z.testbit (c_minutes c) minute.

(** Bits only where the fields have values. *)
Record cron_ok (c : Cron) : Prop := {
  cok_minutes : 0 <= c_minutes c < 2 ^ 60;
  cok_hours : 0 <= c_hours c < 2 ^ 24 }.

Lemma trailing_zeros_spec p :
  0 <= trailing_zeros p ∧ Z.testbit (Zpos p) (trailing_zeros p) = true ∧
  ∀ i, 0 <= i < trailing_zeros p → Z.testbit (Zpos p) i = false.
Proof.
  induction p as [p IH|p IH|]; cbn [trailing_zeros]; [split_and!; [done..|lia]| |].
  - destruct IH as (H0 & H1 & H2). split_and!; [lia| |].
    + rewrite Z.add_1_l, (Pos2Z.inj_xO p), Z.testbit_even_succ by lia. done.
    + intros i Hi. destruct (Z.eq_dec i 0) as [->|Hne]; [done|].
      replace i with (Z.succ (i - 1)) by lia.
      rewrite (Pos2Z.inj_xO p), Z.testbit_even_succ by lia. apply H2. lia.
  - split_and!; [done..|lia].
Qed.

Lemma next_set_spec mask from :
  0 <= mask → 0 <= from →
  match next_set mask from with
  | Some n => from <= n ∧ Z.testbit mask n = true ∧
              ∀ i, from <= i < n → Z.testbit mask i = false
  | None => ∀ i, from <= i → Z.testbit mask i = false
  end.
Proof.
  intros Hm Hf. unfold next_set.
  assert (Hbit : ∀ i, from <= i → Z.testbit mask i = Z.testbit (Z.shiftr mask from) (i - from)).
  { intros i Hi. rewrite Z.shiftr_spec by lia. f_equal. lia. }
  destruct (Z.shiftr mask from) as [|p|p] eqn:E.
  - intros i Hi. rewrite Hbit by done. apply Z.testbit_0_l.
  - destruct (trailing_zeros_spec p) as (H0 & H1 & H2). split_and!; [lia| |].
    + rewrite Hbit by lia. by replace (from + trailing_zeros p - from) with (trailing_zeros p) by lia.
    + intros i Hi. rewrite Hbit by lia. apply H2. lia.
  - exfalso. assert (0 <= Z.shiftr mask from) by (by apply Z.shiftr_nonneg). lia.
Qed.

Lemma testbit_below mask w n : 0 <= mask < 2 ^ w → 0 <= n → Z.testbit mask n = true → n < w.
Proof.
  intros Hm Hn Hb. apply Z.nle_gt. intros Hle.
  assert (0 < mask).
  { destruct (Z.eq_dec mask 0) as [->|]; [by rewrite Z.testbit_0_l in Hb|lia]. }
  rewrite Z.bits_above_log2 in Hb; [done|lia|].
  apply Z.log2_lt_pow2; [done|]. eapply Z.lt_le_trans; [apply Hm|].
  destruct (Z.le_gt_cases 0 w); [by apply Z.pow_le_mono_r|]. rewrite Z.pow_neg_r in Hm by lia. lia.
Qed.

(** ** The search never skips a match *)

(** No minute from [a] on and before [b] matches. *)
Definition no_match (c : Cron) (a b : Z) : Prop :=
  ∀ u, a <= u < b → u mod MIN_MS = 0 → cron_matches c u = false.

(** [cron_matches] and [advance] in terms of the day and the minute of it. *)
Lemma civil_from_ms_eq t :
  civil_from_ms t =
    (fst (fst (civil_from_days (t / DAY_MS))), snd (fst (civil_from_days (t / DAY_MS))),
     snd (civil_from_days (t / DAY_MS)), t mod DAY_MS / HOUR_MS,
     (t mod DAY_MS) mod HOUR_MS / MIN_MS, (t / DAY_MS + 4) mod 7).
Proof. unfold civil_from_ms. by destruct (civil_from_days (t / DAY_MS)) as [[y m] d]. Qed.

Lemma no_match_month c t year month day :
  civil_from_days (t / DAY_MS) = (year, month, day) →
  Z.testbit (c_months c) month = false →
  no_match c t ((days_from_civil year month 1 + days_in_month year month) * DAY_MS) ∧
  t < (days_from_civil year month 1 + days_in_month year month) * DAY_MS.
Proof.
  intros Hc Hbit. pose proof (civil_days_inverse (t / DAY_MS)) as Hinv. rewrite Hc in Hinv.
  destruct Hinv as [[Hm Hd] Hz].
  assert (Hfirst : days_from_civil year month 1 = t / DAY_MS - (day - 1)).
  { rewrite <- Hz. replace day with (1 + (day - 1)) at 1 by lia.
    rewrite days_from_civil_day. lia. }
  split.
  - intros u Hu _. unfold cron_matches. rewrite civil_from_ms_eq.
    assert (Hzu : t / DAY_MS <= u / DAY_MS <
      days_from_civil year month 1 + days_in_month year month).
    { split; [apply Z.div_le_mono; unfold DAY_MS; lia|].
      apply Z.div_lt_upper_bound; [unfold DAY_MS; lia|]. lia. }
    assert (Hcu : civil_from_days (u / DAY_MS) = (year, month, day + (u / DAY_MS - t / DAY_MS))).
    { rewrite <- (days_civil_inverse year month (day + (u / DAY_MS - t / DAY_MS))).
      - rewrite days_from_civil_day, Hz. f_equal. lia.
      - split; [done|]. lia. }
    rewrite Hcu. cbn [fst snd]. by rewrite Hbit.
  - assert (Hlt : t / DAY_MS < days_from_civil year month 1 + days_in_month year month) by lia.
    unfold DAY_MS in *. Z.div_mod_to_equations. lia.
Qed.

(** Same day, and a condition on the minute of the day. *)
Lemma no_match_in_day c t b :
  b <= t + (DAY_MS - t mod DAY_MS) →
  (∀ u, t <= u < b → u mod MIN_MS = 0 → u / DAY_MS = t / DAY_MS →
     day_matches c (snd (civil_from_days (t / DAY_MS))) ((t / DAY_MS + 4) mod 7)
     && Z.testbit (c_hours c) (u mod DAY_MS / HOUR_MS)
     && Z.testbit (c_minutes c) ((u mod DAY_MS) mod HOUR_MS / MIN_MS) = false) →
  no_match c t b.
Proof.
  intros Hb Hu u Hr Hmin.
  assert (Hday : u / DAY_MS = t / DAY_MS) by (unfold DAY_MS in *; Z.div_mod_to_equations; lia).
  specialize (Hu u Hr Hmin Hday). unfold cron_matches. rewrite civil_from_ms_eq, Hday.
  destruct (Z.testbit (c_months c) _); [|done]. exact Hu.
Qed.

(** A minute boundary is a day, an hour and a minute. *)
Lemma minute_boundary t :
  t mod MIN_MS = 0 →
  let hour := t mod DAY_MS / HOUR_MS in
  let minute := (t mod DAY_MS) mod HOUR_MS / MIN_MS in
  0 <= hour < 24 ∧ 0 <= minute < 60 ∧
  t = t / DAY_MS * DAY_MS + hour * HOUR_MS + minute * MIN_MS.
Proof.
  intros Ht hour minute.
  pose proof (Z.mod_pos_bound t DAY_MS ltac:(done)) as Hd.
  pose proof (Z.mod_pos_bound (t mod DAY_MS) HOUR_MS ltac:(done)) as Hh.
  pose proof (Z.div_mod t DAY_MS ltac:(done)) as Ed.
  pose proof (Z.div_mod (t mod DAY_MS) HOUR_MS ltac:(done)) as Eh.
  pose proof (Z.div_mod ((t mod DAY_MS) mod HOUR_MS) MIN_MS ltac:(done)) as Em.
  assert (Hz : ((t mod DAY_MS) mod HOUR_MS) mod MIN_MS = 0).
  { rewrite <- (Znumtheory.Zmod_div_mod MIN_MS HOUR_MS) by (done || by exists 60).
    by rewrite <- (Znumtheory.Zmod_div_mod MIN_MS DAY_MS) by (done || by exists 1440). }
  fold hour in Eh. fold minute in Em. unfold DAY_MS, HOUR_MS, MIN_MS in *. lia.
Qed.

(** The reading of a clock time within a day. *)
Lemma clock_reading day x :
  0 <= x < DAY_MS →
  (day * DAY_MS + x) / DAY_MS = day ∧ (day * DAY_MS + x) mod DAY_MS = x.
Proof.
  intros Hx. rewrite Z.add_comm. split.
  - rewrite Z.div_add by done. by rewrite Z.div_small.
  - rewrite Z_mod_plus_full. by apply Z.mod_small.
Qed.

Lemma mod_min_hours k : (k * HOUR_MS) mod MIN_MS = 0.
Proof. change HOUR_MS with (60 * MIN_MS). rewrite Z.mul_assoc. by apply Z_mod_mult. Qed.

Section jumps.
Context (c : Cron) (t : Z) (Ht : t mod MIN_MS = 0).

Notation day := (t / DAY_MS).
Notation hour := (t mod DAY_MS / HOUR_MS).
Notation minute := ((t mod DAY_MS) mod HOUR_MS / MIN_MS).

(** Hours [hour .. next) of the day are skipped. *)
Lemma jump_hours next :
  hour < next <= 24 →
  (∀ i, hour <= i < next → Z.testbit (c_hours c) i = false) →
  let t' := t + ((next - hour) * HOUR_MS - minute * MIN_MS) in
  t < t' ∧ t' mod MIN_MS = 0 ∧ no_match c t t'.
Proof.
  intros Hn Hbits. destruct (minute_boundary t Ht) as (Hh & Hm & Et). cbn zeta in *.
  set (h := hour) in *. set (m := minute) in *. set (d := day) in *.
  assert (Et' : t + ((next - h) * HOUR_MS - m * MIN_MS) = d * DAY_MS + next * HOUR_MS) by lia.
  rewrite Et'. split_and!.
  - unfold HOUR_MS, MIN_MS in *. lia.
  - replace (d * DAY_MS + next * HOUR_MS) with ((d * 24 + next) * HOUR_MS)
      by (unfold DAY_MS, HOUR_MS; lia). apply mod_min_hours.
  - assert (Hx : t = d * DAY_MS + (h * HOUR_MS + m * MIN_MS)) by lia.
    assert (Hxr : 0 <= h * HOUR_MS + m * MIN_MS < DAY_MS)
      by (unfold DAY_MS, HOUR_MS, MIN_MS in *; lia).
    apply no_match_in_day.
    { rewrite Hx at 2. rewrite (proj2 (clock_reading d _ Hxr)).
      unfold DAY_MS, HOUR_MS, MIN_MS in *. lia. }
    intros u Hu _ Hud. pose proof (Z.div_mod u DAY_MS ltac:(done)) as Eu. rewrite Hud in Eu.
    fold d in Eu. rewrite (Hbits (u mod DAY_MS / HOUR_MS)); [by rewrite andb_false_r|].
    split.
    + apply Z.div_le_lower_bound; [done|]. unfold DAY_MS, HOUR_MS, MIN_MS in *. lia.
    + apply Z.div_lt_upper_bound; [done|]. unfold DAY_MS, HOUR_MS, MIN_MS in *. lia.
Qed.

(** Minutes [minute .. next) of the hour are skipped. *)
Lemma jump_minutes next :
  minute < next <= 60 →
  (∀ i, minute <= i < next → Z.testbit (c_minutes c) i = false) →
  let t' := t + (next - minute) * MIN_MS in
  t < t' ∧ t' mod MIN_MS = 0 ∧ no_match c t t'.
Proof.
  intros Hn Hbits. destruct (minute_boundary t Ht) as (Hh & Hm & Et). cbn zeta in *.
  set (h := hour) in *. set (m := minute) in *. set (d := day) in *.
  split_and!.
  - unfold MIN_MS in *. lia.
  - rewrite Z_mod_plus_full. done.
  - assert (Hx : t = d * DAY_MS + (h * HOUR_MS + m * MIN_MS)) by lia.
    assert (Hxr : 0 <= h * HOUR_MS + m * MIN_MS < DAY_MS)
      by (unfold DAY_MS, HOUR_MS, MIN_MS in *; lia).
    apply no_match_in_day.
    { rewrite Hx at 3. rewrite (proj2 (clock_reading d _ Hxr)).
      unfold DAY_MS, HOUR_MS, MIN_MS in *. lia. }
    intros u Hu _ Hud. pose proof (Z.div_mod u DAY_MS ltac:(done)) as Eu. rewrite Hud in Eu.
    fold d in Eu.
    assert (Huh : u mod DAY_MS = h * HOUR_MS + (u mod DAY_MS - h * HOUR_MS)) by lia.
    assert (Hur : 0 <= u mod DAY_MS - h * HOUR_MS < HOUR_MS)
      by (unfold DAY_MS, HOUR_MS, MIN_MS in *; lia).
    assert (Hmod : (u mod DAY_MS) mod HOUR_MS = u mod DAY_MS - h * HOUR_MS).
    { rewrite Huh at 1. rewrite Z.add_comm, Z_mod_plus_full. by apply Z.mod_small. }
    rewrite (Hbits ((u mod DAY_MS) mod HOUR_MS / MIN_MS)); [by rewrite andb_false_r|].
    rewrite Hmod. split.
    + apply Z.div_le_lower_bound; [done|]. unfold DAY_MS, HOUR_MS, MIN_MS in *. lia.
    + apply Z.div_lt_upper_bound; [done|]. unfold DAY_MS, HOUR_MS, MIN_MS in *. lia.
Qed.

(** The distances to midnight and to the next hour. *)
Lemma to_midnight : DAY_MS - t mod DAY_MS = (24 - hour) * HOUR_MS - minute * MIN_MS.
Proof.
  destruct (minute_boundary t Ht) as (_ & _ & Et). cbn zeta in *.
  pose proof (Z.div_mod t DAY_MS ltac:(done)). unfold DAY_MS, HOUR_MS, MIN_MS in *. lia.
Qed.

Lemma to_midnight_later :
  let t' := t + ((24 - hour) * HOUR_MS - minute * MIN_MS) in
  t < t' ∧ t' mod MIN_MS = 0.
Proof.
  destruct (minute_boundary t Ht) as (Hh & Hm & Et). cbn zeta in *.
  set (h := hour) in *. set (m := minute) in *. set (d := day) in *. split.
  - unfold HOUR_MS, MIN_MS in *. lia.
  - replace (t + ((24 - h) * HOUR_MS - m * MIN_MS)) with ((d * 24 + 24) * HOUR_MS)
      by (unfold DAY_MS, HOUR_MS, MIN_MS in *; lia). apply mod_min_hours.
Qed.
End jumps.

(** What a round of the loop does: it stands on a match, or every minute up to
    its target fails to match. *)
Lemma advance_spec c t :
  cron_ok c → t mod MIN_MS = 0 →
  match advance c t with
  | Found => cron_matches c t = true
  | Jump o => ∃ t', o = checked_i64 t' ∧ t < t' ∧ t' mod MIN_MS = 0 ∧ no_match c t t'
  end.
Proof.
  intros [Hmin Hhr] Ht. unfold advance. rewrite civil_from_ms_eq.
  destruct (minute_boundary t Ht) as (Hhour & Hminute & _). cbn zeta in *.
  destruct (civil_from_days (t / DAY_MS)) as [[year month] day] eqn:Hc. cbn [fst snd].
  rewrite (to_midnight t Ht).
  pose proof (λ next, jump_hours c t Ht next) as Jh.
  pose proof (λ next, jump_minutes c t Ht next) as Jm. cbn zeta in Jh, Jm.
  set (hour := t mod DAY_MS / HOUR_MS) in *.
  set (minute := (t mod DAY_MS) mod HOUR_MS / MIN_MS) in *.
  destruct (Z.testbit (c_months c) month) eqn:Emonth; cbn [negb].
  2: { destruct (no_match_month c t year month day Hc Emonth) as [Hno Hlt].
       assert (Hmo : 1 <= month <= 12).
       { pose proof (civil_days_inverse (t / DAY_MS)) as Hinv. rewrite Hc in Hinv. apply Hinv. }
       eexists. split; [unfold next_month_start; by rewrite days_next_month|].
       split_and!; [done| |done]. change DAY_MS with (24 * HOUR_MS) at 1.
       rewrite Z.mul_assoc. apply mod_min_hours. }
  destruct (day_matches c day ((t / DAY_MS + 4) mod 7)) eqn:Eday; cbn [negb].
  2: { eexists. split; [done|]. destruct (to_midnight_later t Ht) as [H1 H2]. cbn zeta in *.
       fold hour minute in H1, H2. split_and!; [done..|].
       apply no_match_in_day; [rewrite (to_midnight t Ht); fold hour minute; lia|].
       intros u _ _ _. rewrite Hc. cbn [snd]. by rewrite Eday. }
  destruct (Z.testbit (c_hours c) hour) eqn:Ehour; cbn [negb].
  2: { pose proof (next_set_spec (c_hours c) hour ltac:(lia) ltac:(lia)) as Hn.
       destruct (next_set (c_hours c) hour) as [next|].
       - destruct Hn as (Hle & Hb & Hskip). eexists. split; [done|]. apply Jh; [|done].
         pose proof (testbit_below (c_hours c) 24 next Hhr ltac:(lia) Hb).
         destruct (Z.eq_dec next hour); [congruence|]. lia.
       - eexists. split; [done|]. apply Jh; [lia|]. intros i Hi. apply Hn. lia. }
  destruct (Z.testbit (c_minutes c) minute) eqn:Eminute; cbn [negb].
  2: { pose proof (next_set_spec (c_minutes c) minute ltac:(lia) ltac:(lia)) as Hn.
       destruct (next_set (c_minutes c) minute) as [next|].
       - destruct Hn as (Hle & Hb & Hskip). eexists. split; [done|]. apply Jm; [|done].
         pose proof (testbit_below (c_minutes c) 60 next Hmin ltac:(lia) Hb).
         destruct (Z.eq_dec next minute); [congruence|]. lia.
       - exists (t + (60 - minute) * MIN_MS). split; [f_equal; unfold HOUR_MS, MIN_MS; lia|].
         apply Jm; [lia|]. intros i Hi. apply Hn. lia. }
  unfold cron_matches. rewrite civil_from_ms_eq, Hc. cbn [fst snd].
  fold hour minute. by rewrite Emonth, Eday, Ehour, Eminute.
Qed.

Lemma no_match_app c a b d : no_match c a b → no_match c b d → no_match c a d.
Proof. intros H1 H2 u Hu Hm. destruct (Z.lt_ge_cases u b); [apply H1|apply H2]; done || lia. Qed.

Lemma no_match_sub c a b b' : no_match c a b → b' <= b → no_match c a b'.
Proof. intros H Hb u Hu. apply H. lia. Qed.

Lemma next_loop_spec c fuel horizon t0 t :
  cron_ok c → horizon <= i64_max → i64_min <= t → t mod MIN_MS = 0 → no_match c t0 t → t0 <= t →
  horizon - t < Z.of_nat fuel * MIN_MS →
  match next_loop fuel c horizon t with
  | Some r => t <= r <= horizon ∧ r mod MIN_MS = 0 ∧ cron_matches c r = true ∧ no_match c t0 r
  | None => no_match c t0 (horizon + 1)
  end.
Proof.
  intros Hok Hh. revert t. induction fuel as [|f IH]; intros t Hlo Ht Hno Ht0 Hf; cbn [next_loop].
  { eapply no_match_sub; [exact Hno|]. lia. }
  destruct (Z.leb_spec t horizon) as [Hle|Hgt]; [|eapply no_match_sub; [exact Hno|lia]].
  pose proof (advance_spec c t Hok Ht) as Ha. destruct (advance c t) as [|o].
  { split_and!; [lia..|done|done|done]. }
  destruct Ha as (t' & -> & Hlt & Ht' & Hno').
  pose proof (no_match_app _ _ _ _ Hno Hno') as Hno2.
  destruct (checked_i64 t') as [t''|] eqn:E; cbn [mbind option_bind].
  - apply checked_i64_Some in E as [-> _].
    assert (Hstep : t + MIN_MS <= t').
    { pose proof (Z.div_mod t MIN_MS ltac:(done)). pose proof (Z.div_mod t' MIN_MS ltac:(done)).
      unfold MIN_MS in *. lia. }
    assert (Hf' : horizon - t' < Z.of_nat f * MIN_MS).
    { rewrite Nat2Z.inj_succ in Hf. unfold MIN_MS in *. lia. }
    specialize (IH t' ltac:(lia) Ht' Hno2 ltac:(lia) Hf').
    destruct (next_loop f c horizon t'); [|exact IH].
    destruct IH as (? & ? & ? & ?). split_and!; done || lia.
  - apply checked_i64_None in E. eapply no_match_sub; [exact Hno2|]. lia.
Qed.

(** The first minute boundary after an instant. *)
Lemma first_boundary a :
  let t := a + (MIN_MS - a mod MIN_MS) in
  a < t ∧ t mod MIN_MS = 0 ∧ ∀ u, a < u → u mod MIN_MS = 0 → t <= u.
Proof.
  cbn zeta. unfold MIN_MS. split_and!; intros; Z.div_mod_to_equations; lia.
Qed.

Lemma search_fuel_enough : Z.of_nat search_fuel = 4216322.
Proof. unfold search_fuel. rewrite Z2Nat.id; done. Qed.

Lemma next_after_spec c a :
  cron_ok c → i64_min <= a <= i64_max →
  match next_after c a with
  | Some r => a < r <= i64_max ∧ r mod MIN_MS = 0 ∧ cron_matches c r = true ∧
      ∀ u, a < u < r → u mod MIN_MS = 0 → cron_matches c u = false
  | None => ∀ u, a < u <= a + HORIZON_MS → u <= i64_max → u mod MIN_MS = 0 →
      cron_matches c u = false
  end.
Proof.
  intros Hok Ha. unfold next_after. destruct (first_boundary a) as (H1 & H2 & H3). cbn zeta in *.
  set (t := a + (MIN_MS - a mod MIN_MS)) in *.
  destruct (checked_i64 t) as [t1|] eqn:E; cbn [mbind option_bind].
  2: { apply checked_i64_None in E. intros u Hu Hmax Hm. specialize (H3 u ltac:(lia) Hm). lia. }
  apply checked_i64_Some in E as [-> Hr].
  set (horizon := default i64_max (checked_i64 (t + HORIZON_MS))).
  assert (Hh : horizon <= i64_max ∧ horizon <= t + HORIZON_MS ∧
    (i64_max <= horizon ∨ horizon = t + HORIZON_MS)).
  { unfold horizon. destruct (checked_i64 (t + HORIZON_MS)) eqn:Eh; cbn.
    - apply checked_i64_Some in Eh as [-> ?]. lia.
    - apply checked_i64_None in Eh. unfold HORIZON_MS, DAY_MS in *. lia. }
  pose proof (next_loop_spec c search_fuel horizon t t Hok) as Hl.
  rewrite search_fuel_enough in Hl.
  specialize (Hl ltac:(lia) ltac:(lia) H2 ltac:(intros u Hu; lia) ltac:(lia)).
  specialize (Hl ltac:(unfold HORIZON_MS, DAY_MS, MIN_MS in *; lia)).
  destruct (next_loop search_fuel c horizon t) as [r|].
  - destruct Hl as (? & ? & ? & Hno). split_and!; [lia..|done|done|]. intros u Hu Hm.
    apply Hno; [|done]. split; [apply H3; [lia|done]|lia].
  - intros u Hu Hmax Hm. apply Hl; [|done]. specialize (H3 u ltac:(lia) Hm). lia.
Qed.

(** C39: [next_after] is exact. What it returns is a minute boundary strictly
    after the given instant that the expression names, with no such minute in
    between; and when it returns nothing, no minute of the next eight years
    (or of what is left of the 64-bit range) is one the expression names. *)
Theorem next_after_exact c a :
  cron_ok c → i64_min <= a <= i64_max →
  (∀ r, next_after c a = Some r →
     a < r <= i64_max ∧ r mod MIN_MS = 0 ∧ cron_matches c r = true ∧
     ∀ u, a < u < r → u mod MIN_MS = 0 → cron_matches c u = false) ∧
  (next_after c a = None →
     ∀ u, a < u <= a + HORIZON_MS → u <= i64_max → u mod MIN_MS = 0 →
       cron_matches c u = false).
Proof.
  intros Hok Ha. pose proof (next_after_spec c a Hok Ha) as H. split.
  - intros r Hr. by rewrite Hr in H.
  - intros Hn. by rewrite Hn in H.
Qed.

(** Half past eight on Mondays, from 2026-01-01: the fifth of January. *)
Definition monday_cron : Cron := mk_cron (2 ^ 30) (2 ^ 8) (2 ^ 32 - 2) (2 ^ 13 - 2) 2 true false.

Lemma next_after_exact_witness :
  Cron_parse "30 8 * * mon" = Ok monday_cron ∧
  next_after monday_cron (ms_from_civil 2026 1 1 0 0) = Some (ms_from_civil 2026 1 5 8 30) ∧
  ∀ u, ms_from_civil 2026 1 1 0 0 < u < ms_from_civil 2026 1 5 8 30 → u mod MIN_MS = 0 →
    cron_matches monday_cron u = false.
Proof.
  split; [by vm_compute|].
  assert (Hok : cron_ok monday_cron) by (split; cbn [c_minutes c_hours monday_cron]; lia).
  assert (Hr : i64_min <= ms_from_civil 2026 1 1 0 0 <= i64_max) by (by vm_compute).
  assert (H : next_after monday_cron (ms_from_civil 2026 1 1 0 0)
    = Some (ms_from_civil 2026 1 5 8 30)) by (by vm_compute).
  split; [exact H|].
  destruct (next_after_exact monday_cron (ms_from_civil 2026 1 1 0 0) Hok Hr) as [Hs _].
  destruct (Hs _ H) as (_ & _ & _ & Hn). exact Hn.
Defined.

(** ** Parsed expressions are well formed *)

(** A non-empty set of values between [lo] and [hi]. *)
Definition mask_in (lo hi mask : Z) : Prop :=
  0 < mask ∧ ∀ v, 0 <= v → Z.testbit mask v = true → lo <= v <= hi.

Record cron_wf (c : Cron) : Prop := {
  cwf_minutes : mask_in 0 59 (c_minutes c);
  cwf_hours : mask_in 0 23 (c_hours c);
  cwf_dom : mask_in 1 31 (c_dom c);
  cwf_months : mask_in 1 12 (c_months c);
  cwf_dow : mask_in 0 6 (c_dow c) }.

Lemma mask_in_bound lo hi mask : 0 <= hi → mask_in lo hi mask → 0 <= mask < 2 ^ (hi + 1).
Proof.
  intros Hhi [Hpos Hb]. split; [lia|]. apply Z.nle_gt. intros Hge.
  assert (Hlog : hi + 1 <= Z.log2 mask) by (by apply Z.log2_le_pow2).
  pose proof (Hb (Z.log2 mask) ltac:(lia) (Z.bit_log2 mask Hpos)). lia.
Qed.

Lemma cron_wf_ok c : cron_wf c → cron_ok c.
Proof.
  intros [Hm Hh _ _ _]. apply mask_in_bound in Hm, Hh; [|lia..]. by split.
Qed.

(** The values a step visits. *)
Definition covers (lo hi step v : Z) : Prop := lo <= v <= hi ∧ (v - lo) mod step = 0.

Lemma covers_step lo hi step v :
  0 < step → v ≠ lo → covers lo hi step v ↔ covers (lo + step) hi step v.
Proof.
  intros Hs Hne. unfold covers. replace (v - (lo + step)) with (v - lo + -1 * step) by lia.
  rewrite Z_mod_plus_full. split; intros [Hr Hm]; (split; [|done]); [|lia].
  apply Z.mod_divide in Hm as [k Hk]; [|lia]. assert (0 < k) by nia. nia.
Qed.

Lemma set_range_bits fuel lo hi step mask v :
  0 <= lo → 0 < step → hi < 64 → step <= u32_max → hi - lo < Z.of_nat fuel → 0 <= v →
  Z.testbit (set_range fuel lo hi step mask) v = true ↔
    Z.testbit mask v = true ∨ covers lo hi step v.
Proof.
  intros Hlo Hs Hhi Hsm Hf Hv. revert lo mask Hlo Hf.
  induction fuel as [|f IH]; intros lo mask Hlo Hf; cbn [set_range].
  { unfold covers. split; [auto|]. intros [?|[? _]]; [done|lia]. }
  destruct (Z.leb_spec lo hi) as [Hle|Hgt].
  2: { unfold covers. split; [auto|]. intros [?|[? _]]; [done|lia]. }
  assert (Z.min u32_max (lo + step) = lo + step ∨ hi < Z.min u32_max (lo + step)) as Hmin
    by (unfold u32_max in *; lia).
  assert (Hbit : Z.testbit (Z.lor mask (Z.shiftl 1 lo)) v = true ↔
    Z.testbit mask v = true ∨ v = lo).
  { rewrite Z.lor_spec, orb_true_iff, Z.shiftl_spec by done.
    destruct (Z.eq_dec v lo) as [->|Hne]; [rewrite Z.sub_diag; naive_solver|].
    destruct (Z.lt_ge_cases v lo).
    - rewrite (Z.testbit_neg_r 1 (v - lo)) by lia. naive_solver.
    - rewrite (Z.bits_above_log2 1 (v - lo)) by (cbn; lia). naive_solver. }
  rewrite IH by (unfold u32_max in *; lia). rewrite Hbit.
  destruct (Z.eq_dec v lo) as [->|Hne].
  { split; [intros _; right|auto]. unfold covers. rewrite Z.sub_diag, Z.mod_0_l by lia. lia. }
  rewrite (covers_step lo) by done. destruct Hmin as [->|Hbig]; [naive_solver|].
  assert (¬ covers (Z.min u32_max (lo + step)) hi step v) by (unfold covers; lia).
  assert (¬ covers (lo + step) hi step v) by (unfold covers; lia). naive_solver.
Qed.

Definition field_ok (field : Field) : Prop :=
  0 <= f_lo field <= f_hi field ∧ f_hi field < 60 ∧
  Forall (λ nv, f_lo field <= nv.2 <= f_hi field) (f_names field).

Lemma fields_ok : Forall field_ok [MINUTE; HOUR; DOM; MONTH; DOW].
Proof. repeat constructor; cbn; lia. Qed.

Lemma digits_val_nonneg acc s : 0 <= acc → str_all is_ascii_digit s = true → 0 <= digits_val acc s.
Proof.
  revert acc. induction s as [|c s IH]; intros acc Ha; cbn; [done|].
  intros [Hc Hs]%andb_prop. apply IH; [|done]. apply andb_prop in Hc as [Hc _].
  apply Z.leb_le in Hc. unfold digit_val. lia.
Qed.

Lemma parse_digits_range max text v : parse_digits max text = Some v → 0 <= v <= max.
Proof.
  unfold parse_digits. destruct (all_digits text) eqn:E; [|done].
  apply andb_prop in E as [_ E]. pose proof (digits_val_nonneg 0 text ltac:(lia) E).
  destruct (Z.leb_spec (digits_val 0 text) max); [|done]. intros [= <-]. lia.
Qed.

Lemma parse_step_range text field n : parse_step text field = Ok n → 0 < n <= u32_max.
Proof.
  unfold parse_step. destruct (parse_digits u32_max text) eqn:E; [|done].
  apply parse_digits_range in E. destruct (Z.eqb_spec z 0); [done|]. intros [= <-]. lia.
Qed.

Lemma find_name_range P text names v :
  Forall (λ nv : string * Z, P nv.2) names → find_name text names = Some v → P v.
Proof.
  induction 1 as [|[name w] names Hw _ IH]; cbn; [done|].
  destruct (String.eqb name text); [by intros [= <-]|done].
Qed.

Lemma parse_value_range text field v :
  field_ok field → parse_value text field = Ok v → f_lo field <= v <= f_hi field.
Proof.
  intros (_ & _ & Hn). unfold parse_value. destruct (all_digits text).
  - destruct (parse_digits u32_max text) as [w|]; cbn; [|done].
    destruct (Z.leb_spec (f_lo field) w), (Z.leb_spec w (f_hi field)); cbn; try done.
    intros [= <-]. lia.
  - destruct (find_name text (f_names field)) as [w|] eqn:E; [|done]. intros [= <-].
    by eapply (find_name_range (λ x, f_lo field <= x <= f_hi field)) in E.
Qed.

Lemma parse_item_range text item field lo hi step :
  field_ok field → parse_item text item field = Ok (lo, hi, step) →
  f_lo field <= lo <= hi ∧ hi <= f_hi field ∧ 0 < step <= u32_max.
Proof.
  intros Hf. pose proof Hf as (Hlo & _ & _). unfold parse_item.
  destruct (is_empty_str item); [done|]. intros ([range st] & Hrs & H)%result_bind_Ok.
  assert (Hst : 0 < default 1 st <= u32_max).
  { destruct (split_once "/" item) as [[r s]|].
    - apply result_bind_Ok in Hrs as (n & Hn%parse_step_range & [= <- <-]). done.
    - injection Hrs as <- <-. unfold u32_max. cbn. lia. }
  apply result_bind_Ok in H as ([l h] & Hlh & [= -> -> <-]). cbn.
  enough (f_lo field <= lo <= hi ∧ hi <= f_hi field) by lia.
  destruct (String.eqb range "*"); [injection Hlh as <- <-; lia|].
  destruct (split_once "-" range) as [[from to]|].
  - apply result_bind_Ok in Hlh as (f & Hfv & Hlh). apply result_bind_Ok in Hlh as (t & Htv & Hlh).
    apply parse_value_range in Hfv, Htv; [|done..].
    destruct (Z.ltb_spec t f); [done|]. injection Hlh as <- <-. lia.
  - apply result_bind_Ok in Hlh as (f & Hfv & [= <- <-]).
    apply parse_value_range in Hfv; [|done]. destruct st; lia.
Qed.

Lemma set_range_nonneg fuel value hi step mask :
  0 <= mask → 0 <= set_range fuel value hi step mask.
Proof.
  revert value mask. induction fuel as [|f IH]; intros value mask Hm; cbn; [done|].
  case_match; [|done]. apply IH, Z.lor_nonneg. split; [done|]. by apply Z.shiftl_nonneg.
Qed.

(** The values the items of a field name. *)
Definition named (text : string) (items : list string) (field : Field) (v : Z) : Prop :=
  ∃ item lo hi step, item ∈ items ∧ parse_item text item field = Ok (lo, hi, step) ∧
    covers lo hi step v.

Lemma parse_items_bits text items field mask mask' v :
  field_ok field → parse_items text items field mask = Ok mask' → 0 <= v →
  Z.testbit mask' v = true ↔ Z.testbit mask v = true ∨ named text items field v.
Proof.
  intros Hf. pose proof Hf as (Hlo & Hhi & _). revert mask.
  induction items as [|item items IH]; intros mask; cbn [parse_items].
  { intros [= <-] _. unfold named. set_solver. }
  intros ([[lo hi] step] & Hi & H)%result_bind_Ok Hv.
  pose proof (parse_item_range _ _ _ _ _ _ Hf Hi) as Hr.
  rewrite (IH _ H Hv), set_range_bits by lia. unfold named. split.
  - intros [[?|?]|(it & l & h & s & Hin & ?)]; [by left|right..].
    + exists item, lo, hi, step. split_and!; [by left|done..].
    + exists it, l, h, s. split; [by right|done].
  - intros [?|(it & l & h & s & [->|Hin]%elem_of_cons & Hp & Hc)]; [by left; left| |].
    + rewrite Hi in Hp. injection Hp as <- <- <-. by left; right.
    + right. eauto 10.
Qed.

Lemma parse_items_nonneg text items field mask mask' :
  parse_items text items field mask = Ok mask' → 0 <= mask → 0 <= mask'.
Proof.
  revert mask. induction items as [|item items IH]; intros mask; cbn [parse_items].
  { by intros [= <-]. }
  intros ([[lo hi] step] & _ & H)%result_bind_Ok Hm. eapply IH; [done|].
  by apply set_range_nonneg.
Qed.

Lemma parse_field_bits text field mask :
  field_ok field → parse_field text field = Ok mask →
  mask_in (f_lo field) (f_hi field) mask ∧
  ∀ v, 0 <= v → Z.testbit mask v = true ↔
    named (to_ascii_lowercase text) (split_byte "," (to_ascii_lowercase text)) field v.
Proof.
  intros Hf. unfold parse_field. set (low := to_ascii_lowercase text). intros Hp.
  assert (Hbits : ∀ v, 0 <= v → Z.testbit mask v = true ↔ named low (split_byte "," low) field v).
  { intros v Hv. rewrite (parse_items_bits _ _ _ _ _ _ Hf Hp Hv), Z.testbit_0_l. naive_solver. }
  split; [|done]. split.
  - destruct (split_byte "," low) as [|item items] eqn:E; [by apply split_byte_ne in E|].
    cbn [parse_items] in Hp. pose proof Hp as Hp'.
    apply result_bind_Ok in Hp as ([[lo hi] step] & Hi & Hp).
    pose proof (parse_item_range _ _ _ _ _ _ Hf Hi). destruct Hf as (? & _).
    pose proof (parse_items_nonneg _ _ _ _ _ Hp (set_range_nonneg _ _ _ _ 0 ltac:(lia))).
    assert (Hlo : Z.testbit mask lo = true).
    { apply Hbits; [lia|]. exists item, lo, hi, step. split_and!; [by left|done|].
      unfold covers. rewrite Z.sub_diag, Z.mod_0_l by lia. lia. }
    destruct (Z.eq_dec mask 0) as [->|]; [by rewrite Z.testbit_0_l in Hlo|lia].
  - intros v Hv (item & lo & hi & step & _ & Hi & Hc)%Hbits; [|done].
    pose proof (parse_item_range _ _ _ _ _ _ Hf Hi). unfold covers in Hc. lia.
Qed.

(** The values a field's text names. *)
Definition names (text : string) (field : Field) (v : Z) : Prop :=
  named (to_ascii_lowercase text) (split_byte "," (to_ascii_lowercase text)) field v.

Lemma narrow_id lo hi w mask : 0 <= hi < w → mask_in lo hi mask → narrow w mask = mask.
Proof.
  intros Hw Hm. pose proof (mask_in_bound lo hi mask ltac:(lia) Hm).
  assert (2 ^ (hi + 1) <= 2 ^ w) by (apply Z.pow_le_mono_r; lia).
  unfold narrow. destruct (Z.ltb_spec mask (2 ^ w)); [done|lia].
Qed.

(** Sunday written as 7 is folded onto 0. *)
Lemma fold_sunday bits v :
  mask_in 0 7 bits → 0 <= v →
  Z.testbit (Z.land (Z.lor bits (Z.shiftr bits 7)) 127) v = true ↔
    v <= 6 ∧ (Z.testbit bits v = true ∨ v = 0 ∧ Z.testbit bits 7 = true).
Proof.
  intros [_ Hb] Hv. rewrite Z.land_spec, Z.lor_spec, Z.shiftr_spec by done.
  change 127 with (Z.ones 7). rewrite Z.testbit_ones_nonneg by lia.
  rewrite andb_true_iff, orb_true_iff, Z.ltb_lt.
  destruct (Z.eq_dec v 0) as [->|Hne]; [naive_solver lia|].
  assert (Z.testbit bits (v + 7) = false).
  { destruct (Z.testbit bits (v + 7)) eqn:E; [|done]. specialize (Hb (v + 7) ltac:(lia) E). lia. }
  split.
  - intros [[?|?] ?]; [split; [lia|by left]|congruence].
  - intros [? [?|[? _]]]; [split; [by left|lia]|done].
Qed.

Lemma fold_sunday_in bits :
  mask_in 0 7 bits → mask_in 0 6 (Z.land (Z.lor bits (Z.shiftr bits 7)) 127).
Proof.
  intros Hb. pose proof (fold_sunday bits) as Hf. set (folded := Z.land _ _) in *.
  assert (Hnn : 0 <= folded) by (unfold folded; apply Z.land_nonneg; right; lia).
  split; [|intros v Hv Ht; apply Hf in Ht as [? _]; [lia|done..]].
  destruct Hb as [Hpos Hrange] eqn:E. clear E.
  assert (Hsome : ∃ v, 0 <= v ∧ Z.testbit folded v = true).
  { pose proof (Z.bit_log2 bits Hpos) as Hl.
    pose proof (Hrange _ (Z.log2_nonneg bits) Hl) as Hr.
    destruct (Z.eq_dec (Z.log2 bits) 7) as [He|He].
    - exists 0. split; [done|]. apply Hf; [by split|done|]. rewrite He in Hl. naive_solver lia.
    - exists (Z.log2 bits). split; [lia|]. apply Hf; [by split|lia|]. split; [lia|by left]. }
  destruct Hsome as (v & _ & Hv). destruct (Z.eq_dec folded 0) as [E|]; [|lia].
  by rewrite E, Z.testbit_0_l in Hv.
Qed.

(** What a parsed expression holds. *)
Lemma Cron_parse_spec expr c :
  Cron_parse expr = Ok c →
  cron_wf c ∧
  ∃ minute hour dom month dow, split_whitespace expr = [minute; hour; dom; month; dow] ∧
    ∀ v, 0 <= v →
      (Z.testbit (c_minutes c) v = true ↔ names minute MINUTE v) ∧
      (Z.testbit (c_hours c) v = true ↔ names hour HOUR v) ∧
      (Z.testbit (c_dom c) v = true ↔ names dom DOM v) ∧
      (Z.testbit (c_months c) v = true ↔ names month MONTH v) ∧
      (Z.testbit (c_dow c) v = true ↔ v <= 6 ∧ (names dow DOW v ∨ v = 0 ∧ names dow DOW 7)).
Proof.
  unfold Cron_parse.
  destruct (split_whitespace expr) as [|minute [|hour [|dom [|month [|dow [|? ?]]]]]]; try done.
  pose proof fields_ok as Hall. rewrite !Forall_cons in Hall.
  destruct Hall as (F1 & F2 & F3 & F4 & F5 & _).
  intros (m & [M1 M2]%(parse_field_bits _ _ _ F1) & H)%result_bind_Ok.
  apply result_bind_Ok in H as (h & [H1 H2]%(parse_field_bits _ _ _ F2) & H).
  apply result_bind_Ok in H as (d & [D1 D2]%(parse_field_bits _ _ _ F3) & H).
  apply result_bind_Ok in H as (n & [N1 N2]%(parse_field_bits _ _ _ F4) & H).
  apply result_bind_Ok in H as (w & [W1 W2]%(parse_field_bits _ _ _ F5) & H).
  cbn [f_lo f_hi MINUTE HOUR DOM MONTH DOW] in *. injection H as <-.
  pose proof (fold_sunday_in w W1) as Hw.
  rewrite (narrow_id 0 23 32 h), (narrow_id 1 31 32 d), (narrow_id 1 12 16 n),
    (narrow_id 0 6 8 _ ltac:(lia) Hw) by (done || lia).
  split; [by split|]. exists minute, hour, dom, month, dow. split; [done|].
  intros v Hv. cbn [c_minutes c_hours c_dom c_months c_dow].
  split_and!; [by apply M2|by apply H2|by apply D2|by apply N2|].
  rewrite fold_sunday, W2 by done. rewrite (W2 7) by lia. done.
Qed.

Lemma Cron_parse_ok expr c : Cron_parse expr = Ok c → cron_ok c.
Proof. intros [H _]%Cron_parse_spec. by apply cron_wf_ok. Qed.

(** A parsed expression holds exactly the values its five fields name,
    each field non-empty and within its range (so narrowing a mask to its
    field's width loses nothing), with Sunday written as 0 or as 7 on bit 0. *)
Theorem Cron_parse_exact expr c :
  Cron_parse expr = Ok c →
  cron_wf c ∧
  ∃ minute hour dom month dow, split_whitespace expr = [minute; hour; dom; month; dow] ∧
    ∀ v, 0 <= v →
      (Z.testbit (c_minutes c) v = true ↔ names minute MINUTE v) ∧
      (Z.testbit (c_hours c) v = true ↔ names hour HOUR v) ∧
      (Z.testbit (c_dom c) v = true ↔ names dom DOM v) ∧
      (Z.testbit (c_months c) v = true ↔ names month MONTH v) ∧
      (Z.testbit (c_dow c) v = true ↔ v <= 6 ∧ (names dow DOW v ∨ v = 0 ∧ names dow DOW 7)).
Proof. apply Cron_parse_spec. Qed.

Lemma Cron_parse_exact_witness :
  ∃ c, Cron_parse "*/15 8-10 * jan 7" = Ok c ∧ c_minutes c = 35185445863425 ∧
    c_dow c = 1 ∧ cron_wf c.
Proof.
  eexists. split; [by vm_compute|]. split; [done|]. split; [done|].
  eapply (Cron_parse_exact "*/15 8-10 * jan 7"). by vm_compute.
Defined.

(** The two calendar conversions are inverse: every day number reads as a
    valid date that converts back to it, and every valid date of any year
    converts to a day number that reads as that date. *)
Theorem civil_round_trip :
  (∀ z, let '(year, month, day) := civil_from_days z in
     valid_date year month day ∧ days_from_civil year month day = z) ∧
  (∀ year month day, valid_date year month day →
     civil_from_days (days_from_civil year month day) = (year, month, day)).
Proof. split; [apply civil_days_inverse|apply days_civil_inverse]. Qed.
