(* ===== verification/Timer.v ===== *)
(** * Persisted timers

    [src/crates/agora-sched/src/timer.rs] and [timer/rfc3339.rs]: schedules
    [at], [every] and [cron], when they fire, and the RFC 3339 instants they
    are written with. *)

From Stdlib Require Import Ascii.
From S2P Require Import Prelude Strs PyFmt Civil Cron.

Local Open Scope Z_scope.

(** ** RFC 3339

    The cursor is the text it has not consumed; each step returns the rest. *)

Definition one_of (options : string) (c : byte) : bool := contains_byte c options.

(** [Cursor::accept]. *)
Definition accept (options s : string) : option string :=
  match s with
  | String c r => if one_of options c then Some r else None
  | "" => None
  end.

(** [Cursor::digits]: exactly [width] digits. *)
Fixpoint digits_go (width : nat) (acc : Z) (s : string) : option (Z * string) :=
  match width with
  | O => Some (acc, s)
  | S w =>
      match s with
      | String c r => if is_ascii_digit c then digits_go w (acc * 10 + digit_val c) r else None
      | "" => None
      end
  end.

Definition cursor_digits (width : nat) (s : string) : option (Z * string) := digits_go width 0 s.

(** The [while] loop of [Cursor::fraction_ms]: the value so far and the count. *)
Fixpoint fraction_go (ms : Z) (count : nat) (s : string) : Z * nat * string :=
  match s with
  | String c r =>
      if is_ascii_digit c then
        fraction_go (if Nat.ltb count 3 then ms * 10 + digit_val c else ms) (S count) r
      else (ms, count, s)
  | "" => (ms, count, s)
  end.

Definition fraction_ms (s : string) : option (Z * string) :=
  let '(ms, count, rest) := fraction_go 0 0 s in
  if Nat.eqb count 0 then None
  else Some (ms * 10 ^ Z.of_nat (3 - Nat.min count 3), rest).

Definition rfc_is_leap (year : Z) : bool :=
  ((Z.rem year 4 =? 0) && negb (Z.rem year 100 =? 0)) || (Z.rem year 400 =? 0).

Definition rfc_days_in_month (year month : Z) : Z :=
  if (month =? 1) || (month =? 3) || (month =? 5) || (month =? 7) || (month =? 8)
     || (month =? 10) || (month =? 12) then 31
  else if (month =? 4) || (month =? 6) || (month =? 9) || (month =? 11) then 30
  else if (month =? 2) && rfc_is_leap year then 29
  else 28.

(** The zone: an offset in minutes. *)
Definition rfc_offset (s : string) : option (Z * string) :=
  match accept "Zz" s with
  | Some r => Some (0, r)
  | None =>
      sr ← match accept "+" s with
           | Some r => Some (1, r)
           | None => r ← accept "-" s; Some (-1, r)
           end;
      hr ← cursor_digits 2 (snd sr);
      r ← accept ":" (snd hr);
      mr ← cursor_digits 2 r;
      if (23 <? fst hr) || (59 <? fst mr) then None
      else Some (fst sr * (fst hr * 60 + fst mr), snd mr)
  end.

(** The optional seconds and fraction. *)
Definition rfc_seconds (s : string) : option (Z * Z * string) :=
  match accept ":" s with
  | None => Some (0, 0, s)
  | Some r =>
      sr ← cursor_digits 2 r;
      match accept "." (snd sr) with
      | None => Some (fst sr, 0, snd sr)
      | Some r' => fr ← fraction_ms r'; Some (fst sr, fst fr, snd fr)
      end
  end.

(** Years have four digits, so the final sum stays far inside [i64]. *)
Definition parse_rfc3339 (text : string) : option Z :=
  yr ← cursor_digits 4 text;
  s ← accept "-" (snd yr);
  mo ← cursor_digits 2 s;
  s ← accept "-" (snd mo);
  da ← cursor_digits 2 s;
  s ← accept "Tt " (snd da);
  ho ← cursor_digits 2 s;
  s ← accept ":" (snd ho);
  mi ← cursor_digits 2 s;
  sec ← rfc_seconds (snd mi);
  let '(second, millis, s) := sec in
  off ← rfc_offset s;
  if negb (is_empty_str (snd off)) then None
  else
    let '(year, month, day, hour, minute) := (fst yr, fst mo, fst da, fst ho, fst mi) in
    if negb ((1 <=? month) && (month <=? 12)) || (day =? 0)
       || (rfc_days_in_month year month <? day) || (23 <? hour) || (59 <? minute)
       || (60 <? second)
    then None
    else
      let second := Z.min second 59 in
      Some (ms_from_civil year month day hour minute + second * 1000 + millis
            - fst off * 60000).

(** ** Schedules *)

Inductive TimerSpec : Type :=
| TAt (at_ms : Z)
| TEvery (every_s : Z) (start_ms : option Z)
| TCron (expr : string).

Definition MIN_EVERY_S : Z := 60.

Definition TIME_HINT : string :=
  "use milliseconds since the epoch or RFC 3339 like 2026-10-08T09:30:00Z".
Definition SCHEDULE_HINT : string :=
  "a schedule is at:<time>, every:<interval> or cron:<5 fields>".

Definition not_a_time (text : string) : string :=
  "'" +:+ text +:+ "' is not a time: " +:+ TIME_HINT.

Definition parse_at (text : string) : result string Z :=
  let unsigned := default text (strip_prefix "-" text) in
  if all_digits unsigned then ok_or (parse_i64 text) (not_a_time text)
  else ok_or (parse_rfc3339 text) (not_a_time text).

Definition interval_unit (text : string) : string * Z :=
  match strip_suffix "s" text with
  | Some n => (n, 1)
  | None =>
      match strip_suffix "m" text with
      | Some n => (n, 60)
      | None =>
          match strip_suffix "h" text with
          | Some n => (n, 3600)
          | None => match strip_suffix "d" text with Some n => (n, 86400) | None => (text, 1) end
          end
      end
  end.

Definition parse_interval (text : string) : result string Z :=
  let '(number, unit_secs) := interval_unit text in
  if negb (all_digits number) then
    Err ("'" +:+ text +:+ "' is not an interval: use whole seconds, or a whole number with s, m, h or d, like every:5m")
  else
    let too_large := "'" +:+ text +:+ "' is too large" in
    count ← ok_or (parse_digits u64_max number) too_large;
    ok_or (checked_u64 (count * unit_secs)) too_large.

Definition parse_timer_spec (text : string) : result string TimerSpec :=
  match strip_prefix "at:" text with
  | Some time => at_ms ← parse_at time; Ok (TAt at_ms)
  | None =>
      match strip_prefix "every:" text with
      | Some interval => every_s ← parse_interval interval; Ok (TEvery every_s None)
      | None =>
          match strip_prefix "cron:" text with
          | Some expr => Ok (TCron expr)
          | None => Err SCHEDULE_HINT
          end
      end
  end.

(** [i64::try_from(every_s).ok()?.checked_mul(1_000)]. *)
Definition period_ms (every_s : Z) : option Z :=
  s ← checked_i64 every_s; checked_i64 (s * 1000).

Definition validate (spec : TimerSpec) : result string unit :=
  match spec with
  | TAt _ => Ok tt
  | TEvery every_s _ =>
      if every_s <? MIN_EVERY_S then
        Err ("every must be at least " +:+ dec MIN_EVERY_S +:+ " seconds")
      else match period_ms every_s with
           | Some _ => Ok tt
           | None => Err "every is too large"
           end
  | TCron expr => match Cron_parse expr with Ok _ => Ok tt | Err e => Err e end
  end.

Definition first_fire (spec : TimerSpec) (created_ms : Z) : option Z :=
  match spec with
  | TAt at_ms => Some at_ms
  | TEvery every_s start_ms =>
      match start_ms with
      | Some start => Some start
      | None => p ← period_ms every_s; checked_i64 (created_ms + p)
      end
  | TCron expr => c ← res_ok (Cron_parse expr); next_after c created_ms
  end.

Definition next_fire (spec : TimerSpec) (fired_ms now_ms : Z) : option Z :=
  match spec with
  | TAt _ => None
  | TEvery every_s start_ms =>
      period ← period_ms every_s;
      if 0 <? period then
        let anchor := default fired_ms start_ms in
        ahead ← checked_i64 (now_ms - anchor);
        steps ← checked_i64 (ahead / period + 1);
        dist ← checked_i64 (steps * period);
        checked_i64 (anchor + dist)
      else None
  | TCron expr => c ← res_ok (Cron_parse expr); next_after c (Z.max now_ms fired_ms)
  end.

Definition describe_interval (every_s : Z) : string :=
  if (0 <? every_s) && (every_s mod 86400 =? 0) then dec (every_s / 86400) +:+ " d"
  else if (0 <? every_s) && (every_s mod 3600 =? 0) then dec (every_s / 3600) +:+ " h"
  else if (0 <? every_s) && (every_s mod 60 =? 0) then dec (every_s / 60) +:+ " min"
  else dec every_s +:+ " s".

Definition format_utc (ms : Z) : string :=
  let '(year, month, day, hour, minute, _) := civil_from_ms ms in
  let second := (ms / 1000) mod 60 in
  let millis := ms mod 1000 in
  let fraction := if millis =? 0 then "" else "." +:+ dec_pad 3 millis in
  dec_pad 4 year +:+ "-" +:+ dec_pad 2 month +:+ "-" +:+ dec_pad 2 day +:+ "T"
  +:+ dec_pad 2 hour +:+ ":" +:+ dec_pad 2 minute +:+ ":" +:+ dec_pad 2 second
  +:+ fraction +:+ "Z".

Definition describe (spec : TimerSpec) : string :=
  match spec with
  | TAt at_ms => "at " +:+ format_utc at_ms
  | TEvery every_s _ => "every " +:+ describe_interval every_s
  | TCron expr => "cron " +:+ expr +:+ " (UTC)"
  end.

(** ** Instants read back *)

Lemma digits_go_app w acc s rest :
  String.length s = w → str_all is_ascii_digit s = true →
  digits_go w acc (s +:+ rest) = Some (digits_val acc s, rest).
Proof.
  revert w acc. induction s as [|c s IH]; intros w acc; cbn [String.length str_all].
  { intros <- _. done. }
  intros <- [Hc Hs]%andb_prop. rewrite str_app_cons. cbn. rewrite Hc. by apply IH.
Qed.

Lemma cursor_digits_pad w n rest :
  w ≠ O → 0 <= n < 10 ^ Z.of_nat w → cursor_digits w (dec_pad w n +:+ rest) = Some (n, rest).
Proof.
  intros Hw Hn. destruct (dec_pad_spec w n Hw Hn) as (Hl & Hd & Hv).
  unfold cursor_digits. rewrite digits_go_app by done. by rewrite Hv.
Qed.

Lemma fraction_go_app ms k s rest :
  str_all is_ascii_digit s = true → (k + String.length s <= 3)%nat →
  (∀ c r, rest = String c r → is_ascii_digit c = false) →
  fraction_go ms k (s +:+ rest) = (digits_val ms s, k + String.length s, rest)%nat.
Proof.
  intros Hs Hk Hrest. revert ms k Hk. induction s as [|c s IH]; intros ms k Hk.
  { rewrite str_app_nil_l, Nat.add_0_r. destruct rest as [|c r]; [done|].
    cbn. by rewrite (Hrest c r). }
  cbn in Hs, Hk. apply andb_prop in Hs as [Hc Hs]. rewrite str_app_cons. cbn [fraction_go]. rewrite Hc.
  rewrite (proj2 (Nat.ltb_lt k 3)) by lia. rewrite IH by (done || lia).
  cbn. by rewrite Nat.add_succ_r.
Qed.

Lemma fraction_ms_pad ms : 0 <= ms < 1000 → fraction_ms (dec_pad 3 ms +:+ "Z") = Some (ms, "Z").
Proof.
  intros Hm. destruct (dec_pad_spec 3 ms ltac:(done) ltac:(cbn; lia)) as (Hl & Hd & Hv).
  unfold fraction_ms. rewrite fraction_go_app; [|done|lia|by intros c r [= <- <-]].
  rewrite Hl, Hv. cbn. do 2 f_equal. lia.
Qed.

Lemma rfc_days_in_month_eq year month :
  0 <= year → 1 <= month <= 12 → rfc_days_in_month year month = days_in_month year month.
Proof.
  intros Hy Hm. unfold rfc_days_in_month, days_in_month, rfc_is_leap, is_leap.
  rewrite !Z.rem_mod_nonneg by lia.
  assert (H : month = 1 ∨ month = 2 ∨ month = 3 ∨ month = 4 ∨ month = 5 ∨ month = 6 ∨
    month = 7 ∨ month = 8 ∨ month = 9 ∨ month = 10 ∨ month = 11 ∨ month = 12) by lia.
  destruct H as [->|[->|[->|[->|[->|[->|[->|[->|[->|[->|[->| ->]]]]]]]]]]]; cbn; try done.
  assert (Hdiv : year mod 400 = 0 → year mod 4 = 0) by (intros; Z.div_mod_to_equations; lia).
  destruct (Z.eqb_spec (year mod 4) 0), (Z.eqb_spec (year mod 100) 0),
    (Z.eqb_spec (year mod 400) 0); cbn; try done; tauto.
Qed.

Lemma accept_cons options c r :
  one_of options c = true → accept options (String c "" +:+ r) = Some r.
Proof. intros Hc. rewrite str_app_cons, str_app_nil_l. cbn. by rewrite Hc. Qed.

(** Seconds and milliseconds of the text [format_utc] writes. *)
Lemma rfc_seconds_format second millis :
  0 <= second < 60 → 0 <= millis < 1000 →
  rfc_seconds (":" +:+ dec_pad 2 second +:+
    (if millis =? 0 then "" else "." +:+ dec_pad 3 millis) +:+ "Z") = Some (second, millis, "Z").
Proof.
  intros Hs Hm. unfold rfc_seconds. rewrite accept_cons by done.
  rewrite cursor_digits_pad by (done || cbn; lia). cbn [mbind option_bind fst snd].
  destruct (Z.eqb_spec millis 0) as [->|Hne].
  - rewrite str_app_nil_l. done.
  - rewrite str_app_assoc, accept_cons, fraction_ms_pad by done. done.
Qed.

(** The instants of the years 0 to 9999. *)
Definition in_years (ms : Z) : Prop :=
  let '(year, _, _) := civil_from_days (ms / DAY_MS) in 0 <= year <= 9999.

Lemma ms_decompose ms :
  let '(year, month, day, hour, minute, _) := civil_from_ms ms in
  days_from_civil year month day * DAY_MS + hour * HOUR_MS + minute * MIN_MS
    + (ms / 1000) mod 60 * 1000 + ms mod 1000 = ms ∧
  valid_date year month day ∧ 0 <= hour <= 23 ∧ 0 <= minute <= 59.
Proof.
  rewrite civil_from_ms_eq. pose proof (civil_days_inverse (ms / DAY_MS)) as Hc.
  destruct (civil_from_days (ms / DAY_MS)) as [[year month] day]. cbn [fst snd].
  destruct Hc as [Hv ->]. split_and!; try apply Hv.
  all: pose proof (Z.div_mod ms DAY_MS ltac:(done)); pose proof (Z.mod_pos_bound ms DAY_MS ltac:(done)).
  all: set (x := ms mod DAY_MS) in *; set (d := ms / DAY_MS) in *.
  all: unfold DAY_MS, HOUR_MS, MIN_MS in *; clearbody x d; try (Z.div_mod_to_equations; lia).
Qed.

Lemma days_from_civil_bound year month day :
  valid_date year month day → 0 <= year <= 9999 → -1000000 <= days_from_civil year month day <= 10000000.
Proof.
  intros [Hm Hd] Hy. pose proof (days_in_month_range year month) as Hr.
  unfold days_from_civil. rewrite Z.rem_mod_nonneg by lia.
  destruct (month <=? 2); Z.div_mod_to_equations; lia.
Qed.

Lemma ms_from_civil_exact year month day hour minute :
  valid_date year month day → 0 <= year <= 9999 → 0 <= hour <= 23 → 0 <= minute <= 59 →
  ms_from_civil year month day hour minute =
    days_from_civil year month day * DAY_MS + hour * HOUR_MS + minute * MIN_MS.
Proof.
  intros Hv Hy Hh Hm. pose proof (days_from_civil_bound _ _ _ Hv Hy) as Hb.
  unfold ms_from_civil, MAX_YEAR_ABS. rewrite Z.min_r, Z.max_r by lia.
  rewrite !sat_i64_id; unfold i64_min, i64_max, DAY_MS, HOUR_MS, MIN_MS; try lia.
  rewrite sat_i64_id; unfold i64_min, i64_max; lia.
Qed.

Lemma parse_rfc3339_text year month day hour minute second millis :
  valid_date year month day → 0 <= year <= 9999 → 0 <= hour <= 23 → 0 <= minute <= 59 →
  0 <= second < 60 → 0 <= millis < 1000 →
  parse_rfc3339 (dec_pad 4 year +:+ "-" +:+ dec_pad 2 month +:+ "-" +:+ dec_pad 2 day +:+ "T"
    +:+ dec_pad 2 hour +:+ ":" +:+ dec_pad 2 minute +:+ ":" +:+ dec_pad 2 second
    +:+ (if millis =? 0 then "" else "." +:+ dec_pad 3 millis) +:+ "Z") =
  Some (ms_from_civil year month day hour minute + second * 1000 + millis).
Proof.
  intros Hv Hy Hh Hm Hs Hms. pose proof Hv as [Hmo Hda].
  pose proof (days_in_month_range year month) as Hr.
  unfold parse_rfc3339.
  rewrite (cursor_digits_pad 4 year) by (done || cbn; lia). cbn [mbind option_bind fst snd].
  rewrite accept_cons by done. cbn [mbind option_bind].
  rewrite (cursor_digits_pad 2 month) by (done || cbn; lia). cbn [mbind option_bind fst snd].
  rewrite accept_cons by done. cbn [mbind option_bind].
  rewrite (cursor_digits_pad 2 day) by (done || cbn; lia). cbn [mbind option_bind fst snd].
  rewrite accept_cons by done. cbn [mbind option_bind].
  rewrite (cursor_digits_pad 2 hour) by (done || cbn; lia). cbn [mbind option_bind fst snd].
  rewrite accept_cons by done. cbn [mbind option_bind].
  rewrite (cursor_digits_pad 2 minute) by (done || cbn; lia). cbn [mbind option_bind fst snd].
  rewrite rfc_seconds_format by done. cbn [mbind option_bind].
  unfold rfc_offset. change (accept "Zz" "Z") with (Some ""). cbn [mbind option_bind fst snd].
  rewrite rfc_days_in_month_eq by lia. cbn [negb is_empty_str].
  rewrite (proj2 (Z.leb_le 1 month)), (proj2 (Z.leb_le month 12)) by lia.
  rewrite (proj2 (Z.eqb_neq day 0)), (proj2 (Z.ltb_ge (days_in_month year month) day)) by lia.
  rewrite (proj2 (Z.ltb_ge 23 hour)), (proj2 (Z.ltb_ge 59 minute)), (proj2 (Z.ltb_ge 60 second)) by lia.
  cbn [negb andb orb]. rewrite Z.min_l by lia. f_equal. lia.
Qed.

Lemma format_utc_text ms :
  in_years ms → parse_rfc3339 (format_utc ms) = Some ms.
Proof.
  intros Hy. unfold format_utc. pose proof (ms_decompose ms) as Hd.
  unfold in_years in Hy. rewrite civil_from_ms_eq in *.
  destruct (civil_from_days (ms / DAY_MS)) as [[year month] day]. cbn [fst snd] in *.
  destruct Hd as (Hsum & Hv & Hh & Hm).
  pose proof (Z.mod_pos_bound (ms / 1000) 60 ltac:(done)).
  pose proof (Z.mod_pos_bound ms 1000 ltac:(done)).
  rewrite parse_rfc3339_text by done. rewrite ms_from_civil_exact by done. by f_equal.
Qed.

(** A text with a byte that is no digit is not read as plain milliseconds. *)
Lemma format_utc_not_digits ms :
  all_digits (default (format_utc ms) (strip_prefix "-" (format_utc ms))) = false.
Proof.
  assert (Hz : ∀ s, str_all is_ascii_digit (s +:+ "Z") = false).
  { intros s. rewrite str_all_app. cbn. by rewrite andb_false_r. }
  assert (He : ∃ s, format_utc ms = s +:+ "Z").
  { unfold format_utc. destruct (civil_from_ms ms) as [[[[[y m] d] h] mi] w].
    eexists. rewrite <- !str_app_assoc. reflexivity. }
  destruct He as [s ->]. unfold all_digits.
  destruct (strip_prefix "-" (s +:+ "Z")) as [r|] eqn:E; cbn [from_option].
  - apply strip_prefix_Some in E. destruct s as [|c s]; [done|].
    rewrite !str_app_cons, str_app_nil_l in E. injection E as -> <-.
    unfold id. by rewrite Hz, andb_false_r.
  - by rewrite Hz, andb_false_r.
Qed.

(** An instant of the years 0 to 9999, written as [describe] writes it, is
    read back by [parse_at] as the same millisecond. *)
Theorem parse_at_format_utc ms : in_years ms → parse_at (format_utc ms) = Ok ms.
Proof.
  intros Hy. unfold parse_at. rewrite format_utc_not_digits, format_utc_text by done. done.
Qed.

Lemma parse_at_format_utc_witness :
  format_utc 1791451800250 = "2026-10-08T09:30:00.250Z" ∧
  parse_at (format_utc 1791451800250) = Ok 1791451800250.
Proof.
  split; [by vm_compute|]. apply parse_at_format_utc. by vm_compute.
Defined.

(** ** Firing *)

(** A repeating timer fires on a fixed grid, at the first grid point after
    now: it neither drifts with late fires nor repeats a missed one, and it
    stops only when an intermediate value leaves the 64-bit range. *)
Theorem next_fire_every every_s start_ms fired now :
  validate (TEvery every_s start_ms) = Ok () →
  let period := every_s * 1000 in
  let anchor := default fired start_ms in
  let steps := (now - anchor) / period + 1 in
  match next_fire (TEvery every_s start_ms) fired now with
  | Some r =>
      now < r <= now + period ∧ (r - anchor) mod period = 0 ∧
      ∀ k, now < anchor + k * period → r <= anchor + k * period
  | None =>
      in_i64 (now - anchor) && in_i64 steps && in_i64 (steps * period)
      && in_i64 (anchor + steps * period) = false
  end.
Proof.
  cbn [validate]. destruct (Z.ltb_spec every_s MIN_EVERY_S) as [|Hmin]; [done|].
  destruct (period_ms every_s) as [p|] eqn:Hp; [|done]. intros _. cbn zeta.
  cbn [next_fire]. rewrite Hp. unfold period_ms in Hp. unfold MIN_EVERY_S in Hmin.
  destruct (checked_i64 every_s) as [e|] eqn:He; [|done]. cbn [mbind option_bind] in Hp |- *.
  apply checked_i64_Some in He as [-> _]. apply checked_i64_Some in Hp as [-> _].
  rewrite (proj2 (Z.ltb_lt 0 (every_s * 1000))) by lia.
  set (anchor := default fired start_ms). set (period := every_s * 1000).
  unfold checked_i64. destruct (in_i64 (now - anchor)); cbn [mbind option_bind]; [|done].
  destruct (in_i64 ((now - anchor) / period + 1)); cbn [mbind option_bind]; [|done].
  set (steps := (now - anchor) / period + 1).
  destruct (in_i64 (steps * period)); cbn [mbind option_bind]; [|done].
  destruct (in_i64 (anchor + steps * period)); [|done].
  assert (Hper : 0 < period) by (unfold period; lia).
  pose proof (Z.div_mod (now - anchor) period ltac:(lia)) as Hd.
  pose proof (Z.mod_pos_bound (now - anchor) period Hper) as Hm.
  assert (Hsp : steps * period = period * ((now - anchor) / period) + period)
    by (unfold steps; ring).
  split_and!; [lia..| |].
  - replace (anchor + steps * period - anchor) with (steps * period) by lia.
    by apply Z_mod_mult.
  - intros k Hk. enough (steps <= k) by nia. unfold steps.
    enough ((now - anchor) / period < k) by lia. apply Z.div_lt_upper_bound; lia.
Qed.

Lemma next_fire_every_witness :
  validate (TEvery 3600 None) = Ok () ∧
  next_fire (TEvery 3600 None) 1000 9000000 = Some 10801000 ∧
  ∀ k, 9000000 < 1000 + k * 3600000 → 10801000 <= 1000 + k * 3600000.
Proof.
  split; [done|]. split; [done|].
  pose proof (next_fire_every 3600 None 1000 9000000 eq_refl) as H.
  change (next_fire (TEvery 3600 None) 1000 9000000) with (Some 10801000) in H.
  cbn zeta iota in H. destruct H as (_ & _ & H). exact H.
Defined.
