(* ===== verification/Plan.v ===== *)
(** * List scheduling

    [src/crates/agora-sched/src/plan.rs]: Graham's list scheduling over the
    ordered tasks, for several agents, with tasks that touch overlapping files
    never running together. *)

From stdpp Require Import relations.
From S2P Require Import Prelude F64 Strs PyFmt Task Kahn Graph Order.

Record Slot : Type := mk_slot { s_task : nat; s_start : f64; s_end : f64 }.

Record Schedule : Type := mk_schedule {
  lanes : list (list Slot);
  makespan : f64;
  lower_bound : f64 }.

Definition MAX_AGENTS : nat := 256.

Definition check_agents (n : nat) : result string nat :=
  if Nat.leb 1 n && Nat.leb n MAX_AGENTS then Ok n
  else Err "agents must be between 1 and 256".

(** A task on an agent. *)
Record Running : Type := mk_running { r_end : f64; r_agent : nat; r_pos : nat }.

Definition running_cmp (g : Graph) (a b : Running) : comparison :=
  then_with (total_cmp (r_end a) (r_end b))
    (then_with (Nat.compare (r_agent a) (r_agent b))
       (cmp_id_at (g_tasks g) (r_pos a) (r_pos b))).

(** [running.pop()] of the entry that [peek] showed; a position runs once. *)
Definition remove_running (x : Running) (l : list Running) : list Running :=
  filter (λ r, r_pos r ≠ r_pos x) l.

Definition conflict_at (g : Graph) (a b : nat) : bool :=
  match g_tasks g !! a, g_tasks g !! b with
  | Some ta, Some tb => conflict ta tb
  | _, _ => false
  end.

Definition size_at (g : Graph) (p : nat) : f64 := from_option t_size f_zero (g_tasks g !! p).

(** What the loops of [schedule] change. *)
Record State : Type := mk_state {
  st_indegree : list nat;
  st_ready : list nat;
  st_running : list Running;
  st_free : list nat;
  st_lanes : list (list Slot) }.

Section schedule.
Context (g : Graph) (effective : list Key).

Notation ready_heap := (heap (ready_cmp g effective)).

(** [while let Some(agent) = free.peek()]: one popped task per round. *)
Fixpoint start_loop (fuel : nat) (now : f64) (st : State) (waiting : list nat) :
    State * list nat :=
  match fuel with
  | O => (st, waiting)
  | S f =>
      match min_by Nat.compare (st_free st), bag_pop (st_ready st : ready_heap) with
      | Some agent, Some (next, ready') =>
          if existsb (λ busy, conflict_at g next (r_pos busy)) (st_running st) then
            start_loop f now
              (mk_state (st_indegree st) ready' (st_running st) (st_free st) (st_lanes st))
              (waiting ++ [next])
          else
            let end_ := (now + size_at g next)%f64 in
            start_loop f now
              (mk_state (st_indegree st) ready'
                 (mk_running end_ agent next :: st_running st)
                 (remove_one agent (st_free st))
                 (alter (λ lane, lane ++ [mk_slot next now end_]) agent (st_lanes st)))
              waiting
      | _, _ => (st, waiting)
      end
  end.

(** The starts of one instant; what had to wait is ready again. *)
Definition start_ready (now : f64) (st : State) : State :=
  let '(st', waiting) := start_loop (length (st_ready st)) now st [] in
  mk_state (st_indegree st') (waiting ++ st_ready st') (st_running st') (st_free st')
    (st_lanes st').

(** One completion: its agent is free, its dependents may become ready. *)
Definition complete (r : Running) (st : State) : State :=
  let '(indegree', ready') :=
    release (succ_once g (r_pos r)) (st_indegree st) (st_ready st : ready_heap) in
  mk_state indegree' ready' (remove_running r (st_running st)) (r_agent r :: st_free st)
    (st_lanes st).

(** Every task that ends at exactly [now] completes. *)
Fixpoint complete_loop (fuel : nat) (now : f64) (st : State) : State :=
  match fuel with
  | O => st
  | S f =>
      match min_by (running_cmp g) (st_running st) with
      | Some r =>
          match total_cmp (r_end r) now with
          | Eq => complete_loop f now (complete r st)
          | _ => st
          end
      | None => st
      end
  end.

(** The outer loop: every round but the last completes a task. *)
Fixpoint schedule_loop (fuel : nat) (now : f64) (st : State) : list (list Slot) :=
  match fuel with
  | O => st_lanes st
  | S f =>
      match st_ready st, st_running st with
      | [], [] => st_lanes st
      | _, _ =>
          let st1 := start_ready now st in
          match min_by (running_cmp g) (st_running st1) with
          | None => st_lanes st1
          | Some r =>
              schedule_loop f (r_end r)
                (complete_loop (length (st_running st1)) (r_end r) st1)
          end
      end
  end.
End schedule.

Definition initial_state (g : Graph) (agents : nat) : State :=
  mk_state (indegree_once g) (initial_ready (indegree_once g)) [] (seq 0 agents)
    (replicate agents []).

Definition schedule (g : Graph) (agents : nat) (policy : OrderPolicy) : Schedule :=
  let agents := Nat.min agents MAX_AGENTS in
  if Nat.eqb agents 0 then mk_schedule [] f_zero f_zero
  else
    let effective := o_effective (order g policy) in
    let lanes := schedule_loop g effective (S (length (g_tasks g))) f_zero
                   (initial_state g agents) in
    let makespan := foldl f_max f_zero (s_end <$> omap last lanes) in
    let total := py_fsum (t_size <$> g_tasks g) in
    let critical := foldl f_max f_zero (bottom_levels g) in
    mk_schedule lanes makespan (f_max (total / f_of_Z (Z.of_nat agents))%f64 critical).

(** ** Who is where *)

Definition running_positions (st : State) : list nat := r_pos <$> st_running st.
Definition running_agents (st : State) : list nat := r_agent <$> st_running st.

Section invariant.
Context (g : Graph) (Hg : graph_ok g) (effective : list Key) (agents : nat).

Notation n := (length (g_tasks g)).

(** The tasks [done], those running, and those ready partition what can be
    scheduled; every agent is free or runs one task; the lanes hold exactly the
    tasks that were started, a running one last in its agent's lane. *)
Record plan_inv (st : State) (done rest : list nat) : Prop := {
  pi_kahn : kahn_inv n (succ_once g) (st_indegree st)
              (st_ready st ++ running_positions st) done rest;
  pi_agents : st_free st ++ running_agents st ≡ₚ seq 0 agents;
  pi_lanes : length (st_lanes st) = agents;
  pi_slots : s_task <$> mjoin (st_lanes st) ≡ₚ done ++ running_positions st;
  pi_run r : r ∈ st_running st → ∃ lane start,
    st_lanes st !! r_agent r = Some (lane ++ [mk_slot (r_pos r) start (r_end r)]) }.

Lemma succ_once_bound p d : p < n → d ∈ succ_once g p → d < n.
Proof. intros _ Hd%(elem_of_succ_once g Hg). by apply prereq_bound in Hd as [_ ?]. Qed.

Lemma initial_inv : plan_inv (initial_state g agents) [] (seq 0 n).
Proof.
  split; cbn.
  - rewrite app_nil_r. split; cbn; try done.
    + apply length_fmap.
    + by apply indegree_once_pending.
    + unfold initial_ready. replace (length (indegree_once g)) with n by (symmetry; apply length_fmap).
      apply NoDup_Permutation; [apply NoDup_filter, NoDup_seq..|].
      intros d. rewrite !list_elem_of_filter, elem_of_seq.
      split; intros [Hz Hd]; (split; [|done]); rewrite (indegree_once_pending g Hg) in * by lia;
        congruence.
  - by rewrite app_nil_r.
  - apply length_replicate.
  - by induction agents.
  - by intros r ?%not_elem_of_nil.
Qed.

(** Positions that are ready or running are distinct. *)
Lemma inv_nodup st done rest : plan_inv st done rest → NoDup (st_ready st ++ running_positions st).
Proof.
  intros Hi. rewrite (inv_bag _ _ _ _ _ _ (pi_kahn _ _ _ Hi)). apply NoDup_filter.
  pose proof (NoDup_seq 0 n) as Hn. rewrite <- (inv_perm _ _ _ _ _ _ (pi_kahn _ _ _ Hi)) in Hn.
  by apply NoDup_app in Hn as (_ & _ & ?).
Qed.

Lemma mjoin_alter_snoc (ls : list (list Slot)) a x :
  a < length ls → mjoin (alter (λ l, l ++ [x]) a ls) ≡ₚ x :: mjoin ls.
Proof.
  revert a. induction ls as [|l ls IH]; intros a Ha; [cbn in Ha; lia|].
  destruct a as [|a]; cbn.
  - rewrite <- app_assoc. cbn. by rewrite <- Permutation_middle.
  - cbn in Ha. rewrite (IH a) by lia. by rewrite <- Permutation_middle.
Qed.

(** Starting a ready task on a free agent. *)
Lemma start_inv st done rest next ready' agent now :
  plan_inv st done rest → st_ready st ≡ₚ next :: ready' → agent ∈ st_free st →
  plan_inv (mk_state (st_indegree st) ready'
    (mk_running (now + size_at g next)%f64 agent next :: st_running st)
    (remove_one agent (st_free st))
    (alter (λ lane, lane ++ [mk_slot next now (now + size_at g next)%f64]) agent (st_lanes st)))
    done rest.
Proof.
  intros Hi Hr Ha. pose proof (remove_one_perm _ _ Ha) as Hfree.
  pose proof (pi_agents _ _ _ Hi) as Hag.
  assert (Hag_lt : agent < agents).
  { assert (Hin : agent ∈ st_free st ++ running_agents st) by (apply elem_of_app; by left).
    rewrite Hag, elem_of_seq in Hin. lia. }
  assert (Hother : ∀ r, r ∈ st_running st → r_agent r ≠ agent).
  { intros r Hr' Heq. pose proof (NoDup_seq 0 agents) as Hn. rewrite <- Hag in Hn.
    apply NoDup_app in Hn as (_ & Hd & _). apply (Hd agent Ha).
    apply list_elem_of_fmap. by exists r. }
  destruct (lookup_lt_is_Some_2 (st_lanes st) agent) as [lane Hlane].
  { by rewrite (pi_lanes _ _ _ Hi). }
  split; cbn.
  - destruct (pi_kahn _ _ _ Hi) as [? ? ? Hb ?]. split; try done.
    rewrite <- Hb, Hr. cbn. unfold running_positions. cbn. by rewrite <- Permutation_middle.
  - unfold running_agents in *. cbn. rewrite Hfree in Hag. rewrite <- Hag. cbn.
    by rewrite <- Permutation_middle.
  - by rewrite length_alter, (pi_lanes _ _ _ Hi).
  - rewrite mjoin_alter_snoc by (by rewrite (pi_lanes _ _ _ Hi)).
    cbn. rewrite (pi_slots _ _ _ Hi).
    unfold running_positions. cbn. by rewrite <- Permutation_middle.
  - intros r [->|Hr']%elem_of_cons; cbn.
    + exists lane, now. by rewrite list_lookup_alter_eq, Hlane.
    + rewrite list_lookup_alter_ne by (symmetry; by apply Hother).
      by apply (pi_run _ _ _ Hi).
Qed.

Lemma remove_running_perm st done rest r :
  plan_inv st done rest → r ∈ st_running st →
  st_running st ≡ₚ r :: remove_running r (st_running st).
Proof.
  intros Hi Hr. pose proof (inv_nodup _ _ _ Hi) as Hn. apply NoDup_app in Hn as (_ & _ & Hn).
  unfold running_positions, remove_running in *.
  induction (st_running st) as [|x l IH]; [by apply not_elem_of_nil in Hr|].
  cbn in Hn. apply NoDup_cons in Hn as [Hx Hn]. rewrite filter_cons.
  apply elem_of_cons in Hr as [->|Hr].
  - rewrite decide_False by naive_solver. f_equiv.
    clear IH. induction l as [|y l IH]; [done|]. cbn in Hx, Hn.
    apply not_elem_of_cons in Hx as [Hxy Hx]. apply NoDup_cons in Hn as [_ Hn].
    rewrite filter_cons, decide_True by congruence. by rewrite <- IH.
  - assert (r_pos x ≠ r_pos r).
    { intros Heq. apply Hx. rewrite Heq. apply list_elem_of_fmap. eauto. }
    rewrite decide_True by done. rewrite (IH Hr Hn) at 1. apply Permutation_swap.
Qed.

(** Completing a running task. *)
Lemma complete_inv st done rest r :
  plan_inv st done rest → r ∈ st_running st →
  ∃ rest', rest ≡ₚ r_pos r :: rest' ∧
    plan_inv (complete g effective r st) (done ++ [r_pos r]) rest'.
Proof.
  intros Hi Hr. pose proof (remove_running_perm _ _ _ _ Hi Hr) as Hrun.
  unfold complete. destruct (release _ _ _) as [indegree' ready'] eqn:Hrel.
  pose proof (pi_kahn _ _ _ Hi) as Hk.
  assert (Helems : st_ready st ++ running_positions st ≡ₚ
    r_pos r :: (st_ready st ++ (r_pos <$> remove_running r (st_running st)))).
  { unfold running_positions. rewrite Hrun at 1. cbn. by rewrite <- Permutation_middle. }
  destruct (inv_release_pre _ _ _ _ _ _ (r_pos r) succ_once_bound Hk) as [Hs Hle].
  { rewrite Helems. by left. }
  destruct (release_spec _ _ _ _ _ Hrel Hs Hle) as (H1 & H2 & l & Hl & Hnd & Hin).
  destruct (kahn_step_list _ _ _ _ _ _ _ _ indegree' l succ_once_bound Hk Helems)
    as (rest' & Hrest & Hk'); [done|].
  exists rest'. split; [done|]. split; cbn.
  - destruct Hk' as [? ? ? Hb ?]. split; try done. rewrite <- Hb.
    cbn in Hl. rewrite Hl, app_assoc. done.
  - unfold running_agents. cbn. rewrite <- (pi_agents _ _ _ Hi). unfold running_agents.
    rewrite Hrun at 2. cbn. by rewrite <- Permutation_middle.
  - apply (pi_lanes _ _ _ Hi).
  - rewrite (pi_slots _ _ _ Hi). unfold running_positions. cbn.
    revert Hrun. generalize (remove_running r (st_running st)). intros R ->.
    rewrite <- app_assoc. done.
  - intros x Hx. apply (pi_run _ _ _ Hi). rewrite Hrun. by right.
Qed.

(** ** Steps

    What the loops do to a configuration, one event at a time. *)

Definition with_ready (st : State) (ready : list nat) : State :=
  mk_state (st_indegree st) ready (st_running st) (st_free st) (st_lanes st).

Inductive plan_step : f64 * State → f64 * State → Prop :=
| step_start now st next ready' agent :
    st_ready st ≡ₚ next :: ready' → agent ∈ st_free st →
    (∀ r, r ∈ st_running st → conflict_at g next (r_pos r) = false) →
    plan_step (now, st) (now, mk_state (st_indegree st) ready'
      (mk_running (now + size_at g next)%f64 agent next :: st_running st)
      (remove_one agent (st_free st))
      (alter (λ lane, lane ++ [mk_slot next now (now + size_at g next)%f64]) agent (st_lanes st)))
| step_shuffle now st ready' :
    st_ready st ≡ₚ ready' → plan_step (now, st) (now, with_ready st ready')
| step_time now st r :
    r ∈ st_running st →
    (∀ r', r' ∈ st_running st → total_cmp (r_end r) (r_end r') ≠ Gt) →
    plan_step (now, st) (r_end r, st)
| step_complete now st r :
    r ∈ st_running st → total_cmp (r_end r) now = Eq →
    plan_step (now, st) (now, complete g effective r st).

Lemma plan_inv_shuffle st done rest ready' :
  plan_inv st done rest → st_ready st ≡ₚ ready' → plan_inv (with_ready st ready') done rest.
Proof.
  intros Hi Hr. destruct Hi as [[? ? ? Hb ?] ? ? ? ?]. split; try done. split; try done.
  cbn. rewrite <- Hb, Hr. done.
Qed.

Lemma start_loop_steps fuel now st waiting st' waiting' :
  start_loop g effective fuel now st waiting = (st', waiting') →
  rtc plan_step (now, with_ready st (waiting ++ st_ready st))
    (now, with_ready st' (waiting' ++ st_ready st')) ∧
  (∀ done rest, plan_inv (with_ready st (waiting ++ st_ready st)) done rest →
     plan_inv (with_ready st' (waiting' ++ st_ready st')) done rest) ∧
  length (st_running st) ≤ length (st_running st') ∧
  (0 < fuel → st_running st = [] → st_free st ≠ [] → st_ready st ≠ [] →
     st_running st' ≠ []).
Proof.
  revert st waiting. induction fuel as [|f IH]; intros st waiting; cbn [start_loop].
  { intros [= <- <-]. split_and!; [done..|lia]. }
  destruct (min_by Nat.compare (st_free st)) as [agent|] eqn:Hagent.
  2: { intros [= <- <-]. split_and!; [done..|]. intros _ _ Hf. by apply min_by_None in Hagent. }
  destruct (bag_pop (st_ready st : heap (ready_cmp g effective))) as [[next ready']|] eqn:Hpop.
  2: { intros [= <- <-]. split_and!; [done..|]. intros _ _ _ Hr.
       by apply bag_pop_None in Hpop. }
  apply bag_pop_Some in Hpop. cbn in Hpop.
  destruct (existsb _ (st_running st)) eqn:Hconf.
  - intros H. apply IH in H as (H1 & H3 & H2 & _). cbn in H1, H2, H3.
    assert (Hsh : waiting ++ st_ready st ≡ₚ (waiting ++ [next]) ++ ready')
      by (by rewrite Hpop, <- app_assoc).
    split_and!; [| |done|].
    + eapply rtc_l; [|exact H1].
      by apply (step_shuffle now (with_ready st (waiting ++ st_ready st))).
    + intros done rest Hi. apply H3. by apply (plan_inv_shuffle _ _ _ _ Hi).
    + intros _ Hrun. rewrite Hrun in Hconf. done.
  - intros H. apply IH in H as (H1 & H3 & H2 & _). cbn in H1, H2, H3.
    assert (Hsh : waiting ++ st_ready st ≡ₚ next :: waiting ++ ready')
      by (rewrite Hpop; by rewrite <- Permutation_middle).
    apply min_by_elem in Hagent.
    split_and!.
    + eapply rtc_l; [|exact H1].
      apply (step_start now (with_ready st (waiting ++ st_ready st)) next (waiting ++ ready') agent).
      * done.
      * done.
      * cbn. intros r Hr. rewrite <- not_true_iff_false. intros Hc.
        apply not_true_iff_false in Hconf. apply Hconf, existsb_exists. exists r.
        by rewrite <- list_elem_of_In.
    + intros done rest Hi. apply H3.
      by apply (start_inv (with_ready st (waiting ++ st_ready st)) _ _ next (waiting ++ ready')).
    + lia.
    + intros _ _ _ _ Hnil. rewrite Hnil in H2. cbn in H2. lia.
Qed.

Lemma plan_step_inv c c' done rest :
  plan_step c c' → plan_inv c.2 done rest → ∃ done' rest', plan_inv c'.2 done' rest'.
Proof.
  intros Hs Hi. destruct Hs; cbn in *.
  - exists done, rest. by apply start_inv.
  - exists done, rest. by apply plan_inv_shuffle.
  - by exists done, rest.
  - destruct (complete_inv _ _ _ _ Hi H) as (rest' & _ & Hi'). eauto.
Qed.

Lemma complete_loop_spec fuel now st done rest :
  plan_inv st done rest →
  ∃ done' rest', plan_inv (complete_loop g effective fuel now st) done' rest' ∧
    rtc plan_step (now, st) (now, complete_loop g effective fuel now st) ∧
    length rest' ≤ length rest ∧
    (0 < fuel → (∃ r, min_by (running_cmp g) (st_running st) = Some r ∧
       total_cmp (r_end r) now = Eq) → length rest' < length rest).
Proof.
  revert st done rest. induction fuel as [|f IH]; intros st done rest Hi; cbn [complete_loop].
  { exists done, rest. split_and!; [done..|lia]. }
  destruct (min_by (running_cmp g) (st_running st)) as [r|] eqn:Hmin.
  2: { exists done, rest. split_and!; [done..|]. by intros _ (r & ? & _). }
  destruct (total_cmp (r_end r) now) eqn:Hc.
  2,3: exists done, rest; split_and!; [done..|]; intros _ (r' & [= <-] & ?); congruence.
  apply min_by_elem in Hmin.
  destruct (complete_inv _ _ _ _ Hi Hmin) as (rest1 & Hr1 & Hi1).
  destruct (IH _ _ _ Hi1) as (done' & rest' & Hi' & Hst & Hle & _).
  assert (Hlen : length rest = S (length rest1)) by (by rewrite Hr1).
  exists done', rest'. split_and!; [done| |lia|lia].
  eapply rtc_l; [|exact Hst]. by apply step_complete.
Qed.

(** [running_cmp] orders by end first, whatever else it compares. *)
Lemma running_min l r r' :
  min_by (running_cmp g) l = Some r → r' ∈ l → total_cmp (r_end r) (r_end r') ≠ Gt.
Proof.
  assert (Ht : TotalCmp (λ _, True) (running_cmp g)).
  { apply total_cmp_then; [|apply total_cmp_then].
    - apply (total_cmp_on (λ _, True) total_cmp r_end _).
    - apply (total_cmp_on (λ _, True) Nat.compare r_agent _).
    - apply (total_cmp_on (λ _, True) (cmp_id_at (g_tasks g)) r_pos _). }
  intros Hm Hr. pose proof (min_by_le (λ _, True) _ l r r') as Hle.
  specialize (Hle (Forall_true _ _ (λ _, I)) Hm Hr). unfold running_cmp in Hle.
  by destruct (total_cmp (r_end r) (r_end r')).
Qed.

Lemma schedule_loop_final fuel now st done rest :
  plan_inv st done rest → length rest < fuel → 0 < agents →
  ∃ now' st' done' rest', rtc plan_step (now, st) (now', st') ∧
    schedule_loop g effective fuel now st = st_lanes st' ∧
    plan_inv st' done' rest' ∧ st_ready st' = [] ∧ st_running st' = [].
Proof.
  revert now st done rest. induction fuel as [|f IH]; intros now st done rest Hi Hf Ha; [lia|].
  cbn [schedule_loop].
  destruct (decide (st_ready st = [] ∧ st_running st = [])) as [[Hr Hrun]|Hne].
  { rewrite Hr, Hrun. by exists now, st, done, rest. }
  assert (Hsched : schedule_loop g effective (S f) now st =
    match min_by (running_cmp g) (st_running (start_ready g effective now st)) with
    | None => st_lanes (start_ready g effective now st)
    | Some r => schedule_loop g effective f (r_end r) (complete_loop g effective
        (length (st_running (start_ready g effective now st))) (r_end r)
        (start_ready g effective now st))
    end).
  { cbn [schedule_loop]. destruct (st_ready st), (st_running st); try done. naive_solver. }
  cbn [schedule_loop] in Hsched. rewrite Hsched. clear Hsched.
  unfold start_ready. destruct (start_loop _ _ _ _ _ _) as [st' waiting] eqn:Hstart.
  destruct (start_loop_steps _ _ _ _ _ _ Hstart) as (Hsteps & Hinv & Hgrow & Hsome).
  cbn [app] in Hsteps. change (mk_state (st_indegree st') (waiting ++ st_ready st')
    (st_running st') (st_free st') (st_lanes st')) with (with_ready st' (waiting ++ st_ready st')).
  set (st1 := with_ready st' (waiting ++ st_ready st')) in *.
  replace (with_ready st (st_ready st)) with st in Hsteps by (by destruct st).
  assert (Hi1 : plan_inv st1 done rest).
  { apply Hinv. cbn [app]. by destruct st. }
  destruct (min_by (running_cmp g) (st_running st1)) as [r|] eqn:Hmin.
  - destruct (complete_loop_spec (length (st_running st1)) (r_end r) st1 done rest Hi1)
      as (done2 & rest2 & Hi2 & Hst2 & _ & Hlt).
    pose proof (min_by_elem _ _ _ Hmin) as Hr.
    assert (Hl : length rest2 < length rest).
    { apply Hlt; [|exists r; by rewrite (tc_refl (λ _, True) total_cmp)].
      destruct (st_running st1); [by apply not_elem_of_nil in Hr|cbn; lia]. }
    destruct (IH (r_end r) _ _ _ Hi2) as (now' & st2 & done' & rest' & Hst' & Heq & H); [lia|done|].
    exists now', st2, done', rest'. split_and!; try apply H; [|done].
    etransitivity; [exact Hsteps|]. eapply rtc_l.
    { apply (step_time _ _ r Hr). intros r' Hr'. by eapply running_min. }
    etransitivity; [exact Hst2|exact Hst'].
  - exfalso. apply min_by_None in Hmin. cbn in Hmin.
    assert (Hrun : st_running st = []).
    { rewrite Hmin in Hgrow. cbn in Hgrow. apply length_zero_iff_nil. lia. }
    assert (Hready : st_ready st ≠ []) by naive_solver.
    apply Hsome; try done.
    + destruct (st_ready st); [done|cbn; lia].
    + intros Hfree. pose proof (pi_agents _ _ _ Hi) as Hag. unfold running_agents in Hag.
      rewrite Hfree, Hrun in Hag. cbn in Hag. apply Permutation_nil in Hag.
      destruct agents; [lia|done].
Qed.

(** When nothing is ready and nothing runs, everything is done. *)
Lemma final_done st done rest :
  plan_inv st done rest → st_ready st = [] → st_running st = [] →
  rest = [] ∧ done ≡ₚ seq 0 n.
Proof.
  intros Hi Hr Hrun. pose proof (pi_kahn _ _ _ Hi) as Hk.
  assert (rest = []) as ->.
  { apply (stuck_empty g Hg).
    - intros d Hd. eapply inv_bound; [exact Hk|by right].
    - intros d Hd. apply pending_pos. apply Nat.neq_0_lt_0. intros Hd0.
      pose proof (inv_bag _ _ _ _ _ _ Hk) as Hb. unfold running_positions in Hb.
      rewrite Hr, Hrun in Hb. cbn in Hb.
      assert (Hin : d ∈ filter (λ d, pending (succ_once g) d rest = 0) rest)
        by (by apply list_elem_of_filter).
      rewrite <- Hb in Hin. by apply not_elem_of_nil in Hin. }
  split; [done|]. pose proof (inv_perm _ _ _ _ _ _ Hk) as Hp. by rewrite app_nil_r in Hp.
Qed.

(** ** When

    The times of the slots, as long as no slot ends before it starts. *)

Definition placed (st : State) (a : nat) (s : Slot) : Prop :=
  ∃ lane, st_lanes st !! a = Some lane ∧ s ∈ lane.

Definition slots_forward (lanes : list (list Slot)) : Prop :=
  ∀ a lane s, lanes !! a = Some lane → s ∈ lane → f_le (s_start s) (s_end s) = true.

Definition before (s s' : Slot) : Prop := f_le (s_end s) (s_start s') = true.

Record time_inv (now : f64) (st : State) (done : list nat) : Prop := {
  ti_now : not_nan now;
  ti_run r : r ∈ st_running st → f_le now (r_end r) = true;
  ti_place a s : placed st a s →
    (s_task s ∈ done ∧ f_le (s_end s) now = true) ∨
    ∃ r, r ∈ st_running st ∧ r_pos r = s_task s ∧ r_agent r = a ∧ r_end r = s_end s;
  ti_lane a lane i j s s' : st_lanes st !! a = Some lane →
    lane !! i = Some s → lane !! j = Some s' → i < j → before s s';
  ti_pre a b s s' : placed st a s → placed st b s' →
    prereq (g_tasks g) (s_task s) (s_task s') → before s s';
  ti_conf a b s s' : placed st a s → placed st b s' → s_task s ≠ s_task s' →
    conflict_at g (s_task s) (s_task s') = true → before s s' ∨ before s' s }.

Lemma initial_time : time_inv f_zero (initial_state g agents) [].
Proof.
  assert (Hno : ∀ a lane, st_lanes (initial_state g agents) !! a = Some lane → lane = []).
  { intros a lane Hl. by apply lookup_replicate in Hl as []. }
  assert (Hpl : ∀ a s, ¬ placed (initial_state g agents) a s).
  { intros a s (lane & ->%Hno & Hs). by apply not_elem_of_nil in Hs. }
  split; try (intros; exfalso; by eapply Hpl).
  - done.
  - by intros r ?%not_elem_of_nil.
  - intros a lane i j s s' ->%Hno Hi. done.
Qed.

(** What is ready or running waits for nothing that is left. *)
Lemma released st done rest x :
  plan_inv st done rest → x ∈ st_ready st ++ running_positions st →
  x ∈ rest ∧ ∀ p, prereq (g_tasks g) p x → p ∉ rest.
Proof.
  intros Hi Hx. pose proof (pi_kahn _ _ _ Hi) as Hk.
  rewrite (inv_bag _ _ _ _ _ _ Hk), list_elem_of_filter in Hx. destruct Hx as [Hp Hx].
  split; [done|]. intros p Hpre Hr. apply (elem_of_succ_once g Hg) in Hpre.
  assert (0 < pending (succ_once g) x rest) by (apply pending_pos; eauto). lia.
Qed.

Lemma done_rest st done rest x : plan_inv st done rest → x ∈ done → x ∉ rest.
Proof.
  intros Hi. pose proof (NoDup_seq 0 n) as Hn.
  rewrite <- (inv_perm _ _ _ _ _ _ (pi_kahn _ _ _ Hi)) in Hn. apply NoDup_app in Hn as (_ & H & _).
  apply H.
Qed.

(** A task that was started has its prerequisites done. *)
Lemma placed_prereqs st done rest now a s p :
  plan_inv st done rest → time_inv now st done → placed st a s →
  prereq (g_tasks g) p (s_task s) → p ∉ rest.
Proof.
  intros Hi Ht Hs Hp. destruct (ti_place _ _ _ Ht _ _ Hs) as [[Hd _]|(r & Hr & Heq & _)].
  - apply list_elem_of_lookup in Hd as [i Hd].
    assert (p ∈ take i done).
    { eapply (inv_topo _ _ _ _ _ _ (pi_kahn _ _ _ Hi)); [exact Hd| |].
      - by apply prereq_bound in Hp as [].
      - by apply (elem_of_succ_once g Hg). }
    eapply done_rest; [done|]. by eapply elem_of_take in H as (? & ?%list_elem_of_lookup_2 & _).
  - eapply (released st done rest (s_task s)); [done| |done].
    apply elem_of_app. right. rewrite <- Heq. apply list_elem_of_fmap. eauto.
Qed.

Lemma overlap_sym x y : overlap x y = overlap y x.
Proof.
  unfold overlap. rewrite <- !orb_assoc. f_equal; [by apply bool_decide_ext|]. apply orb_comm.
Qed.

Lemma conflict_at_sym p q : conflict_at g p q = conflict_at g q p.
Proof.
  unfold conflict_at. destruct (g_tasks g !! p) as [a|], (g_tasks g !! q) as [b|]; try done.
  unfold conflict. rewrite String.eqb_sym. f_equal.
  apply eq_true_iff_eq. rewrite !existsb_exists. setoid_rewrite existsb_exists.
  split; intros (x & Hx & y & Hy & Ho); exists y; (split; [done|]); exists x; by rewrite overlap_sym.
Qed.

Lemma alter_snoc_lookup (ls : list (list Slot)) a x b lane' :
  alter (λ l, l ++ [x]) a ls !! b = Some lane' →
  ls !! b = Some lane' ∨ b = a ∧ ∃ lane, ls !! a = Some lane ∧ lane' = lane ++ [x].
Proof.
  destruct (decide (a = b)) as [->|Hne].
  - rewrite list_lookup_alter_eq. intros (lane & ? & ->)%fmap_Some. right. eauto.
  - rewrite list_lookup_alter_ne by done. by left.
Qed.

Section start.
Context (now : f64) (st : State) (done rest : list nat) (next agent : nat) (ready' : list nat).
Context (Hi : plan_inv st done rest) (Ht : time_inv now st done).
Context (Hready : st_ready st ≡ₚ next :: ready') (Hagent : agent ∈ st_free st).
Context (Hfree : ∀ r, r ∈ st_running st → conflict_at g next (r_pos r) = false).
Let x : Slot := mk_slot next now (now + size_at g next)%f64.
Let st' : State := mk_state (st_indegree st) ready'
  (mk_running (now + size_at g next)%f64 agent next :: st_running st)
  (remove_one agent (st_free st)) (alter (λ lane, lane ++ [x]) agent (st_lanes st)).
Context (Hforward : slots_forward (st_lanes st')).

Lemma placed_start a s : placed st' a s → placed st a s ∨ a = agent ∧ s = x.
Proof.
  intros (lane & [Hl|(-> & l & Hl & ->)]%alter_snoc_lookup & Hs).
  - left. by exists lane.
  - apply elem_of_app in Hs as [Hs|Hs%list_elem_of_singleton]; [|by right]. left. by exists l.
Qed.

Lemma next_rest : next ∈ rest ∧ ∀ p, prereq (g_tasks g) p next → p ∉ rest.
Proof. apply (released st done); [done|]. rewrite Hready. by left. Qed.

(** What an old slot is to the new one. *)
Lemma old_new a s : placed st a s →
  before s x ∨ ∃ r, r ∈ st_running st ∧ r_pos r = s_task s ∧ r_agent r = a ∧ s_task s ∈ rest.
Proof.
  intros Hs. destruct (ti_place _ _ _ Ht _ _ Hs) as [[_ ?]|(r & Hr & Heq & Ha & _)]; [by left|].
  right. exists r. split_and!; try done.
  eapply (released st done rest); [done|]. apply elem_of_app. right. rewrite <- Heq.
  apply list_elem_of_fmap. eauto.
Qed.

Lemma new_forward : f_le now (now + size_at g next)%f64 = true.
Proof.
  destruct (lookup_lt_is_Some_2 (st_lanes st) agent) as [lane Hlane].
  { rewrite (pi_lanes _ _ _ Hi). pose proof (pi_agents _ _ _ Hi) as Hag.
    assert (Hin : agent ∈ st_free st ++ running_agents st) by (apply elem_of_app; by left).
    rewrite Hag, elem_of_seq in Hin. lia. }
  apply (Hforward agent (lane ++ [x]) x); [|apply elem_of_app; right; by left].
  cbn. by rewrite list_lookup_alter_eq, Hlane.
Qed.

Lemma start_time : time_inv now st' done.
Proof.
  destruct next_rest as [Hnext Hpre]. split.
  - apply (ti_now _ _ _ Ht).
  - intros r [->|Hr]%elem_of_cons; [apply new_forward|by apply (ti_run _ _ _ Ht)].
  - intros a s [Hs|[-> ->]]%placed_start.
    + destruct (ti_place _ _ _ Ht _ _ Hs) as [?|(r & ? & ?)]; [by left|].
      right. exists r. split; [by right|done].
    + right. eexists. split; [by left|done].
  - intros a lane i j s s' [Hl|(-> & l & Hl & ->)]%alter_snoc_lookup Hs Hs' Hij.
    { by eapply (ti_lane _ _ _ Ht). }
    apply lookup_app_Some in Hs' as [Hs'|[Hj Hs']].
    + rewrite lookup_app_l in Hs by (apply lookup_lt_Some in Hs'; lia).
      by eapply (ti_lane _ _ _ Ht).
    + apply list_lookup_singleton_Some in Hs' as [Hj0 <-].
      rewrite lookup_app_l in Hs by lia.
      destruct (old_new agent s) as [?|(r & Hr & _ & Ha & _)]; [|done|].
      { exists l. split; [done|]. by eapply list_elem_of_lookup_2. }
      exfalso. pose proof (NoDup_seq 0 agents) as Hn. rewrite <- (pi_agents _ _ _ Hi) in Hn.
      apply NoDup_app in Hn as (_ & Hd & _). apply (Hd agent Hagent).
      rewrite <- Ha. apply list_elem_of_fmap. eauto.
  - intros a b s s' [Hs|[-> ->]]%placed_start [Hs'|[-> ->]]%placed_start Hp.
    + by eapply (ti_pre _ _ _ Ht).
    + destruct (old_new a s Hs) as [?|(r & _ & _ & _ & Hr)]; [done|].
      exfalso. by eapply Hpre.
    + exfalso. by eapply (placed_prereqs st done rest now b s').
    + exfalso. by eapply Hpre.
  - intros a b s s' [Hs|[-> ->]]%placed_start [Hs'|[-> ->]]%placed_start Hne Hc.
    + by eapply (ti_conf _ _ _ Ht).
    + destruct (old_new a s Hs) as [?|(r & Hr & Heq & _)]; [by left|].
      apply Hfree in Hr. rewrite conflict_at_sym in Hc. cbn in Hc. congruence.
    + destruct (old_new b s' Hs') as [?|(r & Hr & Heq & _)]; [by right|].
      apply Hfree in Hr. cbn in Hc. congruence.
    + done.
Qed.
End start.

Lemma complete_lanes r st : st_lanes (complete g effective r st) = st_lanes st.
Proof. unfold complete. by destruct (release _ _ _). Qed.

Lemma complete_running r st :
  st_running (complete g effective r st) = remove_running r (st_running st).
Proof. unfold complete. by destruct (release _ _ _). Qed.

Lemma complete_time now st done rest r :
  plan_inv st done rest → time_inv now st done → r ∈ st_running st →
  total_cmp (r_end r) now = Eq →
  time_inv now (complete g effective r st) (done ++ [r_pos r]).
Proof.
  intros Hi Ht Hr Hc. pose proof (remove_running_perm _ _ _ _ Hi Hr) as Hrun.
  pose proof (ti_run _ _ _ Ht r Hr) as Hle.
  split; unfold placed; rewrite ?complete_lanes, ?complete_running; try apply Ht.
  - intros r' Hr'. apply (ti_run _ _ _ Ht). rewrite Hrun. by right.
  - intros a s Hs. destruct (ti_place _ _ _ Ht a s Hs) as [[? ?]|(r' & Hr' & Heq & Ha & He)].
    + left. split; [apply elem_of_app; by left|done].
    + rewrite Hrun in Hr'. apply elem_of_cons in Hr' as [->|Hr'].
      * left. rewrite <- Heq, <- He. split; [apply elem_of_app; right; by left|].
        apply f_le_nan in Hle as [? ?]. apply total_cmp_le; [done..|]. by rewrite Hc.
      * right. eauto 10.
Qed.

Lemma advance_time now st done r :
  time_inv now st done → r ∈ st_running st →
  (∀ r', r' ∈ st_running st → total_cmp (r_end r) (r_end r') ≠ Gt) →
  time_inv (r_end r) st done.
Proof.
  intros Ht Hr Hmin. pose proof (ti_run _ _ _ Ht r Hr) as Hle. split; try apply Ht.
  - by apply f_le_nan in Hle as [].
  - intros r' Hr'. pose proof (ti_run _ _ _ Ht r' Hr') as Hle'.
    apply f_le_nan in Hle as [_ ?]. apply f_le_nan in Hle' as [_ ?].
    apply total_cmp_le; auto.
  - intros a s Hs. destruct (ti_place _ _ _ Ht a s Hs) as [[? ?]|?]; [left|by right].
    split; [done|]. by eapply f_le_trans.
Qed.

Lemma step_forward c c' :
  plan_step c c' → slots_forward (st_lanes c'.2) → slots_forward (st_lanes c.2).
Proof.
  intros Hs Hf a lane s Hl Hin. destruct Hs; cbn in *; try by eapply Hf.
  - destruct (decide (a = agent)) as [->|Hne].
    + eapply (Hf agent); [|apply elem_of_app; by left]. by rewrite list_lookup_alter_eq, Hl.
    + eapply (Hf a); [|done]. by rewrite list_lookup_alter_ne.
  - rewrite complete_lanes in Hf. by eapply Hf.
Qed.

(** Every configuration the loops reach satisfies both invariants. *)
Lemma steps_time c :
  rtc plan_step (f_zero, initial_state g agents) c → slots_forward (st_lanes c.2) →
  ∃ done rest, plan_inv c.2 done rest ∧ time_inv c.1 c.2 done.
Proof.
  revert c. apply (rtc_ind_r (λ c, slots_forward (st_lanes c.2) →
    ∃ done rest, plan_inv c.2 done rest ∧ time_inv c.1 c.2 done)).
  { intros _. exists [], (seq 0 n). split; [apply initial_inv|apply initial_time]. }
  intros c c' _ Hstep IH Hf.
  destruct (IH (step_forward _ _ Hstep Hf)) as (done & rest & Hi & Ht). clear IH.
  destruct Hstep as [now st next ready' agent|now st ready'|now st r|now st r]; cbn in *.
  - exists done, rest. split; [by apply start_inv|]. by eapply start_time.
  - exists done, rest. split; [by apply plan_inv_shuffle|]. by split; apply Ht.
  - exists done, rest. split; [done|]. by eapply advance_time.
  - destruct (complete_inv _ _ _ _ Hi H) as (rest' & _ & Hi').
    exists (done ++ [r_pos r]), rest'. split; [done|]. by eapply complete_time.
Qed.
End invariant.

(** ** Properties *)

(** C36: a schedule for at least one agent has one lane for each of the (at most
    256) agents and places every task exactly once; the loops always get there,
    whatever the sizes are. *)
Theorem schedule_complete tasks g agents policy :
  Graph_new tasks = Ok g → 0 < agents →
  length (lanes (schedule g agents policy)) = Nat.min agents MAX_AGENTS ∧
  s_task <$> mjoin (lanes (schedule g agents policy)) ≡ₚ seq 0 (length tasks).
Proof.
  intros [<- Hg]%Graph_new_ok Ha. unfold schedule.
  assert (Hm : 0 < Nat.min agents MAX_AGENTS) by (unfold MAX_AGENTS; lia).
  destruct (Nat.eqb_spec (Nat.min agents MAX_AGENTS) 0) as [?|_]; [lia|]. cbn [lanes].
  set (eff := o_effective (order g policy)).
  destruct (schedule_loop_final g Hg eff (Nat.min agents MAX_AGENTS) (S (length (g_tasks g)))
    f_zero _ _ _ (initial_inv g Hg (Nat.min agents MAX_AGENTS)))
    as (now & st & fin & rest & _ & -> & Hi & Hr & Hrun); [rewrite length_seq; lia|done|].
  split; [apply (pi_lanes _ _ _ _ _ Hi)|].
  rewrite (pi_slots _ _ _ _ _ Hi). unfold running_positions. rewrite Hrun. cbn.
  rewrite app_nil_r. by eapply final_done.
Qed.

(** C37: in a schedule whose slots do not end before they start, each agent works
    on one task at a time, no task starts before its prerequisites have ended,
    and two tasks that share files are never under way at once. *)
Theorem schedule_valid tasks g agents policy :
  Graph_new tasks = Ok g → slots_forward (lanes (schedule g agents policy)) →
  let L := lanes (schedule g agents policy) in
  (∀ a lane i j s s', L !! a = Some lane → lane !! i = Some s → lane !! j = Some s' → i < j →
     before s s') ∧
  (∀ s s', s ∈ mjoin L → s' ∈ mjoin L → prereq tasks (s_task s) (s_task s') → before s s') ∧
  (∀ s s', s ∈ mjoin L → s' ∈ mjoin L → s_task s ≠ s_task s' →
     conflict_at g (s_task s) (s_task s') = true → before s s' ∨ before s' s).
Proof.
  intros [<- Hg]%Graph_new_ok. unfold schedule.
  destruct (Nat.eqb_spec (Nat.min agents MAX_AGENTS) 0) as [?|Hm]; cbn [lanes].
  { intros _. split_and!; [done|by intros ? ? ?%not_elem_of_nil..]. }
  set (eff := o_effective (order g policy)).
  destruct (schedule_loop_final g Hg eff (Nat.min agents MAX_AGENTS) (S (length (g_tasks g)))
    f_zero _ _ _ (initial_inv g Hg (Nat.min agents MAX_AGENTS)))
    as (now & st & _ & _ & Hst & -> & _); [rewrite length_seq; lia|lia|].
  intros Hf. destruct (steps_time g Hg eff _ _ Hst Hf) as (done & rest & _ & Ht).
  assert (Hpl : ∀ s, s ∈ mjoin (st_lanes st) → ∃ a, placed st a s).
  { intros s (lane & Hs & [a Ha]%list_elem_of_lookup)%list_elem_of_join. by exists a, lane. }
  split_and!.
  - apply (ti_lane _ _ _ _ Ht).
  - intros s s' [a Hs]%Hpl [b Hs']%Hpl. by eapply (ti_pre _ _ _ _ Ht).
  - intros s s' [a Hs]%Hpl [b Hs']%Hpl. by eapply (ti_conf _ _ _ _ Ht).
Qed.

(** ** Examples *)

(** [b] needs [a]; [c] shares a directory with [a]. *)
Definition shop_tasks : list Task :=
  [mk_task 0 "a" "" "other" 1 None [] (f_of_Z 3) (f_of_Z 1) ["src/x"];
   mk_task 1 "b" "" "other" 1 None ["a"] (f_of_Z 2) (f_of_Z 1) [];
   mk_task 2 "c" "" "other" 1 None [] (f_of_Z 4) (f_of_Z 1) ["src"]].

Lemma schedule_complete_witness :
  ∃ g, Graph_new shop_tasks = Ok g ∧
    length (lanes (schedule g 2 Fifo)) = 2 ∧
    s_task <$> mjoin (lanes (schedule g 2 Fifo)) ≡ₚ [0; 1; 2].
Proof.
  eexists. split; [by vm_compute|].
  eapply (schedule_complete shop_tasks _ 2 Fifo); [by vm_compute|lia].
Defined.

Lemma slots_forward_check L :
  forallb (forallb (λ s, f_le (s_start s) (s_end s))) L = true → slots_forward L.
Proof.
  intros H a lane s Hl%list_elem_of_lookup_2 Hs. apply list_elem_of_In in Hl, Hs.
  rewrite forallb_forall in H. specialize (H lane Hl). rewrite forallb_forall in H. auto.
Qed.

(** The task that shares a directory waits, on an agent that is free. *)
Lemma schedule_valid_witness :
  ∃ g, Graph_new shop_tasks = Ok g ∧
    lanes (schedule g 2 Fifo) =
      [[mk_slot 0 f_zero (f_of_Z 3); mk_slot 1 (f_of_Z 3) (f_of_Z 5)];
       [mk_slot 2 (f_of_Z 3) (f_of_Z 7)]] ∧
    before (mk_slot 0 f_zero (f_of_Z 3)) (mk_slot 1 (f_of_Z 3) (f_of_Z 5)).
Proof.
  destruct (Graph_new shop_tasks) as [g|e] eqn:E; [|by vm_compute in E].
  assert (HL : lanes (schedule g 2 Fifo) =
      [[mk_slot 0 f_zero (f_of_Z 3); mk_slot 1 (f_of_Z 3) (f_of_Z 5)];
       [mk_slot 2 (f_of_Z 3) (f_of_Z 7)]]).
  { vm_compute in E. injection E as <-. by vm_compute. }
  exists g. split; [done|]. split; [done|].
  destruct (schedule_valid shop_tasks g 2 Fifo E) as (_ & Hpre & _).
  { rewrite HL. apply slots_forward_check. by vm_compute. }
  rewrite HL in Hpre. apply Hpre; [apply elem_of_cons; by left|cbn; set_solver|].
  eexists _, _. split; [done|]. split; [done|]. by left.
Defined.
