(* ===== verification/Assign.v ===== *)
(** * Assignment as a congestion game

    [src/crates/agora-sched/src/assign.rs]: each agent takes the root task (or
    idleness) that costs it least against the others; best-response passes go on
    until one changes nothing. *)

From S2P Require Import Prelude F64 Strs PyFmt Task Graph Order Plan.

Inductive PyNum : Type := PyInt (n : Z) | PyFloat (x : f64).

Record Assignment : Type := mk_assignment {
  choices : list (option nat);
  costs : list PyNum;
  potential : PyNum;
  rounds : nat }.

(** A root task, or idleness, with its place in the ranking. *)
Record Candidate : Type := mk_candidate { c_task : option nat; c_pos : Z }.

Record Game : Type := mk_game {
  gm_graph : Graph;
  gm_idle : f64;
  gm_duplicate : f64;
  gm_penalty : f64;
  gm_none : Candidate;
  gm_ranked : list Candidate }.

Definition to_i64 (n : nat) : Z := Z.min (Z.of_nat n) i64_max.

Definition is_root (g : Graph) (t : nat) : bool :=
  match g_tasks g !! t with Some task => bool_decide (t_after task = []) | None => false end.

Definition Game_new (graph : Graph) (policy : OrderPolicy) (conflict_cost : option f64) : Game :=
  let roots := filter (λ t, is_root graph t = true) (o_order (order graph policy)) in
  let count := to_i64 (length roots) in
  let ranked := imap (λ position task, mk_candidate (Some task) (to_i64 position)) roots in
  let duplicate := f_of_Z (sat_i64 (count + 1)) in
  mk_game graph (f_of_Z count) duplicate (default duplicate conflict_cost)
    (mk_candidate None count) ranked.

Definition clash (gm : Game) (first second : nat) : f64 :=
  if Nat.eqb first second then gm_duplicate gm
  else if conflict_at (gm_graph gm) first second then gm_penalty gm else f_zero.

Definition cost (gm : Game) (candidate : Candidate) (others : list Candidate) : PyNum :=
  match c_task candidate with
  | None => PyFloat (gm_idle gm)
  | Some task =>
      match clash gm task <$> omap c_task others with
      | [] => PyInt (c_pos candidate)
      | terms => PyFloat (f_of_Z (c_pos candidate) + py_fsum terms)%f64
      end
  end.

Definition as_f64 (num : PyNum) : f64 :=
  match num with PyInt value => f_of_Z value | PyFloat value => value end.

Definition key (gm : Game) (candidate : Candidate) (others : list Candidate) : f64 * f64 :=
  (as_f64 (cost gm candidate others), f_of_Z (c_pos candidate)).

Definition key_lt (a b : f64 * f64) : bool :=
  if f_eq a.1 b.1 then f_lt a.2 b.2 else f_lt a.1 b.1.

(** The candidate kept so far, with its key. *)
Definition best_step (gm : Game) (others : list Candidate)
    (acc : Candidate * (f64 * f64)) (candidate : Candidate) : Candidate * (f64 * f64) :=
  let k := key gm candidate others in
  if key_lt k acc.2 then (candidate, k) else acc.

Definition best (gm : Game) (others : list Candidate) : Candidate :=
  (foldl (best_step gm others) (gm_none gm, key gm (gm_none gm) others) (gm_ranked gm)).1.

(** [choices[:agent] + choices[agent + 1:]]. *)
Definition others_of (cs : list Candidate) (agent : nat) : list Candidate :=
  take agent cs ++ drop (S agent) cs.

Definition MAX_ROUNDS : nat := 10000.

(** One agent's turn in a pass. *)
Definition respond (gm : Game) (acc : list Candidate * bool) (agent : nat) :
    list Candidate * bool :=
  let '(cs, changed) := acc in
  let others := others_of cs agent in
  let b := best gm others in
  match cs !! agent with
  | Some current =>
      if f_lt (as_f64 (cost gm b others)) (as_f64 (cost gm current others))
      then (<[agent := b]> cs, true) else (cs, changed)
  | None => (cs, changed)
  end.

Definition pass (gm : Game) (cs : list Candidate) : list Candidate * bool :=
  foldl (respond gm) (cs, false) (seq 0 (length cs)).

(** The choices settled on and the number of passes run. *)
Fixpoint settle (gm : Game) (cs : list Candidate) (max_rounds : nat) : list Candidate * nat :=
  match max_rounds with
  | O => (cs, 0)
  | S more =>
      let '(cs', changed) := pass gm cs in
      if changed then let '(cs'', r) := settle gm cs' more in (cs'', S r) else (cs', 1)
  end.

Fixpoint greedy (gm : Game) (agents : nat) (cs : list Candidate) : list Candidate :=
  match agents with
  | O => cs
  | S more => greedy gm more (cs ++ [best gm cs])
  end.

(** The clash of every pair of agents that both chose a task. *)
Fixpoint pair_terms (gm : Game) (cs : list Candidate) : list f64 :=
  match cs with
  | [] => []
  | a :: cs' =>
      match c_task a with
      | Some x => clash gm x <$> omap c_task cs'
      | None => []
      end ++ pair_terms gm cs'
  end.

Definition potential_of (gm : Game) (cs : list Candidate) : PyNum :=
  let idle_count := length (filter (λ c, c_task c = None) cs) in
  let rank_sum := foldl (λ a b, sat_i64 (a + b)) 0%Z (c_pos <$> filter (λ c, c_task c ≠ None) cs) in
  let idle_total := sat_i64 (to_i64 idle_count * c_pos (gm_none gm)) in
  let first_sum := sat_i64 (rank_sum + idle_total) in
  match pair_terms gm cs with
  | [] => if Nat.eqb idle_count 0 then PyInt first_sum else PyFloat (f_of_Z first_sum)
  | terms => PyFloat (f_of_Z first_sum + py_fsum terms)%f64
  end.

Definition assign (g : Graph) (agents : nat) (policy : OrderPolicy) (conflict_cost : option f64) :
    Assignment :=
  let agents := Nat.min agents MAX_AGENTS in
  let gm := Game_new g policy conflict_cost in
  let '(cs, r) := settle gm (greedy gm agents []) MAX_ROUNDS in
  mk_assignment (c_task <$> cs) (imap (λ agent c, cost gm c (others_of cs agent)) cs)
    (potential_of gm cs) r.

(** ** Best responses *)

Definition options (gm : Game) : list Candidate := gm_none gm :: gm_ranked gm.

(** What a candidate costs, as a number. *)
Definition price (gm : Game) (c : Candidate) (others : list Candidate) : f64 :=
  as_f64 (cost gm c others).

Lemma f_eq_lt_r x y z : f_eq x y = true → f_lt z x = f_lt z y.
Proof.
  intros He. pose proof (f_eq_nan x y He) as [Hx Hy]. apply f_eq_cmp in He; [|done..].
  assert (Hxy : f_le x y = true) by (apply f_le_cmp; [done..|by rewrite He]).
  assert (Hyx : f_le y x = true).
  { destruct (f_le_total y x Hy Hx) as [?|Hl]; [done|].
    apply f_not_lt_le; [done..|]. apply not_true_is_false. intros Hlt.
    apply f_lt_cmp in Hlt; [congruence|done..]. }
  apply eq_true_iff_eq. split; intros H; by eapply f_lt_le_trans.
Qed.

Lemma key_lt_first a b : key_lt a b = true → f_lt a.1 b.1 = true ∨ f_eq a.1 b.1 = true.
Proof. unfold key_lt. destruct (f_eq a.1 b.1); auto. Qed.

Lemma key_lt_false a b : key_lt a b = false → f_lt a.1 b.1 = false.
Proof.
  unfold key_lt. destruct (f_eq a.1 b.1) eqn:He; [|done]. intros _.
  rewrite <- (f_eq_lt_r _ _ _ He). apply f_lt_irrefl.
Qed.

Lemma best_fold gm others l acc seen :
  acc.2 = key gm acc.1 others → acc.1 ∈ seen →
  (∀ d, d ∈ seen → f_lt (price gm d others) (price gm acc.1 others) = false) →
  let r := foldl (best_step gm others) acc l in
  r.1 ∈ seen ++ l ∧
  ∀ d, d ∈ seen ++ l → f_lt (price gm d others) (price gm r.1 others) = false.
Proof.
  revert acc seen. induction l as [|c l IH]; intros [b kb] seen Hk Hb Hmin; cbn [foldl].
  { by rewrite app_nil_r. }
  cbn in Hk, Hb, Hmin. subst kb.
  replace (seen ++ c :: l) with ((seen ++ [c]) ++ l) by (by rewrite <- app_assoc).
  unfold best_step at 2 4. cbn [fst snd].
  destruct (key_lt (key gm c others) (key gm b others)) eqn:Hlt.
  - apply IH; [done|set_solver|]. cbn. intros d Hd.
    apply elem_of_app in Hd as [Hd| ->%list_elem_of_singleton]; [|apply f_lt_irrefl].
    apply not_true_is_false. intros Hc. specialize (Hmin d Hd).
    apply key_lt_first in Hlt as [Hlt|Heq]; cbn in *.
    + assert (f_lt (price gm d others) (price gm b others) = true); [|congruence].
      eapply f_lt_le_trans; [exact Hc|]. by apply f_lt_le.
    + unfold price in *. rewrite (f_eq_lt_r _ _ _ Heq) in Hc. congruence.
  - apply IH; [done|set_solver|]. cbn. intros d Hd.
    apply elem_of_app in Hd as [Hd| ->%list_elem_of_singleton]; [by apply Hmin|].
    by apply key_lt_false in Hlt.
Qed.

(** No option is cheaper than the best one, and it is an option. *)
Lemma best_minimal gm others :
  best gm others ∈ options gm ∧
  ∀ d, d ∈ options gm → f_lt (price gm d others) (price gm (best gm others) others) = false.
Proof.
  apply (best_fold gm others (gm_ranked gm) (gm_none gm, key gm (gm_none gm) others) [gm_none gm]).
  - done.
  - by left.
  - intros d ->%list_elem_of_singleton. apply f_lt_irrefl.
Qed.

(** No agent can do better by changing its mind alone. *)
Definition equilibrium (gm : Game) (cs : list Candidate) : Prop :=
  ∀ agent c d, cs !! agent = Some c → d ∈ options gm →
    f_lt (price gm d (others_of cs agent)) (price gm c (others_of cs agent)) = false.

Section play.
Context (gm : Game) (Hidle : not_nan (gm_idle gm)) (Hnone : c_task (gm_none gm) = None).

Lemma best_num others : not_nan (price gm (best gm others) others).
Proof.
  assert (H0 : not_nan (price gm (gm_none gm) others)) by (unfold price, cost; by rewrite Hnone).
  unfold best. assert (Hk : key gm (gm_none gm) others = key gm (gm_none gm) others) by done.
  revert H0 Hk. generalize (gm_none gm) at 1 2 4 as b.
  generalize (key gm (gm_none gm) others) as kb. intros kb b.
  revert b kb. induction (gm_ranked gm) as [|c l IH]; intros b kb H0 Hk; [done|].
  cbn [foldl]. unfold best_step at 2. cbn [fst snd].
  destruct (key_lt (key gm c others) kb) eqn:Hlt; [|by apply IH].
  apply IH; [|done]. subst kb. apply key_lt_first in Hlt as [Hlt|Hlt].
  - by apply f_lt_nan in Hlt as [].
  - by apply f_eq_nan in Hlt as [].
Qed.

(** An agent that keeps its choice has no cheaper option. *)
Lemma respond_false cs changed agent cs' :
  respond gm (cs, changed) agent = (cs', false) →
  cs' = cs ∧ changed = false ∧ ∀ c d, cs !! agent = Some c → d ∈ options gm →
    f_lt (price gm d (others_of cs agent)) (price gm c (others_of cs agent)) = false.
Proof.
  unfold respond. destruct (cs !! agent) as [c|].
  2: { intros [= <- ->]. split_and!; [done..|]. intros. congruence. }
  destruct (f_lt _ _) eqn:Hlt; intros [= <- ->]. split_and!; [done..|].
  intros c' d [= <-] Hd. destruct (best_minimal gm (others_of cs agent)) as [_ Hb].
  specialize (Hb d Hd). apply not_true_is_false. intros Hc.
  pose proof (f_lt_nan _ _ Hc) as [Hdn Hcn]. pose proof (best_num (others_of cs agent)) as Hbn.
  apply f_not_lt_le in Hb; [|done..].
  assert (f_lt (price gm (best gm (others_of cs agent)) (others_of cs agent))
    (price gm c (others_of cs agent)) = true) by (by eapply f_le_lt_trans).
  unfold price in *. congruence.
Qed.

Lemma respond_fold_false l cs changed cs' :
  foldl (respond gm) (cs, changed) l = (cs', false) →
  cs' = cs ∧ changed = false ∧ ∀ agent c d, agent ∈ l → cs !! agent = Some c → d ∈ options gm →
    f_lt (price gm d (others_of cs agent)) (price gm c (others_of cs agent)) = false.
Proof.
  revert cs changed. induction l as [|a l IH]; intros cs changed; cbn [foldl].
  { intros [= <- ->]. split_and!; [done..|]. by intros ? ? ? ?%not_elem_of_nil. }
  destruct (respond gm (cs, changed) a) as [cs1 ch1] eqn:Hr.
  intros (-> & -> & Hl)%IH. apply respond_false in Hr as (-> & -> & Ha).
  split_and!; [done..|]. intros agent c d [->|Hin]%elem_of_cons; [by apply Ha|by apply Hl].
Qed.

Definition sound_choices (cs : list Candidate) : Prop := Forall (λ c, c ∈ options gm) cs.

Lemma respond_sound cs changed agent :
  sound_choices cs → let r := (respond gm (cs, changed) agent).1 in
  sound_choices r ∧ length r = length cs.
Proof.
  intros Hc. unfold respond. destruct (cs !! agent); [|done]. destruct (f_lt _ _); [|done].
  cbn. rewrite length_insert. split; [|done]. apply Forall_insert; [done|]. apply best_minimal.
Qed.

Lemma pass_sound cs : sound_choices cs →
  sound_choices (pass gm cs).1 ∧ length (pass gm cs).1 = length cs.
Proof.
  unfold pass. generalize false (seq 0 (length cs)). intros b l. revert cs b.
  induction l as [|a l IH]; intros cs b Hc; [done|]. cbn [foldl].
  destruct (respond_sound cs b a Hc) as [H1 H2].
  destruct (respond gm (cs, b) a) as [cs1 b1]. cbn in H1, H2. rewrite <- H2. by apply IH.
Qed.

Lemma settle_spec max_rounds cs cs' r :
  settle gm cs max_rounds = (cs', r) → sound_choices cs →
  sound_choices cs' ∧ length cs' = length cs ∧ r ≤ max_rounds ∧
  (r < max_rounds → equilibrium gm cs').
Proof.
  revert cs cs' r. induction max_rounds as [|m IH]; intros cs cs' r; cbn [settle].
  { intros [= <- <-] Hc. split_and!; [done..|lia|lia]. }
  intros H Hc. destruct (pass_sound cs Hc) as [Hp Hlen].
  destruct (pass gm cs) as [cs1 [|]] eqn:Hpass; cbn in Hp, Hlen.
  - destruct (settle gm cs1 m) as [cs2 r2] eqn:Hs. injection H as <- <-.
    apply IH in Hs as (H1 & H2 & H3 & H4); [|done].
    split_and!; [done|lia|lia|]. intros. apply H4. lia.
  - injection H as <- <-. split_and!; [done..|lia|]. intros _.
    apply respond_fold_false in Hpass as (-> & _ & He). intros agent c d Ha Hd.
    eapply He; [|done..]. apply elem_of_seq. apply lookup_lt_Some in Ha. lia.
Qed.

Lemma greedy_sound agents cs :
  sound_choices cs → sound_choices (greedy gm agents cs) ∧
  length (greedy gm agents cs) = length cs + agents.
Proof.
  revert cs. induction agents as [|m IH]; intros cs Hc; cbn [greedy]; [split; [done|lia]|].
  destruct (IH (cs ++ [best gm cs])) as [H1 H2].
  { apply Forall_app. split; [done|]. apply Forall_singleton, best_minimal. }
  split; [done|]. rewrite H2, length_app. cbn. lia.
Qed.
End play.

(** ** Properties *)

(** C38: every agent gets a root task of the order or idleness, at the cost that
    is reported; the passes end by the limit, and when they end before it no
    agent has a cheaper option than its own against the others' choices: the
    assignment is an equilibrium, whatever the conflict cost is. *)
Theorem assign_equilibrium g agents policy conflict_cost :
  let gm := Game_new g policy conflict_cost in
  let a := assign g agents policy conflict_cost in
  ∃ cs, choices a = c_task <$> cs ∧ length cs = Nat.min agents MAX_AGENTS ∧
    (∀ c, c ∈ cs → c ∈ options gm) ∧
    costs a = imap (λ agent c, cost gm c (others_of cs agent)) cs ∧
    rounds a ≤ MAX_ROUNDS ∧
    (rounds a < MAX_ROUNDS → equilibrium gm cs).
Proof.
  cbn zeta. unfold assign. set (gm := Game_new g policy conflict_cost).
  destruct (greedy_sound gm (Nat.min agents MAX_AGENTS) []) as [Hg Hl]; [constructor|].
  destruct (settle gm _ MAX_ROUNDS) as [cs r] eqn:Hs.
  apply settle_spec in Hs as (H1 & H2 & H3 & H4); [|apply f_of_Z_num|done|done].
  exists cs. cbn [choices costs rounds]. rewrite H2, Hl.
  split_and!; [done|done| |done|done|done]. by apply Forall_forall.
Qed.

(** Two agents on one task: a negative conflict cost makes a duplicate pay when a
    third agent holds a task that shares its files. *)
Definition crowd_tasks : list Task :=
  [mk_task 0 "a" "" "other" 1 None [] (f_of_Z 1) (f_of_Z 1) ["x"];
   mk_task 1 "b" "" "other" 1 None [] (f_of_Z 1) (f_of_Z 1) ["x"]].

Lemma assign_duplicates :
  ∃ g, Graph_new crowd_tasks = Ok g ∧
    choices (assign g 3 Fifo None) = [Some 0; None; None] ∧
    choices (assign g 3 Fifo (Some (f_of_Z (-10)))) = [Some 0; Some 1; Some 0].
Proof. eexists. split; [by vm_compute|]. split; by vm_compute. Qed.
