(* ===== verification/Claims.v ===== *)
(** * Names, text checks, file claims and command digests

    [src/crates/agora-sched/src/claims.rs]. SHA-256 ([sha2]) and the JSON text of
    [serde_json] are parameters. *)

From Stdlib Require Import Ascii.
From S2P Require Import Prelude Strs PyFmt Graph.

Definition MAX_ITEMS : nat := 1000.
Definition MAX_COMMAND_BYTES : Z := 262144.
Definition NAME_MAX : Z := 128.
Definition KIND_MAX : Z := 64.

(** Characters are code points. *)
Definition is_alnum_or_underscore (c : Z) : bool :=
  ((48 <=? c) && (c <=? 57) || (65 <=? c) && (c <=? 90) || (97 <=? c) && (c <=? 122)
   || (c =? 95))%Z.

(** [.], [:], [@] and [-] as well. *)
Definition is_name_rest (c : Z) : bool :=
  is_alnum_or_underscore c || ((c =? 46) || (c =? 58) || (c =? 64) || (c =? 45))%Z.

Definition is_kind_rest (c : Z) : bool := is_alnum_or_underscore c || (c =? 45)%Z.

Definition well_formed (value : string) (max_len : Z) (head rest : Z → bool) : bool :=
  negb (is_empty_str value) && (str_len value <=? max_len)%Z
  && match chars value with [] => true | c :: cs => head c && forallb rest cs end.

Definition validate_name (what value : string) : result string unit :=
  if well_formed value NAME_MAX is_alnum_or_underscore is_name_rest then Ok tt
  else Err (what +:+ " " +:+ repr_str value +:+
    " is not valid: use up to 128 letters, digits, _ . : @ or -, starting with a letter, a digit or _").

Definition validate_kind (kind : string) : result string unit :=
  if well_formed kind KIND_MAX is_alnum_or_underscore is_kind_rest then Ok tt
  else Err ("kind " +:+ repr_str kind +:+ " is not valid: use up to 64 letters, digits, _ or -").

Definition check_text (what value : string) (limit : nat) : result string unit :=
  if Nat.ltb limit (length (chars value)) then
    Err (what +:+ " is longer than " +:+ dec (Z.of_nat limit) +:+ " characters")
  else
    match List.find (λ c, negb (is_printable c)) (chars value) with
    | Some hidden =>
        Err (what +:+ " holds the control or invisible character " +:+ repr_str (encode_char hidden))
    | None => Ok tt
    end.

Definition nul : byte := byte_of 0.

(** The byte count saturates at [usize::MAX]. *)
Definition command_bytes (argv : list string) : Z :=
  foldl (λ total arg, sat_u64 (total + sat_u64 (str_len arg + 1))) 0%Z argv.

Definition check_command (argv : list string) : result string unit :=
  match argv with
  | [] => Err "no command after --"
  | _ =>
      if Nat.ltb MAX_ITEMS (length argv) || (MAX_COMMAND_BYTES <? command_bytes argv)%Z then
        Err "the command is longer than 1000 arguments or 262144 bytes"
      else if existsb (contains_byte nul) argv then Err "the command holds a NUL character"
      else Ok tt
  end.

(** ** Paths *)

Definition norm_part (parts : list string) (part : string) : list string :=
  if bool_decide (part = "") || bool_decide (part = ".") then parts
  else if bool_decide (part = "..") then take (length parts - 1) parts
  else parts ++ [part].

Definition normalise (path : string) : string :=
  match foldl norm_part [] (split_byte "/" path) with
  | [] => "/"
  | parts => "/" +:+ join "/" parts
  end.

Definition expand_home (path : string) (home : option string) : string :=
  match home with
  | Some h =>
      if bool_decide (path = "~") then h
      else match strip_prefix "~/" path with
           | Some rest => h +:+ "/" +:+ rest
           | None => path
           end
  | None => path
  end.

Definition canonical_path (path cwd : string) (home : option string) : result string string :=
  if is_empty_str path || contains_byte nul path then Err (repr_str path +:+ " is not a file path")
  else
    let expanded := expand_home path home in
    let joined := if starts_with "/" expanded then expanded else cwd +:+ "/" +:+ expanded in
    Ok (normalise joined).

Fixpoint first_conflict (files : list string) (holders : list (string * list string)) :
    option (string * string) :=
  match holders with
  | [] => None
  | (holder, held) :: rest =>
      match List.find (λ held_path, existsb (λ file, overlap file held_path) files) held with
      | Some held_path => Some (holder, held_path)
      | None => first_conflict files rest
      end
  end.

(** ** Digests *)

(** The characters of [push_ascii_json_string] are those of [pyfmt]'s JSON text. *)
Definition push_ascii_json_string (value : string) : string :=
  dq +:+ concat_map json_char (chars value) +:+ dq.

Definition workpy_document (argv : list string) (cwd : string) : string :=
  "[[" +:+ join "," (push_ascii_json_string <$> argv) +:+ "]," +:+ push_ascii_json_string cwd
  +:+ "]".

Definition hex_bytes (bs : list byte) : string := concat_map (hex_pad 2) (byte_val <$> bs).

Section digests.
(** [sha2::Sha256::digest], and the text [serde_json] gives an array of texts and
    arrays of texts. *)
Context (sha256 : string → list byte).
Context (json_text : string → list string → string → list string → string).

Definition hex_sha256 (bytes : string) : string := hex_bytes (sha256 bytes).

Definition digest (argv : list string) (cwd : string) (files : list string) : string :=
  hex_sha256 (json_text "agora-work/v1" argv cwd files).

Definition workpy_digest (argv : list string) (cwd : string) : string :=
  hex_sha256 (workpy_document argv cwd).
End digests.

(** ** Canonical paths *)

(** A part of a canonical path. *)
Definition clean (w : string) : Prop :=
  w ≠ "" ∧ w ≠ "." ∧ w ≠ ".." ∧ contains_byte "/" w = false.

(** The parts, each after a slash. *)
Definition trail (ws : list string) : string := foldr (λ w acc, "/" +:+ w +:+ acc) "" ws.

Definition path_of (ws : list string) : string :=
  match ws with [] => "/" | _ => trail ws end.

Lemma trail_join w ws : trail (w :: ws) = "/" +:+ join "/" (w :: ws).
Proof.
  revert w. induction ws as [|w' ws IH]; intros w; cbn [trail foldr]; [by rewrite str_app_nil_r|].
  change (foldr _ "" ws) with (trail ws). cbn [join]. do 2 f_equal. apply IH.
Qed.

Lemma trail_app ws vs : trail (ws ++ vs) = trail ws +:+ trail vs.
Proof.
  induction ws as [|w ws IH]; [done|]. cbn [app trail foldr].
  change (foldr _ "" (ws ++ vs)) with (trail (ws ++ vs)). change (foldr _ "" ws) with (trail ws).
  by rewrite IH, !str_app_assoc.
Qed.

Lemma normalise_path_of path : normalise path = path_of (foldl norm_part [] (split_byte "/" path)).
Proof. unfold normalise. destruct (foldl _ _ _); [done|]. cbn [path_of]. by rewrite trail_join. Qed.

Lemma split_trail ws : Forall clean ws → split_byte "/" (trail ws) = "" :: ws.
Proof.
  induction 1 as [|w ws (_ & _ & _ & Hw) Hws IH]; [done|]. cbn [trail foldr].
  change (foldr _ "" ws) with (trail ws).
  change ("/" +:+ w +:+ trail ws) with ("" +:+ String "/" (w +:+ trail ws)).
  rewrite split_app. cbn [split_byte app]. f_equal. destruct ws as [|v vs].
  - change (trail []) with "". rewrite str_app_nil_r. by apply split_none.
  - change (trail (v :: vs)) with (String "/" (v +:+ trail vs)) in *. rewrite split_app, split_none by done.
    cbn [app]. f_equal. cbn [split_byte] in IH. by injection IH.
Qed.

Lemma trail_inj ws vs : Forall clean ws → Forall clean vs → trail ws = trail vs → ws = vs.
Proof.
  intros Hw Hv H. apply split_trail in Hw, Hv. rewrite H in Hw. congruence.
Qed.

Lemma norm_parts_clean l parts :
  Forall clean parts → Forall (λ w, contains_byte "/" w = false) l →
  Forall clean (foldl norm_part parts l).
Proof.
  intros Hp Hl. revert parts Hp. induction Hl as [|w l Hw Hl IH]; intros parts Hp; [done|].
  cbn [foldl]. apply IH. unfold norm_part.
  destruct (bool_decide_reflect (w = "")), (bool_decide_reflect (w = ".")),
    (bool_decide_reflect (w = "..")); cbn; try done; [by apply Forall_take|].
  apply Forall_app. split; [done|]. by apply Forall_singleton.
Qed.

Lemma norm_parts_id ws parts : Forall clean ws → foldl norm_part parts ws = parts ++ ws.
Proof.
  intros Hw. revert parts. induction Hw as [|w ws (H1 & H2 & H3 & _) _ IH]; intros parts; cbn.
  { by rewrite app_nil_r. }
  unfold norm_part at 2. rewrite !bool_decide_false by done. cbn. rewrite IH.
  by rewrite <- app_assoc.
Qed.

Lemma normalise_clean path : ∃ ws, Forall clean ws ∧ normalise path = path_of ws.
Proof.
  exists (foldl norm_part [] (split_byte "/" path)). split; [|apply normalise_path_of].
  apply norm_parts_clean; [constructor|apply split_parts].
Qed.

Lemma normalise_id ws : Forall clean ws → normalise (path_of ws) = path_of ws.
Proof.
  intros Hw. rewrite normalise_path_of. destruct ws as [|w ws]; [done|]. cbn [path_of].
  rewrite split_trail by done.
  change (foldl norm_part [] ("" :: w :: ws)) with (foldl norm_part [] (w :: ws)).
  by rewrite norm_parts_id.
Qed.

Lemma starts_with_path_of ws : starts_with "/" (path_of ws) = true.
Proof. apply starts_with_true. destruct ws; by eexists. Qed.

(** NUL bytes come from the inputs only. *)
Lemma contains_join x sep ws :
  contains_byte x sep = false → Forall (λ w, contains_byte x w = false) ws →
  contains_byte x (join sep ws) = false.
Proof.
  intros Hs. induction 1 as [|w ws Hw Hws IH]; [done|]. destruct ws as [|v vs]; [done|].
  cbn [join] in *. rewrite !contains_app, Hw, Hs. exact IH.
Qed.

Lemma split_contains x y s :
  contains_byte x s = false → Forall (λ w, contains_byte x w = false) (split_byte y s).
Proof.
  induction s as [|c s IH]; cbn; [by constructor|]. intros [Hc Hs]%orb_false_elim.
  specialize (IH Hs). destruct (byte_eqb c y); [by constructor|].
  destruct (split_byte y s) as [|w ws]; [by repeat constructor; cbn; rewrite Hc|].
  apply Forall_cons in IH as [Hw Hws]. constructor; [|done]. cbn. by rewrite Hc.
Qed.

Lemma norm_parts_contains x l parts :
  Forall (λ w, contains_byte x w = false) parts → Forall (λ w, contains_byte x w = false) l →
  Forall (λ w, contains_byte x w = false) (foldl norm_part parts l).
Proof.
  intros Hp Hl. revert parts Hp. induction Hl as [|w l Hw Hl IH]; intros parts Hp; [done|].
  cbn [foldl]. apply IH. unfold norm_part. repeat case_match; [done|by apply Forall_take|].
  apply Forall_app. split; [done|]. by apply Forall_singleton.
Qed.

Lemma normalise_contains x path :
  byte_eqb "/" x = false → contains_byte x path = false → contains_byte x (normalise path) = false.
Proof.
  intros Hx Hp. unfold normalise.
  assert (Hf : Forall (λ w, contains_byte x w = false) (foldl norm_part [] (split_byte "/" path))).
  { apply norm_parts_contains; [constructor|by apply split_contains]. }
  assert (Hslash : contains_byte x "/" = false) by (cbn [contains_byte]; by rewrite Hx).
  destruct (foldl _ _ _); [done|]. rewrite contains_app, Hslash. by apply contains_join.
Qed.

Lemma expand_home_contains x path home :
  byte_eqb "/" x = false → contains_byte x path = false →
  from_option (contains_byte x) false home = false → contains_byte x (expand_home path home) = false.
Proof.
  intros Hx Hp Hh. unfold expand_home. destruct home as [h|]; [|done]. cbn in Hh.
  case_match; [done|]. destruct (strip_prefix "~/" path) as [r|] eqn:Hs; [|done].
  apply strip_prefix_Some in Hs as ->. rewrite contains_app in Hp. apply orb_false_elim in Hp as [_ Hr].
  rewrite !contains_app, Hh, Hr. cbn [contains_byte]. by rewrite Hx.
Qed.

(** ** Overlap *)

Lemma trim_end_nonslash w :
  contains_byte "/" w = false → trim_end_byte "/" w = w.
Proof.
  induction w as [|c w IH]; [done|]. cbn. intros [Hc Hw]%orb_false_elim. rewrite IH by done.
  destruct w; [by rewrite Hc|done].
Qed.

Lemma trim_end_app a w :
  contains_byte "/" w = false → w ≠ "" → trim_end_byte "/" (a +:+ w) = a +:+ w.
Proof.
  intros Hw Hne. induction a as [|c a IH]; [by apply trim_end_nonslash|].
  rewrite str_app_cons. cbn [trim_end_byte]. rewrite IH.
  destruct (a +:+ w) eqn:E; [|done]. destruct a; [|done]. by rewrite str_app_nil_l in E.
Qed.

Lemma trim_path_of ws : Forall clean ws → trim_end_byte "/" (path_of ws) = trail ws.
Proof.
  intros Hw. destruct ws as [|w ws]; [done|]. cbn [path_of].
  destruct (exists_last (l := w :: ws)) as (l & v & Heq); [done|]. rewrite Heq in *.
  apply Forall_app in Hw as [_ (Hv & _ & _ & Hs)%Forall_singleton].
  rewrite trail_app. change (trail [v]) with ("/" +:+ v +:+ ""). rewrite str_app_nil_r.
  rewrite <- str_app_assoc. by apply trim_end_app.
Qed.

(** One path is the other or lies below it. *)
Definition nested (ws vs : list string) : Prop := ws `prefix_of` vs ∨ vs `prefix_of` ws.

Lemma strip_trail ws vs :
  Forall clean ws → Forall clean vs →
  (∃ r, trail vs = trail ws +:+ "/" +:+ r) ↔ ∃ v vs', vs = ws ++ v :: vs'.
Proof.
  intros Hw Hv. split.
  - intros [r Hr]. pose proof (split_trail vs Hv) as Hs. rewrite Hr in Hs.
    change ("/" +:+ r) with (String "/" r) in Hs. rewrite split_app, split_trail in Hs by done.
    pose proof (split_byte_ne "/" r). destruct (split_byte "/" r) as [|v vs']; [done|].
    injection Hs as Hs. by exists v, vs'.
  - intros (v & vs' & ->). exists (v +:+ trail vs'). by rewrite trail_app.
Qed.

Lemma overlap_nested ws vs :
  Forall clean ws → Forall clean vs →
  overlap (path_of ws) (path_of vs) = true ↔ nested ws vs.
Proof.
  intros Hw Hv. unfold overlap. rewrite !trim_path_of by done.
  assert (Hstrip : ∀ a b, match strip_prefix (trail a) (trail b) with
    | Some rest => starts_with "/" rest | None => false end = true ↔
    ∃ r, trail b = trail a +:+ "/" +:+ r).
  { intros a b. destruct (strip_prefix _ _) as [r|] eqn:Hs.
    - apply strip_prefix_Some in Hs. rewrite starts_with_true. split.
      + intros [r' ->]. by exists r'.
      + intros [r' Hr']. exists r'. rewrite Hs in Hr'. by apply (inj (String.append (trail a))) in Hr'.
    - split; [done|]. intros [r Hr%strip_prefix_Some]. congruence. }
  rewrite !orb_true_iff, bool_decide_eq_true, !Hstrip, !strip_trail by done.
  unfold nested, prefix. split.
  - intros [[->%trail_inj|(v & l & ->)]|(v & l & ->)]; try done; [left; exists []|right|left]; eauto.
    by rewrite app_nil_r.
  - intros [[[|v l] ->]|[[|v l] ->]]; rewrite ?app_nil_r; eauto 6.
Qed.

(** ** Digest documents *)

(** A Rust text is the UTF-8 of Unicode scalar values. *)
Definition is_scalar (c : Z) : Prop := (0 ≤ c < 55296 ∨ 57344 ≤ c < 1114112)%Z.

Definition utf8 (s : string) : Prop := ∃ cs, Forall is_scalar cs ∧ s = encode cs.

Lemma chars_encode cs : Forall is_scalar cs → chars (encode cs) = cs.
Proof.
  induction 1 as [|c cs Hc _ IH]; [done|]. cbn [encode].
  rewrite chars_encode_char by (unfold is_scalar in Hc; lia). by rewrite IH.
Qed.

(** What one character becomes: itself, or a backslash with what follows. *)
Definition json_short (c : Z) : option byte :=
  if (c =? 34)%Z then Some dq_byte
  else if (c =? 92)%Z then Some "\"%char
  else if (c =? 10)%Z then Some "n"%char
  else if (c =? 13)%Z then Some "r"%char
  else if (c =? 9)%Z then Some "t"%char
  else if (c =? 8)%Z then Some "b"%char
  else if (c =? 12)%Z then Some "f"%char
  else None.

Inductive json_char_view (c : Z) : string → Prop :=
| view_short b : json_short c = Some b → b ≠ "u"%char → json_char_view c ("\" +:+ String b "")
| view_plain : (32 ≤ c ≤ 126)%Z → byte_of c ≠ "\"%char → byte_of c ≠ dq_byte →
    json_char_view c (String (byte_of c) "")
| view_unit : (0 ≤ c < 55296 ∨ 57344 ≤ c < 65536)%Z → json_char_view c ("\u" +:+ hex_pad 4 c)
| view_pair : (65536 ≤ c < 1114112)%Z →
    json_char_view c ("\u" +:+ hex_pad 4 (55296 + (c - 65536) / 1024)
      +:+ "\u" +:+ hex_pad 4 (56320 + (c - 65536) mod 1024)).

Lemma json_char_cases c : is_scalar c → json_char_view c (json_char c).
Proof.
  intros Hs. destruct (json_short c) as [b|] eqn:Hb.
  { replace (json_char c) with ("\" +:+ String b "") by
      (unfold json_char, json_short in *; repeat case_match; simplify_eq; done).
    apply view_short; [done|]. intros ->. unfold json_short in Hb. by repeat case_match. }
  assert (H : (c ≠ 34 ∧ c ≠ 92)%Z).
  { unfold json_short in Hb. repeat case_match; try done; lia. }
  unfold json_char. unfold json_short in Hb. repeat (case_match; [done|]).
  destruct ((32 <=? c) && (c <=? 126))%Z eqn:Hp.
  - unfold encode_char. destruct (Z.ltb_spec c 128) as [_|?]; [|lia].
    apply view_plain; [lia|..]; intros Heq%(f_equal byte_val); rewrite byte_val_of in Heq by lia;
      vm_compute in Heq; lia.
  - unfold utf16_units, is_scalar in *. destruct (Z.ltb_spec c 65536); cbn [concat_map foldr];
      rewrite str_app_nil_r; [apply view_unit|rewrite str_app_assoc; apply view_pair]; lia.
Qed.

Lemma json_short_inj c c' b : json_short c = Some b → json_short c' = Some b → c = c'.
Proof.
  unfold json_short. intros H H'. repeat case_match; simplify_eq; lia.
Qed.

Lemma hex_unit_inj u u' s s' :
  (0 ≤ u < 65536)%Z → (0 ≤ u' < 65536)%Z → hex_pad 4 u +:+ s = hex_pad 4 u' +:+ s' → u = u' ∧ s = s'.
Proof.
  intros Hu Hu' H. apply str_app_inj in H as [H ->]; [|by rewrite !hex_pad_length].
  split; [|done]. by apply (hex_pad_inj 4).
Qed.

Lemma str_cons_inj a b s t : String a s = String b t → a = b ∧ s = t.
Proof. by injection 1. Qed.

Ltac peel H := apply str_cons_inj in H as [_ H]; apply str_cons_inj in H as [_ H].

(** A character's text says which character it is and where it ends. *)
Lemma json_char_inj c c' s s' :
  is_scalar c → is_scalar c' → json_char c +:+ s = json_char c' +:+ s' → c = c' ∧ s = s'.
Proof.
  intros Hc Hc'. destruct (json_char_cases c Hc) as [b Hb Hu|Hp Hbs Hq|Hr|Hr],
    (json_char_cases c' Hc') as [b' Hb' Hu'|Hp' Hbs' Hq'|Hr'|Hr'];
    rewrite ?str_app_assoc, ?str_app_cons, ?str_app_nil_l; intros H; try congruence.
  - injection H as <- <-. split; [by eapply json_short_inj|done].
  - injection H as H1 H2. apply (f_equal byte_val) in H1. rewrite !byte_val_of in H1 by lia. done.
  - peel H. apply hex_unit_inj in H as [-> ->]; [done|lia..].
  - peel H. apply hex_unit_inj in H as [H _]; [|Z.div_mod_to_equations; lia..].
    Z.div_mod_to_equations; lia.
  - peel H. apply hex_unit_inj in H as [H _]; [|Z.div_mod_to_equations; lia..].
    Z.div_mod_to_equations; lia.
  - peel H. apply hex_unit_inj in H as [H1 H]; [|Z.div_mod_to_equations; lia..].
    peel H. apply hex_unit_inj in H as [H2 ->]; [|Z.div_mod_to_equations; lia..].
    split; [|done]. Z.div_mod_to_equations; lia.
Qed.

Lemma json_char_not_quote c s r : is_scalar c → json_char c +:+ s ≠ dq +:+ r.
Proof.
  intros Hc H. destruct (json_char_cases c Hc);
    rewrite ?str_app_assoc, ?str_app_cons, ?str_app_nil_l in H; by injection H.
Qed.

Lemma json_text_inj cs cs' r r' :
  Forall is_scalar cs → Forall is_scalar cs' →
  concat_map json_char cs +:+ dq +:+ r = concat_map json_char cs' +:+ dq +:+ r' →
  cs = cs' ∧ r = r'.
Proof.
  intros Hcs. revert cs'. induction Hcs as [|c cs Hc _ IH]; intros [|c' cs'] Hcs'; cbn [concat_map foldr].
  - rewrite !str_app_nil_l. intros [_ ?]%str_app_inj; done.
  - apply Forall_cons in Hcs' as [Hc' _]. rewrite str_app_nil_l, str_app_assoc. intros H.
    exfalso. eapply json_char_not_quote; [exact Hc'|by symmetry].
  - rewrite str_app_nil_l, str_app_assoc. intros H. exfalso. by eapply json_char_not_quote.
  - apply Forall_cons in Hcs' as [Hc' Hcs']. rewrite !str_app_assoc. intros H.
    apply json_char_inj in H as [-> H]; [|done..]. apply IH in H as [-> ->]; done.
Qed.

Lemma json_string_inj s s' r r' :
  utf8 s → utf8 s' → push_ascii_json_string s +:+ r = push_ascii_json_string s' +:+ r' →
  s = s' ∧ r = r'.
Proof.
  intros (cs & Hcs & ->) (cs' & Hcs' & ->). unfold push_ascii_json_string.
  rewrite !chars_encode, !str_app_assoc by done.
  intros [_ H]%str_app_inj; [|done]. apply json_text_inj in H as [-> ->]; done.
Qed.

(** A list of quoted texts is read back up to the bracket that ends it. *)
Lemma json_list_inj ws vs r r' :
  Forall utf8 ws → Forall utf8 vs →
  join "," (push_ascii_json_string <$> ws) +:+ "]" +:+ r =
    join "," (push_ascii_json_string <$> vs) +:+ "]" +:+ r' →
  ws = vs ∧ r = r'.
Proof.
  intros Hws. revert vs. induction Hws as [|w ws Hw Hws IH]; intros vs Hvs.
  - destruct vs as [|v vs]; cbn [fmap list_fmap join].
    { rewrite !str_app_nil_l. by intros [_ ?]%str_app_inj. }
    destruct vs; cbn; unfold push_ascii_json_string at 1;
      rewrite ?str_app_assoc, ?str_app_cons, ?str_app_nil_l; intros H; by injection H.
  - destruct vs as [|v vs].
    { destruct ws; cbn; unfold push_ascii_json_string at 1;
        rewrite ?str_app_assoc, ?str_app_cons, ?str_app_nil_l; intros H; by injection H. }
    apply Forall_cons in Hvs as [Hv Hvs].
    destruct ws as [|w2 ws], vs as [|v2 vs]; cbn [fmap list_fmap join]; rewrite ?str_app_assoc;
      intros H; apply json_string_inj in H as [-> H]; try done.
    + by apply str_app_inj in H as [_ ->].
    + apply str_app_inj in H as [_ H]; [|done].
      apply (IH (v2 :: vs)) in H as [-> ->]; [done|done].
Qed.

Lemma workpy_document_inj argv argv' cwd cwd' :
  Forall utf8 argv → Forall utf8 argv' → utf8 cwd → utf8 cwd' →
  workpy_document argv cwd = workpy_document argv' cwd' → argv = argv' ∧ cwd = cwd'.
Proof.
  intros H1 H2 H3 H4. unfold workpy_document. intros [_ H]%str_app_inj; [|done].
  change ("]," +:+ push_ascii_json_string cwd +:+ "]") with
    ("]" +:+ "," +:+ push_ascii_json_string cwd +:+ "]") in H.
  change ("]," +:+ push_ascii_json_string cwd' +:+ "]") with
    ("]" +:+ "," +:+ push_ascii_json_string cwd' +:+ "]") in H.
  apply json_list_inj in H as [-> H]; [|done..].
  apply str_app_inj in H as [_ H]; [|done]. by apply json_string_inj in H as [-> _].
Qed.

Lemma hex_bytes_inj a b : hex_bytes a = hex_bytes b → a = b.
Proof.
  unfold hex_bytes. revert b. induction a as [|x a IH]; intros [|y b]; cbn [fmap list_fmap concat_map foldr].
  - done.
  - intros H%(f_equal String.length). rewrite length_str_app, hex_pad_length in H. done.
  - intros H%(f_equal String.length). rewrite length_str_app, hex_pad_length in H. done.
  - intros [Hx H]%str_app_inj; [|by rewrite !hex_pad_length].
    apply (hex_pad_inj 2) in Hx; [|apply byte_val_range..]. apply byte_val_inj in Hx as ->.
    f_equal. by apply IH.
Qed.

(** ** Properties *)

(** a path is refused only when it is empty or holds a NUL; otherwise the
    canonical path is absolute, has no empty, [.] or [..] part, and is its own
    canonical path wherever it is looked at from. *)
Theorem canonical_path_canonical path cwd home :
  contains_byte nul cwd = false → from_option (contains_byte nul) false home = false →
  match canonical_path path cwd home with
  | Err e => (path = "" ∨ contains_byte nul path = true) ∧
      e = repr_str path +:+ " is not a file path"
  | Ok p => (∃ ws, Forall clean ws ∧ p = path_of ws) ∧
      ∀ cwd' home', canonical_path p cwd' home' = Ok p
  end.
Proof.
  intros Hcwd Hhome. unfold canonical_path at 1.
  destruct (is_empty_str path || contains_byte nul path) eqn:He.
  { split; [|done]. apply orb_prop in He as [He|He]; [left; by destruct path|by right]. }
  apply orb_false_elim in He as [_ Hnul]. cbn zeta.
  set (joined := if starts_with "/" _ then _ else _).
  assert (Hj : contains_byte nul joined = false).
  { unfold joined. pose proof (expand_home_contains nul path home eq_refl Hnul Hhome).
    case_match; [done|]. by rewrite !contains_app, Hcwd. }
  destruct (normalise_clean joined) as (ws & Hws & Hp). split; [eauto|]. intros cwd' home'.
  pose proof (normalise_contains nul joined eq_refl Hj) as Hn. rewrite Hp in *.
  unfold canonical_path. rewrite Hn.
  assert (Hex : expand_home (path_of ws) home' = path_of ws).
  { unfold expand_home. destruct home' as [h|]; [|done]. by destruct ws. }
  rewrite Hex, starts_with_path_of, normalise_id by done. by destruct ws.
Qed.

Definition held_paths (h : string * list (list string)) : string * list string :=
  (h.1, map path_of h.2).

(** between canonical paths a claim conflicts exactly when one path is the
    other or lies below it, part by part ([/a/b] and [/a/bc] do not), and the
    conflict reported is the first holder's. *)
Theorem first_conflict_spec files holders :
  Forall (Forall clean) files → Forall (λ h, Forall (Forall clean) h.2) holders →
  match first_conflict (map path_of files) (map held_paths holders) with
  | None => ∀ i h held w f, holders !! i = Some (h, held) → w ∈ held → f ∈ files → ¬ nested f w
  | Some (h, p) => ∃ i held w f, holders !! i = Some (h, held) ∧ w ∈ held ∧ f ∈ files ∧
      p = path_of w ∧ nested f w ∧
      ∀ j h' held' w' f', j < i → holders !! j = Some (h', held') → w' ∈ held' → f' ∈ files →
        ¬ nested f' w'
  end.
Proof.
  intros Hf. induction 1 as [|[h held] holders Hh _ IH]; cbn [map first_conflict]; [done|].
  cbn in Hh. cbn [held_paths fst snd].
  assert (Hov : ∀ w, w ∈ held →
    existsb (λ file, overlap file (path_of w)) (map path_of files) = true ↔ ∃ f, f ∈ files ∧ nested f w).
  { intros w Hw. rewrite existsb_exists. rewrite Forall_forall in Hf, Hh. split.
    - intros (x & (f & -> & Hx)%list_elem_of_In%list_elem_of_fmap & Ho).
      exists f. split; [done|]. apply overlap_nested; auto.
    - intros (f & Hx & Hn). exists (path_of f). split.
      + by apply list_elem_of_In, list_elem_of_fmap_2.
      + apply overlap_nested; auto. }
  destruct (List.find _ (map path_of held)) as [p|] eqn:Hfind.
  - apply find_some in Hfind as [(w & -> & Hw)%list_elem_of_In%list_elem_of_fmap (f & Hx & Hn)%Hov];
      [|done]. exists 0, held, w, f. split_and!; try done. intros; lia.
  - assert (Hno : ∀ w f, w ∈ held → f ∈ files → ¬ nested f w).
    { intros w f Hw Hx Hn. assert (Hc := find_none _ _ Hfind (path_of w)).
      cbn beta in Hc. rewrite (proj2 (Hov w Hw)) in Hc by eauto.
      by specialize (Hc ltac:(by apply list_elem_of_In, list_elem_of_fmap_2)). }
    destruct (first_conflict _ _) as [[h' p]|].
    + destruct IH as (i & held' & w & f & Hi & Hw & Hx & -> & Hn & Hb).
      exists (S i), held', w, f. split_and!; try done.
      intros [|j] h2 held2 w2 f2 Hj Hl; cbn in Hl; [simplify_eq; apply Hno|].
      apply (Hb j h2 held2); [lia|done].
    + intros [|i] h2 held2 w f Hl; cbn in Hl; [simplify_eq; apply Hno|]. by apply (IH i h2).
Qed.

(** two commands with the same digest are the same command in the same
    directory, or their two documents are a collision of SHA-256. *)
Theorem workpy_digest_commits sha256 argv argv' cwd cwd' :
  Forall utf8 argv → Forall utf8 argv' → utf8 cwd → utf8 cwd' →
  workpy_digest sha256 argv cwd = workpy_digest sha256 argv' cwd' →
  (argv = argv' ∧ cwd = cwd') ∨
  (workpy_document argv cwd ≠ workpy_document argv' cwd' ∧
   sha256 (workpy_document argv cwd) = sha256 (workpy_document argv' cwd')).
Proof.
  intros H1 H2 H3 H4 H%hex_bytes_inj.
  destruct (decide (workpy_document argv cwd = workpy_document argv' cwd')) as [Heq|Hne].
  - left. by apply workpy_document_inj.
  - by right.
Qed.

(** ** Examples *)

Lemma canonical_path_canonical_witness :
  canonical_path "~/x/../y/" "/w" (Some "/h/u") = Ok "/h/u/y" ∧
  ∀ cwd home, canonical_path "/h/u/y" cwd home = Ok "/h/u/y".
Proof.
  split; [by vm_compute|].
  apply (canonical_path_canonical "~/x/../y/" "/w" (Some "/h/u")); by vm_compute.
Defined.

Lemma clean_check w :
  negb (is_empty_str w) && negb (bool_decide (w = ".")) && negb (bool_decide (w = ".."))
  && negb (contains_byte "/" w) = true → clean w.
Proof.
  rewrite !andb_true_iff, !negb_true_iff, !bool_decide_eq_false.
  intros [[[H1 H2] H3] H4]. split_and!; try done. by intros ->.
Qed.

Lemma first_conflict_spec_witness :
  first_conflict ["/p/q"] [("t1", ["/p/qr"]); ("t2", ["/p/q/r"; "/p"])] = Some ("t2", "/p/q/r") ∧
  ¬ nested ["p"; "q"] ["p"; "qr"].
Proof.
  split; [by vm_compute|].
  apply (first_conflict_spec [["p"; "q"]] [("t1", [["p"; "qr"]])]) with (i := 0) (h := "t1")
    (held := [["p"; "qr"]]); try by left.
  all: repeat constructor; by apply clean_check.
Defined.

Lemma utf8_ascii s : str_all (λ c, byte_val c <? 128)%Z s = true → utf8 s.
Proof.
  intros Hs. exists (bytes s). induction s as [|c s IH]; [done|]. cbn [str_all] in Hs.
  apply andb_prop in Hs as [Hc%Z.ltb_lt Hs]. destruct (IH Hs) as [H1 H2].
  pose proof (byte_val_range c). cbn [bytes encode]. split.
  - constructor; [left; lia|done].
  - rewrite <- H2. unfold encode_char. destruct (Z.ltb_spec (byte_val c) 128); [|lia].
    by rewrite byte_of_val, str_app_cons, str_app_nil_l.
Qed.

(** With a function that keeps every byte, equal digests are equal commands. *)
Lemma workpy_digest_commits_witness :
  workpy_digest String.list_ascii_of_string ["touch"; "/tmp/x"] "/tmp" =
    workpy_digest String.list_ascii_of_string ["touch"; "/tmp/x"] "/tmp" ∧
  (["touch"; "/tmp/x"] = ["touch"; "/tmp/x"] ∧ "/tmp" = "/tmp" ∨ False).
Proof.
  split; [done|].
  destruct (workpy_digest_commits String.list_ascii_of_string ["touch"; "/tmp/x"] ["touch"; "/tmp/x"]
    "/tmp" "/tmp") as [H|[H _]]; [..|by left|done].
  1-2: do 2 (constructor; [by apply utf8_ascii|]); constructor.
  1-2: by apply utf8_ascii. done.
Defined.
