(* ===== verification/TextFmt.v ===== *)
(** * Text helpers

    [src/crates/agora-sched/src/textfmt.rs]: spans, sizes, counts and commands as
    text. *)

From Stdlib Require Import Ascii.
From S2P Require Import Prelude F64 Strs PyFmt.

Definition py_floordiv (x y : f64) : f64 :=
  let rem := f_rem x y in
  let quotient := ((x - rem) / y)%f64 in
  let floor := f_floor quotient in
  if f_lt (f_lit 1 2) (quotient - floor)%f64 then (floor + f_of_Z 1)%f64 else floor.

Definition span (seconds : option f64) : string :=
  match seconds with
  | None => "-"
  | Some s =>
      if negb (is_finite s) then "-"
      else if f_lt s (f_of_Z 60) then fmt_fixed s 1 +:+ " s"
      else if f_lt s (f_of_Z 3600) then
        let minutes := f_trunc (py_floordiv s (f_of_Z 60)) in
        let seconds := f_trunc (f_rem s (f_of_Z 60)) in
        fmt_fixed minutes 0 +:+ " min " +:+ fmt_fixed seconds 0 +:+ " s"
      else
        let hours := f_trunc (py_floordiv s (f_of_Z 3600)) in
        let minutes := f_trunc (py_floordiv (f_rem s (f_of_Z 3600)) (f_of_Z 60)) in
        fmt_fixed hours 0 +:+ " h " +:+ fmt_fixed minutes 0 +:+ " min"
  end.

Definition kib_as_f64 (kib : Z) : f64 := f_of_Z kib.

Definition gib (kib : Z) : string :=
  fmt_fixed (kib_as_f64 kib / f_of_Z 1024 / f_of_Z 1024)%f64 1 +:+ " GiB".

Definition memory (kib : option Z) : string :=
  match kib with
  | None => "-"
  | Some kib =>
      if (kib <? 10 * 1024 * 1024)%Z then fmt_fixed (kib_as_f64 kib / f_of_Z 1024)%f64 0 +:+ " MiB"
      else gib kib
  end.

Definition number (v : f64) : string := fmt_g (round_half_even v 1).

Definition cores_text (v : f64) : string :=
  let n := number v in
  if bool_decide (n = "1") then n +:+ " core" else n +:+ " cores".

Definition capped (label : string) (items : list string) (limit : nat) : string :=
  if Nat.leb (length items) limit then label +:+ ": " +:+ join ", " items
  else label +:+ " (the first " +:+ dec (Z.of_nat limit) +:+ " of "
    +:+ dec (Z.of_nat (length items)) +:+ "; all of them with --json): "
    +:+ join ", " (take limit items).

Definition shlex_safe (c : Z) : bool :=
  ((48 <=? c) && (c <=? 57) || (65 <=? c) && (c <=? 90) || (97 <=? c) && (c <=? 122))%Z
  || existsb (Z.eqb c) (chars "@%+=:,./_-").

(** [str::replace] of a single quote. *)
Definition quote_char (c : Z) : string :=
  if (c =? 39)%Z then "'" +:+ dq +:+ "'" +:+ dq +:+ "'" else encode_char c.

Definition shlex_quote (s : string) : string :=
  if is_empty_str s then "''"
  else if forallb shlex_safe (chars s) then s
  else "'" +:+ concat_map quote_char (chars s) +:+ "'".

Definition display (argv : list string) : string := printable (join " " (shlex_quote <$> argv)).

Definition brief (argv : list string) (limit : nat) : string :=
  let text := display argv in
  if Nat.leb (length (chars text)) limit then text
  else encode (take (limit - 1) (chars text)) +:+ encode_char 8230.

Definition enumerate_ids (ids : list string) : string :=
  match ids with
  | [] => ""
  | [only] => only
  | _ => join ", " (take (length ids - 1) ids) +:+ " and " +:+ default "" (last ids)
  end.

Example span_examples :
  span (Some (f_lit 615 10)) = "1 min 1 s" ∧ span (Some (f_of_Z 7322)) = "2 h 2 min" ∧
  span (Some (f_lit 3 2)) = "1.5 s" ∧ cores_text (f_of_Z 1) = "1 core" ∧
  enumerate_ids ["a"; "b"; "c"] = "a, b and c" ∧ shlex_quote "it's" = "'it'" +:+ dq +:+ "'" +:+ dq +:+ "'s'".
Proof. by vm_compute. Qed.
