(* ===== verification/Settings.v ===== *)
(** * Work settings

    [src/crates/agora-sched/src/settings.rs] and [settings/parse.rs]: the stored
    settings, the checks of a row that is read back, and patches of raw texts. *)

From Stdlib Require Import Ascii Floats.SpecFloat.
From S2P Require Import Prelude F64 Strs PyFmt.

Inductive MemLimit : Type := LimitWarning | LimitCritical | LimitOff.

Definition MemLimit_as_str (m : MemLimit) : string :=
  match m with LimitWarning => "warning" | LimitCritical => "critical" | LimitOff => "off" end.

Inductive Qos : Type := QUtility | QDefault | QBackground.

Definition Qos_as_str (q : Qos) : string :=
  match q with QUtility => "utility" | QDefault => "default" | QBackground => "background" end.

Inductive MemBudget : Type := BudgetAuto | BudgetOff | BudgetKib (kib : Z).

#[export] Instance MemBudget_eq_dec : EqDecision MemBudget.
Proof. solve_decision. Defined.

Record WorkSettings : Type := mk_settings {
  cpu_budget : option f64;
  capacity : option f64;
  memory_budget : MemBudget;
  idle_min : f64;
  memory_limit : MemLimit;
  load_factor : f64;
  load_wait : f64;
  log_limit : Z;
  keep_days : f64;
  backfill_wait : f64;
  small_weight : f64;
  aging : f64;
  job_qos : Qos;
  quiet_drain : f64;
  quiet_max : f64;
  self_accept : bool;
  timer_quota : Z;
  disk_floor_kib : option Z;
  memory_floor_kib : option Z;
  idle_floor_pct : option f64;
  reconcile_interval_s : f64;
  lease_ttl_s : f64;
  claim_ttl_s : f64;
  run_role : string;
  max_waiting : Z }.

Definition RUN_ROLES : list string := ["worker"; "supervisor"; "controller"; "owner"].

Definition CLAIM_TTL_MIN_S : f64 := f_of_Z 60.

Definition default_settings : WorkSettings :=
  mk_settings None None BudgetAuto (f_of_Z 10) LimitWarning (f_lit 3 2) (f_of_Z 1800) 268435456
    (f_of_Z 14) (f_of_Z 300) (f_of_Z 1) (f_of_Z 1) QUtility (f_of_Z 60) (f_of_Z 180) false 32
    (Some 5242880%Z) None None (f_of_Z 30) (f_of_Z 900) (f_of_Z 1800) "worker" 64.

(** Raw texts, each optional. *)
Record SettingsPatch : Type := mk_patch {
  p_cpu_budget : option string;
  p_capacity : option string;
  p_memory_budget : option string;
  p_idle_min : option string;
  p_memory_limit : option string;
  p_load_factor : option string;
  p_load_wait : option string;
  p_log_limit : option string;
  p_keep_days : option string;
  p_backfill_wait : option string;
  p_small_weight : option string;
  p_aging : option string;
  p_job_qos : option string;
  p_quiet_drain : option string;
  p_quiet_max : option string;
  p_self_accept : option string;
  p_timer_quota : option string;
  p_disk_floor : option string;
  p_memory_floor : option string;
  p_idle_floor : option string;
  p_reconcile_interval : option string;
  p_lease_ttl : option string;
  p_claim_ttl : option string;
  p_run_role : option string;
  p_max_waiting : option string }.

Definition empty_patch : SettingsPatch :=
  mk_patch None None None None None None None None None None None None None None None None None
    None None None None None None None None.

(** ** The parsers *)

Definition flag_error (field message : string) : string :=
  "--" +:+ str_map (λ c, if byte_eqb c "_" then "-"%char else c) field +:+ ": " +:+ message.

Definition repr_error (text message : string) : string := repr_str text +:+ " " +:+ message.

Definition duration (text : string) : result string f64 :=
  value ← ok_or (py_float text) (repr_error text "is not a number");
  if is_finite value && f_le f_zero value then Ok value
  else Err (repr_error text "is not a finite number, zero or more").

Definition positive (text : string) : result string f64 :=
  value ← duration text;
  if f_eq value f_zero then Err (repr_error text "is not greater than zero") else Ok value.

Definition percent (text : string) : result string f64 :=
  value ← duration text;
  if f_lt value (f_of_Z 100) then Ok value else Err (repr_error text "is not below 100").

Definition counting (text : string) (minimum : Z) : result string Z :=
  value ← ok_or (py_int text) (repr_error text "is not a whole number");
  if (minimum <=? value)%Z then Ok value
  else Err (repr_error text ("is less than " +:+ dec minimum)).

Definition choice (text : string) (options : list string) : string :=
  repr_str text +:+ " is not one of " +:+ join ", " options.

(** [char::is_whitespace]. *)
Definition is_whitespace (c : Z) : bool :=
  ((9 <=? c) && (c <=? 13) || (c =? 32) || (c =? 133) || (c =? 160) || (c =? 5760)
   || (8192 <=? c) && (c <=? 8202) || (c =? 8232) || (c =? 8233) || (c =? 8239)
   || (c =? 8287) || (c =? 12288))%Z.

Definition trim_start (s : string) : string := encode (drop_while is_whitespace (chars s)).

(** The factor of a unit letter. *)
Definition unit_scale (c : byte) : option f64 :=
  if byte_eqb c "K" || byte_eqb c "k" then Some (f_of_Z 1)
  else if byte_eqb c "M" || byte_eqb c "m" then Some (f_of_Z 1024)
  else if byte_eqb c "G" || byte_eqb c "g" then Some (f_of_Z 1024 * f_of_Z 1024)%f64
  else if byte_eqb c "T" || byte_eqb c "t" then
    Some (f_of_Z 1024 * f_of_Z 1024 * f_of_Z 1024)%f64
  else None.

(** The number a size starts with, and what follows it. *)
Definition size_number (body : string) : option (string * string) :=
  let '(int, rest) := span_digits body in
  if is_empty_str int then None
  else match strip_prefix "." rest with
       | Some after_dot =>
           let '(frac, rest') := span_digits after_dot in
           if is_empty_str frac then None else Some (int +:+ "." +:+ frac, rest')
       | None => Some (int, rest)
       end.

Definition size_value (text : string) : option f64 :=
  '(digits, rest) ← size_number (py_strip text);
  number ← parse_f64 digits;
  match trim_start rest with
  | "" => None
  | String c r =>
      scale ← unit_scale c;
      let low := to_ascii_lowercase r in
      if bool_decide (low = "") || bool_decide (low = "b") || bool_decide (low = "ib")
      then Some (f_round_ties_even (number * scale)%f64) else None
  end.

Definition size_kib (text otherwise : string) : result string Z :=
  kib ← ok_or (size_value text) (repr_error text otherwise);
  if f_le kib f_zero then Err (repr_error text "is not greater than zero")
  else if f_le (f_of_Z 9000000000000000000) kib then Err (repr_error text "is too large")
  else Ok (f_as_u64 kib).

Definition parse_size_kib (text : string) : result string Z :=
  size_kib text "is not a size with its unit, as 14G or 14336M".

Definition cpu_budget_of (text : string) : result string (option f64) :=
  if bool_decide (text = "auto") then Ok None else Some <$> positive text.

Definition capacity_of (text : string) : result string (option f64) :=
  if bool_decide (text = "off") || bool_decide (text = "auto") then Ok None
  else Some <$> positive text.

Definition memory_budget_of (text : string) : result string MemBudget :=
  if bool_decide (text = "auto") then Ok BudgetAuto
  else if bool_decide (text = "off") then Ok BudgetOff
  else BudgetKib <$>
    size_kib text "is not a size with its unit, as 14G or 14336M, nor auto or off".

Definition memory_limit_of (text : string) : result string MemLimit :=
  if bool_decide (text = "warning") then Ok LimitWarning
  else if bool_decide (text = "critical") then Ok LimitCritical
  else if bool_decide (text = "off") then Ok LimitOff
  else Err (choice text ["warning"; "critical"; "off"]).

Definition log_limit_of (text : string) : result string Z :=
  value ← counting text 1;
  ok_or (checked_u64 value) (repr_error text "is too large").

Definition job_qos_of (text : string) : result string Qos :=
  if bool_decide (text = "utility") then Ok QUtility
  else if bool_decide (text = "default") then Ok QDefault
  else if bool_decide (text = "background") then Ok QBackground
  else Err (choice text ["utility"; "default"; "background"]).

Definition self_accept_of (text : string) : result string bool :=
  if bool_decide (text = "true") then Ok true
  else if bool_decide (text = "false") then Ok false
  else Err (repr_error text "is not true or false").

(** [timer_quota], and [max_waiting], which is the same. *)
Definition timer_quota_of (text : string) : result string Z :=
  value ← counting text 1;
  if in_u32 value then Ok value else Err (repr_error text "is too large").

Definition run_role_of (text : string) : result string string :=
  if bool_decide (text ∈ RUN_ROLES) then Ok text else Err (choice text RUN_ROLES).

Definition size_floor (text : string) : result string (option Z) :=
  if bool_decide (text = "off") then Ok None
  else Some <$> size_kib text "is not a size with its unit, as 14G or 14336M, nor off".

Definition idle_floor_of (text : string) : result string (option f64) :=
  if bool_decide (text = "off") then Ok None else Some <$> percent text.

Definition reconcile_interval_of (text : string) : result string f64 :=
  value ← ok_or (py_float text) (repr_error text "is not a number");
  if is_finite value && f_le (f_of_Z 1) value then Ok value
  else Err (repr_error text "is not a finite number, one second or more").

Definition parse_claim_ttl (text : string) : result string f64 :=
  value ← duration text;
  if f_le CLAIM_TTL_MIN_S value then Ok value
  else Err (repr_str text +:+ " is not at least 60 seconds").

(** ** Checks *)

Definition is_positive (v : f64) : bool := is_finite v && f_lt f_zero v.
Definition is_zero_or_more (v : f64) : bool := is_finite v && f_le f_zero v.
Definition is_percent (v : f64) : bool := f_le f_zero v && f_lt v (f_of_Z 100).

(** What [validate] ensures, in its order, with the message of each. *)
Definition checks (s : WorkSettings) : list (bool * string) :=
  [(from_option is_positive true (cpu_budget s), "cpu_budget must be a finite number above zero");
   (from_option is_positive true (capacity s), "capacity must be a finite number above zero");
   (negb (bool_decide (memory_budget s = BudgetKib 0)),
     "memory_budget must be auto, off or more than 0 KiB");
   (is_percent (idle_min s), "idle_min must be at least 0 and below 100");
   (is_positive (load_factor s), "load_factor must be a finite number above zero");
   (is_positive (load_wait s), "load_wait must be a finite number above zero");
   ((1 <=? log_limit s)%Z, "log_limit must be at least 1");
   (is_positive (keep_days s), "keep_days must be a finite number above zero");
   (is_positive (backfill_wait s), "backfill_wait must be a finite number above zero");
   (is_positive (small_weight s), "small_weight must be a finite number above zero");
   (is_zero_or_more (aging s), "aging must be a finite number, zero or more");
   (is_zero_or_more (quiet_drain s), "quiet_drain must be a finite number, zero or more");
   (is_zero_or_more (quiet_max s), "quiet_max must be a finite number, zero or more");
   ((1 <=? timer_quota s)%Z, "timer_quota must be at least 1");
   (negb (bool_decide (disk_floor_kib s = Some 0%Z)), "disk_floor must be off or more than 0 KiB");
   (negb (bool_decide (memory_floor_kib s = Some 0%Z)),
     "memory_floor must be off or more than 0 KiB");
   (from_option is_percent true (idle_floor_pct s), "idle_floor must be at least 0 and below 100");
   (is_finite (reconcile_interval_s s) && f_le (f_of_Z 1) (reconcile_interval_s s),
     "reconcile_interval must be a finite number, one second or more");
   (is_positive (lease_ttl_s s), "lease_ttl must be a finite number above zero");
   (is_finite (claim_ttl_s s) && f_le CLAIM_TTL_MIN_S (claim_ttl_s s),
     "claim_ttl must be a finite number, 60 seconds or more");
   (bool_decide (run_role s ∈ RUN_ROLES),
     "run_role must be one of worker, supervisor, controller, owner");
   ((1 <=? max_waiting s)%Z, "max_waiting must be at least 1")].

Definition ensure (ok : bool) (message : string) : result string unit :=
  if ok then Ok tt else Err message.

Fixpoint ensure_all (l : list (bool * string)) : result string unit :=
  match l with
  | [] => Ok tt
  | (ok, message) :: l' => _ ← ensure ok message; ensure_all l'
  end.

Definition validate (s : WorkSettings) : result string unit := ensure_all (checks s).

(** The settings with a claim TTL that is on but too short raised to the least
    one, and whether that changed it. *)
Definition normalize_stored (s : WorkSettings) : WorkSettings * bool :=
  if is_finite (claim_ttl_s s) && f_lt f_zero (claim_ttl_s s)
     && f_lt (claim_ttl_s s) CLAIM_TTL_MIN_S
  then (mk_settings (cpu_budget s) (capacity s) (memory_budget s) (idle_min s) (memory_limit s)
    (load_factor s) (load_wait s) (log_limit s) (keep_days s) (backfill_wait s) (small_weight s)
    (aging s) (job_qos s) (quiet_drain s) (quiet_max s) (self_accept s) (timer_quota s)
    (disk_floor_kib s) (memory_floor_kib s) (idle_floor_pct s) (reconcile_interval_s s)
    (lease_ttl_s s) CLAIM_TTL_MIN_S (run_role s) (max_waiting s), true)
  else (s, false).

(** ** Patches *)

(** One line of [apply]: the new value of a field and the change it records. *)
Definition set_field {A} (key : string) (raw : option string) (parse : string → result string A)
    (old : A) : result string (A * list string) :=
  match raw with
  | None => Ok (old, [])
  | Some raw =>
      match parse raw with
      | Ok v => Ok (v, [key +:+ " " +:+ raw])
      | Err e => Err (flag_error key e)
      end
  end.

Definition apply (s : WorkSettings) (patch : SettingsPatch) :
    result string (WorkSettings * list string) :=
  '(v0, c0) ← set_field "cpu_budget" (p_cpu_budget patch) cpu_budget_of (cpu_budget s);
  '(v1, c1) ← set_field "capacity" (p_capacity patch) capacity_of (capacity s);
  '(v2, c2) ← set_field "memory_budget" (p_memory_budget patch) memory_budget_of (memory_budget s);
  '(v3, c3) ← set_field "idle_min" (p_idle_min patch) percent (idle_min s);
  '(v4, c4) ← set_field "memory_limit" (p_memory_limit patch) memory_limit_of (memory_limit s);
  '(v5, c5) ← set_field "load_factor" (p_load_factor patch) positive (load_factor s);
  '(v6, c6) ← set_field "load_wait" (p_load_wait patch) positive (load_wait s);
  '(v7, c7) ← set_field "log_limit" (p_log_limit patch) log_limit_of (log_limit s);
  '(v8, c8) ← set_field "keep_days" (p_keep_days patch) positive (keep_days s);
  '(v9, c9) ← set_field "backfill_wait" (p_backfill_wait patch) positive (backfill_wait s);
  '(v10, c10) ← set_field "small_weight" (p_small_weight patch) positive (small_weight s);
  '(v11, c11) ← set_field "aging" (p_aging patch) duration (aging s);
  '(v12, c12) ← set_field "job_qos" (p_job_qos patch) job_qos_of (job_qos s);
  '(v13, c13) ← set_field "quiet_drain" (p_quiet_drain patch) duration (quiet_drain s);
  '(v14, c14) ← set_field "quiet_max" (p_quiet_max patch) duration (quiet_max s);
  '(v15, c15) ← set_field "self_accept" (p_self_accept patch) self_accept_of (self_accept s);
  '(v16, c16) ← set_field "timer_quota" (p_timer_quota patch) timer_quota_of (timer_quota s);
  '(v17, c17) ← set_field "disk_floor" (p_disk_floor patch) size_floor (disk_floor_kib s);
  '(v18, c18) ← set_field "memory_floor" (p_memory_floor patch) size_floor (memory_floor_kib s);
  '(v19, c19) ← set_field "idle_floor" (p_idle_floor patch) idle_floor_of (idle_floor_pct s);
  '(v20, c20) ← set_field "reconcile_interval" (p_reconcile_interval patch) reconcile_interval_of (reconcile_interval_s s);
  '(v21, c21) ← set_field "lease_ttl" (p_lease_ttl patch) positive (lease_ttl_s s);
  '(v22, c22) ← set_field "claim_ttl" (p_claim_ttl patch) parse_claim_ttl (claim_ttl_s s);
  '(v23, c23) ← set_field "run_role" (p_run_role patch) run_role_of (run_role s);
  '(v24, c24) ← set_field "max_waiting" (p_max_waiting patch) timer_quota_of (max_waiting s);
  Ok (mk_settings v0 v1 v2 v3 v4 v5 v6 v7 v8 v9 v10 v11 v12 v13 v14 v15 v16 v17 v18 v19 v20 v21
    v22 v23 v24,
    c0 ++ c1 ++ c2 ++ c3 ++ c4 ++ c5 ++ c6 ++ c7 ++ c8 ++ c9 ++ c10 ++ c11 ++ c12 ++ c13 ++ c14
      ++ c15 ++ c16 ++ c17 ++ c18 ++ c19 ++ c20 ++ c21 ++ c22 ++ c23 ++ c24).

(** The texts a patch holds, as they are reported. *)
Definition patch_changes (patch : SettingsPatch) : list string :=
  flat_map (λ kr, match kr.2 with Some raw => [kr.1 +:+ " " +:+ raw] | None => [] end)
    [("cpu_budget", p_cpu_budget patch);
     ("capacity", p_capacity patch);
     ("memory_budget", p_memory_budget patch);
     ("idle_min", p_idle_min patch);
     ("memory_limit", p_memory_limit patch);
     ("load_factor", p_load_factor patch);
     ("load_wait", p_load_wait patch);
     ("log_limit", p_log_limit patch);
     ("keep_days", p_keep_days patch);
     ("backfill_wait", p_backfill_wait patch);
     ("small_weight", p_small_weight patch);
     ("aging", p_aging patch);
     ("job_qos", p_job_qos patch);
     ("quiet_drain", p_quiet_drain patch);
     ("quiet_max", p_quiet_max patch);
     ("self_accept", p_self_accept patch);
     ("timer_quota", p_timer_quota patch);
     ("disk_floor", p_disk_floor patch);
     ("memory_floor", p_memory_floor patch);
     ("idle_floor", p_idle_floor patch);
     ("reconcile_interval", p_reconcile_interval patch);
     ("lease_ttl", p_lease_ttl patch);
     ("claim_ttl", p_claim_ttl patch);
     ("run_role", p_run_role patch);
     ("max_waiting", p_max_waiting patch)].

(** ** What the parsers accept *)

Lemma duration_ok text v : duration text = Ok v → is_zero_or_more v = true.
Proof. intros (x & _ & H)%result_bind_Ok. unfold is_zero_or_more. by case_match; simplify_eq. Qed.

Lemma zero_or_more_positive v :
  is_zero_or_more v = true → f_eq v f_zero = false → is_positive v = true.
Proof.
  unfold is_zero_or_more, is_positive. intros [-> Hle]%andb_prop Hne. cbn.
  apply f_le_nan in Hle as Hn. destruct Hn as [Hz Hv]. apply not_false_is_true. intros Hlt.
  apply f_not_lt_le in Hlt; [|done..].
  assert (Hc : cmp_f64 v f_zero = Eq).
  { apply f_le_cmp in Hlt; [|done..]. apply f_le_cmp in Hle; [|done..].
    destruct (cmp_f64 v f_zero) eqn:E; try done.
    apply (f_lt_cmp v f_zero) in E; [|done..]. apply f_not_le_lt in E; [|done..].
    apply not_true_iff_false in E. exfalso. apply E. by apply f_le_cmp. }
  apply f_eq_cmp in Hc; [|done..]. congruence.
Qed.

Lemma positive_value_ok text v : positive text = Ok v → is_positive v = true.
Proof.
  intros (x & Hx%duration_ok & H)%result_bind_Ok. case_match; simplify_eq.
  by apply zero_or_more_positive.
Qed.

Lemma percent_ok text v : percent text = Ok v → is_percent v = true.
Proof.
  intros (x & Hx%duration_ok & H)%result_bind_Ok. unfold is_percent.
  apply andb_prop in Hx as [_ Hx]. case_match; simplify_eq. by rewrite Hx.
Qed.

Lemma counting_ok text m v : counting text m = Ok v → (m <=? v)%Z = true.
Proof. intros (x & _ & H)%result_bind_Ok. by case_match; simplify_eq. Qed.

Lemma fmap_Ok {A B} (f : A → B) (m : result string A) b :
  f <$> m = Ok b → ∃ a, m = Ok a ∧ b = f a.
Proof. destruct m; naive_solver. Qed.

Lemma int_part_nonneg m e : (0 ≤ (int_part m e).1)%Z.
Proof.
  unfold int_part. case_match; cbn.
  - apply Z.shiftl_nonneg. lia.
  - apply Z.div_pos; [lia|]. apply Z.pow_pos_nonneg; lia.
Qed.

(** A size above zero that was rounded to a whole number is at least one KiB. *)
Lemma round_positive x :
  is_nan x = false → f_le (f_round_ties_even x) f_zero = false →
  (1 ≤ f_as_u64 (f_round_ties_even x))%Z.
Proof.
  unfold f_round_ties_even, round_with. destruct x as [s|s| |s m e]; try done.
  { by destruct s. }
  intros _. destruct (int_part m e) as [q r] eqn:Hq.
  assert (Hq0 : (0 ≤ q)%Z) by (pose proof (int_part_nonneg m e) as H; by rewrite Hq in H).
  set (q' := if _ : bool then (q + 1)%Z else q). assert (Hq' : (0 ≤ q')%Z) by (unfold q'; case_match; lia).
  clearbody q'. unfold f_whole. destruct q' as [|p|p]; [by destruct s| |lia].
  destruct s; [|intros _; apply f_of_Z_as_u64]. intros Hle. exfalso.
  change (binary_normalize prec emax (- Zpos p)%Z 0 true) with (f_of_Z (Zneg p)) in Hle.
  rewrite f_of_Z_neg in Hle. pose proof (f_of_Z_num (Zpos p)) as Hn.
  pose proof (f_of_Z_as_u64 p) as Hu.
  destruct (f_of_Z (Zpos p)) as [[]|[]| |[] m' e']; try done.
  pose proof (int_part_nonneg m' e'). unfold f_as_u64, f_to_int in Hu. lia.
Qed.

(** A number that starts with a digit is a number. *)
Lemma parse_f64_digit c t v :
  is_ascii_digit c = true → parse_f64 (String c t) = Some v → is_nan v = false.
Proof.
  intros Hc. unfold parse_f64.
  assert (Hsign : (match String c t with
    | String "-" r => (true, r) | String "+" r => (false, r) | _ => (false, String c t) end)
    = (false, String c t)).
  { destruct (byte_eqb c "-") eqn:E1; [apply byte_eqb_eq in E1 as ->; done|].
    destruct (byte_eqb c "+") eqn:E2; [apply byte_eqb_eq in E2 as ->; done|].
    by destruct c as [[] [] [] [] [] [] [] []]. }
  rewrite Hsign. clear Hsign. destruct (parse_decimal (String c t)) as [w|] eqn:Hd.
  - intros [= <-]. unfold parse_decimal in Hd. destruct (span_digits _) as [a b].
    destruct (match b with String "." r => span_digits r | _ => ("", b) end) as [f r'].
    case_match; [done|]. apply bind_Some in Hd as (e & _ & [= <-]).
    unfold f_decimal. destruct (0 <=? _)%Z; apply f_lit_num.
  - assert (Hlow : ∀ x w, is_ascii_digit x = false → to_ascii_lowercase (String c t) ≠ String x w).
    { intros x w Hx [= Heq _]. unfold is_ascii_digit, is_ascii_upper, in_range in *.
      assert (Hup : (65 <=? byte_val c)%Z && (byte_val c <=? 90)%Z = false) by lia.
      rewrite Hup in Heq. congruence. }
    rewrite !bool_decide_false by (apply Hlow; by vm_compute). done.
Qed.

Lemma size_value_num text v :
  size_value text = Some v → ∃ x, is_nan x = false ∧ v = f_round_ties_even x.
Proof.
  unfold size_value. intros ([d r] & Hd & H)%bind_Some. cbn in H.
  apply bind_Some in H as (n & Hn & H). destruct (trim_start r) as [|c t]; [done|].
  apply bind_Some in H as (sc & Hsc & H). case_match; [|done]. injection H as <-.
  eexists. split; [|done].
  assert (Hfin : ∃ s m e, sc = S754_finite s m e).
  { unfold unit_scale in Hsc. repeat case_match; try done; injection Hsc as <-; vm_compute; eauto. }
  destruct Hfin as (s & m & e & ->). apply f_mul_num.
  assert (Hhead : ∃ c' t', d = String c' t' ∧ is_ascii_digit c' = true).
  { assert (Hspan : ∀ x a b, span_digits x = (a, b) → a ≠ "" →
      ∃ c' t', a = String c' t' ∧ is_ascii_digit c' = true).
    { intros [|y x] a b; cbn; [by intros [= <- _]|].
      destruct (is_ascii_digit y) eqn:Hy; [|by intros [= <- _]].
      destruct (span_digits x). intros [= <- _] _. eauto. }
    unfold size_number in Hd. destruct (span_digits (py_strip text)) as [a b] eqn:Hs.
    destruct a as [|a0 a]; [done|]. apply Hspan in Hs as (c' & t' & [= -> ->] & Hc); [|done].
    cbn [is_empty_str] in Hd. destruct (strip_prefix "." b) as [u|].
    - destruct (span_digits u) as [f r']. destruct (is_empty_str f); [done|].
      injection Hd as <- _. rewrite str_app_cons. eauto.
    - injection Hd as <- _. eauto. }
  destruct Hhead as (c' & t' & -> & Hc). by eapply parse_f64_digit.
Qed.

Lemma size_kib_ok text msg v : size_kib text msg = Ok v → (1 ≤ v)%Z.
Proof.
  intros (x & Hx & H)%result_bind_Ok. unfold ok_or in Hx.
  destruct (size_value text) as [y|] eqn:Hy; simplify_eq.
  apply size_value_num in Hy as (z & Hz & ->).
  repeat case_match; simplify_eq. by apply round_positive.
Qed.

(** ** Validity *)

(** Every check of a list holds, as a conjunction. *)
Fixpoint all_ok (l : list (bool * string)) : Prop :=
  match l with [] => True | (ok, _) :: l' => ok = true ∧ all_ok l' end.

Lemma ensure_all_ok l : ensure_all l = Ok tt ↔ all_ok l.
Proof.
  induction l as [|[ok m] l IH]; cbn [ensure_all all_ok]; [done|]. rewrite <- IH.
  destruct ok; cbn; naive_solver.
Qed.

(** A field after [set_field] is the old one or one its parser gave. *)
Lemma set_field_ok {A} (P : A → Prop) key raw parse old v c :
  set_field key raw parse old = Ok (v, c) → P old → (∀ t w, parse t = Ok w → P w) →
  P v ∧ c = match raw with Some r => [key +:+ " " +:+ r] | None => [] end.
Proof.
  unfold set_field. destruct raw as [r|]; [|by intros [= <- <-]].
  destruct (parse r) as [w|] eqn:Hp; [|done]. intros [= <- <-] _ Hparse. eauto.
Qed.

Lemma optional_ok {A} (Q : A → bool) (parse : string → result string A) (b : bool) text v :
  (∀ t w, parse t = Ok w → Q w = true) →
  (if b then Ok None else Some <$> parse text : result string (option A)) = Ok v →
  from_option Q true v = true.
Proof. intros Hp. destruct b; [by intros [= <-]|]. intros (w & Hw & ->)%fmap_Ok. by eapply Hp. Qed.

Lemma memory_budget_ok text v :
  memory_budget_of text = Ok v → negb (bool_decide (v = BudgetKib 0)) = true.
Proof.
  unfold memory_budget_of. repeat case_match; try by intros [= <-].
  intros (w & Hw%size_kib_ok & ->)%fmap_Ok. apply negb_true_iff, bool_decide_eq_false.
  intros [=]. lia.
Qed.

Lemma size_floor_ok text v :
  size_floor text = Ok v → negb (bool_decide (v = Some 0%Z)) = true.
Proof.
  unfold size_floor. case_match; [by intros [= <-]|].
  intros (w & Hw%size_kib_ok & ->)%fmap_Ok. apply negb_true_iff, bool_decide_eq_false.
  intros [=]. lia.
Qed.

Lemma log_limit_ok text v : log_limit_of text = Ok v → (1 <=? v)%Z = true.
Proof.
  intros (w & Hw%counting_ok & H)%result_bind_Ok. unfold ok_or, checked_u64 in H.
  repeat case_match; by simplify_eq.
Qed.

Lemma timer_quota_ok text v : timer_quota_of text = Ok v → (1 <=? v)%Z = true.
Proof. intros (w & Hw%counting_ok & H)%result_bind_Ok. by case_match; simplify_eq. Qed.

Lemma reconcile_interval_ok text v :
  reconcile_interval_of text = Ok v → is_finite v && f_le (f_of_Z 1) v = true.
Proof. intros (w & _ & H)%result_bind_Ok. by case_match; simplify_eq. Qed.

Lemma claim_ttl_ok text v :
  parse_claim_ttl text = Ok v → is_finite v && f_le CLAIM_TTL_MIN_S v = true.
Proof.
  intros (w & [Hw _]%duration_ok%andb_prop & H)%result_bind_Ok. case_match; simplify_eq.
  by rewrite Hw.
Qed.

Lemma run_role_ok text v : run_role_of text = Ok v → bool_decide (v ∈ RUN_ROLES) = true.
Proof. unfold run_role_of. case_match; [|done]. by intros [= <-]. Qed.

Lemma cpu_budget_ok text v : cpu_budget_of text = Ok v → from_option is_positive true v = true.
Proof. by apply optional_ok, positive_value_ok. Qed.

Lemma capacity_ok text v : capacity_of text = Ok v → from_option is_positive true v = true.
Proof. by apply optional_ok, positive_value_ok. Qed.

Lemma idle_floor_ok text v : idle_floor_of text = Ok v → from_option is_percent true v = true.
Proof. by apply optional_ok, percent_ok. Qed.

Create HintDb settings.
#[export] Hint Resolve duration_ok positive_value_ok percent_ok memory_budget_ok size_floor_ok log_limit_ok
  timer_quota_ok reconcile_interval_ok claim_ttl_ok run_role_ok cpu_budget_ok capacity_ok
  idle_floor_ok : settings.

(** Takes the next field of [apply] apart, with what its check says. *)
Ltac next_field H P Hv :=
  let v := fresh "v" in let c := fresh "c" in let Hf := fresh "Hf" in
  apply result_bind_Ok in H as ([v c] & Hf & H);
  apply (set_field_ok P) in Hf as [Hv ->]; [|by eauto with settings..].

(** a patch that is accepted turns valid settings into valid settings,
    whatever texts it holds, and reports exactly the fields it names; a patch
    with one bad text gives an error and no settings. *)
Theorem apply_valid s patch s' changes :
  validate s = Ok tt → apply s patch = Ok (s', changes) →
  validate s' = Ok tt ∧ changes = patch_changes patch.
Proof.
  unfold validate at 1. rewrite ensure_all_ok. cbn [checks all_ok].
  intros (V1 & V2 & V3 & V4 & V5 & V6 & V7 & V8 & V9 & V10 & V11 & V12 & V13 & V14 & V15 & V16 &
    V17 & V18 & V19 & V20 & V21 & V22 & _) H. unfold apply in H.
  next_field H (λ v, from_option is_positive true v = true) W1.
  next_field H (λ v, from_option is_positive true v = true) W2.
  next_field H (λ v, negb (bool_decide (v = BudgetKib 0)) = true) W3.
  next_field H (λ v, is_percent v = true) W4.
  next_field H (λ v : MemLimit, True) W5.
  next_field H (λ v, is_positive v = true) W6.
  next_field H (λ v, is_positive v = true) W7.
  next_field H (λ v, (1 <=? v)%Z = true) W8.
  next_field H (λ v, is_positive v = true) W9.
  next_field H (λ v, is_positive v = true) W10.
  next_field H (λ v, is_positive v = true) W11.
  next_field H (λ v, is_zero_or_more v = true) W12.
  next_field H (λ v : Qos, True) W13.
  next_field H (λ v, is_zero_or_more v = true) W14.
  next_field H (λ v, is_zero_or_more v = true) W15.
  next_field H (λ v : bool, True) W16.
  next_field H (λ v, (1 <=? v)%Z = true) W17.
  next_field H (λ v, negb (bool_decide (v = Some 0%Z)) = true) W18.
  next_field H (λ v, negb (bool_decide (v = Some 0%Z)) = true) W19.
  next_field H (λ v, from_option is_percent true v = true) W20.
  next_field H (λ v, is_finite v && f_le (f_of_Z 1) v = true) W21.
  next_field H (λ v, is_positive v = true) W22.
  next_field H (λ v, is_finite v && f_le CLAIM_TTL_MIN_S v = true) W23.
  next_field H (λ v, bool_decide (v ∈ RUN_ROLES) = true) W24.
  next_field H (λ v, (1 <=? v)%Z = true) W25.
  injection H as <- <-. split.
  - unfold validate. rewrite ensure_all_ok. cbn [checks all_ok
      cpu_budget capacity memory_budget idle_min memory_limit load_factor load_wait log_limit
      keep_days backfill_wait small_weight aging job_qos quiet_drain quiet_max self_accept
      timer_quota disk_floor_kib memory_floor_kib idle_floor_pct reconcile_interval_s lease_ttl_s
      claim_ttl_s run_role max_waiting].
    split_and!; done.
  - unfold patch_changes. cbn [flat_map fst snd]. by rewrite app_nil_r.
Qed.

(** Two fields changed; the bound of a third is refused by name. *)
Lemma apply_valid_witness :
  ∃ s', apply default_settings (mk_patch (Some "4") None (Some "14 GiB") None None None None None None
    None None None None None None None None None None None None None None None None) =
      Ok (s', ["cpu_budget 4"; "memory_budget 14 GiB"]) ∧
    validate s' = Ok tt ∧ memory_budget s' = BudgetKib 14680064 ∧
    apply default_settings (mk_patch None None None (Some "100") None None None None None None None
      None None None None None None None None None None None None None None) =
      Err "--idle-min: '100' is not below 100".
Proof.
  eexists. split; [by vm_compute|]. split; [|split; by vm_compute].
  refine (proj1 (apply_valid default_settings _ _ _ _ _)); [by vm_compute|].
  instantiate (2 := mk_patch (Some "4") None (Some "14 GiB") None None None None None None
    None None None None None None None None None None None None None None None None).
  by vm_compute.
Defined.
