(* ===== verification/Predict.v ===== *)
(** * Resource prediction

    [src/crates/agora-sched/src/predict.rs]: cores, memory and run time of a job
    from the runs of the finest signature level that has enough of them. *)

From S2P Require Import Prelude F64 Strs.

Definition HISTORY : nat := 5.
Definition RECENT : nat := 200.
Definition TYPICAL_RUNS : nat := 20.
Definition TYPICAL_MIN : nat := 3.
Definition TYPICAL_CORES : f64 := f_of_Z 1.
Definition DEFAULT_DURATION : f64 := f_of_Z 30.
Definition MIN_CORES : f64 := f_lit 1 10.
Definition MIN_DURATION : f64 := f_lit 5 100.
Definition P90 : f64 := f_lit 9 10.

Inductive Level : Type := LFull | LHead | LProg | LTool | LExclusive | LNone.

Definition LEVELS : list Level := [LFull; LHead; LProg; LTool].
Definition NEEDED : list nat := [1; 2; 3; 3].

Record Run : Type := mk_run {
  started_ms : Z; ended_ms : Z; cpu_seconds : f64; rss_peak_kib : option Z }.

Record Prediction : Type := mk_prediction {
  pr_cores : f64;
  pr_rss_kib : option Z;
  pr_rss_p90_kib : option Z;
  pr_duration_s : f64;
  pr_duration_p90_s : option f64;
  pr_level : Level;
  pr_runs : Z }.

Definition basis (p : Prediction) : string :=
  let runs source := dec (pr_runs p) +:+ " run" +:+ (if (pr_runs p =? 1)%Z then "" else "s")
    +:+ " of " +:+ source in
  match pr_level p with
  | LNone => "no history: the declared weight"
  | LExclusive => "typical exclusive use; no history"
  | LFull => runs "the same command"
  | LHead => runs "the same program and flags"
  | LProg => runs "the same program in this place"
  | LTool => runs "the same program"
  end.

Record History : Type := mk_history {
  by_level : list (list Run);
  recent_durations_s : list f64;
  exclusive_runs : list Run }.

Definition median (xs : list f64) : option f64 :=
  let sorted := sort_by total_cmp xs in
  let mid := length sorted / 2 in
  if Nat.eqb (length sorted mod 2) 1 then sorted !! mid
  else match mid with
       | O => None
       | S before => a ← sorted !! before; b ← sorted !! mid; Some ((a + b) / f_of_Z 2)%f64
       end.

Definition nearest_rank {T} (sorted : list T) (q : f64) : option T :=
  match length sorted with
  | O => None
  | S last =>
      let rank := f_as_u64 (f_ceil (q * f_of_Z (Z.of_nat (length sorted)))%f64) in
      sorted !! Nat.min (Z.to_nat (Z.min rank (Z.of_nat (S last))) - 1) last
  end.

Definition percentile (xs : list f64) (q : f64) : option f64 :=
  nearest_rank (sort_by total_cmp xs) q.

Definition exclusive_at (weight cpus : f64) : bool := f_le (f_of_Z 2) cpus && f_le cpus weight.

Definition run_seconds (run : Run) : f64 :=
  f_max (f_of_Z (sat_i64 (ended_ms run - started_ms run)) / f_of_Z 1000)%f64 MIN_DURATION.

(** The first items of a newest-first list. *)
Definition newest {T} (xs : list T) (cap : nat) : list T := take cap xs.

Definition run_rate (run : Run) : f64 := (cpu_seconds run / run_seconds run)%f64.

Definition typical_exclusive (runs : list Run) : f64 :=
  let runs := newest runs TYPICAL_RUNS in
  if Nat.ltb (length runs) TYPICAL_MIN then TYPICAL_CORES
  else match median (run_rate <$> runs) with
       | Some cores => f_max cores MIN_CORES
       | None => TYPICAL_CORES
       end.

Definition from_level (level : Level) (runs : list Run) (weight : f64) : option Prediction :=
  let durations := run_seconds <$> runs in
  let peaks := sort_by Z.compare (omap rss_peak_kib runs) in
  rate ← median (run_rate <$> runs);
  duration ← median durations;
  Some (mk_prediction (f_min weight (f_max rate MIN_CORES)) (last peaks) (nearest_rank peaks P90)
    duration (percentile durations P90) level (Z.min (Z.of_nat (length runs)) u32_max)).

Fixpoint predict_levels (levels : list (Level * nat * list Run)) (weight : f64) :
    option Prediction :=
  match levels with
  | [] => None
  | (level, needed, history) :: rest =>
      let runs := newest history HISTORY in
      if Nat.ltb (length runs) needed then predict_levels rest weight
      else match from_level level runs weight with
           | Some p => Some p
           | None => predict_levels rest weight
           end
  end.

Definition predict (h : History) (weight cpus : f64) : Prediction :=
  match predict_levels (zip (zip LEVELS NEEDED) (by_level h)) weight with
  | Some p => p
  | None =>
      let duration_s :=
        default DEFAULT_DURATION (median (newest (recent_durations_s h) RECENT)) in
      if exclusive_at weight cpus then
        mk_prediction (f_min weight (typical_exclusive (exclusive_runs h))) None None duration_s
          None LExclusive 0
      else mk_prediction weight None None duration_s None LNone 0
  end.

(** ** What a prediction promises *)

Lemma median_some xs : xs ≠ [] → is_Some (median xs).
Proof.
  intros Hne. unfold median. rewrite length_sort_by.
  assert (Hl : 0 < length xs) by (destruct xs; [done|cbn; lia]).
  assert (Hat : ∀ i, i < length xs → is_Some (sort_by total_cmp xs !! i)).
  { intros i Hi. apply lookup_lt_is_Some_2. by rewrite length_sort_by. }
  pose proof (Nat.div_mod (length xs) 2 ltac:(lia)).
  pose proof (Nat.mod_upper_bound (length xs) 2 ltac:(lia)).
  destruct (Nat.eqb_spec (length xs mod 2) 1); [apply Hat; lia|].
  destruct (length xs / 2) as [|k] eqn:Hk; [lia|].
  destruct (Hat k) as [a ->]; [lia|]. destruct (Hat (S k)) as [b ->]; [lia|]. by eexists.
Qed.

Lemma nearest_rank_some {T} (xs : list T) q : xs ≠ [] → is_Some (nearest_rank xs q).
Proof.
  intros Hne. unfold nearest_rank. destruct (length xs) as [|l] eqn:Hl; [by destruct xs|].
  apply lookup_lt_is_Some_2. lia.
Qed.

(** A level that has enough runs always gives a prediction, of no more cores than
    declared, with a run time and its 90th percentile. *)
Lemma from_level_some level runs weight :
  runs ≠ [] → not_nan weight → ∃ p, from_level level runs weight = Some p ∧
    pr_level p = level ∧ f_le (pr_cores p) weight = true ∧ is_Some (pr_duration_p90_s p).
Proof.
  intros Hne Hw. unfold from_level.
  destruct (median_some (run_rate <$> runs)) as [rate ->]; [by destruct runs|].
  destruct (median_some (run_seconds <$> runs)) as [dur ->]; [by destruct runs|].
  eexists. split; [done|]. split; [done|]. split; [by apply f_min_le_l|].
  apply nearest_rank_some. intros H%(f_equal length). rewrite length_sort_by in H. by destruct runs.
Qed.

(** The prediction of a job comes from the first level with enough runs, and never
    exceeds the declared weight. *)
Lemma predict_bounded h weight cpus :
  not_nan weight → f_le (pr_cores (predict h weight cpus)) weight = true.
Proof.
  intros Hw. unfold predict. destruct (predict_levels _ weight) as [p|] eqn:Hp.
  - revert Hp. generalize (zip (zip LEVELS NEEDED) (by_level h)). intros ls.
    induction ls as [|[[level needed] history] ls IH]; cbn [predict_levels]; [done|].
    destruct (Nat.ltb _ _); [done|]. destruct (from_level _ _ _) as [p'|] eqn:Hf; [|done].
    intros [= <-]. unfold from_level in Hf. apply bind_Some in Hf as (r & _ & Hf).
    apply bind_Some in Hf as (d & _ & [= <-]). by apply f_min_le_l.
  - destruct (exclusive_at weight cpus); [by apply f_min_le_l|by apply f_le_refl].
Qed.
