(* ===== verification/Admit.v ===== *)
(** * Admission control

    [src/crates/agora-sched/src/admit.rs]: budgets, machine pressure, memory
    reservation, the admission of one job, the order of the line and backfill. *)

From S2P Require Import Prelude F64 Strs PyFmt Task TextFmt Settings Predict.

Inductive MemLevel : Type := LevelNormal | LevelWarning | LevelCritical.

Record Signals : Type := mk_signals {
  idle_pct : option f64;
  memory_level : option MemLevel;
  load1 : option f64;
  load_gate : bool;
  memory_used_kib : option Z }.

Record MachineSnapshot : Type := mk_machine {
  m_cpus : f64;
  total_memory_kib : option Z;
  disk_free_kib : option Z;
  m_signals : option Signals }.

Record RunningJob : Type := mk_running_job {
  rj_id : string;
  rj_weight : f64;
  rj_pred_cores : option f64;
  rj_pred_rss_p90_kib : option Z;
  rj_pred_duration_p90_s : option f64;
  rj_rss_kib : option Z;
  rj_started_s : option f64;
  rj_quiet_until_s : option f64 }.

Record WaitingJob : Type := mk_waiting_job {
  wj_id : string;
  wj_kind : string;
  wj_seq : Z;
  wj_requested_s : f64;
  wj_weight : f64;
  wj_pred_cores : option f64;
  wj_pred_duration_s : option f64;
  wj_pred_duration_p90_s : option f64;
  wj_pred_rss_p90_kib : option Z;
  wj_machine_held_since_s : option f64 }.

#[export] Instance WaitingJob_eq_dec : EqDecision WaitingJob.
Proof. solve_decision. Defined.

#[export] Instance RunningJob_eq_dec : EqDecision RunningJob.
Proof. solve_decision. Defined.

Inductive Cause : Type :=
| CCores | CCapacity | CReserved | CMemory | CIdle | CLoad | CQuiet | CAhead | CPaused.

Definition is_machine (c : Cause) : bool :=
  match c with CMemory | CIdle | CLoad => true | _ => false end.

Record Hold : Type := mk_hold { h_cause : Cause; h_reason : string }.

Record Budgets : Type := mk_budgets {
  b_cpus : f64;
  b_budget : f64;
  b_capacity : option f64;
  b_memory_budget_kib : option Z;
  b_load_limit : f64 }.

Definition TINY_CORES : f64 := f_lit 1 2.
Definition RESERVE_KIB : Z := 2097152.
Definition EPS : f64 := f_lit 1 1000000000.
Definition DEFAULT_DURATION_S : f64 := f_of_Z 30.

Definition budgets (s : WorkSettings) (m : MachineSnapshot) : Budgets :=
  let memory_budget_kib :=
    match memory_budget s with
    | BudgetOff => None
    | BudgetKib kib => Some kib
    | BudgetAuto =>
        total ← total_memory_kib m;
        if (RESERVE_KIB <? total)%Z then Some (total - RESERVE_KIB)%Z else None
    end in
  mk_budgets (m_cpus m) (default (m_cpus m) (cpu_budget s)) (capacity s) memory_budget_kib
    (m_cpus m * load_factor s)%f64.

Definition cores (weight : f64) (pred_cores : option f64) : f64 :=
  match pred_cores with None => weight | Some pred => f_min weight pred end.

Definition is_tiny (c : f64) : bool := f_le c (TINY_CORES + EPS)%f64.
Definition is_heavy (c small_weight : f64) : bool := f_lt (small_weight + EPS)%f64 c.

Definition level_rank (l : MemLevel) : nat :=
  match l with LevelNormal => 0 | LevelWarning => 1 | LevelCritical => 2 end.

Definition level_name (l : MemLevel) : string :=
  match l with LevelNormal => "normal" | LevelWarning => "warning" | LevelCritical => "critical" end.

Definition memory_limit_level (limit : MemLimit) : option MemLevel :=
  match limit with
  | LimitWarning => Some LevelWarning
  | LimitCritical => Some LevelCritical
  | LimitOff => None
  end.

(** The first rule that holds a job. *)
Definition or_else (a b : option Hold) : option Hold :=
  match a with Some h => Some h | None => b end.

Definition pressure_level (s : WorkSettings) (sig : Signals) : option Hold :=
  limit ← memory_limit_level (memory_limit s);
  level ← memory_level sig;
  if Nat.leb (level_rank limit) (level_rank level) then
    Some (mk_hold CMemory ("memory pressure is " +:+ level_name level +:+ "; jobs start below "
      +:+ MemLimit_as_str (memory_limit s)))
  else None.

Definition pressure_used (b : Budgets) (sig : Signals) : option Hold :=
  budget ← b_memory_budget_kib b;
  used ← memory_used_kib sig;
  if (budget <? used)%Z then
    Some (mk_hold CMemory ("used memory is " +:+ gib used +:+ ", above the memory budget of "
      +:+ gib budget))
  else None.

Definition pressure_idle (s : WorkSettings) (sig : Signals) : option Hold :=
  idle ← idle_pct sig;
  if f_lt idle (idle_min s) then
    Some (mk_hold CIdle ("the CPU is " +:+ fmt_fixed idle 0 +:+ "% idle; jobs start at "
      +:+ fmt_g (idle_min s) +:+ "% idle or more"))
  else None.

Definition pressure_load (b : Budgets) (sig : Signals) : option Hold :=
  if load_gate sig then
    load ← load1 sig;
    if f_le (b_load_limit b) load then
      Some (mk_hold CLoad ("the load average " +:+ fmt_fixed load 2 +:+ " is at or above "
        +:+ fmt_fixed (b_load_limit b) 2))
    else None
  else None.

Definition pressure (s : WorkSettings) (b : Budgets) (sig : option Signals) : option Hold :=
  sig ← sig;
  or_else (pressure_level s sig)
    (or_else (pressure_used b sig) (or_else (pressure_idle s sig) (pressure_load b sig))).

(** What a running job may still grow by. *)
Definition growth_of (now_s : f64) (r : RunningJob) : option Z :=
  p90 ← rj_pred_rss_p90_kib r;
  duration ← rj_pred_duration_p90_s r;
  started ← rj_started_s r;
  if f_lt now_s (started + duration)%f64 then Some (sat_sub_u64 p90 (default 0%Z (rj_rss_kib r)))
  else None.

Definition memory_reservation (cand_rss_p90_kib : option Z) (running : list RunningJob)
    (b : Budgets) (sig : option Signals) (now_s : f64) : option Hold :=
  sig ← sig;
  budget ← b_memory_budget_kib b;
  used ← memory_used_kib sig;
  if bool_decide (running = []) || (budget <? used)%Z then None
  else
    let growth := foldl (λ a g, sat_u64 (a + g)) 0%Z (omap (growth_of now_s) running) in
    let projected := sat_u64 (sat_u64 (used + growth) + default 0%Z cand_rss_p90_kib) in
    if (budget <? projected)%Z then
      Some (mk_hold CReserved
        ("used memory, the running jobs' predicted growth and this job's predicted peak come to "
         +:+ gib projected +:+ ", above the memory budget of " +:+ gib budget))
    else None.

Definition running_cores (running : list RunningJob) : f64 :=
  py_fsum ((λ r, cores (rj_weight r) (rj_pred_cores r)) <$> running).

(** Alone, anything fits. *)
Definition over (need used limit : f64) : bool :=
  f_lt f_zero used && f_lt (limit + EPS)%f64 (used + need)%f64.

Definition taken (need used : f64) (b : Budgets) : Hold :=
  mk_hold CCores ("predicted " +:+ number used +:+ " of " +:+ number (b_budget b)
    +:+ " cores are taken and this job needs " +:+ number need).

Definition admission (job : WaitingJob) (running : list RunningJob) (s : WorkSettings)
    (b : Budgets) (sig : option Signals) (now_s : f64) : option Hold :=
  let need := cores (wj_weight job) (wj_pred_cores job) in
  let used := running_cores running in
  let exclusive := exclusive_at (wj_weight job) (b_cpus b) in
  if over need used (b_budget b) && negb (is_tiny need && negb exclusive) then
    Some (taken need used b)
  else
    let declared := py_fsum (rj_weight <$> running) in
    or_else
      (capacity ← b_capacity b;
       if over (wj_weight job) declared capacity then
         Some (mk_hold CCapacity ("declared weights of " +:+ number declared
           +:+ " of the capacity of " +:+ number capacity +:+ " cores are taken and this job declares "
           +:+ number (wj_weight job)))
       else None)
      (or_else (memory_reservation (wj_pred_rss_p90_kib job) running b sig now_s)
         (pressure s b sig)).

(** ** The line *)

Definition is_validity (kind : string) : bool := (tier_of kind =? 0)%Z.

Definition tier (job : WaitingJob) : Z := if is_validity (wj_kind job) then 0 else 1.

Definition order_key (job : WaitingJob) (aging : f64) : f64 :=
  (default DEFAULT_DURATION_S (wj_pred_duration_s job) + aging * wj_requested_s job)%f64.

Definition py_cmp (a b : f64) : comparison := if f_eq a b then Eq else total_cmp a b.

Definition waiting_order_cmp (aging : f64) (a b : WaitingJob) : comparison :=
  then_with (tier a ?= tier b)%Z
    (then_with (py_cmp (order_key a aging) (order_key b aging))
       (then_with (py_cmp (wj_requested_s a) (wj_requested_s b))
          (wj_seq a ?= wj_seq b)%Z)).

(** ** Backfill *)

Definition end_of (now_s : f64) (r : RunningJob) : f64 :=
  match rj_started_s r, rj_pred_duration_p90_s r with
  | Some started, Some p90 => f_max now_s (started + p90)%f64
  | _, _ => now_s
  end.

Definition ends_cmp (x y : f64 * f64) : comparison :=
  then_with (py_cmp x.1 y.1) (py_cmp x.2 y.2).

(** The end at which enough cores are free; the last end when there is none. *)
Fixpoint release_until (head_need budget used : f64) (ends : list (f64 * f64)) (latest : f64) :
    f64 :=
  match ends with
  | [] => latest
  | (end_, released) :: rest =>
      let used := (used - released)%f64 in
      if over head_need used budget then release_until head_need budget used rest end_ else end_
  end.

Definition head_start_estimate (head_need : f64) (running : list RunningJob) (b : Budgets)
    (now_s : f64) : f64 :=
  let used := running_cores running in
  if over head_need used (b_budget b) then
    let ends := sort_by ends_cmp
      ((λ r, (end_of now_s r, cores (rj_weight r) (rj_pred_cores r))) <$> running) in
    release_until head_need (b_budget b) used ends now_s
  else now_s.

(** [r.started_s.is_some_and(|started| started >= since)]. *)
Definition started_since (since : f64) (r : RunningJob) : bool :=
  match rj_started_s r with Some started => f_le since started | None => false end.

Definition backfill (job : WaitingJob) (ahead : list WaitingJob) (running : list RunningJob)
    (s : WorkSettings) (b : Budgets) (sig : option Signals) (now_s : f64) : option Hold :=
  match ahead with
  | [] => None
  | head :: _ =>
    let need := cores (wj_weight job) (wj_pred_cores job) in
    let head_need := cores (wj_weight head) (wj_pred_cores head) in
    let waited := (now_s - wj_requested_s head)%f64 in
    if f_le (backfill_wait s) waited then
      Some (mk_hold CAhead ("job " +:+ wj_id head +:+ " has waited " +:+ span (Some waited)
        +:+ ", past the backfill limit of " +:+ span (Some (backfill_wait s))
        +:+ ", so no job starts before it"))
    else
    let used := running_cores running in
    if negb (over head_need used (b_budget b)) then
      Some (mk_hold CAhead
        match memory_reservation (wj_pred_rss_p90_kib head) running b sig now_s with
        | Some held => "job " +:+ wj_id head +:+ " is ahead of it and waits for memory: " +:+ h_reason held
        | None => "job " +:+ wj_id head +:+ " is ahead of it, and there is room for it"
        end)
    else if f_lt (b_budget b + EPS)%f64 (used + need)%f64 then Some (taken need used b)
    else
    let since_weights := (λ r, cores (rj_weight r) (rj_pred_cores r)) <$>
      filter (λ r, started_since (wj_requested_s head) r = true) running in
    let spare := (b_budget b - head_need - py_fsum since_weights)%f64 in
    if f_le need (spare + EPS)%f64 then None
    else
    let head_start := head_start_estimate head_need running b now_s in
    if match wj_pred_duration_p90_s job with
       | Some p90 => f_le (now_s + p90)%f64 (head_start + EPS)%f64
       | None => false
       end then None
    else
    let validity := List.find (λ j, is_validity (wj_kind j)) ahead in
    let small := f_le need (small_weight s + EPS)%f64 in
    if small && bool_decide (validity = None) then None
    else
    let p90_text := match wj_pred_duration_p90_s job with
      | Some p90 => span (Some p90) +:+ " at p90, "
      | None => ""
      end in
    let when := if f_le head_start now_s then "any moment"
                else "in " +:+ span (Some (head_start - now_s)%f64) in
    let reason := "job " +:+ wj_id head +:+ " is ahead of it and needs " +:+ number head_need
      +:+ " of the " +:+ number (b_budget b) +:+ " cores, which leaves "
      +:+ number (f_max spare f_zero) +:+ " for jobs behind it; this job needs " +:+ number need
      +:+ ", " +:+ p90_text +:+ "and the head may start " +:+ when in
    Some (mk_hold CAhead
      match validity with
      | Some v => if small then reason +:+ ", and job " +:+ wj_id v
          +:+ ", validity work, keeps its place" else reason
      | None => reason
      end)
  end.

(** ** The order of the line is a total preorder

    so the sorts of this file and of the admission pass are well defined. *)

Lemma py_cmp_rank a b : py_cmp a b = lex3 (rank a) (rank b).
Proof.
  unfold py_cmp. destruct (f_eq a b) eqn:He.
  - pose proof (f_eq_nan _ _ He) as [Ha Hb]. apply f_eq_cmp in He; [|done..].
    unfold cmp_f64 in He. by rewrite partial_cmp_rank in He.
  - unfold total_cmp. by destruct a as [[]|[]| |[] ? ?], b as [[]|[]| |[] ? ?].
Qed.

#[export] Instance py_cmp_total : TotalCmp (λ _, True) py_cmp.
Proof.
  apply (total_cmp_ext _ _ (λ a b, lex3 (rank a) (rank b))); [intros; apply py_cmp_rank|].
  apply (total_cmp_on (λ _, True) lex3 rank _).
Qed.

#[export] Instance waiting_order_total aging : TotalCmp (λ _, True) (waiting_order_cmp aging).
Proof.
  apply total_cmp_then; [|apply total_cmp_then; [|apply total_cmp_then]].
  - apply (total_cmp_on (λ _, True) Z.compare tier _).
  - apply (total_cmp_on (λ _, True) py_cmp (λ j, order_key j aging) _).
  - apply (total_cmp_on (λ _, True) py_cmp wj_requested_s _).
  - apply (total_cmp_on (λ _, True) Z.compare wj_seq _).
Qed.

#[export] Instance ends_cmp_total : TotalCmp (λ _, True) ends_cmp.
Proof.
  apply total_cmp_then.
  - apply (total_cmp_on (λ _, True) py_cmp fst _).
  - apply (total_cmp_on (λ _, True) py_cmp snd _).
Qed.

(** ** What admits a job *)

Lemma or_else_None a b : or_else a b = None ↔ a = None ∧ b = None.
Proof. destruct a; cbn; naive_solver. Qed.

(** The cores of a job fit in the core budget beside what runs. *)
Definition within_cores (job : WaitingJob) (running : list RunningJob) (b : Budgets) : Prop :=
  over (cores (wj_weight job) (wj_pred_cores job)) (running_cores running) (b_budget b) = false.

(** A tiny job that is not exclusive skips the core budget. *)
Definition skips_cores (job : WaitingJob) (b : Budgets) : Prop :=
  is_tiny (cores (wj_weight job) (wj_pred_cores job)) = true ∧ exclusive_at (wj_weight job) (b_cpus b) = false.

(** The weight of a job fits in the capacity, where there is one. *)
Definition within_capacity (job : WaitingJob) (running : list RunningJob) (b : Budgets) : Prop :=
  ∀ c, b_capacity b = Some c → over (wj_weight job) (py_fsum (rj_weight <$> running)) c = false.

Definition fits (job : WaitingJob) (running : list RunningJob) (b : Budgets) : Prop :=
  (within_cores job running b ∨ skips_cores job b) ∧ within_capacity job running b.

Lemma admission_None job running s b sig now :
  admission job running s b sig now = None ↔
  fits job running b ∧ memory_reservation (wj_pred_rss_p90_kib job) running b sig now = None ∧
  pressure s b sig = None.
Proof.
  unfold admission, fits, within_cores, skips_cores, within_capacity. set (need := cores _ _). set (used := running_cores running).
  assert (Hroom : over need used (b_budget b) &&
      negb (is_tiny need && negb (exclusive_at (wj_weight job) (b_cpus b))) = false ↔
    over need used (b_budget b) = false ∨
    is_tiny need = true ∧ exclusive_at (wj_weight job) (b_cpus b) = false).
  { destruct (over _ _ _), (is_tiny _), (exclusive_at _ _); cbn; naive_solver. }
  rewrite <- Hroom. destruct (_ && _); [split; [done|by intros [[? _] _]]|].
  rewrite !or_else_None. destruct (b_capacity b) as [c|]; cbn [mbind option_bind].
  - destruct (over (wj_weight job) _ c) eqn:Hc; split.
    + by intros [? _].
    + intros ((_ & H) & _). by rewrite H in Hc.
    + intros (_ & ? & ?). split_and!; try done. by intros ? [= <-].
    + by intros (_ & ? & ?).
  - split; [by intros (_ & ? & ?)|by intros (_ & ? & ?)].
Qed.
