(* ===== verification/Quiet.v ===== *)
(** * Quiet windows and the admission pass

    [src/crates/agora-sched/src/quiet.rs]: what holds each waiting job, and one
    pass over the line that starts, holds or fails every job of it. *)

From S2P Require Import Prelude F64 Strs PyFmt TextFmt Settings Predict Admit.

Record ManualQuiet : Type := mk_manual {
  mq_lease : string; mq_holder_name : string; mq_until_s : f64; mq_note : string }.

Record AdmitInput : Type := mk_input {
  in_now_s : f64;
  in_settings : WorkSettings;
  in_machine : MachineSnapshot;
  in_running : list RunningJob;
  in_waiting : list WaitingJob;
  in_window_closes : list (string * f64);
  in_paused : option string;
  in_manual_quiet : list ManualQuiet }.

Record Start : Type := mk_start {
  start_id : string; start_exclusive : bool; start_quiet_until_s : option f64 }.

Record Held : Type := mk_held { held_id : string; held_cause : Cause; held_reason : string }.

Record Failed : Type := mk_fail { fail_id : string; fail_note : string }.

Record AdmitDecision : Type := mk_decision {
  d_start : list Start;
  d_held : list Held;
  d_fail : list Failed;
  d_machine_held_since : list (string * option f64);
  d_next_wakeup_s : option f64;
  d_machine_gated : bool }.

Definition view (input : AdmitInput) : Budgets * option Signals :=
  (budgets (in_settings input) (in_machine input), m_signals (in_machine input)).

Definition quiet (reason : string) : Hold := mk_hold CQuiet reason.

(** [Iterator::reduce]. *)
Definition reduce {A} (f : A → A → A) (l : list A) : option A :=
  match l with [] => None | x :: l' => Some (foldl f x l') end.

Definition drain_start (job : WaitingJob) (closes : list (string * f64)) : f64 :=
  let closed := reduce f_max (snd <$> filter (λ c, c.1 ≠ wj_id job) closes) in
  f_max (wj_requested_s job) (default f_zero closed).

(** The close time of a running job's window, when it is still open. *)
Definition window_of (now : f64) (r : RunningJob) : option f64 :=
  until ← rj_quiet_until_s r; if f_lt now until then Some until else None.

Fixpoint open_window (running : list RunningJob) (now : f64) : option (RunningJob * f64) :=
  match running with
  | [] => None
  | r :: rest =>
      match window_of now r with
      | Some u => Some (r, u)
      | None => open_window rest now
      end
  end.

Definition manual_open (input : AdmitInput) : bool :=
  existsb (λ q, f_lt (in_now_s input) (mq_until_s q)) (in_manual_quiet input).

Definition manual_hold (input : AdmitInput) (job_cores : f64) : option Hold :=
  let now := in_now_s input in
  open ← min_by (λ x y, total_cmp (mq_until_s x) (mq_until_s y))
    (filter (λ q, f_lt now (mq_until_s q) = true) (in_manual_quiet input));
  let note := if is_empty_str (mq_note open) then "" else ": " +:+ mq_note open in
  Some (quiet ("quiet window " +:+ mq_lease open +:+ " opened by " +:+ mq_holder_name open
    +:+ " is open for " +:+ span (Some (mq_until_s open - now)%f64) +:+ " more" +:+ note
    +:+ "; no job predicted above " +:+ cores_text (small_weight (in_settings input))
    +:+ " starts in it, and this job needs " +:+ number job_cores)).

Definition job_cores (job : WaitingJob) : f64 := cores (wj_weight job) (wj_pred_cores job).

Definition quiet_blocker (job : WaitingJob) (input : AdmitInput) (running : list RunningJob)
    (quiet_line : list WaitingJob) : option Hold :=
  let '(b, sig) := view input in
  let s := in_settings input in
  let now := in_now_s input in
  let ahead :=
    match quiet_line with
    | first :: _ =>
        if bool_decide (wj_id first = wj_id job) then None
        else Some (quiet ("job " +:+ wj_id first
          +:+ ", exclusive too, is ahead of it: one quiet window at a time"))
    | [] => None
    end in
  match ahead with
  | Some h => Some h
  | None =>
  match open_window running now with
  | Some (w, until) => Some (quiet ("job " +:+ rj_id w +:+ "'s quiet window is open for "
      +:+ span (Some (until - now)%f64) +:+ " more: one quiet window at a time"))
  | None =>
  let end_ := (drain_start job (in_window_closes input) + quiet_drain s)%f64 in
  if f_le end_ now then
    or_else (memory_reservation (wj_pred_rss_p90_kib job) running b sig now) (pressure s b sig)
  else
  let busy := rj_id <$> filter (λ r,
    is_heavy (cores (rj_weight r) (rj_pred_cores r)) (small_weight s) = true) running in
  if negb (bool_decide (busy = [])) then
    let '(noun, verb) := if Nat.eqb (length busy) 1 then ("job", "runs") else ("jobs", "run") in
    Some (quiet ("it drains: " +:+ noun +:+ " " +:+ enumerate_ids busy +:+ ", predicted above "
      +:+ cores_text (small_weight s) +:+ ", still " +:+ verb +:+ "; it starts in "
      +:+ span (Some (end_ - now)%f64) +:+ " at the latest"))
  else
  match admission job running s b sig now with
  | Some h =>
      match h_cause h with
      | CCores | CCapacity => Some (mk_hold (h_cause h) (h_reason h +:+ "; it starts in "
          +:+ span (Some (end_ - now)%f64) +:+ " at the latest"))
      | _ => Some h
      end
  | None => None
  end
  end
  end.

(** The exclusive jobs of the line, in its order. *)
Definition quiet_line_of (input : AdmitInput) (waiting : list WaitingJob) : list WaitingJob :=
  sort_by (waiting_order_cmp (aging (in_settings input)))
    (filter (λ w, exclusive_at (wj_weight w) (m_cpus (in_machine input)) = true) waiting).

(** The jobs a light job queues with. *)
Definition light_line (input : AdmitInput) (holding : bool) (waiting : list WaitingJob) :
    list WaitingJob :=
  sort_by (waiting_order_cmp (aging (in_settings input)))
    (filter (λ w, negb (exclusive_at (wj_weight w) (m_cpus (in_machine input)))
       && negb (is_tiny (job_cores w))
       && negb (holding && is_heavy (job_cores w) (small_weight (in_settings input))) = true)
       waiting).

(** The jobs before [id], when it is in the line and not first. *)
Fixpoint before_id (id : string) (line : list WaitingJob) : option (list WaitingJob) :=
  match line with
  | [] => None
  | w :: rest => if bool_decide (wj_id w = id) then Some [] else cons w <$> before_id id rest
  end.

Definition blocker (job : WaitingJob) (input : AdmitInput) (running : list RunningJob)
    (waiting : list WaitingJob) : option Hold :=
  match in_paused input with
  | Some reason => Some (mk_hold CPaused ("admission is paused: " +:+ reason))
  | None =>
  let '(b, sig) := view input in
  let s := in_settings input in
  let now := in_now_s input in
  let c := job_cores job in
  let heavy_job := is_heavy c (small_weight s) in
  match (if heavy_job then manual_hold input c else None) with
  | Some h => Some h
  | None =>
  let quiet_line := quiet_line_of input waiting in
  if exclusive_at (wj_weight job) (b_cpus b) then quiet_blocker job input running quiet_line
  else
  let small := cores_text (small_weight s) in
  let window := open_window running now in
  let drain :=
    match quiet_line, window with
    | first :: _, None =>
        Some (first, (drain_start first (in_window_closes input) + quiet_drain s)%f64)
    | _, _ => None
    end in
  let draining := match drain with Some (_, end_) => f_lt now end_ | None => false end in
  let hold_heavy :=
    if heavy_job then
      match window, drain with
      | Some (w, until), _ =>
          Some (quiet ("job " +:+ rj_id w +:+ " runs in its quiet window for "
            +:+ span (Some (until - now)%f64) +:+ " more; no job predicted above " +:+ small
            +:+ " starts in it, and this job needs " +:+ number c))
      | None, Some (first, end_) =>
          if f_lt now end_ then
            Some (quiet ("job " +:+ wj_id first +:+ " waits to run exclusive, and for "
              +:+ span (Some (end_ - now)%f64) +:+ " more no job predicted above " +:+ small
              +:+ " starts; this job needs " +:+ number c))
          else None
      | None, None => None
      end
    else None in
  match hold_heavy with
  | Some h => Some h
  | None =>
  let holding := match window with Some _ => true | None => false end || draining || manual_open input in
  let behind :=
    if is_tiny c then None
    else match before_id (wj_id job) (light_line input holding waiting) with
         | Some (w :: ahead) => backfill job (w :: ahead) running s b sig now
         | _ => None
         end in
  or_else behind (admission job running s b sig now)
  end
  end
  end.

(** What a pass carries from job to job. *)
Record Pass : Type := mk_pass {
  ps_running : list RunningJob;
  ps_remaining : list WaitingJob;
  ps_start : list Start;
  ps_held : list Held;
  ps_fail : list Failed;
  ps_since : list (string * option f64) }.

Definition quiet_until (input : AdmitInput) (job : WaitingJob) : option f64 :=
  if exclusive_at (wj_weight job) (m_cpus (in_machine input))
  then Some (in_now_s input + quiet_max (in_settings input))%f64 else None.

Definition started_job (input : AdmitInput) (job : WaitingJob) : RunningJob :=
  mk_running_job (wj_id job) (wj_weight job) (wj_pred_cores job) (wj_pred_rss_p90_kib job)
    (wj_pred_duration_p90_s job) None (Some (in_now_s input)) (quiet_until input job).

Definition drop_id (id : string) (line : list WaitingJob) : list WaitingJob :=
  filter (λ w, wj_id w ≠ id) line.

Definition decide_step (input : AdmitInput) (ps : Pass) (job : WaitingJob) : Pass :=
  let s := in_settings input in
  let now := in_now_s input in
  match blocker job input (ps_running ps) (ps_remaining ps) with
  | None =>
      mk_pass (ps_running ps ++ [started_job input job]) (drop_id (wj_id job) (ps_remaining ps))
        (ps_start ps ++ [mk_start (wj_id job)
           (exclusive_at (wj_weight job) (m_cpus (in_machine input))) (quiet_until input job)])
        (ps_held ps) (ps_fail ps) (ps_since ps)
  | Some h =>
      let held := mk_held (wj_id job) (h_cause h) (h_reason h) in
      if is_machine (h_cause h) then
        let since := default now (wj_machine_held_since_s job) in
        let waited := (now - since)%f64 in
        if f_le (load_wait s) waited then
          mk_pass (ps_running ps) (drop_id (wj_id job) (ps_remaining ps)) (ps_start ps) (ps_held ps)
            (ps_fail ps ++ [mk_fail (wj_id job) (h_reason h +:+ " for " +:+ span (Some waited)
               +:+ ", the longest a job waits on the machine's pressure (agora work settings --load-wait)")])
            (ps_since ps)
        else
          mk_pass (ps_running ps) (ps_remaining ps) (ps_start ps) (ps_held ps ++ [held])
            (ps_fail ps) (ps_since ps ++ [(wj_id job, Some since)])
      else
        mk_pass (ps_running ps) (ps_remaining ps) (ps_start ps) (ps_held ps ++ [held])
          (ps_fail ps) (ps_since ps ++ [(wj_id job, None)])
  end.

(** [at.into_iter().filter(finite and later).reduce(f64::min)] over every instant
    at which a rule may change its mind. *)
Definition wakeups (input : AdmitInput) (b : Budgets) (ps : Pass) : list f64 :=
  let s := in_settings input in
  ((λ w, (wj_requested_s w + quiet_drain s)%f64) <$>
     filter (λ w, exclusive_at (wj_weight w) (b_cpus b) = true) (ps_remaining ps))
  ++ ((λ c, (c.2 + quiet_drain s)%f64) <$> in_window_closes input)
  ++ mjoin ((λ r, option_list (rj_quiet_until_s r) ++
       match rj_started_s r, rj_pred_duration_p90_s r with
       | Some started, Some p90 => [(started + p90)%f64]
       | _, _ => []
       end) <$> ps_running ps)
  ++ match List.find (λ w, negb (exclusive_at (wj_weight w) (b_cpus b))
         && negb (is_tiny (job_cores w))) (ps_remaining ps) with
     | Some head => [(wj_requested_s head + backfill_wait s)%f64]
     | None => []
     end
  ++ omap (λ p, (λ t, (t + load_wait s)%f64) <$> p.2) (ps_since ps)
  ++ (mq_until_s <$> in_manual_quiet input).

Definition next_wakeup (input : AdmitInput) (b : Budgets) (ps : Pass) : option f64 :=
  reduce f_min (filter (λ t, is_finite t && f_lt (in_now_s input) t = true) (wakeups input b ps)).

Definition order_of (input : AdmitInput) : list WaitingJob :=
  sort_by (waiting_order_cmp (aging (in_settings input))) (in_waiting input).

Definition pass_of (input : AdmitInput) : Pass :=
  foldl (decide_step input) (mk_pass (in_running input) (order_of input) [] [] [] [])
    (order_of input).

Definition decide_admission (input : AdmitInput) : AdmitDecision :=
  let b := (view input).1 in
  let ps := pass_of input in
  mk_decision (ps_start ps) (ps_held ps) (ps_fail ps) (ps_since ps) (next_wakeup input b ps)
    (existsb (λ h, is_machine (held_cause h)) (ps_held ps)).

(** ** What a start promises *)

(** The drain of an exclusive job is over: it starts whatever runs. *)
Definition drained (input : AdmitInput) (job : WaitingJob) : bool :=
  f_le (drain_start job (in_window_closes input) + quiet_drain (in_settings input))%f64
    (in_now_s input).

Definition is_exclusive (input : AdmitInput) (job : WaitingJob) : bool :=
  exclusive_at (wj_weight job) (m_cpus (in_machine input)).

Definition is_heavy_job (input : AdmitInput) (job : WaitingJob) : bool :=
  is_heavy (job_cores job) (small_weight (in_settings input)).

(** Everything the rules promise of a job that starts while [running] runs. *)
Record admitted (input : AdmitInput) (job : WaitingJob) (running : list RunningJob) : Prop := {
  ad_paused : in_paused input = None;
  ad_manual : is_heavy_job input job = true → manual_open input = false;
  ad_window : is_heavy_job input job = true ∨ is_exclusive input job = true →
    open_window running (in_now_s input) = None;
  ad_memory : memory_reservation (wj_pred_rss_p90_kib job) running (view input).1 (view input).2
    (in_now_s input) = None;
  ad_pressure : pressure (in_settings input) (view input).1 (view input).2 = None;
  ad_cores : within_cores job running (view input).1 ∨ skips_cores job (view input).1 ∨
    is_exclusive input job = true ∧ drained input job = true;
  ad_capacity : within_capacity job running (view input).1 ∨ is_exclusive input job = true ∧ drained input job = true }.

Lemma manual_hold_None input c : manual_hold input c = None → manual_open input = false.
Proof.
  unfold manual_hold, manual_open. intros H.
  destruct (min_by _ _) as [q|] eqn:Hm; [done|]. apply min_by_None in Hm.
  apply not_true_is_false. intros (q & Hq & Hlt)%existsb_exists.
  assert (Hin : q ∈ filter (λ q, f_lt (in_now_s input) (mq_until_s q) = true) (in_manual_quiet input)).
  { apply list_elem_of_filter. split; [done|]. by apply list_elem_of_In. }
  rewrite Hm in Hin. by apply not_elem_of_nil in Hin.
Qed.

Lemma quiet_blocker_None job input running line :
  quiet_blocker job input running line = None →
  open_window running (in_now_s input) = None ∧
  memory_reservation (wj_pred_rss_p90_kib job) running (view input).1 (view input).2
    (in_now_s input) = None ∧
  pressure (in_settings input) (view input).1 (view input).2 = None ∧
  (fits job running (view input).1 ∨ drained input job = true).
Proof.
  unfold quiet_blocker. destruct (view input) as [b sig]. cbn [fst snd].
  set (ahead := match line with [] => _ | _ => _ end). destruct ahead as [h|]; [done|].
  destruct (open_window running (in_now_s input)) as [[w u]|]; [done|].
  fold (drained input job). destruct (drained input job) eqn:Hd.
  { rewrite or_else_None. naive_solver. }
  destruct (negb _); [by destruct (Nat.eqb _ 1)|].
  destruct (admission _ _ _ _ _ _) as [h|] eqn:Ha; [by destruct (h_cause h)|].
  apply admission_None in Ha. naive_solver.
Qed.

Lemma blocker_None job input running waiting :
  blocker job input running waiting = None → admitted input job running.
Proof.
  unfold blocker. destruct (in_paused input) eqn:Hp; [done|].
  destruct (view input) as [b sig] eqn:Hv.
  assert (Hb : b_cpus b = m_cpus (in_machine input)) by (by injection Hv as <- _).
  fold (is_heavy_job input job). destruct (is_heavy_job input job) eqn:Hh;
    [destruct (manual_hold input (job_cores job)) eqn:Hm; [done|]|]; rewrite Hb;
    fold (is_exclusive input job); destruct (is_exclusive input job) eqn:He.
  - intros (H1 & H2 & H3 & H4)%quiet_blocker_None. split; try done.
    + intros _. by eapply manual_hold_None.
    + destruct H4 as [[[?|?] _]|?]; auto.
    + destruct H4 as [[_ ?]|?]; auto.
  - destruct (open_window running (in_now_s input)) as [[w u]|] eqn:Hw; [done|].
    intros H. assert (Ha : admission job running (in_settings input) b sig (in_now_s input) = None).
    { destruct (quiet_line_of input waiting) as [|x l]; [|destruct (f_lt _ _); [done|]];
        by apply or_else_None in H as [_ ?]. }
    apply admission_None in Ha as ([H1 H4] & H2 & H3).
    split; rewrite ?Hv; cbn [fst snd]; auto; [intros _; by eapply manual_hold_None|tauto].
  - intros (H1 & H2 & H3 & H4)%quiet_blocker_None. split; try done; [congruence| |]; destruct H4 as [[[?|?] ?]|?]; auto.
  - intros [_ Ha]%or_else_None. apply admission_None in Ha as ([H1 H4] & H2 & H3).
    split; rewrite ?Hv; cbn [fst snd]; auto; [congruence|intros [?|?]; congruence|tauto].
Qed.

(** ** A pass *)

Definition start_of (input : AdmitInput) (job : WaitingJob) : Start :=
  mk_start (wj_id job) (is_exclusive input job) (quiet_until input job).

(** One job of a pass: it is started, or it is held or failed and nothing else
    changes. *)
Lemma decide_step_cases input ps job :
  let ps' := decide_step input ps job in
  match blocker job input (ps_running ps) (ps_remaining ps) with
  | None =>
      ps_start ps' = ps_start ps ++ [start_of input job] ∧
      ps_running ps' = ps_running ps ++ [started_job input job] ∧
      ps_held ps' = ps_held ps ∧ ps_fail ps' = ps_fail ps
  | Some h =>
      ps_start ps' = ps_start ps ∧ ps_running ps' = ps_running ps ∧
      ((∃ note, ps_held ps' = ps_held ps ∧ ps_fail ps' = ps_fail ps ++ [mk_fail (wj_id job) note] ∧
          is_machine (h_cause h) = true) ∨
       ps_held ps' = ps_held ps ++ [mk_held (wj_id job) (h_cause h) (h_reason h)] ∧
         ps_fail ps' = ps_fail ps)
  end.
Proof.
  cbn zeta. unfold decide_step. destruct (blocker _ _ _ _) as [h|]; [|done].
  destruct (is_machine (h_cause h)); [destruct (f_le _ _)|]; cbn; eauto 10.
Qed.

(** The jobs a pass starts, each judged against what ran and what it started
    before. *)
Lemma pass_jobs input l ps :
  let ps' := foldl (decide_step input) ps l in
  ∃ jobs, (∀ j, j ∈ jobs → j ∈ l) ∧
    ps_start ps' = ps_start ps ++ (start_of input <$> jobs) ∧
    ps_running ps' = ps_running ps ++ (started_job input <$> jobs) ∧
    ∀ i job, jobs !! i = Some job →
      admitted input job (ps_running ps ++ (started_job input <$> take i jobs)).
Proof.
  revert ps. induction l as [|j l IH]; intros ps; cbn [foldl].
  { exists []. by rewrite !app_nil_r. }
  destruct (IH (decide_step input ps j)) as (jobs & Hin & Hs & Hr & Ha). clear IH.
  pose proof (decide_step_cases input ps j) as Hstep. cbn zeta in Hstep.
  destruct (blocker j input (ps_running ps) (ps_remaining ps)) as [h|] eqn:Hb.
  - destruct Hstep as (E1 & E2 & _). rewrite E1 in Hs. rewrite E2 in Hr, Ha. exists jobs.
    split_and!; [set_solver|done..].
  - destruct Hstep as (E1 & E2 & _). rewrite E1 in Hs. rewrite E2 in Hr, Ha.
    apply blocker_None in Hb. exists (j :: jobs). rewrite Hs, Hr, <- !app_assoc.
    split_and!; [set_solver|done|done|].
    intros [|i] job Hi; cbn in Hi; [simplify_eq; by rewrite app_nil_r|].
    specialize (Ha i job Hi). by rewrite <- app_assoc in Ha.
Qed.

(** Every job of the line ends in exactly one of the three lists. *)
Lemma pass_ids input l ps :
  let ids ps := (start_id <$> ps_start ps) ++ (held_id <$> ps_held ps) ++ (fail_id <$> ps_fail ps) in
  ids (foldl (decide_step input) ps l) ≡ₚ ids ps ++ (wj_id <$> l).
Proof.
  cbn zeta. revert ps. induction l as [|j l IH]; intros ps; cbn [foldl fmap list_fmap].
  { by rewrite app_nil_r. }
  rewrite IH. pose proof (decide_step_cases input ps j) as Hstep. cbn zeta in Hstep.
  destruct (blocker j input (ps_running ps) (ps_remaining ps)) as [h|].
  - destruct Hstep as (-> & _ & [(note & -> & -> & _)|[-> ->]]); rewrite !fmap_app; cbn; solve_Permutation.
  - destruct Hstep as (-> & _ & -> & ->). rewrite !fmap_app. cbn. solve_Permutation.
Qed.

Lemma order_of_perm input : order_of input ≡ₚ in_waiting input.
Proof. apply sort_by_perm. Qed.

(** The jobs [decide_admission] starts. *)
Lemma decide_jobs input :
  ∃ jobs, (∀ j, j ∈ jobs → j ∈ in_waiting input) ∧
    d_start (decide_admission input) = start_of input <$> jobs ∧
    ∀ i job, jobs !! i = Some job →
      admitted input job (in_running input ++ (started_job input <$> take i jobs)).
Proof.
  destruct (pass_jobs input (order_of input) (mk_pass (in_running input) (order_of input) [] [] [] []))
    as (jobs & Hin & Hs & _ & Ha).
  exists jobs. split_and!; [|done|done]. intros j Hj. rewrite <- (order_of_perm input). auto.
Qed.

Lemma open_window_app r1 r2 now :
  open_window (r1 ++ r2) now = None ↔ open_window r1 now = None ∧ open_window r2 now = None.
Proof.
  induction r1 as [|r r1 IH]; cbn [open_window app]; [naive_solver|].
  destruct (window_of now r); [naive_solver|done].
Qed.

Lemma open_window_elem r running now :
  r ∈ running → open_window running now = None → window_of now r = None.
Proof.
  intros (l1 & l2 & ->)%list_elem_of_split [_ H]%open_window_app. cbn in H.
  by destruct (window_of now r).
Qed.

Lemma reduce_min_spec (l : list f64) m :
  Forall (λ x, not_nan x) l → reduce f_min l = Some m → m ∈ l ∧ ∀ x, x ∈ l → f_le m x = true.
Proof.
  destruct l as [|a l]; [done|]. cbn [reduce]. intros [Ha Hl]%Forall_cons [= <-].
  revert a Ha. induction Hl as [|b l Hb Hl IH]; intros a Ha; cbn [foldl].
  { split; [by left|]. intros x ->%list_elem_of_singleton. by apply f_le_refl. }
  assert (Hm : f_min a b = a ∨ f_min a b = b).
  { unfold f_min. repeat case_match; auto. }
  assert (Hn : not_nan (f_min a b)) by (by destruct Hm as [->| ->]).
  destruct (IH (f_min a b) Hn) as [H1 H2]. split.
  - destruct Hm as [E|E]; rewrite E in H1 |- *; set_solver.
  - intros x Hx. assert (Hle : f_le (foldl f_min (f_min a b) l) (f_min a b) = true)
      by (apply H2; by left).
    apply elem_of_cons in Hx as [->|[->|Hx]%elem_of_cons].
    + eapply f_le_trans; [exact Hle|]. by apply f_min_le_l.
    + eapply f_le_trans; [exact Hle|]. by apply f_min_le_r.
    + apply H2. by right.
Qed.

(** A paused pass starts and fails nothing. *)
Lemma pass_paused input l ps :
  in_paused input ≠ None → ps_start ps = [] ∧ ps_fail ps = [] →
  ps_start (foldl (decide_step input) ps l) = [] ∧ ps_fail (foldl (decide_step input) ps l) = [].
Proof.
  intros Hp. revert ps. induction l as [|j l IH]; intros ps Hps; [done|]. cbn [foldl]. apply IH.
  pose proof (decide_step_cases input ps j) as Hstep. cbn zeta in Hstep.
  unfold blocker in Hstep. destruct (in_paused input) as [reason|]; [|done].
  destruct Hstep as (-> & _ & [(note & _ & _ & ?)|[_ ->]]); done.
Qed.

(** ** Properties *)

(** An admission pass disposes of every waiting job exactly once: it starts
    it, holds it or fails it; while admission is paused it starts and fails none;
    and the next wakeup, when there is one, is later than now and not after any
    instant at which a rule may change its mind. *)
Theorem decide_partitions input :
  let d := decide_admission input in
  (start_id <$> d_start d) ++ (held_id <$> d_held d) ++ (fail_id <$> d_fail d)
    ≡ₚ wj_id <$> in_waiting input ∧
  (in_paused input ≠ None → d_start d = [] ∧ d_fail d = []) ∧
  (∀ t, d_next_wakeup_s d = Some t → f_lt (in_now_s input) t = true ∧
     ∀ x, x ∈ wakeups input (view input).1 (pass_of input) → is_finite x = true →
       f_lt (in_now_s input) x = true → f_le t x = true).
Proof.
  cbn zeta. split_and!.
  - etransitivity; [apply pass_ids|]. cbn. by rewrite (order_of_perm input).
  - intros Hp. cbn [decide_admission d_start d_fail]. by apply pass_paused.
  - intros t Ht. apply reduce_min_spec in Ht as [Hin Hmin].
    + apply list_elem_of_filter in Hin as [[_ ?]%andb_prop _]. split; [done|].
      intros x Hx Hf Hlt. apply Hmin, list_elem_of_filter. by rewrite Hf, Hlt.
    + apply Forall_forall. intros x [[Hf _]%andb_prop _]%list_elem_of_filter.
      by apply is_finite_not_nan.
Qed.

(** C40: every job a pass starts is admissible beside what already runs and what
    the pass started before it: admission is not paused, a heavy job finds no
    manual window and a heavy or exclusive one no quiet window open, neither
    memory nor pressure holds it, its cores fit in the core budget unless it is a
    tiny job that is not exclusive, and its weight fits in the capacity where one is
    set; an exclusive job whose drain is over needs neither. Where what
    runs uses nothing, any job fits in either. *)
Theorem starts_admitted input :
  ∃ jobs, (∀ j, j ∈ jobs → j ∈ in_waiting input) ∧
    d_start (decide_admission input) = start_of input <$> jobs ∧
    ∀ i job, jobs !! i = Some job →
      admitted input job (in_running input ++ (started_job input <$> take i jobs)).
Proof. apply decide_jobs. Qed.

(** There is one quiet window at a time: while the window of a running job is
    open a pass starts no heavy and no exclusive job, and after it has started an
    exclusive job it starts no other, and no heavy one. *)
Theorem one_quiet_window input :
  f_lt (in_now_s input) (in_now_s input + quiet_max (in_settings input))%f64 = true →
  ∃ jobs, d_start (decide_admission input) = start_of input <$> jobs ∧
    (∀ r until i job, r ∈ in_running input → rj_quiet_until_s r = Some until →
       f_lt (in_now_s input) until = true → jobs !! i = Some job →
       is_heavy_job input job = false ∧ is_exclusive input job = false) ∧
    (∀ i j first job, jobs !! i = Some first → jobs !! j = Some job → i < j →
       is_exclusive input first = true →
       is_heavy_job input job = false ∧ is_exclusive input job = false).
Proof.
  intros Hmax. destruct (decide_jobs input) as (jobs & _ & Hs & Ha).
  assert (Hquiet : ∀ i job r until, jobs !! i = Some job →
    r ∈ in_running input ++ (started_job input <$> take i jobs) →
    rj_quiet_until_s r = Some until → f_lt (in_now_s input) until = true →
    is_heavy_job input job = false ∧ is_exclusive input job = false).
  { intros i job r until Hi Hr Hu Hlt.
    assert (Hno : ¬ (is_heavy_job input job = true ∨ is_exclusive input job = true)).
    { intros Hq. pose proof (ad_window _ _ _ (Ha i job Hi) Hq) as Hw.
      apply (open_window_elem r) in Hw; [|done]. unfold window_of in Hw. rewrite Hu in Hw.
      cbn in Hw. by rewrite Hlt in Hw. }
    split; apply not_true_is_false; tauto. }
  exists jobs. split_and!; [done| |].
  - intros r until i job Hr Hu Hlt Hi. eapply Hquiet; [done| |done|done]. set_solver.
  - intros i j first job Hi Hj Hij He.
    eapply (Hquiet j job (started_job input first)); [done| | |exact Hmax].
    + apply elem_of_app. right. apply list_elem_of_fmap_2. apply elem_of_take. eauto.
    + cbn. unfold quiet_until, is_exclusive in *. by rewrite He.
Qed.

(** ** Examples *)

(** An idle machine of eight cores; two exclusive jobs and a light one wait. *)
Definition sample_input : AdmitInput :=
  mk_input (f_of_Z 1000) default_settings (mk_machine (f_of_Z 8) None None None) []
    [mk_waiting_job "big1" "other" 1 (f_of_Z 100) (f_of_Z 8) None None None None None;
     mk_waiting_job "big2" "other" 2 (f_of_Z 200) (f_of_Z 8) None None None None None;
     mk_waiting_job "light" "other" 3 (f_of_Z 300) (f_lit 1 2) None None None None None]
    [] None [].

Lemma one_quiet_window_witness :
  start_id <$> d_start (decide_admission sample_input) = ["big1"; "light"] ∧
  held_id <$> d_held (decide_admission sample_input) = ["big2"] ∧
  ∃ jobs, d_start (decide_admission sample_input) = start_of sample_input <$> jobs.
Proof.
  split; [by vm_compute|]. split; [by vm_compute|].
  destruct (one_quiet_window sample_input) as (jobs & Hs & _); [by vm_compute|]. by exists jobs.
Defined.
