(* ===== verification/Bytes.v ===== *)
(** * Byte vectors

    A Rust [Vec<u8>], [&[u8]] or [[u8; N]] is a [string] here, as the text of
    the other files is: a sequence of eight-bit characters.  This file holds
    the slices, the fixed-width integer encodings and the hex codec of
    [src/crates/agora-store/src/identity.rs] that the wire, crypto and store
    files share. *)

From S2P Require Import Prelude Strs.

(** ** Slices *)

(** [&b[..n]] and [&b[n..]] where [n] may pass the end. *)
Fixpoint str_take (n : nat) (b : string) : string :=
  match n, b with
  | S k, String c b' => String c (str_take k b')
  | _, _ => ""
  end.

Fixpoint str_drop (n : nat) (b : string) : string :=
  match n, b with
  | S k, String _ b' => str_drop k b'
  | _, _ => b
  end.

(** ** Integers as bytes *)

(** The low [k] bytes of [z], least significant first ([to_le_bytes]). *)
Fixpoint le_bytes (k : nat) (z : Z) : string :=
  match k with
  | O => ""
  | S j => String (byte_of (z mod 256)) (le_bytes j (z / 256))
  end.

(** The low [k] bytes of [z], most significant first ([to_be_bytes]). *)
Fixpoint be_bytes (k : nat) (z : Z) : string :=
  match k with
  | O => ""
  | S j => String (byte_of ((z / 256 ^ Z.of_nat j) mod 256)) (be_bytes j z)
  end.

(** [from_be_bytes]. *)
Fixpoint be_val (acc : Z) (b : string) : Z :=
  match b with
  | "" => acc
  | String c b' => be_val (acc * 256 + byte_val c) b'
  end.

(** ** Hex *)

Definition hex_of (b : byte) : string := hex_pad 2 (byte_val b).

Fixpoint hex (b : string) : string :=
  match b with
  | "" => ""
  | String c b' => hex_of c +:+ hex b'
  end.

Definition is_lower_hex (c : byte) : bool := is_ascii_digit c || in_range 97 102 c.

(** One digit of [u8::from_str_radix(_, 16)] on the checked alphabet. *)
Definition hex_val (c : byte) : Z :=
  if is_ascii_digit c then byte_val c - 48 else byte_val c - 87.

Fixpoint unhex_pairs (s : string) : string :=
  match s with
  | String a (String b s') => String (byte_of (hex_val a * 16 + hex_val b)) (unhex_pairs s')
  | _ => ""
  end.

Definition unhex32 (s : string) : option string :=
  if negb (Nat.eqb (String.length s) 64) || negb (str_all is_lower_hex s) then None
  else Some (unhex_pairs s).

(** ** Slice lemmas *)

Lemma str_take_drop n b : str_take n b +:+ str_drop n b = b.
Proof.
  revert b. induction n as [|n IH]; intros [|c b]; try done.
  cbn [str_take str_drop]. by rewrite str_app_cons, IH.
Qed.

Lemma length_str_take n b : String.length (str_take n b) = min n (String.length b).
Proof. revert b. induction n as [|n IH]; intros [|c b]; cbn; [done..|]. by rewrite IH. Qed.

Lemma length_str_drop n b : String.length (str_drop n b) = String.length b - n.
Proof. revert b. induction n as [|n IH]; intros [|c b]; cbn; [done..|]. by rewrite IH. Qed.

Lemma str_take_app a b : str_take (String.length a) (a +:+ b) = a.
Proof. induction a as [|c a IH]; [by destruct b|]. rewrite str_app_cons. cbn. by rewrite IH. Qed.

Lemma str_drop_app a b : str_drop (String.length a) (a +:+ b) = b.
Proof. induction a as [|c a IH]; [done|]. rewrite str_app_cons. cbn. by rewrite IH. Qed.

Lemma str_take_app_eq n a b : String.length a = n → str_take n (a +:+ b) = a.
Proof. intros <-. apply str_take_app. Qed.

Lemma str_drop_app_eq n a b : String.length a = n → str_drop n (a +:+ b) = b.
Proof. intros <-. apply str_drop_app. Qed.

Lemma str_take_app_le n a b :
  n ≤ String.length a → str_take n (a +:+ b) = str_take n a.
Proof.
  revert a. induction n as [|n IH]; intros [|c a]; cbn [String.length]; intros H; try lia.
  - by destruct b.
  - done.
  - rewrite str_app_cons. cbn [str_take]. by rewrite IH by lia.
Qed.

Lemma str_take_app_ge n a b :
  String.length a ≤ n → str_take n (a +:+ b) = a +:+ str_take (n - String.length a) b.
Proof.
  revert n. induction a as [|c a IH]; intros n L; cbn [String.length].
  { by rewrite !str_app_nil_l, Nat.sub_0_r. }
  destruct n as [|n]; cbn [String.length] in L; [lia|].
  rewrite !str_app_cons. cbn [Nat.sub str_take]. by rewrite IH by lia.
Qed.

Lemma str_drop_app_le n a b :
  n ≤ String.length a → str_drop n (a +:+ b) = str_drop n a +:+ b.
Proof.
  revert a. induction n as [|n IH]; intros [|c a]; cbn [String.length]; intros H; try done; try lia.
  rewrite str_app_cons. cbn [str_drop]. apply IH. lia.
Qed.

Lemma str_take_all n b : String.length b ≤ n → str_take n b = b.
Proof.
  revert b. induction n as [|n IH]; intros [|c b]; cbn; intros; [done|lia|done|].
  by rewrite IH by lia.
Qed.

(** Appending is injective once one side's length is known. *)
Lemma str_app_inj_r a b c : a +:+ b = a +:+ c → b = c.
Proof. intros H. by apply (str_app_inj a a b c) in H as [_ H]. Qed.

Lemma str_cons_inj_r c s t : String c s = String c t → s = t.
Proof. by intros [= ->]. Qed.

(** One field at a time, without looking into it. *)
Lemma field_inj (x y : string) l k : x :: l = y :: k → x = y ∧ l = k.
Proof. by intros [= -> ->]. Qed.

Lemma length_zero_str s : String.length s = 0 → s = "".
Proof. by destruct s. Qed.

Lemma str_len_nat s : str_len s = Z.of_nat (String.length s).
Proof. induction s as [|c s IH]; cbn [str_len String.length]; lia. Qed.

(** ** Codec lemmas *)

Lemma le_bytes_length k z : String.length (le_bytes k z) = k.
Proof. revert z. induction k as [|k IH]; intros z; cbn; [done|]. by rewrite IH. Qed.

Lemma be_bytes_length k z : String.length (be_bytes k z) = k.
Proof. induction k as [|k IH]; cbn; [done|]. by rewrite IH. Qed.

Lemma le_bytes_inj_mod k z w :
  le_bytes k z = le_bytes k w → (z mod 256 ^ Z.of_nat k = w mod 256 ^ Z.of_nat k)%Z.
Proof.
  revert z w. induction k as [|k IH]; intros z w; cbn [le_bytes]; intros H.
  { by rewrite !Z.mod_1_r. }
  injection H as H1 H2. apply IH in H2. apply (f_equal byte_val) in H1.
  rewrite !byte_val_of in H1 by (apply Z.mod_pos_bound; lia).
  rewrite Nat2Z.inj_succ, Z.pow_succ_r, !Z.rem_mul_r by lia. by rewrite H1, H2.
Qed.

Lemma le_bytes_inj k z w :
  (0 ≤ z < 256 ^ Z.of_nat k)%Z → (0 ≤ w < 256 ^ Z.of_nat k)%Z →
  le_bytes k z = le_bytes k w → z = w.
Proof. intros Hz Hw H%le_bytes_inj_mod. by rewrite !Z.mod_small in H. Qed.

(** Signed [i64] values are told apart too: [to_le_bytes] is two's complement. *)
Lemma le_bytes_inj_i64 z w :
  (i64_min ≤ z ≤ i64_max)%Z → (i64_min ≤ w ≤ i64_max)%Z →
  le_bytes 8 z = le_bytes 8 w → z = w.
Proof.
  unfold i64_min, i64_max. intros Hz Hw H%le_bytes_inj_mod.
  change (256 ^ Z.of_nat 8)%Z with 18446744073709551616%Z in H.
  pose proof (Z_div_mod_eq_full z 18446744073709551616).
  pose proof (Z_div_mod_eq_full w 18446744073709551616).
  pose proof (Z.mod_pos_bound w 18446744073709551616). lia.
Qed.

Lemma be_val_bytes k z acc :
  be_val acc (be_bytes k z) = (acc * 256 ^ Z.of_nat k + z mod 256 ^ Z.of_nat k)%Z.
Proof.
  revert acc. induction k as [|k IH]; intros acc; cbn [be_bytes be_val].
  { rewrite Z.mod_1_r. cbn. lia. }
  rewrite IH, byte_val_of by (apply Z.mod_pos_bound; lia).
  rewrite Nat2Z.inj_succ, Z.pow_succ_r, (Z.mul_comm 256 (256 ^ Z.of_nat k)) by lia.
  rewrite Z.rem_mul_r by lia. lia.
Qed.

Lemma be_val_range b acc :
  (0 ≤ acc)%Z →
  (acc * 256 ^ Z.of_nat (String.length b) ≤ be_val acc b
   < (acc + 1) * 256 ^ Z.of_nat (String.length b))%Z.
Proof.
  revert acc. induction b as [|c b IH]; intros acc Ha; cbn [be_val String.length].
  { change (256 ^ Z.of_nat 0)%Z with 1%Z. lia. }
  pose proof (byte_val_range c).
  specialize (IH (acc * 256 + byte_val c)%Z ltac:(lia)).
  rewrite Nat2Z.inj_succ, Z.pow_succ_r by lia. nia.
Qed.

Lemma be_bytes_val_go b acc :
  (0 ≤ acc)%Z → be_bytes (String.length b) (be_val acc b) = b.
Proof.
  revert acc. induction b as [|c b IH]; intros acc Ha; [done|].
  cbn [String.length be_bytes be_val]. pose proof (byte_val_range c).
  rewrite IH by lia. f_equal. rewrite <- (byte_of_val c) at 2. f_equal.
  pose proof (be_val_range b (acc * 256 + byte_val c) ltac:(lia)) as Hr.
  assert (be_val (acc * 256 + byte_val c) b / 256 ^ Z.of_nat (String.length b)
          = acc * 256 + byte_val c)%Z as ->.
  { symmetry. apply (Z.div_unique_pos _ _ _
      (be_val (acc * 256 + byte_val c) b
       - (acc * 256 + byte_val c) * 256 ^ Z.of_nat (String.length b))); lia. }
  rewrite Z.add_comm, Z.mod_add by lia. apply Z.mod_small. lia.
Qed.

(** Re-encoding a big-endian header gives the header back. *)
Lemma be_bytes_val b : be_bytes (String.length b) (be_val 0 b) = b.
Proof. by apply be_bytes_val_go. Qed.

(** ** Hex lemmas *)

Lemma hex_app a b : hex (a +:+ b) = hex a +:+ hex b.
Proof. induction a as [|c a IH]; [done|]. rewrite str_app_cons. cbn [hex]. by rewrite IH, str_app_assoc. Qed.

Lemma hex_length b : String.length (hex b) = 2 * String.length b.
Proof.
  induction b as [|c b IH]; [done|]. cbn [hex]. rewrite length_str_app, IH.
  unfold hex_of. rewrite hex_pad_length. cbn. lia.
Qed.

(** The two digits of a byte, checked on all 256. *)
Lemma hex_of_digits c :
  ∃ a b, hex_of c = String a (String b "") ∧ is_lower_hex a = true ∧ is_lower_hex b = true ∧
         byte_of (hex_val a * 16 + hex_val b) = c.
Proof.
  destruct c as [[] [] [] [] [] [] [] []]; do 2 eexists; (split; [reflexivity|]);
    vm_compute; auto.
Qed.

Lemma unhex_hex_pairs b : unhex_pairs (hex b) = b ∧ str_all is_lower_hex (hex b) = true.
Proof.
  induction b as [|c b [IH1 IH2]]; [done|]. cbn [hex].
  destruct (hex_of_digits c) as (x & y & -> & Hx & Hy & E).
  rewrite !str_app_cons, str_app_nil_l. cbn [unhex_pairs str_all].
  by rewrite E, IH1, Hx, Hy, IH2.
Qed.

Lemma unhex32_hex b : String.length b = 32 → unhex32 (hex b) = Some b.
Proof.
  intros H. unfold unhex32. rewrite hex_length, H. destruct (unhex_hex_pairs b) as [-> ->]. done.
Qed.

Lemma hex_inj a b : hex a = hex b → a = b.
Proof.
  intros H. rewrite <- (proj1 (unhex_hex_pairs a)), <- (proj1 (unhex_hex_pairs b)). by rewrite H.
Qed.

(** A pair of accepted digits decodes and prints back to itself. *)
Lemma hex_of_pair a b :
  is_lower_hex a = true → is_lower_hex b = true →
  hex_of (byte_of (hex_val a * 16 + hex_val b)) = String a (String b "").
Proof.
  destruct a as [[] [] [] [] [] [] [] []]; try discriminate; intros _;
    destruct b as [[] [] [] [] [] [] [] []]; try discriminate; intros _; reflexivity.
Qed.

Lemma hex_unhex_pairs n s :
  String.length s = 2 * n → str_all is_lower_hex s = true →
  hex (unhex_pairs s) = s ∧ String.length (unhex_pairs s) = n.
Proof.
  revert s. induction n as [|n IH]; intros s Hl Ha.
  { destruct s; [done|cbn in Hl; lia]. }
  destruct s as [|a [|b s]]; cbn [String.length] in Hl; [lia|lia|].
  cbn [str_all] in Ha. apply andb_prop in Ha as [A Ha]. apply andb_prop in Ha as [B Ha].
  destruct (IH s ltac:(lia) Ha) as [E1 E2]. cbn [unhex_pairs hex String.length].
  rewrite hex_of_pair, E1, E2 by done. by rewrite !str_app_cons, str_app_nil_l.
Qed.

(** What [unhex32] accepts is exactly the printing of 32 bytes. *)
Lemma unhex32_Some s b : unhex32 s = Some b ↔ String.length b = 32 ∧ s = hex b.
Proof.
  split; [|intros [? ->]; by apply unhex32_hex].
  unfold unhex32. destruct (Nat.eqb_spec (String.length s) 64) as [E|]; [|done].
  destruct (str_all is_lower_hex s) eqn:A; cbn; [|done]. intros [= <-].
  by destruct (hex_unhex_pairs 32 s E A) as [-> ->].
Qed.

#[global] Arguments str_take : simpl never.
#[global] Arguments str_drop : simpl never.
#[global] Arguments le_bytes : simpl never.
#[global] Arguments be_bytes : simpl never.
#[global] Arguments hex : simpl never.
#[global] Arguments unhex32 : simpl never.
