(* ===== verification/Lex.v ===== *)
(** * The shell lexer of command signatures

    [src/crates/agora-sched/src/signature/lex.rs]: the words of a [sh -c] script,
    as Python's [shlex] reads them.  A script is its code points.  The character
    that the lexer returns to the stream is put back at the head of it: the
    source takes a returned character before the next one, and holds at most
    one. *)

From Stdlib Require Import Ascii.
From S2P Require Import Prelude Strs PyFmt Claims TextFmt.

Inductive Back : Type := BackWord | BackQuote (q : Z).

Inductive Mode : Type := Space | Word | Punct | Quote (q : Z) | Escape (back : Back).

(** [;&|()<>] *)
Definition is_punct (c : Z) : bool := existsb (Z.eqb c) [59; 38; 124; 40; 41; 60; 62]%Z.

(** Space, tab, carriage return and line feed. *)
Definition is_space (c : Z) : bool := existsb (Z.eqb c) [32; 9; 13; 10]%Z.

Definition is_quote (c : Z) : bool := (c =? 39)%Z || (c =? 34)%Z.

Definition ends_token (token : list Z) (quoted : bool) : bool :=
  negb (bool_decide (token = [])) || quoted.

Definition finish (token : list Z) (quoted : bool) : option (list Z) :=
  if ends_token token quoted then Some token else None.

Fixpoint skip_line (cs : list Z) : list Z :=
  match cs with [] => [] | c :: cs' => if (c =? 10)%Z then cs' else skip_line cs' end.

(** What one turn of the loop does: it goes on, returns a token (or the end of
    the input) with the stream that is left, or fails. *)
Inductive turn : Type :=
| More (mode : Mode) (token : list Z) (quoted : bool) (cs : list Z)
| Return (token : option (list Z)) (cs : list Z)
| Fault.

(** A word or an operator run that a blank or a comment ends. *)
Definition blank (c : Z) (token : list Z) (quoted : bool) (cs : list Z) : turn :=
  let cs' := if (c =? 35)%Z then skip_line cs else cs in
  if ends_token token quoted then Return (Some token) cs' else More Space token quoted cs'.

Definition step_space (c : Z) (token : list Z) (quoted : bool) (cs : list Z) : turn :=
  if is_space c then
    if ends_token token quoted then Return (Some token) cs else More Space token quoted cs
  else if (c =? 35)%Z then More Space token quoted (skip_line cs)
  else if (c =? 92)%Z then More (Escape BackWord) token quoted cs
  else if is_punct c then More Punct (token ++ [c]) quoted cs
  else if is_quote c then More (Quote c) token true cs
  else More Word (token ++ [c]) quoted cs.

Definition step_word (c : Z) (token : list Z) (quoted : bool) (cs : list Z) : turn :=
  if is_space c || (c =? 35)%Z then blank c token quoted cs
  else if is_quote c then More (Quote c) token true cs
  else if (c =? 92)%Z then More (Escape BackWord) token quoted cs
  else if is_punct c then
    if ends_token token quoted then Return (Some token) (c :: cs)
    else More Space token quoted (c :: cs)
  else More Word (token ++ [c]) quoted cs.

Definition step_punct (c : Z) (token : list Z) (quoted : bool) (cs : list Z) : turn :=
  if is_space c || (c =? 35)%Z then blank c token quoted cs
  else if is_punct c then More Punct (token ++ [c]) quoted cs
  else Return (finish token quoted) (c :: cs).

Definition step_quote (q c : Z) (token : list Z) (quoted : bool) (cs : list Z) : turn :=
  if (c =? q)%Z then More Word token quoted cs
  else if (c =? 92)%Z && (q =? 34)%Z then More (Escape (BackQuote q)) token quoted cs
  else More (Quote q) (token ++ [c]) quoted cs.

Definition step_escape (back : Back) (c : Z) (token : list Z) (quoted : bool) (cs : list Z) : turn :=
  match back with
  | BackWord => More Word (token ++ [c]) quoted cs
  | BackQuote q =>
      let kept := if negb (c =? 92)%Z && negb (c =? q)%Z then [92%Z] else [] in
      More (Quote q) (token ++ kept ++ [c]) quoted cs
  end.

Definition lex_turn (mode : Mode) (token : list Z) (quoted : bool) (cs : list Z) : turn :=
  match cs with
  | [] =>
      match mode with
      | Quote _ | Escape _ => Fault
      | _ => Return (finish token quoted) []
      end
  | c :: cs' =>
      match mode with
      | Space => step_space c token quoted cs'
      | Word => step_word c token quoted cs'
      | Punct => step_punct c token quoted cs'
      | Quote q => step_quote q c token quoted cs'
      | Escape back => step_escape back c token quoted cs'
      end
  end.

(** The loop, with fuel; [None] is fuel that ran out. *)
Fixpoint lex_loop (fuel : nat) (mode : Mode) (token : list Z) (quoted : bool) (cs : list Z) :
    option (result unit (option (list Z) * list Z)) :=
  match fuel with
  | O => None
  | S n =>
      match lex_turn mode token quoted cs with
      | More mode' token' quoted' cs' => lex_loop n mode' token' quoted' cs'
      | Return t cs' => Some (Ok (t, cs'))
      | Fault => Some (Err tt)
      end
  end.

(** A turn reads a character, except that a word gives the operator after it
    back once. *)
Definition lex_fuel (cs : list Z) : nat := S (S (2 * length cs)).

Definition read_token (cs : list Z) : option (result unit (option (list Z) * list Z)) :=
  lex_loop (lex_fuel cs) Space [] false cs.

Fixpoint split_loop (fuel : nat) (cs : list Z) (tokens : list string) :
    option (result unit (list string)) :=
  match fuel with
  | O => None
  | S n =>
      match read_token cs with
      | None => None
      | Some (Err e) => Some (Err e)
      | Some (Ok (None, _)) => Some (Ok tokens)
      | Some (Ok (Some t, cs')) => split_loop n cs' (tokens ++ [encode t])
      end
  end.

(** Every token takes a character. *)
Definition split (script : string) : option (result unit (list string)) :=
  split_loop (S (length (chars script))) (chars script) [].

(** ** The loops end *)

(** Turns left: twice the characters, and one more for a word that may give one
    back. *)
Definition turns (mode : Mode) (cs : list Z) : nat :=
  2 * length cs + match mode with Word => 1 | _ => 0 end.

Lemma skip_line_length cs : length (skip_line cs) ≤ length cs.
Proof. induction cs as [|c cs IH]; cbn; [lia|]. case_match; lia. Qed.

Lemma lex_turn_turns mode token quoted cs mode' token' quoted' cs' :
  lex_turn mode token quoted cs = More mode' token' quoted' cs' →
  turns mode' cs' < turns mode cs.
Proof.
  unfold turns. destruct cs as [|c cs]; [by destruct mode|].
  pose proof (skip_line_length cs).
  destruct mode as [| | |q|[|q]]; cbn [lex_turn];
    unfold step_space, step_word, step_punct, step_quote, step_escape, blank;
    repeat case_match; intros Et; simplify_eq; cbn; lia.
Qed.

Lemma lex_loop_total fuel mode token quoted cs :
  turns mode cs < fuel → is_Some (lex_loop fuel mode token quoted cs).
Proof.
  revert mode token quoted cs. induction fuel as [|n IH]; intros mode token quoted cs Hf; [lia|].
  cbn. destruct (lex_turn mode token quoted cs) eqn:E; [|by eauto..].
  apply IH. apply lex_turn_turns in E. lia.
Qed.

(** A returned token leaves a shorter stream: it starts with what it holds. *)
Definition begun (mode : Mode) (token : list Z) (quoted : bool) : Prop :=
  match mode with
  | Space => token = [] ∧ quoted = false
  | Word | Punct => ends_token token quoted = true
  | Quote _ | Escape (BackQuote _) => quoted = true
  | Escape BackWord => True
  end.

Lemma ends_snoc token c quoted : ends_token (token ++ [c]) quoted = true.
Proof. unfold ends_token. by destruct token. Qed.

Lemma ends_quoted token : ends_token token true = true.
Proof. unfold ends_token. by rewrite orb_true_r. Qed.

#[local] Hint Resolve ends_snoc ends_quoted : core.

Lemma lex_turn_begun mode token quoted cs mode' token' quoted' cs' :
  begun mode token quoted → lex_turn mode token quoted cs = More mode' token' quoted' cs' →
  begun mode' token' quoted' ∧ length cs' < length cs.
Proof.
  destruct cs as [|c cs]; [by destruct mode|]. pose proof (skip_line_length cs).
  destruct mode as [| | |q|[|q]]; cbn [lex_turn begun]; intros Hb;
    unfold step_space, step_word, step_punct, step_quote, step_escape, blank;
    repeat case_match; intros Et; simplify_eq; cbn in *; split; try lia; naive_solver.
Qed.

Lemma lex_turn_return mode token quoted cs t cs' :
  begun mode token quoted → lex_turn mode token quoted cs = Return (Some t) cs' →
  mode ≠ Space ∧ length cs' ≤ length cs.
Proof.
  destruct cs as [|c cs]; intros Hb.
  - destruct mode; cbn in *; unfold finish; try done; intros Et; simplify_eq; naive_solver.
  - pose proof (skip_line_length cs).
    destruct mode as [| | |q|[|q]]; cbn in *;
      unfold step_space, step_word, step_punct, step_quote, step_escape, blank;
      repeat case_match; intros Et; simplify_eq; cbn in *; split; try lia; naive_solver.
Qed.

Lemma lex_loop_shorter fuel mode token quoted cs t cs' :
  begun mode token quoted → lex_loop fuel mode token quoted cs = Some (Ok (Some t, cs')) →
  length cs' ≤ length cs ∧ (mode = Space → length cs' < length cs).
Proof.
  revert mode token quoted cs. induction fuel as [|n IH]; intros mode token quoted cs Hb; [done|].
  cbn. destruct (lex_turn mode token quoted cs) as [m tk qt cs1|t1 cs1|] eqn:E; [| |done].
  - apply lex_turn_begun in E as [Hb1 Hl]; [|done]. intros [H1 H2]%IH; [|done]. lia.
  - intros Et. simplify_eq. apply lex_turn_return in E as [Hm Hl]; [|done]. done.
Qed.

Lemma read_token_total cs : is_Some (read_token cs).
Proof. apply lex_loop_total. unfold turns, lex_fuel. lia. Qed.

Lemma split_loop_total fuel cs tokens : length cs < fuel → is_Some (split_loop fuel cs tokens).
Proof.
  revert cs tokens. induction fuel as [|n IH]; intros cs tokens Hf; [lia|]. cbn [split_loop].
  destruct (read_token_total cs) as [r Hr]. rewrite Hr. destruct r as [[[t|] cs']|e]; [|by eauto..].
  apply IH. apply lex_loop_shorter in Hr as [_ Hl]; [|done]. specialize (Hl eq_refl). lia.
Qed.

Lemma split_total script : is_Some (split script).
Proof. apply split_loop_total. lia. Qed.

(** ** Quoted words are read back *)

(** Enough fuel is as good as more. *)
Lemma lex_loop_mono n m mode token quoted cs r :
  lex_loop n mode token quoted cs = Some r → n ≤ m → lex_loop m mode token quoted cs = Some r.
Proof.
  revert m mode token quoted cs. induction n as [|n IH]; intros m mode token quoted cs; [done|].
  destruct m as [|m]; [lia|]. cbn. case_match; [|done..]. intros H' Hm. apply IH; [done|lia].
Qed.

Definition lexes (mode : Mode) (token : list Z) (quoted : bool) (cs : list Z)
    (t : list Z) (cs' : list Z) : Prop :=
  ∃ n, lex_loop n mode token quoted cs = Some (Ok (Some t, cs')).

Lemma lexes_more mode token quoted cs mode' token' quoted' cs1 t cs' :
  lex_turn mode token quoted cs = More mode' token' quoted' cs1 →
  lexes mode' token' quoted' cs1 t cs' → lexes mode token quoted cs t cs'.
Proof. intros E [n Hn]. exists (S n). cbn. by rewrite E. Qed.

Lemma lexes_return mode token quoted cs t cs' :
  lex_turn mode token quoted cs = Return (Some t) cs' → lexes mode token quoted cs t cs'.
Proof. intros E. exists 1. cbn. by rewrite E. Qed.

Lemma lexes_read cs t cs' : lexes Space [] false cs t cs' → read_token cs = Some (Ok (Some t, cs')).
Proof.
  intros [n Hn]. destruct (read_token_total cs) as [r Hr]. rewrite Hr. f_equal.
  apply (lex_loop_mono _ (n + lex_fuel cs)) in Hn; [|lia].
  apply (lex_loop_mono _ (n + lex_fuel cs)) in Hr; [|lia]. congruence.
Qed.

(** What ends a word: the end of the input, or a space. *)
Definition word_end (cs rest : list Z) : Prop := cs = [] ∧ rest = [] ∨ cs = 32%Z :: rest.

Lemma lexes_end token quoted cs rest :
  ends_token token quoted = true → word_end cs rest → lexes Word token quoted cs token rest.
Proof.
  intros He Hw. destruct Hw as [[-> ->] | ->]; apply lexes_return; cbn.
  - unfold finish. by rewrite He.
  - unfold step_word, blank. cbn. by rewrite He.
Qed.

Lemma safe_plain c :
  shlex_safe c = true →
  is_space c = false ∧ (c =? 35)%Z = false ∧ is_quote c = false ∧ (c =? 92)%Z = false ∧
  is_punct c = false.
Proof.
  intros Hs.
  assert (Forall (λ x, c ≠ x) [32; 9; 13; 10; 35; 39; 34; 92; 59; 38; 124; 40; 41; 60; 62]%Z)
    as Hne.
  { repeat constructor; intros ->; vm_compute in Hs; done. }
  repeat match goal with H : Forall _ (_ :: _) |- _ =>
    apply Forall_cons in H as [?%Z.eqb_neq H] end.
  unfold is_space, is_quote, is_punct. cbn [existsb].
  repeat match goal with H : (c =? _)%Z = false |- _ => rewrite H end. done.
Qed.

Lemma lexes_safe w token quoted cs t rest :
  forallb shlex_safe w = true → lexes Word (token ++ w) quoted cs t rest →
  lexes Word token quoted (w ++ cs) t rest.
Proof.
  revert token. induction w as [|c w IH]; intros token; cbn [forallb app].
  - intros _. by rewrite app_nil_r.
  - intros [Hc Hw]%andb_true_iff H. eapply lexes_more.
    + destruct (safe_plain c Hc) as (E1 & E2 & E3 & E4 & E5). cbn. unfold step_word.
      by rewrite E1, E2, E3, E4, E5.
    + apply IH; [done|]. by rewrite <- app_assoc.
Qed.

(** The code points of [quote_char]. *)
Definition quoted_char (c : Z) : list Z :=
  if (c =? 39)%Z then [39; 34; 39; 34; 39]%Z else [c].

Lemma lexes_quoted w token cs t rest :
  lexes Word (token ++ w) true cs t rest →
  lexes (Quote 39) token true ((w ≫= quoted_char) ++ 39%Z :: cs) t rest.
Proof.
  revert token. induction w as [|c w IH]; intros token H.
  - rewrite app_nil_r in H. cbn. eapply lexes_more; [done|]. done.
  - rewrite bind_cons. unfold quoted_char at 1. destruct (Z.eqb_spec c 39) as [->|Hc]; cbn [app].
    + do 5 (eapply lexes_more; [done|]). apply IH. by rewrite <- app_assoc.
    + apply (lexes_more _ _ _ _ (Quote 39) (token ++ [c]) true ((w ≫= quoted_char) ++ 39%Z :: cs));
      [|apply IH; by rewrite <- app_assoc]. cbn.
      unfold step_quote. destruct (Z.eqb_spec c 39); [done|]. by rewrite andb_false_r.
Qed.

(** The code points of [shlex_quote]. *)
Definition quoted_word (w : list Z) : list Z :=
  if bool_decide (w = []) then [39; 39]%Z
  else if forallb shlex_safe w then w
  else 39%Z :: (w ≫= quoted_char) ++ [39%Z].

Lemma read_quoted w cs rest :
  word_end cs rest → read_token (quoted_word w ++ cs) = Some (Ok (Some w, rest)).
Proof.
  intros He. apply lexes_read. unfold quoted_word. case_bool_decide as Hw; [subst w|].
  - do 2 (eapply lexes_more; [done|]). by apply lexes_end.
  - destruct (forallb shlex_safe w) eqn:Hs.
    + destruct w as [|c w]; [done|]. cbn in Hs. apply andb_true_iff in Hs as [Hc Hs].
      eapply lexes_more.
      * destruct (safe_plain c Hc) as (E1 & E2 & E3 & E4 & E5). cbn. unfold step_space.
        by rewrite E1, E2, E4, E5, E3.
      * cbn. apply lexes_safe; [done|]. by apply lexes_end.
    + rewrite <- app_comm_cons, <- app_assoc. eapply lexes_more; [done|].
      apply lexes_quoted. cbn. apply lexes_end; [done|]. done.
Qed.

Fixpoint spaced (ws : list (list Z)) : list Z :=
  match ws with
  | [] => []
  | [w] => w
  | w :: ws' => w ++ 32%Z :: spaced ws'
  end.

Lemma split_loop_spaced ws fuel tokens :
  length ws < fuel →
  split_loop fuel (spaced (quoted_word <$> ws)) tokens = Some (Ok (tokens ++ (encode <$> ws))).
Proof.
  revert fuel tokens. induction ws as [|w ws IH]; intros fuel tokens Hf;
    (destruct fuel as [|n]; [cbn in Hf; lia|]).
  - cbn. by rewrite app_nil_r.
  - destruct ws as [|w' ws].
    + cbn [split_loop spaced fmap list_fmap]. rewrite <- (app_nil_r (quoted_word w)). rewrite (read_quoted w [] []) by (by left).
      by rewrite (IH n) by (cbn in Hf |- *; lia); cbn; rewrite app_nil_r.
    + cbn [split_loop spaced fmap list_fmap]. rewrite (read_quoted w _ _ (or_intror eq_refl)).
      rewrite (IH n) by (cbn in Hf |- *; lia). cbn. by rewrite <- app_assoc.
Qed.

Lemma concat_quoted w : concat_map quote_char w = encode (w ≫= quoted_char).
Proof.
  induction w as [|c w IH]; [done|]. rewrite bind_cons, encode_app, <- IH.
  unfold concat_map. cbn. f_equal. unfold quote_char, quoted_char. case_match; [done|].
  cbn. by rewrite str_app_nil_r.
Qed.

Lemma shlex_quote_encode w : Forall is_scalar w → shlex_quote (encode w) = encode (quoted_word w).
Proof.
  intros Hw. unfold shlex_quote, quoted_word. rewrite chars_encode by done.
  case_bool_decide as He; [by subst w|].
  assert (is_empty_str (encode w) = false) as ->.
  { destruct w as [|c w]; [done|]. cbn. unfold encode_char. by repeat case_match. }
  case_match; [done|]. cbn [encode]. rewrite encode_app, concat_quoted. done.
Qed.

Lemma quoted_word_scalar w : Forall is_scalar w → Forall is_scalar (quoted_word w).
Proof.
  intros Hw. unfold quoted_word. case_bool_decide; [|case_match; [done|]].
  - repeat constructor; unfold is_scalar; lia.
  - constructor; [unfold is_scalar; lia|]. apply Forall_app. split.
    + apply Forall_bind. eapply Forall_impl; [done|]. intros c Hc. cbn. unfold quoted_char.
      destruct (c =? 39)%Z; repeat (constructor; [first [exact Hc|unfold is_scalar; lia]|]);
      constructor.
    + repeat constructor; unfold is_scalar; lia.
Qed.

Lemma spaced_scalar ws : Forall (Forall is_scalar) ws → Forall is_scalar (spaced ws).
Proof.
  induction 1 as [|w ws Hw Hws IH]; [done|]. cbn. destruct ws; [done|].
  apply Forall_app. split; [done|]. constructor; [unfold is_scalar; lia|done].
Qed.

Lemma join_spaced ws : join " " (encode <$> ws) = encode (spaced ws).
Proof.
  induction ws as [|w ws IH]; [done|]. destruct ws as [|w' ws]; [done|].
  cbn [join spaced fmap list_fmap] in *. rewrite IH, encode_app. done.
Qed.

Lemma utf8_words argv : Forall utf8 argv → ∃ ws, Forall (Forall is_scalar) ws ∧ argv = encode <$> ws.
Proof.
  induction 1 as [|a argv (cs & Hcs & ->) _ (ws & Hws & ->)]; [by exists []|].
  exists (cs :: ws). split; [by constructor|done].
Qed.

Lemma spaced_fuel ws : length ws < S (length (spaced (quoted_word <$> ws))).
Proof.
  induction ws as [|w ws IH]; [cbn; lia|].
  assert (0 < length (quoted_word w)).
  { unfold quoted_word. case_bool_decide; [cbn; lia|]. case_match; [by destruct w; cbn; [|lia]|cbn; lia]. }
  cbn [spaced fmap list_fmap]. destruct ws as [|w' ws]; [cbn; lia|].
  cbn [fmap list_fmap] in *. rewrite length_app. cbn [length] in *. lia.
Qed.

Lemma split_quoted argv :
  Forall utf8 argv → split (join " " (shlex_quote <$> argv)) = Some (Ok argv).
Proof.
  intros (ws & Hws & ->)%utf8_words.
  assert (shlex_quote <$> (encode <$> ws) = encode <$> (quoted_word <$> ws)) as ->.
  { induction Hws as [|w ws Hw _ IH]; [done|]. cbn. by rewrite IH, shlex_quote_encode. }
  unfold split. rewrite join_spaced, chars_encode.
  - rewrite split_loop_spaced; [done|apply spaced_fuel].
  - apply spaced_scalar, Forall_fmap. eapply Forall_impl; [done|]. apply quoted_word_scalar.
Qed.

Example split_examples :
  split "cd a && b; c | d" = Some (Ok ["cd"; "a"; "&&"; "b"; ";"; "c"; "|"; "d"]) ∧
  split "x 2>&1 > out.log" = Some (Ok ["x"; "2"; ">&"; "1"; ">"; "out.log"]) ∧
  split "echo '' a#b" = Some (Ok ["echo"; ""; "a"]) ∧ split "echo 'abc" = Some (Err tt) ∧
  split "echo \" = Some (Err tt).
Proof. by vm_compute. Qed.
