(* ===== verification/Signature.v ===== *)
(** * Command signatures

    [src/crates/agora-sched/src/signature.rs] with [signature/text.rs],
    [signature/command.rs] and [signature/location.rs]: the words of a command
    with what varies between runs masked, and the four signatures a run is
    remembered by.  SHA-256 and the file system ([PlaceProbe]) are parameters. *)

From Stdlib Require Import Ascii.
From S2P Require Import Prelude Strs PyFmt Claims TextFmt Bytes Lex.

(** ** Token matchers (signature/text.rs) *)

(** Runs of characters that [in_run] accepts, each replaced by [f]. *)
Fixpoint map_runs (in_run : Z → bool) (f : list Z → list Z) (run cs : list Z) : list Z :=
  let flush := if bool_decide (run = []) then [] else f run in
  match cs with
  | [] => flush
  | c :: cs' =>
      if in_run c then map_runs in_run f (run ++ [c]) cs'
      else flush ++ c :: map_runs in_run f [] cs'
  end.

Definition is_digit (c : Z) : bool := (48 <=? c)%Z && (c <=? 57)%Z.
Definition is_lower (c : Z) : bool := (97 <=? c)%Z && (c <=? 122)%Z.
Definition is_alpha (c : Z) : bool := is_lower c || (65 <=? c)%Z && (c <=? 90)%Z.
Definition is_hexdigit (c : Z) : bool :=
  is_digit c || (97 <=? c)%Z && (c <=? 102)%Z || (65 <=? c)%Z && (c <=? 70)%Z.

Definition is_word (c : Z) : bool := is_alpha c || is_digit c || (c =? 95)%Z.

Definition digit_runs (min : nat) (cs : list Z) : list Z :=
  map_runs is_digit (λ run, if Nat.leb min (length run) then [35%Z] else run) [] cs.

Definition UUID_GROUPS : list nat := [8; 4; 4; 4; 12].

Fixpoint skip_hex (n : nat) (cs : list Z) : option (list Z) :=
  match n, cs with
  | O, _ => Some cs
  | S n', c :: cs' => if is_hexdigit c then skip_hex n' cs' else None
  | S _, [] => None
  end.

(** A UUID at the start of the characters. *)
Fixpoint uuid_groups (first : bool) (groups : list nat) (cs : list Z) : bool :=
  match groups with
  | [] => true
  | len :: groups' =>
      let after := if first then Some cs
                   else match cs with c :: cs' => if (c =? 45)%Z then Some cs' else None | [] => None end in
      match after ≫= skip_hex len with
      | Some cs' => uuid_groups false groups' cs'
      | None => false
      end
  end.

Definition is_uuid_at (cs : list Z) : bool := uuid_groups true UUID_GROUPS cs.

(** [<id>] *)
Definition id_mark : list Z := [60; 105; 100; 62]%Z.

(** [skip] characters of a UUID are still to be passed over. *)
Fixpoint uuid_sub (skip : nat) (cs : list Z) : list Z :=
  match cs with
  | [] => []
  | c :: cs' =>
      match skip with
      | S k => uuid_sub k cs'
      | O => if is_uuid_at cs then id_mark ++ uuid_sub 35 cs' else c :: uuid_sub 0 cs'
      end
  end.

Definition is_hex_id (run : list Z) : bool :=
  Nat.leb 7 (length run)
  && forallb (λ b, is_digit b || (97 <=? b)%Z && (b <=? 102)%Z) run && existsb is_digit run.

Definition hex_id_sub (cs : list Z) : list Z :=
  map_runs is_word (λ run, if is_hex_id run then id_mark else run) [] cs.

Definition scrub (text : string) : string :=
  encode (digit_runs 3 (hex_id_sub (uuid_sub 0 (chars text)))).

Definition path_tag_inner (token : string) : string :=
  let last := default "" (last (split_byte "/" (trim_end_byte "/" token))) in
  encode (digit_runs 1 (chars (scrub (if is_empty_str last then "/" else last)))).

Definition is_name_part (part : string) : bool :=
  negb (is_empty_str part) && forallb (λ c, is_word c || (c =? 46)%Z || (c =? 45)%Z) (chars part).

Definition is_owner_name (token : string) : bool :=
  match split_once "/" token with
  | Some (owner, name) => is_name_part owner && is_name_part name
  | None => false
  end.

Definition looks_like_path (token : string) : bool :=
  existsb (λ p, starts_with p token) ["/"; "~"; "./"; "../"]
  || contains_byte "/" token && negb (starts_with "http://" token)
     && negb (starts_with "https://" token) && negb (is_owner_name token).

Fixpoint assignment_rest (cs : list Z) : bool :=
  match cs with
  | [] => false
  | c :: cs' => if (c =? 61)%Z then true else if is_word c then assignment_rest cs' else false
  end.

Definition is_assignment (token : string) : bool :=
  match chars token with
  | c :: cs => (is_alpha c || (c =? 95)%Z) && assignment_rest cs
  | [] => false
  end.

(** The loop goes on with a value that is shorter than its token. *)
Fixpoint normal_loop (fuel : nat) (out rest : string) : string :=
  if is_assignment rest || starts_with "--" rest && contains_byte "=" rest then
    let (name, value) := default (rest, "") (split_once "=" rest) in
    let out := out +:+ name +:+ "=" in
    if is_empty_str value then out
    else match fuel with O => out | S n => normal_loop n out value end
  else if looks_like_path rest then out +:+ "<p:" +:+ path_tag_inner rest +:+ ">"
  else out +:+ scrub rest.

Definition normal_token (token : string) : string := normal_loop (String.length token) "" token.

Definition is_subcommand (word : string) : bool :=
  match chars word with
  | c :: cs => is_lower c && forallb (λ c, is_lower c || is_digit c || (c =? 45)%Z) cs
  | [] => false
  end.

Definition is_mark (c : Z) : bool := (c =? 60)%Z || (c =? 62)%Z.

Definition is_redirect (token : string) : bool :=
  match chars token with
  | 38%Z :: rest => negb (bool_decide (rest = [])) && forallb (Z.eqb 62) rest
  | cs =>
      let after_digits := drop_while is_digit cs in
      let after_marks := drop_while is_mark after_digits in
      if Nat.eqb (length after_marks) (length after_digits) then false
      else forallb is_digit
             (match after_marks with 38%Z :: after_amp => after_amp | _ => after_marks end)
  end.

Definition has_fd_dup_suffix (token : string) : bool :=
  match rev (chars token) with d :: 38%Z :: _ => is_digit d | _ => false end.

Definition listed (l : list string) (word : string) : bool := existsb (String.eqb word) l.

Definition basename (path : string) : string := default "" (last (split_byte "/" path)).

(** [str::split] at the characters [p] accepts. *)
Fixpoint split_on (p : Z → bool) (cs : list Z) : list (list Z) :=
  match cs with
  | [] => [[]]
  | c :: cs' =>
      if p c then [] :: split_on p cs'
      else match split_on p cs' with w :: ws => (c :: w) :: ws | [] => [[c]] end
  end.

Definition py_words (text : string) : list string :=
  encode <$> filter (λ w, w ≠ []) (split_on is_py_space (chars text)).

Definition collapse (text : string) : string := join " " (py_words text).

Definition trim_end_space (text : string) : string :=
  encode (rev (drop_while is_py_space (rev (chars text)))).

(** ** Simple commands (signature/command.rs) *)

Definition WRAPPERS : list string :=
  ["env"; "xcrun"; "time"; "nice"; "caffeinate"; "command"; "exec"; "timeout"; "gtimeout"].

Definition OPERATORS : list string :=
  [";"; "&&"; "||"; "|"; "&"; newline; "("; ")"; "{"; "}"; "|&"; ";;"].

Definition SCRIPT_EXTENSIONS : list string := [".sh"; ".py"; ".rb"; ".js"; ".pl"].

(** [;&|()] *)
Definition OPERATOR_CHARS : list Z := [59; 38; 124; 40; 41]%Z.

Definition is_operator (token : string) : bool :=
  listed OPERATORS token
  || negb (is_empty_str token) && forallb (λ c, existsb (Z.eqb c) OPERATOR_CHARS) (chars token).

(** The commands so far, the current one, and whether the next word is the
    target of a redirection. *)
Definition command_step (acc : list (list string) * list string * bool) (token : string) :
    list (list string) * list string * bool :=
  let '(commands, current, skip) := acc in
  if skip : bool then (commands, current, false)
  else if is_operator token then
    (if bool_decide (current = []) then commands else commands ++ [current], [], false)
  else if is_redirect token then (commands, current, negb (has_fd_dup_suffix token))
  else (commands, current ++ [token], false).

Definition simple_commands (tokens : list string) : list (list string) :=
  let '(commands, current, _) := foldl command_step ([], [], false) tokens in
  if bool_decide (current = []) then commands else commands ++ [current].

(** A turn of the loop of [program_part] past one assignment or wrapper. *)
Definition skip_wrapper (token : string) (rest : list string) : option (list string) :=
  let name := basename token in
  if is_assignment token then Some rest
  else if listed WRAPPERS name then
    let rest := if String.eqb name "xcrun" then rest else drop_while (starts_with "-") rest in
    Some (if String.eqb name "timeout" || String.eqb name "gtimeout" then drop 1 rest else rest)
  else None.

Fixpoint program_loop (fuel : nat) (command : list string) : list string :=
  match fuel, command with
  | S n, token :: rest =>
      match skip_wrapper token rest with
      | Some rest' => program_loop n rest'
      | None => command
      end
  | _, _ => command
  end.

Definition program_part (command : list string) : list string :=
  program_loop (length command) command.

Definition has_script_extension (script : string) : bool :=
  let stem := default script (strip_suffix newline script) in
  existsb (λ ext, ends_with ext stem) SCRIPT_EXTENSIONS.

(** ** Directories (signature/location.rs) *)

(** What [place] asks of the file system. *)
Record PlaceProbe : Type := mk_probe {
  is_dir : string → bool;
  is_file : string → bool;
  read_head : string → nat → option string }.

Definition GITDIR_READ : nat := 4096.

(** [str::split_once] with a text. *)
Fixpoint split_once_str (p s : string) : option (string * string) :=
  match strip_prefix p s with
  | Some r => Some ("", r)
  | None =>
      match s with
      | "" => None
      | String c s' =>
          match split_once_str p s' with Some (a, b) => Some (String c a, b) | None => None end
      end
  end.

Definition is_line_break (c : Z) : bool :=
  ((10 <=? c) && (c <=? 13) || (28 <=? c) && (c <=? 30) || (c =? 133) || (c =? 8232)
   || (c =? 8233))%Z.

Fixpoint take_until (p : Z → bool) (cs : list Z) : list Z :=
  match cs with [] => [] | c :: cs' => if p c then [] else c :: take_until p cs' end.

Definition first_line (text : string) : string := encode (take_until is_line_break (chars text)).

Definition main_checkout (fs : PlaceProbe) (marker : string) : option string :=
  text ← read_head fs marker GITDIR_READ;
  let text := encode (take GITDIR_READ (chars text)) in
  let target := py_strip (match split_once_str "gitdir:" (first_line text) with
                          | Some (_, rest) => rest
                          | None => ""
                          end) in
  match split_once_str "/.git/worktrees/" target with
  | Some (main, _) =>
      if is_empty_str main then None
      else if is_empty_str (basename main) then None else Some (basename main)
  | None => None
  end.

Definition norm_comp (initial : nat) (stack : list string) (comp : string) : list string :=
  if is_empty_str comp || String.eqb comp "." then stack
  else if negb (String.eqb comp "..") || (Nat.eqb initial 0 && bool_decide (stack = []))
          || bool_decide (last stack = Some "..") then stack ++ [comp]
  else take (length stack - 1) stack.

Definition normpath (path : string) : string :=
  if is_empty_str path then "." else
  let initial := if starts_with "//" path && negb (starts_with "///" path) then 2
                 else if starts_with "/" path then 1 else 0 in
  let stack := foldl (norm_comp initial) [] (split_byte "/" path) in
  let out := join "" (replicate initial "/") +:+ join "/" stack in
  if is_empty_str out then "." else out.

(** The text up to the last slash and with it. *)
Fixpoint through_slash (path : string) : string :=
  match path with
  | "" => ""
  | String c path' =>
      let head := through_slash path' in
      if is_empty_str head && negb (byte_eqb c "/") then "" else String c head
  end.

Definition dirname (path : string) : string :=
  let head := through_slash path in
  if str_all (λ c, byte_eqb c "/") head then head else trim_end_byte "/" head.

Definition path_join (dir name : string) : string :=
  if is_empty_str dir || ends_with "/" dir then dir +:+ name else dir +:+ "/" +:+ name.

Definition components (path : string) : list string :=
  filter (λ c, c ≠ "") (split_byte "/" path).

Fixpoint strip_components (base all : list string) : option (list string) :=
  match base, all with
  | [], _ => Some all
  | b :: base', a :: all' => if String.eqb b a then strip_components base' all' else None
  | _ :: _, [] => None
  end.

Definition relative_inside (path current : string) : string :=
  let all := components path in
  match default all (strip_components (components current) all) with
  | [] => "."
  | rest => join "/" rest
  end.

Definition mask_digits (text : string) : string := encode (digit_runs 1 (chars text)).

(** The name of a checkout whose marker is found at [current]. *)
Definition checkout_place (fs : PlaceProbe) (path current marker : string) : string :=
  let name := match (if is_file fs marker then main_checkout fs marker else None) with
              | Some name => name
              | None => basename current
              end in
  let relative := relative_inside path current in
  mask_digits (if String.eqb relative "." then name else name +:+ "/" +:+ relative).

(** The walk up from the directory, with fuel; [None] is fuel that ran out and
    [Some None] a walk that found no marker. *)
Fixpoint marker_loop (fuel : nat) (fs : PlaceProbe) (path current : string) :
    option (option string) :=
  match fuel with
  | O => None
  | S n =>
      let marker := path_join current ".git" in
      if is_file fs marker || is_dir fs marker then
        Some (Some (checkout_place fs path current marker))
      else
        let parent := dirname current in
        if String.eqb parent current then Some None else marker_loop n fs path parent
  end.

Definition scratch_hit (path root : string) : bool :=
  String.eqb path root
  || match strip_prefix root path with Some rest => starts_with "/" rest | None => false end.

Definition place (cwd : option string) (fs : PlaceProbe) (scratch : list string) : string :=
  match cwd with
  | None | Some "" => "none"
  | Some cwd =>
      let path := normpath cwd in
      match default None (marker_loop (S (String.length path)) fs path path) with
      | Some text => text
      | None =>
          if existsb (scratch_hit path) scratch then "tmp" else
          let base := basename path in
          mask_digits (if is_empty_str base then "/" else base)
      end
  end.

(** ** The signatures (signature.rs) *)

Record Signatures : Type := mk_signatures {
  s_full : string; s_head : string; s_prog : string; s_tool : string }.

Definition SHELLS : list string := ["sh"; "bash"; "zsh"; "dash"].
Definition INTERPRETERS : list string :=
  ["sh"; "bash"; "zsh"; "dash"; "python"; "python3"; "perl"; "ruby"; "node"].
Definition PRELUDE : list string :=
  ["cd"; "export"; "set"; "true"; ":"; "source"; "."; "ulimit"; "rm"; "mkdir"; "echo"; "unset";
   "trap"; "sleep"; "cp"; "mv"; "ln"; "test"; "["; "wait"; "exit"; "printf"].

Definition first_word (words : list string) : string := default "" (head words).

Definition shlex_split_punct (script : string) : result unit (list string) :=
  default (Err tt) (Lex.split script).

(** The word after the first one that is [flag]. *)
Fixpoint after_flag (flag : string → bool) (words : list string) : option string :=
  match words with
  | w :: (v :: _) as rest => if flag w then Some v else after_flag flag rest
  | _ => None
  end.

(** [Iterator::position] of a word, and the word after it. *)
Fixpoint word_after (x : string) (words : list string) : option string :=
  match words with
  | [] => None
  | w :: rest => if String.eqb w x then head rest else word_after x rest
  end.

Definition shell_tokens (argv : list string) : list string :=
  let is_shell := match argv with first :: _ => listed SHELLS (basename first) | [] => false end in
  let has_c := existsb (String.eqb "-c") (take 2 (drop 1 argv)) in
  if negb (is_shell && has_c) then argv
  else
    let script := default "" (word_after "-c" argv) in
    match shlex_split_punct script with
    | Ok words => words
    | Err _ => py_words script
    end.

Fixpoint drop_to (x : string) (words : list string) : option (list string) :=
  match words with
  | [] => None
  | w :: rest => if String.eqb w x then Some words else drop_to x rest
  end.

(** An interpreter gives way to its script. *)
Definition script_of (main : list string) : list string :=
  if listed INTERPRETERS (basename (first_word main)) then
    match List.find (λ t, negb (starts_with "-" t)) (drop 1 main) with
    | Some script =>
        if negb (is_empty_str script) && (looks_like_path script || has_script_extension script)
        then default main (drop_to script main) else main
    | None => main
    end
  else main.

Definition main_command (tokens : list string) : list string :=
  let commands := filter (λ part, part ≠ []) (program_part <$> simple_commands tokens) in
  let main := match List.find (λ part, negb (listed PRELUDE (basename (first_word part)))) commands with
              | Some part => part
              | None => default [""] (head commands)
              end in
  script_of main.

Definition insert_flag (f : string) (l : list string) : list string :=
  if existsb (String.eqb f) l then l else insert_by String.compare f l.

Section signatures.
(** [sha2::Sha256::digest]. *)
Context (sha256 : string → list byte).

Definition text_digest (text : string) (len : nat) : string :=
  str_take len (hex_sha256 sha256 text).

Definition compact (text : string) : string :=
  if Nat.leb (length (chars text)) 256 then text
  else encode (take 222 (chars text)) +:+ "~" +:+ text_digest text 32.

Definition flag_key (flag : string) : string :=
  let glued sep prefix rest :=
    let path := sep +:+ rest in
    prefix +:+ "<p:" +:+ path_tag_inner path +:+ "~" +:+ text_digest path 6 +:+ ">" in
  match split_once "/" flag with
  | Some (prefix, rest) => glued "/" prefix rest
  | None =>
      match split_once "~" flag with
      | Some (prefix, rest) => glued "~" prefix rest
      | None => flag
      end
  end.

(** The [BTreeSet] of the flags, in order. *)
Definition flag_set (main : list string) : list string :=
  foldr insert_flag []
    ((λ t, flag_key (match split_once "=" t with Some (flag, _) => flag | None => t end))
     <$> filter (λ t, starts_with "-" t = true) (drop 1 main)).

Definition signatures (argv : list string) (placed : string) : Signatures :=
  let tokens := shell_tokens argv in
  let full_text := join " " (normal_token <$> tokens) in
  let main := main_command tokens in
  let head_word := first_word main in
  let program := if looks_like_path head_word then path_tag_inner head_word else scrub head_word in
  let sub_candidate :=
    default "" (List.find (λ t, negb (starts_with "-" t) && negb (looks_like_path t)) (drop 1 main)) in
  let sub := if is_subcommand sub_candidate then scrub sub_candidate else "" in
  let jobs := after_flag (λ f, String.eqb f "--jobs" || String.eqb f "-j") main in
  let jobs_part := match jobs with
                   | Some j => if negb (is_empty_str j) && str_all is_ascii_digit j
                               then ["jobs=" +:+ j] else []
                   | None => []
                   end in
  let config := after_flag (λ f, String.eqb f "-c" || String.eqb f "--configuration") main in
  let config_part := match config with
                     | Some c => if String.eqb c "debug" || String.eqb c "release"
                                 then ["config=" +:+ c] else []
                     | None => []
                     end in
  let words := [program; sub] ++ flag_set main ++ jobs_part ++ config_part in
  let head := collapse (join " " words) in
  let tool := trim_end_space (program +:+ " " +:+ sub) in
  mk_signatures (text_digest (placed +:+ " :: " +:+ full_text) 32)
    (compact (placed +:+ " :: " +:+ head)) (compact (placed +:+ " :: " +:+ tool)) (compact tool).
End signatures.

Definition no_sha (s : string) : list byte := replicate 32 (byte_of 0).

Example signature_examples :
  let sig argv place := let s := signatures no_sha argv place in (s_head s, s_prog s, s_tool s) in
  sig ["swift"; "build"; "--package-path"; "/Users/gc/app/Packages/Core"; "-c"; "release"; "--jobs"; "4";
       "--scratch-path"; "/tmp/build-1234"] "app/Packages/Core"
    = ("app/Packages/Core :: swift build --jobs --package-path --scratch-path -c jobs=4 config=release",
       "app/Packages/Core :: swift build", "swift build") ∧
  sig ["sh"; "-c"; "cd Packages && export X=1; env FOO=2 swift test --parallel 2>&1 > out.log"] "p"
    = ("p :: swift test --parallel", "p :: swift test", "swift test") ∧
  sig ["nice"; "-n"; "10"; "make"] "p" = ("p :: 10 make", "p :: 10 make", "10 make") ∧
  sig ["python3"; "/x/y/tool.py"; "--n"; "5"] "p" = ("p :: tool.py --n", "p :: tool.py", "tool.py") ∧
  sig ["make"; "-j"; "x1"; "--jobs"; "007"] "p" = ("p :: make x1 --jobs -j", "p :: make x1", "make x1") ∧
  sig ["xcrun"; "-sdk"; "macosx"; "swiftc"] "p" = ("p :: -sdk macosx", "p :: -sdk macosx", "-sdk macosx") ∧
  sig [] "p" = ("p :: ", "p :: ", "").
Proof. by vm_compute. Qed.

Example text_examples :
  scrub "abc1234" = "<id>" ∧ scrub "deadbeef" = "deadbeef" ∧ scrub "xabc1234" = "xabc#" ∧
  scrub "123e4567-e89b-12d3-a456-426614174000" = "<id>" ∧ scrub "10.0.1.200" = "10.0.1.#" ∧
  path_tag_inner "/x/y/run-12.sh" = "run-#.sh" ∧ path_tag_inner "/" = "/" ∧
  normal_token "--x=y=/q/12" = "--x=y=<p:#>" ∧ normal_token "a=b=c" = "a=b=c" ∧
  map is_redirect ["2>&1"; ">&"; "&>"; "&>>"; "2>"; "<>"; "2>&12"] = replicate 7 true ∧
  map is_redirect ["&"; ""; "12"; "&&"; "2&>"; "3>&-"; "1>&2&"; "<in"] = replicate 8 false ∧
  looks_like_path "origin/main" = false ∧ looks_like_path "x/" = true.
Proof. by vm_compute. Qed.

Example place_examples :
  let git := mk_probe (λ p, String.eqb p "/Users/me/proj-12/.git") (λ _, false) (λ _ _, None) in
  let wt := mk_probe (λ _, false) (λ p, String.eqb p "/Users/me/wt/.git")
    (λ _ _, Some ("gitdir: /Users/me/app/.git/worktrees/wt" +:+ newline)) in
  let scratch := ["/tmp"; "/private/tmp"] in
  place (Some "/Users/me/proj-12/sub3/") git scratch = "proj-#/sub#" ∧
  place (Some "/Users/me/wt/Packages/Core") wt scratch = "app/Packages/Core" ∧
  place (Some "/") git scratch = "/" ∧ place (Some "../a/b") git scratch = "b" ∧
  place (Some "/tmpx/y") git scratch = "y" ∧ place (Some "/tmp/x") git scratch = "tmp" ∧
  place None git scratch = "none".
Proof. by vm_compute. Qed.

(** ** The loops end *)

Lemma split_once_shorter x s a b : split_once x s = Some (a, b) → String.length b < String.length s.
Proof.
  revert a b. induction s as [|c s IH]; intros a b; cbn; [done|].
  case_match; [intros Et; simplify_eq; cbn; lia|].
  destruct (split_once x s) as [[a' b']|] eqn:E; [|done]. intros Et. cbn in Et. simplify_eq.
  specialize (IH _ _ eq_refl). lia.
Qed.

(** With fuel for every character, the loop of [normal_token] ends by itself:
    more fuel changes nothing. *)
Lemma normal_loop_fuel n m out rest :
  String.length rest ≤ n → n ≤ m → normal_loop m out rest = normal_loop n out rest.
Proof.
  revert m out rest. induction n as [|n IH]; intros m out rest Hn Hm.
  - destruct rest; [|cbn in Hn; lia]. by destruct m.
  - destruct m as [|m]; [lia|]. cbn [normal_loop].
    destruct (is_assignment rest || starts_with "--" rest && contains_byte "=" rest); [|done].
    destruct (split_once "=" rest) as [[a b]|] eqn:E; cbn [default from_option id]; [|done].
    apply split_once_shorter in E. destruct (is_empty_str b); [done|]. apply IH; lia.
Qed.

Lemma drop_while_suffix {A} (p : A → bool) l : drop_while p l `suffix_of` l.
Proof. induction l as [|x l IH]; cbn; [done|]. case_match; [by apply suffix_cons_r|done]. Qed.

Lemma skip_wrapper_suffix token rest rest' :
  skip_wrapper token rest = Some rest' → rest' `suffix_of` rest.
Proof.
  unfold skip_wrapper. destruct (is_assignment token); [by intros [= ->]|].
  destruct (listed WRAPPERS (basename token)); [|done]. intros [= <-].
  set (rest1 := if String.eqb _ _ then _ else _).
  assert (rest1 `suffix_of` rest).
  { subst rest1. case_match; [done|apply drop_while_suffix]. }
  case_match; [|done]. etrans; [apply suffix_drop|done].
Qed.

(** [program_part] is the rest of the command from its first word that is
    neither an assignment nor a wrapper. *)
Lemma program_part_spec command :
  program_part command `suffix_of` command ∧
  match program_part command with
  | token :: _ => is_assignment token = false ∧ listed WRAPPERS (basename token) = false
  | [] => True
  end.
Proof.
  unfold program_part. generalize (le_n (length command)). generalize (length command) at 2 3 4.
  intros n. revert command. induction n as [|n IH]; intros command Hn.
  - destruct command; [done|cbn in Hn; lia].
  - destruct command as [|token rest]; [done|]. cbn [program_loop].
    destruct (skip_wrapper token rest) as [rest'|] eqn:E.
    + apply skip_wrapper_suffix in E. pose proof (suffix_length _ _ E) as Hl.
      destruct (IH rest') as [H1 H2]; [cbn in Hn; lia|]. split; [|done].
      etrans; [done|]. by apply suffix_cons_r.
    + split; [done|]. unfold skip_wrapper in E. by repeat case_match.
Qed.

Lemma command_step_clean tokens commands current skip :
  Forall (λ c, c ≠ [] ∧ Forall (λ t, is_operator t = false ∧ is_redirect t = false) c) commands →
  Forall (λ t, is_operator t = false ∧ is_redirect t = false) current →
  let '(commands', current', _) := foldl command_step (commands, current, skip) tokens in
  Forall (λ c, c ≠ [] ∧ Forall (λ t, is_operator t = false ∧ is_redirect t = false) c) commands' ∧
  Forall (λ t, is_operator t = false ∧ is_redirect t = false) current'.
Proof.
  revert commands current skip. induction tokens as [|t tokens IH]; intros commands current skip Hc Ht;
    [done|]. cbn [foldl]. unfold command_step at 2. destruct skip; [by apply IH|].
  destruct (is_operator t) eqn:Eo.
  { apply IH; [|done]. case_bool_decide; [done|]. apply Forall_app. by repeat constructor. }
  destruct (is_redirect t) eqn:Er; [by apply IH|].
  apply IH; [done|]. apply Forall_app. by repeat constructor.
Qed.

(** No simple command is empty, and none holds an operator or a redirection. *)
Lemma simple_commands_clean tokens :
  Forall (λ c, c ≠ [] ∧ Forall (λ t, is_operator t = false ∧ is_redirect t = false) c)
    (simple_commands tokens).
Proof.
  pose proof (command_step_clean tokens [] [] false (Forall_nil_2 _) (Forall_nil_2 _)) as H.
  unfold simple_commands. destruct (foldl _ _ _) as [[commands current] skip], H as [H1 H2].
  case_bool_decide; [done|]. apply Forall_app. by repeat constructor.
Qed.

Lemma through_slash_length path :
  String.length (through_slash path) ≤ String.length path ∧
  (String.length (through_slash path) = String.length path → through_slash path = path ∧
     (path = "" ∨ ∃ p, path = p +:+ "/")).
Proof.
  induction path as [|c path [IH1 IH2]]; cbn [through_slash]; [by split; [|split; [|left]]|].
  destruct (through_slash path) as [|h hs] eqn:Eh; cbn [is_empty_str andb].
  - destruct (byte_eqb c "/") eqn:Ec; cbn [negb]; cbn [String.length]; [|split; [lia|lia]].
    apply byte_eqb_eq in Ec as ->. split; [lia|]. intros Hl.
    destruct IH2 as [<- _]; [cbn in *; lia|]. split; [done|]. right. by exists "".
  - cbn [String.length] in *. split; [lia|]. intros Hl.
    destruct IH2 as [<- [He|[p Hp]]]; [lia|done|]. split; [done|]. right.
    exists (String c p). by rewrite Hp.
Qed.

Lemma trim_end_shorter x s : String.length (trim_end_byte x s) ≤ String.length s.
Proof. induction s as [|c s IH]; cbn; [done|]. repeat case_match; cbn in *; lia. Qed.

Lemma trim_end_slash p : String.length (trim_end_byte "/" (p +:+ "/")) < String.length (p +:+ "/").
Proof.
  induction p as [|c p IH]; [vm_compute; lia|]. rewrite str_app_cons. cbn [trim_end_byte String.length].
  repeat case_match; cbn [String.length] in *; lia.
Qed.

Lemma dirname_shorter path :
  dirname path = path ∨ String.length (dirname path) < String.length path.
Proof.
  destruct (through_slash_length path) as [H1 H2]. unfold dirname.
  destruct (decide (String.length (through_slash path) = String.length path)) as [He|Hne].
  - destruct (H2 He) as [-> [-> | [p ->]]]; [by left|]. case_match; [by left|].
    right. apply trim_end_slash.
  - right. case_match; [lia|]. pose proof (trim_end_shorter "/" (through_slash path)). lia.
Qed.

(** The walk of [place] ends: the fuel is one more than the length of the path. *)
Lemma marker_loop_total fuel fs path current :
  String.length current < fuel → is_Some (marker_loop fuel fs path current).
Proof.
  revert current. induction fuel as [|n IH]; intros current Hf; [lia|]. cbn [marker_loop].
  case_match; [by eauto|]. destruct (String.eqb_spec (dirname current) current) as [He|Hne]; [by eauto|].
  apply IH. destruct (dirname_shorter current); [done|lia].
Qed.

(** ** Bounds *)

Lemma length_chars_encode l s :
  Forall (λ c, 0 ≤ c < 2097152)%Z l → length (chars (encode l +:+ s)) = length l + length (chars s).
Proof.
  induction 1 as [|c l Hc _ IH]; [done|]. cbn [encode length].
  rewrite str_app_assoc, chars_encode_char by done. cbn. by rewrite IH.
Qed.

Section bounds.
Context (sha256 : string → list byte).

Lemma text_digest_length text len : String.length (text_digest sha256 text len) ≤ len.
Proof. unfold text_digest. rewrite length_str_take. lia. Qed.

Lemma compact_bounded text : length (chars (compact sha256 text)) ≤ 256.
Proof.
  unfold compact. destruct (Nat.leb_spec (length (chars text)) 256); [done|].
  rewrite length_chars_encode by (apply Forall_take, chars_range).
  rewrite length_take. pose proof (text_digest_length text 32) as Hd.
  rewrite chars_ascii_app by done. rewrite length_app. cbn [bytes length].
  pose proof (chars_length (text_digest sha256 text 32)). lia.
Qed.
End bounds.

(** ** A script and the command it spells *)

Lemma word_after_c shell script : shell ≠ "-c" → word_after "-c" [shell; "-c"; script] = Some script.
Proof. intros Hs. cbn. apply String.eqb_neq in Hs. by rewrite Hs. Qed.

Lemma shell_not_c shell : listed SHELLS (basename shell) = true → shell ≠ "-c".
Proof. by intros H ->. Qed.

(** Quoted word by word, the script of [sh -c] is read back as the command. *)
Lemma shell_tokens_quoted shell argv :
  listed SHELLS (basename shell) = true → Forall utf8 argv →
  shell_tokens [shell; "-c"; join " " (shlex_quote <$> argv)] = argv.
Proof.
  intros Hs Hu. unfold shell_tokens. cbn [drop take existsb]. rewrite Hs.
  rewrite String.eqb_refl, word_after_c by (by apply shell_not_c). cbn [andb orb negb default from_option id].
  unfold shlex_split_punct. by rewrite split_quoted.
Qed.

Lemma signature_bounds sha256 argv placed :
  let s := signatures sha256 argv placed in
  String.length (s_full s) ≤ 32 ∧ length (chars (s_head s)) ≤ 256 ∧
  length (chars (s_prog s)) ≤ 256 ∧ length (chars (s_tool s)) ≤ 256.
Proof. split_and!; cbn; [apply text_digest_length|apply compact_bounded..]. Qed.

(** A command that itself runs a script: a shell with [-c] as its first or second
    argument. *)
Definition runs_script (argv : list string) : bool :=
  match argv with shell :: args => listed SHELLS (basename shell) && existsb (String.eqb "-c") (take 2 args) | [] => false end.

Lemma shell_tokens_plain argv : runs_script argv = false → shell_tokens argv = argv.
Proof. unfold runs_script, shell_tokens. destruct argv as [|shell args]; [done|]. intros H. by rewrite (H : listed SHELLS (basename shell) && existsb (String.eqb "-c") (take 2 (drop 1 (shell :: args))) = false). Qed.

(** C33: a command that is not itself a script of a shell has the signatures of the
    script that spells it: quoted word by word and run with [sh -c], whatever its
    words hold (blanks, quotes, operators, comment signs), it is read back as the
    same words. A command that is a shell with [-c] as its first or second argument
    is excluded: only one script is unwrapped, so a script that runs it is read as
    the shell and its arguments, and it alone as the script. *)
Theorem script_signatures sha256 shell argv placed :
  listed SHELLS (basename shell) = true → Forall utf8 argv → runs_script argv = false →
  signatures sha256 [shell; "-c"; join " " (shlex_quote <$> argv)] placed
  = signatures sha256 argv placed.
Proof.
  intros Hs Hu Ht%shell_tokens_plain. unfold signatures. rewrite shell_tokens_quoted by done. by rewrite Ht.
Qed.

Lemma script_signatures_witness :
  signatures no_sha ["/bin/sh"; "-c"; join " " (shlex_quote <$> ["it's"; ""; "a b;c#"; "--x=1"])] "p"
  = signatures no_sha ["it's"; ""; "a b;c#"; "--x=1"] "p".
Proof.
  apply script_signatures; [by vm_compute| |by vm_compute].
  repeat constructor; apply utf8_ascii; by vm_compute.
Defined.
