(* ===== verification/Crypto.v ===== *)
(** * agora-crypto: canonical encodings, signatures and key wrapping

    [src/crates/agora-crypto/src/lib.rs].  The primitives (BLAKE3, Ed25519,
    X25519, XChaCha20-Poly1305) come from other crates: they are the operations
    of the class [Prims], and what the code relies on is the class
    [PrimsLaws].  A call of the random source takes its outcome as an argument:
    [None] is a source that failed. *)

From S2P Require Import Prelude Strs Bytes.

Inductive CryptoError : Type := BadKey | BadSignature | Decrypt | Malformed | Random.

#[export] Instance CryptoError_eq_dec : EqDecision CryptoError.
Proof. solve_decision. Defined.

Definition SIG_LEN : nat := 64.
Definition KEY_LEN : nat := 32.
Definition NONCE_LEN : nat := 24.

Arguments SIG_LEN : simpl never.
Arguments KEY_LEN : simpl never.
Arguments NONCE_LEN : simpl never.

(** ** The primitives *)

Class Prims : Type := {
  blake3 : string → string;
  (** [Hasher::new_derive_key(context)] over the updates, then [finalize]. *)
  blake3_derive : string → list string → string;
  (** [VerifyingKey::from_bytes] succeeds. *)
  vk_valid : string → bool;
  (** [SigningKey::from_bytes(seed).verifying_key()], and [sign]. *)
  ed_public : string → string;
  ed_sign : string → string → string;
  (** [vk.verify(msg, sig)] succeeds: key, message, signature. *)
  ed_verify : string → string → string → bool;
  (** The X25519 secret of a seed against the Montgomery form of a key. *)
  x_shared : string → string → string;
  (** Key, nonce, additional data, text. *)
  aead_encrypt : string → string → string → string → option string;
  aead_decrypt : string → string → string → string → option string }.

Class PrimsLaws (P : Prims) : Prop := {
  blake3_length b : String.length (blake3 b) = 32;
  ed_public_valid seed : vk_valid (ed_public seed) = true;
  ed_sign_length seed m : String.length (ed_sign seed m) = SIG_LEN;
  ed_sign_verify seed m : ed_verify (ed_public seed) m (ed_sign seed m) = true;
  x_shared_comm a b : x_shared a (ed_public b) = x_shared b (ed_public a);
  aead_length k n a m c : aead_encrypt k n a m = Some c →
    String.length c = String.length m + 16;
  aead_roundtrip k n a m c : aead_encrypt k n a m = Some c → aead_decrypt k n a c = Some m }.

(** ** Canonical encodings *)

(** [b"agora/"] and the separator. *)
Fixpoint fields_bytes (fields : list string) : string :=
  match fields with
  | [] => ""
  | f :: fs => le_bytes 8 (str_len f) +:+ f +:+ fields_bytes fs
  end.

Definition canonical (domain : string) (fields : list string) : string :=
  "agora/" +:+ domain +:+ String (byte_of 0) (fields_bytes fields).

Definition wrap_aad (channel : string) (epoch : Z) : string :=
  canonical "wrap/v1" [channel; le_bytes 8 epoch].

Definition body_aad (channel : string) (epoch : Z) (message_id : string) : string :=
  canonical "body/v1" [channel; le_bytes 8 epoch; message_id].

Definition attachment_aad (channel : string) (epoch : Z) : string :=
  canonical "att/v1" [channel; le_bytes 8 epoch].

(** ** Operations *)

Section Operations.
Context `{P : Prims}.

Definition pseudonym (public : string) : string := hex (str_take 8 (blake3 public)).

Definition content_hash (bytes : string) : string := hex (blake3 bytes).

(** An identity is its seed. *)
Record Identity : Type := mk_identity { seed : string }.

Definition random (outcome : option string) : result CryptoError string :=
  ok_or outcome Random.

Definition generate (outcome : option string) : result CryptoError Identity :=
  s ← random outcome; mret (mk_identity s).

Definition public (i : Identity) : string := ed_public (seed i).

Definition sign (i : Identity) (msg : string) : string := ed_sign (seed i) msg.

(** The two keys in byte order. *)
Definition key_pair (mine peer : string) : string * string :=
  match String.compare mine peer with
  | Gt => (peer, mine)
  | _ => (mine, peer)
  end.

Definition shared_with (i : Identity) (peer : string) : result CryptoError string :=
  if negb (vk_valid peer) then Err BadKey else
  let shared := x_shared (seed i) peer in
  let '(a, b) := key_pair (public i) peer in
  Ok (blake3_derive "agora/channel-key-wrap/v1" [shared; a; b]).

Definition aead_seal (rnd : option string) (key aad plain : string) :
    result CryptoError string :=
  nonce ← random rnd;
  ct ← ok_or (aead_encrypt key nonce aad plain) Decrypt;
  mret (nonce +:+ ct).

Definition aead_open (key aad blob : string) : result CryptoError string :=
  if Nat.ltb (String.length blob) (NONCE_LEN + 16) then Err Malformed else
  let nonce := str_take NONCE_LEN blob in
  let ct := str_drop NONCE_LEN blob in
  ok_or (aead_decrypt key nonce aad ct) Decrypt.

Definition wrap_key (rnd : option string) (i : Identity) (recipient channel : string)
    (epoch : Z) (key : string) : result CryptoError string :=
  k ← shared_with i recipient;
  aead_seal rnd k (wrap_aad channel epoch) key.

Definition unwrap_key (i : Identity) (sender channel : string) (epoch : Z)
    (wrapped : string) : result CryptoError string :=
  k ← shared_with i sender;
  plain ← aead_open k (wrap_aad channel epoch) wrapped;
  if Nat.eqb (String.length plain) KEY_LEN then Ok plain else Err Malformed.

Definition verify (public msg sig : string) : result CryptoError unit :=
  if negb (vk_valid public) then Err BadKey
  else if negb (Nat.eqb (String.length sig) SIG_LEN) then Err BadSignature
  else if ed_verify public msg sig then Ok tt else Err BadSignature.

Definition random_bytes (outcome : option string) : result CryptoError string := random outcome.

Definition from_seed (s : string) : Identity := mk_identity s.

Record ChannelKey : Type := mk_channel_key { channel_key : string }.

Definition ChannelKey_generate (outcome : option string) : result CryptoError ChannelKey :=
  k ← random outcome; mret (mk_channel_key k).

Definition seal (rnd : option string) (k : ChannelKey) (aad plain : string) :
    result CryptoError string :=
  aead_seal rnd (channel_key k) aad plain.

Definition open (k : ChannelKey) (aad blob : string) : result CryptoError string :=
  aead_open (channel_key k) aad blob.

(** ** Signatures and wrapped keys come back *)

Context `{L : !PrimsLaws P}.

Lemma verify_sign i msg : verify (public i) msg (sign i msg) = Ok tt.
Proof.
  unfold verify, public, sign.
  by rewrite ed_public_valid, ed_sign_length, ed_sign_verify.
Qed.

Lemma key_pair_comm a b : key_pair a b = key_pair b a.
Proof.
  unfold key_pair. rewrite (String.compare_antisym a b).
  destruct (String.compare b a) eqn:E; cbn; try done.
  by apply String.compare_eq_iff in E as ->.
Qed.

Lemma shared_with_comm a b : shared_with a (public b) = shared_with b (public a).
Proof.
  unfold shared_with, public. rewrite !ed_public_valid, x_shared_comm.
  cbn. unfold public. by rewrite key_pair_comm.
Qed.

Lemma shared_with_Ok a b : ∃ k, shared_with a (public b) = Ok k.
Proof.
  unfold shared_with, public. rewrite ed_public_valid. cbn.
  destruct (key_pair _ _). eauto.
Qed.

Lemma open_seal rnd key aad plain blob :
  (∀ n, rnd = Some n → String.length n = NONCE_LEN) →
  aead_seal rnd key aad plain = Ok blob → aead_open key aad blob = Ok plain.
Proof.
  intros Hn. unfold aead_seal, aead_open.
  destruct rnd as [n|]; [|done]. unfold random. rstep. specialize (Hn n eq_refl).
  destruct (aead_encrypt key n aad plain) as [ct|] eqn:E; rstep; [|done]. intros [= <-].
  rewrite length_str_app, (aead_length _ _ _ _ _ E), Hn.
  destruct (Nat.ltb_spec (NONCE_LEN + (String.length plain + 16)) (NONCE_LEN + 16)); [lia|].
  rewrite (str_take_app_eq NONCE_LEN n ct Hn), (str_drop_app_eq NONCE_LEN n ct Hn), (aead_roundtrip _ _ _ _ _ E). done.
Qed.

(** A key wrapped by one identity for another opens for that other, whichever
    of the two keys sorts first, with the same channel and epoch. *)
Lemma unwrap_wrap rnd a b channel epoch key blob :
  (∀ n, rnd = Some n → String.length n = NONCE_LEN) → String.length key = KEY_LEN →
  wrap_key rnd a (public b) channel epoch key = Ok blob →
  unwrap_key b (public a) channel epoch blob = Ok key.
Proof.
  intros Hn Hk H. unfold wrap_key, unwrap_key in *.
  rewrite <- shared_with_comm. destruct (shared_with_Ok a b) as [k E]. rewrite E in *.
  cbn in H |- *. rewrite (open_seal _ _ _ _ _ Hn H). cbn. by rewrite Hk.
Qed.

End Operations.

(** ** The encoding is unambiguous *)

Lemma fields_bytes_inj fs gs :
  Forall (λ f, str_len f < 2 ^ 64)%Z fs → Forall (λ f, str_len f < 2 ^ 64)%Z gs →
  fields_bytes fs = fields_bytes gs → fs = gs.
Proof.
  revert gs. induction fs as [|f fs IH]; intros [|g gs] Hf Hg; cbn [fields_bytes]; intros H; try done.
  apply Forall_cons in Hf as [Lf Hf]. apply Forall_cons in Hg as [Lg Hg].
  apply str_app_inj in H as [E H]; [|by rewrite !le_bytes_length].
  rewrite !str_len_nat in *. apply le_bytes_inj in E; [|lia..].
  apply Nat2Z.inj in E. apply str_app_inj in H as [-> H]; [|done].
  by rewrite (IH gs).
Qed.

Lemma nul_split a a' b b' :
  contains_byte (byte_of 0) a = false → contains_byte (byte_of 0) a' = false →
  a +:+ String (byte_of 0) b = a' +:+ String (byte_of 0) b' → a = a' ∧ b = b'.
Proof.
  revert a'. induction a as [|c a IH]; intros [|c' a'] Ha Ha' H;
    rewrite ?str_app_nil_l, ?str_app_cons in H; cbn [contains_byte] in Ha, Ha'.
  - by injection H as ->.
  - injection H as <- H. by rewrite byte_eqb_refl in Ha'.
  - injection H as -> H. by rewrite byte_eqb_refl in Ha.
  - injection H as -> H. apply orb_false_elim in Ha as [_ Ha]. apply orb_false_elim in Ha' as [_ Ha'].
    by destruct (IH a' Ha Ha' H) as [-> ->].
Qed.

(** Two canonical encodings agree only when domain and fields agree. *)
Lemma canonical_inj d d' fs gs :
  contains_byte (byte_of 0) d = false → contains_byte (byte_of 0) d' = false →
  Forall (λ f, str_len f < 2 ^ 64)%Z fs → Forall (λ f, str_len f < 2 ^ 64)%Z gs →
  canonical d fs = canonical d' gs → d = d' ∧ fs = gs.
Proof.
  intros Hd Hd' Hf Hg H. unfold canonical in H. apply str_app_inj_r in H.
  apply nul_split in H as [-> H]; [|done..]. split; [done|]. by apply fields_bytes_inj.
Qed.
