(* ===== verification/Frame.v ===== *)
(** * agora-proto: length-prefixed frames

    [src/crates/agora-proto/src/frame.rs] with [ProtoError] and [MAX_FRAME] of
    [src/crates/agora-proto/src/lib.rs].  A reader is the bytes that will still
    arrive and what the stream does after them (end, or an I/O error); a writer
    is what has gone out and how much more it takes before it fails.  [usize]
    is 64 bits wide; [serde_json] is a parameter. *)

From S2P Require Import Prelude Strs Bytes Crypto.

(** ** Errors and streams *)

(** [std::io::ErrorKind], the one kind the code makes and any other. *)
Inductive io_kind : Type := UnexpectedEof | OtherKind (code : Z).

Inductive ProtoError : Type :=
| Io (e : io_kind)
| Json
| FrameTooLarge (len : Z)
| Encoding (field : string)
| CryptoErr (e : CryptoError).

#[export] Instance io_kind_eq_dec : EqDecision io_kind.
Proof. solve_decision. Defined.

#[export] Instance ProtoError_eq_dec : EqDecision ProtoError.
Proof. solve_decision. Defined.

Definition MAX_FRAME : Z := 8 * 1024 * 1024.

Arguments MAX_FRAME : simpl never.

Record reader : Type := mk_reader { pending : string; ending : option io_kind }.

Definition consume (n : nat) (r : reader) : reader :=
  mk_reader (str_drop n (pending r)) (ending r).

(** [read_exact] of [n] bytes. *)
Definition read_exact (n : nat) (r : reader) : result ProtoError string * reader :=
  if Nat.ltb (String.length (pending r)) n
  then (Err (Io (default UnexpectedEof (ending r))), consume n r)
  else (Ok (str_take n (pending r)), consume n r).

(** [r.take(n).read_to_end(&mut payload)]. *)
Definition take_to_end (n : nat) (r : reader) : result ProtoError string * reader :=
  if Nat.ltb (String.length (pending r)) n
  then (match ending r with
        | None => Ok (pending r)
        | Some e => Err (Io e)
        end, consume n r)
  else (Ok (str_take n (pending r)), consume n r).

Definition read_frame (r : reader) (max : Z) : result ProtoError (option string) * reader :=
  match pending r with
  | "" => (match ending r with None => Ok None | Some e => Err (Io e) end, r)
  | String b _ =>
      match read_exact 3 (consume 1 r) with
      | (Err e, r') => (Err e, r')
      | (Ok rest, r') =>
          let declared := be_val 0 (String b rest) in
          let len := declared in
          if (max <? len)%Z then (Err (FrameTooLarge len), r') else
          match take_to_end (Z.to_nat declared) r' with
          | (Err e, r'') => (Err e, r'')
          | (Ok payload, r'') =>
              if negb (str_len payload =? len)%Z then (Err (Io UnexpectedEof), r'')
              else (Ok (Some payload), r'')
          end
      end
  end.

Record writer : Type := mk_writer {
  out : string;
  room : option (nat * io_kind);
  flush_fails : option io_kind }.

Definition write_all (b : string) (w : writer) : result ProtoError unit * writer :=
  match room w with
  | None => (Ok tt, mk_writer (out w +:+ b) None (flush_fails w))
  | Some (n, e) =>
      if Nat.leb (String.length b) n
      then (Ok tt, mk_writer (out w +:+ b) (Some (n - String.length b, e)) (flush_fails w))
      else (Err (Io e), mk_writer (out w +:+ str_take n b) (Some (0, e)) (flush_fails w))
  end.

Definition flush (w : writer) : result ProtoError unit * writer :=
  (match flush_fails w with None => Ok tt | Some e => Err (Io e) end, w).

(** [u32::try_from(len)] with the error the code maps it to. *)
Definition u32_len (b : string) : result ProtoError Z :=
  if in_u32 (str_len b) then Ok (str_len b) else Err (FrameTooLarge (str_len b)).

Definition write_frame (w : writer) (payload : string) : result ProtoError unit * writer :=
  if (MAX_FRAME <? str_len payload)%Z then (Err (FrameTooLarge (str_len payload)), w) else
  match u32_len payload with
  | Err e => (Err e, w)
  | Ok len =>
      let buf := be_bytes 4 len +:+ payload in
      match write_all buf w with
      | (Err e, w') => (Err e, w')
      | (Ok _, w') => flush w'
      end
  end.

Section Json.
Context {T : Type} (to_vec : T → option string) (from_slice : string → option T).

Definition read_json (r : reader) : result ProtoError (option T) * reader :=
  match read_frame r MAX_FRAME with
  | (Err e, r') => (Err e, r')
  | (Ok None, r') => (Ok None, r')
  | (Ok (Some bytes), r') =>
      (match from_slice bytes with None => Err Json | Some v => Ok (Some v) end, r')
  end.

Definition write_json (w : writer) (value : T) : result ProtoError unit * writer :=
  match to_vec value with
  | None => (Err Json, w)
  | Some bytes =>
      if (MAX_FRAME <? str_len bytes)%Z then (Err (FrameTooLarge (str_len bytes)), w) else
      match u32_len bytes with
      | Err e => (Err e, w)
      | Ok len =>
          match write_all (be_bytes 4 len) w with
          | (Err e, w') => (Err e, w')
          | (Ok _, w') =>
              match write_all bytes w' with
              | (Err e, w'') => (Err e, w'')
              | (Ok _, w'') => flush w''
              end
          end
      end
  end.
End Json.

(** ** Connections: frames written one after the other, read until the end *)

Fixpoint write_frames (w : writer) (ps : list string) : result ProtoError unit * writer :=
  match ps with
  | [] => (Ok tt, w)
  | p :: ps' =>
      match write_frame w p with
      | (Err e, w') => (Err e, w')
      | (Ok _, w') => write_frames w' ps'
      end
  end.

Inductive closing : Type := Closed | Failed (e : ProtoError) | Busy.

(** The read loop of a connection: frames until a clean end or an error;
    [Busy] only when [fuel] runs out. *)
Fixpoint read_all (fuel : nat) (r : reader) (max : Z) : list string * closing :=
  match fuel with
  | O => ([], Busy)
  | S k =>
      match read_frame r max with
      | (Ok None, _) => ([], Closed)
      | (Ok (Some p), r') => let '(ps, c) := read_all k r' max in (p :: ps, c)
      | (Err e, _) => ([], Failed e)
      end
  end.

(** What [n] bytes of the frames [ps] deliver: the frames that are whole, and
    whether the cut falls between frames. *)
Fixpoint delivered (n : nat) (ps : list string) : list string * bool :=
  match ps with
  | [] => ([], true)
  | p :: ps' =>
      if Nat.eqb n 0 then ([], true)
      else if Nat.ltb n (4 + String.length p) then ([], false)
      else let '(qs, clean) := delivered (n - (4 + String.length p)) ps' in (p :: qs, clean)
  end.

Definition encode_frame (p : string) : string := be_bytes 4 (str_len p) +:+ p.

Definition encode_frames (ps : list string) : string :=
  foldr (λ p s, encode_frame p +:+ s) "" ps.

(** ** Lemmas *)

Lemma length_encode_frame p : String.length (encode_frame p) = 4 + String.length p.
Proof. unfold encode_frame. by rewrite length_str_app, be_bytes_length. Qed.

Lemma u32_len_Ok b : (str_len b ≤ MAX_FRAME)%Z → u32_len b = Ok (str_len b).
Proof.
  intros H. unfold u32_len, in_u32, u32_max. rewrite str_len_nat in *. unfold MAX_FRAME in H.
  destruct (Z.leb_spec 0 (Z.of_nat (String.length b))); [|lia].
  destruct (Z.leb_spec (Z.of_nat (String.length b)) 4294967295); [done|lia].
Qed.

(** Writing two buffers is writing their concatenation, on a failing writer
    too. *)
Lemma write_all_app a b w :
  write_all (a +:+ b) w =
    match write_all a w with
    | (Err e, w') => (Err e, w')
    | (Ok _, w') => write_all b w'
    end.
Proof.
  unfold write_all. destruct w as [o [[n e]|] f]; cbn [room out flush_fails].
  2: by rewrite str_app_assoc.
  rewrite length_str_app.
  destruct (Nat.leb_spec (String.length a) n) as [L|L]; cbn [room out flush_fails].
  - destruct (Nat.leb_spec (String.length a + String.length b) n),
      (Nat.leb_spec (String.length b) (n - String.length a)); try lia.
    + rewrite str_app_assoc. do 4 f_equal. lia.
    + rewrite str_app_assoc. do 3 f_equal. by apply str_take_app_ge.
  - destruct (Nat.leb_spec (String.length a + String.length b) n); [lia|].
    rewrite str_take_app_le by lia. done.
Qed.

(** [write_json] is [write_frame] of the serialised value: the two writes of
    one and the single buffer of the other are the same on the wire. *)
Lemma write_json_frame {T} (to_vec : T → option string) w v :
  write_json to_vec w v =
    match to_vec v with None => (Err Json, w) | Some b => write_frame w b end.
Proof.
  unfold write_json, write_frame. destruct (to_vec v) as [b|]; [|done].
  destruct (MAX_FRAME <? str_len b)%Z; [done|]. destruct (u32_len b) as [len|]; [|done].
  rewrite write_all_app. by destruct (write_all _ w) as [[] w'].
Qed.

Lemma write_frames_out ps o :
  Forall (λ p, str_len p ≤ MAX_FRAME)%Z ps →
  write_frames (mk_writer o None None) ps = (Ok tt, mk_writer (o +:+ encode_frames ps) None None).
Proof.
  revert o. induction ps as [|p ps IH]; intros o H; cbn [write_frames encode_frames foldr].
  { by rewrite str_app_nil_r. }
  apply Forall_cons in H as [Hp H]. unfold write_frame.
  destruct (Z.ltb_spec MAX_FRAME (str_len p)); [lia|]. rewrite u32_len_Ok by done.
  cbn [write_all room out flush_fails]. cbn [flush flush_fails].
  rewrite IH by done. by rewrite str_app_assoc.
Qed.

(** The four header bytes of a stream that has them. *)
Lemma header_split s :
  4 ≤ String.length s → ∃ b t u, s = String b (t +:+ u) ∧ String.length t = 3.
Proof.
  intros H. destruct s as [|b s]; [cbn in H; lia|]. cbn [String.length] in H.
  exists b, (str_take 3 s), (str_drop 3 s). rewrite str_take_drop, length_str_take. split; [done|lia].
Qed.

(** [read_frame] past its header. *)
Lemma read_frame_header b t u e max :
  String.length t = 3 →
  read_frame (mk_reader (String b (t +:+ u)) e) max =
    let len := be_val 0 (String b t) in
    if (max <? len)%Z then (Err (FrameTooLarge len), mk_reader u e) else
    match take_to_end (Z.to_nat len) (mk_reader u e) with
    | (Err e, r'') => (Err e, r'')
    | (Ok payload, r'') =>
        if negb (str_len payload =? len)%Z then (Err (Io UnexpectedEof), r'')
        else (Ok (Some payload), r'')
    end.
Proof.
  intros Ht. unfold read_frame, read_exact. cbn [pending].
  change (consume 1 (mk_reader (String b (t +:+ u)) e)) with (mk_reader (t +:+ u) e).
  cbn [pending]. rewrite length_str_app, Ht.
  destruct (Nat.ltb_spec (3 + String.length u) 3); [lia|].
  rewrite (str_take_app_eq 3 t u Ht).
  replace (consume 3 (mk_reader (t +:+ u) e)) with (mk_reader u e).
  2: { unfold consume. cbn [pending ending]. by rewrite (str_drop_app_eq 3 t u Ht). }
  done.
Qed.

(** A stream shorter than a header is a clean end or a truncation. *)
Lemma read_frame_short s max :
  String.length s < 4 →
  ∃ r, read_frame (mk_reader s None) max =
       (if bool_decide (s = "") then Ok None else Err (Io UnexpectedEof), r).
Proof.
  intros H. destruct s as [|b s]; [by exists (mk_reader "" None)|].
  unfold read_frame, read_exact. cbn [pending].
  change (consume 1 (mk_reader (String b s) None)) with (mk_reader s None).
  cbn [pending ending default]. cbn [String.length] in H.
  destruct (Nat.ltb_spec (String.length s) 3); [|lia].
  eexists. by rewrite bool_decide_eq_false_2.
Qed.

Lemma take_to_end_app p u e :
  take_to_end (String.length p) (mk_reader (p +:+ u) e) = (Ok p, mk_reader u e).
Proof.
  unfold take_to_end, consume. cbn [pending ending]. rewrite length_str_app.
  destruct (Nat.ltb_spec (String.length p + String.length u) (String.length p)); [lia|].
  by rewrite str_take_app, str_drop_app.
Qed.

Lemma be_header_val p :
  (str_len p < 4294967296)%Z → be_val 0 (be_bytes 4 (str_len p)) = str_len p.
Proof.
  intros H. rewrite be_val_bytes, Z.mul_0_l, Z.add_0_l.
  apply Z.mod_small. rewrite str_len_nat in *. change (256 ^ Z.of_nat 4)%Z with 4294967296%Z. lia.
Qed.

(** The header of a frame as its first byte and the three after it. *)
Lemma encode_frame_split p u :
  (str_len p < 4294967296)%Z →
  ∃ b t, encode_frame p +:+ u = String b (t +:+ p +:+ u) ∧ String.length t = 3 ∧
         be_val 0 (String b t) = str_len p.
Proof.
  intros H. unfold encode_frame.
  destruct (be_bytes 4 (str_len p)) as [|b t] eqn:E.
  { apply (f_equal String.length) in E. by rewrite be_bytes_length in E. }
  exists b, t. rewrite !str_app_cons, str_app_assoc. split_and!; [done| |].
  - apply (f_equal String.length) in E. rewrite be_bytes_length in E. cbn in E. lia.
  - by rewrite <- E, be_header_val.
Qed.

Lemma read_frame_whole p u e :
  (str_len p ≤ MAX_FRAME)%Z →
  read_frame (mk_reader (encode_frame p +:+ u) e) MAX_FRAME = (Ok (Some p), mk_reader u e).
Proof.
  intros H. destruct (encode_frame_split p u) as (b & t & -> & Ht & E); [unfold MAX_FRAME in H; lia|].
  rewrite read_frame_header by done. cbn zeta. rewrite E.
  destruct (Z.ltb_spec MAX_FRAME (str_len p)); [lia|].
  rewrite str_len_nat, Nat2Z.id, take_to_end_app, str_len_nat, Z.eqb_refl. done.
Qed.

(** A frame cut after its header but before its last byte. *)
Lemma read_frame_cut p n :
  (str_len p ≤ MAX_FRAME)%Z → 0 < n < 4 + String.length p →
  ∃ r, read_frame (mk_reader (str_take n (encode_frame p)) None) MAX_FRAME
       = (Err (Io UnexpectedEof), r).
Proof.
  intros H [Hn Hl]. destruct (decide (n < 4)) as [L|L].
  { destruct (read_frame_short (str_take n (encode_frame p)) MAX_FRAME) as [r ->].
    { rewrite length_str_take, length_encode_frame. lia. }
    exists r. rewrite bool_decide_eq_false_2; [done|].
    intros E. apply (f_equal String.length) in E.
    rewrite length_str_take, length_encode_frame in E. cbn in E. lia. }
  destruct (encode_frame_split p "") as (b & t & E & Ht & Ev); [unfold MAX_FRAME in H; lia|].
  rewrite !str_app_nil_r in E. rewrite E.
  destruct n as [|[|[|[|m]]]]; try lia.
  destruct t as [|c1 [|c2 [|c3 [|]]]]; cbn in Ht; try lia.
  change (str_take _ _) with (String b (String c1 (String c2 (String c3 "")) +:+ str_take m p)).
  rewrite read_frame_header by done. cbn zeta. rewrite Ev.
  destruct (Z.ltb_spec MAX_FRAME (str_len p)); [lia|].
  rewrite str_len_nat, Nat2Z.id. unfold take_to_end. cbn [pending ending].
  rewrite length_str_take.
  destruct (Nat.ltb_spec (min m (String.length p)) (String.length p)); [|lia].
  rewrite str_len_nat, length_str_take.
  destruct (Z.eqb_spec (Z.of_nat (min m (String.length p))) (Z.of_nat (String.length p))); [lia|].
  cbn [negb]. eauto.
Qed.

Lemma read_all_delivered ps n fuel :
  Forall (λ p, str_len p ≤ MAX_FRAME)%Z ps → n < fuel →
  read_all fuel (mk_reader (str_take n (encode_frames ps)) None) MAX_FRAME =
    let '(qs, clean) := delivered n ps in
    (qs, if clean then Closed else Failed (Io UnexpectedEof)).
Proof.
  revert n fuel. induction ps as [|p ps IH]; intros n fuel H Hf; (destruct fuel as [|fuel]; [lia|]).
  { cbn [encode_frames foldr delivered]. replace (str_take n "") with "" by (by destruct n). done. }
  apply Forall_cons in H as [Hp H]. cbn [delivered read_all].
  change (encode_frames (p :: ps)) with (encode_frame p +:+ encode_frames ps).
  destruct (Nat.eqb_spec n 0) as [->|Hn]; [done|].
  destruct (Nat.ltb_spec n (4 + String.length p)) as [L|L].
  { rewrite str_take_app_le by (rewrite length_encode_frame; lia).
    destruct (read_frame_cut p n Hp ltac:(lia)) as [r ->]. done. }
  assert (str_take n (encode_frame p +:+ encode_frames ps)
          = encode_frame p +:+ str_take (n - (4 + String.length p)) (encode_frames ps)) as ->.
  { rewrite <- length_encode_frame in L |- *. by apply str_take_app_ge. }
  rewrite read_frame_whole by done.
  rewrite IH by (done || lia). by destruct (delivered _ ps) as [qs []].
Qed.

Lemma delivered_all ps n :
  String.length (encode_frames ps) ≤ n → delivered n ps = (ps, true).
Proof.
  revert n. induction ps as [|p ps IH]; intros n H; [done|].
  change (encode_frames (p :: ps)) with (encode_frame p +:+ encode_frames ps) in H.
  cbn [delivered]. rewrite length_str_app, length_encode_frame in H.
  destruct (Nat.eqb_spec n 0); [lia|]. destruct (Nat.ltb_spec n (4 + String.length p)); [lia|].
  by rewrite IH by lia.
Qed.

(** What [read_frame] took from the stream, by outcome. *)
Definition frame_outcome (r : reader) (max : Z) (taken : string)
    (res : result ProtoError (option string)) (r' : reader) : Prop :=
  match res with
  | Ok None => pending r = "" ∧ ending r = None ∧ taken = ""
  | Ok (Some p) => (str_len p ≤ max)%Z ∧ taken = be_bytes 4 (str_len p) +:+ p
  | Err (FrameTooLarge n) => (max < n < 2 ^ 32)%Z ∧ taken = be_bytes 4 n
  | Err (Io e) =>
      e = default UnexpectedEof (ending r) ∧ pending r' = "" ∧ (str_len taken < 4 + max)%Z ∧
      (String.length taken < 4 ∨
       (str_len taken - 4 < be_val 0 (str_take 4 taken) ≤ max)%Z)
  | Err _ => False
  end.

Lemma read_frame_bounded_short s e max :
  (0 ≤ max)%Z → String.length s < 4 →
  ∃ taken, let '(res, r') := read_frame (mk_reader s e) max in
    s = taken +:+ pending r' ∧ ending r' = e ∧
    (str_len taken ≤ 4 + max)%Z ∧ frame_outcome (mk_reader s e) max taken res r'.
Proof.
  intros Hm L. exists s. destruct s as [|b s].
  { unfold read_frame. cbn [pending ending]. destruct e as [e|]; cbn; split_and!; try done; lia. }
  cbn [String.length] in L. unfold read_frame, read_exact. cbn [pending].
  change (consume 1 (mk_reader (String b s) e)) with (mk_reader s e). cbn [pending ending].
  destruct (Nat.ltb_spec (String.length s) 3); [|lia].
  cbn [consume pending ending frame_outcome].
  assert (str_drop 3 s = "") as ->.
  { apply length_zero_str. rewrite length_str_drop. lia. }
  rewrite str_app_nil_r, str_len_nat. cbn [String.length]. split_and!; try done; try lia.
Qed.

Lemma read_frame_bounded_header b t u e max :
  (0 ≤ max)%Z → String.length t = 3 →
  ∃ taken, let '(res, r') := read_frame (mk_reader (String b (t +:+ u)) e) max in
    String b (t +:+ u) = taken +:+ pending r' ∧ ending r' = e ∧
    (str_len taken ≤ 4 + max)%Z ∧ frame_outcome (mk_reader (String b (t +:+ u)) e) max taken res r'.
Proof.
  intros Hm Ht. rewrite read_frame_header by done. cbn zeta.
  pose proof (be_bytes_val (String b t)) as Hb. cbn [String.length] in Hb. rewrite Ht in Hb.
  pose proof (be_val_range (String b t) 0 ltac:(lia)) as Hr. cbn [String.length] in Hr.
  rewrite Ht in Hr. change (256 ^ Z.of_nat 4)%Z with (2 ^ 32)%Z in Hr.
  set (len := be_val 0 (String b t)) in *.
  destruct (Z.ltb_spec max len) as [G|G].
  { exists (String b t). cbn [frame_outcome pending ending]. rewrite str_app_cons, str_len_nat.
    cbn [String.length]. rewrite Ht, Hb. split_and!; try done; lia. }
  unfold take_to_end, consume. cbn [pending ending].
  destruct (Nat.ltb_spec (String.length u) (Z.to_nat len)) as [S|S].
  - exists (String b (t +:+ u)).
    assert (str_drop (Z.to_nat len) u = "") as ->.
    { apply length_zero_str. rewrite length_str_drop. lia. }
    assert (str_take 4 (String b (t +:+ u)) = String b t) as E4.
    { rewrite <- str_app_cons. apply str_take_app_eq. cbn. by rewrite Ht. }
    destruct e as [e|]; [|destruct (Z.eqb_spec (str_len u) len) as [Q|Q]; cbn [negb];
        [rewrite str_len_nat in Q; lia|]];
      cbn [frame_outcome pending ending default];
      rewrite str_app_nil_r, E4, !str_len_nat; cbn [String.length]; rewrite length_str_app, Ht;
      split_and!; try done; try lia; right; fold len; lia.
  - exists (String b (t +:+ str_take (Z.to_nat len) u)).
    assert (str_len (str_take (Z.to_nat len) u) = len) as E.
    { rewrite str_len_nat, length_str_take. lia. }
    rewrite E, Z.eqb_refl. cbn [negb frame_outcome pending ending].
    rewrite str_len_nat. cbn [String.length]. rewrite length_str_app, Ht, length_str_take.
    rewrite E, Hb, !str_app_cons, str_app_assoc, str_take_drop. split_and!; try done; lia.
Qed.

(** ** Claims *)

(** C32: frames of at most [MAX_FRAME] bytes written to a connection all go out,
    and a reader of any prefix of what went out, however the stream is cut,
    gets exactly the frames that are whole in it, in order, then a clean end
    when the cut falls between frames and [UnexpectedEof] when it falls inside
    one; the whole stream gives all the frames and a clean end. *)
Theorem frames_roundtrip (ps : list string) :
  Forall (λ p, str_len p ≤ MAX_FRAME)%Z ps →
  ∃ w, write_frames (mk_writer "" None None) ps = (Ok tt, w) ∧
    (∀ n, read_all (S n) (mk_reader (str_take n (out w)) None) MAX_FRAME =
       let '(qs, clean) := delivered n ps in
       (qs, if clean then Closed else Failed (Io UnexpectedEof))) ∧
    read_all (S (String.length (out w))) (mk_reader (out w) None) MAX_FRAME = (ps, Closed).
Proof.
  intros H. eexists. split; [by apply write_frames_out|]. cbn [out]. rewrite str_app_nil_l.
  assert (∀ n, read_all (S n) (mk_reader (str_take n (encode_frames ps)) None) MAX_FRAME =
       let '(qs, clean) := delivered n ps in
       (qs, if clean then Closed else Failed (Io UnexpectedEof))) as Hn.
  { intros n. apply read_all_delivered; [done|lia]. }
  split; [done|]. specialize (Hn (String.length (encode_frames ps))).
  by rewrite str_take_all, delivered_all in Hn.
Qed.

Lemma frames_roundtrip_witness :
  ∃ w, write_frames (mk_writer "" None None) ["first"; ""; "last"] = (Ok tt, w) ∧
    read_all 14 (mk_reader (str_take 13 (out w)) None) MAX_FRAME = (["first"; ""], Closed) ∧
    read_all 16 (mk_reader (str_take 15 (out w)) None) MAX_FRAME =
      (["first"; ""], Failed (Io UnexpectedEof)).
Proof.
  destruct (frames_roundtrip ["first"; ""; "last"]) as (w & E & H & _).
  { repeat constructor; vm_compute; discriminate. }
  exists w. split; [exact E|]. split; [exact (H 13)|exact (H 15)].
Defined.

(** Whatever bytes a peer sends, reading one frame takes a prefix of them
    that is never longer than the header and the limit: a frame returned is
    within the limit and took exactly its own encoding, a declared length over
    the limit is refused after its four header bytes with nothing of the
    payload read, and any other failure is an end inside a frame that was within the
    limit, reported as [UnexpectedEof] or as the stream's own error. *)
Theorem read_frame_bounded (r : reader) (max : Z) :
  (0 ≤ max)%Z →
  ∃ taken, let '(res, r') := read_frame r max in
    pending r = taken +:+ pending r' ∧ ending r' = ending r ∧
    (str_len taken ≤ 4 + max)%Z ∧ frame_outcome r max taken res r'.
Proof.
  destruct r as [s e]. intros Hm.
  destruct (decide (String.length s < 4)) as [L|L].
  { by apply (read_frame_bounded_short s e max). }
  destruct (header_split s ltac:(lia)) as (b & t & u & -> & Ht).
  by apply (read_frame_bounded_header b t u e max).
Qed.

Lemma read_frame_bounded_witness :
  (0 ≤ 16)%Z ∧ ∃ taken, let '(res, r') := read_frame (mk_reader (be_bytes 4 17 +:+ "abc") None) 16 in
    be_bytes 4 17 +:+ "abc" = taken +:+ pending r' ∧ ending r' = None ∧
    (str_len taken ≤ 4 + 16)%Z ∧
    frame_outcome (mk_reader (be_bytes 4 17 +:+ "abc") None) 16 taken res r'.
Proof.
  split; [lia|]. apply (read_frame_bounded (mk_reader (be_bytes 4 17 +:+ "abc") None) 16). lia.
Defined.
