(* ===== verification/StoreDb.v ===== *)
(** * agora-store: the tables and the transactions over them

    The SQLite schema of [src/crates/agora-store/src/lib.rs] ([MIGRATIONS] and
    the [migration*.sql] files), the error type, and the monad of one write
    transaction.  A table is the list of its rows in [rowid] order; a column
    that holds a blob or text is a [string].  A transaction reads and writes a
    database value and either commits or returns an error, in which case the
    caller keeps the database it had ([transact]). *)

From S2P Require Import Prelude F64 Strs Bytes Core Crypto Task.

(** ** Errors *)

Inductive StoreError : Type :=
| Sql (why : string)
| Transition (e : TransitionError)
| NotFound (what : string)
| BadState (state : string)
| StoreCrypto (e : CryptoError)
| Invalid (msg : string)
| Refused (msg : string)
| NotMember (channel : string)
| StoreIo.

(** ** Rows *)

Record ident : Type := mk_ident {
  i_pubkey : string; i_label : string; i_role : string; i_revoked : bool;
  i_first_seen : Z; i_system : bool }.

Record nonce_row : Type := mk_nonce { n_actor : string; n_nonce : string; n_ts : Z }.

Record event : Type := mk_event {
  e_seq : Z; e_ts : Z; e_actor : string; e_kind : string; e_subject : string; e_data : Value }.

Record card : Type := mk_card {
  c_id : string; c_title : string; c_lane : string; c_state : string; c_owner : option string;
  c_created : Z; c_updated : Z; c_priority : Z; c_value : f64; c_size : f64; c_team : string;
  c_needs_owner : bool; c_owner_action : string }.

Record evidence_row : Type := mk_evidence { ev_card : string; ev_ref : string; ev_by : string }.

Record approval : Type := mk_approval { ap_card : string; ap_by : string }.

Record dep : Type := mk_dep { d_card : string; d_after : string }.

Record link : Type := mk_link {
  ln_card : string; ln_rel : string; ln_target : string; ln_created : Z; ln_by : string }.

Record notice : Type := mk_notice {
  nt_seq : Z; nt_ts : Z; nt_target : string; nt_kind : string; nt_subject : string;
  nt_text : string }.

Record member : Type := mk_member { m_channel : string; m_pubkey : string; m_role : string }.

Record key_row : Type := mk_key_row {
  k_channel : string; k_epoch : Z; k_member : string; k_wrapped : string;
  k_wrapper : option string }.

Record rotation_row : Type := mk_rotation { r_channel : string; r_since : Z; r_reason : string }.

Record channel : Type := mk_channel {
  ch_id : string; ch_kind : string; ch_name : string; ch_parent : option string; ch_epoch : Z;
  ch_created : Z }.

Record message : Type := mk_msg {
  ms_id : string; ms_seq : Z; ms_channel : string; ms_thread_of : option string;
  ms_sender : string; ms_ts : Z; ms_encrypted : bool; ms_epoch : Z; ms_body : string;
  ms_sig : string }.

Record attachment_row : Type := mk_attachment_row {
  at_message : string; at_hash : string; at_name : string; at_mime : string }.

Record blob : Type := mk_blob {
  bl_hash : string; bl_size : Z; bl_bytes : string; bl_spilled : bool }.

Record upload : Type := mk_upload {
  bu_uploader : string; bu_hash : string; bu_size : Z; bu_ts : Z }.

Record reaction_row : Type := mk_reaction_row {
  re_kind : string; re_target : string; re_by : string; re_emoji : string; re_ts : Z;
  re_sig : string }.

Record note_row : Type := mk_note_row {
  kn_id : string; kn_author : string; kn_ts : Z; kn_title : string; kn_body : string;
  kn_tags : string; kn_supersedes : option string; kn_sig : string }.

Record cursor : Type := mk_cursor { cu_reader : string; cu_channel : string; cu_acked : Z }.

(** The tables of messages, blobs, reactions and notes. *)
Record post_tables : Type := mk_posts {
  messages : list message;
  message_attachments : list attachment_row;
  blobs : list blob;
  blob_uploads : list upload;
  reactions : list reaction_row;
  knowledge : list note_row;
  cursors : list cursor }.

Definition empty_posts : post_tables := mk_posts [] [] [] [] [] [] [].

Record pool : Type := mk_pool {
  p_name : string; p_capacity : f64; p_unit : string; p_note : string; p_created : Z;
  p_created_by : string }.

Record lease : Type := mk_lease {
  l_id : string; l_kind : string; l_resource : string; l_amount : f64; l_holder : string;
  l_card : option string; l_task : option string; l_created : Z; l_expires : option Z;
  l_heartbeat : Z; l_expected_end : option Z; l_released : option Z; l_note : string }.

(** A work task, its columns in groups: what it is, who has it, its run, the
    resources of the run, and its signatures. *)
Record task_spec : Type := mk_task_spec {
  sp_title : string; sp_kind : string; sp_scope : option string; sp_author : string;
  sp_queued : Z; sp_after : string; sp_size : f64; sp_value : f64; sp_files : string;
  sp_command : option string; sp_cwd : option string; sp_weight : f64; sp_card : option string;
  sp_origin : option string }.

Record task_claim : Type := mk_task_claim {
  cl_agent : option string; cl_accepted : option string; cl_claimed : option Z;
  cl_requested : option Z }.

Record task_run : Type := mk_task_run {
  rn_started : option Z; rn_ended : option Z; rn_supervisor_pid : option Z;
  rn_supervisor_start : option Z; rn_pid : option Z; rn_status : option Z;
  rn_log : option string; rn_qos : option string; rn_exclusive : bool;
  rn_quiet_until : option Z; rn_cancel_requested : bool }.

Record task_usage : Type := mk_task_usage {
  us_cpu : option f64; us_rss : option Z; us_rss_peak : option Z; us_cpu_time : option f64;
  us_sampled : option Z }.

Record task_sigs : Type := mk_task_sigs {
  sg_full : option string; sg_head : option string; sg_prog : option string;
  sg_tool : option string; sg_prediction : option string }.

Record work_task : Type := mk_work_task {
  w_seq : Z; w_id : string; w_spec : task_spec; w_state : string; w_claim : task_claim;
  w_run : task_run; w_usage : task_usage; w_sigs : task_sigs; w_note : string }.

Definition w_agent (t : work_task) : option string := cl_agent (w_claim t).
Definition w_files (t : work_task) : string := sp_files (w_spec t).
Definition w_card (t : work_task) : option string := sp_card (w_spec t).

Record scope_row : Type := mk_scope_row {
  sc_id : string; sc_kind : string; sc_parent : option string; sc_task : string;
  sc_agent : option string; sc_created : Z; sc_updated : Z }.

Record history_row : Type := mk_history_row {
  jh_seq : Z; jh_task : string; jh_full : option string; jh_head : option string;
  jh_prog : option string; jh_tool : option string; jh_weight : f64; jh_status : option Z;
  jh_started : Z; jh_ended : Z; jh_cpu_time : option f64; jh_rss_peak : option Z;
  jh_requested : option Z }.

Record timer_row : Type := mk_timer_row {
  tm_id : string; tm_owner : string; tm_spec : string; tm_template : string; tm_enabled : bool;
  tm_next_fire : option Z; tm_last_fire : option Z; tm_fired : Z; tm_created : Z }.

Record mark_row : Type := mk_mark_row { mk_key : string; mk_last : Z; mk_count : Z }.

(** The tables of the work queue. *)
Record work_tables : Type := mk_work_tables {
  work_tasks : list work_task;
  work_seq : Z;
  work_scopes : list scope_row;
  job_history : list history_row;
  history_seq : Z;
  timers : list timer_row;
  reconcile_marks : list mark_row;
  work_state : list (string * string) }.

Definition empty_work : work_tables := mk_work_tables [] 0 [] [] 0 [] [] [].

Record sprint_row : Type := mk_sprint_row {
  sn_id : string; sn_name : string; sn_goal : string; sn_starts : Z; sn_ends : Z;
  sn_state : string }.

Record status_row : Type := mk_status_row {
  su_pk : string; su_harness : string; su_state : string; su_folder : string;
  su_matter : string; su_ts : Z }.

(** Sprints and statuses. *)
Record team_tables : Type := mk_team_tables {
  sprints : list sprint_row;
  sprint_cards : list (string * string);
  statuses : list status_row }.

Definition empty_team : team_tables := mk_team_tables [] [] [].

Record policy_row : Type := mk_policy_row {
  pr_team : string; pr_lane : string; pr_json : string; pr_updated : Z; pr_by : string }.

Record db : Type := mk_db {
  identities : list ident;
  nonces : list nonce_row;
  events : list event;
  event_seq : Z;
  cards : list card;
  evidence : list evidence_row;
  approvals : list approval;
  card_deps : list dep;
  card_links : list link;
  channels : list channel;
  members : list member;
  channel_keys : list key_row;
  rotations : list rotation_row;
  posts : post_tables;
  pools : list pool;
  leases : list lease;
  work : work_tables;
  policies : list policy_row;
  notices : list notice;
  notice_seq : Z;
  work_settings : option string;
  team : team_tables }.

(** A fresh database. *)
Definition empty_db : db :=
  mk_db [] [] [] 0 [] [] [] [] [] [] [] [] [] empty_posts [] [] empty_work [] [] 0 None empty_team.

(** ** Writing one table *)

Definition set_identities (t : list ident) (d : db) : db :=
  mk_db t (nonces d) (events d) (event_seq d) (cards d) (evidence d) (approvals d)
    (card_deps d) (card_links d) (channels d) (members d) (channel_keys d) (rotations d)
    (posts d) (pools d) (leases d) (work d) (policies d) (notices d) (notice_seq d)
    (work_settings d) (team d).
Definition set_nonces (t : list nonce_row) (d : db) : db :=
  mk_db (identities d) t (events d) (event_seq d) (cards d) (evidence d) (approvals d)
    (card_deps d) (card_links d) (channels d) (members d) (channel_keys d) (rotations d)
    (posts d) (pools d) (leases d) (work d) (policies d) (notices d) (notice_seq d)
    (work_settings d) (team d).
Definition set_cards (t : list card) (d : db) : db :=
  mk_db (identities d) (nonces d) (events d) (event_seq d) t (evidence d) (approvals d)
    (card_deps d) (card_links d) (channels d) (members d) (channel_keys d) (rotations d)
    (posts d) (pools d) (leases d) (work d) (policies d) (notices d) (notice_seq d)
    (work_settings d) (team d).
Definition set_evidence (t : list evidence_row) (d : db) : db :=
  mk_db (identities d) (nonces d) (events d) (event_seq d) (cards d) t (approvals d)
    (card_deps d) (card_links d) (channels d) (members d) (channel_keys d) (rotations d)
    (posts d) (pools d) (leases d) (work d) (policies d) (notices d) (notice_seq d)
    (work_settings d) (team d).
Definition set_approvals (t : list approval) (d : db) : db :=
  mk_db (identities d) (nonces d) (events d) (event_seq d) (cards d) (evidence d) t
    (card_deps d) (card_links d) (channels d) (members d) (channel_keys d) (rotations d)
    (posts d) (pools d) (leases d) (work d) (policies d) (notices d) (notice_seq d)
    (work_settings d) (team d).
Definition set_deps (t : list dep) (d : db) : db :=
  mk_db (identities d) (nonces d) (events d) (event_seq d) (cards d) (evidence d)
    (approvals d) t (card_links d) (channels d) (members d) (channel_keys d) (rotations d)
    (posts d) (pools d) (leases d) (work d) (policies d) (notices d) (notice_seq d)
    (work_settings d) (team d).
Definition set_links (t : list link) (d : db) : db :=
  mk_db (identities d) (nonces d) (events d) (event_seq d) (cards d) (evidence d)
    (approvals d) (card_deps d) t (channels d) (members d) (channel_keys d) (rotations d)
    (posts d) (pools d) (leases d) (work d) (policies d) (notices d) (notice_seq d)
    (work_settings d) (team d).
Definition set_channels (t : list channel) (d : db) : db :=
  mk_db (identities d) (nonces d) (events d) (event_seq d) (cards d) (evidence d)
    (approvals d) (card_deps d) (card_links d) t (members d) (channel_keys d) (rotations d)
    (posts d) (pools d) (leases d) (work d) (policies d) (notices d) (notice_seq d)
    (work_settings d) (team d).
Definition set_members (t : list member) (d : db) : db :=
  mk_db (identities d) (nonces d) (events d) (event_seq d) (cards d) (evidence d)
    (approvals d) (card_deps d) (card_links d) (channels d) t (channel_keys d) (rotations d)
    (posts d) (pools d) (leases d) (work d) (policies d) (notices d) (notice_seq d)
    (work_settings d) (team d).
Definition set_keys (t : list key_row) (d : db) : db :=
  mk_db (identities d) (nonces d) (events d) (event_seq d) (cards d) (evidence d)
    (approvals d) (card_deps d) (card_links d) (channels d) (members d) t (rotations d)
    (posts d) (pools d) (leases d) (work d) (policies d) (notices d) (notice_seq d)
    (work_settings d) (team d).
Definition set_rotations (t : list rotation_row) (d : db) : db :=
  mk_db (identities d) (nonces d) (events d) (event_seq d) (cards d) (evidence d)
    (approvals d) (card_deps d) (card_links d) (channels d) (members d) (channel_keys d) t
    (posts d) (pools d) (leases d) (work d) (policies d) (notices d) (notice_seq d)
    (work_settings d) (team d).
Definition set_posts (t : post_tables) (d : db) : db :=
  mk_db (identities d) (nonces d) (events d) (event_seq d) (cards d) (evidence d)
    (approvals d) (card_deps d) (card_links d) (channels d) (members d) (channel_keys d)
    (rotations d) t (pools d) (leases d) (work d) (policies d) (notices d)
    (notice_seq d) (work_settings d) (team d).
Definition set_pools (t : list pool) (d : db) : db :=
  mk_db (identities d) (nonces d) (events d) (event_seq d) (cards d) (evidence d)
    (approvals d) (card_deps d) (card_links d) (channels d) (members d) (channel_keys d)
    (rotations d) (posts d) t (leases d) (work d) (policies d) (notices d)
    (notice_seq d) (work_settings d) (team d).
Definition set_leases (t : list lease) (d : db) : db :=
  mk_db (identities d) (nonces d) (events d) (event_seq d) (cards d) (evidence d)
    (approvals d) (card_deps d) (card_links d) (channels d) (members d) (channel_keys d)
    (rotations d) (posts d) (pools d) t (work d) (policies d) (notices d) (notice_seq d)
    (work_settings d) (team d).
Definition set_policies (t : list policy_row) (d : db) : db :=
  mk_db (identities d) (nonces d) (events d) (event_seq d) (cards d) (evidence d)
    (approvals d) (card_deps d) (card_links d) (channels d) (members d) (channel_keys d)
    (rotations d) (posts d) (pools d) (leases d) (work d) t (notices d) (notice_seq d)
    (work_settings d) (team d).
Definition set_events (t : list event) (n : Z) (d : db) : db :=
  mk_db (identities d) (nonces d) t n (cards d) (evidence d) (approvals d) (card_deps d)
    (card_links d) (channels d) (members d) (channel_keys d) (rotations d) (posts d) (pools d)
    (leases d) (work d) (policies d) (notices d) (notice_seq d) (work_settings d) (team d).
Definition set_notices (t : list notice) (n : Z) (d : db) : db :=
  mk_db (identities d) (nonces d) (events d) (event_seq d) (cards d) (evidence d)
    (approvals d) (card_deps d) (card_links d) (channels d) (members d) (channel_keys d)
    (rotations d) (posts d) (pools d) (leases d) (work d) (policies d) t n
    (work_settings d) (team d).
Definition set_work (t : work_tables) (d : db) : db :=
  mk_db (identities d) (nonces d) (events d) (event_seq d) (cards d) (evidence d)
    (approvals d) (card_deps d) (card_links d) (channels d) (members d) (channel_keys d)
    (rotations d) (posts d) (pools d) (leases d) t (policies d) (notices d) (notice_seq d)
    (work_settings d) (team d).
Definition set_settings (t : option string) (d : db) : db :=
  mk_db (identities d) (nonces d) (events d) (event_seq d) (cards d) (evidence d)
    (approvals d) (card_deps d) (card_links d) (channels d) (members d) (channel_keys d)
    (rotations d) (posts d) (pools d) (leases d) (work d) (policies d) (notices d) (notice_seq d)
    t (team d).
Definition set_team (t : team_tables) (d : db) : db :=
  mk_db (identities d) (nonces d) (events d) (event_seq d) (cards d) (evidence d)
    (approvals d) (card_deps d) (card_links d) (channels d) (members d) (channel_keys d)
    (rotations d) (posts d) (pools d) (leases d) (work d) (policies d) (notices d) (notice_seq d)
    (work_settings d) t.

(** The tables of [posts], each on its own. *)

Definition set_messages (t : list message) (d : db) : db :=
  let p := posts d in set_posts (mk_posts t (message_attachments p) (blobs p) (blob_uploads p)
    (reactions p) (knowledge p) (cursors p)) d.
Definition set_attachments (t : list attachment_row) (d : db) : db :=
  let p := posts d in set_posts (mk_posts (messages p) t (blobs p) (blob_uploads p)
    (reactions p) (knowledge p) (cursors p)) d.
Definition set_blobs (t : list blob) (d : db) : db :=
  let p := posts d in set_posts (mk_posts (messages p) (message_attachments p) t (blob_uploads p)
    (reactions p) (knowledge p) (cursors p)) d.
Definition set_uploads (t : list upload) (d : db) : db :=
  let p := posts d in set_posts (mk_posts (messages p) (message_attachments p) (blobs p) t
    (reactions p) (knowledge p) (cursors p)) d.
Definition set_reactions (t : list reaction_row) (d : db) : db :=
  let p := posts d in set_posts (mk_posts (messages p) (message_attachments p) (blobs p)
    (blob_uploads p) t (knowledge p) (cursors p)) d.
Definition set_knowledge (t : list note_row) (d : db) : db :=
  let p := posts d in set_posts (mk_posts (messages p) (message_attachments p) (blobs p)
    (blob_uploads p) (reactions p) t (cursors p)) d.
Definition set_cursors (t : list cursor) (d : db) : db :=
  let p := posts d in set_posts (mk_posts (messages p) (message_attachments p) (blobs p)
    (blob_uploads p) (reactions p) (knowledge p) t) d.

(** The tables of [work], each on its own. *)

Definition set_tasks (t : list work_task) (n : Z) (d : db) : db :=
  let w := work d in set_work (mk_work_tables t n (work_scopes w) (job_history w) (history_seq w)
    (timers w) (reconcile_marks w) (work_state w)) d.
Definition set_scopes (t : list scope_row) (d : db) : db :=
  let w := work d in set_work (mk_work_tables (work_tasks w) (work_seq w) t (job_history w)
    (history_seq w) (timers w) (reconcile_marks w) (work_state w)) d.
Definition set_history (t : list history_row) (n : Z) (d : db) : db :=
  let w := work d in set_work (mk_work_tables (work_tasks w) (work_seq w) (work_scopes w) t n
    (timers w) (reconcile_marks w) (work_state w)) d.
Definition set_timers (t : list timer_row) (d : db) : db :=
  let w := work d in set_work (mk_work_tables (work_tasks w) (work_seq w) (work_scopes w)
    (job_history w) (history_seq w) t (reconcile_marks w) (work_state w)) d.
Definition set_marks (t : list mark_row) (d : db) : db :=
  let w := work d in set_work (mk_work_tables (work_tasks w) (work_seq w) (work_scopes w)
    (job_history w) (history_seq w) (timers w) t (work_state w)) d.
Definition set_work_state (t : list (string * string)) (d : db) : db :=
  let w := work d in set_work (mk_work_tables (work_tasks w) (work_seq w) (work_scopes w)
    (job_history w) (history_seq w) (timers w) (reconcile_marks w) t) d.

(** ** Transactions *)

Definition tx (A : Type) : Type := db → result StoreError (A * db).

#[export] Instance tx_ret : MRet tx := λ A a d, Ok (a, d).
#[export] Instance tx_bind : MBind tx := λ A B f m d,
  match m d with Ok (a, d') => f a d' | Err e => Err e end.

Definition fail {A} (e : StoreError) : tx A := λ _, Err e.
Definition query {A} (f : db → A) : tx A := λ d, Ok (f d, d).
Definition execute (f : db → db) : tx unit := λ d, Ok (tt, f d).
Definition lift {A} (r : result StoreError A) : tx A := λ d,
  match r with Ok a => Ok (a, d) | Err e => Err e end.
Definition guard (b : bool) (e : StoreError) : tx unit := if b then fail e else mret tt.

(** [BEGIN IMMEDIATE] … [COMMIT], or a roll back when the body returns an
    error: the database then is the one before. *)
Definition transact {A} (body : tx A) (d : db) : result StoreError A * db :=
  match body d with
  | Ok (a, d') => (Ok a, d')
  | Err e => (Err e, d)
  end.

(** [Store::append]: the sequence number is [AUTOINCREMENT]. *)
Definition append (now : Z) (actor kind subject : string) (data : Value) : tx Z :=
  n ← query event_seq;
  execute (λ d, set_events (events d ++ [mk_event (n + 1) now actor kind subject data]) (n + 1) d) ≫= λ _,
  mret (n + 1)%Z.

(** The database after an event was appended. *)
Definition logged (now : Z) (actor kind subject : string) (data : Value) (d : db) : db :=
  set_events (events d ++ [mk_event (event_seq d + 1) now actor kind subject data])
    (event_seq d + 1) d.

(** ** JSON arguments *)

(** [serde_json::from_str] to a [Value]. *)
Class JsonText : Type := { parse_json : string → option Value }.

(** [Value::get] with a string, [as_str], [as_i64] and [as_f64]. *)
Definition vget (key : string) (v : Value) : option Value :=
  match v with VObject m => jget key m | _ => None end.
Definition v_str (v : Value) : option string :=
  match v with VString s => Some s | _ => None end.
Definition v_i64 (v : Value) : option Z :=
  match v with VNumber n => as_i64 n | _ => None end.
Definition v_f64 (v : Value) : option f64 :=
  match v with VNumber n => as_f64 n | _ => None end.

(** ** Primary keys *)

Section PrimaryKey.
Context {R K : Type} (key : R → K).

Lemma key_inj (t : list R) x y :
  NoDup (key <$> t) → x ∈ t → y ∈ t → key x = key y → x = y.
Proof.
  induction t as [|z t IH]; intros Hd Hx Hy E; [by apply elem_of_nil in Hx|].
  cbn in Hd. apply NoDup_cons in Hd as [Hn Hd].
  apply elem_of_cons in Hx as [->|Hx], Hy as [->|Hy]; auto.
  - destruct Hn. rewrite E. by apply list_elem_of_fmap_2.
  - destruct Hn. rewrite <- E. by apply list_elem_of_fmap_2.
Qed.

(** An update that keeps the key keeps the keys. *)
Lemma keys_update (f : R → R) (t : list R) :
  (∀ x, key (f x) = key x) → key <$> map f t = key <$> t.
Proof. intros H. induction t as [|x t IH]; cbn; [done|]. by rewrite H, IH. Qed.

Lemma keys_insert (t : list R) x :
  NoDup (key <$> t) → (∀ y, y ∈ t → key y ≠ key x) → NoDup (key <$> t ++ [x]).
Proof.
  intros Hd Hn. rewrite fmap_app. apply NoDup_app. split_and!; [done| |apply NoDup_singleton].
  intros k Hk Hx. apply list_elem_of_fmap in Hk as (y & -> & Hy).
  apply list_elem_of_singleton in Hx. by destruct (Hn y Hy).
Qed.

Lemma keys_delete (P : R → Prop) `{∀ x, Decision (P x)} (t : list R) :
  NoDup (key <$> t) → NoDup (key <$> filter P t).
Proof. intros Hd. eapply sublist_NoDup; [done|]. apply fmap_sublist, sublist_filter. Qed.
End PrimaryKey.

(** ** EXISTS *)

Lemma existsb_elem {A} (f : A → bool) l : existsb f l = true ↔ ∃ x, x ∈ l ∧ f x = true.
Proof. rewrite existsb_exists. by setoid_rewrite list_elem_of_In. Qed.

Lemma bool_filter_sublist {A} (f : A → bool) l : sublist (List.filter f l) l.
Proof. induction l as [|x l IH]; cbn; [done|]. destruct (f x); by constructor. Qed.

Lemma existsb_none {A} (f : A → bool) l x : existsb f l = false → x ∈ l → f x = false.
Proof.
  intros H Hx. destruct (f x) eqn:E; [|done]. rewrite <- H. symmetry. apply existsb_elem. eauto.
Qed.

(** ** Inversion *)

Lemma tx_bind_Ok {A B} (m : tx A) (f : A → tx B) d b d' :
  (m ≫= f) d = Ok (b, d') → ∃ a d1, m d = Ok (a, d1) ∧ f a d1 = Ok (b, d').
Proof. unfold mbind, tx_bind. destruct (m d) as [[a d1]|]; naive_solver. Qed.

Lemma query_Ok {A} (f : db → A) d a d' : query f d = Ok (a, d') → a = f d ∧ d' = d.
Proof. unfold query. naive_solver. Qed.

Lemma execute_Ok f d u d' : execute f d = Ok (u, d') → d' = f d.
Proof. unfold execute. naive_solver. Qed.

Lemma guard_Ok b e d u d' : guard b e d = Ok (u, d') → b = false ∧ d' = d.
Proof. unfold guard, fail, mret, tx_ret. destruct b; naive_solver. Qed.

Lemma lift_Ok {A} (r : result StoreError A) d a d' : lift r d = Ok (a, d') → r = Ok a ∧ d' = d.
Proof. unfold lift. destruct r; naive_solver. Qed.

Lemma mret_Ok {A} (a b : A) (d d' : db) : (mret a : tx A) d = Ok (b, d') → b = a ∧ d' = d.
Proof. unfold mret, tx_ret. naive_solver. Qed.

Lemma append_Ok now actor kind subject data d n d' :
  append now actor kind subject data d = Ok (n, d') →
  d' = set_events (events d ++ [mk_event (event_seq d + 1) now actor kind subject data])
         (event_seq d + 1) d.
Proof. unfold append, mbind, tx_bind, query, execute, mret, tx_ret. naive_solver. Qed.

Lemma fail_Ok {A} e d (a : A) d' : fail e d = Ok (a, d') → False.
Proof. done. Qed.

(** Steps through the sequence [H] of one transaction that committed. *)
Ltac tx_step H :=
  lazymatch type of H with
  | (mbind _ _) _ = Ok _ => apply tx_bind_Ok in H as (? & ? & ? & H)
  | mret _ _ = Ok _ => apply mret_Ok in H as [? ?]
  | query _ _ = Ok _ => apply query_Ok in H as [? ?]
  | execute _ _ = Ok _ => apply execute_Ok in H
  | guard _ _ _ = Ok _ => apply guard_Ok in H as [? ?]
  | lift _ _ = Ok _ => apply lift_Ok in H as [? ?]
  | append _ _ _ _ _ _ = Ok _ => apply append_Ok in H
  | fail _ _ = Ok _ => destruct (fail_Ok _ _ _ _ H)
  end.

Ltac tx_inv :=
  repeat match goal with
  | H : ?t ?d = Ok (_, _) |- _ => progress tx_step H; simplify_eq
  end.

(** The first statement of the sequence [H]: its result [a], and what [L] says
    of it. *)
Tactic Notation "step" uconstr(L) "in" hyp(H) "as" simple_intropattern(a) simple_intropattern(p) :=
  let E := fresh "Hstep" in apply tx_bind_Ok in H as (a & ? & E & H); apply L in E as p.
