(* ===== verification/Identity.v ===== *)
(** * agora-store: identities, roles and signed operations

    [src/crates/agora-store/src/identity.rs] and
    [src/crates/agora-store/src/system.rs]: the envelope that authorizes every
    state change, the nonce table behind it, and the operations on the
    identities table.  The signature scheme is the [Prims] of [Crypto]. *)

From S2P Require Import Prelude F64 Strs Bytes Core Crypto Task StoreDb.

Definition MAX_SKEW_MS : Z := 300000.

Arguments MAX_SKEW_MS : simpl never.

Record SignedOp : Type := mk_op {
  o_kind : string; o_subject : string; o_arg : string; o_ts : Z; o_nonce : string;
  o_actor : string; o_sig : string }.

(** [now.abs_diff(ts)] is exact in [u64]. *)
Definition check_clock (now ts : Z) : tx unit :=
  guard (MAX_SKEW_MS <? Z.abs (now - ts))%Z (Invalid "timestamp outside allowed clock skew").

Definition need (role min : Role) : tx unit :=
  guard (role_lt role min) (Transition (Forbidden role)).

Definition signing_bytes (op : SignedOp) : string :=
  canonical "op/v1" [o_kind op; o_subject op; o_arg op; le_bytes 8 (o_ts op); o_nonce op; o_actor op].

Definition actor_hex (op : SignedOp) : string := hex (o_actor op).

(** ** Reading the tables *)

(** The row of the primary key [pk]. *)
Definition find_ident (pk : string) (d : db) : option ident :=
  list_find (λ i, i_pubkey i = pk) (identities d) ≫= λ '(_, i), Some i.

Definition active_role (pk : string) : tx Role :=
  row ← query (find_ident pk);
  match row with
  | None => fail (Invalid "unknown identity")
  | Some i =>
      if i_revoked i then fail (Invalid "identity revoked")
      else lift (ok_or (role_parse (i_role i)) (Invalid "corrupt role in database"))
  end.

Inductive IdentityStatus : Type := Unknown | Active (r : Role) | Revoked.

Definition identity_status (pk : string) : tx IdentityStatus :=
  row ← query (find_ident pk);
  match row with
  | None => mret Unknown
  | Some i =>
      if i_revoked i then mret Revoked
      else lift (ok_or (Active <$> role_parse (i_role i)) (Invalid "corrupt role in database"))
  end.

(** [role='owner' AND revoked=0]. *)
Definition is_active_owner (i : ident) : bool :=
  bool_decide (i_role i = "owner") && negb (i_revoked i).

Definition owner_exists (d : db) : bool := existsb is_active_owner (identities d).

Definition is_system (pk : string) : tx bool :=
  row ← query (find_ident pk);
  mret (from_option i_system false row).

Definition is_last_owner (pk : string) : tx bool :=
  query (λ d, Nat.eqb 0 (length (filter
    (λ i, is_active_owner i = true ∧ i_pubkey i ≠ pk) (identities d)))).

Definition refuse_system_target (target : string) : tx unit :=
  sys ← is_system target;
  guard sys (Refused "the system identity cannot be granted roles or revoked by an agent").

(** ** Nonces *)

Definition prune_nonces (now : Z) (d : db) : db :=
  set_nonces (filter (λ n, sat_i64 (now - 2 * MAX_SKEW_MS) ≤ n_ts n)%Z (nonces d)) d.

(** The primary key of [nonces]. *)
Definition nonce_seen (actor nonce : string) (d : db) : bool :=
  existsb (λ n, bool_decide (n_actor n = actor) && bool_decide (n_nonce n = nonce)) (nonces d).

Definition consume_nonce (now : Z) (actor nonce : string) (ts : Z) : tx unit :=
  execute (prune_nonces now) ≫= λ _,
  seen ← query (nonce_seen actor nonce);
  guard seen (Invalid "replayed operation") ≫= λ _,
  execute (λ d, set_nonces (nonces d ++ [mk_nonce actor nonce ts]) d).

(** ** Authorization *)

Section Operations.
Context `{P : Prims}.

(** The caps both envelopes check first. *)
Definition check_caps (op : SignedOp) (kind : string) : tx unit :=
  guard (negb (bool_decide (o_kind op = kind))) (Invalid "wrong operation kind") ≫= λ _,
  guard (is_empty_str (o_nonce op) || (128 <? str_len (o_nonce op))%Z)
    (Invalid "nonce must be 1..=128 bytes") ≫= λ _,
  guard (256 <? str_len (o_subject op))%Z (Invalid "subject longer than 256 bytes") ≫= λ _,
  guard (64 * 1024 <? str_len (o_arg op))%Z (Invalid "arg longer than 64 KiB").

Definition verify_op (op : SignedOp) : tx unit :=
  lift match verify (o_actor op) (signing_bytes op) (o_sig op) with
       | Ok u => Ok u
       | Err e => Err (StoreCrypto e)
       end.

Definition authorize (now : Z) (op : SignedOp) (kind : string) : tx Role :=
  check_caps op kind ≫= λ _,
  check_clock now (o_ts op) ≫= λ _,
  verify_op op ≫= λ _,
  sys ← is_system (o_actor op);
  guard sys (Transition (Forbidden Observer)) ≫= λ _,
  role ← active_role (o_actor op);
  consume_nonce now (o_actor op) (o_nonce op) (o_ts op) ≫= λ _,
  mret role.

Definition SYSTEM_KINDS : list string :=
  ["job.start"; "job.finish"; "job.note"; "card.job_sync"; "timer.fire"; "reconcile.expire";
   "reconcile.notice"; "reconcile.reclaim"; "reconcile.blocker"; "reconcile.admission";
   "reconcile.quiet_close"; "reconcile.claim_expire"].

Definition is_current_system (pk : string) : tx bool :=
  query (λ d, existsb (λ i, bool_decide (i_pubkey i = pk) && i_system i && negb (i_revoked i))
    (identities d)).

Definition stored_role_or_observer (pk : string) : tx Role :=
  row ← query (find_ident pk);
  match row with
  | None => mret Observer
  | Some i => lift (ok_or (role_parse (i_role i)) (Invalid "corrupt role in database"))
  end.

Definition authorize_system (now : Z) (op : SignedOp) (kind : string) : tx unit :=
  check_caps op kind ≫= λ _,
  check_clock now (o_ts op) ≫= λ _,
  guard (negb (bool_decide (kind ∈ SYSTEM_KINDS))) (Transition (Forbidden Observer)) ≫= λ _,
  verify_op op ≫= λ _,
  current ← is_current_system (o_actor op);
  (if negb current
   then role ← stored_role_or_observer (o_actor op); fail (Transition (Forbidden role))
   else mret tt) ≫= λ _,
  consume_nonce now (o_actor op) (o_nonce op) (o_ts op).

(** ** Operations on identities *)

(** [UPDATE identities SET … WHERE pubkey=?]. *)
Definition update_ident (pk : string) (f : ident → ident) (d : db) : db :=
  set_identities (map (λ i, if decide (i_pubkey i = pk) then f i else i) (identities d)) d.

Definition with_role (r : string) (i : ident) : ident :=
  mk_ident (i_pubkey i) (i_label i) r (i_revoked i) (i_first_seen i) (i_system i).
Definition with_revoked (b : bool) (i : ident) : ident :=
  mk_ident (i_pubkey i) (i_label i) (i_role i) b (i_first_seen i) (i_system i).

Definition insert_ident (i : ident) (d : db) : db :=
  set_identities (identities d ++ [i]) d.

(** [INSERT OR IGNORE]; the column defaults are role [worker], not revoked, not
    system. *)
Definition register_identity (now : Z) (pk label : string) : tx unit :=
  row ← query (find_ident pk);
  match row with
  | Some _ => mret tt
  | None => execute (insert_ident (mk_ident pk label "worker" false now false))
  end.

Definition no_data : Value := VObject [].

Definition bootstrap_owner (now : Z) (pk : string) : tx unit :=
  has_owner ← query (λ d, existsb (λ i, bool_decide (i_role i = "owner")) (identities d));
  guard has_owner (Invalid "an owner already exists") ≫= λ _,
  row ← query (find_ident pk);
  execute (match row with
           | None => insert_ident (mk_ident pk "owner" (role_as_str Owner) false now false)
           | Some _ => update_ident pk (λ i, with_revoked false (with_role "owner" i))
           end) ≫= λ _,
  append now (hex pk) "identity.owner" (hex pk) no_data ≫= λ _,
  mret tt.

Definition role_of (pk : string) : tx Role := active_role pk.

Definition grant_role (now : Z) (op : SignedOp) : tx unit :=
  actor_role ← authorize now op "role.grant";
  need actor_role Controller ≫= λ _,
  target ← lift (ok_or (unhex32 (o_subject op)) (Invalid "subject must be a 64-char hex key"));
  refuse_system_target target ≫= λ _,
  new ← lift (ok_or (role_parse (o_arg op)) (Invalid "unknown role"));
  target_role ← active_role target;
  (if role_le Controller target_role then need actor_role Owner else mret tt) ≫= λ _,
  (if role_lt Supervisor new then need actor_role Owner else mret tt) ≫= λ _,
  (if bool_decide (target_role = Owner) && negb (bool_decide (new = Owner))
   then last ← is_last_owner target; guard last (Invalid "cannot remove the last owner")
   else mret tt) ≫= λ _,
  execute (update_ident target (with_role (role_as_str new))) ≫= λ _,
  append now (actor_hex op) "role.granted" (hex target)
    (VObject [("role", VString (role_as_str new))]) ≫= λ _,
  mret tt.

(** [is_encrypted]: the channel has key rows. *)
Definition is_encrypted (channel : string) (d : db) : bool :=
  existsb (λ k, bool_decide (k_channel k = channel)) (channel_keys d).

(** The channels of a key, in order. *)
Definition channels_of (pk : string) (d : db) : list string :=
  sort_by String.compare (m_channel <$> filter (λ m, m_pubkey m = pk) (members d)).

(** [INSERT OR IGNORE INTO channel_rotation]. *)
Definition flag_rotation (now : Z) (target : string) (d : db) (channel : string) : db :=
  if existsb (λ r, bool_decide (r_channel r = channel)) (rotations d) then d
  else set_rotations (rotations d ++ [mk_rotation channel now ("revoked " +:+ hex target)]) d.

Definition revoke_identity (now : Z) (op : SignedOp) : tx unit :=
  actor_role ← authorize now op "identity.revoke";
  need actor_role Controller ≫= λ _,
  target ← lift (ok_or (unhex32 (o_subject op)) (Invalid "subject must be a 64-char hex key"));
  refuse_system_target target ≫= λ _,
  target_role ← active_role target;
  (if role_le Controller target_role then need actor_role Owner else mret tt) ≫= λ _,
  (if bool_decide (target_role = Owner)
   then last ← is_last_owner target; guard last (Invalid "cannot remove the last owner")
   else mret tt) ≫= λ _,
  channels ← query (channels_of target);
  rotation ← query (λ d, filter (λ c, is_encrypted c d = true) channels);
  execute (λ d, foldl (flag_rotation now target) d rotation) ≫= λ _,
  execute (λ d, set_members (filter (λ m, m_pubkey m ≠ target) (members d)) d) ≫= λ _,
  execute (update_ident target (with_revoked true)) ≫= λ _,
  append now (actor_hex op) "identity.revoked" (hex target)
    (VObject [("channels", VNumber (NInt (Z.of_nat (length channels))));
              ("rotation", VArray (map VString rotation))]) ≫= λ _,
  mret tt.

Definition register_system_identity (now : Z) (pk : string) : tx unit :=
  existing ← query (find_ident pk);
  let go :=
    execute (λ d, set_identities
      (map (λ i, if i_system i && negb (bool_decide (i_pubkey i = pk)) then with_revoked true i else i)
         (identities d)) d) ≫= λ _,
    execute (match existing with
             | None => insert_ident (mk_ident pk "system" "observer" false now true)
             | Some _ => update_ident pk (λ i, mk_ident (i_pubkey i) (i_label i) "observer" false
                           (i_first_seen i) true)
             end) ≫= λ _,
    append now (hex pk) "identity.system" (hex pk) no_data ≫= λ _,
    mret tt in
  match existing with
  | Some i =>
      if i_system i && negb (i_revoked i) && bool_decide (i_role i = "observer") then mret tt
      else if negb (i_system i)
      then fail (Invalid "the system key is already registered as a regular identity")
      else go
  | None => go
  end.

(** [ORDER BY first_seen DESC LIMIT 1]; a blob that is not 32 bytes is none. *)
Definition system_identity (d : db) : option string :=
  match sort_by (λ a b, Z.compare (i_first_seen b) (i_first_seen a))
          (filter (λ i, i_system i = true ∧ i_revoked i = false) (identities d)) with
  | [] => None
  | i :: _ => if Nat.eqb (String.length (i_pubkey i)) 32 then Some (i_pubkey i) else None
  end.

End Operations.

(** ** What an authorization has checked *)

Lemma find_ident_Some pk d i :
  find_ident pk d = Some i → i ∈ identities d ∧ i_pubkey i = pk.
Proof.
  unfold find_ident. destruct (list_find _ _) as [[n j]|] eqn:E; cbn; [|done].
  intros [= ->]. apply list_find_Some in E as (H & ? & _).
  by split; [eapply list_elem_of_lookup_2|].
Qed.

Lemma find_ident_None pk d i :
  find_ident pk d = None → i ∈ identities d → i_pubkey i ≠ pk.
Proof.
  unfold find_ident. destruct (list_find _ _) as [[n j]|] eqn:E; cbn; [done|].
  apply list_find_None in E. rewrite Forall_forall in E. auto.
Qed.

Lemma find_ident_NoDup d i :
  NoDup (i_pubkey <$> identities d) → i ∈ identities d → find_ident (i_pubkey i) d = Some i.
Proof.
  intros Hd Hi. destruct (find_ident (i_pubkey i) d) as [j|] eqn:E.
  - apply find_ident_Some in E as [Hj E]. f_equal.
    by eapply (key_inj i_pubkey (identities d)).
  - by destruct (find_ident_None _ _ _ E Hi).
Qed.

Lemma active_role_Ok pk d r d' :
  active_role pk d = Ok (r, d') →
  d' = d ∧ ∃ i, find_ident pk d = Some i ∧ i_revoked i = false ∧ role_parse (i_role i) = Some r.
Proof.
  unfold active_role. intros H. apply tx_bind_Ok in H as (row & d1 & Hq & H).
  apply query_Ok in Hq as [-> ->]. destruct (find_ident pk d) as [i|]; [|done].
  destruct (i_revoked i) eqn:E; [done|]. apply lift_Ok in H as [H ->].
  split; [done|]. exists i. destruct (role_parse (i_role i)); naive_solver.
Qed.

Lemma is_system_Ok pk d b d' :
  is_system pk d = Ok (b, d') → d' = d ∧ b = from_option i_system false (find_ident pk d).
Proof. unfold is_system. intros H. tx_inv. done. Qed.

Lemma is_last_owner_Ok pk d b d' :
  is_last_owner pk d = Ok (b, d') →
  d' = d ∧ (b = false → ∃ i, i ∈ identities d ∧ is_active_owner i = true ∧ i_pubkey i ≠ pk).
Proof.
  unfold is_last_owner. intros [-> ->]%query_Ok. split; [done|].
  intros H%Nat.eqb_neq. destruct (filter _ _) as [|i l] eqn:E; [done|].
  exists i. apply and_comm. assert (i ∈ filter (λ i, is_active_owner i = true ∧ i_pubkey i ≠ pk) (identities d)) as Hi.
  { rewrite E. by left. }
  apply list_elem_of_filter in Hi. naive_solver.
Qed.

Lemma need_Ok r m d u d' : need r m d = Ok (u, d') → d' = d ∧ role_le m r = true.
Proof.
  unfold need. intros [H ->]%guard_Ok. split; [done|].
  unfold role_lt, role_le in *. apply Nat.ltb_ge in H. by apply Nat.leb_le.
Qed.

Lemma if_need_Ok (b : bool) r m d u d' :
  (if b then need r m else mret tt) d = Ok (u, d') → d' = d ∧ (b = true → role_le m r = true).
Proof. destruct b; [intros [-> ?]%need_Ok; auto|by intros [_ ->]%mret_Ok]. Qed.

Lemma refuse_system_target_Ok t d u d' :
  refuse_system_target t d = Ok (u, d') → d' = d ∧ from_option i_system false (find_ident t d) = false.
Proof.
  unfold refuse_system_target. intros H. apply tx_bind_Ok in H as (b & d1 & Hs & H).
  apply is_system_Ok in Hs as [-> ->]. by apply guard_Ok in H as [? ->].
Qed.

(** The database after a nonce was recorded. *)
Definition with_nonce (now : Z) (op : SignedOp) (d : db) : db :=
  set_nonces (nonces (prune_nonces now d) ++ [mk_nonce (o_actor op) (o_nonce op) (o_ts op)]) d.

Lemma consume_nonce_Ok now actor nonce ts d u d' :
  consume_nonce now actor nonce ts d = Ok (u, d') →
  nonce_seen actor nonce (prune_nonces now d) = false ∧
  d' = set_nonces (nonces (prune_nonces now d) ++ [mk_nonce actor nonce ts]) d.
Proof. unfold consume_nonce. intros H. tx_inv. split; [done|]. by destruct d. Qed.

Section AuthorizeLemmas.
Context `{P : Prims}.

Record authorized (now : Z) (op : SignedOp) (kind : string) (role : Role) (d : db) : Prop := {
  au_kind : o_kind op = kind;
  au_clock : (Z.abs (now - o_ts op) ≤ MAX_SKEW_MS)%Z;
  au_sig : verify (o_actor op) (signing_bytes op) (o_sig op) = Ok tt;
  au_role : ∃ i, find_ident (o_actor op) d = Some i ∧ i_revoked i = false ∧
              i_system i = false ∧ role_parse (i_role i) = Some role;
  au_fresh : nonce_seen (o_actor op) (o_nonce op) (prune_nonces now d) = false }.

Lemma verify_op_Ok op d u d' :
  verify_op op d = Ok (u, d') →
  d' = d ∧ verify (o_actor op) (signing_bytes op) (o_sig op) = Ok tt.
Proof.
  unfold verify_op. intros [H ->]%lift_Ok. split; [done|].
  destruct (verify _ _ _) as [[]|]; [done|done].
Qed.

Lemma check_caps_Ok op kind d u d' :
  check_caps op kind d = Ok (u, d') → d' = d ∧ o_kind op = kind.
Proof.
  unfold check_caps. intros H. tx_inv. split; [done|].
  by match goal with H : negb (bool_decide (o_kind op = kind)) = false |- _ =>
    apply negb_false_iff, bool_decide_eq_true in H end.
Qed.

Lemma check_clock_Ok now ts d u d' :
  check_clock now ts d = Ok (u, d') → d' = d ∧ (Z.abs (now - ts) ≤ MAX_SKEW_MS)%Z.
Proof. unfold check_clock. intros [H ->]%guard_Ok. split; [done|]. by apply Z.ltb_ge in H. Qed.

Lemma authorize_Ok now op kind d role d' :
  authorize now op kind d = Ok (role, d') →
  authorized now op kind role d ∧ d' = with_nonce now op d.
Proof.
  unfold authorize. intros H.
  apply tx_bind_Ok in H as (? & ? & Hx & H). apply check_caps_Ok in Hx as [-> ?].
  apply tx_bind_Ok in H as (? & ? & Hx & H). apply check_clock_Ok in Hx as [-> ?].
  apply tx_bind_Ok in H as (? & ? & Hx & H). apply verify_op_Ok in Hx as [-> ?].
  apply tx_bind_Ok in H as (b & ? & Hx & H). apply is_system_Ok in Hx as [-> ->].
  apply tx_bind_Ok in H as (? & ? & Hx & H). apply guard_Ok in Hx as [Hs ->].
  apply tx_bind_Ok in H as (r & ? & Hx & H). apply active_role_Ok in Hx as [-> (i & Hi & Hr & Hp)].
  apply tx_bind_Ok in H as (? & ? & Hx & H). apply consume_nonce_Ok in Hx as [? ->].
  apply mret_Ok in H as [-> ->]. split; [|done].
  constructor; try done. exists i. rewrite Hi in Hs. done.
Qed.

Lemma authorize_system_Ok now op kind d u d' :
  authorize_system now op kind d = Ok (u, d') →
  o_kind op = kind ∧ kind ∈ SYSTEM_KINDS ∧ (Z.abs (now - o_ts op) ≤ MAX_SKEW_MS)%Z ∧
  verify (o_actor op) (signing_bytes op) (o_sig op) = Ok tt ∧
  (∃ i, i ∈ identities d ∧ i_pubkey i = o_actor op ∧ i_system i = true ∧ i_revoked i = false) ∧
  nonce_seen (o_actor op) (o_nonce op) (prune_nonces now d) = false ∧
  d' = with_nonce now op d.
Proof.
  unfold authorize_system. intros H.
  apply tx_bind_Ok in H as (? & ? & Hx & H). apply check_caps_Ok in Hx as [-> ?].
  apply tx_bind_Ok in H as (? & ? & Hx & H). apply check_clock_Ok in Hx as [-> ?].
  apply tx_bind_Ok in H as (? & ? & Hx & H). apply guard_Ok in Hx as [Hk ->].
  apply negb_false_iff, bool_decide_eq_true in Hk.
  apply tx_bind_Ok in H as (? & ? & Hx & H). apply verify_op_Ok in Hx as [-> ?].
  apply tx_bind_Ok in H as (b & ? & Hx & H). unfold is_current_system in Hx.
  apply query_Ok in Hx as [-> ->].
  apply tx_bind_Ok in H as (? & ? & Hx & H).
  destruct (existsb _ (identities d)) eqn:Hc; cbn [negb] in Hx; [|tx_inv; naive_solver].
  apply mret_Ok in Hx as [-> ->]. apply consume_nonce_Ok in H as [? ->].
  apply existsb_exists in Hc as (i & Hi & Hc). apply list_elem_of_In in Hi.
  apply andb_prop in Hc as [Hc Hr]. apply andb_prop in Hc as [Hp Hsy].
  apply bool_decide_eq_true in Hp. apply negb_true_iff in Hr.
  split_and!; try done. by exists i.
Qed.

(** What the authorization of a system operation has checked. *)
Record sys_authorized (now : Z) (op : SignedOp) (kind : string) (d : db) : Prop := {
  sy_kind : o_kind op = kind;
  sy_clock : (Z.abs (now - o_ts op) ≤ MAX_SKEW_MS)%Z;
  sy_sig : verify (o_actor op) (signing_bytes op) (o_sig op) = Ok tt;
  sy_ident : ∃ i, i ∈ identities d ∧ i_pubkey i = o_actor op ∧ i_system i = true ∧ i_revoked i = false;
  sy_fresh : nonce_seen (o_actor op) (o_nonce op) (prune_nonces now d) = false }.

Lemma authorize_system_record now op kind d u d' :
  authorize_system now op kind d = Ok (u, d') → sys_authorized now op kind d ∧ d' = with_nonce now op d.
Proof. intros (? & ? & ? & ? & ? & ? & ->)%authorize_system_Ok. done. Qed.

End AuthorizeLemmas.

(** ** The identities table is well formed *)

(** A registered system key that is not revoked. *)
Definition live_system (i : ident) : bool := i_system i && negb (i_revoked i).

(** Keys are unique and 32 bytes, and roles parse.  A system row is an observer,
    unless the first owner was set up with a system key: then it is the only owner
    row.  At most one live system row is an observer, and where an agent is an
    owner there is an agent that is an active owner. *)
Record ident_wf (t : list ident) : Prop := {
  iw_keys : NoDup (i_pubkey <$> t);
  iw_len i : i ∈ t → String.length (i_pubkey i) = 32;
  iw_role i : i ∈ t → is_Some (role_parse (i_role i));
  iw_system i : i ∈ t → i_system i = true → i_role i = "observer" ∨ i_role i = "owner";
  iw_alone i j : i ∈ t → j ∈ t → i_system i = true → i_role i = "owner" → i_role j = "owner" → i = j;
  iw_single i j : i ∈ t → j ∈ t → live_system i = true → live_system j = true →
    i_role i = "observer" → i_role j = "observer" → i = j;
  iw_owner i : i ∈ t → i_role i = "owner" → i_system i = false →
    ∃ j, j ∈ t ∧ is_active_owner j = true ∧ i_system j = false }.

Lemma is_active_owner_true i :
  is_active_owner i = true ↔ i_role i = "owner" ∧ i_revoked i = false.
Proof.
  unfold is_active_owner. rewrite andb_true_iff, bool_decide_eq_true, negb_true_iff. done.
Qed.

(** The row of an agent is no system row. *)
Lemma iw_agent_owner t i j :
  ident_wf t → i ∈ t → i_role i = "owner" → i_system i = false → j ∈ t → i_role j = "owner" → i_system j = false.
Proof.
  intros Hwf Hi Hr Hs Hj Hrj. destruct (i_system j) eqn:E; [|done]. by rewrite (iw_alone _ Hwf j i Hj Hi E Hrj Hr), Hs in E.
Qed.

(** The rows after an update of the one row [i] of the key [pk]. *)
Lemma update_rows t pk f i x :
  NoDup (i_pubkey <$> t) → i ∈ t → i_pubkey i = pk →
  x ∈ map (λ j, if decide (i_pubkey j = pk) then f j else j) t → x = f i ∨ (x ∈ t ∧ i_pubkey x ≠ pk).
Proof.
  intros Hk Hi Hpk Hx. apply list_elem_of_fmap in Hx as (j & -> & Hj).
  case_decide as E; [left|by right]. by rewrite (key_inj i_pubkey t j i Hk Hj Hi) by congruence.
Qed.

(** Updating the one row of a key that is not the system's: the row keeps its
    key and kind, its role parses, it becomes an owner only where no system row is
    one, and either another active owner stays or the row is no owner unless it is
    an active one. *)
Lemma ident_wf_update t pk f i :
  ident_wf t → i ∈ t → i_pubkey i = pk → i_system i = false →
  (∀ j, i_pubkey (f j) = i_pubkey j ∧ i_system (f j) = i_system j) →
  is_Some (role_parse (i_role (f i))) →
  (i_role (f i) = "owner" → ∀ j, j ∈ t → i_system j = true → i_role j ≠ "owner") →
  ((i_role (f i) = "owner" → is_active_owner (f i) = true) ∧
   (is_active_owner i = true → is_active_owner (f i) = true)) ∨
    (∃ j, j ∈ t ∧ is_active_owner j = true ∧ i_system j = false ∧ i_pubkey j ≠ pk) →
  ident_wf (map (λ j, if decide (i_pubkey j = pk) then f j else j) t).
Proof.
  intros [Hk Hl Hr Hs Ha H1 Ho] Hi Hpk Hsys Hf Hrf Hal Hown.
  set (g := λ j, if decide (i_pubkey j = pk) then f j else j).
  assert (∀ j, i_pubkey (g j) = i_pubkey j ∧ i_system (g j) = i_system j) as Hg.
  { intros j. unfold g. case_decide; [apply Hf|done]. }
  assert (∀ j, j ∈ t → i_pubkey j ≠ pk → j ∈ map g t) as Hin.
  { intros j Hj Hn. apply list_elem_of_fmap. exists j. unfold g. by case_decide. }
  assert (f i ∈ map g t) as Hfi. { apply list_elem_of_fmap. exists i. unfold g. by case_decide. }
  assert (i_system (f i) = false) as Hsf by (by rewrite (proj2 (Hf i))).
  pose proof (λ x, update_rows t pk f i x Hk Hi Hpk) as Hinv. fold g in Hinv.
  constructor.
  - rewrite (keys_update i_pubkey g); [done|]. intros j. apply Hg.
  - intros x [->|[? _]]%Hinv; [rewrite (proj1 (Hf i))|]; auto.
  - intros x [->|[? _]]%Hinv; auto.
  - intros x [->|[? _]]%Hinv; auto. congruence.
  - intros x y [->|[Hx _]]%Hinv [->|[Hy _]]%Hinv Sx Rx Ry; [done|congruence| |by apply Ha]. by destruct (Hal Ry x Hx Sx).
  - intros x y [->|[Hx _]]%Hinv [->|[Hy _]]%Hinv; unfold live_system; rewrite ?Hsf; cbn; try done. by apply H1.
  - intros x Hx Hxo Hxs. destruct Hown as [[Hown Hkeep]|(j & ? & ? & ? & ?)]; [|exists j; auto].
    apply Hinv in Hx as [->|[Hx _]]; [exists (f i); auto|].
    destruct (Ho x Hx Hxo Hxs) as (j & Hj & Hoj & Hsj).
    destruct (decide (i_pubkey j = pk)) as [E|E]; [|exists j; auto].
    rewrite (key_inj i_pubkey t j i Hk Hj Hi) in Hoj by congruence. exists (f i). auto.
Qed.

Lemma ident_wf_insert t i :
  ident_wf t → (∀ j, j ∈ t → i_pubkey j ≠ i_pubkey i) → String.length (i_pubkey i) = 32 →
  is_Some (role_parse (i_role i)) → (i_system i = true → i_role i = "observer") →
  (live_system i = true → ∀ j, j ∈ t → live_system j = false) →
  (i_role i = "owner" → i_revoked i = false ∧ ∀ j, j ∈ t → i_role j ≠ "owner") → ident_wf (t ++ [i]).
Proof.
  intros [Hk Hl Hr Hs Ha H1 Ho] Hn Hli Hri Hsi Hlv Hoi.
  assert (∀ x, x ∈ t ++ [i] → x ∈ t ∨ x = i) as Hinv.
  { intros x. rewrite elem_of_app, list_elem_of_singleton. done. }
  constructor.
  - by apply keys_insert.
  - intros x [?| ->]%Hinv; auto.
  - intros x [?| ->]%Hinv; auto.
  - intros x [?| ->]%Hinv; auto.
  - intros x y [Hx| ->]%Hinv [Hy| ->]%Hinv Sx Rx Ry; [by apply Ha| | |done].
    + by destruct (proj2 (Hoi Ry) x Hx).
    + by destruct (proj2 (Hoi Rx) y Hy).
  - intros x y [?| ->]%Hinv [?| ->]%Hinv Lx Ly; auto.
    + by rewrite (Hlv Ly x) in Lx.
    + by rewrite (Hlv Lx y) in Ly.
  - intros x [Hx| ->]%Hinv Hxo Hxs.
    + destruct (Ho x Hx Hxo Hxs) as (j & ? & ?). exists j. rewrite elem_of_app. auto.
    + exists i. rewrite elem_of_app, list_elem_of_singleton, is_active_owner_true. destruct (Hoi Hxo). auto.
Qed.

Lemma role_parse_owner s : role_parse s = Some Owner ↔ s = "owner".
Proof.
  split; [|by intros ->]. intros H. by apply role_parse_Some in H.
Qed.

(** Flagging rotations touches one table. *)
Lemma foldl_flag_identities now target cs d :
  identities (foldl (flag_rotation now target) d cs) = identities d.
Proof.
  revert d. induction cs as [|c cs IH]; intros d; cbn; [done|]. rewrite IH.
  unfold flag_rotation. by destruct (existsb _ _).
Qed.

Section Preservation.
Context `{P : Prims}.

Lemma register_identity_wf now pk label d u d' :
  String.length pk = 32 → ident_wf (identities d) →
  register_identity now pk label d = Ok (u, d') → ident_wf (identities d').
Proof.
  intros Hl Hwf H. unfold register_identity in H.
  apply tx_bind_Ok in H as (row & d1 & Hq & H). apply query_Ok in Hq as [-> ->].
  destruct (find_ident pk d) as [i|] eqn:E; tx_inv; [done|].
  apply ident_wf_insert; cbn; try done; intros j Hj; by eapply find_ident_None.
Qed.

Lemma update_ident_identities pk f d :
  identities (update_ident pk f d) = map (λ j, if decide (i_pubkey j = pk) then f j else j) (identities d).
Proof. done. Qed.

(** Making the row of a key the owner, where there is none. *)
Lemma ident_wf_owner t i :
  ident_wf t → i ∈ t → (∀ j, j ∈ t → i_role j ≠ "owner") →
  ident_wf (map (λ j, if decide (i_pubkey j = i_pubkey i) then with_revoked false (with_role "owner" j) else j) t).
Proof.
  intros [Hk Hl Hr Hs Ha H1 Ho] Hi Hno. set (f := λ j, with_revoked false (with_role "owner" j)).
  set (g := λ j, if decide (i_pubkey j = i_pubkey i) then f j else j).
  pose proof (λ x, update_rows t (i_pubkey i) f i x Hk Hi eq_refl) as Hinv. fold g in Hinv.
  constructor.
  - rewrite (keys_update i_pubkey g); [done|]. intros x. unfold g. by case_decide.
  - intros x [->|[? _]]%Hinv; auto. exact (Hl i Hi).
  - intros x [->|[? _]]%Hinv; [by exists Owner|auto].
  - intros x [->|[? _]]%Hinv; auto.
  - intros x y [->|[Hx _]]%Hinv [->|[Hy _]]%Hinv _ Rx Ry; [done|..]; exfalso; by eapply Hno.
  - intros x y [->|[Hx _]]%Hinv [->|[Hy _]]%Hinv Lx Ly Rx Ry; try done. by apply H1.
  - intros x [->|[Hx _]]%Hinv Hxo Hxs; [|exfalso; by eapply Hno]. exists (f i). split_and!; [|by apply is_active_owner_true|done].
    apply list_elem_of_fmap. exists i. split; [|done]. unfold g. by case_decide.
Qed.

Lemma bootstrap_owner_wf now pk d u d' :
  String.length pk = 32 → ident_wf (identities d) → bootstrap_owner now pk d = Ok (u, d') → ident_wf (identities d').
Proof.
  intros Hl Hwf H. unfold bootstrap_owner in H.
  apply tx_bind_Ok in H as (b & ? & Hq & H). apply query_Ok in Hq as [-> ->].
  apply tx_bind_Ok in H as (? & ? & Hq & H). apply guard_Ok in Hq as [Hno ->].
  apply tx_bind_Ok in H as (row & ? & Hq & H). apply query_Ok in Hq as [-> ->].
  assert (∀ j, j ∈ identities d → i_role j ≠ "owner") as Hno'.
  { intros j Hj Hr. apply not_true_iff_false in Hno. apply Hno, existsb_exists. exists j.
    by rewrite <- list_elem_of_In, bool_decide_eq_true. }
  tx_inv. cbn [identities set_events].
  destruct (find_ident pk d) as [i|] eqn:E.
  - rewrite update_ident_identities. apply find_ident_Some in E as [Hi <-]. by apply ident_wf_owner.
  - apply ident_wf_insert; cbn; try done.
    intros j Hj. by eapply find_ident_None.
Qed.

(** A target that is a live agent, and the row that says so. *)
Lemma target_row target d r :
  ident_wf (identities d) → from_option i_system false (find_ident target d) = false →
  (∃ i, find_ident target d = Some i ∧ i_revoked i = false ∧ role_parse (i_role i) = Some r) →
  ∃ i, i ∈ identities d ∧ i_pubkey i = target ∧ i_system i = false ∧ i_revoked i = false ∧
       role_parse (i_role i) = Some r.
Proof.
  intros Hwf Hs (i & E & Hr & Hp). rewrite E in Hs. apply find_ident_Some in E as [? ?]. eauto 10.
Qed.

(** Another active owner than an agent is an agent too. *)
Lemma another_owner t target i :
  ident_wf t → i ∈ t → i_pubkey i = target → i_system i = false → role_parse (i_role i) = Some Owner →
  (∃ j, j ∈ t ∧ is_active_owner j = true ∧ i_pubkey j ≠ target) →
  ∃ j, j ∈ t ∧ is_active_owner j = true ∧ i_system j = false ∧ i_pubkey j ≠ target.
Proof.
  intros Hwf Hi _ Hs Ho%role_parse_owner (j & Hj & Hao & Hn). exists j. split_and!; try done.
  apply is_active_owner_true in Hao as [Hr _]. exact (iw_agent_owner t i j Hwf Hi Ho Hs Hj Hr).
Qed.

Lemma with_nonce_find now op pk d : find_ident pk (with_nonce now op d) = find_ident pk d.
Proof. done. Qed.

Lemma grant_role_wf now op d u d' :
  ident_wf (identities d) → grant_role now op d = Ok (u, d') → ident_wf (identities d').
Proof.
  intros Hwf H. unfold grant_role in H.
  apply tx_bind_Ok in H as (ar & ? & Hx & H). apply authorize_Ok in Hx as [Hau ->].
  apply tx_bind_Ok in H as (? & ? & Hx & H). apply need_Ok in Hx as [-> _].
  apply tx_bind_Ok in H as (target & ? & Hx & H). apply lift_Ok in Hx as [_ ->].
  apply tx_bind_Ok in H as (? & ? & Hx & H). apply refuse_system_target_Ok in Hx as [-> Hs].
  apply tx_bind_Ok in H as (new & ? & Hx & H). apply lift_Ok in Hx as [_ ->].
  apply tx_bind_Ok in H as (tr & ? & Hx & H). apply active_role_Ok in Hx as [-> Hrow].
  apply tx_bind_Ok in H as (? & d1 & Hx & H). apply if_need_Ok in Hx as [-> _].
  apply tx_bind_Ok in H as (? & d1 & Hx & H). apply if_need_Ok in Hx as [-> Hgrant].
  apply tx_bind_Ok in H as (? & d2 & Hy & H).
  destruct (target_row target (with_nonce now op d) tr Hwf Hs Hrow)
    as (i & Hi & Hpk & Hsys & Hrev & Hp).
  assert (d2 = with_nonce now op d ∧
    (tr = Owner → new ≠ Owner →
     ∃ j, j ∈ identities d ∧ is_active_owner j = true ∧ i_system j = false ∧ i_pubkey j ≠ target)) as [-> Hlast].
  { destruct (bool_decide (tr = Owner) && negb (bool_decide (new = Owner))) eqn:Eb.
    - apply tx_bind_Ok in Hy as (b & ? & Hl & Hy). apply is_last_owner_Ok in Hl as [-> Hl].
      apply guard_Ok in Hy as [-> ->]. split; [done|]. intros -> _. by eapply another_owner; [..|apply Hl].
    - apply mret_Ok in Hy as [_ ->]. split; [done|]. intros -> Hn.
      by rewrite (bool_decide_eq_true_2 (Owner = Owner)), (bool_decide_eq_false_2 (new = Owner)) in Eb. }
  tx_inv. cbn [identities set_events]. rewrite update_ident_identities.
  eapply (ident_wf_update _ (i_pubkey i) _ i); try done.
  { cbn. rewrite role_parse_as_str. eauto. }
  { cbn. intros Hn. assert (new = Owner) as -> by (by destruct new). specialize (Hgrant eq_refl).
    destruct (au_role _ _ _ _ _ Hau) as (a & [Ha _]%find_ident_Some & _ & Hsa & Hra).
    assert (ar = Owner) as -> by (by destruct ar). apply role_parse_owner in Hra.
    intros j Hj Sj Rj. by rewrite (iw_agent_owner _ a j Hwf Ha Hra Hsa Hj Rj) in Sj. }
  rewrite !is_active_owner_true. cbn.
  destruct (decide (new = Owner)) as [->|Hn]; [left; auto|].
  destruct (decide (tr = Owner)) as [->|Ht]; [right; by apply Hlast|left].
  split; [by destruct new|]. intros [Ho _]. apply role_parse_owner in Ho. congruence.
Qed.

Lemma revoke_identity_wf now op d u d' :
  ident_wf (identities d) → revoke_identity now op d = Ok (u, d') → ident_wf (identities d').
Proof.
  intros Hwf H. unfold revoke_identity in H.
  apply tx_bind_Ok in H as (ar & ? & Hx & H). apply authorize_Ok in Hx as [_ ->].
  apply tx_bind_Ok in H as (? & ? & Hx & H). apply need_Ok in Hx as [-> _].
  apply tx_bind_Ok in H as (target & ? & Hx & H). apply lift_Ok in Hx as [_ ->].
  apply tx_bind_Ok in H as (? & ? & Hx & H). apply refuse_system_target_Ok in Hx as [-> Hs].
  apply tx_bind_Ok in H as (tr & ? & Hx & H). apply active_role_Ok in Hx as [-> Hrow].
  apply tx_bind_Ok in H as (? & d1 & Hx & H). apply if_need_Ok in Hx as [-> _].
  apply tx_bind_Ok in H as (? & d2 & Hy & H).
  destruct (target_row target (with_nonce now op d) tr Hwf Hs Hrow)
    as (i & Hi & Hpk & Hsys & Hrev & Hp).
  assert (d2 = with_nonce now op d ∧
    (tr = Owner → ∃ j, j ∈ identities d ∧ is_active_owner j = true ∧ i_system j = false ∧ i_pubkey j ≠ target))
    as [-> Hlast].
  { case_bool_decide.
    - apply tx_bind_Ok in Hy as (b & ? & Hl & Hy). apply is_last_owner_Ok in Hl as [-> Hl].
      apply guard_Ok in Hy as [-> ->]. split; [done|]. intros ->. by eapply another_owner; [..|apply Hl].
    - by apply mret_Ok in Hy as [_ ->]. }
  tx_inv. cbn [identities set_events]. rewrite update_ident_identities. cbn [identities set_members].
  rewrite foldl_flag_identities.
  eapply (ident_wf_update _ (i_pubkey i) _ i); try done.
  { cbn. intros Ho j Hj Sj Rj. by rewrite (iw_agent_owner _ i j Hwf Hi Ho Hsys Hj Rj) in Sj. }
  rewrite !is_active_owner_true. cbn.
  destruct (decide (tr = Owner)) as [->|Ht]; [right; by apply Hlast|left].
  assert (i_role i ≠ "owner"). { intros Ho%role_parse_owner. congruence. }
  naive_solver.
Qed.

(** Revoking every other system row leaves only [pk] able to be live. *)
Lemma ident_wf_retire t pk :
  ident_wf t →
  let t' := map (λ i, if i_system i && negb (bool_decide (i_pubkey i = pk)) then with_revoked true i
                      else i) t in
  ident_wf t' ∧ (∀ j, j ∈ t' → live_system j = true → i_pubkey j = pk) ∧
  i_pubkey <$> t' = i_pubkey <$> t ∧
  (∀ j, j ∈ t' → i_pubkey j = pk → j ∈ t).
Proof.
  intros [Hk Hl Hr Hs Ha H1 Ho]. cbn zeta.
  set (g := λ i, if i_system i && negb (bool_decide (i_pubkey i = pk)) then with_revoked true i else i).
  assert (∀ x, x ∈ map g t → ∃ j, j ∈ t ∧ i_pubkey x = i_pubkey j ∧ i_role x = i_role j ∧
    i_system x = i_system j ∧ (live_system x = true → i_pubkey x = pk ∧ x = j) ∧
    (i_pubkey x = pk → x = j) ∧ x = g j) as Hinv.
  { intros x Hx. apply list_elem_of_fmap in Hx as (j & -> & Hj). exists j. unfold g, live_system.
    destruct (i_system j) eqn:E; cbn [andb]; [|rewrite E; naive_solver].
    case_bool_decide as Ep; cbn; rewrite ?E; naive_solver. }
  assert (i_pubkey <$> map g t = i_pubkey <$> t) as Ek.
  { apply keys_update. intros x. unfold g. by destruct (_ && _). }
  split_and!; [constructor| |done|].
  - by rewrite Ek.
  - intros x (j & ? & -> & _)%Hinv. auto.
  - intros x (j & ? & _ & -> & _)%Hinv. auto.
  - intros x (j & ? & _ & -> & -> & _)%Hinv. auto.
  - intros x y (j & Hj & _ & Rx & Sx & _ & _ & ->)%Hinv (j' & Hj' & _ & Ry & _ & _ & _ & ->)%Hinv S1 R1 R2.
    f_equal. apply Ha; congruence.
  - intros x y (j & Hj & _ & _ & _ & Hx & _)%Hinv (j' & Hj' & _ & _ & _ & Hy & _)%Hinv Lx Ly.
    destruct (Hx Lx) as [? ->], (Hy Ly) as [? ->]. auto.
  - intros x (j & Hj & _ & -> & -> & _)%Hinv Hxo Hxs. destruct (Ho j Hj Hxo Hxs) as (o & Ho1 & Ho2 & Ho3).
    exists o. split; [|done]. apply list_elem_of_fmap. exists o. split; [|done]. unfold g. by rewrite Ho3.
  - intros x (j & ? & _ & _ & _ & Hx & _)%Hinv Lx. by destruct (Hx Lx).
  - intros x (j & ? & _ & _ & _ & _ & Hx & _)%Hinv E. by rewrite (Hx E).
Qed.

(** Making the row of [pk] the live system row. *)
Lemma ident_wf_system t pk i :
  ident_wf t → i ∈ t → i_pubkey i = pk → i_system i = true →
  (∀ j, j ∈ t → live_system j = true → i_pubkey j = pk) →
  ident_wf (map (λ j, if decide (i_pubkey j = pk)
                      then mk_ident (i_pubkey j) (i_label j) "observer" false (i_first_seen j) true
                      else j) t).
Proof.
  intros [Hk Hl Hr Hs Ha H1 Ho] Hi Hpk Hsys Hlive.
  set (f := λ j, mk_ident (i_pubkey j) (i_label j) "observer" false (i_first_seen j) true).
  set (g := λ j, if decide (i_pubkey j = pk) then f j else j).
  pose proof (λ x, update_rows t pk f i x Hk Hi Hpk) as Hinv. fold g in Hinv.
  constructor.
  - rewrite (keys_update i_pubkey g); [done|]. intros x. unfold g. by case_decide.
  - intros x [->|[? _]]%Hinv; auto. exact (Hl i Hi).
  - intros x [->|[? _]]%Hinv; auto.
  - intros x [->|[? _]]%Hinv; auto.
  - intros x y [->|[Hx _]]%Hinv [->|[Hy _]]%Hinv Sx Rx Ry; try done. by apply Ha.
  - intros x y [->|[? Ex]]%Hinv [->|[? Ey]]%Hinv Lx Ly; auto.
    + by destruct Ey; apply Hlive.
    + by destruct Ex; apply Hlive.
  - intros x [->|[Hx _]]%Hinv; [done|]. intros Hxo Hxs. destruct (Ho x Hx Hxo Hxs) as (o & Ho1 & Ho2 & Ho3).
    exists o. split; [|done]. apply list_elem_of_fmap. exists o. split; [|done]. unfold g.
    case_decide as E; [|done]. rewrite (key_inj i_pubkey t o i Hk Ho1 Hi) in Ho3 by congruence. congruence.
Qed.

Lemma register_system_identity_wf now pk d u d' :
  String.length pk = 32 → ident_wf (identities d) →
  register_system_identity now pk d = Ok (u, d') → ident_wf (identities d').
Proof.
  intros Hl Hwf H. unfold register_system_identity in H.
  apply tx_bind_Ok in H as (row & ? & Hq & H). apply query_Ok in Hq as [-> ->].
  destruct (ident_wf_retire _ pk Hwf) as (Hwf' & Hlive & Ek & Hsame).
  destruct (find_ident pk d) as [i|] eqn:E.
  - destruct (i_system i && negb (i_revoked i) && bool_decide (i_role i = "observer")); [by tx_inv|].
    destruct (i_system i) eqn:Esys; cbn [negb] in H; [|done]. tx_inv.
    cbn [identities set_events]. rewrite update_ident_identities. cbn [identities set_identities].
    apply find_ident_Some in E as [Hi Hpk].
    eapply (ident_wf_system _ pk i); try done.
    apply list_elem_of_fmap. exists i. rewrite Esys, bool_decide_eq_true_2 by done. done.
  - tx_inv. apply ident_wf_insert; cbn [i_pubkey i_role i_system i_revoked]; try done.
    + intros j Hj Hpk. by destruct (find_ident_None _ _ _ E (Hsame j Hj Hpk)).
    + intros _ j Hj. destruct (live_system j) eqn:El; [|done]. pose proof (Hlive j Hj El) as Hpk.
      by destruct (find_ident_None _ _ _ E (Hsame j Hj Hpk)).
Qed.
End Preservation.

(** ** Nonces outlive the clock window *)

(** From [d] to [d'] at the clock [now], no nonce young enough to be replayed
    is dropped. *)
Definition keeps_nonces (now : Z) (d d' : db) : Prop :=
  ∀ n, n ∈ nonces d → (i64_min ≤ n_ts n)%Z → (now - 2 * MAX_SKEW_MS ≤ n_ts n)%Z → n ∈ nonces d'.

Lemma keeps_nonces_eq now d d' : nonces d' = nonces d → keeps_nonces now d d'.
Proof. intros E n Hn _ _. by rewrite E. Qed.

Lemma with_nonce_keeps now op d : keeps_nonces now d (with_nonce now op d).
Proof.
  intros n Hn Hm Ht. unfold with_nonce, prune_nonces. cbn [nonces set_nonces].
  apply elem_of_app. left. apply list_elem_of_filter. split; [|done].
  unfold sat_i64. lia.
Qed.

Lemma with_nonce_in now op d :
  mk_nonce (o_actor op) (o_nonce op) (o_ts op) ∈ nonces (with_nonce now op d).
Proof.
  unfold with_nonce. cbn [nonces set_nonces]. apply elem_of_app. right. by apply list_elem_of_singleton.
Qed.

(** A nonce on file within the window is refused. *)
Lemma nonce_seen_kept now op d :
  (i64_min ≤ o_ts op)%Z → (Z.abs (now - o_ts op) ≤ MAX_SKEW_MS)%Z →
  mk_nonce (o_actor op) (o_nonce op) (o_ts op) ∈ nonces d →
  nonce_seen (o_actor op) (o_nonce op) (prune_nonces now d) = true.
Proof.
  intros Hm Hc Hn. unfold nonce_seen, prune_nonces. cbn [nonces set_nonces].
  apply existsb_elem. eexists. split.
  - apply list_elem_of_filter. split; [|exact Hn]. cbn. unfold sat_i64, MAX_SKEW_MS in *. lia.
  - cbn. by rewrite !bool_decide_eq_true_2.
Qed.
