(* ===== verification/Leases.v ===== *)
(** * agora-store: pools, leases and quiet windows

    [src/crates/agora-store/src/leases.rs] and [leases/helpers.rs], with
    [path_depth] of [work_ops/checks.rs] and the settings row of
    [settings_read.rs].  The JSON decoders of the operation arguments and
    SQLite's [SUM] over reals are parameters ([LeaseCodec]). *)

From Stdlib Require Import Ascii Floats.SpecFloat.
From Stdlib Require Import Ascii.
From stdpp Require Import relations.
From S2P Require Import Prelude F64 Strs Core PyFmt Task Graph Civil Claims Settings Bytes.
From S2P Require Import Crypto StoreDb Identity.

(** ** Data *)

Inductive LeaseKind : Type := KPath | KPool | KQuiet.

Definition LeaseKind_as_str (k : LeaseKind) : string :=
  match k with KPath => "path" | KPool => "pool" | KQuiet => "quiet" end.

Definition LeaseKind_parse (s : string) : option LeaseKind :=
  if decide (s = "path") then Some KPath
  else if decide (s = "pool") then Some KPool
  else if decide (s = "quiet") then Some KQuiet
  else None.

Record LeaseArgs : Type := mk_lease_args {
  la_kind : LeaseKind; la_resource : string; la_amount : f64; la_ttl_s : option f64;
  la_card : option string; la_task : option string; la_note : string }.

Record QuietArgs : Type := mk_quiet_args { qa_expected_end_ms : Z; qa_note : string }.

Record PoolArgs : Type := mk_pool_args {
  pa_name : string; pa_capacity : f64; pa_unit : string; pa_note : string }.

Record LeaseRecord : Type := mk_lease_record {
  lr_id : string; lr_kind : LeaseKind; lr_resource : string; lr_amount : f64; lr_holder : string;
  lr_holder_name : string; lr_card : option string; lr_task : option string; lr_created_ms : Z;
  lr_expires_ms : option Z; lr_heartbeat_ms : Z; lr_expected_end_ms : option Z;
  lr_released_ms : option Z; lr_note : string }.

Record PoolRecord : Type := mk_pool_record {
  plr_name : string; plr_capacity : f64; plr_unit : string; plr_used : f64; plr_note : string;
  plr_created_ms : Z; plr_created_by : string }.

Class LeaseCodec : Type := {
  parse_lease_args : string → option LeaseArgs;
  (** [LeaseRenewArgs] is its [ttl_s]. *)
  parse_renew_args : string → option (option f64);
  parse_quiet_args : string → option QuietArgs;
  parse_pool_args : string → option PoolArgs;
  parse_files : string → option (list string);
  parse_settings : string → option WorkSettings;
  sql_sum : list f64 → f64 }.

Definition MAX_TTL_S : f64 := f_of_Z 604800.
Definition MAX_ACTIVE_LEASES : nat := 64.

Arguments MAX_ACTIVE_LEASES : simpl never.

(** ** Text *)

(** [Display] of an [f64]: the shortest digits, never an exponent. *)
Definition f64_display (x : f64) : string :=
  match x with
  | S754_nan => "NaN"
  | S754_infinity false => "inf"
  | S754_infinity true => "-inf"
  | _ =>
      let '(mantissa, exp) := split_exp (fmt_shortest_exp (f_abs x)) in
      let text := fixed_digits (only_digits mantissa) exp in
      sign_text x +:+ default text (strip_suffix ".0" text)
  end.

Definition path_depth (path : string) : nat :=
  length (filter (λ part, part ≠ "") (split_byte "/" path)).

Definition iso (ms : Z) : string :=
  let '(year, month, day, hour, minute, _) := civil_from_ms ms in
  let second := ((ms / 1000) mod 60)%Z in
  (if (year <? 0)%Z then "-" +:+ dec_pad 3 (- year) else dec_pad 4 year)
  +:+ "-" +:+ dec_pad 2 month +:+ "-" +:+ dec_pad 2 day +:+ "T" +:+ dec_pad 2 hour
  +:+ ":" +:+ dec_pad 2 minute +:+ ":" +:+ dec_pad 2 second +:+ "Z".

(** [arg.trim().is_empty()]. *)
Definition optional_json (arg : string) : string :=
  match split_whitespace arg with [] => "{}" | _ => arg end.

(** ** Rows *)

(** [released IS NULL AND (expires IS NULL OR expires > now)]. *)
Definition active_at (now : Z) (l : lease) : bool :=
  match l_released l with
  | Some _ => false
  | None => match l_expires l with None => true | Some e => (now <? e)%Z end
  end.

Definition find_lease (id : string) (d : db) : option lease :=
  snd <$> list_find (λ l, l_id l = id) (leases d).

Definition update_lease (id : string) (f : lease → lease) (d : db) : db :=
  set_leases (map (λ l, if decide (l_id l = id) then f l else l) (leases d)) d.

Definition insert_lease (l : lease) (d : db) : db := set_leases (leases d ++ [l]) d.

Definition with_expiry (expires heartbeat : Z) (l : lease) : lease :=
  mk_lease (l_id l) (l_kind l) (l_resource l) (l_amount l) (l_holder l) (l_card l) (l_task l)
    (l_created l) (Some expires) heartbeat (l_expected_end l) (l_released l) (l_note l).

Definition with_release (now : Z) (l : lease) : lease :=
  mk_lease (l_id l) (l_kind l) (l_resource l) (l_amount l) (l_holder l) (l_card l) (l_task l)
    (l_created l) (l_expires l) (l_heartbeat l) (l_expected_end l) (Some now) (l_note l).

Definition is_active (l : LeaseRecord) (now : Z) : bool :=
  match lr_released_ms l with
  | Some _ => false
  | None => match lr_expires_ms l with None => true | Some e => (now <? e)%Z end
  end.

(** ** Ids *)

(** The loop from [n] on, as long as an id is taken. *)
Fixpoint free_id (fuel : nat) (n : Z) (t : list lease) : option string :=
  match fuel with
  | O => None
  | S k =>
      let id := "lease-" +:+ dec n in
      if existsb (λ l, bool_decide (l_id l = id)) t then free_id k (sat_i64 (n + 1)) t
      else Some id
  end.

Definition next_lease_id : tx string :=
  t ← query leases;
  lift (ok_or (free_id (S (length t)) (sat_i64 (Z.of_nat (length t) + 1)) t)
    (Sql "no free lease id")).

(** ** TTLs *)

Definition ttl_ms (ttl_s : f64) : result StoreError Z :=
  if negb (is_finite ttl_s) || f_le ttl_s f_zero
  then Err (Invalid "lease ttl must be a finite number above zero")
  else if f_lt MAX_TTL_S ttl_s then Err (Invalid "a lease lasts at most 7 days")
  else
    let ms := f_round (f_mul ttl_s (f_of_Z 1000)) in
    if f_lt ms (f_of_Z 1) then Err (Invalid "lease ttl must be at least one millisecond")
    else Ok (f_as_i64 ms).

Definition lease_ttl (ttl_s : option f64) (s : WorkSettings) : result StoreError Z :=
  ttl_ms (default (lease_ttl_s s) ttl_s).

Section Operations.
Context `{P : Prims} `{C : LeaseCodec}.

(** ** Helpers *)

Definition settings_in : tx WorkSettings :=
  raw ← query work_settings;
  match raw with
  | None => mret default_settings
  | Some json =>
      s ← lift (ok_or (parse_settings json) (Invalid "corrupt work settings in database"));
      mret (normalize_stored s).1
  end.

Definition name_of_hex (key : string) : string :=
  from_option pseudonym "" (unhex32 key).

Definition held_by (path holder what : string) (until : option Z) : string :=
  "path " +:+ printable path +:+ " is held by " +:+ name_of_hex holder +:+ " (" +:+ what
  +:+ ") until " +:+ from_option iso "-" until.

(** The active path leases of others, in [rowid] order. *)
Definition foreign_paths (now : Z) (me : string) (d : db) : list lease :=
  filter (λ l, l_kind l = "path" ∧ active_at now l = true ∧ l_holder l ≠ me) (leases d).

(** Claimed and running tasks of others; [agent IS NOT ?1] holds of NULL. *)
Definition foreign_tasks (me : string) (d : db) : list work_task :=
  filter (λ t, (w_state t = "claimed" ∨ w_state t = "running") ∧ w_agent t ≠ Some me)
    (work_tasks (work d)).

Fixpoint task_holder (path : string) (ts : list work_task) : result StoreError (option string) :=
  match ts with
  | [] => Ok None
  | t :: ts' =>
      files ← ok_or (parse_files (w_files t)) (Invalid "corrupt task files in database");
      if existsb (λ file, overlap file path) files
      then Ok (Some (held_by path (default "" (w_agent t)) ("task " +:+ w_id t) None))
      else task_holder path ts'
  end.

Definition path_holder (now : Z) (me path : string) : tx (option string) :=
  ls ← query (foreign_paths now me);
  match List.find (λ l, overlap (l_resource l) path) ls with
  | Some l => mret (Some (held_by path (l_holder l) ("lease " +:+ l_id l) (l_expires l)))
  | None => ts ← query (foreign_tasks me); lift (task_holder path ts)
  end.

Definition lease_from_row (l : lease) : result StoreError LeaseRecord :=
  match LeaseKind_parse (l_kind l) with
  | None => Err (Sql "invalid column type: kind")
  | Some k =>
      Ok (mk_lease_record (l_id l) k (l_resource l) (l_amount l) (l_holder l)
        (name_of_hex (l_holder l)) (l_card l) (l_task l) (l_created l) (l_expires l)
        (l_heartbeat l) (l_expected_end l) (l_released l) (l_note l))
  end.

Definition lease_by_id (id : string) : tx LeaseRecord :=
  row ← query (find_lease id);
  match row with
  | None => fail (NotFound ("lease " +:+ printable id))
  | Some l => lift (lease_from_row l)
  end.

(** The path and pool leases of [holder] that are active. *)
Definition held_leases (now : Z) (holder : string) (t : list lease) : list lease :=
  filter (λ l, l_holder l = holder ∧ (l_kind l = "path" ∨ l_kind l = "pool") ∧
               active_at now l = true) t.

Definition check_lease_room (now : Z) (holder : string) : tx unit :=
  t ← query leases;
  guard (Nat.leb MAX_ACTIVE_LEASES (length (held_leases now holder t)))
    (Refused (name_of_hex holder +:+ " already holds 64 active leases")).

(** [COALESCE(SUM(…), 0)] over the pool leases active now. *)
Definition pool_used (now : Z) (name : string) (t : list lease) : f64 :=
  match filter (λ l, l_kind l = "pool" ∧ l_resource l = name ∧ active_at now l = true) t with
  | [] => f_zero
  | ls => sql_sum (l_amount <$> ls)
  end.

Definition find_pool (now : Z) (name : string) : tx (option PoolRecord) :=
  query (λ d,
    p ← snd <$> list_find (λ p, p_name p = name) (pools d);
    Some (mk_pool_record (p_name p) (p_capacity p) (p_unit p) (pool_used now (p_name p) (leases d))
      (p_note p) (p_created p) (p_created_by p))).

(** ** Operations *)

Definition refuse {A} (r : result string A) : tx A :=
  lift match r with Ok a => Ok a | Err e => Err (Refused e) end.

Definition pool_define (now : Z) (op : SignedOp) : tx PoolRecord :=
  role ← authorize now op "pool.define";
  need role Controller ≫= λ _,
  args ← lift (ok_or (parse_pool_args (o_arg op)) (Invalid "pool arg must be PoolArgs JSON"));
  refuse (validate_name "pool" (pa_name args)) ≫= λ _,
  guard (negb (bool_decide (o_subject op = pa_name args)))
    (Invalid "pool subject must be the pool name") ≫= λ _,
  guard (negb (is_finite (pa_capacity args) && f_lt f_zero (pa_capacity args)))
    (Invalid "pool capacity must be a finite number above zero") ≫= λ _,
  let me := actor_hex op in
  exists' ← query (λ d, existsb (λ p, bool_decide (p_name p = pa_name args)) (pools d));
  execute (λ d,
    if exists' : bool
    then set_pools (map (λ p, if decide (p_name p = pa_name args)
      then mk_pool (p_name p) (pa_capacity args) (pa_unit args) (pa_note args) (p_created p)
             (p_created_by p)
      else p) (pools d)) d
    else set_pools (pools d ++ [mk_pool (pa_name args) (pa_capacity args) (pa_unit args)
      (pa_note args) now me]) d) ≫= λ _,
  append now me "pool.defined" (pa_name args)
    (VObject [("capacity", VNumber (NFloat (pa_capacity args))); ("unit", VString (pa_unit args))]) ≫= λ _,
  p ← find_pool now (pa_name args);
  lift (ok_or p (Invalid "pool vanished after definition")).

(** The resource and amount a request may take. *)
Definition acquire_path (now : Z) (role : Role) (me resource : string) : tx (string * f64) :=
  guard (negb (starts_with "/" resource)) (Invalid "path must be absolute") ≫= λ _,
  canon ← refuse (canonical_path resource "/" None);
  guard (role_lt role Supervisor && Nat.ltb (path_depth canon) 2)
    (Refused (printable canon +:+ " is too broad to claim")) ≫= λ _,
  held ← path_holder now me canon;
  match held with
  | Some message => fail (Refused message)
  | None => mret (canon, f_zero)
  end.

Definition acquire_pool (now : Z) (resource : string) (amount : f64) : tx (string * f64) :=
  guard (negb (is_finite amount && f_lt f_zero amount))
    (Invalid "lease amount must be a finite number above zero") ≫= λ _,
  found ← find_pool now resource;
  pool ← lift (ok_or found (NotFound ("pool " +:+ printable resource)));
  (if f_lt (plr_capacity pool) (f_add (plr_used pool) amount)
   then
     let free := f_max (f_sub (plr_capacity pool) (plr_used pool)) f_zero in
     let unit := if is_empty_str (plr_unit pool) then "" else " " +:+ plr_unit pool in
     fail (Refused ("pool " +:+ printable (plr_name pool) +:+ " has " +:+ f64_display free
       +:+ " of " +:+ f64_display (plr_capacity pool) +:+ unit +:+ " free"))
   else mret tt) ≫= λ _,
  mret (resource, amount).

Definition lease_acquire (now : Z) (op : SignedOp) : tx LeaseRecord :=
  role ← authorize now op "lease.acquire";
  need role Worker ≫= λ _,
  args ← lift (ok_or (parse_lease_args (o_arg op)) (Invalid "lease arg must be LeaseArgs JSON"));
  let me := actor_hex op in
  taken ← match la_kind args with
          | KQuiet => fail (Invalid "use quiet.open")
          | KPath => acquire_path now role me (la_resource args)
          | KPool => acquire_pool now (la_resource args) (la_amount args)
          end;
  work ← settings_in;
  ttl ← lift (lease_ttl (la_ttl_s args) work);
  let expires := sat_i64 (now + ttl) in
  check_lease_room now me ≫= λ _,
  id ← next_lease_id;
  execute (insert_lease (mk_lease id (LeaseKind_as_str (la_kind args)) taken.1 taken.2 me
    (la_card args) (la_task args) now (Some expires) now None None (la_note args))) ≫= λ _,
  append now me "lease.acquired" id
    (VObject [("kind", VString (LeaseKind_as_str (la_kind args))); ("resource", VString taken.1);
              ("expires", VNumber (NInt expires))]) ≫= λ _,
  lease_by_id id.

Definition lease_renew (now : Z) (op : SignedOp) : tx LeaseRecord :=
  role ← authorize now op "lease.renew";
  need role Worker ≫= λ _,
  ttl_s ← lift (ok_or (parse_renew_args (optional_json (o_arg op)))
            (Invalid "lease renew arg must be LeaseRenewArgs JSON"));
  l ← lease_by_id (o_subject op);
  guard (match lr_kind l with KQuiet => true | _ => false end)
    (Invalid "a quiet window has no expiry to renew") ≫= λ _,
  let me := actor_hex op in
  guard (negb (bool_decide (lr_holder l = me))) (Transition (Forbidden role)) ≫= λ _,
  guard (negb (is_active l now)) (Invalid "lease is not active") ≫= λ _,
  work ← settings_in;
  ttl ← lift (lease_ttl ttl_s work);
  let expires := sat_i64 (now + ttl) in
  execute (update_lease (lr_id l) (with_expiry expires now)) ≫= λ _,
  append now me "lease.renewed" (lr_id l) (VObject [("expires", VNumber (NInt expires))]) ≫= λ _,
  lease_by_id (lr_id l).

Definition lease_release (now : Z) (op : SignedOp) : tx unit :=
  role ← authorize now op "lease.release";
  need role Worker ≫= λ _,
  l ← lease_by_id (o_subject op);
  guard (match lr_kind l with KQuiet => true | _ => false end) (Invalid "use quiet.close") ≫= λ _,
  let me := actor_hex op in
  (if bool_decide (lr_holder l ≠ me) then need role Supervisor else mret tt) ≫= λ _,
  guard (bool_decide (is_Some (lr_released_ms l))) (Invalid "lease is already released") ≫= λ _,
  execute (update_lease (lr_id l) (with_release now)) ≫= λ _,
  append now me "lease.released" (lr_id l) no_data ≫= λ _,
  mret tt.

(** An open quiet window. *)
Definition open_quiet (l : lease) : bool :=
  bool_decide (l_kind l = "quiet") && bool_decide (l_released l = None).

Definition quiet_open (now : Z) (op : SignedOp) : tx LeaseRecord :=
  role ← authorize now op "quiet.open";
  need role Controller ≫= λ _,
  args ← lift (ok_or (parse_quiet_args (o_arg op)) (Invalid "quiet arg must be QuietArgs JSON"));
  guard (qa_expected_end_ms args <=? now)%Z (Invalid "quiet window must end after now") ≫= λ _,
  already ← query (λ d, existsb open_quiet (leases d));
  guard already (Invalid "a quiet window is already open") ≫= λ _,
  let me := actor_hex op in
  id ← next_lease_id;
  execute (insert_lease (mk_lease id "quiet" "machine" f_zero me None None now None now
    (Some (qa_expected_end_ms args)) None (qa_note args))) ≫= λ _,
  append now me "quiet.opened" id
    (VObject [("expected_end", VNumber (NInt (qa_expected_end_ms args)))]) ≫= λ _,
  lease_by_id id.

Definition quiet_close (now : Z) (op : SignedOp) : tx unit :=
  role ← authorize now op "quiet.close";
  need role Worker ≫= λ _,
  l ← lease_by_id (o_subject op);
  guard (match lr_kind l with KQuiet => false | _ => true end) (Invalid "lease is not a quiet window") ≫= λ _,
  let me := actor_hex op in
  (if bool_decide (lr_holder l ≠ me) then need role Controller else mret tt) ≫= λ _,
  guard (bool_decide (is_Some (lr_released_ms l))) (Invalid "quiet window is already closed") ≫= λ _,
  execute (update_lease (lr_id l) (with_release now)) ≫= λ _,
  append now me "quiet.closed" (lr_id l) no_data ≫= λ _,
  mret tt.

(** [Store::leases]: the filters of the query, in [rowid] order. *)
Definition list_leases (now : Z) (kind : option LeaseKind) (holder : option string)
    (active_only : bool) (d : db) : result StoreError (list LeaseRecord) :=
  foldr (λ l acc, r ← lease_from_row l; rs ← acc; mret (r :: rs)) (Ok [])
    (List.filter (λ l,
       from_option (λ k, bool_decide (l_kind l = LeaseKind_as_str k)) true kind
       && from_option (λ h, bool_decide (l_holder l = h)) true holder
       && (negb active_only || active_at now l)) (leases d)).

End Operations.

(** ** Lease ids *)

Lemma free_id_fresh fuel n t id l :
  free_id fuel n t = Some id → l ∈ t → l_id l ≠ id.
Proof.
  revert n. induction fuel as [|k IH]; intros n; cbn [free_id]; [done|].
  destruct (existsb _ t) eqn:E; [apply IH|]. intros [= <-] Hl.
  apply (existsb_none _ _ l) in E; [|done]. by apply bool_decide_eq_false in E.
Qed.

(** Decimal texts of different naturals differ. *)
Lemma dec_inj a b : (0 ≤ a)%Z → (0 ≤ b)%Z → dec a = dec b → a = b.
Proof.
  intros Ha Hb. unfold dec. destruct (Z.ltb_spec a 0), (Z.ltb_spec b 0); try lia. intros E.
  destruct (dec_abs_spec a) as (_ & _ & Hva & _); [done|].
  destruct (dec_abs_spec b) as (_ & _ & Hvb & _); [done|].
  specialize (Hva 0%Z). specialize (Hvb 0%Z). rewrite E in Hva. lia.
Qed.

Lemma free_id_None fuel n t :
  (0 ≤ n)%Z → (n + Z.of_nat fuel ≤ i64_max)%Z → free_id fuel n t = None →
  ∀ i, i < fuel → "lease-" +:+ dec (n + Z.of_nat i) ∈ l_id <$> t.
Proof.
  revert n. induction fuel as [|k IH]; intros n Hn Hm; cbn [free_id]; [lia|].
  destruct (existsb _ t) eqn:E; [|done].
  rewrite sat_i64_id by (unfold i64_min; lia). intros H [|i] Hi.
  - apply existsb_elem in E as (l & Hl & El). apply bool_decide_eq_true in El.
    replace (n + Z.of_nat 0)%Z with n by lia. rewrite <- El. by apply list_elem_of_fmap_2.
  - replace (n + Z.of_nat (S i))%Z with (n + 1 + Z.of_nat i)%Z by lia. apply IH; [lia..|done|lia].
Qed.

(** The loop ends: among one more candidate than there are rows one is free. *)
Lemma next_lease_id_Ok d :
  (2 * Z.of_nat (length (leases d)) + 2 ≤ i64_max)%Z → ∃ id, next_lease_id d = Ok (id, d).
Proof.
  intros Hm. unfold next_lease_id, mbind, tx_bind, query, lift.
  set (t := leases d) in *. rewrite sat_i64_id by (unfold i64_min; lia).
  destruct (free_id _ _ t) as [id|] eqn:E; [by exists id|]. exfalso.
  pose proof (free_id_None (S (length t)) (Z.of_nat (length t) + 1) t ltac:(lia) ltac:(lia) E) as H.
  set (ids := (λ i, "lease-" +:+ dec (Z.of_nat (length t) + 1 + Z.of_nat i)) <$> seq 0 (S (length t))).
  assert (NoDup ids) as Hd.
  { apply NoDup_fmap_2_strong; [|apply NoDup_seq].
    intros i j _ _ Eij. apply (inj (String.append "lease-")) in Eij. apply dec_inj in Eij; lia. }
  assert (ids ⊆+ l_id <$> t) as Hs.
  { apply NoDup_submseteq; [done|]. intros x Hx.
    apply list_elem_of_fmap in Hx as (i & -> & Hi). apply elem_of_seq in Hi. apply H. lia. }
  apply submseteq_length in Hs. unfold ids in Hs. rewrite !length_fmap, length_seq in Hs. lia.
Qed.

Lemma next_lease_id_fresh d id d' :
  next_lease_id d = Ok (id, d') → d' = d ∧ ∀ l, l ∈ leases d → l_id l ≠ id.
Proof.
  unfold next_lease_id. intros H. apply tx_bind_Ok in H as (t & ? & Hq & H).
  apply query_Ok in Hq as [-> ->]. apply lift_Ok in H as [H ->]. split; [done|].
  intros l Hl. destruct (free_id _ _ _) as [id'|] eqn:E; [|done]. injection H as ->.
  by eapply free_id_fresh.
Qed.

(** ** The leases table is well formed *)

(** At the clock [now]: ids are unique, kinds parse, exactly the quiet windows
    have no expiry, at most one quiet window is open, path leases are on
    canonical paths, active path leases of different holders do not overlap,
    and no holder has more than [MAX_ACTIVE_LEASES] active path and pool
    leases. *)
Record leases_wf (now : Z) (t : list lease) : Prop := {
  lw_ids : NoDup (l_id <$> t);
  lw_kind l : l ∈ t → is_Some (LeaseKind_parse (l_kind l));
  lw_expiry l : l ∈ t → l_expires l = None ↔ l_kind l = "quiet";
  lw_quiet a b : a ∈ t → b ∈ t → open_quiet a = true → open_quiet b = true → a = b;
  lw_canon l : l ∈ t → l_kind l = "path" → ∃ ws, Forall clean ws ∧ l_resource l = path_of ws;
  lw_path a b : a ∈ t → b ∈ t → l_kind a = "path" → l_kind b = "path" →
    active_at now a = true → active_at now b = true → l_holder a ≠ l_holder b →
    overlap (l_resource a) (l_resource b) = false;
  lw_cap h : length (held_leases now h t) ≤ MAX_ACTIVE_LEASES }.

Lemma overlap_comm a b : overlap a b = overlap b a.
Proof.
  unfold overlap. generalize (trim_end_byte "/" a) (trim_end_byte "/" b). intros x y.
  rewrite (bool_decide_ext (x = y) (y = x)) by done. rewrite <- !orb_assoc. f_equal. apply orb_comm.
Qed.

Lemma active_later now now' l :
  (now ≤ now')%Z → active_at now' l = true → active_at now l = true.
Proof.
  unfold active_at. intros H. destruct (l_released l), (l_expires l); try done.
  rewrite !Z.ltb_lt. lia.
Qed.

(** Filters that let less through a table whose rows shrink. *)
Lemma length_filter_map_le {A} (Q Q' : A → Prop) `{∀ x, Decision (Q x)} `{∀ x, Decision (Q' x)}
    (g : A → A) (t : list A) :
  (∀ l, l ∈ t → Q' (g l) → Q l) → length (filter Q' (map g t)) ≤ length (filter Q t).
Proof.
  induction t as [|x t IH]; intros Hg; [done|]. cbn [map]. rewrite !filter_cons.
  assert (length (filter Q' (map g t)) ≤ length (filter Q t)) by (apply IH; intros; apply Hg; [by right|done]).
  destruct (decide (Q' (g x))) as [D1|D1], (decide (Q x)) as [D2|D2]; cbn; try lia.
  destruct D2. apply Hg; [by left|done].
Qed.

(** Time passes and rows change so that less is active: release, renewal of an
    active lease, or nothing. *)
Lemma leases_wf_map now now' t g :
  (now ≤ now')%Z → leases_wf now t →
  (∀ l, l_id (g l) = l_id l ∧ l_kind (g l) = l_kind l ∧ l_resource (g l) = l_resource l ∧
        l_holder (g l) = l_holder l) →
  (∀ l, l ∈ t → (l_expires (g l) = None ↔ l_expires l = None) ∧
        (active_at now' (g l) = true → active_at now l = true) ∧
        (l_released (g l) = None → l_released l = None)) →
  leases_wf now' (map g t).
Proof.
  intros Hn [Hi Hk He Hq Hc Hp Hcap] Hg Hs.
  assert (∀ x, x ∈ map g t → ∃ l, l ∈ t ∧ x = g l) as Hinv.
  { intros x Hx. apply list_elem_of_fmap in Hx as (l & -> & Hl). eauto. }
  constructor.
  - rewrite (keys_update l_id g); [done|]. apply Hg.
  - intros x (l & Hl & ->)%Hinv. destruct (Hg l) as (_ & -> & _). auto.
  - intros x (l & Hl & ->)%Hinv. destruct (Hg l) as (_ & -> & _), (Hs l Hl) as (-> & _). auto.
  - intros x y (a & Ha & ->)%Hinv (b & Hb & ->)%Hinv. unfold open_quiet.
    destruct (Hg a) as (_ & -> & _), (Hg b) as (_ & -> & _).
    rewrite !andb_true_iff, !bool_decide_eq_true. intros [Ka Ra] [Kb Rb].
    rewrite (Hq a b Ha Hb); [done|..]; unfold open_quiet;
      rewrite andb_true_iff, !bool_decide_eq_true; (split; [done|]).
    + by apply (Hs a Ha).
    + by apply (Hs b Hb).
  - intros x (l & Hl & ->)%Hinv. destruct (Hg l) as (_ & -> & -> & _). auto.
  - intros x y (a & Ha & ->)%Hinv (b & Hb & ->)%Hinv.
    destruct (Hg a) as (_ & -> & -> & ->), (Hg b) as (_ & -> & -> & ->).
    intros Ka Kb Aa Ab. apply Hp; try done; [by apply (Hs a Ha)|by apply (Hs b Hb)].
  - intros h. etrans; [|apply (Hcap h)]. apply length_filter_map_le.
    intros l Hl. destruct (Hg l) as (_ & -> & _ & ->), (Hs l Hl) as (_ & Ha & _). naive_solver.
Qed.

Lemma leases_wf_later now now' t : (now ≤ now')%Z → leases_wf now t → leases_wf now' t.
Proof.
  intros Hn Hwf. rewrite <- (map_id t). eapply leases_wf_map; eauto.
  intros l Hl. split_and!; [done| |done]. by apply active_later.
Qed.

(** A new row: fresh id; a quiet window when none is open, or a lease whose path
    no one else holds, by a holder with room. *)
Lemma leases_wf_insert now t l k :
  leases_wf now t → (∀ x, x ∈ t → l_id x ≠ l_id l) → l_kind l = LeaseKind_as_str k →
  (l_expires l = None ↔ k = KQuiet) →
  (k = KQuiet → existsb open_quiet t = false) →
  (k = KPath → (∃ ws, Forall clean ws ∧ l_resource l = path_of ws) ∧
     ∀ x, x ∈ t → l_kind x = "path" → active_at now x = true → l_holder x ≠ l_holder l →
          overlap (l_resource x) (l_resource l) = false) →
  (k ≠ KQuiet → length (held_leases now (l_holder l) t) < MAX_ACTIVE_LEASES) →
  leases_wf now (t ++ [l]).
Proof.
  intros [Hi Hk He Hq Hc Hp Hcap] Hid Ek Hex Hqu Hpa Hroom.
  assert (∀ x, x ∈ t ++ [l] → x ∈ t ∨ x = l) as Hinv.
  { intros x. rewrite elem_of_app, list_elem_of_singleton. done. }
  assert (l_kind l = "path" → k = KPath) as Ekp. { rewrite Ek. by destruct k. }
  assert (l_kind l = "quiet" ↔ k = KQuiet) as Ekq. { rewrite Ek. by destruct k. }
  constructor.
  - by apply keys_insert.
  - intros x [?| ->]%Hinv; [auto|]. rewrite Ek. by destruct k; eexists.
  - intros x [?| ->]%Hinv; [auto|]. by rewrite Ekq.
  - assert (∀ x, x ∈ t → open_quiet x = true → open_quiet l = true → False) as Hno.
    { intros x Hx Ox Ol. unfold open_quiet in Ol. apply andb_prop in Ol as [Ol _].
      apply bool_decide_eq_true, Ekq in Ol. by rewrite (existsb_none _ _ x (Hqu Ol) Hx) in Ox. }
    intros x y [?| ->]%Hinv [?| ->]%Hinv; auto; intros; exfalso; eauto.
  - intros x [?| ->]%Hinv; [auto|]. intros Kp. by apply Hpa, Ekp.
  - intros x y [?| ->]%Hinv [?| ->]%Hinv; auto; try done.
    + intros Ka Kb Aa _ Hh. by apply Hpa; [apply Ekp|..].
    + intros Ka Kb _ Ab Hh. rewrite overlap_comm. by apply Hpa; [apply Ekp|..].
  - intros h. unfold held_leases in *. rewrite filter_app, length_app, filter_cons, filter_nil.
    case_decide as D; cbn [length]; [|specialize (Hcap h); lia]. destruct D as (<- & Kl & _).
    assert (k ≠ KQuiet) as Hk'. { intros ->. rewrite Ek in Kl. cbn in Kl. naive_solver. }
    specialize (Hroom Hk'). lia.
Qed.

(** ** Every operation keeps it *)

Section Preservation.
Context `{P : Prims} `{C : LeaseCodec}.

Lemma LeaseKind_parse_Some s k : LeaseKind_parse s = Some k → s = LeaseKind_as_str k.
Proof. unfold LeaseKind_parse. repeat case_decide; naive_solver. Qed.

(** The row behind a record. *)
Lemma lease_by_id_Ok id d r d' :
  lease_by_id id d = Ok (r, d') →
  d' = d ∧ ∃ l, l ∈ leases d ∧ l_id l = id ∧ lr_id r = id ∧
    LeaseKind_parse (l_kind l) = Some (lr_kind r) ∧ lr_holder r = l_holder l ∧
    (∀ now, is_active r now = active_at now l) ∧ lr_released_ms r = l_released l.
Proof.
  unfold lease_by_id. intros H. apply tx_bind_Ok in H as (row & ? & Hq & H).
  apply query_Ok in Hq as [-> ->]. unfold find_lease in H.
  destruct (list_find _ _) as [[n l]|] eqn:E; cbn in H; [|done].
  apply list_find_Some in E as (Hl & Hid & _). apply list_elem_of_lookup_2 in Hl.
  apply lift_Ok in H as [H ->]. split; [done|]. exists l. unfold lease_from_row in H.
  destruct (LeaseKind_parse (l_kind l)) as [k|]; [|done]. injection H as <-. done.
Qed.

Lemma settings_in_Ok d s d' : settings_in d = Ok (s, d') → d' = d.
Proof.
  unfold settings_in. intros H. apply tx_bind_Ok in H as (row & ? & Hq & H).
  apply query_Ok in Hq as [-> ->]. destruct (work_settings d); tx_inv; done.
Qed.

Lemma path_holder_Ok now me path d r d' :
  path_holder now me path d = Ok (r, d') →
  d' = d ∧ (r = None → ∀ l, l ∈ leases d → l_kind l = "path" → active_at now l = true →
    l_holder l ≠ me → overlap (l_resource l) path = false).
Proof.
  unfold path_holder. intros H. apply tx_bind_Ok in H as (ls & ? & Hq & H).
  apply query_Ok in Hq as [-> ->]. destruct (List.find _ _) as [l|] eqn:E.
  - apply mret_Ok in H as [-> ->]. done.
  - assert (d' = d) as ->. { by tx_inv. } split; [done|]. intros -> l Hl K A Hh.
    apply (find_none _ _ E). apply list_elem_of_In, list_elem_of_filter. done.
Qed.

Lemma refuse_Ok {A} (r : result string A) d a d' : refuse r d = Ok (a, d') → r = Ok a ∧ d' = d.
Proof. unfold refuse. intros [H ->]%lift_Ok. split; [|done]. destruct r; naive_solver. Qed.

Lemma acquire_path_Ok now role me resource d r d' :
  acquire_path now role me resource d = Ok (r, d') →
  d' = d ∧ (∃ ws, Forall clean ws ∧ r.1 = path_of ws) ∧
  (∀ l, l ∈ leases d → l_kind l = "path" → active_at now l = true →
    l_holder l ≠ me → overlap (l_resource l) r.1 = false).
Proof.
  unfold acquire_path. intros H.
  apply tx_bind_Ok in H as (? & ? & Hx & H). apply guard_Ok in Hx as [_ ->].
  apply tx_bind_Ok in H as (canon & ? & Hx & H). apply refuse_Ok in Hx as [Hc ->].
  apply tx_bind_Ok in H as (? & ? & Hx & H). apply guard_Ok in Hx as [_ ->].
  apply tx_bind_Ok in H as (held & ? & Hx & H). apply path_holder_Ok in Hx as [-> Hf].
  destruct held; [done|]. apply mret_Ok in H as [-> ->]. cbn [fst].
  split_and!; [done| |by apply Hf].
  unfold canonical_path in Hc. destruct (_ || _); [done|]. injection Hc as <-. apply normalise_clean.
Qed.

Lemma acquire_pool_Ok now resource amount d r d' :
  acquire_pool now resource amount d = Ok (r, d') →
  d' = d ∧ r = (resource, amount) ∧ f_lt f_zero amount = true ∧
  ∃ p, find_pool now resource d = Ok (Some p, d) ∧
       f_lt (plr_capacity p) (f_add (plr_used p) amount) = false.
Proof.
  unfold acquire_pool. intros H.
  apply tx_bind_Ok in H as (? & ? & Hx & H). apply guard_Ok in Hx as [Ha ->].
  apply negb_false_iff, andb_prop in Ha as [_ Ha].
  apply tx_bind_Ok in H as (f & ? & Hf & H). pose proof Hf as Hf'. apply query_Ok in Hf' as [_ ->].
  apply tx_bind_Ok in H as (p & ? & Hx & H). apply lift_Ok in Hx as [Hx ->].
  destruct f as [p'|]; [|done]. injection Hx as ->.
  apply tx_bind_Ok in H as (? & ? & Hx & H).
  destruct (f_lt (plr_capacity p) _) eqn:E; [done|]. apply mret_Ok in Hx as [_ ->].
  apply mret_Ok in H as [-> ->]. eauto 10.
Qed.

Lemma check_lease_room_Ok now holder d u d' :
  check_lease_room now holder d = Ok (u, d') →
  d' = d ∧ length (held_leases now holder (leases d)) < MAX_ACTIVE_LEASES.
Proof.
  unfold check_lease_room. intros H. apply tx_bind_Ok in H as (t & ? & Hq & H).
  apply query_Ok in Hq as [-> ->]. apply guard_Ok in H as [H ->]. split; [done|].
  by apply Nat.leb_gt in H.
Qed.

(** What an acquisition inserted, and that it was free to. *)
Lemma lease_acquire_Ok now op d r d' :
  lease_acquire now op d = Ok (r, d') →
  ∃ k l, k ≠ KQuiet ∧ leases d' = leases d ++ [l] ∧ nonces d' = nonces (with_nonce now op d) ∧
    identities d' = identities d ∧ cards d' = cards d ∧
    (∀ x, x ∈ leases d → l_id x ≠ l_id l) ∧ l_kind l = LeaseKind_as_str k ∧
    l_expires l ≠ None ∧ l_holder l = actor_hex op ∧
    (k = KPath → (∃ ws, Forall clean ws ∧ l_resource l = path_of ws) ∧
     ∀ x, x ∈ leases d → l_kind x = "path" → active_at now x = true → l_holder x ≠ l_holder l →
          overlap (l_resource x) (l_resource l) = false) ∧
    length (held_leases now (l_holder l) (leases d)) < MAX_ACTIVE_LEASES.
Proof.
  unfold lease_acquire. intros H.
  apply tx_bind_Ok in H as (role & ? & Hx & H). apply authorize_Ok in Hx as [_ ->].
  apply tx_bind_Ok in H as (? & ? & Hx & H). apply need_Ok in Hx as [-> _].
  apply tx_bind_Ok in H as (args & ? & Hx & H). apply lift_Ok in Hx as [_ ->].
  cbn zeta in H. apply tx_bind_Ok in H as (taken & d1 & Hx & H).
  assert (d1 = with_nonce now op d ∧ la_kind args ≠ KQuiet ∧
    (la_kind args = KPath → (∃ ws, Forall clean ws ∧ taken.1 = path_of ws) ∧
     ∀ x, x ∈ leases d → l_kind x = "path" → active_at now x = true → l_holder x ≠ actor_hex op →
          overlap (l_resource x) taken.1 = false)) as (-> & Hk & Hp).
  { destruct (la_kind args); [| |done].
    - apply acquire_path_Ok in Hx as (-> & ? & ?). done.
    - apply acquire_pool_Ok in Hx as (-> & _). done. }
  apply tx_bind_Ok in H as (work & ? & Hy & H). apply settings_in_Ok in Hy as ->.
  apply tx_bind_Ok in H as (ttl & ? & Hy & H). apply lift_Ok in Hy as [_ ->].
  apply tx_bind_Ok in H as (? & ? & Hy & H). apply check_lease_room_Ok in Hy as [-> Hroom].
  apply tx_bind_Ok in H as (id & ? & Hy & H). apply next_lease_id_fresh in Hy as [-> Hid].
  apply tx_bind_Ok in H as (? & ? & Hy & H). apply execute_Ok in Hy as ->.
  apply tx_bind_Ok in H as (? & ? & Hy & H). apply append_Ok in Hy as ->.
  apply lease_by_id_Ok in H as [-> _]. exists (la_kind args). eexists. split_and!; try reflexivity; try done.
Qed.

Lemma lease_acquire_wf now0 now op d r d' :
  (now0 ≤ now)%Z → leases_wf now0 (leases d) → lease_acquire now op d = Ok (r, d') →
  leases_wf now (leases d').
Proof.
  intros Hn Hwf H. apply lease_acquire_Ok in H as (k & l & Hk & -> & _ & _ & _ & Hid & Ek & Hex & Eh & Hp & Hroom).
  apply (leases_wf_insert _ _ _ k); try done. by apply (leases_wf_later now0).
Qed.

Lemma update_lease_leases id f d :
  leases (update_lease id f d) = map (λ l, if decide (l_id l = id) then f l else l) (leases d).
Proof. done. Qed.

Lemma lease_renew_Ok now op d r d' :
  lease_renew now op d = Ok (r, d') →
  ∃ l e, l ∈ leases d ∧ active_at now l = true ∧ l_kind l ≠ "quiet" ∧ l_holder l = actor_hex op ∧
    leases d' = leases (update_lease (l_id l) (with_expiry e now) d) ∧
    nonces d' = nonces (with_nonce now op d) ∧ identities d' = identities d ∧ cards d' = cards d.
Proof.
  unfold lease_renew. intros H.
  apply tx_bind_Ok in H as (role & ? & Hx & H). apply authorize_Ok in Hx as [_ ->].
  apply tx_bind_Ok in H as (? & ? & Hx & H). apply need_Ok in Hx as [-> _].
  apply tx_bind_Ok in H as (args & ? & Hx & H). apply lift_Ok in Hx as [_ ->].
  apply tx_bind_Ok in H as (rec & ? & Hx & H).
  apply lease_by_id_Ok in Hx as [-> (l & Hl & Hid & Erid & Ek & Eh & Ea & Er)].
  apply tx_bind_Ok in H as (? & ? & Hx & H). apply guard_Ok in Hx as [Hk ->].
  cbn zeta in H. apply tx_bind_Ok in H as (? & ? & Hx & H). apply guard_Ok in Hx as [Hh ->].
  apply negb_false_iff, bool_decide_eq_true in Hh.
  apply tx_bind_Ok in H as (? & ? & Hx & H). apply guard_Ok in Hx as [Ha ->].
  apply negb_false_iff in Ha.
  apply tx_bind_Ok in H as (work & ? & Hy & H). apply settings_in_Ok in Hy as ->.
  apply tx_bind_Ok in H as (ttl & ? & Hy & H). apply lift_Ok in Hy as [_ ->].
  apply tx_bind_Ok in H as (? & ? & Hy & H). apply execute_Ok in Hy as ->.
  apply tx_bind_Ok in H as (? & ? & Hy & H). apply append_Ok in Hy as ->.
  apply lease_by_id_Ok in H as [-> _]. exists l. eexists. split_and!; try done.
  - by rewrite <- Ea.
  - intros Eq. apply LeaseKind_parse_Some in Ek. destruct (lr_kind rec); cbn in *; congruence.
  - by rewrite <- Eh.
  - rewrite Erid, <- Hid. reflexivity.
Qed.

Lemma lease_renew_wf now0 now op d r d' :
  (now0 ≤ now)%Z → leases_wf now0 (leases d) → lease_renew now op d = Ok (r, d') →
  leases_wf now (leases d').
Proof.
  intros Hn Hwf H. apply lease_renew_Ok in H as (l & e & Hl & Ha & Hk & Hh & -> & _).
  rewrite update_lease_leases. eapply (leases_wf_map now); [done|by apply (leases_wf_later now0)|..].
  - intros x. by case_decide.
  - intros x Hx. case_decide as E; [|done].
    rewrite (key_inj l_id (leases d) x l (lw_ids _ _ Hwf) Hx Hl E). split_and!; [|done|done].
    cbn. rewrite (lw_expiry _ _ Hwf l Hl). split; [done|congruence].
Qed.

(** Both ways of giving a lease up. *)
Lemma released_wf now0 now t id :
  (now0 ≤ now)%Z → leases_wf now0 t →
  leases_wf now (map (λ l, if decide (l_id l = id) then with_release now l else l) t).
Proof.
  intros Hn Hwf. eapply (leases_wf_map now); [done|by apply (leases_wf_later now0)|..].
  - intros x. by case_decide.
  - intros x Hx. by case_decide.
Qed.

Lemma lease_release_Ok now op d u d' :
  lease_release now op d = Ok (u, d') →
  ∃ l role, l ∈ leases d ∧ l_kind l ≠ "quiet" ∧ l_released l = None ∧
    authorized now op "lease.release" role d ∧
    (l_holder l = actor_hex op ∨ role_le Supervisor role = true) ∧
    leases d' = leases (update_lease (l_id l) (with_release now) d) ∧
    nonces d' = nonces (with_nonce now op d) ∧ identities d' = identities d ∧ cards d' = cards d.
Proof.
  unfold lease_release. intros H.
  apply tx_bind_Ok in H as (role & ? & Hx & H). apply authorize_Ok in Hx as [Hau ->].
  apply tx_bind_Ok in H as (? & ? & Hx & H). apply need_Ok in Hx as [-> _].
  apply tx_bind_Ok in H as (rec & ? & Hx & H).
  apply lease_by_id_Ok in Hx as [-> (l & Hl & Hid & Erid & Ek & Eh & Ea & Er)].
  apply tx_bind_Ok in H as (? & ? & Hx & H). apply guard_Ok in Hx as [Hk ->].
  cbn zeta in H. apply tx_bind_Ok in H as (? & ? & Hx & H). apply if_need_Ok in Hx as [-> Hh].
  apply tx_bind_Ok in H as (? & ? & Hx & H). apply guard_Ok in Hx as [Hr ->].
  apply bool_decide_eq_false in Hr. tx_inv.
  exists l, role. split_and!; try done.
  - intros Eq. apply LeaseKind_parse_Some in Ek. destruct (lr_kind rec); cbn in *; congruence.
  - rewrite <- Er. by apply eq_None_not_Some.
  - rewrite <- Eh. destruct (decide (lr_holder rec = actor_hex op)); [by left|right].
    apply Hh. by apply bool_decide_eq_true_2.
  - by rewrite Erid, <- Hid.
Qed.

Lemma lease_release_wf now0 now op d u d' :
  (now0 ≤ now)%Z → leases_wf now0 (leases d) → lease_release now op d = Ok (u, d') →
  leases_wf now (leases d').
Proof.
  intros Hn Hwf H. apply lease_release_Ok in H as (l & role & _ & _ & _ & _ & _ & -> & _).
  rewrite update_lease_leases. by apply (released_wf now0).
Qed.

Lemma quiet_open_Ok now op d r d' :
  quiet_open now op d = Ok (r, d') →
  ∃ l, leases d' = leases d ++ [l] ∧ existsb open_quiet (leases d) = false ∧
    (∀ x, x ∈ leases d → l_id x ≠ l_id l) ∧ l_kind l = "quiet" ∧ l_expires l = None ∧
    nonces d' = nonces (with_nonce now op d) ∧ identities d' = identities d ∧ cards d' = cards d.
Proof.
  unfold quiet_open. intros H.
  apply tx_bind_Ok in H as (role & ? & Hx & H). apply authorize_Ok in Hx as [_ ->].
  apply tx_bind_Ok in H as (? & ? & Hx & H). apply need_Ok in Hx as [-> _].
  apply tx_bind_Ok in H as (args & ? & Hx & H). apply lift_Ok in Hx as [_ ->].
  apply tx_bind_Ok in H as (? & ? & Hx & H). apply guard_Ok in Hx as [_ ->].
  apply tx_bind_Ok in H as (b & ? & Hx & H). apply query_Ok in Hx as [-> ->].
  apply tx_bind_Ok in H as (? & ? & Hx & H). apply guard_Ok in Hx as [Hq ->].
  cbn zeta in H. apply tx_bind_Ok in H as (id & ? & Hy & H). apply next_lease_id_fresh in Hy as [-> Hid].
  apply tx_bind_Ok in H as (? & ? & Hy & H). apply execute_Ok in Hy as ->.
  apply tx_bind_Ok in H as (? & ? & Hy & H). apply append_Ok in Hy as ->.
  apply lease_by_id_Ok in H as [-> _]. eexists. split_and!; try reflexivity; done.
Qed.

Lemma quiet_open_wf now0 now op d r d' :
  (now0 ≤ now)%Z → leases_wf now0 (leases d) → quiet_open now op d = Ok (r, d') →
  leases_wf now (leases d').
Proof.
  intros Hn Hwf H. apply quiet_open_Ok in H as (l & -> & Hq & Hid & Ek & Ex & _).
  apply (leases_wf_insert _ _ _ KQuiet); try done. by apply (leases_wf_later now0).
Qed.

Lemma quiet_close_Ok now op d u d' :
  quiet_close now op d = Ok (u, d') →
  ∃ id, leases d' = leases (update_lease id (with_release now) d) ∧
    nonces d' = nonces (with_nonce now op d) ∧ identities d' = identities d ∧ cards d' = cards d.
Proof.
  unfold quiet_close. intros H.
  apply tx_bind_Ok in H as (role & ? & Hx & H). apply authorize_Ok in Hx as [_ ->].
  apply tx_bind_Ok in H as (? & ? & Hx & H). apply need_Ok in Hx as [-> _].
  apply tx_bind_Ok in H as (rec & ? & Hx & H). apply lease_by_id_Ok in Hx as [-> _].
  apply tx_bind_Ok in H as (? & ? & Hx & H). apply guard_Ok in Hx as [_ ->].
  cbn zeta in H. apply tx_bind_Ok in H as (? & ? & Hx & H). apply if_need_Ok in Hx as [-> _].
  tx_inv. by exists (lr_id rec).
Qed.

Lemma quiet_close_wf now0 now op d u d' :
  (now0 ≤ now)%Z → leases_wf now0 (leases d) → quiet_close now op d = Ok (u, d') →
  leases_wf now (leases d').
Proof.
  intros Hn Hwf H. apply quiet_close_Ok in H as (id & -> & _).
  rewrite update_lease_leases. by apply (released_wf now0).
Qed.

Lemma pool_define_Ok now op d r d' :
  pool_define now op d = Ok (r, d') →
  leases d' = leases d ∧ nonces d' = nonces (with_nonce now op d) ∧
  identities d' = identities d ∧ cards d' = cards d.
Proof.
  unfold pool_define. intros H.
  apply tx_bind_Ok in H as (role & ? & Hx & H). apply authorize_Ok in Hx as [_ ->].
  apply tx_bind_Ok in H as (? & ? & Hx & H). apply need_Ok in Hx as [-> _].
  apply tx_bind_Ok in H as (args & ? & Hx & H). apply lift_Ok in Hx as [_ ->].
  apply tx_bind_Ok in H as (? & ? & Hx & H). apply refuse_Ok in Hx as [_ ->].
  unfold find_pool in H. tx_inv. by destruct (existsb _ _).
Qed.

End Preservation.

(** ** Frames of transactions

    What a transaction leaves alone: a preorder that every statement of it
    respects holds between the database it found and the one it left. *)

(** ** Frame rules *)

(** A transaction that commits relates the database it found to the one it
    left. *)
Definition frames {A} (R : db → db → Prop) (m : tx A) : Prop :=
  ∀ d a d', m d = Ok (a, d') → R d d'.

Section Frames.
Context (R : db → db → Prop) `{!PreOrder R}.

Lemma frames_ret {A} (a : A) : frames R (mret a).
Proof. intros d b d' [_ ->]%mret_Ok. reflexivity. Qed.

Lemma frames_bind {A B} (m : tx A) (f : A → tx B) :
  frames R m → (∀ a, frames R (f a)) → frames R (m ≫= f).
Proof. intros Hm Hf d b d' (a & d1 & H1 & H2)%tx_bind_Ok. etrans; [by eapply Hm|by eapply Hf]. Qed.

Lemma frames_fail {A} e : frames R (fail e : tx A).
Proof. intros d b d' H. by apply fail_Ok in H. Qed.

Lemma frames_query {A} (f : db → A) : frames R (query f).
Proof. intros d b d' [_ ->]%query_Ok. reflexivity. Qed.

Lemma frames_lift {A} (r : result StoreError A) : frames R (lift r).
Proof. intros d b d' [_ ->]%lift_Ok. reflexivity. Qed.

Lemma frames_guard b e : frames R (guard b e).
Proof. intros d u d' [_ ->]%guard_Ok. reflexivity. Qed.

Lemma frames_execute f : (∀ d, R d (f d)) → frames R (execute f).
Proof. intros Hf d u d' ->%execute_Ok. apply Hf. Qed.

Lemma frames_append now actor kind subject data :
  (∀ d, R d (logged now actor kind subject data d)) → frames R (append now actor kind subject data).
Proof. intros Hf d n d' ->%append_Ok. apply Hf. Qed.
End Frames.

Create HintDb tx_frame.
#[export] Hint Resolve frames_ret frames_fail frames_query frames_lift frames_guard : tx_frame.

(** One syntactic step of a frame proof. *)
Ltac frame_step :=
  lazymatch goal with
  | |- frames _ (mbind _ _) => apply frames_bind; [typeclasses eauto| |intros ?]
  | |- frames _ (mret _) => apply frames_ret; typeclasses eauto
  | |- frames _ (fail _) => apply frames_fail; typeclasses eauto
  | |- frames _ (query _) => apply frames_query; typeclasses eauto
  | |- frames _ (lift _) => apply frames_lift; typeclasses eauto
  | |- frames _ (guard _ _) => apply frames_guard; typeclasses eauto
  | |- frames _ (need _ _) => apply frames_guard; typeclasses eauto
  | |- frames _ (execute _) => apply frames_execute; intros ?
  | |- frames _ (append _ _ _ _ _) => apply frames_append; intros ?
  | |- frames _ (match ?x with _ => _ end) => destruct x
  | |- frames _ (let _ := _ in _) => cbv zeta
  end.
