(* ===== verification/Policy.v ===== *)
(** * Team and lane policies

    [src/crates/agora-sched/src/policy.rs]: layered policies and their checks;
    [src/crates/agora-store/src/policy.rs]: the stored rows and the notices;
    [effective_for] of [cards_ext/roster.rs].  The JSON codec of a policy is a
    parameter. *)

From Stdlib Require Import Ascii.
From S2P Require Import Prelude F64 Strs PyFmt Bytes Core Crypto Task Claims StoreDb Identity.

Record TeamPolicy : Type := mk_policy {
  stale_after_s : option f64; escalate_after_s : option f64; reclaim_after_s : option f64;
  reclaim : option bool; policy_review : option bool; wip_limit : option Z;
  escalation_chain : option (list string); sprint_rollover : option bool }.

Record EffectivePolicy : Type := mk_effective {
  ef_stale_after_s : f64; ef_escalate_after_s : f64; ef_reclaim_after_s : f64;
  ef_reclaim : bool; ef_review : bool; ef_wip_limit : option Z;
  ef_escalation_chain : list string; ef_sprint_rollover : bool }.

(** ** Layers *)

Definition policy_defaults (require_review_default : bool) : EffectivePolicy :=
  mk_effective (f_of_Z 1800) (f_of_Z 900) (f_of_Z 3600) true require_review_default None [] true.

(** One layer over what is there. *)
Definition overlay (out : EffectivePolicy) (l : TeamPolicy) : EffectivePolicy :=
  mk_effective (default (ef_stale_after_s out) (stale_after_s l))
    (default (ef_escalate_after_s out) (escalate_after_s l))
    (default (ef_reclaim_after_s out) (reclaim_after_s l))
    (default (ef_reclaim out) (reclaim l))
    (default (ef_review out) (policy_review l))
    (match wip_limit l with Some v => Some v | None => ef_wip_limit out end)
    (default (ef_escalation_chain out) (escalation_chain l))
    (default (ef_sprint_rollover out) (sprint_rollover l)).

Definition effective (layers : list TeamPolicy) (require_review_default : bool) : EffectivePolicy :=
  foldl overlay (policy_defaults require_review_default) layers.

(** ** Validation *)

Definition is_pubkey_hex (key : string) : bool :=
  Nat.eqb (String.length key) 64 && str_all is_lower_hex key.

Definition bad_duration (v : option f64) : bool :=
  from_option (λ v, negb (is_finite v) || f_le v f_zero) false v.

Fixpoint check_durations (l : list (string * option f64)) : result string unit :=
  match l with
  | [] => Ok tt
  | (name, v) :: l' =>
      if bad_duration v then Err (name +:+ " must be a finite number greater than zero")
      else check_durations l'
  end.

Definition validate_policy (p : TeamPolicy) : result string unit :=
  check_durations [("stale_after_s", stale_after_s p); ("escalate_after_s", escalate_after_s p);
                   ("reclaim_after_s", reclaim_after_s p)] ≫= λ _,
  if from_option (λ w, w <? 1)%Z false (wip_limit p) then Err "wip_limit must be at least 1" else
  match escalation_chain p with
  | None => Ok tt
  | Some chain =>
      if Nat.ltb 16 (length chain) then Err "escalation_chain must have at most 16 entries"
      else if negb (forallb is_pubkey_hex chain)
      then Err "escalation_chain entries must be 64-character lowercase hex public keys"
      else if negb (bool_decide (NoDup chain))
      then Err "escalation_chain must not contain duplicate entries"
      else Ok tt
  end.

(** ** Stored policies *)

Class PolicyCodec : Type := {
  parse_policy : string → option TeamPolicy;
  (** [PolicyArgs]: team, lane and policy. *)
  parse_policy_args : string → option (string * string * TeamPolicy);
  policy_value : TeamPolicy → Value;
  value_text : Value → string }.

Definition WILDCARD : string := "*".

Definition parse_subject (subject : string) : result StoreError (string * string) :=
  match split_once "/" subject with
  | None => Err (Invalid "policy subject must be team/lane")
  | Some (team, lane) =>
      let check what part :=
        if bool_decide (part = WILDCARD) then Ok tt
        else match validate_name what part with Ok u => Ok u | Err e => Err (Refused e) end in
      check "team" team ≫= λ _, check "lane" lane ≫= λ _, Ok (team, lane)
  end.

Section Stored.
Context `{P : Prims} `{C : PolicyCodec}.

Definition policy_json (team lane : string) (d : db) : option string :=
  pr_json ∘ snd <$> list_find (λ r, pr_team r = team ∧ pr_lane r = lane) (policies d).

Definition stored_policy (corrupt team lane : string) : tx (option TeamPolicy) :=
  json ← query (policy_json team lane);
  match json with
  | None => mret None
  | Some j => p ← lift (ok_or (parse_policy j) (Invalid corrupt)); mret (Some p)
  end.

(** The rows of the keys that have one, in order. *)
Fixpoint stored_layers (corrupt : string) (keys : list (string * string)) : tx (list TeamPolicy) :=
  match keys with
  | [] => mret []
  | (team, lane) :: keys' =>
      p ← stored_policy corrupt team lane;
      rest ← stored_layers corrupt keys';
      mret (match p with Some p => p :: rest | None => rest end)
  end.

Definition layer_keys (team lane : string) : list (string * string) :=
  [(WILDCARD, WILDCARD); (team, WILDCARD); (WILDCARD, lane); (team, lane)].

Definition key_eqb (a b : string * string) : bool := String.eqb a.1 b.1 && String.eqb a.2 b.2.

(** The loop that skips a key already read. *)
Fixpoint new_keys (seen keys : list (string * string)) : list (string * string) :=
  match keys with
  | [] => []
  | k :: keys' => if existsb (key_eqb k) seen then new_keys seen keys' else k :: new_keys (seen ++ [k]) keys'
  end.

Definition effective_policy (team lane : string) (require_review_default : bool) :
    tx EffectivePolicy :=
  layers ← stored_layers "stored policy is corrupt" (new_keys [] (layer_keys team lane));
  mret (effective layers require_review_default).

Definition effective_for (team lane : string) (require_review_default : bool) :
    tx EffectivePolicy :=
  layers ← stored_layers "corrupt policy in database" (layer_keys team lane);
  mret (effective layers require_review_default).

(** [INSERT … ON CONFLICT(team, lane) DO UPDATE]. *)
Definition upsert_policy (r : policy_row) (d : db) : db :=
  if existsb (λ x, bool_decide (pr_team x = pr_team r ∧ pr_lane x = pr_lane r)) (policies d)
  then set_policies (map (λ x, if decide (pr_team x = pr_team r ∧ pr_lane x = pr_lane r)
                               then r else x) (policies d)) d
  else set_policies (policies d ++ [r]) d.

Definition policy_set (now : Z) (op : SignedOp) : tx (policy_row * TeamPolicy) :=
  role ← authorize now op "policy.set";
  need role Supervisor ≫= λ _,
  tl ← lift (parse_subject (o_subject op));
  args ← lift (ok_or (parse_policy_args (o_arg op))
           (Invalid "policy arg must be a JSON object with team, lane and policy"));
  guard (negb (bool_decide (args.1 = tl)))
    (Invalid "policy arg team and lane must match the subject") ≫= λ _,
  stored ← stored_policy "stored policy is corrupt" tl.1 tl.2;
  let changes_chain := bool_decide (is_Some (escalation_chain args.2))
    || bool_decide (is_Some (stored ≫= escalation_chain)) in
  (if changes_chain then need role Controller else mret tt) ≫= λ _,
  lift (match validate_policy args.2 with Ok u => Ok u | Err e => Err (Refused e) end) ≫= λ _,
  let value := policy_value args.2 in
  let by' := actor_hex op in
  let row := mk_policy_row tl.1 tl.2 (value_text value) now by' in
  execute (upsert_policy row) ≫= λ _,
  append now by' "policy.set" (o_subject op) value ≫= λ _,
  mret (row, args.2).

End Stored.

(** ** Notices *)

Definition NOTICE_TEXT_MAX_CHARS : nat := 2000.
Definition NOTICE_PAGE_MAX : Z := 500.

Definition post_notice (now : Z) (target kind subject text : string) : tx Z :=
  let text := encode (take NOTICE_TEXT_MAX_CHARS (chars text)) in
  n ← query notice_seq;
  execute (λ d, set_notices (notices d ++ [mk_notice (n + 1) now target kind subject text]) (n + 1) d) ≫= λ _,
  mret (n + 1)%Z.

(** Rows are in [seq] order. *)
Definition notices_for (target : string) (after limit : Z) (d : db) : list notice :=
  take (Z.to_nat (Z.min limit NOTICE_PAGE_MAX))
    (filter (λ n, nt_target n = target ∧ (after < nt_seq n)%Z) (notices d)).

(** ** Layering *)

(** A layer over itself, or over one it wins against twice, changes nothing. *)
Lemma overlay_idem out l : overlay (overlay out l) l = overlay out l.
Proof.
  unfold overlay; destruct l as [[] [] [] [] [] [] [] []]; done.
Qed.

Lemma overlay_again out a b :
  overlay (overlay (overlay (overlay out a) b) a) b = overlay (overlay out a) b.
Proof.
  destruct a as [a1 a2 a3 a4 a5 a6 a7 a8], b as [b1 b2 b3 b4 b5 b6 b7 b8]. unfold overlay. cbn.
  f_equal; [by destruct a1, b1|by destruct a2, b2|by destruct a3, b3|by destruct a4, b4|
            by destruct a5, b5|by destruct a6, b6|by destruct a7, b7|by destruct a8, b8].
Qed.

Section StoredLemmas.
Context `{P : Prims} `{C : PolicyCodec}.

(** The row of a key, decoded: [None] when its text is corrupt. *)
Definition decoded (d : db) (k : string * string) : option (option TeamPolicy) :=
  match policy_json k.1 k.2 d with
  | None => Some None
  | Some j => Some <$> parse_policy j
  end.

Lemma stored_policy_decoded c t l d :
  stored_policy c t l d =
    match decoded d (t, l) with Some p => Ok (p, d) | None => Err (Invalid c) end.
Proof.
  unfold stored_policy, decoded, mbind, tx_bind, query, lift, ok_or, mret, tx_ret. cbn [fst snd].
  destruct (policy_json t l d) as [j|]; [|done]. by destruct (parse_policy j).
Qed.

Lemma stored_layers_decoded c keys d :
  stored_layers c keys d =
    match mapM (decoded d) keys with Some l => Ok (omap id l, d) | None => Err (Invalid c) end.
Proof.
  induction keys as [|[t l] keys IH]; [done|]. cbn [stored_layers]. unfold mbind, tx_bind at 1.
  rewrite stored_policy_decoded. cbn [mapM]. destruct (decoded d (t, l)) as [p|]; [|done].
  unfold tx_bind. rewrite IH. cbn. destruct (mapM (decoded d) keys); [|done]. by destruct p.
Qed.

Lemma effective_twice a b rr :
  effective (omap id [a; b; a; b]) rr = effective (omap id [a; b]) rr.
Proof.
  unfold effective. destruct a as [a|], b as [b|]; cbn; rewrite ?overlay_idem, ?overlay_again; done.
Qed.

Lemma effective_pairs a b rr :
  effective (omap id [a; a; b; b]) rr = effective (omap id [a; b]) rr.
Proof.
  unfold effective. destruct a as [a|], b as [b|]; cbn; rewrite ?overlay_idem; done.
Qed.

(** Reading each key once, as [Store::effective_policy] does, gives what reading
    all four layers gives, as the card operations do. *)
Lemma effective_policy_for team lane rr d e d' :
  effective_policy team lane rr d = Ok (e, d') ↔ effective_for team lane rr d = Ok (e, d').
Proof.
  unfold effective_policy, effective_for, mbind, tx_bind, mret, tx_ret.
  rewrite !stored_layers_decoded. unfold layer_keys, WILDCARD.
  cbn [new_keys existsb app]. unfold key_eqb. cbn [fst snd].
  destruct (String.eqb_spec team "*") as [->|Ht], (String.eqb_spec lane "*") as [->|Hl];
    rewrite ?String.eqb_refl, ?(proj2 (String.eqb_neq _ _) (not_eq_sym Ht)),
      ?(proj2 (String.eqb_neq _ _) (not_eq_sym Hl)); cbn [andb orb existsb app mapM].
  - destruct (decoded d ("*", "*")) as [a|]; cbn [mbind option_bind mret option_ret]; [|done].
    rewrite effective_pairs.
    assert (effective (omap id [a; a]) rr = effective (omap id [a]) rr) as ->; [|done].
    unfold effective. destruct a; cbn; by rewrite ?overlay_idem.
  - destruct (decoded d ("*", "*")) as [a|]; cbn [mbind option_bind mret option_ret]; [|done].
    destruct (decoded d ("*", lane)) as [b|]; cbn [mbind option_bind mret option_ret]; [|done].
    by rewrite effective_pairs.
  - destruct (decoded d ("*", "*")) as [a|]; cbn [mbind option_bind mret option_ret]; [|done].
    destruct (decoded d (team, "*")) as [b|]; cbn [mbind option_bind mret option_ret]; [|done].
    by rewrite effective_twice.
  - match goal with |- context [match ?m with Some _ => _ | None => _ end] => by destruct m end.
Qed.

Lemma effective_for_state team lane rr d e d' :
  effective_for team lane rr d = Ok (e, d') → d' = d.
Proof.
  unfold effective_for, mbind, tx_bind, mret, tx_ret. rewrite stored_layers_decoded.
  destruct (mapM _ _); naive_solver.
Qed.

End StoredLemmas.
