(* ===== verification/Board.v ===== *)
(** * agora-store: the card board

    The card operations of [src/crates/agora-store/src/lib.rs] and of
    [cards_ext.rs] with [cards_ext/fields.rs] and [cards_ext/roster.rs].  Every
    change appends an event in the same transaction; the cards table is a
    projection of those events.  The JSON decoders are parameters
    ([BoardCodec]). *)

From Stdlib Require Import Ascii Floats.SpecFloat.
From S2P Require Import Prelude F64 Strs PyFmt Bytes Core Crypto Task Graph Claims Settings StoreDb.
From S2P Require Import Identity Policy.

(** ** Arguments *)

Inductive LinkRel : Type := Re | Blocks | Relates | Duplicates | CausedBy | Job | Message | Note.

Definition LinkRel_as_str (r : LinkRel) : string :=
  match r with
  | Re => "re" | Blocks => "blocks" | Relates => "relates" | Duplicates => "duplicates"
  | CausedBy => "caused_by" | Job => "job" | Message => "message" | Note => "note"
  end.

Definition LinkRel_parse (s : string) : option LinkRel :=
  if decide (s = "re") then Some Re
  else if decide (s = "blocks") then Some Blocks
  else if decide (s = "relates") then Some Relates
  else if decide (s = "duplicates") then Some Duplicates
  else if decide (s = "caused_by") then Some CausedBy
  else if decide (s = "job") then Some Job
  else if decide (s = "message") then Some Message
  else if decide (s = "note") then Some Note
  else None.

Record CardUpdateArgs : Type := mk_update {
  up_priority : option Z; up_value : option f64; up_size : option f64; up_team : option string;
  up_needs_owner : option bool; up_owner_action : option string }.

Record CardDepArgs : Type := mk_dep_args { dep_after : string; dep_remove : bool }.

Record CardLinkArgs : Type := mk_link_args {
  lk_rel : LinkRel; lk_target : string; lk_remove : bool }.

Record EscalateArgs : Type := mk_escalate { es_owner_action : string; es_to : list string }.

Record CardExt : Type := mk_ext {
  x_id : string; x_priority : Z; x_value : f64; x_size : f64; x_team : string;
  x_needs_owner : bool; x_owner_action : string; x_after : list string;
  x_links : list (LinkRel * string); x_jobs : list string }.

Class BoardCodec : Type := {
  parse_update : string → option CardUpdateArgs;
  parse_dep : string → option CardDepArgs;
  parse_link : string → option CardLinkArgs;
  parse_escalate : string → option EscalateArgs }.

(** ** Fields *)

Definition CYCLE : string := "card dependencies would form a cycle".
Definition VALUE_MSG : string := "card value must be a positive number".
Definition SIZE_MSG : string := "card size must be a positive number".
Definition AFTER_MSG : string := "card after must be a list of card ids".
Definition TARGET_MSG : string :=
  "escalation target must be a 64-character lowercase hex public key".
Definition OWNER_ACTION_MAX : nat := 1000.
Definition ESCALATE_TARGETS_MAX : nat := 16.

Record NewCardFields : Type := mk_new {
  nf_priority : Z; nf_value : f64; nf_size : f64; nf_team : string; nf_after : list string }.

Definition check_positive (x : f64) (msg : string) : result StoreError f64 :=
  if is_finite x && f_lt f_zero x then Ok x else Err (Invalid msg).

Definition positive_field (v : option Value) (dflt : f64) (msg : string) : result StoreError f64 :=
  match v with
  | None => Ok dflt
  | Some v => check_positive (default S754_nan (v_f64 v)) msg
  end.

Definition check_team (team : string) : result StoreError unit :=
  if Nat.ltb 64 (length (chars team)) then Err (Invalid "card team must be at most 64 characters")
  else Ok tt.

Fixpoint collect_ids (items : list Value) : result StoreError (list string) :=
  match items with
  | [] => Ok []
  | v :: items' =>
      id ← ok_or (v_str v) (Invalid AFTER_MSG);
      ids ← collect_ids items';
      mret (id :: ids)
  end.

Definition fields_parse (arg : Value) : result StoreError NewCardFields :=
  priority ← match vget "priority" arg with
             | None => Ok 0%Z
             | Some v => ok_or (v_i64 v) (Invalid "card priority must be an integer")
             end;
  value ← positive_field (vget "value" arg) (f_of_Z 1) VALUE_MSG;
  size ← positive_field (vget "size" arg) (f_of_Z 1) SIZE_MSG;
  team ← match vget "team" arg with
         | None => Ok ""
         | Some v =>
             t ← ok_or (v_str v) (Invalid "card team must be a string");
             _ ← check_team t;
             mret t
         end;
  after ← match vget "after" arg with
          | None => Ok []
          | Some (VArray items) => collect_ids items
          | Some _ => Err (Invalid AFTER_MSG)
          end;
  mret (mk_new priority value size team after).

Definition unique (keys : list string) : list string :=
  foldl (λ out key, if decide (key ∈ out) then out else out ++ [key]) [] keys.

(** ** Rows *)

Definition find_card (id : string) (d : db) : option card :=
  snd <$> list_find (λ c, c_id c = id) (cards d).

Definition update_card (id : string) (f : card → card) (d : db) : db :=
  set_cards (map (λ c, if decide (c_id c = id) then f c else c) (cards d)) d.

Definition with_state (state : string) (owner : option string) (now : Z) (c : card) : card :=
  mk_card (c_id c) (c_title c) (c_lane c) state owner (c_created c) now (c_priority c) (c_value c)
    (c_size c) (c_team c) (c_needs_owner c) (c_owner_action c).

Definition require_card (id : string) : tx unit :=
  exists' ← query (λ d, existsb (λ c, bool_decide (c_id c = id)) (cards d));
  guard (negb exists') (NotFound id).

Definition load_card (id : string) : tx card :=
  row ← query (find_card id);
  lift (ok_or row (NotFound id)).

Definition card_state_of (c : card) : result StoreError CardState :=
  ok_or (card_parse (c_state c)) (BadState (c_state c)).

Definition card_state (id : string) : tx CardState :=
  c ← load_card id;
  lift (card_state_of c).

(** [INSERT OR IGNORE INTO card_deps]: the rows written. *)
Definition insert_dep (e : dep) : tx bool :=
  seen ← query (λ d, existsb (λ x, bool_decide (d_card x = d_card e ∧ d_after x = d_after e))
                       (card_deps d));
  if seen : bool then mret false
  else execute (λ d, set_deps (card_deps d ++ [e]) d) ≫= λ _, mret true.

Fixpoint insert_deps (after : list string) (card : string) : tx unit :=
  match after with
  | [] => mret tt
  | a :: after' =>
      guard (bool_decide (a = card)) (Invalid "a card cannot depend on itself") ≫= λ _,
      require_card a ≫= λ _,
      insert_dep (mk_dep card a) ≫= λ _,
      insert_deps after' card
  end.

(** The [BTreeMap] of prerequisites as a task list: ids in order, each with what
    it waits for in row order. *)
Definition dep_tasks (deps : list dep) : list Task :=
  imap (λ i id, mk_task i id "" "other" (tier_of "other") None
                  (d_after <$> filter (λ e, d_card e = id) deps) (f_of_Z 1) (f_of_Z 1) [])
    (sort_by String.compare (remove_dups ((d_after <$> deps) ++ (d_card <$> deps)))).

Definition check_acyclic : tx unit :=
  deps ← query card_deps;
  lift match Graph_new (dep_tasks deps) with Ok _ => Ok tt | Err _ => Err (Invalid CYCLE) end.

Definition check_edit (role : Role) (owner : option string) (actor : string) : tx unit :=
  match owner with
  | Some o => if decide (o ≠ actor) then need role Supervisor else need role Worker
  | None => need role Worker
  end.

(** The links of a card, ordered by relation and target. *)
Definition link_cmp (a b : string * string) : comparison :=
  then_with (String.compare a.1 b.1) (String.compare a.2 b.2).

Definition parse_link_row (l : string * string) : result StoreError (LinkRel * string) :=
  r ← ok_or (LinkRel_parse l.1) (Invalid "corrupt card link in database");
  mret (r, l.2).

Definition card_ext_of (id : string) : tx CardExt :=
  c ← load_card id;
  after ← query (λ d, sort_by String.compare
            (d_after <$> filter (λ e, d_card e = id) (card_deps d)));
  jobs ← query (λ d, w_id <$> filter (λ t, w_card t = Some id) (work_tasks (work d)));
  rows ← query (λ d, sort_by link_cmp
           ((λ l, (ln_rel l, ln_target l)) <$> filter (λ l, ln_card l = id) (card_links d)));
  links ← lift (foldr (λ l acc, x ← parse_link_row l; xs ← acc; mret (x :: xs)) (Ok []) rows);
  mret (mk_ext id (c_priority c) (c_value c) (c_size c) (c_team c) (c_needs_owner c)
    (c_owner_action c) after links jobs).

Section Operations.
Context `{P : Prims} `{PC : PolicyCodec} `{J : JsonText} `{C : BoardCodec}.

(** ** Work in progress *)

Definition in_progress (c : card) : bool :=
  bool_decide (c_state c = "claimed" ∨ c_state c = "doing").

Definition wip_count (team lane id : string) (d : db) : nat :=
  length (filter (λ c, c_team c = team ∧ c_lane c = lane ∧ in_progress c = true ∧ c_id c ≠ id)
    (cards d)).

Definition check_wip (id : string) (require_review_default : bool) : tx unit :=
  c ← load_card id;
  e ← effective_for (c_team c) (c_lane c) require_review_default;
  match ef_wip_limit e with
  | None => mret tt
  | Some limit =>
      count ← query (wip_count (c_team c) (c_lane c) id);
      guard (limit <=? Z.of_nat count)%Z
        (Refused ("wip limit reached: lane " +:+ c_team c +:+ "/" +:+ c_lane c +:+ " has "
          +:+ dec (Z.of_nat count) +:+ " of " +:+ dec limit))
  end.

(** ** Operations *)

Definition create_card (now : Z) (op : SignedOp) : tx unit :=
  role ← authorize now op "card.create";
  need role Worker ≫= λ _,
  guard (is_empty_str (o_subject op)) (Invalid "card id must not be empty") ≫= λ _,
  arg ← lift (ok_or (parse_json (o_arg op)) (Invalid "card arg must be JSON"));
  title ← lift (ok_or (t ← vget "title" arg ≫= v_str; if is_empty_str t then None else Some t)
            (Invalid "card title must be a non-empty string"));
  lane ← lift match vget "lane" arg with
              | None => Ok "default"
              | Some v => ok_or (v_str v) (Invalid "card lane must be a string")
              end;
  fields ← lift (fields_parse arg);
  exists' ← query (λ d, existsb (λ c, bool_decide (c_id c = o_subject op)) (cards d));
  guard exists' (Invalid "card already exists") ≫= λ _,
  execute (λ d, set_cards (cards d ++ [mk_card (o_subject op) title lane (card_as_str Backlog) None
    now now (nf_priority fields) (nf_value fields) (nf_size fields) (nf_team fields) false ""]) d) ≫= λ _,
  insert_deps (nf_after fields) (o_subject op) ≫= λ _,
  append now (actor_hex op) "card.created" (o_subject op)
    (VObject [("title", VString title); ("lane", VString lane)]) ≫= λ _,
  mret tt.

Definition add_evidence (now : Z) (op : SignedOp) : tx unit :=
  role ← authorize now op "card.evidence";
  need role Worker ≫= λ _,
  guard (is_empty_str (o_arg op)) (Invalid "evidence ref must not be empty") ≫= λ _,
  require_card (o_subject op) ≫= λ _,
  let by' := actor_hex op in
  execute (λ d,
    if existsb (λ e, bool_decide (ev_card e = o_subject op ∧ ev_ref e = o_arg op)) (evidence d)
    then d
    else set_evidence (evidence d ++ [mk_evidence (o_subject op) (o_arg op) by']) d) ≫= λ _,
  append now by' "card.evidence" (o_subject op) (VObject [("ref", VString (o_arg op))]) ≫= λ _,
  mret tt.

Definition approve (now : Z) (op : SignedOp) : tx unit :=
  role ← authorize now op "card.approve";
  need role Worker ≫= λ _,
  c ← load_card (o_subject op);
  from ← lift (card_state_of c);
  guard (negb (bool_decide (from = Review))) (Invalid "approval only in review") ≫= λ _,
  let by' := actor_hex op in
  execute (λ d,
    if existsb (λ a, bool_decide (ap_card a = o_subject op ∧ ap_by a = by')) (approvals d)
    then d else set_approvals (approvals d ++ [mk_approval (o_subject op) by']) d) ≫= λ _,
  append now by' "card.approved" (o_subject op) no_data ≫= λ _,
  mret tt.

(** An approval by a live identity that is not the owner. *)
Definition has_approval (id : string) (owner : option string) (d : db) : bool :=
  existsb (λ a, bool_decide (ap_card a = id) && bool_decide (Some (ap_by a) ≠ owner)
    && existsb (λ i, bool_decide (hex (i_pubkey i) = ap_by a) && negb (i_revoked i)) (identities d))
    (approvals d).

Definition has_evidence_row (id : string) (d : db) : bool :=
  existsb (λ e, bool_decide (ev_card e = id)) (evidence d).

Definition new_owner (to : CardState) (actor : string) (owner : option string) : option string :=
  match to with
  | Claimed => Some actor
  | Ready | Backlog => None
  | _ => owner
  end.

Definition clears_approvals (to : CardState) : bool :=
  match to with Claimed | Ready | Backlog | Doing => true | _ => false end.

Definition drop_approvals (id : string) (d : db) : db :=
  set_approvals (filter (λ a, ap_card a ≠ id) (approvals d)) d.

Definition transition (now : Z) (op : SignedOp) (require_review : bool) : tx unit :=
  role ← authorize now op "card.move";
  to ← lift (ok_or (card_parse (o_arg op)) (Invalid "unknown card state"));
  let id := o_subject op in
  c ← load_card id;
  from ← lift (card_state_of c);
  let owner := c_owner c in
  (if bool_decide (from = Backlog) then need role Supervisor else mret tt) ≫= λ _,
  has_evidence ← query (has_evidence_row id);
  independent_approval ← query (has_approval id owner);
  lift (match check_transition from to role (mk_gate has_evidence independent_approval require_review) with
        | Ok u => Ok u
        | Err e => Err (Transition e)
        end) ≫= λ _,
  let actor := actor_hex op in
  let guarded := match from with
                 | Claimed | Doing | Review => true
                 | Blocked => bool_decide (is_Some owner)
                 | _ => false
                 end in
  guard (guarded && role_lt role Supervisor && negb (bool_decide (owner = Some actor)))
    (Transition (Forbidden role)) ≫= λ _,
  (if bool_decide (to = Claimed ∨ to = Doing) && negb (bool_decide (from = Claimed ∨ from = Doing))
   then check_wip id require_review else mret tt) ≫= λ _,
  execute (λ d, if clears_approvals to then drop_approvals id d else d) ≫= λ _,
  execute (update_card id (with_state (card_as_str to) (new_owner to actor owner) now)) ≫= λ _,
  append now actor "card.moved" id
    (VObject [("from", VString (card_as_str from)); ("to", VString (card_as_str to))]) ≫= λ _,
  mret tt.

(** [state IN ('claimed','doing') AND updated < now - max_idle], oldest first. *)
Definition stale_cards (now max_idle : Z) (d : db) : list (string * option string) :=
  (λ c, (c_id c, c_owner c)) <$>
    sort_by (λ a b, Z.compare (c_updated a) (c_updated b))
      (filter (λ c, in_progress c = true ∧ (c_updated c < sat_i64 (now - max_idle))%Z) (cards d)).

Definition reclaim_stale (now : Z) (op : SignedOp) : tx unit :=
  role ← authorize now op "card.reclaim";
  need role Supervisor ≫= λ _,
  n ← query (λ d, length (filter (λ c, c_id c = o_subject op ∧ in_progress c = true) (cards d)));
  execute (λ d, set_cards (map (λ c,
    if bool_decide (c_id c = o_subject op) && in_progress c then with_state "ready" None now c
    else c) (cards d)) d) ≫= λ _,
  guard (Nat.eqb n 0) (Invalid "card is not claimed or in progress") ≫= λ _,
  execute (drop_approvals (o_subject op)) ≫= λ _,
  append now (actor_hex op) "card.reclaimed" (o_subject op) no_data ≫= λ _,
  mret tt.

Record CardRow : Type := mk_card_row {
  row_id : string; row_title : string; row_lane : string; row_state : CardState;
  row_owner : option string; row_updated : Z }.

(** Newest first, ties by id. *)
Definition newest (a b : card) : comparison :=
  then_with (Z.compare (c_updated b) (c_updated a)) (String.compare (c_id a) (c_id b)).

Definition list_cards (state : option CardState) (lane : option string) (limit : Z) (d : db) :
    result StoreError (list CardRow) :=
  foldr (λ c acc,
      s ← card_state_of c; rs ← acc;
      mret (mk_card_row (c_id c) (c_title c) (c_lane c) s (c_owner c) (c_updated c) :: rs)) (Ok [])
    (take (Z.to_nat (Z.max 0 (Z.min limit 500)))
      (sort_by newest (List.filter (λ c,
         from_option (λ s, bool_decide (c_state c = card_as_str s)) true state
         && from_option (λ l, bool_decide (c_lane c = l)) true lane) (cards d)))).

Definition card_update (now : Z) (op : SignedOp) : tx CardExt :=
  role ← authorize now op "card.update";
  args ← lift (ok_or (parse_update (o_arg op)) (Invalid "card update arg must be JSON"));
  let actor := actor_hex op in
  c ← load_card (o_subject op);
  check_edit role (c_owner c) actor ≫= λ _,
  let priority := default (c_priority c) (up_priority args) in
  value ← lift (from_option (λ v, check_positive v VALUE_MSG) (Ok (c_value c)) (up_value args));
  size ← lift (from_option (λ v, check_positive v SIZE_MSG) (Ok (c_size c)) (up_size args));
  team ← lift (from_option (λ t, check_team t ≫= λ _, Ok t) (Ok (c_team c)) (up_team args));
  let needs_owner := default (c_needs_owner c) (up_needs_owner args) in
  owner_action ← lift (from_option (λ a,
      if Nat.ltb OWNER_ACTION_MAX (length (chars a))
      then Err (Invalid "owner action is longer than 1000 characters") else Ok a)
    (Ok (c_owner_action c)) (up_owner_action args));
  execute (update_card (o_subject op) (λ c, mk_card (c_id c) (c_title c) (c_lane c) (c_state c)
    (c_owner c) (c_created c) (c_updated c) priority value size team needs_owner owner_action)) ≫= λ _,
  append now actor "card.updated" (o_subject op)
    (VObject [("priority", VNumber (NInt priority)); ("value", VNumber (NFloat value));
              ("size", VNumber (NFloat size)); ("team", VString team);
              ("needs_owner", VBool needs_owner); ("owner_action", VString owner_action)]) ≫= λ _,
  card_ext_of (o_subject op).

Definition card_dep (now : Z) (op : SignedOp) : tx unit :=
  role ← authorize now op "card.dep";
  args ← lift (ok_or (parse_dep (o_arg op)) (Invalid "card dep arg must be JSON"));
  let actor := actor_hex op in
  let id := o_subject op in
  c ← load_card id;
  check_edit role (c_owner c) actor ≫= λ _,
  guard (bool_decide (dep_after args = id)) (Invalid "a card cannot depend on itself") ≫= λ _,
  require_card (dep_after args) ≫= λ _,
  (if dep_remove args then
     n ← query (λ d, length (filter (λ e, d_card e = id ∧ d_after e = dep_after args) (card_deps d)));
     execute (λ d, set_deps (filter (λ e, ¬ (d_card e = id ∧ d_after e = dep_after args))
       (card_deps d)) d) ≫= λ _,
     guard (Nat.eqb n 0) (Invalid "card has no such dependency") ≫= λ _,
     append now actor "card.dep_removed" id (VObject [("after", VString (dep_after args))])
   else
     fresh ← insert_dep (mk_dep id (dep_after args));
     guard (negb fresh) (Invalid "card already depends on that card") ≫= λ _,
     check_acyclic ≫= λ _,
     append now actor "card.dep_added" id (VObject [("after", VString (dep_after args))])) ≫= λ _,
  mret tt.

Definition same_link (id rel target : string) (l : link) : bool :=
  bool_decide (ln_card l = id) && bool_decide (ln_rel l = rel) && bool_decide (ln_target l = target).

Definition card_link (now : Z) (op : SignedOp) : tx unit :=
  role ← authorize now op "card.link";
  args ← lift (ok_or (parse_link (o_arg op)) (Invalid "card link arg must be JSON"));
  let actor := actor_hex op in
  let id := o_subject op in
  c ← load_card id;
  check_edit role (c_owner c) actor ≫= λ _,
  guard (is_empty_str (lk_target args) || (256 <? str_len (lk_target args))%Z)
    (Invalid "link target must be 1 to 256 bytes") ≫= λ _,
  let rel := LinkRel_as_str (lk_rel args) in
  let data := VObject [("rel", VString rel); ("target", VString (lk_target args))] in
  there ← query (λ d, existsb (same_link id rel (lk_target args)) (card_links d));
  (if lk_remove args then
     execute (λ d, set_links (filter (λ l, same_link id rel (lk_target args) l = false)
       (card_links d)) d) ≫= λ _,
     guard (negb there) (Invalid "card has no such link") ≫= λ _,
     append now actor "card.unlinked" id data
   else
     guard there (Invalid "card already has that link") ≫= λ _,
     execute (λ d, set_links (card_links d ++ [mk_link id rel (lk_target args) now actor]) d) ≫= λ _,
     append now actor "card.linked" id data) ≫= λ _,
  mret tt.

Definition is_active_person (pk : string) : tx bool :=
  query (λ d, existsb (λ i, bool_decide (i_pubkey i = pk) && negb (i_revoked i) && negb (i_system i))
    (identities d)).

(** Hex keys of the live agents of at least Supervisor rank, sorted. *)
Definition supervisors : tx (list string) :=
  query (λ d, fst <$> List.filter (λ x,
      from_option (role_le Supervisor) false (role_parse (snd x)))
    (sort_by (λ a b, String.compare (fst a) (fst b))
      ((λ i, (hex (i_pubkey i), i_role i)) <$>
         filter (λ i, i_revoked i = false ∧ i_system i = false) (identities d)))).

Fixpoint check_targets (keys : list string) : tx unit :=
  match keys with
  | [] => mret tt
  | key :: keys' =>
      pk ← lift (ok_or (unhex32 key) (Invalid TARGET_MSG));
      active ← is_active_person pk;
      guard (negb active) (Invalid "escalation target is not an active identity") ≫= λ _,
      check_targets keys'
  end.

Fixpoint notify (now : Z) (targets : list string) (kind subject text : string) : tx unit :=
  match targets with
  | [] => mret tt
  | t :: targets' =>
      post_notice now t kind subject text ≫= λ _, notify now targets' kind subject text
  end.

Definition card_escalate (now : Z) (op : SignedOp) (require_review_default : bool) :
    tx (list string) :=
  role ← authorize now op "card.escalate";
  args ← lift (ok_or (parse_escalate (o_arg op)) (Invalid "card escalate arg must be JSON"));
  let actor := actor_hex op in
  c ← load_card (o_subject op);
  need role (if decide (c_owner c = Some actor) then Worker else Supervisor) ≫= λ _,
  let action := trim_matches is_whitespace (es_owner_action args) in
  guard (is_empty_str action) (Invalid "owner action must not be empty") ≫= λ _,
  guard (Nat.ltb OWNER_ACTION_MAX (length (chars action)))
    (Invalid "owner action is longer than 1000 characters") ≫= λ _,
  targets ← match es_to args with
            | [] =>
                e ← effective_for (c_team c) (c_lane c) require_review_default;
                match ef_escalation_chain e with
                | [] => supervisors
                | chain => mret (unique chain)
                end
            | keys =>
                guard (Nat.ltb ESCALATE_TARGETS_MAX (length keys)) (Invalid "too many escalation targets") ≫= λ _,
                check_targets keys ≫= λ _,
                mret (unique keys)
            end;
  execute (update_card (o_subject op) (λ c, mk_card (c_id c) (c_title c) (c_lane c) (c_state c)
    (c_owner c) (c_created c) (c_updated c) (c_priority c) (c_value c) (c_size c) (c_team c) true
    action)) ≫= λ _,
  let text := "card " +:+ o_subject op +:+ " (" +:+ c_title c +:+ ") needs its owner: " +:+ action in
  notify now targets "escalation" (o_subject op) text ≫= λ _,
  append now actor "card.escalated" (o_subject op)
    (VObject [("owner_action", VString action); ("notified", VArray (map VString targets))]) ≫= λ _,
  mret targets.

End Operations.

(** ** What each operation does when it commits *)

Section Effects.
Context `{P : Prims} `{PC : PolicyCodec} `{J : JsonText} `{C : BoardCodec}.

Lemma find_card_Some id d c : find_card id d = Some c → c ∈ cards d ∧ c_id c = id.
Proof.
  unfold find_card. destruct (list_find _ _) as [[n x]|] eqn:E; cbn; [|done]. intros [= ->].
  apply list_find_Some in E as (Hl & Hid & _). by apply list_elem_of_lookup_2 in Hl.
Qed.

Lemma load_card_Ok id d c d' : load_card id d = Ok (c, d') → d' = d ∧ c ∈ cards d ∧ c_id c = id.
Proof.
  unfold load_card. intros H. apply tx_bind_Ok in H as (r & ? & Hq & H).
  apply query_Ok in Hq as [-> ->]. apply lift_Ok in H as [H ->]. split; [done|].
  destruct (find_card id d) as [x|] eqn:E; [|done]. injection H as ->. by apply find_card_Some.
Qed.

Lemma require_card_Ok id d u d' :
  require_card id d = Ok (u, d') → d' = d ∧ ∃ c, c ∈ cards d ∧ c_id c = id.
Proof.
  unfold require_card. intros H. apply tx_bind_Ok in H as (b & ? & Hq & H).
  apply query_Ok in Hq as [-> ->]. apply guard_Ok in H as [H ->]. split; [done|].
  apply negb_false_iff, existsb_elem in H as (c & Hc & E). apply bool_decide_eq_true in E. eauto.
Qed.

Lemma card_state_of_Ok c d s d' :
  lift (card_state_of c) d = Ok (s, d') → d' = d ∧ card_parse (c_state c) = Some s.
Proof.
  intros [H ->]%lift_Ok. split; [done|]. unfold card_state_of in H.
  destruct (card_parse _); naive_solver.
Qed.

(** A new edge, or none when it is there. *)
Lemma insert_dep_Ok e d b d' :
  insert_dep e d = Ok (b, d') →
  d' = if b then set_deps (card_deps d ++ [e]) d else d.
Proof.
  unfold insert_dep. intros H. apply tx_bind_Ok in H as (s & ? & Hq & H).
  apply query_Ok in Hq as [-> ->]. destruct (existsb _ _); tx_inv; done.
Qed.

Definition new_edges (id : string) (d : db) (es : list dep) : Prop :=
  ∀ e, e ∈ es → d_card e = id ∧ d_after e ≠ id ∧ ∃ c, c ∈ cards d ∧ c_id c = d_after e.

Lemma insert_deps_Ok after id d u d' :
  insert_deps after id d = Ok (u, d') →
  ∃ es, d' = set_deps (card_deps d ++ es) d ∧ new_edges id d es.
Proof.
  revert d. induction after as [|a after IH]; intros d; cbn [insert_deps]; intros H.
  { apply mret_Ok in H as [_ ->]. exists []. split; [rewrite app_nil_r; by destruct d|].
    by intros e ?%elem_of_nil. }
  apply tx_bind_Ok in H as (? & ? & Hx & H). apply guard_Ok in Hx as [Hne ->].
  apply bool_decide_eq_false in Hne.
  apply tx_bind_Ok in H as (? & ? & Hx & H). apply require_card_Ok in Hx as [-> Hc].
  apply tx_bind_Ok in H as (b & ? & Hx & H). apply insert_dep_Ok in Hx as ->.
  apply IH in H as (es & -> & Hes). destruct b.
  - exists (mk_dep id a :: es). split; [cbn; by rewrite <- app_assoc|].
    intros e [->|He]%elem_of_cons; [done|]. exact (Hes e He).
  - by exists es.
Qed.

Lemma create_card_Ok now op d u d' :
  create_card now op d = Ok (u, d') →
  ∃ c es data, c_id c = o_subject op ∧ c_state c = card_as_str Backlog ∧ c_owner c = None ∧
    (∀ x, x ∈ cards d → c_id x ≠ o_subject op) ∧
    new_edges (o_subject op) (set_cards (cards d ++ [c]) d) es ∧
    d' = logged now (actor_hex op) "card.created" (o_subject op) data
           (set_deps (card_deps d ++ es) (set_cards (cards d ++ [c]) (with_nonce now op d))).
Proof.
  unfold create_card. intros H.
  apply tx_bind_Ok in H as (role & ? & Hx & H). apply authorize_Ok in Hx as [_ ->].
  apply tx_bind_Ok in H as (? & ? & Hx & H). apply need_Ok in Hx as [-> _].
  apply tx_bind_Ok in H as (? & ? & Hx & H). apply guard_Ok in Hx as [_ ->].
  apply tx_bind_Ok in H as (arg & ? & Hx & H). apply lift_Ok in Hx as [_ ->].
  apply tx_bind_Ok in H as (title & ? & Hx & H). apply lift_Ok in Hx as [_ ->].
  apply tx_bind_Ok in H as (lane & ? & Hx & H). apply lift_Ok in Hx as [_ ->].
  apply tx_bind_Ok in H as (fields & ? & Hx & H). apply lift_Ok in Hx as [_ ->].
  apply tx_bind_Ok in H as (ex & ? & Hx & H). apply query_Ok in Hx as [-> ->].
  apply tx_bind_Ok in H as (? & ? & Hx & H). apply guard_Ok in Hx as [Hex ->].
  apply tx_bind_Ok in H as (? & ? & Hx & H). apply execute_Ok in Hx as ->.
  apply tx_bind_Ok in H as (? & ? & Hx & H). apply insert_deps_Ok in Hx as (es & -> & Hes).
  apply tx_bind_Ok in H as (? & ? & Hx & H). apply append_Ok in Hx as ->.
  apply mret_Ok in H as [_ ->]. do 3 eexists. split_and!; [..|reflexivity]; try done.
  intros y Hy. apply (existsb_none _ _ y) in Hex; [|done]. by apply bool_decide_eq_false in Hex.
Qed.

Lemma add_evidence_Ok now op d u d' :
  add_evidence now op d = Ok (u, d') →
  ∃ es data, (∃ c, c ∈ cards d ∧ c_id c = o_subject op) ∧
    (∀ e, e ∈ es → ev_card e = o_subject op) ∧
    d' = logged now (actor_hex op) "card.evidence" (o_subject op) data
           (set_evidence (evidence d ++ es) (with_nonce now op d)).
Proof.
  unfold add_evidence. intros H.
  apply tx_bind_Ok in H as (role & ? & Hx & H). apply authorize_Ok in Hx as [_ ->].
  apply tx_bind_Ok in H as (? & ? & Hx & H). apply need_Ok in Hx as [-> _].
  apply tx_bind_Ok in H as (? & ? & Hx & H). apply guard_Ok in Hx as [_ ->].
  apply tx_bind_Ok in H as (? & ? & Hx & H). apply require_card_Ok in Hx as [-> Hc].
  tx_inv. destruct (existsb _ _).
  - exists []. eexists. split_and!; [done|by intros e ?%elem_of_nil|]. rewrite app_nil_r. reflexivity.
  - eexists [_]. eexists. split_and!; [done| |reflexivity]. by intros e ->%list_elem_of_singleton.
Qed.

Lemma approve_Ok now op d u d' :
  approve now op d = Ok (u, d') →
  ∃ c as' data, c ∈ cards d ∧ c_id c = o_subject op ∧ card_parse (c_state c) = Some Review ∧
    (∀ a, a ∈ as' → ap_card a = o_subject op) ∧
    d' = logged now (actor_hex op) "card.approved" (o_subject op) data
           (set_approvals (approvals d ++ as') (with_nonce now op d)).
Proof.
  unfold approve. intros H.
  apply tx_bind_Ok in H as (role & ? & Hx & H). apply authorize_Ok in Hx as [_ ->].
  apply tx_bind_Ok in H as (? & ? & Hx & H). apply need_Ok in Hx as [-> _].
  apply tx_bind_Ok in H as (c & ? & Hx & H). apply load_card_Ok in Hx as (-> & Hc & Hid).
  apply tx_bind_Ok in H as (from & ? & Hx & H). apply card_state_of_Ok in Hx as [-> Hs].
  apply tx_bind_Ok in H as (? & ? & Hx & H). apply guard_Ok in Hx as [Hr ->].
  apply negb_false_iff, bool_decide_eq_true in Hr. subst from.
  exists c. tx_inv. destruct (existsb _ _).
  - exists []. eexists. split_and!; [done..|by intros e ?%elem_of_nil|]. rewrite app_nil_r. reflexivity.
  - eexists [_]. eexists. split_and!; [done..| |reflexivity]. by intros e ->%list_elem_of_singleton.
Qed.

Lemma check_wip_state id rr d u d' : check_wip id rr d = Ok (u, d') → d' = d.
Proof.
  unfold check_wip. intros H.
  apply tx_bind_Ok in H as (c & ? & Hx & H). apply load_card_Ok in Hx as (-> & _).
  apply tx_bind_Ok in H as (e & ? & Hx & H). apply effective_for_state in Hx as ->.
  destruct (ef_wip_limit e); tx_inv; done.
Qed.

Lemma transition_Ok now op rr d u d' :
  transition now op rr d = Ok (u, d') →
  ∃ c from to role, c ∈ cards d ∧ c_id c = o_subject op ∧ card_parse (c_state c) = Some from ∧
    authorized now op "card.move" role d ∧ (from = Backlog → role_le Supervisor role = true) ∧
    check_transition from to role
      (mk_gate (has_evidence_row (o_subject op) d) (has_approval (o_subject op) (c_owner c) d) rr) = Ok tt ∧
    (from ∈ [Claimed; Doing; Review] → role_le Supervisor role = true ∨ c_owner c = Some (actor_hex op)) ∧
    d' = logged now (actor_hex op) "card.moved" (o_subject op)
           (VObject [("from", VString (card_as_str from)); ("to", VString (card_as_str to))])
           (update_card (o_subject op)
              (with_state (card_as_str to) (new_owner to (actor_hex op) (c_owner c)) now)
              ((if clears_approvals to then drop_approvals (o_subject op) else id)
                 (with_nonce now op d))).
Proof.
  unfold transition. intros H.
  apply tx_bind_Ok in H as (role & ? & Hx & H). apply authorize_Ok in Hx as [Hau ->].
  apply tx_bind_Ok in H as (to & ? & Hx & H). apply lift_Ok in Hx as [_ ->]. cbn zeta in H.
  apply tx_bind_Ok in H as (c & ? & Hx & H). apply load_card_Ok in Hx as (-> & Hc & Hid).
  apply tx_bind_Ok in H as (from & ? & Hx & H). apply card_state_of_Ok in Hx as [-> Hs].
  apply tx_bind_Ok in H as (? & ? & Hx & H). apply if_need_Ok in Hx as [-> Hb].
  apply tx_bind_Ok in H as (ev & ? & Hx & H). apply query_Ok in Hx as [-> ->].
  apply tx_bind_Ok in H as (ap & ? & Hx & H). apply query_Ok in Hx as [-> ->].
  apply tx_bind_Ok in H as (? & ? & Hx & H). apply lift_Ok in Hx as [Hck ->].
  apply tx_bind_Ok in H as (? & ? & Hx & H). apply guard_Ok in Hx as [Hg ->].
  apply tx_bind_Ok in H as (? & d1 & Hx & H).
  assert (d1 = with_nonce now op d) as ->.
  { destruct (_ && _) in Hx; [by apply check_wip_state in Hx|by tx_inv]. }
  apply tx_bind_Ok in H as (? & ? & Hy & H). apply execute_Ok in Hy as ->.
  apply tx_bind_Ok in H as (? & ? & Hy & H). apply execute_Ok in Hy as ->.
  apply tx_bind_Ok in H as (? & ? & Hy & H). apply append_Ok in Hy as ->.
  apply mret_Ok in H as [_ ->].
  exists c, from, to, role. split_and!; try done.
  - intros ->. by apply Hb.
  - destruct (check_transition _ _ _ _) as [[]|] eqn:E in Hck; [exact E|done].
  - intros Hf. destruct (role_lt role Supervisor) eqn:Er.
    + right. assert (match from with Claimed | Doing | Review => true
        | Blocked => bool_decide (is_Some (c_owner c)) | _ => false end = true) as Eg.
      { rewrite !elem_of_cons in Hf. destruct_or! Hf; try (by subst from). by apply elem_of_nil in Hf. }
      rewrite Eg in Hg. cbn [andb] in Hg. by apply negb_false_iff, bool_decide_eq_true in Hg.
    + left. unfold role_lt, role_le in *. apply Nat.ltb_ge in Er. by apply Nat.leb_le.
  - by destruct (clears_approvals to).
Qed.

Lemma reclaim_stale_Ok now op d u d' :
  reclaim_stale now op d = Ok (u, d') →
  ∃ c role data, c ∈ cards d ∧ c_id c = o_subject op ∧ in_progress c = true ∧
    authorized now op "card.reclaim" role d ∧ role_le Supervisor role = true ∧
    d' = logged now (actor_hex op) "card.reclaimed" (o_subject op) data
           (drop_approvals (o_subject op)
              (set_cards (map (λ c, if bool_decide (c_id c = o_subject op) && in_progress c
                 then with_state "ready" None now c else c) (cards d)) (with_nonce now op d))).
Proof.
  unfold reclaim_stale. intros H.
  apply tx_bind_Ok in H as (role & ? & Hx & H). apply authorize_Ok in Hx as [Hau ->].
  apply tx_bind_Ok in H as (? & ? & Hx & H). apply need_Ok in Hx as [-> Hr].
  apply tx_bind_Ok in H as (n & ? & Hx & H). apply query_Ok in Hx as [-> ->].
  apply tx_bind_Ok in H as (? & ? & Hx & H). apply execute_Ok in Hx as ->.
  apply tx_bind_Ok in H as (? & ? & Hx & H). apply guard_Ok in Hx as [Hn ->].
  tx_inv. apply Nat.eqb_neq in Hn. destruct (filter _ _) as [|c l] eqn:E; [done|].
  assert (c ∈ filter (λ c, c_id c = o_subject op ∧ in_progress c = true) (cards (with_nonce now op d))) as Hc.
  { rewrite E. by left. }
  apply list_elem_of_filter in Hc as [[? ?] ?].
  exists c, role. eexists. split_and!; try done.
Qed.

(** Two operations that touch no column of the board's state. *)
Definition same_board (c c' : card) : Prop :=
  c_id c' = c_id c ∧ c_state c' = c_state c ∧ c_owner c' = c_owner c ∧ c_updated c' = c_updated c.

Lemma check_edit_state role owner actor d u d' :
  check_edit role owner actor d = Ok (u, d') → d' = d.
Proof. unfold check_edit. destruct owner; [case_decide|]; by intros [-> _]%need_Ok. Qed.

Lemma card_ext_of_state id d x d' : card_ext_of id d = Ok (x, d') → d' = d.
Proof.
  unfold card_ext_of. intros H.
  apply tx_bind_Ok in H as (? & ? & Hz & H). apply load_card_Ok in Hz as (-> & _). by tx_inv.
Qed.

Lemma card_update_Ok now op d x d' :
  card_update now op d = Ok (x, d') →
  ∃ f data, (∀ c, same_board c (f c)) ∧
    d' = logged now (actor_hex op) "card.updated" (o_subject op) data
           (update_card (o_subject op) f (with_nonce now op d)).
Proof.
  unfold card_update. intros H.
  apply tx_bind_Ok in H as (role & ? & Hx & H). apply authorize_Ok in Hx as [_ ->].
  apply tx_bind_Ok in H as (args & ? & Hx & H). apply lift_Ok in Hx as [_ ->]. cbn zeta in H.
  apply tx_bind_Ok in H as (c & ? & Hx & H). apply load_card_Ok in Hx as (-> & _).
  apply tx_bind_Ok in H as (? & d1 & Hx & H). apply check_edit_state in Hx as ->.
  do 4 (apply tx_bind_Ok in H as (? & ? & Hx' & H); apply lift_Ok in Hx' as [_ ->]).
  apply tx_bind_Ok in H as (? & ? & Hy & H). apply execute_Ok in Hy as ->.
  apply tx_bind_Ok in H as (? & ? & Hy & H). apply append_Ok in Hy as ->.
  apply card_ext_of_state in H as ->.
  do 2 eexists. split; [|reflexivity]. done.
Qed.

Lemma card_dep_Ok now op d u d' :
  card_dep now op d = Ok (u, d') →
  ∃ kind after data, kind ∈ ["card.dep_added"; "card.dep_removed"] ∧
    (∃ c, c ∈ cards d ∧ c_id c = o_subject op) ∧ (∃ c, c ∈ cards d ∧ c_id c = after) ∧
    ∃ deps', d' = logged now (actor_hex op) kind (o_subject op) data
                    (set_deps deps' (with_nonce now op d)) ∧
      ((∀ e, e ∈ deps' → e ∈ card_deps d) ∨
       deps' = card_deps d ++ [mk_dep (o_subject op) after] ∧
       ∃ g, Graph_new (dep_tasks deps') = Ok g).
Proof.
  unfold card_dep. intros H.
  apply tx_bind_Ok in H as (role & ? & Hx & H). apply authorize_Ok in Hx as [_ ->].
  apply tx_bind_Ok in H as (args & ? & Hx & H). apply lift_Ok in Hx as [_ ->]. cbn zeta in H.
  apply tx_bind_Ok in H as (c & ? & Hx & H). apply load_card_Ok in Hx as (-> & Hc & Hid).
  apply tx_bind_Ok in H as (? & d1 & Hx & H). apply check_edit_state in Hx as ->.
  apply tx_bind_Ok in H as (? & ? & Hx & H). apply guard_Ok in Hx as [_ ->].
  apply tx_bind_Ok in H as (? & ? & Hx & H). apply require_card_Ok in Hx as [-> Ha].
  apply tx_bind_Ok in H as (? & ? & Hx & H). apply mret_Ok in H as [_ ->].
  destruct (dep_remove args).
  - exists "card.dep_removed", (dep_after args). eexists.
    apply tx_bind_Ok in Hx as (n & ? & Hy & Hx). apply query_Ok in Hy as [-> ->].
    apply tx_bind_Ok in Hx as (? & ? & Hy & Hx). apply execute_Ok in Hy as ->.
    apply tx_bind_Ok in Hx as (? & ? & Hy & Hx). apply guard_Ok in Hy as [_ ->].
    apply append_Ok in Hx as ->. split_and!; [set_solver|eauto|done|].
    eexists. split; [reflexivity|]. left. intros e He. by apply list_elem_of_filter in He as [_ He].
  - exists "card.dep_added", (dep_after args). eexists.
    apply tx_bind_Ok in Hx as (fresh & ? & Hy & Hx). apply insert_dep_Ok in Hy as ->.
    apply tx_bind_Ok in Hx as (? & ? & Hy & Hx). apply guard_Ok in Hy as [Hf ->].
    apply negb_false_iff in Hf. subst fresh.
    apply tx_bind_Ok in Hx as (? & ? & Hy & Hx). unfold check_acyclic in Hy.
    apply tx_bind_Ok in Hy as (deps & ? & Hq & Hy). apply query_Ok in Hq as [-> ->].
    apply lift_Ok in Hy as [Hg ->]. apply append_Ok in Hx as ->.
    split_and!; [set_solver|eauto|done|]. eexists. split; [reflexivity|]. right. split; [done|].
    cbn [card_deps set_deps] in Hg. destruct (Graph_new _) as [g|]; [|done]. by exists g.
Qed.

Lemma card_link_Ok now op d u d' :
  card_link now op d = Ok (u, d') →
  ∃ kind ls data, kind ∈ ["card.linked"; "card.unlinked"] ∧
    d' = logged now (actor_hex op) kind (o_subject op) data (set_links ls (with_nonce now op d)).
Proof.
  unfold card_link. intros H.
  apply tx_bind_Ok in H as (role & ? & Hx & H). apply authorize_Ok in Hx as [_ ->].
  apply tx_bind_Ok in H as (args & ? & Hx & H). apply lift_Ok in Hx as [_ ->]. cbn zeta in H.
  apply tx_bind_Ok in H as (c & ? & Hx & H). apply load_card_Ok in Hx as (-> & Hc & Hid).
  apply tx_bind_Ok in H as (? & d1 & Hx & H). apply check_edit_state in Hx as ->.
  apply tx_bind_Ok in H as (? & ? & Hx & H). apply guard_Ok in Hx as [_ ->].
  apply tx_bind_Ok in H as (there & ? & Hx & H). apply query_Ok in Hx as [-> ->].
  apply tx_bind_Ok in H as (? & ? & Hx & H). apply mret_Ok in H as [_ ->].
  destruct (lk_remove args); tx_inv.
  - exists "card.unlinked". do 2 eexists. split; [set_solver|reflexivity].
  - exists "card.linked". do 2 eexists. split; [set_solver|reflexivity].
Qed.

Lemma notify_Ok now targets kind subject text d u d' :
  notify now targets kind subject text d = Ok (u, d') → ∃ t n, d' = set_notices t n d.
Proof.
  revert d. induction targets as [|t ts IH]; intros d; cbn [notify]; intros H.
  { apply mret_Ok in H as [_ ->]. exists (notices d), (notice_seq d). by destruct d. }
  apply tx_bind_Ok in H as (? & ? & Hx & H). unfold post_notice in Hx. tx_inv.
  apply IH in H as (t' & n & ->). by exists t', n.
Qed.

Lemma check_targets_state keys d u d' : check_targets keys d = Ok (u, d') → d' = d.
Proof.
  revert d. induction keys as [|k ks IH]; intros d; cbn [check_targets]; intros H; [by tx_inv|].
  apply tx_bind_Ok in H as (pk & ? & Hx & H). apply lift_Ok in Hx as [_ ->].
  apply tx_bind_Ok in H as (b & ? & Hx & H). unfold is_active_person in Hx. apply query_Ok in Hx as [_ ->].
  apply tx_bind_Ok in H as (? & ? & Hx & H). apply guard_Ok in Hx as [_ ->]. by apply IH in H.
Qed.

Lemma card_escalate_Ok now op rr d x d' :
  card_escalate now op rr d = Ok (x, d') →
  ∃ f t n data, (∀ c, same_board c (f c)) ∧
    d' = logged now (actor_hex op) "card.escalated" (o_subject op) data
           (set_notices t n (update_card (o_subject op) f (with_nonce now op d))).
Proof.
  unfold card_escalate. intros H.
  apply tx_bind_Ok in H as (role & ? & Hx & H). apply authorize_Ok in Hx as [_ ->].
  apply tx_bind_Ok in H as (args & ? & Hx & H). apply lift_Ok in Hx as [_ ->]. cbn zeta in H.
  apply tx_bind_Ok in H as (c & ? & Hx & H). apply load_card_Ok in Hx as (-> & Hc & Hid).
  apply tx_bind_Ok in H as (? & ? & Hx & H). apply need_Ok in Hx as [-> _].
  do 2 (apply tx_bind_Ok in H as (? & ? & Hx & H); apply guard_Ok in Hx as [_ ->]).
  apply tx_bind_Ok in H as (targets & d1 & Hx & H).
  assert (d1 = with_nonce now op d) as ->.
  { destruct (es_to args) as [|k ks].
    - apply tx_bind_Ok in Hx as (e & ? & Hy & Hx). apply effective_for_state in Hy as ->.
      destruct (ef_escalation_chain e); [unfold supervisors in Hx|]; by tx_inv.
    - apply tx_bind_Ok in Hx as (? & ? & Hy & Hx). apply guard_Ok in Hy as [_ ->].
      apply tx_bind_Ok in Hx as (? & ? & Hy & Hx). apply check_targets_state in Hy as ->. by tx_inv. }
  apply tx_bind_Ok in H as (? & ? & Hy & H). apply execute_Ok in Hy as ->.
  apply tx_bind_Ok in H as (? & ? & Hy & H). apply notify_Ok in Hy as (t & n & ->).
  apply tx_bind_Ok in H as (? & ? & Hy & H). apply append_Ok in Hy as ->.
  apply mret_Ok in H as [_ ->]. do 4 eexists. split; [|reflexivity]. done.
Qed.

End Effects.
