(* ===== verification/BoardLog.v ===== *)
(** * The board as a projection of its events

    [src/crates/agora-store/src/lib.rs] says that the events table is the source
    of truth and the cards table a projection of it.  Here: the abstract
    lifecycle of one card, the replay of the event log, the invariant of the
    board's tables, and that every card operation keeps the invariant and is a
    step of the lifecycle or leaves the card alone. *)

From Stdlib Require Import Ascii.
From stdpp Require Import relations.
From S2P Require Import Prelude F64 Strs PyFmt Bytes Core Crypto Task Graph Settings StoreDb Identity.
From S2P Require Import Policy Board.

(** ** The abstract lifecycle *)

(** The edges along which the end of a job moves its card. *)
Definition job_edge (from to : CardState) : bool :=
  match from, to with
  | Claimed, Doing | Doing, Review => true
  | (Claimed | Doing | Review), (Blocked | Ready) => true
  | _, _ => false
  end.

(** One card: absent, or in a state. *)
Inductive life : option CardState → option CardState → Prop :=
| life_create : life None (Some Backlog)
| life_blocker : life None (Some Blocked)
| life_move from to role gate :
    check_transition from to role gate = Ok tt →
    (from = Backlog → role_le Supervisor role = true) →
    life (Some from) (Some to)
| life_reclaim from :
    from = Claimed ∨ from = Doing → life (Some from) (Some Ready)
| life_job from to : job_edge from to = true → life (Some from) (Some to).

(** What an event says about the card [id]. *)
Definition apply_event (id : string) (s : option CardState) (e : event) : option CardState :=
  if negb (bool_decide (e_subject e = id)) then s
  else if bool_decide (e_kind e = "card.created") then Some Backlog
  else if bool_decide (e_kind e = "card.moved")
  then match (vget "to" (e_data e) ≫= v_str) ≫= card_parse with Some t => Some t | None => s end
  else if bool_decide (e_kind e = "card.reclaimed") then Some Ready
  else s.

Definition replay (evs : list event) (id : string) : option CardState :=
  foldl (apply_event id) None evs.

(** The state the cards table has for [id]. *)
Definition card_at (id : string) (d : db) : option CardState :=
  find_card id d ≫= λ c, card_parse (c_state c).

(** ** Dependencies *)

Definition dep_edge (deps : list dep) (a b : string) : Prop := mk_dep b a ∈ deps.

Definition deps_acyclic (deps : list dep) : Prop := ∀ c, ¬ tc (dep_edge deps) c c.

(** ** The invariant *)

Definition owner_fits (s : CardState) (owner : option string) : Prop :=
  match s with
  | Backlog | Ready => owner = None
  | Claimed | Doing | Review | Done => is_Some owner
  | Blocked | Cancelled => True
  end.

(** Ids are unique; a state parses, fits the owner column, and a done card has
    evidence; an approval belongs to a card that has not gone back to the pool
    or to work; dependencies join cards and have no cycle; and the events
    replay to the states, but for a blocker the daemon opened and nobody moved:
    its event says no more than that it was created. *)
Definition log_agrees (id : string) (d : db) : Prop :=
  replay (events d) id = card_at id d ∨
  starts_with "blocker-" id = true ∧ replay (events d) id = Some Backlog ∧ card_at id d = Some Blocked.

Record board_wf (d : db) : Prop := {
  bw_ids : NoDup (c_id <$> cards d);
  bw_card c : c ∈ cards d → ∃ s, card_parse (c_state c) = Some s ∧ owner_fits s (c_owner c) ∧
    (s = Done → has_evidence_row (c_id c) d = true);
  bw_approval a : a ∈ approvals d → ∃ c s, c ∈ cards d ∧ c_id c = ap_card a ∧
    card_parse (c_state c) = Some s ∧ clears_approvals s = false;
  bw_dep e : e ∈ card_deps d →
    (∃ c, c ∈ cards d ∧ c_id c = d_card e) ∧ (∃ c, c ∈ cards d ∧ c_id c = d_after e);
  bw_acyclic : deps_acyclic (card_deps d);
  bw_log id : log_agrees id d }.

(** ** Dependency graphs *)

Lemma dep_tasks_lookup deps i id :
  sort_by String.compare (remove_dups ((d_after <$> deps) ++ (d_card <$> deps))) !! i = Some id →
  ∃ t, dep_tasks deps !! i = Some t ∧ t_id t = id ∧ t_after t = d_after <$> filter (λ e, d_card e = id) deps.
Proof. intros H. unfold dep_tasks. rewrite list_lookup_imap, H. cbn. eauto. Qed.

Lemma dep_tasks_key deps id :
  id ∈ (d_after <$> deps) ++ (d_card <$> deps) →
  ∃ i t, dep_tasks deps !! i = Some t ∧ t_id t = id ∧ t_after t = d_after <$> filter (λ e, d_card e = id) deps.
Proof.
  intros H. assert (id ∈ sort_by String.compare (remove_dups ((d_after <$> deps) ++ (d_card <$> deps)))) as Hk.
  { apply elem_of_sort_by, elem_of_remove_dups, H. }
  apply list_elem_of_lookup in Hk as [i Hi]. exists i. by apply dep_tasks_lookup.
Qed.

(** Ids of the task list are distinct, so a position is its id. *)
Lemma dep_tasks_ids deps : ids_distinct (dep_tasks deps).
Proof.
  unfold ids_distinct, dep_tasks. rewrite fmap_imap.
  replace (imap _ _) with (sort_by String.compare (remove_dups ((d_after <$> deps) ++ (d_card <$> deps)))).
  - rewrite sort_by_perm. apply NoDup_remove_dups.
  - generalize (sort_by String.compare (remove_dups ((d_after <$> deps) ++ (d_card <$> deps)))).
    intros l. symmetry. apply list_eq. intros i. rewrite list_lookup_imap. by destruct (l !! i).
Qed.

Lemma dep_edge_key deps a b : dep_edge deps a b → b ∈ (d_after <$> deps) ++ (d_card <$> deps).
Proof. intros H. apply elem_of_app. right. by apply (list_elem_of_fmap_2 d_card _ (mk_dep b a)). Qed.

(** An edge of cards is a prerequisite between their positions. *)
Lemma dep_edge_prereq deps a b p tp q tq :
  dep_edge deps a b → dep_tasks deps !! p = Some tp → t_id tp = a →
  dep_tasks deps !! q = Some tq → t_id tq = b → prereq (dep_tasks deps) p q.
Proof.
  intros H Hp Ea Hq Eb. exists tp, tq. split_and!; [done..|].
  destruct (dep_tasks_key deps b) as (q' & tq' & Hq' & Eb' & Ha'); [by eapply dep_edge_key|].
  assert (q' = q) as ->.
  { apply (NoDup_lookup (t_id <$> dep_tasks deps) q' q b); [apply dep_tasks_ids|..];
      rewrite list_lookup_fmap; [rewrite Hq'|rewrite Hq]; cbn; congruence. }
  assert (tq' = tq) as -> by congruence. rewrite Ha', Ea.
  apply (list_elem_of_fmap_2 d_after _ (mk_dep b a)), list_elem_of_filter. done.
Qed.

(** What [Graph::new] accepts has no cycle of cards. *)
Lemma dep_tasks_acyclic deps g : Graph_new (dep_tasks deps) = Ok g → deps_acyclic deps.
Proof.
  intros Hg c Hc. apply Graph_new_ok in Hg as [Et Hok]. pose proof (graph_ok_acyclic g Hok) as Hac.
  rewrite Et in Hac.
  assert (∀ a b, tc (dep_edge deps) a b → ∀ p tp q tq,
    dep_tasks deps !! p = Some tp → t_id tp = a → dep_tasks deps !! q = Some tq → t_id tq = b →
    tc (prereq (dep_tasks deps)) p q) as Hwalk.
  { intros a b H. induction H as [a b H|a m b H Hm IH]; intros p tp q tq Hp Ea Hq Eb.
    - apply tc_once. by eapply dep_edge_prereq.
    - destruct (dep_tasks_key deps m) as (r & tr & Hr & Em & _); [by eapply dep_edge_key|].
      eapply tc_l; [by eapply dep_edge_prereq|by eapply IH]. }
  assert (∃ x, dep_edge deps x c) as [x Hx].
  { clear -Hc. induction Hc as [a b H|a m b H _ IH]; eauto. }
  destruct (dep_tasks_key deps c) as (p & tp & Hp & Ec & _); [by eapply dep_edge_key|].
  by apply (Hac p), (Hwalk c c Hc p tp p tp).
Qed.

Lemma deps_acyclic_sub deps deps' :
  (∀ e, e ∈ deps' → e ∈ deps) → deps_acyclic deps → deps_acyclic deps'.
Proof.
  intros Hs Hac c Hc. apply (Hac c). revert Hc. generalize c at 2 4. intros b Hc.
  induction Hc as [x y H|x m y H _ IH].
  - apply tc_once. exact (Hs _ H).
  - eapply tc_l; [exact (Hs _ H)|done].
Qed.

(** Edges of a card nothing waits for yet close no cycle. *)
Lemma deps_acyclic_new deps es id :
  deps_acyclic deps → (∀ e, e ∈ deps → d_after e ≠ id) →
  (∀ e, e ∈ es → d_card e = id ∧ d_after e ≠ id) → deps_acyclic (deps ++ es).
Proof.
  intros Hac Hno Hes.
  assert (∀ b, ¬ dep_edge (deps ++ es) id b) as Hout.
  { intros b [H|H]%elem_of_app; [by apply Hno in H|by apply Hes in H as [_ H]]. }
  assert (∀ a b, tc (dep_edge (deps ++ es)) a b → b = id ∨ tc (dep_edge deps) a b) as Hold.
  { intros a b H. induction H as [a b H|a m b H Hm IH].
    - apply elem_of_app in H as [H|H]; [right; by apply tc_once|left]. by apply Hes in H as [H _].
    - destruct IH as [->|IH]; [by left|right]. apply elem_of_app in H as [H|H].
      + by eapply tc_l.
      + apply Hes in H as [H _]. cbn in H. subst m. exfalso.
        clear -Hm Hout. inversion Hm; subst; eapply Hout; eauto. }
  intros c Hc. destruct (Hold c c Hc) as [->|H]; [|by apply (Hac c)].
  inversion Hc; subst; eapply Hout; eauto.
Qed.

(** ** Looking cards up *)

Lemma find_map {R} (key : R → string) (g : R → R) t k :
  (∀ x, key (g x) = key x) →
  snd <$> list_find (λ x, key x = k) (map g t) = g <$> (snd <$> list_find (λ x, key x = k) t).
Proof.
  intros Hg. induction t as [|x t IH]; [done|]. cbn [map list_find]. rewrite Hg.
  case_decide; [done|]. cbn in IH |- *.
  destruct (list_find _ (map g t)) as [[]|], (list_find _ t) as [[]|]; cbn in *; congruence.
Qed.

Lemma find_app {R} (key : R → string) t x k :
  snd <$> list_find (λ x, key x = k) (t ++ [x]) =
    match snd <$> list_find (λ x, key x = k) t with
    | Some y => Some y
    | None => if decide (key x = k) then Some x else None
    end.
Proof.
  induction t as [|y t IH]; cbn [app list_find].
  { cbn. by destruct (decide (key x = k)). }
  destruct (decide (key y = k)); [done|].
  destruct (list_find _ (t ++ [x])) as [[]|], (list_find _ t) as [[]|]; cbn in *;
    by try destruct (decide (key x = k)).
Qed.

Lemma find_card_elem d c : NoDup (c_id <$> cards d) → c ∈ cards d → find_card (c_id c) d = Some c.
Proof.
  intros Hd Hc. unfold find_card. destruct (list_find _ _) as [[n x]|] eqn:E.
  - apply list_find_Some in E as (Hl & Hid & _). apply list_elem_of_lookup_2 in Hl. cbn.
    f_equal. by apply (key_inj c_id (cards d)).
  - apply list_find_None in E. rewrite Forall_forall in E. by destruct (E c).
Qed.

Lemma find_card_None id d c : find_card id d = None → c ∈ cards d → c_id c ≠ id.
Proof.
  unfold find_card. destruct (list_find _ _) as [[n x]|] eqn:E; cbn; [done|].
  intros _. apply list_find_None in E. rewrite Forall_forall in E. apply E.
Qed.

Lemma card_at_update id d f id' :
  (∀ c, c_id (f c) = c_id c) →
  find_card id' (update_card id f d) =
    (if decide (id' = id) then f else λ c, c) <$> find_card id' d.
Proof.
  intros Hf. unfold find_card, update_card. cbn [cards set_cards]. rewrite find_map.
  - destruct (list_find _ _) as [[n c]|] eqn:E; cbn; [|done].
    apply list_find_Some in E as (_ & Hid & _). by repeat case_decide; subst.
  - intros c. by case_decide.
Qed.

Lemma replay_snoc evs e id : replay (evs ++ [e]) id = apply_event id (replay evs id) e.
Proof. unfold replay. by rewrite foldl_app. Qed.

(** Kinds the replay does not read. *)
Definition silent (kind : string) : Prop :=
  kind ≠ "card.created" ∧ kind ≠ "card.moved" ∧ kind ≠ "card.reclaimed".

Lemma apply_silent id s e : silent (e_kind e) → apply_event id s e = s.
Proof.
  intros (H1 & H2 & H3). unfold apply_event. by repeat case_bool_decide.
Qed.

(** What an event says of a card does not depend on what was said before. *)
Lemma apply_event_const id e : (∀ s, apply_event id s e = s) ∨ ∃ t, ∀ s, apply_event id s e = t.
Proof. unfold apply_event. repeat case_match; eauto. Qed.

(** ** Keeping the invariant *)

Definition known (d : db) (id : string) : Prop := ∃ c, c ∈ cards d ∧ c_id c = id.

(** Rows change in place, and the log gets the event that says how. *)
Lemma board_wf_map d d' g e :
  board_wf d → cards d' = map g (cards d) → (∀ c, c_id (g c) = c_id c) →
  (∀ c, c ∈ cards d → ∃ s, card_parse (c_state (g c)) = Some s ∧ owner_fits s (c_owner (g c)) ∧
     (s = Done → has_evidence_row (c_id c) d' = true)) →
  (∀ a, a ∈ approvals d' → ∃ c s, c ∈ cards d ∧ c_id c = ap_card a ∧
     card_parse (c_state (g c)) = Some s ∧ clears_approvals s = false) →
  (∀ x, x ∈ card_deps d' → known d (d_card x) ∧ known d (d_after x)) →
  deps_acyclic (card_deps d') → events d' = events d ++ [e] →
  (∀ id, find_card id d = None → apply_event id None e = None) →
  (∀ c, c ∈ cards d → apply_event (c_id c) (card_parse (c_state c)) e = card_parse (c_state (g c))) →
  board_wf d'.
Proof.
  intros [Hi Hc Ha Hd Hac Hl] Ec Hg Hc' Ha' Hd' Hac' Ee Hnone Hsome.
  assert (∀ id, known d id → known d' id) as Hk.
  { intros id (c & Hin & E). exists (g c). rewrite Ec, Hg. split; [|done].
    by apply list_elem_of_fmap_2. }
  constructor.
  - by rewrite Ec, (keys_update c_id g).
  - intros x. rewrite Ec. intros (c & -> & Hin)%list_elem_of_fmap. rewrite Hg. by apply Hc'.
  - intros a (c & s & Hin & E & Hp & Hs)%Ha'. exists (g c), s. rewrite Ec, Hg. split_and!; try done.
    by apply list_elem_of_fmap_2.
  - intros x (H1 & H2)%Hd'. split; by apply Hk.
  - done.
  - intros id.
    assert (card_at id d' = apply_event id (card_at id d) e) as Hat.
    { unfold card_at. assert (find_card id d' = g <$> find_card id d) as -> by (unfold find_card; by rewrite Ec, find_map).
      destruct (find_card id d) as [c|] eqn:E; cbn [fmap option_fmap option_map mbind option_bind]; symmetry.
      - apply find_card_Some in E as [Hin <-]. by apply Hsome.
      - by apply Hnone. }
    unfold log_agrees. rewrite Ee, replay_snoc, Hat. destruct (Hl id) as [->|(Hb & -> & ->)]; [by left|].
    destruct (apply_event_const id e) as [Hid|[t Ht]]; [right; by rewrite !Hid|left; by rewrite !Ht].
Qed.

Lemma has_evidence_row_mono id d d' :
  (∀ e, e ∈ evidence d → e ∈ evidence d') → has_evidence_row id d = true → has_evidence_row id d' = true.
Proof. unfold has_evidence_row. rewrite !existsb_elem. intros H (e & ? & ?). eauto. Qed.

(** An event the replay does not read, over cards whose state and owner stay. *)
Lemma board_wf_silent d d' g e :
  board_wf d → cards d' = map g (cards d) → (∀ c, same_board c (g c)) →
  (∀ x, x ∈ evidence d → x ∈ evidence d') →
  (∀ a, a ∈ approvals d' → a ∈ approvals d ∨ ∃ c, c ∈ cards d ∧ c_id c = ap_card a ∧
     card_parse (c_state c) = Some Review) →
  (∀ x, x ∈ card_deps d' → known d (d_card x) ∧ known d (d_after x)) →
  deps_acyclic (card_deps d') → events d' = events d ++ [e] → silent (e_kind e) → board_wf d'.
Proof.
  intros Hwf Ec Hg Hev Hap Hd Hac Ee Hs. eapply (board_wf_map d d' g e); try done.
  - intros c. apply Hg.
  - intros c Hc. destruct (Hg c) as (_ & -> & -> & _). destruct (bw_card d Hwf c Hc) as (s & ? & ? & Hdone).
    exists s. split_and!; try done. intros Es. eapply has_evidence_row_mono; [exact Hev|auto].
  - intros a [H|(c & ? & ? & Hr)]%Hap.
    + destruct (bw_approval d Hwf a H) as (c & s & ? & ? & ? & ?). exists c, s.
      destruct (Hg c) as (_ & -> & _). done.
    + exists c, Review. destruct (Hg c) as (_ & -> & _). done.
  - intros id _. by apply apply_silent.
  - intros c Hc. destruct (Hg c) as (_ & -> & _). by apply apply_silent.
Qed.

Lemma update_card_same id f :
  (∀ c, same_board c (f c)) →
  ∀ c, same_board c ((λ c, if decide (c_id c = id) then f c else c) c).
Proof. intros Hf c. cbn. case_decide; [apply Hf|done]. Qed.

Section Preservation.
Context `{P : Prims} `{PC : PolicyCodec} `{J : JsonText} `{C : BoardCodec}.

(** A committed operation on the card [id] is a step of its lifecycle, or no
    change, and every other card stays. *)
Definition board_step (d d' : db) : Prop :=
  ∀ id, card_at id d' = card_at id d ∨ life (card_at id d) (card_at id d').

Lemma board_step_same d d' g :
  cards d' = map g (cards d) → (∀ c, same_board c (g c)) → board_step d d'.
Proof.
  intros Ec Hg id. left. unfold card_at, find_card. rewrite Ec, find_map by (intros c; apply Hg).
  destruct (list_find _ _) as [[n c]|]; cbn; [|done]. by destruct (Hg c) as (_ & -> & _).
Qed.


Lemma add_evidence_board now op d u d' :
  board_wf d → add_evidence now op d = Ok (u, d') → board_wf d' ∧ board_step d d'.
Proof.
  intros Hwf H. apply add_evidence_Ok in H as (es & data & Hc & He & ->).
  assert (cards (with_nonce now op d) = map (λ c, c) (cards d)) as Ec by (symmetry; apply map_id).
  split; [|by eapply board_step_same].
  eapply (board_wf_silent d _ (λ c, c)); try done; try exact Ec; try reflexivity.
  - intros x Hx. cbn. apply elem_of_app. by left.
  - intros a Ha. by left.
  - apply (bw_dep d Hwf).
  - apply (bw_acyclic d Hwf).
Qed.

Lemma approve_board now op d u d' :
  board_wf d → approve now op d = Ok (u, d') → board_wf d' ∧ board_step d d'.
Proof.
  intros Hwf H. apply approve_Ok in H as (c & as' & data & Hc & Hid & Hr & He & ->).
  assert (cards (with_nonce now op d) = map (λ c, c) (cards d)) as Ec by (symmetry; apply map_id).
  split; [|by eapply board_step_same].
  eapply (board_wf_silent d _ (λ c, c)); try done; try exact Ec; try reflexivity.
  - intros a [Ha|Ha]%elem_of_app; [by left|right]. exists c. by rewrite (He a Ha).
  - apply (bw_dep d Hwf).
  - apply (bw_acyclic d Hwf).
Qed.

Lemma card_update_board now op d x d' :
  board_wf d → card_update now op d = Ok (x, d') → board_wf d' ∧ board_step d d'.
Proof.
  intros Hwf H. apply card_update_Ok in H as (f & data & Hf & ->).
  split; [|eapply board_step_same; [reflexivity|by apply update_card_same]].
  eapply (board_wf_silent d); [done|reflexivity|by apply update_card_same|..]; try done; try reflexivity.
  - intros a Ha. by left.
  - apply (bw_dep d Hwf).
  - apply (bw_acyclic d Hwf).
Qed.

Lemma card_escalate_board now op rr d x d' :
  board_wf d → card_escalate now op rr d = Ok (x, d') → board_wf d' ∧ board_step d d'.
Proof.
  intros Hwf H. apply card_escalate_Ok in H as (f & t & n & data & Hf & ->).
  split; [|eapply board_step_same; [reflexivity|by apply update_card_same]].
  eapply (board_wf_silent d); [done|reflexivity|by apply update_card_same|..]; try done; try reflexivity.
  - intros a Ha. by left.
  - apply (bw_dep d Hwf).
  - apply (bw_acyclic d Hwf).
Qed.

Lemma card_link_board now op d u d' :
  board_wf d → card_link now op d = Ok (u, d') → board_wf d' ∧ board_step d d'.
Proof.
  intros Hwf H. apply card_link_Ok in H as (kind & ls & data & Hk & ->).
  assert (cards (with_nonce now op d) = map (λ c, c) (cards d)) as Ec by (symmetry; apply map_id).
  split; [|by eapply board_step_same].
  eapply (board_wf_silent d _ (λ c, c)); try done; try exact Ec; try reflexivity.
  - intros a Ha. by left.
  - apply (bw_dep d Hwf).
  - apply (bw_acyclic d Hwf).
  - cbn. rewrite !elem_of_cons in Hk. destruct_or! Hk; subst; try done. by apply elem_of_nil in Hk.
Qed.

Lemma card_dep_board now op d u d' :
  board_wf d → card_dep now op d = Ok (u, d') → board_wf d' ∧ board_step d d'.
Proof.
  intros Hwf H. apply card_dep_Ok in H as (kind & after & data & Hk & Hc & Ha & deps' & -> & Hd).
  assert (cards (with_nonce now op d) = map (λ c, c) (cards d)) as Ec by (symmetry; apply map_id).
  split; [|by eapply board_step_same].
  eapply (board_wf_silent d _ (λ c, c)); try done; try exact Ec; try reflexivity.
  - intros a Hin. by left.
  - cbn. intros x Hx. destruct Hd as [Hd|[-> _]]; [by apply (bw_dep d Hwf), Hd|].
    apply elem_of_app in Hx as [Hx|Hx%list_elem_of_singleton]; [by apply (bw_dep d Hwf)|]. by subst x.
  - cbn. destruct Hd as [Hd|[_ [g Hg]]]; [by eapply deps_acyclic_sub, (bw_acyclic d Hwf)|].
    by eapply dep_tasks_acyclic.
  - cbn. rewrite !elem_of_cons in Hk. destruct_or! Hk; subst; try done. by apply elem_of_nil in Hk.
Qed.

(** The one row of [id], in place. *)
Lemma only_card d c x :
  board_wf d → c ∈ cards d → x ∈ cards d → c_id x = c_id c → x = c.
Proof. intros Hwf Hc Hx E. by apply (key_inj c_id (cards d)); [apply (bw_ids d Hwf)|..]. Qed.

Lemma apply_event_other id s e : e_subject e ≠ id → apply_event id s e = s.
Proof. intros H. unfold apply_event. by rewrite bool_decide_eq_false_2. Qed.

Lemma apply_moved id s e from to :
  e_subject e = id → e_kind e = "card.moved" →
  e_data e = VObject [("from", VString (card_as_str from)); ("to", VString (card_as_str to))] →
  apply_event id s e = Some to.
Proof.
  intros Hs Hk Hd. unfold apply_event. rewrite Hs, Hk, Hd, bool_decide_eq_true_2 by done. cbn.
  by destruct to.
Qed.

(** Who owns a card that may move. *)
Lemma moved_owner from to role gate actor owner :
  check_transition from to role gate = Ok tt → owner_fits from owner →
  owner_fits to (new_owner to actor owner).
Proof.
  intros (Hl & _ & _)%check_transition_Ok Ho.
  destruct to; cbn; try done; destruct from; cbn in *; try discriminate; done.
Qed.

(** One card moves, and the log says where to. *)
Lemma move_board d d' f id c from to e :
  board_wf d → c ∈ cards d → c_id c = id → card_parse (c_state c) = Some from →
  life (Some from) (Some to) → (∀ x, c_id (f x) = c_id x) → c_state (f c) = card_as_str to →
  owner_fits to (c_owner (f c)) → (to = Done → has_evidence_row id d = true) →
  cards d' = cards (update_card id f d) → evidence d' = evidence d → card_deps d' = card_deps d →
  approvals d' = approvals ((if clears_approvals to then drop_approvals id d else d)) →
  events d' = events d ++ [e] → e_subject e = id → (∀ s, apply_event id s e = Some to) →
  board_wf d' ∧ board_step d d'.
Proof.
  intros Hwf Hc Hid Hfrom Hlife Hfid Hfs Hown Hdone Ec Eev Ed Eap El Hsub Happ.
  assert (∀ x, x ∈ cards d → c_id x = id → x = c) as Honly.
  { intros x Hx E. apply (only_card d c x Hwf Hc Hx). congruence. }
  set (g := λ x : card, if decide (c_id x = id) then f x else x).
  assert (∀ x, c_id x ≠ id → g x = x) as Hgo by (intros x E; unfold g; by case_decide).
  assert (g c = f c) as Hgc by (unfold g; by case_decide).
  assert (card_parse (c_state (f c)) = Some to) as Hto by (rewrite Hfs; apply card_parse_as_str).
  split.
  - eapply (board_wf_map d _ g); [done|done| |..]; try done.
    + intros x. unfold g. by case_decide.
    + intros x Hx. destruct (decide (c_id x = id)) as [E|E].
      * rewrite (Honly x Hx E), Hgc. exists to. split_and!; [done..|]. intros ->.
        unfold has_evidence_row in *. rewrite Eev, Hid. by apply Hdone.
      * rewrite Hgo by done. destruct (bw_card d Hwf x Hx) as (s & ? & ? & Hev).
        exists s. split_and!; try done. unfold has_evidence_row in *. by rewrite Eev.
    + intros a Ha. rewrite Eap in Ha.
      assert (a ∈ approvals d ∧ (clears_approvals to = true → ap_card a ≠ id)) as [Hap Hne].
      { destruct (clears_approvals to); [|done]. cbn in Ha. by apply list_elem_of_filter in Ha as [? ?]. }
      destruct (bw_approval d Hwf a Hap) as (x & s & Hx & Exa & Hsx & Hcl).
      destruct (decide (ap_card a = id)) as [E|E].
      * exists c, to. rewrite Hgc. split_and!; [done|congruence|done|].
        destruct (clears_approvals to); [by destruct Hne|done].
      * exists x, s. rewrite Hgo by congruence. done.
    + rewrite Ed. apply (bw_dep d Hwf).
    + rewrite Ed. apply (bw_acyclic d Hwf).
    + intros id' Hn. apply apply_event_other. rewrite Hsub. intros <-. by destruct (find_card_None _ _ c Hn Hc).
    + intros x Hx. destruct (decide (c_id x = id)) as [E|E].
      * rewrite (Honly x Hx E), Hgc, Hid, Hto. apply Happ.
      * rewrite Hgo by done. apply apply_event_other. congruence.
  - intros id'. unfold card_at.
    assert (find_card id' d' = (if decide (id' = id) then f else λ c, c) <$> find_card id' d) as ->.
    { rewrite <- card_at_update by done. unfold find_card. by rewrite Ec. }
    case_decide as Eid; [right|left; by destruct (find_card id' d)].
    rewrite Eid, <- Hid, (find_card_elem d c (bw_ids d Hwf) Hc).
    cbn [fmap option_fmap option_map mbind option_bind]. by rewrite Hfrom, Hto.
Qed.

Lemma transition_board now op rr d u d' :
  board_wf d → transition now op rr d = Ok (u, d') → board_wf d' ∧ board_step d d'.
Proof.
  intros Hwf H.
  apply transition_Ok in H as (c & from & to & role & Hc & Hid & Hfrom & _ & Hbl & Hck & _ & ->).
  destruct (bw_card d Hwf c Hc) as (s & Hs & Hown & _). rewrite Hfrom in Hs. injection Hs as <-.
  eapply (move_board d _ (with_state (card_as_str to) (new_owner to (actor_hex op) (c_owner c)) now)
    (o_subject op) c from to); try done.
  - by eapply life_move.
  - by eapply moved_owner.
  - intros ->. apply check_transition_Ok in Hck as (_ & _ & Hd). destruct Hd as [[Hev _] _]; [done|]. exact Hev.
  - cbn. by destruct (clears_approvals to).
  - cbn. by destruct (clears_approvals to).
  - cbn. by destruct (clears_approvals to).
  - cbn. by destruct (clears_approvals to).
  - cbn. destruct (clears_approvals to); reflexivity.
  - done.
  - intros s. by apply (apply_moved _ _ _ from to).
Qed.

Lemma in_progress_states c s :
  in_progress c = true → card_parse (c_state c) = Some s → s = Claimed ∨ s = Doing.
Proof.
  unfold in_progress. intros [->| ->]%bool_decide_eq_true; cbn; intros [= <-]; auto.
Qed.

Lemma reclaim_stale_board now op d u d' :
  board_wf d → reclaim_stale now op d = Ok (u, d') → board_wf d' ∧ board_step d d'.
Proof.
  intros Hwf H. apply reclaim_stale_Ok in H as (c & role & data & Hc & Hid & Hp & _ & _ & ->).
  set (f := with_state "ready" None now).
  set (g := λ x : card, if bool_decide (c_id x = o_subject op) && in_progress x then f x else x).
  assert (∀ x, x ∈ cards d → c_id x = o_subject op → x = c) as Honly.
  { intros x Hx E. apply (only_card d c x Hwf Hc Hx). congruence. }
  assert (∀ x, c_id x ≠ o_subject op → g x = x) as Hgo.
  { intros x E. unfold g. by rewrite bool_decide_eq_false_2. }
  assert (g c = f c) as Hgc. { unfold g. by rewrite bool_decide_eq_true_2, Hp. }
  assert (∀ x, c_id (g x) = c_id x) as Hgid. { intros x. unfold g. by destruct (_ && _). }
  destruct (bw_card d Hwf c Hc) as (s & Hs & _).
  split.
  - eapply (board_wf_map d _ g); [done|reflexivity|done|..]; try reflexivity.
    + intros x Hx. destruct (decide (c_id x = o_subject op)) as [E|E].
      * rewrite (Honly x Hx E), Hgc. exists Ready. done.
      * rewrite Hgo by done. destruct (bw_card d Hwf x Hx) as (s' & ? & ? & Hev). by exists s'.
    + intros a Ha. cbn in Ha. apply list_elem_of_filter in Ha as [Hne Ha].
      destruct (bw_approval d Hwf a Ha) as (x & s' & Hx & Exa & Hsx & Hcl).
      exists x, s'. rewrite Hgo by congruence. done.
    + apply (bw_dep d Hwf).
    + apply (bw_acyclic d Hwf).
    + intros id Hn. apply apply_event_other. cbn. intros <-. by destruct (find_card_None _ _ c Hn Hc).
    + intros x Hx. destruct (decide (c_id x = o_subject op)) as [E|E].
      * rewrite (Honly x Hx E), Hgc. unfold apply_event. cbn. by rewrite bool_decide_eq_true_2.
      * rewrite Hgo by done. apply apply_event_other. cbn. congruence.
  - intros id. unfold card_at.
    assert (find_card id (logged now (actor_hex op) "card.reclaimed" (o_subject op) data
      (drop_approvals (o_subject op) (set_cards (map g (cards d)) (with_nonce now op d)))) =
      g <$> find_card id d) as ->.
    { unfold find_card. cbn [cards logged set_events drop_approvals set_approvals set_cards].
      by rewrite find_map. }
    destruct (find_card id d) as [x|] eqn:Ex; [|by left].
    apply find_card_Some in Ex as [Hx Exid]. cbn [fmap option_fmap option_map mbind option_bind].
    destruct (decide (c_id x = o_subject op)) as [E|E]; [right|left; by rewrite Hgo].
    rewrite (Honly x Hx E), Hgc, Hs. unfold f. cbn [with_state c_state].
    change (card_parse "ready") with (Some Ready). apply life_reclaim.
    by eapply in_progress_states.
Qed.

Lemma create_card_board now op d u d' :
  board_wf d → create_card now op d = Ok (u, d') → board_wf d' ∧ board_step d d'.
Proof.
  intros Hwf H.
  apply create_card_Ok in H as (c & es & data & Hid & Hst & Hown & Hnew & Hes & ->).
  assert (find_card (o_subject op) d = None) as Hnone.
  { destruct (find_card (o_subject op) d) as [x|] eqn:E; [|done].
    apply find_card_Some in E as [Hx E]. by destruct (Hnew x Hx). }
  assert (∀ id, find_card id (logged now (actor_hex op) "card.created" (o_subject op) data
      (set_deps (card_deps d ++ es) (set_cards (cards d ++ [c]) (with_nonce now op d)))) =
    match find_card id d with
    | Some y => Some y
    | None => if decide (c_id c = id) then Some c else None
    end) as Hfind.
  { intros id. apply (find_app c_id). }
  assert (card_parse (c_state c) = Some Backlog) as Hback. { by rewrite Hst. }
  split.
  - constructor; cbn [cards approvals card_deps events logged set_events set_deps set_cards].
    + apply keys_insert; [apply (bw_ids d Hwf)|]. intros x Hx. rewrite Hid. by apply Hnew.
    + intros x [Hx|Hx%list_elem_of_singleton]%elem_of_app.
      * destruct (bw_card d Hwf x Hx) as (s & ? & ? & Hev). exists s. done.
      * subst x. exists Backlog. split_and!; [done|by rewrite Hown|done].
    + intros a Ha. destruct (bw_approval d Hwf a Ha) as (x & s & Hx & ? & ? & ?).
      exists x, s. rewrite elem_of_app. eauto.
    + assert (∀ id, (∃ x, x ∈ cards d ∧ c_id x = id) → ∃ x, x ∈ cards d ++ [c] ∧ c_id x = id) as Hk.
      { intros id (x & Hx & E). exists x. rewrite elem_of_app. eauto. }
      intros e [He|He]%elem_of_app.
      * destruct (bw_dep d Hwf e He) as [? ?]. auto.
      * destruct (Hes e He) as (E & _ & Ha). split; [|done]. exists c.
        rewrite elem_of_app, list_elem_of_singleton. split; [by right|congruence].
    + apply (deps_acyclic_new _ _ (o_subject op)); [apply (bw_acyclic d Hwf)| |].
      * intros e He Ea. destruct (bw_dep d Hwf e He) as (_ & x & Hx & Ex).
        by destruct (Hnew x Hx); congruence.
      * intros e He. by destruct (Hes e He) as (? & ? & _).
    + intros id. unfold log_agrees. cbn [events logged set_events]. rewrite replay_snoc.
      unfold card_at. rewrite Hfind. unfold apply_event. cbn [e_subject e_kind].
      destruct (decide (o_subject op = id)) as [<-|E].
      * left. rewrite Hnone, decide_True by done. cbn [mbind option_bind]. rewrite Hback.
        by rewrite bool_decide_eq_true_2.
      * rewrite bool_decide_eq_false_2 by done. cbn [negb]. pose proof (bw_log d Hwf id) as Hl.
        unfold log_agrees, card_at in Hl. destruct (find_card id d); [done|]. by rewrite decide_False by congruence.
  - intros id. unfold card_at. rewrite Hfind. destruct (find_card id d) as [y|] eqn:E; [by left|].
    case_decide; [right|by left]. cbn [mbind option_bind]. rewrite Hback. apply life_create.
Qed.
End Preservation.
