(* ===== verification/WorkRow.v ===== *)
(** * The work queue: tasks and their rows

    [TaskState], [ScopeKind], [TaskRecord] and the operation arguments of
    [src/crates/agora-sched/src/model.rs] and [model_ops.rs], the row mapping of
    [src/crates/agora-store/src/work_query/row.rs], and the helpers of
    [work_ops/checks.rs] that the operations share.  SHA-256 and the JSON codecs
    are parameters. *)

From Stdlib Require Import Ascii.
From S2P Require Import Prelude F64 Strs PyFmt Bytes Core Crypto Task Order Claims.
From S2P Require Import Settings Predict StoreDb Identity Leases.

(** ** Task states and scopes *)

Inductive TaskState : Type := TQueued | TClaimed | TRunning | TDone | TFailed | TCancelled.

#[export] Instance TaskState_eq_dec : EqDecision TaskState.
Proof. solve_decision. Defined.

Definition TaskState_as_str (s : TaskState) : string :=
  match s with
  | TQueued => "queued" | TClaimed => "claimed" | TRunning => "running" | TDone => "done"
  | TFailed => "failed" | TCancelled => "cancelled"
  end.

Definition TaskState_parse (s : string) : option TaskState :=
  if String.eqb s "queued" then Some TQueued
  else if String.eqb s "claimed" then Some TClaimed
  else if String.eqb s "running" then Some TRunning
  else if String.eqb s "done" then Some TDone
  else if String.eqb s "failed" then Some TFailed
  else if String.eqb s "cancelled" then Some TCancelled
  else None.

Definition is_final (s : TaskState) : bool :=
  match s with TDone | TFailed | TCancelled => true | _ => false end.

Inductive ScopeKind : Type := SProject | SConversation | SAgent.

Definition ScopeKind_as_str (k : ScopeKind) : string :=
  match k with SProject => "project" | SConversation => "conversation" | SAgent => "agent" end.

Definition ScopeKind_parse (s : string) : option ScopeKind :=
  if String.eqb s "project" then Some SProject
  else if String.eqb s "conversation" then Some SConversation
  else if String.eqb s "agent" then Some SAgent
  else None.

(** ** Operation arguments *)

Record ScopeArgs : Type := mk_scope_args {
  sa_id : string; sa_kind : option ScopeKind; sa_parent : option string; sa_task : option string }.

Record AddArgs : Type := mk_add_args {
  ad_id : option string; ad_title : string; ad_kind : string; ad_scope : option string;
  ad_after : list string; ad_size : f64; ad_value : f64; ad_files : list string; ad_weight : f64;
  ad_command : option (list string); ad_cwd : option string; ad_card : option string }.

Definition default_add : AddArgs :=
  mk_add_args None "" "other" None [] (f_of_Z 1) (f_of_Z 1) [] (f_of_Z 1) None None None.

Record NextArgs : Type := mk_next_args { nx_scope : option string; nx_policy : OrderPolicy }.

Record RunArgs : Type := mk_run_args { ra_task : option string; ra_add : option AddArgs }.

Record FinishArgs : Type := mk_finish_args { fa_state : TaskState; fa_note : string }.

(** [agent] is absent, [null] or a key. *)
Record UpdateArgs : Type := mk_update_args {
  ua_title : option string; ua_kind : option string; ua_size : option f64; ua_value : option f64;
  ua_after : option (list string); ua_agent : option (option string) }.

(** The decoders and encoders of [serde_json] for these types, and SHA-256.
    [AcceptArgs], [CancelArgs] and [ReclaimArgs] are their one text. *)
Class WorkCodec : Type := {
  sha256 : string → list byte;
  digest_json : string → list string → string → list string → string;
  list_json : list string → string;
  prediction_json : Prediction → string;
  parse_prediction : string → option Prediction;
  settings_json : WorkSettings → string;
  parse_scope_args : string → option ScopeArgs;
  parse_add_args : string → option AddArgs;
  parse_next_args : string → option NextArgs;
  parse_accept_args : string → option string;
  parse_run_args : string → option RunArgs;
  parse_finish_args : string → option FinishArgs;
  parse_cancel_args : string → option string;
  parse_update_args : string → option UpdateArgs;
  parse_reclaim_args : string → option string;
  parse_settings_args : string → option SettingsPatch }.

(** A list of texts is read back as it was written, and only the empty one is
    written [[]]; a stored prediction is read back. *)
Class WorkCodecLaws `{LC : LeaseCodec} (C : WorkCodec) : Prop := {
  list_json_parse l : parse_files (list_json l) = Some l;
  list_json_nil : list_json [] = "[]";
  prediction_json_parse p : is_Some (parse_prediction (prediction_json p)) }.

(** ** Records *)

(** A task as the queue reports it: the columns it copies are those of
    [tr_row]. *)
Record TaskRecord : Type := mk_task_record {
  tr_row : work_task;
  tr_state : TaskState;
  tr_tier : Z;
  tr_author_name : string;
  tr_agent_name : option string;
  tr_needs_acceptance : bool;
  tr_after : list string;
  tr_files : list string;
  tr_command : option (list string);
  tr_digest : option string;
  tr_prediction : option Prediction }.

Definition tr_id (t : TaskRecord) : string := w_id (tr_row t).
Definition tr_author (t : TaskRecord) : string := sp_author (w_spec (tr_row t)).
Definition tr_agent (t : TaskRecord) : option string := cl_agent (w_claim (tr_row t)).
Definition tr_accepted (t : TaskRecord) : option string := cl_accepted (w_claim (tr_row t)).
Definition tr_claimed (t : TaskRecord) : option Z := cl_claimed (w_claim (tr_row t)).
Definition tr_requested (t : TaskRecord) : option Z := cl_requested (w_claim (tr_row t)).
Definition tr_title (t : TaskRecord) : string := sp_title (w_spec (tr_row t)).
Definition tr_scope (t : TaskRecord) : option string := sp_scope (w_spec (tr_row t)).
Definition tr_cwd (t : TaskRecord) : option string := sp_cwd (w_spec (tr_row t)).

Record ScopeRecord : Type := mk_scope_record {
  sr_id : string; sr_kind : ScopeKind; sr_parent : option string; sr_task : string;
  sr_agent : option string; sr_updated : Z; sr_counts : list (string * nat) }.

Record NextOutcome : Type := mk_next_outcome { no_claimed : option TaskRecord; no_reason : string }.

Record StopTarget : Type := mk_stop_target {
  st_supervisor_pid : Z; st_supervisor_start : option Z; st_job_dir : string }.

Definition waited_s (t : TaskRecord) (now : Z) : option f64 :=
  requested ← tr_requested t;
  let run := w_run (tr_row t) in
  let until := default now (match rn_started run with Some s => Some s | None => rn_ended run end) in
  Some (f_of_Z (Z.max (sat_i64 (until - requested)) 0) / f_of_Z 1000)%f64.

Definition ran_s (t : TaskRecord) (now : Z) : option f64 :=
  started ← rn_started (w_run (tr_row t));
  let until := default now (rn_ended (w_run (tr_row t))) in
  Some (f_of_Z (Z.max (sat_i64 (until - started)) 0) / f_of_Z 1000)%f64.

Definition describe_state (t : TaskRecord) : string :=
  let claimant := match tr_agent_name t with
                  | Some name => name
                  | None => default "nobody" (tr_agent t)
                  end in
  match tr_state t with
  | TClaimed =>
      if bool_decide (is_Some (tr_requested t))
      then "waiting for capacity (claimed by " +:+ claimant +:+ ")"
      else "claimed by " +:+ claimant
  | TRunning =>
      match rn_pid (w_run (tr_row t)) with
      | Some pid => "running as process " +:+ dec pid +:+ " (claimed by " +:+ claimant +:+ ")"
      | None => "starting"
      end
  | TFailed =>
      match rn_status (w_run (tr_row t)) with
      | Some status => "failed with status " +:+ dec status
      | None => "failed"
      end
  | other => TaskState_as_str other
  end.

(** ** Rows *)

Section Rows.
Context `{P : Prims} `{LC : LeaseCodec} `{C : WorkCodec}.

Definition pseudonym_of (public_hex : string) : string :=
  match unhex32 public_hex with Some key => pseudonym key | None => public_hex end.

Definition column_error : StoreError := Sql "conversion".

Definition string_list (text : string) : result StoreError (list string) :=
  ok_or (parse_files text) column_error.

(** An optional column that must parse when it is there. *)
Definition opt_column {A B} (parse : A → result StoreError B) (o : option A) :
    result StoreError (option B) :=
  match o with None => Ok None | Some a => b ← parse a; Ok (Some b) end.

(** The integer columns read as [u64] or [i32] fit. *)
Definition columns_fit (t : work_task) : bool :=
  from_option in_u64 true (us_rss (w_usage t)) && from_option in_u64 true (us_rss_peak (w_usage t))
  && from_option (λ z, (i32_min <=? z)%Z && (z <=? i32_max)%Z) true (rn_status (w_run t)).

Definition task_from_row (t : work_task) : result StoreError TaskRecord :=
  let sp := w_spec t in
  after ← string_list (sp_after sp);
  files ← string_list (sp_files sp);
  command ← opt_column string_list (sp_command sp);
  state ← ok_or (TaskState_parse (w_state t)) column_error;
  prediction ← opt_column (λ text, ok_or (parse_prediction text) column_error)
                 (sg_prediction (w_sigs t));
  let agent := cl_agent (w_claim t) in
  let accepted := cl_accepted (w_claim t) in
  let dig := (λ argv, digest sha256 digest_json argv (default "" (sp_cwd sp)) files) <$> command in
  if negb (columns_fit t) then Err column_error else
  Ok (mk_task_record t state (tier_of (sp_kind sp)) (pseudonym_of (sp_author sp))
    (pseudonym_of <$> agent)
    (bool_decide (is_Some command) && bool_decide (is_Some agent) && negb (bool_decide (accepted = agent)))
    after files command dig prediction).

Definition find_task (id : string) (d : db) : option work_task :=
  snd <$> list_find (λ t, w_id t = id) (work_tasks (work d)).

Definition load_task (id : string) : tx TaskRecord :=
  row ← query (find_task id);
  match row with
  | None => fail (NotFound ("task " +:+ id))
  | Some t => lift (task_from_row t)
  end.

Definition task_exists (id : string) (d : db) : bool :=
  existsb (λ t, bool_decide (w_id t = id)) (work_tasks (work d)).

Definition scope_known (id : string) (d : db) : bool :=
  existsb (λ s, bool_decide (sc_id s = id)) (work_scopes (work d)).

(** [UPDATE work_tasks SET … WHERE id=?]. *)
Definition update_task (id : string) (f : work_task → work_task) (d : db) : db :=
  set_tasks (map (λ t, if decide (w_id t = id) then f t else t) (work_tasks (work d)))
    (work_seq (work d)) d.

(** ** Checks (work_ops/checks.rs) *)

Definition TEXT_MAX : nat := 4000.
Definition TITLE_MAX : nat := 1000.

Definition malformed : StoreError := Invalid "malformed arguments".

Definition corrupt : StoreError := StoreIo.

Definition stored_list (raw : string) : result StoreError (list string) :=
  ok_or (parse_files raw) corrupt.

Definition check_text_field (what value : string) (limit : nat) : tx unit :=
  refuse (check_text what value limit).

Definition forbidden (role : Role) : StoreError := Transition (Forbidden role).

Definition refusal {A} (message : string) : tx A := fail (Refused message).

Definition scope_exists (scope : string) : tx unit :=
  found ← query (scope_known scope);
  if found : bool then mret tt
  else refusal ("unknown scope " +:+ scope +:+ "; create it with `agora work scope set " +:+ scope
         +:+ " --kind project`").

Definition check_card (card actor : string) (role : Role) : tx unit :=
  row ← query (λ d, c_owner <$> (snd <$> list_find (λ c, c_id c = card) (cards d)));
  match row with
  | None => fail (NotFound ("card " +:+ card))
  | Some owner =>
      guard (negb (role_le Supervisor role || bool_decide (owner = Some actor))) (forbidden role)
  end.

Definition may_act (role : Role) (actor : string) (t : TaskRecord) : tx unit :=
  let own := match tr_state t with
             | TQueued => bool_decide (tr_author t = actor)
             | _ => bool_decide (tr_agent t = Some actor)
             end in
  guard (negb (role_le Supervisor role || own)) (forbidden role).

Definition run_role_of (s : WorkSettings) : Role := default Owner (role_parse (run_role s)).

Definition may_run (role : Role) (s : WorkSettings) : tx unit :=
  guard (negb (role_le (run_role_of s) role)) (forbidden role).

(** The requested tasks of [actor] that have not started, less [id]. *)
Definition waiting_of (actor id : string) (d : db) : nat :=
  length (filter (λ t, cl_agent (w_claim t) = Some actor ∧ w_state t = "claimed" ∧
      is_Some (cl_requested (w_claim t)) ∧ rn_started (w_run t) = None ∧ w_id t ≠ id)
    (work_tasks (work d))).

Definition check_request (op : SignedOp) (actor : string) (t : TaskRecord) (named : bool)
    (s : WorkSettings) : tx unit :=
  guard (named && bool_decide (tr_author t = actor) && negb (self_accept s))
    (Refused "a command must be accepted by an identity other than its author") ≫= λ _,
  waiting ← query (waiting_of actor (tr_id t));
  guard (max_waiting s <=? Z.of_nat waiting)%Z
    (Refused (pseudonym (o_actor op) +:+ " already has " +:+ dec (Z.of_nat waiting)
      +:+ " jobs waiting to start")).

Definition subject_task (subject : string) : tx string :=
  refuse (validate_name "task" subject) ≫= λ _, mret subject.

Definition digest_of (t : TaskRecord) : option string :=
  (λ argv, digest sha256 digest_json argv (default "" (tr_cwd t)) (tr_files t)) <$> tr_command t.

Definition agent_label (t : TaskRecord) : string := default "" (tr_agent_name t).

(** [str::trim]. *)
Definition trim (s : string) : string := trim_matches is_whitespace s.

Definition detail_text (text fallback : string) : string :=
  if is_empty_str (trim text) then fallback else text.

Definition is_claimed (t : TaskRecord) : bool := bool_decide (tr_state t = TClaimed).
Definition is_requested (t : TaskRecord) : bool := bool_decide (is_Some (tr_requested t)).

Definition check_runnable (t : TaskRecord) (actor : string) : tx unit :=
  let id := tr_id t in
  let desc := describe_state t in
  guard (bool_decide (tr_command t = None))
    (Refused ("task " +:+ id +:+ " has no command; close it with `agora work done " +:+ id
      +:+ "` when it is finished")) ≫= λ _,
  guard (bool_decide (tr_state t = TQueued))
    (Refused ("claim task " +:+ id +:+ " first: `agora work claim " +:+ id +:+ "`")) ≫= λ _,
  guard (bool_decide (tr_state t = TRunning) || is_claimed t && is_requested t)
    (Refused ("task " +:+ id +:+ " is already " +:+ desc +:+ "; wait for it with `agora work wait "
      +:+ id +:+ "`")) ≫= λ _,
  guard (negb (is_claimed t)) (Refused ("task " +:+ id +:+ " is " +:+ desc)) ≫= λ _,
  guard (negb (bool_decide (tr_agent t = Some actor)))
    (Refused ("task " +:+ id +:+ " is claimed by " +:+ agent_label t +:+ "; only that agent runs it")) ≫= λ _,
  guard (negb (bool_decide (tr_accepted t = Some actor)))
    (Refused ("task " +:+ id +:+ " runs a command that " +:+ tr_author_name t
      +:+ " queued, and you have not accepted it: read it with `agora work show " +:+ id
      +:+ "`, then accept it with the `agora work accept " +:+ id
      +:+ " --digest ...` line that show prints")).

(** [event]: the sequence number is dropped. *)
Definition record_event (now : Z) (actor kind subject : string) (data : Value) : tx unit :=
  append now actor kind subject data ≫= λ _, mret tt.
End Rows.

(** A text or [null]. *)
Definition v_opt (o : option string) : Value := match o with Some s => VString s | None => VNull end.

(** A body that commits, and what the store reads of the database after it. *)
Definition after_commit {A B} (body : tx A) (read : A → tx B) (d : db) : result StoreError B * db :=
  match body d with
  | Err e => (Err e, d)
  | Ok (a, d') => (match read a d' with Ok (b, _) => Ok b | Err e => Err e end, d')
  end.
