(* ===== verification/Work.v ===== *)
(** * The work queue: operations

    [src/crates/agora-store/src/work_ops.rs] with [work_ops/queue.rs], [add.rs],
    [request.rs], [edit.rs] and [scope.rs].  Each operation is the body of its
    transaction and returns the task it names; the record that the store reads
    after the commit is [load_task].  The file system that an operation sees is
    its [Host]. *)

From Stdlib Require Import Ascii.
From S2P Require Import Prelude F64 Strs PyFmt Bytes Core Crypto Task Graph Order Claims TextFmt.
From S2P Require Import Signature Settings Predict StoreDb Identity Leases WorkRow.

(** The working directory of a request: [real_dir] is [None] for a path that does
    not resolve to a directory and [Some None] for one that is not UTF-8;
    [temp_root] is the canonical temporary directory. *)
Record Host : Type := mk_host {
  real_dir : string → option (option string);
  probe : PlaceProbe;
  temp_root : option string }.

Section Work.
Context `{P : Prims} `{LC : LeaseCodec} `{C : WorkCodec}.

(** ** Claims (work_ops/queue.rs) *)

Definition task_state_of (id : string) (d : db) : option string := w_state <$> find_task id d.

Definition waiting_in (after : list string) (d : db) : list (string * string) :=
  omap (λ item,
    match task_state_of item d with
    | Some state => if String.eqb state "done" then None else Some (item, state)
    | None => Some (item, "unknown")
    end) after.

(** Claimed and running tasks with files, in [seq] order. *)
Definition held_tasks (d : db) : list work_task :=
  filter (λ t, (w_state t = "claimed" ∨ w_state t = "running") ∧ w_files t ≠ "[]")
    (work_tasks (work d)).

Definition lease_order (a b : lease) : comparison :=
  then_with (Z.compare (l_created a) (l_created b)) (String.compare (l_id a) (l_id b)).

Definition foreign_leases (now : Z) (exclude : option string) (d : db) : list lease :=
  sort_by lease_order (filter (λ l, l_kind l = "path" ∧ active_at now l = true ∧
    exclude ≠ Some (l_holder l)) (leases d)).

Definition holders_in (now : Z) (exclude : option string) : tx (list (string * list string)) :=
  rows ← query held_tasks;
  tasks ← lift (try_map (λ t, files ← stored_list (w_files t); Ok (w_id t, files)) rows);
  ls ← query (foreign_leases now exclude);
  mret (tasks ++ ((λ l, ("lease:" +:+ l_id l, [l_resource l])) <$> ls)).

Definition check_files (now : Z) (subject : string) (files : list string) (exclude : string) : tx unit :=
  holders ← holders_in now (Some exclude);
  match first_conflict files holders with
  | None => mret tt
  | Some (holder, _) =>
      if starts_with "lease:" holder
      then refusal (subject +:+ " changes files that " +:+ holder +:+ " holds")
      else held ← load_task holder;
           refusal (subject +:+ " changes files that task " +:+ holder +:+ " holds ("
             +:+ describe_state held +:+ ")")
  end.

Definition claim_block (now : Z) (id : string) (after files : list string) (actor : string) : tx unit :=
  waiting ← query (waiting_in after);
  guard (negb (bool_decide (waiting = [])))
    (Refused ("task " +:+ id +:+ " waits for "
      +:+ join ", " ((λ w, w.1 +:+ " (" +:+ w.2 +:+ ")") <$> waiting))) ≫= λ _,
  check_files now ("task " +:+ id) files actor.

Definition with_claim (state : string) (cl : task_claim) (t : work_task) : work_task :=
  mk_work_task (w_seq t) (w_id t) (w_spec t) state cl (w_run t) (w_usage t) (w_sigs t) (w_note t).

Definition take (now : Z) (id actor : string) : tx unit :=
  row ← query (find_task id);
  match row with
  | Some t =>
      guard (negb (String.eqb (w_state t) "queued"))
        (Refused ("task " +:+ id +:+ " is no longer queued")) ≫= λ _,
      execute (update_task id (λ t, with_claim "claimed"
        (mk_task_claim (Some actor) None (Some now) (cl_requested (w_claim t))) t)) ≫= λ _,
      record_event now actor "work.claimed" id
        (VObject [("scope", v_opt (sp_scope (w_spec t)));
                  ("detail", VString (detail_text (sp_title (w_spec t)) id))])
  | None => refusal ("task " +:+ id +:+ " is no longer queued")
  end.

(** The scope and its descendants: a scope is added while one of its ancestors
    is there; each round adds at least one or ends. *)
Fixpoint under_loop (fuel : nat) (scopes : list scope_row) (acc : list string) : list string :=
  match fuel with
  | O => acc
  | S n =>
      let next := filter (λ s, from_option (λ p, bool_decide (p ∈ acc)) false (sc_parent s) = true ∧
                    sc_id s ∉ acc) scopes in
      match next with
      | [] => acc
      | _ => under_loop n scopes (acc ++ (sc_id <$> next))
      end
  end.

Definition under (scope : string) (d : db) : list string :=
  under_loop (length (work_scopes (work d))) (work_scopes (work d)) [scope].

Definition in_scopes (scope : option string) (d : db) (t : work_task) : bool :=
  match scope with
  | None => true
  | Some s => match sp_scope (w_spec t) with
              | Some x => bool_decide (x ∈ under s d)
              | None => false
              end
  end.

Definition queued_in_scope (scope : option string) : tx (list TaskRecord) :=
  rows ← query (λ d, filter (λ t, w_state t = "queued" ∧ in_scopes scope d t = true)
           (work_tasks (work d)));
  lift (try_map task_from_row rows).

(** A queued task as the ordering sees it: prerequisites outside are dropped. *)
Definition order_task (ids : list string) (index : nat) (t : TaskRecord) : Task :=
  mk_task index (tr_id t) (tr_title t) (sp_kind (w_spec (tr_row t)))
    (tier_of (sp_kind (w_spec (tr_row t)))) (Some (QInt (sp_queued (w_spec (tr_row t)))))
    (filter (λ item, item ∈ ids) (tr_after t)) (sp_size (w_spec (tr_row t)))
    (sp_value (w_spec (tr_row t))) (tr_files t).

(** The scan over the order: the chosen task, or how many wait for prerequisites
    and how many for files. *)
Fixpoint scan (tasks : list Task) (flags : list bool) (holders : list (string * list string))
    (blocked held : nat) (order : list nat) : option string * nat * nat :=
  match order with
  | [] => (None, blocked, held)
  | index :: order' =>
      match tasks !! index with
      | None => scan tasks flags holders blocked held order'
      | Some t =>
          if default true (flags !! index)
          then scan tasks flags holders (S blocked) held order'
          else if bool_decide (is_Some (first_conflict (t_files t) holders))
          then scan tasks flags holders blocked (S held) order'
          else (Some (t_id t), blocked, held)
      end
  end.

Definition next_in (now : Z) (actor : string) (scope : option string) (policy : OrderPolicy) :
    tx NextOutcome :=
  queued ← queued_in_scope scope;
  let where_ := match scope with Some s => " in scope " +:+ s | None => "" end in
  if bool_decide (length queued = 0)
  then mret (mk_next_outcome None ("nothing is queued" +:+ where_))
  else
    let ids := tr_id <$> queued in
    flags ← query (λ d, (λ t, negb (bool_decide (waiting_in (tr_after t) d = []))) <$> queued);
    let tasks := imap (order_task ids) queued in
    graph ← lift match Graph_new tasks with
                 | Ok g => Ok g
                 | Err e => Err (Refused ("the queue cannot be ordered: " +:+ Task.message e))
                 end;
    holders ← holders_in now (Some actor);
    let '(chosen, blocked, held) :=
      scan (g_tasks graph) flags holders 0 0 (o_order (order graph policy)) in
    match chosen with
    | None => mret (mk_next_outcome None
        ("of " +:+ dec (Z.of_nat (length queued)) +:+ " queued task(s)" +:+ where_ +:+ ", "
         +:+ dec (Z.of_nat blocked) +:+ " wait for their prerequisites and "
         +:+ dec (Z.of_nat held) +:+ " change files that claimed or running tasks hold"))
    | Some id =>
        take now id actor ≫= λ _,
        claimed ← load_task id;
        mret (mk_next_outcome (Some claimed) "")
    end.

(** ** Scopes (work_ops/scope.rs) *)

Definition find_scope (id : string) (d : db) : option scope_row :=
  snd <$> list_find (λ s, sc_id s = id) (work_scopes (work d)).

(** The walk up from [scope]; it visits no scope twice, so the number of scopes
    and the start bound it.  Out of fuel is an endless walk. *)
Fixpoint parent_loop (fuel : nat) (id parent scope : string) (seen : list string) (d : db) :
    option (result StoreError unit) :=
  match fuel with
  | O => None
  | S n =>
      if bool_decide (scope = id)
      then Some (Err (Refused ("scope " +:+ id +:+ " cannot be under " +:+ parent +:+ ", which is "
        +:+ id +:+ " or under it")))
      else if bool_decide (scope ∈ seen) then Some (Ok tt)
      else
        match find_scope scope d with
        | None => Some (Err (Refused ("unknown parent scope " +:+ scope)))
        | Some row =>
            match sc_parent row with
            | None => Some (Ok tt)
            | Some next => parent_loop n id parent next (scope :: seen) d
            end
        end
  end.

Definition check_parent (id parent : string) : tx unit := λ d,
  match parent_loop (2 + length (work_scopes (work d))) id parent parent [] d with
  | Some (Ok _) => Ok (tt, d)
  | Some (Err e) => Err e
  | None => Err StoreIo
  end.

Definition scope_set_in (now : Z) (actor : string) (args : ScopeArgs) : tx unit :=
  refuse (validate_name "scope" (sa_id args)) ≫= λ _,
  existing ← query (find_scope (sa_id args));
  parent ← match sa_parent args with
           | None => mret (existing ≫= sc_parent)
           | Some "" => mret None
           | Some parent =>
               refuse (validate_name "parent scope" parent) ≫= λ _,
               check_parent (sa_id args) parent ≫= λ _,
               mret (Some parent)
           end;
  let kind := match sa_kind args, existing with
              | Some kind, _ => ScopeKind_as_str kind
              | None, Some stored => sc_kind stored
              | None, None => if bool_decide (is_Some parent) then "agent" else "project"
              end in
  task ← match sa_task args with
         | Some text => check_text_field "task" text TEXT_MAX ≫= λ _, mret text
         | None => mret (from_option sc_task "" existing)
         end;
  execute (λ d,
    match existing with
    | Some _ => set_scopes (map (λ s, if decide (sc_id s = sa_id args)
        then mk_scope_row (sc_id s) kind parent task
               (match sc_agent s with Some a => Some a | None => Some actor end) (sc_created s) now
        else s) (work_scopes (work d))) d
    | None => set_scopes (work_scopes (work d)
        ++ [mk_scope_row (sa_id args) kind parent task (Some actor) now now]) d
    end) ≫= λ _,
  record_event now actor "work.scoped" (sa_id args)
    (VObject [("kind", VString kind); ("parent", v_opt parent); ("scope", VString (sa_id args));
              ("detail", VString (detail_text task ("kind " +:+ kind)))]).

(** ** Requests (work_ops/request.rs) *)

Definition scratch_roots (h : Host) : list string :=
  ["/tmp"; "/private/tmp"; "/var/folders"; "/private/var/folders"]
  ++ match temp_root h with Some root => [root] | None => [] end.

Definition signatures_for (h : Host) (argv : list string) (cwd : option string) : Signatures :=
  signatures sha256 argv (place cwd (probe h) (scratch_roots h)).

(** A run that reached an exit status of its own and whose CPU time is known. *)
Definition ran (r : history_row) : bool :=
  match jh_status r with
  | Some s => negb (s =? 126)%Z && negb (s =? 127)%Z && bool_decide (is_Some (jh_cpu_time r))
  | None => false
  end.

(** [ORDER BY ended DESC, seq DESC]. *)
Definition newest_run (a b : history_row) : comparison :=
  then_with (Z.compare (jh_ended b) (jh_ended a)) (Z.compare (jh_seq b) (jh_seq a)).

Definition ran_rows (keep : history_row → bool) (limit : nat) (d : db) : list history_row :=
  firstn limit (sort_by newest_run (List.filter (λ r, ran r && keep r) (job_history (work d)))).

(** A negative peak reads as none. *)
Definition run_of (r : history_row) : Run :=
  mk_run (jh_started r) (jh_ended r) (default f_zero (jh_cpu_time r))
    (match jh_rss_peak r with Some k => if (0 <=? k)%Z then Some k else None | None => None end).

Definition history_in (s : Signatures) (cpus : f64) (d : db) : History :=
  let level column key := run_of <$> ran_rows (λ r, bool_decide (column r = Some key)) 5 d in
  mk_history
    [level jh_full (s_full s); level jh_head (s_head s); level jh_prog (s_prog s);
     level jh_tool (s_tool s)]
    ((λ r, (f_of_Z (sat_i64 (jh_ended r - jh_started r)) / f_of_Z 1000)%f64)
       <$> ran_rows (λ _, true) 200 d)
    (run_of <$> ran_rows (λ r, f_le cpus (jh_weight r)) 20 d).

(** [Path::join] of the log directory and the name of the log. *)
Definition log_path (log_dir id : string) : string := path_join log_dir (id +:+ ".log").

Definition with_request (now : Z) (log : string) (s : Signatures) (prediction : string)
    (t : work_task) : work_task :=
  let cl := w_claim t in
  let rn := w_run t in
  mk_work_task (w_seq t) (w_id t) (w_spec t) (w_state t)
    (mk_task_claim (cl_agent cl) (cl_accepted cl) (cl_claimed cl) (Some now))
    (mk_task_run (rn_started rn) (rn_ended rn) (rn_supervisor_pid rn) (rn_supervisor_start rn)
       (rn_pid rn) (rn_status rn) (Some log) (rn_qos rn) (rn_exclusive rn) (rn_quiet_until rn)
       (rn_cancel_requested rn))
    (w_usage t)
    (mk_task_sigs (Some (s_full s)) (Some (s_head s)) (Some (s_prog s)) (Some (s_tool s))
       (Some prediction)) "".

Definition reserve (now : Z) (h : Host) (t : TaskRecord) (actor : string) (cpus : f64)
    (log_dir : string) : tx unit :=
  argv ← lift (ok_or (tr_command t) (Invalid "a run needs a command"));
  let s := signatures_for h argv (tr_cwd t) in
  history ← query (history_in s cpus);
  let weight := sp_weight (w_spec (tr_row t)) in
  let prediction := prediction_json (predict history weight cpus) in
  execute (update_task (tr_id t) (with_request now (log_path log_dir (tr_id t)) s prediction)) ≫= λ _,
  record_event now actor "work.requested" (tr_id t)
    (VObject [("weight", VNumber (NFloat weight)); ("scope", v_opt (tr_scope t));
              ("detail", VString ("weight " +:+ number weight))]).
End Work.

Section Operations.
Context `{P : Prims} `{LC : LeaseCodec} `{C : WorkCodec}.

(** ** New tasks (work_ops/add.rs) *)

Inductive Placement : Type := PlaceQueued | PlaceInline (cpus : f64).

Definition MIN_WEIGHT : f64 := f_lit 1 10.

Definition finite_positive (v : f64) : bool := is_finite v && f_lt f_zero v.

Definition non_empty (o : option string) : option string :=
  match o with Some "" => None | _ => o end.

Definition check_cwd (h : Host) (cwd : option string) : tx (option string) :=
  match non_empty cwd with
  | None => mret None
  | Some dir =>
      check_text_field "working directory" dir TEXT_MAX ≫= λ _,
      guard (negb (starts_with "/" dir)) (Invalid "the working directory must be an absolute path") ≫= λ _,
      found ← lift (ok_or (real_dir h dir) (Refused (dir +:+ " is not a directory")));
      real ← lift (ok_or found (Refused (dir +:+ " is not a UTF-8 path")));
      check_text_field "working directory" real TEXT_MAX ≫= λ _,
      mret (Some real)
  end.

Fixpoint add_files (role : Role) (cwd : option string) (raws files : list string) : tx (list string) :=
  match raws with
  | [] => mret files
  | raw :: raws' =>
      guard (bool_decide (cwd = None) && negb (starts_with "/" raw))
        (Invalid "a relative file path needs a working directory") ≫= λ _,
      path ← refuse (canonical_path raw (default "/" cwd) None);
      check_text_field "file path" path TEXT_MAX ≫= λ _,
      guard (role_lt role Supervisor && Nat.ltb (path_depth path) 2)
        (Refused (path +:+ " is too broad to claim")) ≫= λ _,
      add_files role cwd raws' (if bool_decide (path ∈ files) then files else files ++ [path])
  end.

(** Each text once, at its first place. *)
Definition once (l : list string) : list string :=
  foldl (λ acc x, if bool_decide (x ∈ acc) then acc else acc ++ [x]) [] l.

Fixpoint check_names (what : string) (l : list string) : tx unit :=
  match l with
  | [] => mret tt
  | x :: l' => refuse (validate_name what x) ≫= λ _, check_names what l'
  end.

Fixpoint check_prereqs (id : string) (l : list string) : tx unit :=
  match l with
  | [] => mret tt
  | x :: l' =>
      known ← query (task_exists x);
      guard (negb known) (Refused ("task " +:+ id +:+ " is after unknown task " +:+ x)) ≫= λ _,
      check_prereqs id l'
  end.

Definition max_task_seq (ts : list work_task) : Z := foldr (λ t m, Z.max (w_seq t) m) 0%Z ts.

(** One candidate more than there are tasks is enough. *)
Fixpoint free_task_id (fuel : nat) (prefix : string) (n : Z) (d : db) : option string :=
  match fuel with
  | O => None
  | S k =>
      let n := sat_i64 (n + 1) in
      let candidate := prefix +:+ "-" +:+ dec n in
      if task_exists candidate d then free_task_id k prefix n d else Some candidate
  end.

Definition new_id (prefix : string) : tx string :=
  found ← query (λ d, free_task_id (S (length (work_tasks (work d)))) prefix
                        (max_task_seq (work_tasks (work d))) d);
  lift (ok_or found StoreIo).

Definition new_task (now : Z) (actor id : string) (add : AddArgs) (scope : option string)
    (after files : list string) (size value : f64) (cwd : option string) (inline : bool)
    (s : option Signatures) (seq : Z) : work_task :=
  let holder := if inline then Some actor else None in
  mk_work_task seq id
    (mk_task_spec (ad_title add) (ad_kind add) scope actor now (list_json after) size value
       (list_json files) (list_json <$> ad_command add) cwd (ad_weight add)
       (non_empty (ad_card add)) None)
    (if inline then "claimed" else "queued")
    (mk_task_claim holder holder (if inline then Some now else None) None)
    (mk_task_run None None None None None None None None false None false)
    (mk_task_usage None None None None None)
    (mk_task_sigs (s_full <$> s) (s_head <$> s) (s_prog <$> s) (s_tool <$> s) None) "".

Definition insert_work_task (mk : Z → work_task) (d : db) : db :=
  let n := (work_seq (work d) + 1)%Z in set_tasks (work_tasks (work d) ++ [mk n]) n d.

Definition is_inline (place : Placement) : bool :=
  match place with PlaceInline _ => true | PlaceQueued => false end.

Definition insert_task (now : Z) (h : Host) (actor : string) (role : Role) (add : AddArgs)
    (place : Placement) : tx string :=
  let inline := is_inline place in
  refuse (validate_kind (ad_kind add)) ≫= λ _,
  check_text_field "title" (ad_title add) TITLE_MAX ≫= λ _,
  let size := if inline then f_of_Z 1 else ad_size add in
  let value := if inline then f_of_Z 1 else ad_value add in
  guard (negb (is_finite (ad_weight add) && f_le MIN_WEIGHT (ad_weight add)))
    (Invalid "weight must be at least 0.1") ≫= λ _,
  match place with
  | PlaceInline cpus =>
      let limit := f_max cpus (f_of_Z 1) in
      guard (f_lt limit (ad_weight add))
        (Refused ("--weight " +:+ number (ad_weight add) +:+ " is more than the " +:+ number limit
          +:+ " effective CPUs of this machine"))
  | PlaceQueued => mret tt
  end ≫= λ _,
  guard (negb (finite_positive size)) (Invalid "size must be a number above zero") ≫= λ _,
  guard (negb (finite_positive value)) (Invalid "value must be a number above zero") ≫= λ _,
  match ad_command add with
  | None => guard inline (Invalid "a new job needs a command to run")
  | Some argv => refuse (check_command argv)
  end ≫= λ _,
  cwd ← check_cwd h (ad_cwd add);
  guard (bool_decide (is_Some (ad_command add)) && bool_decide (cwd = None))
    (Invalid "a command needs a working directory") ≫= λ _,
  guard (inline && negb (bool_decide (ad_after add = [])))
    (Invalid "a new job takes no prerequisites") ≫= λ _,
  guard (Nat.ltb MAX_ITEMS (length (ad_files add))) (Invalid "more than 1000 files") ≫= λ _,
  files ← add_files role cwd (ad_files add) [];
  let after := once (ad_after add) in
  guard (Nat.ltb MAX_ITEMS (length after)) (Invalid "more than 1000 prerequisites") ≫= λ _,
  check_names "--after" after ≫= λ _,
  let scope := non_empty (ad_scope add) in
  match scope with
  | Some name => refuse (validate_name "scope" name) ≫= λ _, scope_exists name
  | None => mret tt
  end ≫= λ _,
  match non_empty (ad_card add) with
  | Some card => check_card card actor role
  | None => mret tt
  end ≫= λ _,
  id ← match ad_id add with
       | Some id => refuse (validate_name "task" id) ≫= λ _, mret id
       | None => new_id (if inline then "job" else "task")
       end;
  known ← query (task_exists id);
  guard known (Refused ("task " +:+ id +:+ " exists already")) ≫= λ _,
  check_prereqs id after ≫= λ _,
  (if inline then check_files now ("job " +:+ id) files actor else mret tt) ≫= λ _,
  let s := (λ argv, signatures_for h argv cwd) <$> ad_command add in
  execute (insert_work_task (new_task now actor id add scope after files size value cwd inline s)) ≫= λ _,
  record_event now actor "work.added" id
    (VObject [("kind", VString (ad_kind add)); ("scope", v_opt scope);
              ("detail", VString (detail_text (ad_title add) id))]) ≫= λ _,
  (if inline
   then record_event now actor "work.claimed" id
          (VObject [("scope", v_opt scope); ("detail", VString "typed inline with work run")])
   else mret tt) ≫= λ _,
  mret id.

(** ** Updates (work_ops/edit.rs) *)

Definition validate_after (id : string) (l : list string) : tx (list string) :=
  let after := once l in
  guard (Nat.ltb MAX_ITEMS (length after)) (Invalid "more than 1000 prerequisites") ≫= λ _,
  (fix go (items : list string) : tx unit :=
     match items with
     | [] => mret tt
     | item :: items' =>
         refuse (validate_name "--after" item) ≫= λ _,
         known ← query (task_exists item);
         guard (negb known) (Refused ("task " +:+ id +:+ " is after unknown task " +:+ item)) ≫= λ _,
         go items'
     end) after ≫= λ _,
  mret after.

(** A stored task as the cycle check sees it, with the new prerequisites of [id]. *)
Definition cycle_task (id : string) (after : list string) (t : work_task) : result StoreError Task :=
  l ← (if bool_decide (w_id t = id) then Ok after else stored_list (sp_after (w_spec t)));
  Ok (mk_task 0 (w_id t) "" "" 0 None l (f_of_Z 1) (f_of_Z 1) []).

Definition with_index (i : nat) (t : Task) : Task :=
  mk_task i (t_id t) (t_title t) (t_kind t) (t_tier t) (t_queued t) (t_after t) (t_size t)
    (t_value t) (t_files t).

Definition check_cycles (id : string) (after : list string) : tx unit :=
  rows ← query (λ d, work_tasks (work d));
  tasks ← lift (try_map (cycle_task id after) rows);
  lift match Graph_new (imap with_index tasks) with
       | Ok _ => Ok tt
       | Err e => Err (Refused (Task.message e))
       end.

Definition is_active_worker (key : string) (d : db) : bool :=
  match find_ident key d with
  | Some i => negb (i_revoked i) && negb (i_system i)
              && from_option (role_le Worker) false (role_parse (i_role i))
  | None => false
  end.

Definition assign (now : Z) (t : TaskRecord) (after : list string) (pk : string) :
    tx (TaskState * option string * option Z) :=
  match unhex32 pk with
  | None => fail (Invalid "agent must be a 64-character hex public key")
  | Some key =>
      worker ← query (is_active_worker key);
      guard (negb worker) (Invalid "agent is not an active worker identity") ≫= λ _,
      guard (is_requested t)
        (Refused ("task " +:+ tr_id t +:+ " is " +:+ describe_state t +:+ "; cancel it instead")) ≫= λ _,
      (if bool_decide (tr_state t = TQueued) then claim_block now (tr_id t) after (tr_files t) pk
       else mret tt) ≫= λ _,
      mret (TClaimed, Some pk, Some now)
  end.

(** The fields an update names, in order. *)
Definition changed_fields (args : UpdateArgs) : list string :=
  (if bool_decide (is_Some (ua_title args)) then ["title"] else [])
  ++ (if bool_decide (is_Some (ua_kind args)) then ["kind"] else [])
  ++ (if bool_decide (is_Some (ua_size args)) then ["size"] else [])
  ++ (if bool_decide (is_Some (ua_value args)) then ["value"] else [])
  ++ (if bool_decide (is_Some (ua_after args)) then ["after"] else [])
  ++ (if bool_decide (is_Some (ua_agent args)) then ["agent"] else []).

Definition with_update (title kind : string) (size value : f64) (after : list string)
    (state : TaskState) (agent : option string) (claimed : option Z) (accepted : option string)
    (t : work_task) : work_task :=
  let sp := w_spec t in
  mk_work_task (w_seq t) (w_id t)
    (mk_task_spec title kind (sp_scope sp) (sp_author sp) (sp_queued sp) (list_json after) size value
       (sp_files sp) (sp_command sp) (sp_cwd sp) (sp_weight sp) (sp_card sp) (sp_origin sp))
    (TaskState_as_str state)
    (mk_task_claim agent accepted claimed (cl_requested (w_claim t)))
    (w_run t) (w_usage t) (w_sigs t) (w_note t).

Definition update_in (now : Z) (actor : string) (role : Role) (id : string) (args : UpdateArgs) :
    tx (list string) :=
  t ← load_task id;
  guard (is_final (tr_state t)) (Refused ("task " +:+ id +:+ " is " +:+ describe_state t +:+ " already")) ≫= λ _,
  guard (bool_decide (tr_state t = TRunning))
    (Refused ("task " +:+ id +:+ " is " +:+ describe_state t +:+ "; a running task cannot be changed")) ≫= λ _,
  may_act role actor t ≫= λ _,
  let sp := w_spec (tr_row t) in
  match ua_title args with
  | Some text => check_text_field "title" text TITLE_MAX
  | None => mret tt
  end ≫= λ _,
  match ua_kind args with
  | Some name => refuse (validate_kind name)
  | None => mret tt
  end ≫= λ _,
  guard (negb (from_option finite_positive true (ua_size args)))
    (Invalid "size must be a number above zero") ≫= λ _,
  guard (negb (from_option finite_positive true (ua_value args)))
    (Invalid "value must be a number above zero") ≫= λ _,
  after ← match ua_after args with
          | Some l => after ← validate_after id l; check_cycles id after ≫= λ _, mret after
          | None => mret (tr_after t)
          end;
  place ← match ua_agent args with
          | None => mret (tr_state t, tr_agent t, tr_claimed t)
          | Some None =>
              guard (negb (is_claimed t) || is_requested t)
                (Refused ("task " +:+ id +:+ " is " +:+ describe_state t
                  +:+ "; only a claimed task can be unassigned")) ≫= λ _,
              mret (TQueued, None, None)
          | Some (Some pk) =>
              guard (role_lt role Supervisor) (forbidden role) ≫= λ _,
              assign now t after pk
          end;
  let changed := changed_fields args in
  if bool_decide (changed = []) then mret changed
  else
    let '(state, agent, claimed) := place in
    let accepted := if bool_decide (agent = tr_agent t) then tr_accepted t else None in
    execute (update_task id (with_update (default (sp_title sp) (ua_title args))
      (default (sp_kind sp) (ua_kind args)) (default (sp_size sp) (ua_size args))
      (default (sp_value sp) (ua_value args)) after state agent claimed accepted)) ≫= λ _,
    record_event now actor "work.updated" id
      (VObject [("changed", VArray (VString <$> changed)); ("scope", v_opt (tr_scope t));
                ("detail", VString ("changed " +:+ join ", " changed))]) ≫= λ _,
    mret changed.
End Operations.

Section Store.
Context `{P : Prims} `{LC : LeaseCodec} `{C : WorkCodec}.

(** ** The signed operations (work_ops.rs) *)

Definition work_scope_set (now : Z) (op : SignedOp) : tx string :=
  role ← authorize now op "work.scope";
  need role Worker ≫= λ _,
  args ← lift (ok_or (parse_scope_args (o_arg op)) malformed);
  scope_set_in now (actor_hex op) args ≫= λ _,
  mret (sa_id args).

Definition work_add (now : Z) (h : Host) (op : SignedOp) : tx string :=
  role ← authorize now op "work.add";
  need role Worker ≫= λ _,
  args ← lift (ok_or (parse_add_args (o_arg op)) malformed);
  insert_task now h (actor_hex op) role args PlaceQueued.

Definition work_next (now : Z) (op : SignedOp) : tx NextOutcome :=
  role ← authorize now op "work.next";
  need role Worker ≫= λ _,
  args ← lift (ok_or (parse_next_args (o_arg op)) malformed);
  let scope := non_empty (nx_scope args) in
  match scope with
  | Some name => refuse (validate_name "scope" name) ≫= λ _, scope_exists name
  | None => mret tt
  end ≫= λ _,
  next_in now (actor_hex op) scope (nx_policy args).

Definition work_claim (now : Z) (op : SignedOp) : tx string :=
  role ← authorize now op "work.claim";
  need role Worker ≫= λ _,
  let actor := actor_hex op in
  id ← subject_task (o_subject op);
  t ← load_task id;
  guard (negb (bool_decide (tr_state t = TQueued)))
    (Refused ("task " +:+ id +:+ " is " +:+ describe_state t)) ≫= λ _,
  claim_block now (tr_id t) (tr_after t) (tr_files t) actor ≫= λ _,
  take now id actor ≫= λ _,
  mret id.

Definition with_accepted (actor : string) (t : work_task) : work_task :=
  let cl := w_claim t in
  with_claim (w_state t) (mk_task_claim (cl_agent cl) (Some actor) (cl_claimed cl) (cl_requested cl)) t.

(** The digest is hexadecimal, and [str::to_lowercase] makes a hexadecimal digit
    of no character but itself and its ASCII capital. *)
Definition work_accept (now : Z) (op : SignedOp) : tx (string * bool) :=
  role ← authorize now op "work.accept";
  need role Worker ≫= λ _,
  given ← lift (ok_or (parse_accept_args (o_arg op)) malformed);
  let actor := actor_hex op in
  s ← settings_in;
  may_run role s ≫= λ _,
  id ← subject_task (o_subject op);
  t ← load_task id;
  sealed ← lift (ok_or (digest_of t) (Refused ("task " +:+ id +:+ " has no command to accept")));
  guard (negb (is_claimed t) || is_requested t)
    (Refused ("task " +:+ id +:+ " is " +:+ describe_state t
      +:+ "; accept a command after you claim its task")) ≫= λ _,
  guard (negb (bool_decide (tr_agent t = Some actor)))
    (Refused ("task " +:+ id +:+ " is claimed by " +:+ agent_label t
      +:+ "; only that agent accepts its command")) ≫= λ _,
  guard (bool_decide (tr_author t = actor) && negb (self_accept s))
    (Invalid "a command must be accepted by an identity other than its author") ≫= λ _,
  guard (negb (String.eqb (to_ascii_lowercase (trim given)) sealed))
    (Refused ("the digest does not match the command of task " +:+ id
      +:+ " in its directory; read it with `agora work show " +:+ id
      +:+ "`, and accept it with the digest that show prints")) ≫= λ _,
  let first := negb (bool_decide (tr_accepted t = Some actor)) in
  (if first
   then execute (update_task id (with_accepted actor)) ≫= λ _,
        record_event now actor "work.accepted" id
          (VObject [("digest", VString sealed); ("scope", v_opt (tr_scope t));
                    ("detail", VString ("digest " +:+ sealed))])
   else mret tt) ≫= λ _,
  mret (id, first).

Definition work_request (now : Z) (h : Host) (op : SignedOp) (cpus : f64) (log_dir : string) :
    tx string :=
  role ← authorize now op "work.run";
  need role Worker ≫= λ _,
  args ← lift (ok_or (parse_run_args (o_arg op)) malformed);
  let actor := actor_hex op in
  s ← settings_in;
  may_run role s ≫= λ _,
  let named := bool_decide (is_Some (ra_task args)) in
  id ← match ra_task args, ra_add args with
       | Some _, Some _ => fail (Invalid "give a task ID or a command, not both")
       | None, None => fail (Invalid "name a task you claimed, or give a command to run")
       | Some task, None => refuse (validate_name "task" task) ≫= λ _, mret task
       | None, Some add => insert_task now h actor role add (PlaceInline cpus)
       end;
  t ← load_task id;
  check_runnable t actor ≫= λ _,
  check_request op actor t named s ≫= λ _,
  reserve now h t actor cpus log_dir ≫= λ _,
  mret id.

Definition with_end (state : string) (now : Z) (note : string) (t : work_task) : work_task :=
  let rn := w_run t in
  mk_work_task (w_seq t) (w_id t) (w_spec t) state (w_claim t)
    (mk_task_run (rn_started rn) (Some now) (rn_supervisor_pid rn) (rn_supervisor_start rn)
       (rn_pid rn) (rn_status rn) (rn_log rn) (rn_qos rn) (rn_exclusive rn) (rn_quiet_until rn)
       (rn_cancel_requested rn)) (w_usage t) (w_sigs t) note.

(** [{"note", "scope", "detail"}] of an ending. *)
Definition note_data (note : string) (t : TaskRecord) : Value :=
  VObject [("note", VString note); ("scope", v_opt (tr_scope t));
           ("detail", VString (detail_text note (tr_title t)))].

Definition work_finish (now : Z) (op : SignedOp) : tx string :=
  role ← authorize now op "work.finish";
  need role Worker ≫= λ _,
  args ← lift (ok_or (parse_finish_args (o_arg op)) malformed);
  status ← match fa_state args with
           | TDone => mret "done"
           | TFailed => mret "failed"
           | _ => fail (Invalid "finish takes done or failed")
           end;
  let actor := actor_hex op in
  id ← subject_task (o_subject op);
  check_text_field "note" (fa_note args) TEXT_MAX ≫= λ _,
  t ← load_task id;
  guard (is_final (tr_state t)) (Refused ("task " +:+ id +:+ " is " +:+ describe_state t +:+ " already")) ≫= λ _,
  guard (bool_decide (tr_state t = TRunning))
    (Refused ("task " +:+ id +:+ " is " +:+ describe_state t
      +:+ "; its supervisor records how it ends, so stop it with `agora work cancel " +:+ id +:+ "`")) ≫= λ _,
  guard (bool_decide (tr_state t = TQueued) && negb (bool_decide (tr_author t = actor)))
    (Refused ("task " +:+ id +:+ " was queued by " +:+ tr_author_name t
      +:+ "; until an agent claims it, only " +:+ tr_author_name t +:+ " closes it")) ≫= λ _,
  guard (bool_decide (tr_state t = TClaimed) && negb (bool_decide (tr_agent t = Some actor)))
    (Refused ("task " +:+ id +:+ " is claimed by " +:+ agent_label t +:+ "; only that agent closes it")) ≫= λ _,
  guard (bool_decide (is_Some (tr_command t)))
    (Refused ("task " +:+ id +:+ " has a command: run it with `agora work run " +:+ id
      +:+ "`, or cancel it")) ≫= λ _,
  execute (update_task id (with_end status now (fa_note args))) ≫= λ _,
  record_event now actor ("work." +:+ status) id (note_data (fa_note args) t) ≫= λ _,
  mret id.

Definition with_cancel_request (note : string) (t : work_task) : work_task :=
  let rn := w_run t in
  mk_work_task (w_seq t) (w_id t) (w_spec t) (w_state t) (w_claim t)
    (mk_task_run (rn_started rn) (rn_ended rn) (rn_supervisor_pid rn) (rn_supervisor_start rn)
       (rn_pid rn) (rn_status rn) (rn_log rn) (rn_qos rn) (rn_exclusive rn) (rn_quiet_until rn) true)
    (w_usage t) (w_sigs t) note.

Definition work_cancel (now : Z) (op : SignedOp) : tx (string * option StopTarget) :=
  role ← authorize now op "work.cancel";
  need role Worker ≫= λ _,
  note ← lift (ok_or (parse_cancel_args (o_arg op)) malformed);
  let actor := actor_hex op in
  id ← subject_task (o_subject op);
  check_text_field "note" note TEXT_MAX ≫= λ _,
  t ← load_task id;
  guard (is_final (tr_state t)) (Refused ("task " +:+ id +:+ " is " +:+ describe_state t +:+ " already")) ≫= λ _,
  may_act role actor t ≫= λ _,
  if bool_decide (tr_state t = TRunning) then
    supervisor_pid ← lift (ok_or (rn_supervisor_pid (w_run (tr_row t)))
                       (Invalid "the running task has no recorded supervisor"));
    let start := rn_supervisor_start (w_run (tr_row t)) in
    let by' := pseudonym (o_actor op) in
    let text := if is_empty_str note then "cancelled by " +:+ by'
                else "cancelled by " +:+ by' +:+ ": " +:+ note in
    execute (update_task id (with_cancel_request text)) ≫= λ _,
    record_event now actor "work.cancel_requested" id (note_data note t) ≫= λ _,
    mret (id, Some (mk_stop_target supervisor_pid
      (match start with Some s => if (0 <=? s)%Z then Some s else None | None => None end) ""))
  else
    execute (update_task id (with_end "cancelled" now note)) ≫= λ _,
    record_event now actor "work.cancelled" id (note_data note t) ≫= λ _,
    mret (id, None).

Definition work_update (now : Z) (op : SignedOp) : tx string :=
  role ← authorize now op "work.update";
  need role Worker ≫= λ _,
  args ← lift (ok_or (parse_update_args (o_arg op)) malformed);
  id ← subject_task (o_subject op);
  update_in now (actor_hex op) role id args ≫= λ _,
  mret id.

Definition with_requeue (note : string) (t : work_task) : work_task :=
  mk_work_task (w_seq t) (w_id t) (w_spec t) "queued"
    (mk_task_claim None None None (cl_requested (w_claim t))) (w_run t) (w_usage t) (w_sigs t) note.

Definition reclaim_task (now : Z) (actor id note : string) : tx unit :=
  refuse (validate_name "task" id) ≫= λ _,
  t ← load_task id;
  guard (negb (is_claimed t) || is_requested t)
    (Refused ("task " +:+ id +:+ " is " +:+ describe_state t
      +:+ "; only a claimed task that has not been requested can be reclaimed")) ≫= λ _,
  execute (update_task id (with_requeue note)) ≫= λ _,
  record_event now actor "work.reclaimed" id (note_data note t).

Definition with_note (note : string) (l : lease) : lease :=
  mk_lease (l_id l) (l_kind l) (l_resource l) (l_amount l) (l_holder l) (l_card l) (l_task l)
    (l_created l) (l_expires l) (l_heartbeat l) (l_expected_end l) (l_released l) note.

Definition reclaim_lease (now : Z) (actor id note : string) : tx unit :=
  row ← query (find_lease id);
  match row with
  | None => fail (NotFound ("lease " +:+ id))
  | Some l =>
      guard (String.eqb (l_kind l) "quiet") (Invalid "use quiet.close") ≫= λ _,
      guard (bool_decide (is_Some (l_released l)))
        (Refused ("lease " +:+ id +:+ " is released already")) ≫= λ _,
      execute (update_lease id (λ l, with_note note (with_release now l))) ≫= λ _,
      record_event now actor "lease.reclaimed" id (VObject [("note", VString note)])
  end.

Definition work_reclaim (now : Z) (op : SignedOp) : tx unit :=
  role ← authorize now op "work.reclaim";
  need role Supervisor ≫= λ _,
  note ← lift (ok_or (parse_reclaim_args (o_arg op)) malformed);
  check_text_field "note" note TEXT_MAX ≫= λ _,
  let actor := actor_hex op in
  match strip_prefix "task:" (o_subject op) with
  | Some id => reclaim_task now actor id note
  | None =>
      match strip_prefix "lease:" (o_subject op) with
      | Some id => reclaim_lease now actor id note
      | None => fail (Invalid "reclaim takes task:<id> or lease:<id>")
      end
  end.

Definition work_settings_set (now : Z) (op : SignedOp) : tx WorkSettings :=
  role ← authorize now op "work.settings";
  need role Controller ≫= λ _,
  patch ← lift (ok_or (parse_settings_args (o_arg op)) malformed);
  s ← settings_in;
  applied ← refuse (apply s patch);
  let '(s', changes) := applied in
  (if bool_decide (changes = []) then mret tt
   else execute (set_settings (Some (settings_json s'))) ≫= λ _,
        record_event now (actor_hex op) "work.settings" ""
          (VObject [("changes", VArray (VString <$> changes)); ("scope", VNull);
                    ("detail", VString (join ", " changes))])) ≫= λ _,
  mret s'.
End Store.
