(* ===== verification/Jobs.v ===== *)
(** * Jobs: the system operations on tasks that run

    [src/crates/agora-store/src/jobs.rs] and [cards_ext/job_sync.rs]: the daemon
    records that a job started and how it ended, and a job's end moves its card.
    The JSON decoders are parameters ([JobCodec]). *)

From Stdlib Require Import Ascii.
From S2P Require Import Prelude F64 Strs PyFmt Bytes Core Crypto Task Claims Settings Predict StoreDb.
From S2P Require Import Identity Leases Policy Board WorkRow Work.

Record JobStartArgs : Type := mk_job_start {
  js_pid : Z; js_supervisor_pid : Z; js_supervisor_start_s : option Z; js_qos : string;
  js_exclusive : bool; js_quiet_until_ms : option Z; js_log : string }.

Record JobFinishArgs : Type := mk_job_finish {
  jf_status : option Z; jf_note : string; jf_cpu_seconds : option f64; jf_rss_peak_kib : option Z;
  jf_ended_ms : Z; jf_before_start : bool }.

Inductive JobOutcome : Type := JDone | JFailed | JCancelled.

Record CardSyncArgs : Type := mk_card_sync {
  cs_task : string; cs_outcome : JobOutcome; cs_status : option Z; cs_log : option string;
  cs_note : string }.

Class JobCodec : Type := {
  parse_job_start : string → option JobStartArgs;
  parse_job_finish : string → option JobFinishArgs;
  parse_job_note : string → option string;
  parse_card_sync : string → option CardSyncArgs }.

Definition NOT_RUN_STATUSES : list Z := [126; 127]%Z.

(** A [u64] as an SQLite integer. *)
Definition to_i64 (v : Z) (what : string) : result StoreError Z :=
  if (v <=? i64_max)%Z then Ok v else Err (Invalid what).

Definition opt_i64 (o : option Z) (what : string) : result StoreError (option Z) :=
  match o with None => Ok None | Some v => z ← to_i64 v what; Ok (Some z) end.

Section Jobs.
Context `{P : Prims} `{LC : LeaseCodec} `{C : WorkCodec} `{JC : JobCodec}.

(** The row, or [NotFound]. *)
Definition current (id : string) : tx work_task :=
  row ← query (find_task id);
  lift (ok_or row (NotFound ("task " +:+ id))).

Definition some_text (s : string) : option string := if is_empty_str s then None else Some s.

Definition with_start (now : Z) (args : JobStartArgs) (supervisor_start : option Z) (t : work_task) :
    work_task :=
  let rn := w_run t in
  mk_work_task (w_seq t) (w_id t) (w_spec t) "running" (w_claim t)
    (mk_task_run (Some now) (rn_ended rn) (Some (js_supervisor_pid args)) supervisor_start
       (Some (js_pid args)) (rn_status rn) (some_text (js_log args)) (some_text (js_qos args))
       (js_exclusive args) (js_quiet_until_ms args) (rn_cancel_requested rn))
    (w_usage t) (w_sigs t) "".

Definition job_start (now : Z) (op : SignedOp) : tx TaskRecord :=
  authorize_system now op "job.start" ≫= λ _,
  args ← lift (ok_or (parse_job_start (o_arg op)) (Invalid "job.start arg must be JSON"));
  cur ← current (o_subject op);
  guard (negb (String.eqb (w_state cur) "claimed" && bool_decide (is_Some (cl_requested (w_claim cur)))
               && bool_decide (rn_started (w_run cur) = None)))
    (Invalid "job is not waiting to start") ≫= λ _,
  supervisor_start ← lift (opt_i64 (js_supervisor_start_s args) "supervisor start time out of range");
  execute (update_task (o_subject op) (with_start now args supervisor_start)) ≫= λ _,
  append now (actor_hex op) "job.started" (o_subject op)
    (VObject [("pid", VNumber (NInt (js_pid args))); ("qos", VString (js_qos args));
              ("scope", v_opt (sp_scope (w_spec cur)));
              ("detail", VString ("process " +:+ dec (js_pid args)))]) ≫= λ _,
  load_task (o_subject op).

(** ** Cards of jobs (cards_ext/job_sync.rs) *)

Definition outcome_state (o : JobOutcome) : TaskState :=
  match o with JDone => TDone | JFailed => TFailed | JCancelled => TCancelled end.

Definition outcome_word (o : JobOutcome) : string :=
  match o with JDone => "done" | JFailed => "failed" | JCancelled => "cancelled" end.

Definition sync_path (o : JobOutcome) (s : CardState) : option (list CardState) :=
  match o, s with
  | JDone, Claimed => Some [Doing; Review]
  | JDone, Doing => Some [Review]
  | JFailed, (Claimed | Doing | Review) => Some [Blocked]
  | JCancelled, (Claimed | Doing | Review) => Some [Ready]
  | _, _ => None
  end.

Definition author_may_move (owner : option string) (author : string) : tx bool := λ d,
  if bool_decide (owner = Some author) then Ok (true, d) else
  match unhex32 author with
  | None => Ok (false, d)
  | Some pk =>
      match active_role pk d with
      | Ok (role, d') => Ok (role_le Supervisor role, d')
      | Err (Invalid _) => Ok (false, d)
      | Err e => Err e
      end
  end.

Definition sync_move (now : Z) (actor card job : string) (from to : CardState) : tx unit :=
  execute (λ d, if bool_decide (to = Doing ∨ to = Ready) then drop_approvals card d else d) ≫= λ _,
  execute (update_card card (λ c, with_state (card_as_str to)
    (if bool_decide (to = Ready) then None else c_owner c) now c)) ≫= λ _,
  append now actor "card.moved" card
    (VObject [("from", VString (card_as_str from)); ("to", VString (card_as_str to));
              ("job", VString job)]) ≫= λ _,
  mret tt.

Fixpoint sync_moves (now : Z) (actor card job : string) (from : CardState) (steps : list CardState) :
    tx unit :=
  match steps with
  | [] => mret tt
  | to :: steps' =>
      sync_move now actor card job from to ≫= λ _, sync_moves now actor card job to steps'
  end.

Definition record_evidence (now : Z) (actor card reference : string) : tx unit :=
  execute (λ d,
    if existsb (λ e, bool_decide (ev_card e = card ∧ ev_ref e = reference)) (evidence d) then d
    else set_evidence (evidence d ++ [mk_evidence card reference actor]) d) ≫= λ _,
  append now actor "card.evidence" card (VObject [("ref", VString reference)]) ≫= λ _,
  mret tt.

Definition skip_notice (now : Z) (actor id : string) (c : card) (job outcome : string) : tx unit :=
  targets ← match c_owner c with Some owner => mret [owner] | None => supervisors end;
  let text := "job " +:+ job +:+ " ended " +:+ outcome +:+ " but card " +:+ id +:+ " ("
    +:+ c_title c +:+ ") is " +:+ c_state c +:+ ", so the card was not moved" in
  notify now targets "job_sync" id text ≫= λ _,
  append now actor "card.sync_skipped" id
    (VObject [("job", VString job); ("outcome", VString outcome); ("state", VString (c_state c));
              ("notified", VNumber (NInt (Z.of_nat (length targets))))]) ≫= λ _,
  mret tt.

Definition needs_owner (action : string) (c : card) : card :=
  mk_card (c_id c) (c_title c) (c_lane c) (c_state c) (c_owner c) (c_created c) (c_updated c)
    (c_priority c) (c_value c) (c_size c) (c_team c) true action.

Definition card_job_sync_tx (now : Z) (op : SignedOp) (task_id : string) (final_state : TaskState) :
    tx unit :=
  authorize_system now op "card.job_sync" ≫= λ _,
  args ← lift (ok_or (parse_card_sync (o_arg op)) (Invalid "card job sync arg must be JSON"));
  guard (negb (bool_decide (cs_task args = task_id))
         || negb (bool_decide (outcome_state (cs_outcome args) = final_state)))
    (Invalid "card.job_sync does not match the job it finishes") ≫= λ _,
  row ← query (find_task (cs_task args));
  t ← lift (ok_or row (NotFound ("task " +:+ cs_task args)));
  match w_card t with
  | None => mret tt
  | Some card =>
      c ← load_card card;
      state ← lift (card_state_of c);
      let actor := actor_hex op in
      let outcome := outcome_word (cs_outcome args) in
      trusted ← author_may_move (c_owner c) (sp_author (w_spec t));
      match (if trusted : bool then sync_path (cs_outcome args) state else None) with
      | None => skip_notice now actor card c (cs_task args) outcome
      | Some steps =>
          sync_moves now actor card (cs_task args) state steps ≫= λ _,
          let status := match cs_status args with Some s => dec s | None => "none" end in
          let log := default "-" (cs_log args) in
          let reference := "job:" +:+ cs_task args +:+ " status=" +:+ status +:+ " log=" +:+ log in
          match cs_outcome args with
          | JDone => record_evidence now actor card reference
          | JFailed =>
              execute (update_card card (needs_owner
                ("job " +:+ cs_task args +:+ " failed with status " +:+ status +:+ ": "
                 +:+ cs_note args +:+ "; inspect " +:+ log +:+ " and re-run or cancel"))) ≫= λ _,
              record_evidence now actor card reference
          | JCancelled => mret tt
          end
      end
  end.

(** ** The end of a job *)

Definition final_of (cancel_requested before_start : bool) (status : option Z) : TaskState :=
  if cancel_requested then TCancelled
  else if before_start then TFailed
  else if bool_decide (status = Some 0%Z) then TDone
  else TFailed.

Definition with_finish (state : TaskState) (args : JobFinishArgs) (rss_peak : option Z)
    (t : work_task) : work_task :=
  let rn := w_run t in
  let us := w_usage t in
  mk_work_task (w_seq t) (w_id t) (w_spec t) (TaskState_as_str state) (w_claim t)
    (mk_task_run (rn_started rn) (Some (jf_ended_ms args)) (rn_supervisor_pid rn)
       (rn_supervisor_start rn) (rn_pid rn) (jf_status args) (rn_log rn) (rn_qos rn)
       (rn_exclusive rn) (rn_quiet_until rn) (rn_cancel_requested rn))
    (mk_task_usage (us_cpu us) (us_rss us)
       (match rss_peak with Some p => Some p | None => us_rss_peak us end)
       (jf_cpu_seconds args) (us_sampled us))
    (w_sigs t) (jf_note args).

(** The history row of a run; the peak falls back to the task's. *)
Definition history_of (cur : work_task) (args : JobFinishArgs) (started : Z) (peak : option Z)
    (seq : Z) : history_row :=
  let s := w_sigs cur in
  mk_history_row seq (w_id cur) (sg_full s) (sg_head s) (sg_prog s) (sg_tool s)
    (sp_weight (w_spec cur)) (jf_status args) started (jf_ended_ms args) (jf_cpu_seconds args) peak
    (cl_requested (w_claim cur)).

Definition insert_history (mk : Z → history_row) (d : db) : db :=
  let n := (history_seq (work d) + 1)%Z in set_history (job_history (work d) ++ [mk n]) n d.

Definition job_finish (now : Z) (op : SignedOp) (sync : option SignedOp) : tx TaskRecord :=
  authorize_system now op "job.finish" ≫= λ _,
  args ← lift (ok_or (parse_job_finish (o_arg op)) (Invalid "job.finish arg must be JSON"));
  cur ← current (o_subject op);
  let running := String.eqb (w_state cur) "running" in
  let before_start := String.eqb (w_state cur) "claimed"
    && bool_decide (is_Some (cl_requested (w_claim cur))) && jf_before_start args in
  guard (negb running && negb before_start) (Invalid "job is not running") ≫= λ _,
  let new_state := final_of (rn_cancel_requested (w_run cur)) (jf_before_start args) (jf_status args) in
  rss_peak ← lift (opt_i64 (jf_rss_peak_kib args) "rss peak out of range");
  execute (update_task (o_subject op) (with_finish new_state args rss_peak)) ≫= λ _,
  let ran := match jf_status args with
             | Some s => negb (bool_decide (s ∈ NOT_RUN_STATUSES))
             | None => false
             end in
  execute (λ d,
    match rn_started (w_run cur) with
    | Some started =>
        if ran then
          let peak := match rss_peak with
                      | Some p => Some p
                      | None => find_task (o_subject op) d ≫= λ t, us_rss_peak (w_usage t)
                      end in
          insert_history (history_of cur args started peak) d
        else d
    | None => d
    end) ≫= λ _,
  append now (actor_hex op) "job.finished" (o_subject op)
    (VObject [("status", match jf_status args with Some s => VNumber (NInt s) | None => VNull end);
              ("state", VString (TaskState_as_str new_state));
              ("scope", v_opt (sp_scope (w_spec cur)));
              ("detail", VString (match jf_status args with
                                  | Some s => "status " +:+ dec s
                                  | None => "no status"
                                  end))]) ≫= λ _,
  match sync with
  | Some sync_op => card_job_sync_tx now sync_op (o_subject op) new_state
  | None => mret tt
  end ≫= λ _,
  load_task (o_subject op).

Definition set_note (note : string) (t : work_task) : work_task :=
  mk_work_task (w_seq t) (w_id t) (w_spec t) (w_state t) (w_claim t) (w_run t) (w_usage t) (w_sigs t)
    note.

Definition job_note (now : Z) (op : SignedOp) : tx unit :=
  authorize_system now op "job.note" ≫= λ _,
  note ← lift (ok_or (parse_job_note (o_arg op)) (Invalid "job.note arg must be JSON"));
  cur ← current (o_subject op);
  execute (update_task (o_subject op) (set_note note)) ≫= λ _,
  append now (actor_hex op) "job.noted" (o_subject op)
    (VObject [("scope", v_opt (sp_scope (w_spec cur))); ("detail", VString note)]) ≫= λ _,
  mret tt.

Definition with_sample (cpu : f64) (rss peak sampled : Z) (t : work_task) : work_task :=
  mk_work_task (w_seq t) (w_id t) (w_spec t) (w_state t) (w_claim t) (w_run t)
    (mk_task_usage (Some cpu) (Some rss) (Some peak) (us_cpu_time (w_usage t)) (Some sampled))
    (w_sigs t) (w_note t).

(** One statement, outside a transaction: a task that no longer runs is left
    alone. *)
Definition job_sample (id : string) (cpu : f64) (rss_kib rss_peak_kib sampled : Z) : tx unit :=
  rss ← lift (to_i64 rss_kib "rss out of range");
  peak ← lift (to_i64 rss_peak_kib "rss peak out of range");
  execute (update_task id (λ t, if String.eqb (w_state t) "running"
                                then with_sample cpu rss peak sampled t else t)).

(** ** Retention *)

Definition PRUNED_KINDS : list string :=
  ["work."; "job."; "lease."; "timer."; "quiet."; "pool."; "policy."; "reconcile."].

Definition pruned_kind (kind : string) : bool := existsb (λ p, starts_with p kind) PRUNED_KINDS.

Definition without_log (t : work_task) : work_task :=
  let rn := w_run t in
  mk_work_task (w_seq t) (w_id t) (w_spec t) (w_state t) (w_claim t)
    (mk_task_run (rn_started rn) (rn_ended rn) (rn_supervisor_pid rn) (rn_supervisor_start rn)
       (rn_pid rn) (rn_status rn) None (rn_qos rn) (rn_exclusive rn) (rn_quiet_until rn)
       (rn_cancel_requested rn)) (w_usage t) (w_sigs t) (w_note t).

(** Ended before the cutoff with a log that is still there. *)
Definition stale_log (cutoff : Z) (t : work_task) : bool :=
  bool_decide (w_state t = "done" ∨ w_state t = "failed" ∨ w_state t = "cancelled")
  && from_option (λ e, e <? cutoff)%Z false (rn_ended (w_run t))
  && bool_decide (is_Some (rn_log (w_run t))).

Definition work_prune (cutoff : Z) : tx (list string) :=
  execute (λ d, set_events (List.filter (λ e, negb ((e_ts e <? cutoff)%Z && pruned_kind (e_kind e)))
    (events d)) (event_seq d) d) ≫= λ _,
  execute (λ d, set_leases (List.filter (λ l, negb (from_option (λ r, r <? cutoff)%Z false (l_released l)))
    (leases d)) d) ≫= λ _,
  execute (λ d, set_marks (List.filter (λ m, negb (mk_last m <? cutoff)%Z)
    (reconcile_marks (work d))) d) ≫= λ _,
  execute (λ d, set_notices (List.filter (λ n, negb (nt_ts n <? cutoff)%Z) (notices d))
    (notice_seq d) d) ≫= λ _,
  ids ← query (λ d, w_id <$> List.filter (stale_log cutoff) (work_tasks (work d)));
  execute (λ d, foldl (λ d id, update_task id without_log d) d ids) ≫= λ _,
  mret ids.
End Jobs.
