(* ===== verification/WorkQuery.v ===== *)
(** * The work queue: reads

    [src/crates/agora-store/src/work_query.rs].  The rendered plan
    ([work_plan]) is left to the renderer.  What the operations read inside
    their transactions ([holders_in], [history_in]) is shown to be what these
    reads report. *)

From Stdlib Require Import Ascii.
From S2P Require Import Prelude F64 Strs PyFmt Bytes Core Crypto Task Claims Settings Predict.
From S2P Require Import Signature StoreDb Identity Leases WorkRow Work.

Record TaskFilter : Type := mk_task_filter {
  tf_scope : option string; tf_states : list TaskState; tf_ids : list string; tf_limit : nat }.

Record Counts : Type := mk_counts {
  ct_queued : nat; ct_ready : nat; ct_claimed : nat; ct_running : nat; ct_done : nat;
  ct_failed : nat; ct_cancelled : nat }.

Record WorkEvent : Type := mk_work_event {
  we_seq : Z; we_ts : Z; we_kind : string; we_task : option string; we_scope : option string;
  we_actor : string; we_actor_name : string; we_detail : string }.

Section Query.
Context `{P : Prims} `{LC : LeaseCodec} `{C : WorkCodec}.

Definition select_tasks (rows : list work_task) : result StoreError (list TaskRecord) :=
  try_map task_from_row rows.

(** The subtree of a scope that exists; an unknown scope has none. *)
Definition subtree (scope : string) (d : db) : list string :=
  if scope_known scope d then under scope d else [].

Definition in_scope (scope column : option string) (d : db) : bool :=
  match scope with
  | None => true
  | Some s => match column with Some x => bool_decide (x ∈ subtree s d) | None => false end
  end.

Definition work_task_read (id : string) (d : db) : result StoreError TaskRecord :=
  match find_task id d with
  | None => Err (NotFound ("task " +:+ id))
  | Some t => task_from_row t
  end.

(** [LIMIT], where zero is none. *)
Definition limited {A} (n : nat) (l : list A) : list A := match n with O => l | _ => firstn n l end.

Definition work_tasks_read (f : TaskFilter) (d : db) : result StoreError (list TaskRecord) :=
  select_tasks (limited (tf_limit f) (List.filter (λ t,
    in_scope (tf_scope f) (sp_scope (w_spec t)) d
    && (bool_decide (tf_states f = []) || existsb (String.eqb (w_state t)) (TaskState_as_str <$> tf_states f))
    && (bool_decide (tf_ids f = []) || existsb (String.eqb (w_id t)) (tf_ids f)))
    (work_tasks (work d)))).

Definition count_in (state : string) (ts : list work_task) : nat :=
  length (List.filter (λ t, String.eqb (w_state t) state) ts).

(** The open tasks of a scope per state, the states in order, where there are
    any. *)
Definition scope_counts (scope : string) (d : db) : list (string * nat) :=
  let own := List.filter (λ t, bool_decide (sp_scope (w_spec t) = Some scope)) (work_tasks (work d)) in
  List.filter (λ c, Nat.ltb 0 (snd c))
    ((λ s, (s, count_in s own)) <$> ["claimed"; "queued"; "running"]).

Definition scope_order (a b : scope_row) : comparison :=
  then_with (Z.compare (sc_created a) (sc_created b)) (String.compare (sc_id a) (sc_id b)).

Definition scope_record (d : db) (s : scope_row) : result StoreError ScopeRecord :=
  kind ← ok_or (ScopeKind_parse (sc_kind s)) (BadState (sc_kind s));
  Ok (mk_scope_record (sc_id s) kind (sc_parent s) (sc_task s) (sc_agent s) (sc_updated s)
    (scope_counts (sc_id s) d)).

Definition work_scopes_read (root : option string) (d : db) : result StoreError (list ScopeRecord) :=
  try_map (scope_record d) (sort_by scope_order (List.filter (λ s,
    match root with None => true | Some r => bool_decide (sc_id s ∈ subtree r d) end)
    (work_scopes (work d)))).

(** Every prerequisite is done; [json_each] of the stored list. *)
Definition ready_row (d : db) (t : work_task) : bool :=
  match parse_files (sp_after (w_spec t)) with
  | Some after => forallb (λ x, existsb (λ u, String.eqb (w_id u) x && String.eqb (w_state u) "done")
                                  (work_tasks (work d))) after
  | None => false
  end.

Definition work_counts (scope : option string) (d : db) : result StoreError Counts :=
  let own := List.filter (λ t, in_scope scope (sp_scope (w_spec t)) d) (work_tasks (work d)) in
  match List.find (λ t, bool_decide (TaskState_parse (w_state t) = None)) own with
  | Some t => Err (BadState (w_state t))
  | None =>
      Ok (mk_counts (count_in "queued" own)
        (length (List.filter (λ t, String.eqb (w_state t) "queued" && ready_row d t) own))
        (count_in "claimed" own) (count_in "running" own) (count_in "done" own)
        (count_in "failed" own) (count_in "cancelled" own))
  end.

(** [CAST(json_extract(data, '$.key') AS TEXT)] of a text or null. *)
Definition datum (key : string) (v : Value) : option string := vget key v ≫= v_str.

Definition or_else {A} (a b : option A) : option A := match a with Some _ => a | None => b end.

Definition event_scope (d : db) (e : event) : option string :=
  or_else (datum "scope" (e_data e))
    (or_else (find_task (e_subject e) d ≫= λ t, sp_scope (w_spec t))
       (sc_id <$> find_scope (e_subject e) d)).

Definition work_log (task actor scope : option string) (limit : nat) (d : db) : list WorkEvent :=
  let rows := List.filter (λ e,
    (starts_with "work." (e_kind e) || starts_with "job." (e_kind e))
    && from_option (String.eqb (e_subject e)) true task
    && from_option (String.eqb (e_actor e)) true actor
    && in_scope scope (event_scope d e) d) (events d) in
  (λ e, mk_work_event (e_seq e) (e_ts e) (e_kind e)
          (if task_exists (e_subject e) d then Some (e_subject e) else None) (event_scope d e)
          (e_actor e) (pseudonym_of (e_actor e)) (default "" (datum "detail" (e_data e))))
  <$> rev (firstn limit (rev rows)).

Definition ran_runs (keep : history_row → bool) (limit : nat) (d : db) : result StoreError (list Run) :=
  try_map (λ r,
    if from_option (λ k, 0 <=? k)%Z true (jh_rss_peak r)
    then Ok (mk_run (jh_started r) (jh_ended r) (default f_zero (jh_cpu_time r)) (jh_rss_peak r))
    else Err column_error) (ran_rows keep limit d).

Definition work_history (s : Signatures) (cpus : f64) (d : db) : result StoreError History :=
  full ← ran_runs (λ r, bool_decide (jh_full r = Some (s_full s))) 5 d;
  head ← ran_runs (λ r, bool_decide (jh_head r = Some (s_head s))) 5 d;
  prog ← ran_runs (λ r, bool_decide (jh_prog r = Some (s_prog s))) 5 d;
  tool ← ran_runs (λ r, bool_decide (jh_tool r = Some (s_tool s))) 5 d;
  recent ← ran_runs (λ _, true) 200 d;
  exclusive ← ran_runs (λ r, f_le cpus (jh_weight r)) 20 d;
  Ok (mk_history [full; head; prog; tool]
    ((λ r, (f_of_Z (sat_i64 (ended_ms r - started_ms r)) / f_of_Z 1000)%f64) <$> recent) exclusive).

Definition work_holders (now : Z) (exclude : option string) (d : db) :
    result StoreError (list (string * list string)) :=
  rows ← try_map (λ t, files ← string_list (w_files t); Ok (w_id t, files))
           (List.filter (λ t, String.eqb (w_state t) "claimed" || String.eqb (w_state t) "running")
              (work_tasks (work d)));
  Ok (List.filter (λ h, negb (bool_decide (snd h = []))) rows
      ++ ((λ l, ("lease:" +:+ l_id l, [l_resource l])) <$> foreign_leases now exclude d)).

Definition by_start (a b : work_task) : comparison :=
  then_with (Z.compare (default i64_min (rn_started (w_run a))) (default i64_min (rn_started (w_run b))))
    (Z.compare (w_seq a) (w_seq b)).

Definition work_running (d : db) : result StoreError (list TaskRecord) :=
  select_tasks (sort_by by_start (List.filter (λ t, String.eqb (w_state t) "running") (work_tasks (work d)))).

Definition by_request (a b : work_task) : comparison :=
  then_with (Z.compare (default i64_min (cl_requested (w_claim a))) (default i64_min (cl_requested (w_claim b))))
    (Z.compare (w_seq a) (w_seq b)).

Definition work_waiting (d : db) : result StoreError (list TaskRecord) :=
  select_tasks (sort_by by_request (List.filter (λ t, String.eqb (w_state t) "claimed"
    && bool_decide (is_Some (cl_requested (w_claim t))) && bool_decide (rn_started (w_run t) = None))
    (work_tasks (work d)))).

Definition work_window_closes (d : db) : list (string * Z) :=
  omap (λ t, q ← rn_quiet_until (w_run t); Some (w_id t, Z.min q (default q (rn_ended (w_run t)))))
    (work_tasks (work d)).
End Query.
