(* ===== verification/WorkInv.v ===== *)
(** * The work queue: what holds of its tables

    The invariant of the tasks and scopes tables, and what it takes to keep it
    when a row is changed or added.  The operations are in [WorkSteps]. *)

From Stdlib Require Import Ascii.
From stdpp Require Import relations.
From S2P Require Import Prelude F64 Strs PyFmt Bytes Core Crypto Task Graph Order Claims Settings.
From S2P Require Import Predict Signature StoreDb Identity Leases Policy Board BoardLog WorkRow Work.

(** ** Graphs over ids *)

(** [b] waits for [a]. *)
Definition id_edge (tasks : list Task) (a b : string) : Prop :=
  ∃ t, t ∈ tasks ∧ t_id t = b ∧ a ∈ t_after t.

Lemma prereq_id_edge tasks p q tp tq :
  prereq tasks p q → tasks !! p = Some tp → tasks !! q = Some tq → id_edge tasks (t_id tp) (t_id tq).
Proof.
  intros (tp' & tq' & Hp & Hq & Hin) Ep Eq. simplify_eq. eexists.
  split_and!; [by eapply list_elem_of_lookup_2|done..].
Qed.

Lemma id_acyclic_tasks tasks : (∀ c, ¬ tc (id_edge tasks) c c) → tasks_acyclic tasks.
Proof.
  intros Hac x Hx.
  assert (∀ p q, tc (prereq tasks) p q → ∀ tp tq, tasks !! p = Some tp → tasks !! q = Some tq →
    tc (id_edge tasks) (t_id tp) (t_id tq)) as Hwalk.
  { intros p q H. induction H as [p q H|p m q H _ IH]; intros tp tq Ep Eq.
    - apply tc_once. by eapply prereq_id_edge.
    - pose proof H as (tp' & tm & _ & Em & _). eapply tc_l; [by eapply prereq_id_edge|by eapply IH]. }
  assert (∃ t, tasks !! x = Some t) as [t Ht].
  { clear -Hx. inversion Hx as [? ? (tp & ? & H & _)|? ? ? (tp & ? & H & _)]; subst; eauto. }
  by apply (Hac (t_id t)), (Hwalk x x).
Qed.

(** What [Graph::new] needs, by ids. *)
Lemma Graph_new_by_ids tasks :
  ids_distinct tasks → prereqs_known tasks → (∀ c, ¬ tc (id_edge tasks) c c) →
  ∃ g, Graph_new tasks = Ok g ∧ g_tasks g = tasks ∧ graph_ok g.
Proof.
  intros Hd Hk Hac%id_acyclic_tasks. pose proof (Graph_new_cases tasks) as H.
  destruct (Graph_new tasks) as [g|e]; [by exists g|]. exfalso.
  destruct H as [H|(c & Hc & _)]; [|by eapply cycle_tc].
  apply H. split_and!; [done..|]. by apply acyclic_no_self.
Qed.

Lemma graph_id_acyclic tasks g c : Graph_new tasks = Ok g → ¬ tc (id_edge tasks) c c.
Proof.
  intros [Et Hok]%Graph_new_ok Hc. pose proof (graph_ok_acyclic g Hok) as Hac.
  pose proof (graph_ok_known g Hok) as Hk. pose proof (gok_ids g Hok) as Hd.
  rewrite Et in Hac, Hk, Hd. clear Et Hok g.
  assert (∀ a b p q, id_edge tasks a b → id_at tasks p = Some a → id_at tasks q = Some b →
    prereq tasks p q) as Hstep.
  { intros a b p q (t & Ht & Hb & Ha) Hp Hq. unfold id_at in *.
    destruct (tasks !! p) as [tp|] eqn:Ep; [|done]. destruct (tasks !! q) as [tq|] eqn:Eq; [|done].
    cbn in *. simplify_eq. exists tp, tq. split_and!; [done..|].
    apply list_elem_of_lookup in Ht as [q' Hq'].
    assert (q' = q) as ->; [|naive_solver].
    apply (NoDup_lookup (t_id <$> tasks) q' q (t_id t)); [done|..]; rewrite list_lookup_fmap;
      [by rewrite Hq'|rewrite Eq; cbn; congruence]. }
  assert (∀ a b, tc (id_edge tasks) a b → ∀ p q, id_at tasks p = Some a → id_at tasks q = Some b →
    tc (prereq tasks) p q) as Hwalk.
  { intros a b H. induction H as [a b H|a m b H Hm IH]; intros p q Hp Hq.
    - apply tc_once. by eapply Hstep.
    - pose proof H as (t & Ht & Eb & _).
      assert (m ∈ t_id <$> tasks) as [r Hr]%elem_of_ids.
      { subst m. by apply list_elem_of_fmap_2. }
      eapply tc_l; [by eapply Hstep|by eapply IH]. }
  assert (∃ x, id_edge tasks x c) as (x & t & Ht & Eb & _).
  { clear -Hc. induction Hc as [a b H|a m b H _ IH]; eauto. }
  assert (c ∈ t_id <$> tasks) as [p Hp]%elem_of_ids by (subst c; by apply list_elem_of_fmap_2).
  by apply (Hac p), (Hwalk c c Hc).
Qed.

(** ** States *)

Lemma TaskState_parse_as_str s : TaskState_parse (TaskState_as_str s) = Some s.
Proof. by destruct s. Qed.

Lemma TaskState_parse_Some s st : TaskState_parse s = Some st → s = TaskState_as_str st.
Proof. unfold TaskState_parse. repeat case_match; intros [= <-]; by apply String.eqb_eq. Qed.

Lemma TaskState_as_str_inj a b : TaskState_as_str a = TaskState_as_str b → a = b.
Proof. by destruct a, b. Qed.

(** The claim and run columns that go with a state.  A task is requested only
    when the agent that claimed it accepted its command, and runs only then. *)
Definition columns_of_state (s : TaskState) (t : work_task) : Prop :=
  let cl := w_claim t in
  let rn := w_run t in
  match s with
  | TQueued => cl = mk_task_claim None None None None ∧ rn_started rn = None ∧ rn_ended rn = None
  | TClaimed =>
      is_Some (cl_agent cl) ∧ is_Some (cl_claimed cl) ∧
      (cl_accepted cl = None ∨ cl_accepted cl = cl_agent cl) ∧
      (is_Some (cl_requested cl) → cl_accepted cl = cl_agent cl ∧ is_Some (sp_command (w_spec t))) ∧
      rn_started rn = None ∧ rn_ended rn = None
  | TRunning =>
      is_Some (cl_agent cl) ∧ cl_accepted cl = cl_agent cl ∧ is_Some (cl_requested cl) ∧
      is_Some (sp_command (w_spec t)) ∧ is_Some (rn_started rn) ∧ is_Some (rn_supervisor_pid rn) ∧
      rn_ended rn = None
  | TDone | TFailed | TCancelled =>
      is_Some (rn_ended rn) ∧
      (is_Some (rn_started rn) →
       is_Some (cl_agent cl) ∧ cl_accepted cl = cl_agent cl ∧ is_Some (sp_command (w_spec t)))
  end.

Section Invariant.
Context `{P : Prims} `{LC : LeaseCodec} `{C : WorkCodec}.

Definition files_of (t : work_task) : list string := default [] (parse_files (w_files t)).
Definition after_of (t : work_task) : list string := default [] (parse_files (sp_after (w_spec t))).

(** A claimed or running task holds its files. *)
Definition holds_files (t : work_task) : Prop := w_state t = "claimed" ∨ w_state t = "running".

Definition apart (a b : list string) : Prop := ∀ x y, x ∈ a → y ∈ b → overlap x y = false.

Record task_wf (t : work_task) : Prop := {
  tw_state : ∃ s, w_state t = TaskState_as_str s ∧ columns_of_state s t;
  tw_after : is_Some (parse_files (sp_after (w_spec t)));
  tw_files : ∃ wss, w_files t = list_json (path_of <$> wss) ∧ Forall (Forall clean) wss;
  tw_command raw : sp_command (w_spec t) = Some raw → is_Some (parse_files raw);
  tw_prediction raw : sg_prediction (w_sigs t) = Some raw → is_Some (parse_prediction raw);
  tw_fit : columns_fit t = true }.

Definition task_deps (ts : list work_task) : list dep :=
  ts ≫= λ t, mk_dep (w_id t) <$> after_of t.

Definition scope_edge (ss : list scope_row) (a b : string) : Prop :=
  ∃ s, s ∈ ss ∧ sc_id s = b ∧ sc_parent s = Some a.

(** Task ids are unique and tasks are in the order of their numbers; each is
    well formed; prerequisites and scopes exist; no task waits for itself; and
    tasks that hold files hold files apart.  Scopes are unique, their kinds
    parse, and their parents exist and lead to no cycle. *)
Record work_wf (w : work_tables) : Prop := {
  ww_ids : NoDup (w_id <$> work_tasks w);
  ww_seq : StronglySorted Z.lt (w_seq <$> work_tasks w);
  ww_pos : (0 ≤ work_seq w)%Z;
  ww_next : Forall (λ t, 0 < w_seq t ≤ work_seq w)%Z (work_tasks w);
  ww_task t : t ∈ work_tasks w → task_wf t;
  ww_known t x : t ∈ work_tasks w → x ∈ after_of t → ∃ u, u ∈ work_tasks w ∧ w_id u = x;
  ww_acyclic : deps_acyclic (task_deps (work_tasks w));
  ww_apart t u : t ∈ work_tasks w → u ∈ work_tasks w → holds_files t → holds_files u → w_id t ≠ w_id u →
    apart (files_of t) (files_of u);
  ww_scope t s : t ∈ work_tasks w → sp_scope (w_spec t) = Some s →
    ∃ r, r ∈ work_scopes w ∧ sc_id r = s;
  ww_scopes : NoDup (sc_id <$> work_scopes w);
  ww_kind s : s ∈ work_scopes w → is_Some (ScopeKind_parse (sc_kind s));
  ww_parent s p : s ∈ work_scopes w → sc_parent s = Some p →
    ∃ r, r ∈ work_scopes w ∧ sc_id r = p;
  ww_forest c : ¬ tc (scope_edge (work_scopes w)) c c;
  ww_peaks r k : r ∈ job_history w → jh_rss_peak r = Some k → (0 ≤ k)%Z }.

(** ** Looking tasks up *)

Lemma find_task_Some id d t : find_task id d = Some t → t ∈ work_tasks (work d) ∧ w_id t = id.
Proof.
  unfold find_task. destruct (list_find _ _) as [[n x]|] eqn:E; [|done]. intros [= <-].
  apply list_find_Some in E as (Hl & Hid & _). split; [by eapply list_elem_of_lookup_2|done].
Qed.

Lemma find_task_None id d t : find_task id d = None → t ∈ work_tasks (work d) → w_id t ≠ id.
Proof.
  unfold find_task. destruct (list_find _ _) as [[n x]|] eqn:E; [done|].
  intros _. apply list_find_None in E. rewrite Forall_forall in E. apply E.
Qed.

Lemma find_task_elem d t :
  NoDup (w_id <$> work_tasks (work d)) → t ∈ work_tasks (work d) → find_task (w_id t) d = Some t.
Proof.
  intros Hd Ht. destruct (find_task (w_id t) d) as [u|] eqn:E.
  - apply find_task_Some in E as [Hu Hid]. f_equal. by apply (key_inj w_id (work_tasks (work d))).
  - by eapply find_task_None in E.
Qed.

Lemma task_exists_true id d : task_exists id d = true ↔ ∃ t, t ∈ work_tasks (work d) ∧ w_id t = id.
Proof.
  unfold task_exists. rewrite existsb_elem. by setoid_rewrite bool_decide_eq_true.
Qed.

Lemma scope_known_true id d : scope_known id d = true ↔ ∃ s, s ∈ work_scopes (work d) ∧ sc_id s = id.
Proof.
  unfold scope_known. rewrite existsb_elem. by setoid_rewrite bool_decide_eq_true.
Qed.

(** A row of the updated table: the old one, or the changed row. *)
Lemma elem_of_update f id ts (t : work_task) :
  NoDup (w_id <$> ts) → t ∈ ts → w_id t = id → ∀ u,
  u ∈ map (λ x, if decide (w_id x = id) then f x else x) ts ↔
  u = f t ∨ (u ∈ ts ∧ w_id u ≠ id).
Proof.
  intros Hd Ht Hid u. rewrite list_elem_of_In, in_map_iff. setoid_rewrite <- list_elem_of_In. split.
  - intros (x & Hx & Hin). case_decide as E; subst u; [left|by right].
    f_equal. apply (key_inj w_id ts); [done..|]. congruence.
  - intros [->|[Hu Hne]]; [exists t|exists u]; (split; [|done]); by case_decide.
Qed.

Lemma task_deps_elem ts e : e ∈ task_deps ts ↔ ∃ t, t ∈ ts ∧ d_card e = w_id t ∧ d_after e ∈ after_of t.
Proof.
  unfold task_deps. rewrite list_elem_of_bind. split.
  - intros (t & He & Ht). apply list_elem_of_fmap in He as (x & -> & Hx). by exists t.
  - intros (t & Ht & Ec & Ea). exists t. split; [|done]. apply list_elem_of_fmap.
    exists (d_after e). split; [|done]. destruct e; cbn in *; by subst.
Qed.

(** ** Changing one row *)

Record keeps_row (f : work_task → work_task) : Prop := {
  kr_id t : w_id (f t) = w_id t;
  kr_seq t : w_seq (f t) = w_seq t }.

Lemma update_task_work id f d :
  work (update_task id f d) =
  mk_work_tables (map (λ t, if decide (w_id t = id) then f t else t) (work_tasks (work d)))
    (work_seq (work d)) (work_scopes (work d)) (job_history (work d)) (history_seq (work d))
    (timers (work d)) (reconcile_marks (work d)) (work_state (work d)).
Proof. done. Qed.

Lemma find_task_update id f d id' :
  keeps_row f →
  find_task id' (update_task id f d) = (if decide (id' = id) then f else λ t, t) <$> find_task id' d.
Proof.
  intros [Hf _]. unfold find_task. rewrite update_task_work. cbn [work_tasks]. rewrite find_map.
  - destruct (list_find _ _) as [[n c]|] eqn:E; cbn; [|done].
    apply list_find_Some in E as (_ & Hid & _). by repeat case_decide; subst.
  - intros c. by case_decide.
Qed.

Lemma work_wf_update d id t f :
  work_wf (work d) → find_task id d = Some t → keeps_row f → task_wf (f t) →
  w_files (f t) = w_files t → sp_scope (w_spec (f t)) = sp_scope (w_spec t) →
  (∀ x, x ∈ after_of (f t) → ∃ u, u ∈ work_tasks (work d) ∧ w_id u = x) →
  deps_acyclic (task_deps (map (λ t, if decide (w_id t = id) then f t else t) (work_tasks (work d)))) →
  (holds_files (f t) → holds_files t ∨ ∀ u, u ∈ work_tasks (work d) → holds_files u → w_id u ≠ id →
     apart (files_of t) (files_of u)) →
  work_wf (work (update_task id f d)).
Proof.
  intros [Hi Hs Hpos Hn Ht Hk Hac Hap Hsc H8 H9 H10 H11 H12] Hfind [Kid Kseq] Hwf Hfiles Hscope Hafter Hdeps Hhold.
  apply find_task_Some in Hfind as [Hin Hid].
  pose proof (elem_of_update f id (work_tasks (work d)) t Hi Hin Hid) as Hel.
  rewrite update_task_work. constructor; cbn [work_tasks work_seq work_scopes job_history]; try done.
  - rewrite keys_update; [done|]. intros x. by case_decide.
  - rewrite keys_update; [done|]. intros x. by case_decide.
  - rewrite Forall_forall in Hn |- *. intros u [->|[Hu _]]%Hel; [rewrite Kseq|]; by apply Hn.
  - intros u [->|[Hu _]]%Hel; [done|by apply Ht].
  - intros u x Hu Hx.
    assert (∃ v, v ∈ work_tasks (work d) ∧ w_id v = x) as (v & Hv & Hvx).
    { apply Hel in Hu as [->|[Hu _]]; [by apply Hafter|by eapply Hk]. }
    destruct (decide (w_id v = id)) as [E|E].
    + exists (f t). split; [apply Hel; by left|]. rewrite Kid. congruence.
    + exists v. split; [apply Hel; by right|done].
  - assert (∀ u, u ∈ work_tasks (work d) → holds_files u → holds_files (f t) → w_id u ≠ id →
      apart (files_of t) (files_of u)) as Hnew.
    { intros u Hu Hhu Hh Hne. destruct (Hhold Hh) as [H|H]; [|by apply H].
      apply Hap; try done. congruence. }
    assert (files_of (f t) = files_of t) as Ef by (unfold files_of; by rewrite Hfiles).
    intros a b [->|[Ha Hna]]%Hel [->|[Hb Hnb]]%Hel Hha Hhb Hne.
    + done.
    + rewrite Ef. by apply Hnew.
    + rewrite Ef. intros x y Hx Hy. rewrite overlap_comm. eapply Hnew; eauto.
    + by apply Hap.
  - intros u s [->|[Hu _]]%Hel Es; [|by eapply Hsc]. eapply (Hsc t); [done|congruence].
Qed.

(** A change that keeps what the task is and does not make it hold files. *)
Lemma task_deps_same f id ts :
  (∀ t, t ∈ ts → w_id t = id → sp_after (w_spec (f t)) = sp_after (w_spec t)) →
  (∀ t, w_id (f t) = w_id t) →
  task_deps (map (λ t, if decide (w_id t = id) then f t else t) ts) = task_deps ts.
Proof.
  intros Ha Hi. unfold task_deps. induction ts as [|t ts IH]; [done|]. cbn [map].
  rewrite !bind_cons, IH by (intros; apply Ha; [by right|done]). f_equal.
  case_decide; [|done]. unfold after_of. by rewrite Hi, Ha by (done || by left).
Qed.

Lemma work_wf_keep d id t f :
  work_wf (work d) → find_task id d = Some t → keeps_row f → task_wf (f t) →
  w_spec (f t) = w_spec t → (holds_files (f t) → holds_files t) → work_wf (work (update_task id f d)).
Proof.
  intros Hwf Hfind Hk Htw Hspec Hh. pose proof (find_task_Some _ _ _ Hfind) as [Hin Hid].
  eapply work_wf_update; try done.
  - unfold w_files. by rewrite Hspec.
  - by rewrite Hspec.
  - intros x Hx. apply (ww_known _ Hwf t); [done|]. unfold after_of in *. by rewrite Hspec in Hx.
  - rewrite task_deps_same; [apply Hwf| |apply Hk]. intros u Hu Hui.
    assert (u = t) as -> by (apply (key_inj w_id (work_tasks (work d))); [apply Hwf|done..|congruence]).
    by rewrite Hspec.
  - intros H. left. auto.
Qed.

(** ** Adding a row *)

Lemma work_wf_insert d mk :
  let t := mk (work_seq (work d) + 1)%Z in
  work_wf (work d) → w_seq t = (work_seq (work d) + 1)%Z → task_exists (w_id t) d = false →
  task_wf t → (∀ x, x ∈ after_of t → ∃ u, u ∈ work_tasks (work d) ∧ w_id u = x) →
  (∀ s, sp_scope (w_spec t) = Some s → ∃ r, r ∈ work_scopes (work d) ∧ sc_id r = s) →
  (holds_files t → ∀ u, u ∈ work_tasks (work d) → holds_files u → apart (files_of t) (files_of u)) →
  work_wf (work (insert_work_task mk d)).
Proof.
  intros t [Hi Hs Hpos Hn Ht Hk Hac Hap Hsc H8 H9 H10 H11 H12] Hseq Hnew Hwf Hafter Hscope Hhold.
  assert (∀ u, u ∈ work_tasks (work d) → w_id u ≠ w_id t) as Hfresh.
  { intros u Hu E. assert (task_exists (w_id t) d = true); [|congruence]. apply task_exists_true; eauto. }
  assert (∀ u, u ∈ work_tasks (work d) ++ [t] ↔ u ∈ work_tasks (work d) ∨ u = t) as Hel.
  { intros u. by rewrite elem_of_app, list_elem_of_singleton. }
  constructor; cbn [work insert_work_task set_tasks set_work work_tasks work_seq work_scopes job_history];
    fold t; try done; try lia.
  - by apply keys_insert.
  - rewrite fmap_app. cbn. apply StronglySorted_app_2; [|done|repeat constructor].
    intros a b [u [-> Hu]]%list_elem_of_fmap ->%list_elem_of_singleton.
    rewrite Forall_forall in Hn. specialize (Hn u Hu). lia.
  - rewrite Forall_forall in Hn |- *. intros u [Hu| ->]%Hel; [specialize (Hn u Hu); lia|lia].
  - intros u [Hu| ->]%Hel; auto.
  - intros u x [Hu| ->]%Hel Hx; [destruct (Hk u x Hu Hx) as (v & ? & ?)|destruct (Hafter x Hx) as (v & ? & ?)];
      exists v; rewrite Hel; auto.
  - assert (task_deps (work_tasks (work d) ++ [t]) =
      task_deps (work_tasks (work d)) ++ (mk_dep (w_id t) <$> after_of t)) as ->.
    { unfold task_deps. rewrite bind_app. cbn. by rewrite app_nil_r. }
    apply (deps_acyclic_new _ _ (w_id t)); [done| |].
    + intros e (u & Hu & _ & He)%task_deps_elem E. destruct (Hk u _ Hu He) as (v & Hv & Ev).
      apply (Hfresh v Hv). congruence.
    + intros e (x & -> & Hx)%list_elem_of_fmap. cbn. split; [done|]. intros ->.
      destruct (Hafter _ Hx) as (v & Hv & Ev). by apply (Hfresh v).
  - intros a b [Ha| ->]%Hel [Hb| ->]%Hel Hha Hhb Hne; [by apply Hap| |by apply Hhold|done].
    intros x y Hx Hy. rewrite overlap_comm. by apply (Hhold Hhb a).
  - intros u s [Hu| ->]%Hel Es; [by eapply Hsc|by apply Hscope].
Qed.
End Invariant.
