(* ===== verification/WorkSteps.v ===== *)
(** * The work queue: its operations as steps of a task's life

    An abstract lifecycle of one task, who may take each step of it, and that
    every operation of [work_ops.rs] and [jobs.rs] keeps the invariant of the
    tables and is a step of the lifecycle or leaves the task alone. *)

From Stdlib Require Import Ascii.
From stdpp Require Import relations.
From S2P Require Import Prelude F64 Strs Core PyFmt Task Graph Order Claims Settings Predict.
From S2P Require Import Bytes Signature Crypto StoreDb Identity Leases Policy Board BoardLog.
From S2P Require Import WorkRow Work Jobs WorkInv.

(** ** The lifecycle *)

(** What of a task never changes. *)
Record fixed : Type := mk_fixed {
  fx_author : string; fx_scope : option string; fx_files : string; fx_command : option string;
  fx_cwd : option string; fx_weight : f64; fx_card : option string }.

(** A task as the lifecycle sees it. *)
Record tview : Type := mk_tview {
  v_state : TaskState; v_agent : option string; v_accepted : option string; v_requested : bool;
  v_fixed : fixed }.

Definition fixed_of (t : work_task) : fixed :=
  let sp := w_spec t in
  mk_fixed (sp_author sp) (sp_scope sp) (sp_files sp) (sp_command sp) (sp_cwd sp) (sp_weight sp)
    (sp_card sp).

Definition view_of (t : work_task) : option tview :=
  s ← TaskState_parse (w_state t);
  Some (mk_tview s (cl_agent (w_claim t)) (cl_accepted (w_claim t))
          (bool_decide (is_Some (cl_requested (w_claim t)))) (fixed_of t)).

Definition view_at (id : string) (d : db) : option tview := find_task id d ≫= view_of.

(** Who takes a step: an agent with its role, or the daemon. *)
Inductive taker : Type := ByAgent (who : string) (role : Role) | BySystem.

Definition is_agent (by' : taker) (who : string) : Prop := ∃ role, by' = ByAgent who role.

Definition is_supervisor (by' : taker) : Prop :=
  ∃ who role, by' = ByAgent who role ∧ role_le Supervisor role = true.

(** One step of a task's life. *)
Inductive wlife (by' : taker) : option tview → option tview → Prop :=
| wl_add fx :
    is_agent by' (fx_author fx) → wlife by' None (Some (mk_tview TQueued None None false fx))
| wl_fire fx :
    by' = BySystem → wlife by' None (Some (mk_tview TQueued None None false fx))
| wl_inline fx :
    is_agent by' (fx_author fx) → is_Some (fx_command fx) →
    wlife by' None
      (Some (mk_tview TClaimed (Some (fx_author fx)) (Some (fx_author fx)) true fx))
| wl_claim a fx :
    is_agent by' a ∨ is_supervisor by' →
    wlife by' (Some (mk_tview TQueued None None false fx))
      (Some (mk_tview TClaimed (Some a) None false fx))
| wl_assign a b acc fx :
    is_supervisor by' →
    wlife by' (Some (mk_tview TClaimed (Some a) acc false fx))
      (Some (mk_tview TClaimed (Some b) (if bool_decide (Some b = Some a) then acc else None) false fx))
| wl_accept a acc fx :
    is_agent by' a → is_Some (fx_command fx) →
    wlife by' (Some (mk_tview TClaimed (Some a) acc false fx))
      (Some (mk_tview TClaimed (Some a) (Some a) false fx))
| wl_request a fx :
    is_agent by' a → is_Some (fx_command fx) →
    wlife by' (Some (mk_tview TClaimed (Some a) (Some a) false fx))
      (Some (mk_tview TClaimed (Some a) (Some a) true fx))
| wl_requeue a acc fx :
    is_agent by' a ∨ is_supervisor by' ∨ by' = BySystem ∧ is_Some (fx_command fx) →
    wlife by' (Some (mk_tview TClaimed (Some a) acc false fx))
      (Some (mk_tview TQueued None None false fx))
| wl_start a fx :
    by' = BySystem → is_Some (fx_command fx) →
    wlife by' (Some (mk_tview TClaimed (Some a) (Some a) true fx))
      (Some (mk_tview TRunning (Some a) (Some a) true fx))
| wl_close s ag acc fx s' :
    s = TQueued ∧ is_agent by' (fx_author fx) ∨ s = TClaimed ∧ (∃ a, ag = Some a ∧ is_agent by' a) →
    s' = TDone ∨ s' = TFailed → fx_command fx = None →
    wlife by' (Some (mk_tview s ag acc false fx)) (Some (mk_tview s' ag acc false fx))
| wl_cancel s ag acc rq fx :
    s = TQueued ∧ is_agent by' (fx_author fx) ∨
    s = TClaimed ∧ (∃ a, ag = Some a ∧ is_agent by' a) ∨
    (s = TQueued ∨ s = TClaimed) ∧ is_supervisor by' →
    wlife by' (Some (mk_tview s ag acc rq fx)) (Some (mk_tview TCancelled ag acc rq fx))
| wl_finish s ag acc fx s' :
    by' = BySystem → s = TRunning ∧ is_final s' = true ∨ s = TClaimed ∧ (s' = TFailed ∨ s' = TCancelled) →
    wlife by' (Some (mk_tview s ag acc true fx)) (Some (mk_tview s' ag acc true fx)).

(** Every task is as it was or took one step. *)
Definition work_step (by' : taker) (d d' : db) : Prop :=
  ∀ id, view_at id d' = view_at id d ∨ wlife by' (view_at id d) (view_at id d').

Lemma wlife_fixed by' v v' : wlife by' (Some v) v' → ∃ u, v' = Some u ∧ v_fixed u = v_fixed v.
Proof. inversion 1; subst; eexists; (split; [reflexivity|done]). Qed.

Lemma wlife_not_final by' v v' : wlife by' (Some v) v' → is_final (v_state v) = false.
Proof. inversion 1; subst; cbn; naive_solver. Qed.

Section Steps.
Context `{P : Prims} `{LC : LeaseCodec} `{C : WorkCodec} {CL : WorkCodecLaws C}.

Lemma view_at_same id d d' : work d' = work d → view_at id d' = view_at id d.
Proof. intros E. unfold view_at, find_task. by rewrite E. Qed.

Lemma work_step_same by' d d' : work d' = work d → work_step by' d d'.
Proof. intros E id. left. by apply view_at_same. Qed.

Lemma work_step_update by' d id t f :
  find_task id d = Some t → keeps_row f →
  view_of (f t) = view_of t ∨ wlife by' (view_of t) (view_of (f t)) →
  work_step by' d (update_task id f d).
Proof.
  intros Hf Hk Hv id'. unfold view_at. rewrite find_task_update by done.
  destruct (decide (id' = id)) as [->|Hne]; [|left; by destruct (find_task id' d)].
  rewrite Hf. cbn. done.
Qed.

Lemma work_step_insert by' d mk :
  let t := mk (work_seq (work d) + 1)%Z in
  task_exists (w_id t) d = false → wlife by' None (view_of t) → work_step by' d (insert_work_task mk d).
Proof.
  intros t Hn Hv id.
  assert (find_task id (insert_work_task mk d) =
    match find_task id d with Some u => Some u | None => if decide (w_id t = id) then Some t else None end)
    as E by (apply (find_app w_id)).
  unfold view_at. rewrite E. destruct (find_task id d) as [u|] eqn:Ef; [by left|].
  case_decide as Ei; [by right|by left].
Qed.

(** ** Reading *)

Record reads (row : work_task) (t : TaskRecord) : Prop := {
  rd_row : tr_row t = row;
  rd_state : TaskState_parse (w_state row) = Some (tr_state t);
  rd_after : parse_files (sp_after (w_spec row)) = Some (tr_after t);
  rd_files : parse_files (w_files row) = Some (tr_files t);
  rd_command : match sp_command (w_spec row) with
               | Some raw => parse_files raw = tr_command t ∧ is_Some (tr_command t)
               | None => tr_command t = None
               end }.

Lemma task_from_row_Ok row t : task_from_row row = Ok t → reads row t.
Proof.
  unfold task_from_row. intros H.
  apply result_bind_Ok in H as (after & Ha & H). apply result_bind_Ok in H as (files & Hf & H).
  apply result_bind_Ok in H as (command & Hc & H). apply result_bind_Ok in H as (state & Hs & H).
  apply result_bind_Ok in H as (prediction & Hp & H).
  destruct (negb (columns_fit row)); [done|]. injection H as <-.
  unfold string_list, ok_or in *.
  destruct (parse_files (sp_after _)) as [l|] eqn:E1; [|done].
  destruct (parse_files (sp_files _)) as [l'|] eqn:E2; [|done].
  destruct (TaskState_parse _) as [s|] eqn:E3; [|done]. simplify_eq.
  constructor; cbn [tr_row tr_state tr_after tr_files tr_command]; try done.
  destruct (sp_command (w_spec row)) as [raw|]; cbn in Hc; [|by simplify_eq].
  destruct (parse_files raw) as [argv|]; [|done]. cbn in Hc. simplify_eq. split; eauto.
Qed.

Lemma load_task_Ok id d t d' :
  load_task id d = Ok (t, d') →
  d' = d ∧ find_task id d = Some (tr_row t) ∧ reads (tr_row t) t ∧ tr_id t = id.
Proof.
  unfold load_task. intros H. step query_Ok in H as row [-> ->].
  destruct (find_task id d) as [row|] eqn:E; [|by apply fail_Ok in H].
  apply lift_Ok in H as [H ->]. apply task_from_row_Ok in H. pose proof (rd_row _ _ H) as <-.
  split_and!; try done. by apply find_task_Some in E as [_ ?].
Qed.

(** ** Rows that are changed *)

Lemma task_wf_change t t' :
  task_wf t → sp_after (w_spec t') = sp_after (w_spec t) → w_files t' = w_files t →
  sp_command (w_spec t') = sp_command (w_spec t) → sg_prediction (w_sigs t') = sg_prediction (w_sigs t) →
  columns_fit t' = columns_fit t → (∃ s, w_state t' = TaskState_as_str s ∧ columns_of_state s t') →
  task_wf t'.
Proof.
  intros [Hs Ha Hf Hc Hp Hfit] Ea Ef Ec Ep Efit Hs'.
  constructor; [done|by rewrite Ea|by rewrite Ef|by rewrite Ec|by rewrite Ep|by rewrite Efit].
Qed.

(** A change of the claim, the run or the note of one task that keeps what it
    is. *)
Lemma change_ok by' d id t f :
  work_wf (work d) → find_task id d = Some t → keeps_row f → w_spec (f t) = w_spec t →
  sg_prediction (w_sigs (f t)) = sg_prediction (w_sigs t) → columns_fit (f t) = columns_fit t →
  (∃ s, w_state (f t) = TaskState_as_str s ∧ columns_of_state s (f t)) → (holds_files (f t) → holds_files t) →
  view_of (f t) = view_of t ∨ wlife by' (view_of t) (view_of (f t)) →
  work_wf (work (update_task id f d)) ∧ work_step by' d (update_task id f d).
Proof.
  intros Hwf Hf Hk Hsp Hsg Hfit Hs Hh Hv. split; [|by eapply work_step_update].
  pose proof (find_task_Some _ _ _ Hf) as [Hin _].
  eapply work_wf_keep; try done. eapply (task_wf_change t); try done; unfold w_files; try by rewrite Hsp.
  by apply (ww_task _ Hwf).
Qed.

(** The state and the columns of a row that was read. *)
Lemma read_columns d id t :
  work_wf (work d) → find_task id d = Some (tr_row t) → reads (tr_row t) t →
  columns_of_state (tr_state t) (tr_row t) ∧ w_state (tr_row t) = TaskState_as_str (tr_state t).
Proof.
  intros Hwf Hf Hr. apply find_task_Some in Hf as [Hin _].
  destruct (tw_state _ (ww_task _ Hwf _ Hin)) as (s & Es & Hc).
  pose proof (rd_state _ _ Hr) as Hs. rewrite Es, TaskState_parse_as_str in Hs. by simplify_eq.
Qed.

Lemma view_of_read t :
  reads (tr_row t) t →
  view_of (tr_row t) = Some (mk_tview (tr_state t) (tr_agent t) (tr_accepted t)
    (bool_decide (is_Some (tr_requested t))) (fixed_of (tr_row t))).
Proof. intros Hr. unfold view_of. by rewrite (rd_state _ _ Hr). Qed.

Lemma guard_not_Ok b e d u d' : guard (negb b) e d = Ok (u, d') → b = true ∧ d' = d.
Proof. intros [H ->]%guard_Ok. by apply negb_false_iff in H. Qed.

Lemma subject_task_Ok s d id d' : subject_task s d = Ok (id, d') → id = s ∧ d' = d.
Proof. unfold subject_task. intros H. step refuse_Ok in H as ? [_ ->]. by apply mret_Ok in H. Qed.

Lemma check_text_field_Ok what v n d u d' : check_text_field what v n d = Ok (u, d') → d' = d.
Proof. by intros [_ ->]%refuse_Ok. Qed.

Lemma record_event_Ok now actor kind subject data d u d' :
  record_event now actor kind subject data d = Ok (u, d') → d' = logged now actor kind subject data d.
Proof. unfold record_event. intros H. step append_Ok in H as ? ->. by apply mret_Ok in H as [_ ->]. Qed.

Lemma may_act_Ok role actor t d u d' :
  may_act role actor t d = Ok (u, d') →
  d' = d ∧ (role_le Supervisor role = true ∨
    match tr_state t with TQueued => tr_author t = actor | _ => tr_agent t = Some actor end).
Proof.
  unfold may_act. intros [H ->]%guard_not_Ok. split; [done|].
  apply orb_true_iff in H as [H|H]; [by left|right]. destruct (tr_state t); by apply bool_decide_eq_true in H.
Qed.

(** The envelope of a work operation. *)
Definition agent_step (op : SignedOp) (now : Z) (d d' : db) : Prop :=
  ∃ kind role, authorized now op kind role d ∧ role_le Worker role = true ∧
    work_wf (work d') ∧ work_step (ByAgent (actor_hex op) role) d d'.

Lemma step_from by' d d1 d2 :
  work d1 = work d → work_step by' d1 d2 → work_step by' d d2.
Proof. intros E H id. rewrite <- (view_at_same id d d1 E). apply H. Qed.

Lemma step_to by' d d1 d2 :
  work_step by' d d1 → work d2 = work d1 → work_step by' d d2.
Proof. intros H E id. rewrite (view_at_same id d1 d2 E). apply H. Qed.

Lemma may_run_Ok role s d u d' : may_run role s d = Ok (u, d') → d' = d.
Proof. by intros [_ ->]%guard_Ok. Qed.
End Steps.

(** The conditions of the guards that were passed. *)
Ltac guards :=
  repeat match goal with
  | H : negb _ = false |- _ => apply negb_false_iff in H
  | H : negb _ = true |- _ => apply negb_true_iff in H
  | H : _ || _ = false |- _ => apply orb_false_iff in H as [? ?]
  | H : _ && _ = true |- _ => apply andb_true_iff in H as [? ?]
  | H : bool_decide _ = true |- _ => apply bool_decide_eq_true in H
  | H : bool_decide _ = false |- _ => apply bool_decide_eq_false in H
  | H : String.eqb _ _ = true |- _ => apply String.eqb_eq in H
  | H : String.eqb _ _ = false |- _ => apply String.eqb_neq in H
  end.

(** One statement of an operation that committed, by the lemma of its head. *)
Ltac wstep H :=
  lazymatch type of H with
  | mbind _ (authorize _ _ _) _ = Ok _ => step authorize_Ok in H as ?role [?Hau ->]
  | mbind _ (need _ _) _ = Ok _ => step need_Ok in H as ?u [-> ?Hneed]
  | mbind _ (load_task _) _ = Ok _ => step load_task_Ok in H as ?t (-> & ?Hfind & ?Hread & ?Hid)
  | mbind _ (subject_task _) _ = Ok _ => step subject_task_Ok in H as ?id [-> ->]
  | mbind _ (check_text_field _ _ _) _ = Ok _ => step check_text_field_Ok in H as ?u ->
  | mbind _ (refuse _) _ = Ok _ => step refuse_Ok in H as ?u [?Hchk ->]
  | mbind _ (settings_in) _ = Ok _ => step settings_in_Ok in H as ?s ->
  | mbind _ (may_run _ _) _ = Ok _ => step may_run_Ok in H as ?u ->
  | mbind _ (may_act _ _ _) _ = Ok _ => step may_act_Ok in H as ?u [-> ?Hmay]
  | mbind _ (record_event _ _ _ _ _) _ = Ok _ => step record_event_Ok in H as ?u ->
  | record_event _ _ _ _ _ _ = Ok _ => apply record_event_Ok in H as ->
  | mbind _ (append _ _ _ _ _) _ = Ok _ => step append_Ok in H as ?n ->
  | mbind _ (guard _ _) _ = Ok _ => step guard_Ok in H as ?u [?Hg ->]
  | mbind _ (lift _) _ = Ok _ => step lift_Ok in H as ?a [?Hl ->]
  | mbind _ (query _) _ = Ok _ => step query_Ok in H as ?a [-> ->]
  | mbind _ (execute _) _ = Ok _ => step execute_Ok in H as ?u ->
  | mbind _ (mret _) _ = Ok _ => step mret_Ok in H as ?a [-> ->]
  | mret _ _ = Ok _ => apply mret_Ok in H as [? ->]
  | mbind _ (if ?b then _ else _) _ = Ok _ => destruct b eqn:?Hb
  | (if ?b then _ else _) _ = Ok _ => destruct b eqn:?Hb
  | mbind _ (mbind _ _) _ = Ok _ =>
      let E := fresh "Hbody" in apply tx_bind_Ok in H as (?u & ? & E & H); repeat wstep E; subst
  | fail _ _ = Ok _ => destruct (fail_Ok _ _ _ _ H)
  | refusal _ _ = Ok _ => discriminate H
  end.

Ltac keep_row := constructor; intros ?; reflexivity.

Section Operations.
Context `{P : Prims} `{LC : LeaseCodec} `{C : WorkCodec} {CL : WorkCodecLaws C}.

Lemma is_agent_self who role : is_agent (ByAgent who role) who.
Proof. by exists role. Qed.

Lemma find_task_nonce now op id d : find_task id (with_nonce now op d) = find_task id d.
Proof. done. Qed.

Lemma digest_of_command t : is_Some (digest_of t) ↔ is_Some (tr_command t).
Proof. unfold digest_of. apply fmap_is_Some. Qed.

Lemma read_command row t : reads row t → is_Some (tr_command t) ↔ is_Some (sp_command (w_spec row)).
Proof.
  intros Hr. pose proof (rd_command _ _ Hr) as Hc. destruct (sp_command (w_spec row)).
  - split; intros _; [by eauto|by destruct Hc].
  - rewrite Hc. by split; intros [].
Qed.

(** The row of a task that was read, its state and its claim. *)
Lemma claimed_view d id t :
  work_wf (work d) → find_task id d = Some (tr_row t) → reads (tr_row t) t →
  is_claimed t = true → is_requested t = false →
  ∃ a, tr_agent t = Some a ∧ (tr_accepted t = None ∨ tr_accepted t = Some a) ∧
    tr_requested t = None ∧ w_state (tr_row t) = "claimed" ∧
    columns_of_state TClaimed (tr_row t) ∧
    view_of (tr_row t) = Some (mk_tview TClaimed (Some a) (tr_accepted t) false (fixed_of (tr_row t))).
Proof.
  intros Hwf Hf Hr Hc Hq. destruct (read_columns _ _ _ Hwf Hf Hr) as [Hcol Hst].
  unfold is_claimed, is_requested in *. guards. rewrite Hc in *.
  pose proof (view_of_read _ Hr) as Hv. rewrite Hc in Hv. rewrite bool_decide_false in Hv by done.
  pose proof Hcol as ((a & Ea) & _ & Hacc & _). exists a. unfold tr_agent, tr_accepted, tr_requested in *.
  rewrite Ea in Hv, Hacc. split_and!; try done. by apply eq_None_not_Some.
Qed.

Lemma role_le_worker m role : role_le m role = true → role_le Worker m = true → role_le Worker role = true.
Proof. by destruct m, role. Qed.

(** A body that keeps the invariant and takes a step. *)
Definition body_ok (by' : taker) (d d' : db) : Prop := work_wf (work d') ∧ work_step by' d d'.

Lemma body_ok_same by' d d' : work_wf (work d) → work d' = work d → body_ok by' d d'.
Proof. intros Hwf E. split; [by rewrite E|by apply work_step_same]. Qed.

Lemma body_ok_to by' d d1 d2 : body_ok by' d d1 → work d2 = work d1 → body_ok by' d d2.
Proof. intros [Hwf Hs] E. split; [by rewrite E|by eapply step_to]. Qed.

Lemma body_ok_from by' d d1 d2 : work d1 = work d → body_ok by' d1 d2 → body_ok by' d d2.
Proof. intros E [Hwf Hs]. split; [done|by eapply step_from]. Qed.

(** An operation that was authorized and then made one step. *)
Lemma agent_step_intro now op kind role d d' :
  authorized now op kind role d → role_le Worker role = true →
  body_ok (ByAgent (actor_hex op) role) (with_nonce now op d) d' → agent_step op now d d'.
Proof.
  intros Ha Hr Hb. exists kind, role. split; [done|]. split; [done|]. by eapply body_ok_from.
Qed.

Lemma agent_step_none now op kind role d d' :
  work_wf (work d) → authorized now op kind role d → role_le Worker role = true →
  work d' = work d → agent_step op now d d'.
Proof. intros. eapply agent_step_intro; [done..|]. by apply body_ok_same. Qed.

(** What a change of one row must be. *)
Record row_change (by' : taker) (t t' : work_task) : Prop := {
  rc_spec : w_spec t' = w_spec t;
  rc_prediction : sg_prediction (w_sigs t') = sg_prediction (w_sigs t);
  rc_fit : columns_fit t' = columns_fit t;
  rc_state : ∃ s, w_state t' = TaskState_as_str s ∧ columns_of_state s t';
  rc_holds : holds_files t' → holds_files t;
  rc_view : view_of t' = view_of t ∨ wlife by' (view_of t) (view_of t') }.

Lemma body_ok_update f by' d id t d' :
  work_wf (work d) → find_task id d = Some t → work d' = work (update_task id f d) → keeps_row f →
  row_change by' t (f t) → body_ok by' d d'.
Proof.
  intros Hwf Hf E Hk [? ? ? ? ? ?]. eapply (body_ok_to _ _ (update_task id f d)); [|done].
  by eapply change_ok.
Qed.

Lemma agent_step_update f now op kind role d id t d' :
  authorized now op kind role d → role_le Worker role = true → work_wf (work d) →
  find_task id d = Some t → work d' = work (update_task id f d) → keeps_row f →
  row_change (ByAgent (actor_hex op) role) t (f t) → agent_step op now d d'.
Proof.
  intros Ha Hr Hwf Hf E Hk Hc. eapply agent_step_intro; [done..|].
  by apply (body_ok_update f _ (with_nonce now op d) id t).
Qed.

Lemma view_of_state s t :
  w_state t = TaskState_as_str s →
  view_of t = Some (mk_tview s (cl_agent (w_claim t)) (cl_accepted (w_claim t))
    (bool_decide (is_Some (cl_requested (w_claim t)))) (fixed_of t)).
Proof. intros E. unfold view_of. by rewrite E, TaskState_parse_as_str. Qed.

Lemma work_accept_ok now op d r d' :
  work_wf (work d) → work_accept now op d = Ok (r, d') → agent_step op now d d'.
Proof.
  intros Hwf H. unfold work_accept in H. repeat wstep H; [|by eapply agent_step_none].
  guards. rewrite find_task_nonce in Hfind.
  destruct (claimed_view _ _ _ Hwf Hfind Hread) as (b & Eb & Hacc & Hrq & Hst & Hcol & Hv); [done..|].
  assert (is_Some (sp_command (w_spec (tr_row t)))) as Hcmd.
  { apply (read_command _ _ Hread), digest_of_command. destruct (digest_of t); [eauto|done]. }
  assert (b = actor_hex op) as -> by congruence.
  eapply (agent_step_update (with_accepted (actor_hex op))); try done.
  constructor; try done.
  - exists TClaimed. split; [done|]. cbn in *. naive_solver.
  - right. rewrite Hv, (view_of_state TClaimed) by done. cbn. unfold tr_agent, tr_requested in *.
    rewrite Eb, Hrq. eapply wl_accept; [by eexists|done].
Qed.

(** A task that has not started ends. *)
Lemma end_change by' d t s' now note :
  work_wf (work d) → find_task (tr_id t) d = Some (tr_row t) → reads (tr_row t) t →
  tr_state t = TQueued ∨ tr_state t = TClaimed → is_final s' = true →
  (let v s := Some (mk_tview s (tr_agent t) (tr_accepted t) (is_requested t) (fixed_of (tr_row t))) in
   wlife by' (v (tr_state t)) (v s')) →
  row_change by' (tr_row t) (with_end (TaskState_as_str s') now note (tr_row t)).
Proof.
  intros Hwf Hf Hr Hs Hfin Hl. destruct (read_columns _ _ _ Hwf Hf Hr) as [Hcol Hst].
  assert (rn_started (w_run (tr_row t)) = None) as Hns by (destruct Hs as [E|E]; rewrite E in Hcol; apply Hcol).
  constructor; try done.
  - exists s'. split; [done|]. destruct s'; try done; cbn; rewrite Hns; (split; [eauto|by intros []]).
  - intros [E|E]; destruct s'; done.
  - right. rewrite (view_of_read _ Hr), (view_of_state s') by done. exact Hl.
Qed.

Lemma guard_implies (A B : Prop) `{Decision A, Decision B} :
  bool_decide A && negb (bool_decide B) = false → A → B.
Proof. intros E HA. rewrite bool_decide_true in E by done. by apply negb_false_iff, bool_decide_eq_true in E. Qed.

Lemma not_requested d t :
  work_wf (work d) → find_task (tr_id t) d = Some (tr_row t) → reads (tr_row t) t →
  tr_state t = TQueued ∨ tr_state t = TClaimed ∧ tr_command t = None → is_requested t = false.
Proof.
  intros Hwf Hf Hr Hs. destruct (read_columns _ _ _ Hwf Hf Hr) as [Hcol Hst].
  unfold is_requested, tr_requested. apply bool_decide_eq_false. intros Hrq.
  destruct Hs as [E|[E Ec]]; rewrite E in Hcol; cbn in Hcol.
  - destruct Hcol as [Ec _]. rewrite Ec in Hrq. by destruct Hrq.
  - destruct Hcol as (_ & _ & _ & H & _). destruct (H Hrq) as [_ H']. apply (read_command _ _ Hr) in H'.
    rewrite Ec in H'. by destruct H'.
Qed.

Lemma work_finish_ok now op d r d' :
  work_wf (work d) → work_finish now op d = Ok (r, d') → agent_step op now d d'.
Proof.
  intros Hwf H. unfold work_finish in H. do 3 wstep H. apply tx_bind_Ok in H as (status & d1 & Hst & H).
  assert (d1 = with_nonce now op d ∧ ∃ s, status = TaskState_as_str s ∧ (s = TDone ∨ s = TFailed))
    as (-> & s & -> & Hs).
  { destruct (fa_state a); wstep Hst; subst; (split; [done|]); [exists TDone|exists TFailed]; auto. }
  repeat wstep H. guards. rewrite find_task_nonce in Hfind. rewrite <- Hid in Hfind |- *.
  assert (tr_command t = None) as Hc by (by apply eq_None_not_Some).
  assert (tr_state t = TQueued ∧ tr_author t = actor_hex op ∨
    tr_state t = TClaimed ∧ tr_agent t = Some (actor_hex op)) as Hmay.
  { pose proof (guard_implies _ _ Hg1). pose proof (guard_implies _ _ Hg2). destruct (tr_state t); try done; auto. }
  assert (is_requested t = false) as Hrq by (eapply not_requested; naive_solver).
  eapply (agent_step_update (with_end (TaskState_as_str s) now (fa_note a))); try done.
  eapply end_change; try done; [naive_solver|by destruct Hs as [->| ->]|].
  cbn. rewrite Hrq. eapply wl_close; [|done|].
  - destruct Hmay as [[Es <-]|[Es Ea]]; [left|right]; (split; [done|]); eauto using is_agent_self.
  - apply eq_None_not_Some. intros Hc'. by apply Hg3, (read_command _ _ Hread).
Qed.

Lemma work_cancel_ok now op d r d' :
  work_wf (work d) → work_cancel now op d = Ok (r, d') → agent_step op now d d'.
Proof.
  intros Hwf H. unfold work_cancel in H. repeat wstep H; guards; rewrite find_task_nonce in Hfind;
    rewrite <- Hid in Hfind |- *; destruct (read_columns _ _ _ Hwf Hfind Hread) as [Hcol Hst].
  - eapply (agent_step_update (with_cancel_request _)); try done. constructor; try done; [|by left].
    rewrite Hb in *. by exists TRunning.
  - assert (tr_state t = TQueued ∨ tr_state t = TClaimed) as Hs by (destruct (tr_state t); auto; done).
    eapply (agent_step_update (with_end _ _ _)); try done.
    eapply (end_change _ _ _ TCancelled); try done. cbn. eapply wl_cancel.
    destruct Hmay as [Hsup|Hown]; [right; right; split; [done|by exists (actor_hex op), role]|].
    destruct Hs as [E|E]; rewrite E in *; [left|right; left]; (split; [done|]); subst; eauto using is_agent_self.
    rewrite <- Hown. apply is_agent_self.
Qed.

Lemma reclaim_task_ok by' now actor id note d u d' :
  is_supervisor by' → work_wf (work d) → reclaim_task now actor id note d = Ok (u, d') →
  body_ok by' d d'.
Proof.
  intros Hsup Hwf H. unfold reclaim_task in H. repeat wstep H. guards.
  destruct (claimed_view _ _ _ Hwf Hfind Hread) as (b & Eb & Hacc & Hrq & Hst & Hcol & Hv); [done..|].
  eapply (body_ok_update (with_requeue note)); try done. unfold tr_requested in Hrq. constructor; try done.
  - exists TQueued. split; [done|]. cbn in *. rewrite Hrq. naive_solver.
  - by intros [?|?].
  - right. rewrite Hv, (view_of_state TQueued) by done. cbn. rewrite Hrq. by eapply wl_requeue; right; left.
Qed.

Lemma reclaim_lease_ok by' now actor id note d u d' :
  work_wf (work d) → reclaim_lease now actor id note d = Ok (u, d') → body_ok by' d d'.
Proof.
  intros Hwf H. unfold reclaim_lease in H. wstep H. destruct (find_lease id d); [|done].
  repeat wstep H. by apply body_ok_same.
Qed.

Lemma work_reclaim_ok now op d r d' :
  work_wf (work d) → work_reclaim now op d = Ok (r, d') → agent_step op now d d'.
Proof.
  intros Hwf H. unfold work_reclaim in H. repeat wstep H.
  eapply agent_step_intro; [done|by eapply role_le_worker|].
  destruct (strip_prefix "task:" _); [eapply reclaim_task_ok; [|done..]; by exists (actor_hex op), role|].
  destruct (strip_prefix "lease:" _); [by eapply reclaim_lease_ok|done].
Qed.

Lemma work_settings_ok now op d r d' :
  work_wf (work d) → work_settings_set now op d = Ok (r, d') → agent_step op now d d'.
Proof.
  intros Hwf H. unfold work_settings_set in H. repeat wstep H.
  destruct u0 as [s' changes]. pose proof (role_le_worker _ _ Hneed eq_refl).
  repeat wstep H; by eapply agent_step_none.
Qed.
End Operations.

(** ** Claims, new tasks and updates

    What the file check and the prerequisite checks of [work_ops/queue.rs],
    [add.rs] and [edit.rs] establish, and that claiming, adding, requesting and
    updating a task keep the invariant and are steps of its life. *)

(** ** Lists that are read row by row *)

Lemma try_map_Ok {E A B} (f : A → result E B) l ys :
  try_map f l = Ok ys → Forall2 (λ x y, f x = Ok y) l ys.
Proof.
  revert ys. induction l as [|x l IH]; intros ys H; cbn in H; [by simplify_eq; constructor|].
  apply result_bind_Ok in H as (y & Hy & H). apply result_bind_Ok in H as (ys' & Hys & H).
  simplify_eq. constructor; auto.
Qed.

Lemma try_map_total {E A B} (f : A → result E B) l :
  (∀ x, x ∈ l → ∃ y, f x = Ok y) → ∃ ys, try_map f l = Ok ys.
Proof.
  induction l as [|x l IH]; intros H; [by exists []|]. cbn.
  destruct (H x) as [y ->]; [by left|]. destruct IH as [ys ->]; [intros; apply H; by right|]. by exists (y :: ys).
Qed.

Lemma try_map_elem {E A B} (f : A → result E B) l ys x :
  try_map f l = Ok ys → x ∈ l → ∃ y, y ∈ ys ∧ f x = Ok y.
Proof.
  intros H%try_map_Ok [i Hi]%list_elem_of_lookup. eapply Forall2_lookup_l in H as (y & Hy & Ey); [|done].
  exists y. split; [by eapply list_elem_of_lookup_2|done].
Qed.

(** No conflict is reported when no path overlaps a held one, and only then. *)
Lemma first_conflict_None files holders :
  first_conflict files holders = None ↔ ∀ h held, (h, held) ∈ holders → apart files held.
Proof.
  induction holders as [|[h held] holders IH]; cbn [first_conflict].
  { split; [|done]. by intros _ h held H%not_elem_of_nil. }
  destruct (List.find _ held) as [p|] eqn:E.
  - apply find_some in E as [Hp (f & Hf & Ho)%existsb_elem]. split; [done|]. intros H.
    specialize (H h held ltac:(by left) f p Hf ltac:(by apply list_elem_of_In)). congruence.
  - rewrite IH. split.
    + intros H h' held' [[= -> ->]|Hin]%elem_of_cons; [|by eapply H].
      intros x y Hx Hy%list_elem_of_In. pose proof (find_none _ _ E y Hy) as Hn. cbn in Hn.
      by eapply existsb_none in Hn.
    + intros H h' held' Hin. apply (H h'). by right.
Qed.

Section Claims.
Context `{P : Prims} `{LC : LeaseCodec} `{C : WorkCodec} {CL : WorkCodecLaws C}.

Lemma scope_exists_Ok s d u d' : scope_exists s d = Ok (u, d') → d' = d ∧ scope_known s d = true.
Proof.
  unfold scope_exists. intros H. wstep H. destruct (scope_known s d); [|done]. by wstep H.
Qed.

Lemma files_of_parse t l : parse_files (w_files t) = Some l → files_of t = l.
Proof. intros E. unfold files_of. by rewrite E. Qed.

Lemma holders_in_Ok now ex d hs d' :
  holders_in now ex d = Ok (hs, d') → d' = d ∧
  ∀ u, u ∈ work_tasks (work d) → holds_files u → files_of u = [] ∨ (w_id u, files_of u) ∈ hs.
Proof.
  unfold holders_in. intros H. repeat wstep H. subst. split; [done|]. intros u Hu Hh.
  destruct (decide (w_files u = "[]")) as [E|E].
  - left. apply files_of_parse. rewrite E, <- list_json_nil. apply list_json_parse.
  - right. eapply (try_map_elem _ _ _ u) in Hl as (y & Hy & Ey).
    + apply result_bind_Ok in Ey as (fs & Hfs & [= <-]). apply elem_of_app. left.
      unfold stored_list, ok_or in Hfs. destruct (parse_files (w_files u)) as [l|] eqn:El; [|done].
      simplify_eq. by rewrite (files_of_parse _ _ El).
    + unfold held_tasks. apply list_elem_of_filter. done.
Qed.

Lemma check_files_Ok now subject files ex d u d' :
  check_files now subject files ex d = Ok (u, d') → d' = d ∧
  ∀ t, t ∈ work_tasks (work d) → holds_files t → apart files (files_of t).
Proof.
  unfold check_files. intros H. step holders_in_Ok in H as hs [-> Hhs].
  destruct (first_conflict files hs) as [[h p]|] eqn:E.
  - destruct (starts_with _ h); [done|]. repeat wstep H.
  - apply mret_Ok in H as [_ ->]. split; [done|]. intros t Ht Hh.
    destruct (Hhs t Ht Hh) as [->|Hin]; [by intros x y _ Hy%not_elem_of_nil|].
    by apply (proj1 (first_conflict_None _ _) E _ _ Hin).
Qed.

Lemma claim_block_Ok now id after files ex d u d' :
  claim_block now id after files ex d = Ok (u, d') → d' = d ∧ waiting_in after d = [] ∧
  ∀ t, t ∈ work_tasks (work d) → holds_files t → apart files (files_of t).
Proof.
  unfold claim_block. intros H. repeat wstep H. guards. by apply check_files_Ok in H as [-> H].
Qed.

(** The files of [t] overlap no file another task holds. *)
Definition clear_of (d : db) (t : work_task) : Prop :=
  ∀ u, u ∈ work_tasks (work d) → holds_files u → apart (files_of t) (files_of u).

Lemma task_deps_kept f id d t :
  work_wf (work d) → find_task id d = Some t → (∀ t, w_id (f t) = w_id t) →
  sp_after (w_spec (f t)) = sp_after (w_spec t) →
  task_deps (map (λ t, if decide (w_id t = id) then f t else t) (work_tasks (work d))) =
  task_deps (work_tasks (work d)).
Proof.
  intros Hwf [Hin Hid]%find_task_Some Hk Ha. apply task_deps_same; [|done]. intros u Hu Hui.
  assert (u = t) as -> by (apply (key_inj w_id (work_tasks (work d))); [apply Hwf|done..|congruence]). done.
Qed.

(** A queued task becomes claimed by [actor]. *)
Lemma take_ok by' now id actor d u d' :
  is_agent by' actor → work_wf (work d) → (∀ t, find_task id d = Some t → clear_of d t) →
  take now id actor d = Ok (u, d') → body_ok by' d d'.
Proof.
  intros Hby Hwf Hclear H. unfold take in H. wstep H. destruct (find_task id d) as [t|] eqn:Hfind; [|done].
  repeat wstep H. guards. specialize (Hclear t eq_refl). pose proof (find_task_Some _ _ _ Hfind) as [Hin _].
  pose proof (ww_task _ Hwf _ Hin) as Ht. destruct (tw_state _ Ht) as (s & Es & Hcol).
  destruct s; try (rewrite Es in Hg; done). destruct Hcol as (Hcl & Hns & Hne).
  set (f t := with_claim _ _ t).
  eapply (body_ok_to _ _ (update_task id f d)); [|done]. split.
  - eapply work_wf_update; try done.
    + eapply (task_wf_change t); try done. exists TClaimed. split; [done|]. cbn. rewrite Hcl. cbn. naive_solver.
    + intros x Hx. by apply (ww_known _ Hwf t).
    + rewrite (task_deps_kept _ _ _ t) by done. apply Hwf.
    + intros _. right. intros v Hv Hh _. by apply Hclear.
  - eapply work_step_update; try done. right. rewrite (view_of_state TQueued), (view_of_state TClaimed) by done.
    cbn. rewrite Hcl. cbn. apply wl_claim. by left.
Qed.

Lemma work_claim_ok now op d r d' :
  work_wf (work d) → work_claim now op d = Ok (r, d') → agent_step op now d d'.
Proof.
  intros Hwf H. unfold work_claim in H. repeat wstep H. guards. step claim_block_Ok in H as ? (-> & _ & Hclear).
  apply tx_bind_Ok in H as (? & d1 & Htake & H). wstep H. eapply agent_step_intro; [done..|].
  eapply take_ok; [apply is_agent_self|done| |done]. intros row Hrow. rewrite Hfind in Hrow. simplify_eq.
  intros v Hv Hh. rewrite (files_of_parse _ _ (rd_files _ _ Hread)). by apply Hclear.
Qed.
End Claims.
