(* ===== verification/WorkNext.v ===== *)
(** * The work queue: the next task

    [next_in] of [src/crates/agora-store/src/work_ops/queue.rs] on tables that
    keep the invariant: it never fails, it takes the first task of the policy's
    order that may be claimed, and it reports none only when there is none. *)

From Stdlib Require Import Ascii.
From stdpp Require Import relations.
From S2P Require Import Prelude F64 Strs PyFmt Bytes Core Crypto Task Graph Order Claims Settings.
From S2P Require Import Predict Signature StoreDb Identity Leases Policy Board BoardLog WorkRow Work.
From S2P Require Import WorkInv WorkSteps.

(** ** The scan *)

(** A position of the order that the scan takes. *)
Definition takes (tasks : list Task) (flags : list bool) (holders : list (string * list string))
    (x : nat) (t : Task) : Prop :=
  tasks !! x = Some t ∧ default true (flags !! x) = false ∧ first_conflict (t_files t) holders = None.

Lemma scan_spec tasks flags holders b h order :
  match scan tasks flags holders b h order with
  | (Some id, _, _) => ∃ i x t, order !! i = Some x ∧ takes tasks flags holders x t ∧ t_id t = id ∧
      ∀ j y u, j < i → order !! j = Some y → ¬ takes tasks flags holders y u
  | (None, _, _) => ∀ y u, y ∈ order → ¬ takes tasks flags holders y u
  end.
Proof.
  revert b h. induction order as [|x order IH]; intros b h; cbn [scan]; [by intros y u ?%not_elem_of_nil|].
  assert (∀ b h, (∀ u, ¬ takes tasks flags holders x u) →
    match scan tasks flags holders b h order with
    | (Some id, _, _) => ∃ i y t, (x :: order) !! i = Some y ∧ takes tasks flags holders y t ∧ t_id t = id ∧
        ∀ j z u, j < i → (x :: order) !! j = Some z → ¬ takes tasks flags holders z u
    | (None, _, _) => ∀ y u, y ∈ x :: order → ¬ takes tasks flags holders y u
    end) as Hskip.
  { intros b' h' Hx. specialize (IH b' h'). destruct (scan _ _ _ _ _ order) as [[[id|] ?] ?].
    - destruct IH as (i & y & t & Hi & Ht & Hid & Hb). exists (S i), y, t. split_and!; try done.
      intros [|j] z u Hj Hz; cbn in Hz; [by simplify_eq; apply Hx|]. apply (Hb j); [lia|done].
    - intros y u [->|Hy]%elem_of_cons; [apply Hx|by apply IH]. }
  destruct (tasks !! x) as [t|] eqn:Et; [|apply Hskip; intros u (E & _); congruence].
  destruct (default true (flags !! x)) eqn:Ef; [apply Hskip; intros u (_ & E & _); congruence|].
  case_bool_decide as Ec.
  - apply Hskip. intros u (E & _ & En). simplify_eq. rewrite En in Ec. by destruct Ec.
  - exists 0, x, t. split_and!; try done; [|intros; lia]. split_and!; try done. by apply eq_None_not_Some.
Qed.

Lemma order_perm tasks g policy :
  Graph_new tasks = Ok g → o_order (order g policy) ≡ₚ seq 0 (length tasks).
Proof.
  intros [<- Hg]%Graph_new_ok. unfold order. destruct (inherit g _) as [eff src]. cbn.
  apply (kahn_order_complete g Hg eff).
Qed.

Section Next.
Context `{P : Prims} `{LC : LeaseCodec} `{C : WorkCodec} {CL : WorkCodecLaws C}.

(** ** Rows of the invariant can be read *)

Lemma opt_column_total {A B} (parse : A → result StoreError B) o :
  (∀ a, o = Some a → ∃ b, parse a = Ok b) → ∃ r, opt_column parse o = Ok r.
Proof. destruct o as [a|]; intros H; cbn; [destruct (H a eq_refl) as [b ->]|]; cbn; eauto. Qed.

Lemma ok_or_total {A} (o : option A) e : is_Some o → ∃ a, ok_or (E := StoreError) o e = Ok a.
Proof. intros [a ->]. by exists a. Qed.

Lemma task_from_row_total t : task_wf t → ∃ r, task_from_row t = Ok r.
Proof.
  intros [(s & Es & _) Ha (wss & Ef & _) Hc Hp Hfit]. unfold task_from_row.
  destruct (ok_or_total _ column_error Ha) as [after Ha']. fold (string_list (sp_after (w_spec t))) in Ha'.
  destruct (opt_column_total string_list (sp_command (w_spec t))) as [command Hc'].
  { intros raw E. by apply ok_or_total, Hc. }
  destruct (opt_column_total (λ text, ok_or (parse_prediction text) column_error) (sg_prediction (w_sigs t)))
    as [pr Hp'].
  { intros raw E. by apply ok_or_total, Hp. }
  assert (string_list (sp_files (w_spec t)) = Ok (path_of <$> wss)) as Hf.
  { change (sp_files (w_spec t)) with (w_files t). unfold string_list. by rewrite Ef, list_json_parse. }
  rewrite Ha'. cbn. rewrite Hf. cbn.
  rewrite Hc'. cbn. rewrite Es, TaskState_parse_as_str. cbn. setoid_rewrite Hp'. cbn. rewrite Hfit. eauto.
Qed.

Lemma load_task_total id d t :
  work_wf (work d) → find_task id d = Some t → ∃ r, load_task id d = Ok (r, d) ∧ tr_row r = t.
Proof.
  intros Hwf Hf. pose proof (find_task_Some _ _ _ Hf) as [Hin _].
  destruct (task_from_row_total t (ww_task _ Hwf t Hin)) as [r Hr]. exists r.
  split; [|by apply task_from_row_Ok, rd_row in Hr].
  unfold load_task, mbind, tx_bind, query. rewrite Hf. unfold lift. by rewrite Hr.
Qed.

Lemma holders_in_total now ex d : work_wf (work d) → ∃ hs, holders_in now ex d = Ok (hs, d).
Proof.
  intros Hwf. unfold holders_in, mbind, tx_bind, query, lift. cbn.
  edestruct (try_map_total (λ t, files ← stored_list (w_files t); Ok (w_id t, files)) (held_tasks d)) as [ys Hys].
  { intros t Ht. apply list_elem_of_filter in Ht as [_ Ht].
    destruct (tw_files _ (ww_task _ Hwf t Ht)) as (wss & Ef & _). unfold stored_list.
    rewrite Ef, list_json_parse. cbn. eauto. }
  setoid_rewrite Hys. eauto.
Qed.

Lemma take_total now id actor d t :
  find_task id d = Some t → w_state t = "queued" → ∃ d', take now id actor d = Ok (tt, d').
Proof.
  intros Hf Hs. unfold take, mbind, tx_bind, query. rewrite Hf, Hs. cbn. eauto.
Qed.

(** ** The queue of a scope *)

Definition queue_of (scope : option string) (d : db) : list work_task :=
  filter (λ t, w_state t = "queued" ∧ in_scopes scope d t = true) (work_tasks (work d)).

Lemma queue_of_elem scope d t :
  t ∈ queue_of scope d ↔ (w_state t = "queued" ∧ in_scopes scope d t = true) ∧ t ∈ work_tasks (work d).
Proof. unfold queue_of. by rewrite list_elem_of_filter. Qed.

(** The records of the queue and the tasks that are ordered. *)
Record queue_read (scope : option string) (d : db) (rs : list TaskRecord) : Prop := {
  qr_rows : tr_row <$> rs = queue_of scope d;
  qr_reads : Forall (λ r, reads (tr_row r) r) rs }.

Lemma queued_in_scope_total scope d :
  work_wf (work d) → ∃ rs, queued_in_scope scope d = Ok (rs, d) ∧ queue_read scope d rs.
Proof.
  intros Hwf. destruct (try_map_total task_from_row (queue_of scope d)) as [rs Hrs].
  { intros t [_ Ht]%queue_of_elem. by apply task_from_row_total, (ww_task _ Hwf). }
  exists rs. split.
  { unfold queued_in_scope, mbind, tx_bind, query, lift. by setoid_rewrite Hrs. }
  apply try_map_Ok in Hrs. split.
  - revert rs Hrs. generalize (queue_of scope d). intros l rs H.
    induction H as [|t r l rs Ht _ IH]; cbn; [done|]. f_equal; [|done].
    by apply task_from_row_Ok, rd_row in Ht.
  - apply Forall_forall. intros r [i Hi]%list_elem_of_lookup.
    eapply Forall2_lookup_r in Hrs as (t & _ & Ht); [|done]. apply task_from_row_Ok in Ht.
    by rewrite (rd_row _ _ Ht).
Qed.

Definition queue_tasks (rs : list TaskRecord) : list Task := imap (order_task (tr_id <$> rs)) rs.

Lemma queue_tasks_lookup rs i : queue_tasks rs !! i = order_task (tr_id <$> rs) i <$> rs !! i.
Proof. apply list_lookup_imap. Qed.

Lemma queue_tasks_ids rs : t_id <$> queue_tasks rs = tr_id <$> rs.
Proof.
  apply list_eq. intros i. rewrite !list_lookup_fmap, queue_tasks_lookup. by destruct (rs !! i).
Qed.

Lemma queue_row scope d rs r :
  queue_read scope d rs → r ∈ rs → tr_row r ∈ queue_of scope d ∧ reads (tr_row r) r.
Proof.
  intros [Hr Hf] Hin. split; [rewrite <- Hr; by apply list_elem_of_fmap_2|].
  rewrite Forall_forall in Hf. by apply Hf.
Qed.

(** The queue can always be ordered. *)
Lemma queue_graph scope d rs :
  work_wf (work d) → queue_read scope d rs →
  ∃ g, Graph_new (queue_tasks rs) = Ok g ∧ g_tasks g = queue_tasks rs.
Proof.
  intros Hwf Hq.
  assert (∀ t, t ∈ queue_tasks rs → ∃ r, r ∈ rs ∧ t_id t = tr_id r ∧
    t_after t = filter (λ x, x ∈ tr_id <$> rs) (tr_after r)) as Hel.
  { intros t [i Hi]%list_elem_of_lookup. rewrite queue_tasks_lookup in Hi.
    destruct (rs !! i) as [r|] eqn:E; cbn in Hi; simplify_eq. exists r.
    split; [by eapply list_elem_of_lookup_2|done]. }
  destruct (Graph_new_by_ids (queue_tasks rs)) as (g & Hg & Et & _); [| | |by exists g].
  - unfold ids_distinct. rewrite queue_tasks_ids.
    assert (tr_id <$> rs = w_id <$> queue_of scope d) as ->.
    { rewrite <- (qr_rows _ _ _ Hq), <- list_fmap_compose. done. }
    eapply sublist_NoDup; [apply (ww_ids _ Hwf)|]. apply fmap_sublist, sublist_filter.
  - intros t x Ht Hx. destruct (Hel t Ht) as (r & Hr & _ & Ea). rewrite Ea in Hx.
    apply list_elem_of_filter in Hx as [Hx _]. by rewrite queue_tasks_ids.
  - intros c Hc. apply (ww_acyclic _ Hwf c). revert Hc. generalize c at 2 4. intros b Hc.
    induction Hc as [x y H|x m y H _ IH]; [apply tc_once|eapply tc_l; [|done]];
      destruct H as (t & Ht & Eb & Ha); destruct (Hel t Ht) as (r & Hr & Ei & Ea);
      rewrite Ea in Ha; apply list_elem_of_filter in Ha as [_ Ha];
      destruct (queue_row _ _ _ _ Hq Hr) as [Hrow Hread]; apply task_deps_elem;
      exists (tr_row r); (split; [by apply queue_of_elem in Hrow as [_ ?]|]); cbn;
      (split; [unfold tr_id in Ei; congruence|]); unfold after_of; by rewrite (rd_after _ _ Hread).
Qed.

(** ** The next task *)

(** Nothing [t] waits for is open, and no file of it is held. *)
Definition claimable (holders : list (string * list string)) (d : db) (t : work_task) : Prop :=
  waiting_in (after_of t) d = [] ∧ first_conflict (files_of t) holders = None.

Lemma takes_claimable scope d rs holders x u :
  queue_read scope d rs →
  takes (queue_tasks rs) ((λ t, negb (bool_decide (waiting_in (tr_after t) d = []))) <$> rs) holders x u ↔
  ∃ r, rs !! x = Some r ∧ u = order_task (tr_id <$> rs) x r ∧ claimable holders d (tr_row r).
Proof.
  intros Hq. unfold takes, claimable. rewrite queue_tasks_lookup, list_lookup_fmap.
  destruct (rs !! x) as [r|] eqn:E; cbn; [|naive_solver].
  destruct (queue_row _ _ _ r Hq) as [_ Hr]; [by eapply list_elem_of_lookup_2|].
  assert (after_of (tr_row r) = tr_after r) as Ea by (unfold after_of; by rewrite (rd_after _ _ Hr)).
  pose proof (files_of_parse _ _ (rd_files _ _ Hr)) as Ef. split.
  - intros (Eu & Hw & Hc). exists r. simplify_eq. guards. by rewrite Ea, Ef.
  - intros (r' & Er & -> & Hw & Hc). simplify_eq. rewrite Ea in Hw. rewrite Ef in Hc.
    split_and!; try done. by rewrite bool_decide_true.
Qed.

(** What [next_in] returns. *)
Definition next_result (now : Z) (actor : string) (scope : option string) (policy : OrderPolicy)
    (d : db) (r : NextOutcome) (d' : db) : Prop :=
  ∃ hs rs g, holders_in now (Some actor) d = Ok (hs, d) ∧ queue_read scope d rs ∧
    Graph_new (queue_tasks rs) = Ok g ∧
    match no_claimed r with
    | Some c => ∃ i x q, o_order (order g policy) !! i = Some x ∧ rs !! x = Some q ∧
        claimable hs d (tr_row q) ∧
        (∀ j y u, j < i → o_order (order g policy) !! j = Some y → rs !! y = Some u →
           ¬ claimable hs d (tr_row u)) ∧
        tr_id c = tr_id q ∧ tr_state c = TClaimed ∧ tr_agent c = Some actor ∧
        find_task (tr_id c) d' = Some (tr_row c)
    | None => d' = d ∧ ∀ t, t ∈ queue_of scope d → ¬ claimable hs d t
    end.

Lemma scan_none_claimable scope d rs g policy hs :
  queue_read scope d rs → Graph_new (queue_tasks rs) = Ok g →
  (∀ y u, y ∈ o_order (order g policy) →
    ¬ takes (queue_tasks rs) ((λ t, negb (bool_decide (waiting_in (tr_after t) d = []))) <$> rs) hs y u) →
  ∀ t, t ∈ queue_of scope d → ¬ claimable hs d t.
Proof.
  intros Hq Hg Hno t Ht Hc. rewrite <- (qr_rows _ _ _ Hq) in Ht.
  apply list_elem_of_fmap in Ht as (r & -> & [x Hx]%list_elem_of_lookup).
  apply (Hno x (order_task (tr_id <$> rs) x r)).
  - rewrite (order_perm _ _ _ Hg). apply elem_of_seq. apply lookup_lt_Some in Hx.
    unfold queue_tasks. rewrite length_imap. lia.
  - apply (takes_claimable scope); [done|]. by exists r.
Qed.

Lemma take_row now id actor d t d' :
  work_wf (work d) → find_task id d = Some t → w_state t = "queued" → take now id actor d = Ok (tt, d') →
  ∃ t', find_task id d' = Some t' ∧ w_id t' = id ∧ w_state t' = "claimed" ∧
    cl_agent (w_claim t') = Some actor.
Proof.
  intros Hwf Hf Hs H. pose proof (find_task_Some _ _ _ Hf) as [_ Hid].
  unfold take in H. wstep H. rewrite Hf in H. repeat wstep H.
  set (f t := with_claim "claimed" (mk_task_claim (Some actor) None (Some now) (cl_requested (w_claim t))) t).
  exists (f t). split; [|done]. pose proof (find_task_update id f d id ltac:(done)) as E.
  rewrite decide_True, Hf in E by done. exact E.
Qed.

(** A claimable task of the queue is taken and read back. *)
Lemma take_claimable now actor role scope d rs hs q :
  work_wf (work d) → queue_read scope d rs → holders_in now (Some actor) d = Ok (hs, d) → q ∈ rs →
  claimable hs d (tr_row q) → ∃ c d', take now (tr_id q) actor d = Ok (tt, d') ∧
    load_task (tr_id q) d' = Ok (c, d') ∧ body_ok (ByAgent actor role) d d' ∧ tr_id c = tr_id q ∧
    tr_state c = TClaimed ∧ tr_agent c = Some actor ∧ find_task (tr_id c) d' = Some (tr_row c).
Proof.
  intros Hwf Hq Hhs Hin Hc. destruct (queue_row scope d rs q Hq Hin) as [Hrow Hread].
  apply queue_of_elem in Hrow as [[Hst _] Hrow]. pose proof (find_task_elem d _ (ww_ids _ Hwf) Hrow) as Hf.
  destruct (take_total now _ actor d _ Hf Hst) as [d' Ht].
  assert (body_ok (ByAgent actor role) d d') as Hbody.
  { eapply take_ok; [apply is_agent_self|done| |done]. intros t Hft. rewrite Hf in Hft. simplify_eq.
    intros u Hu Hh. destruct (proj2 (holders_in_Ok _ _ _ _ _ Hhs) u Hu Hh) as [->|Hin'].
    - by intros ? ? _ ?%not_elem_of_nil.
    - by apply (proj1 (first_conflict_None _ _) (proj2 Hc) _ _ Hin'). }
  destruct (take_row now _ actor d _ d' Hwf Hf Hst Ht) as (t' & Hf' & Hid' & Hst' & Hag).
  destruct (load_task_total _ _ _ (proj1 Hbody) Hf') as (c & Hl & Ec).
  destruct (load_task_Ok _ _ _ _ Hl) as (_ & Hfc & Hrc & Hidc). exists c, d'. split_and!; try done.
  - pose proof (rd_state _ _ Hrc) as Hs. rewrite Ec, Hst' in Hs. by injection Hs.
  - unfold tr_agent. by rewrite Ec.
  - by rewrite Hidc.
Qed.

Lemma next_in_total now actor role scope policy d :
  work_wf (work d) → ∃ r d', next_in now actor scope policy d = Ok (r, d') ∧
    body_ok (ByAgent actor role) d d' ∧ next_result now actor scope policy d r d'.
Proof.
  intros Hwf. destruct (queued_in_scope_total scope d Hwf) as (rs & Hrs & Hq).
  destruct (queue_graph _ _ _ Hwf Hq) as (g & Hg & Et). destruct (holders_in_total now (Some actor) d Hwf) as [hs Hhs].
  unfold next_in, mbind, tx_bind. rewrite Hrs. case_bool_decide as Hlen.
  - eexists _, d. split; [reflexivity|]. split; [by apply body_ok_same|].
    exists hs, rs, g. cbn. split_and!; try done. apply nil_length_inv in Hlen as ->.
    intros t Ht. rewrite <- (qr_rows _ _ _ Hq) in Ht. by apply not_elem_of_nil in Ht.
  - unfold query at 1, lift at 1. fold (queue_tasks rs). rewrite Hg, Hhs, Et.
    pose proof (scan_spec (queue_tasks rs) ((λ t, negb (bool_decide (waiting_in (tr_after t) d = []))) <$> rs)
      hs 0 0 (o_order (order g policy))) as Hscan. destruct (scan _ _ _ _ _ _) as [[[id|] b] h].
    + destruct Hscan as (i & x & t & Hi & Hx & <- & Hbefore).
      apply (takes_claimable scope) in Hx as (q & Hx & -> & Hc); [|done].
      destruct (take_claimable now actor role scope d rs hs q) as (c & d' & Ht & Hl & Hbody & Hres);
        [done..|by eapply list_elem_of_lookup_2|done|].
      change (t_id (order_task (tr_id <$> rs) x q)) with (tr_id q). rewrite Ht, Hl.
      exists (mk_next_outcome (Some c) ""), d'. split; [done|]. split; [done|].
      exists hs, rs, g. split_and!; try done. cbn. exists i, x, q. split_and!; try apply Hres; try done.
      intros j y u Hj Hy Hu Hcu. apply (Hbefore j y (order_task (tr_id <$> rs) y u) Hj Hy).
      apply (takes_claimable scope); [done|]. by exists u.
    + eexists _, d. split; [reflexivity|]. split; [by apply body_ok_same|].
      exists hs, rs, g. split_and!; try done. cbn. split; [done|]. by eapply scan_none_claimable.
Qed.

Lemma work_next_ok now op d r d' :
  work_wf (work d) → work_next now op d = Ok (r, d') → agent_step op now d d'.
Proof.
  intros Hwf H. unfold work_next in H. do 3 wstep H.
  destruct (next_in_total now (actor_hex op) role (non_empty (nx_scope a)) (nx_policy a) (with_nonce now op d) Hwf)
    as (r' & d1 & Hn & Hbody & _).
  apply tx_bind_Ok in H as (? & d2 & Hscope & H).
  assert (d2 = with_nonce now op d) as ->.
  { destruct (non_empty _); [|by wstep Hscope]. wstep Hscope. by apply scope_exists_Ok in Hscope as [-> _]. }
  rewrite Hn in H. simplify_eq. by eapply agent_step_intro.
Qed.
End Next.
