(* ===== verification/WorkAdd.v ===== *)
(** * The work queue: new tasks and requests

    [work_ops/add.rs] and [request.rs]: a task that is added is well formed and
    its prerequisites and scope exist; a request records the prediction of a
    command that its claimant accepted. *)

From Stdlib Require Import Ascii.
From stdpp Require Import relations.
From S2P Require Import Prelude F64 Strs PyFmt Bytes Core Crypto Task Graph Order Claims Settings.
From S2P Require Import Predict Signature StoreDb Identity Leases Policy Board BoardLog WorkRow Work.
From S2P Require Import WorkInv WorkSteps.

Section Add.
Context `{P : Prims} `{LC : LeaseCodec} `{C : WorkCodec} {CL : WorkCodecLaws C}.

(** ** The checks *)

(** Canonical paths. *)
Definition canonical (files : list string) : Prop :=
  ∃ wss, files = path_of <$> wss ∧ Forall (Forall clean) wss.

Lemma canonical_path_Ok raw cwd home p : canonical_path raw cwd home = Ok p → canonical [p].
Proof.
  unfold canonical_path. destruct (_ || _); [done|]. intros [= <-].
  destruct (normalise_clean (if starts_with "/" (expand_home raw home) then expand_home raw home
    else cwd +:+ "/" +:+ expand_home raw home)) as (ws & Hws & ->).
  exists [ws]. by repeat constructor.
Qed.

Lemma canonical_nil : canonical [].
Proof. exists []. by split; [|constructor]. Qed.

Lemma canonical_app a b : canonical a → canonical b → canonical (a ++ b).
Proof.
  intros (x & -> & Hx) (y & -> & Hy). exists (x ++ y). rewrite fmap_app. split; [done|by apply Forall_app].
Qed.

Lemma add_files_Ok role cwd raws files d fs d' :
  canonical files → add_files role cwd raws files d = Ok (fs, d') → d' = d ∧ canonical fs.
Proof.
  revert files. induction raws as [|raw raws IH]; intros files Hc H; cbn [add_files] in H.
  { apply mret_Ok in H as [-> ->]. done. }
  repeat wstep H. apply IH in H; [done|]. case_bool_decide; [done|].
  apply canonical_app; [done|by eapply canonical_path_Ok].
Qed.

Lemma check_names_Ok what l d u d' : check_names what l d = Ok (u, d') → d' = d.
Proof.
  induction l as [|x l IH]; cbn [check_names]; intros H; [by apply mret_Ok in H as [_ ->]|]. wstep H. auto.
Qed.

Lemma check_prereqs_Ok id l d u d' :
  check_prereqs id l d = Ok (u, d') → d' = d ∧ ∀ x, x ∈ l → task_exists x d = true.
Proof.
  induction l as [|y l IH]; cbn [check_prereqs]; intros H.
  { apply mret_Ok in H as [_ ->]. split; [done|]. by intros x ?%not_elem_of_nil. }
  repeat wstep H. guards. apply IH in H as [-> H]. split; [done|].
  by intros x [->|Hx]%elem_of_cons; auto.
Qed.

Lemma check_cwd_Ok h cwd d r d' : check_cwd h cwd d = Ok (r, d') → d' = d.
Proof.
  unfold check_cwd. intros H. destruct (non_empty cwd); [|by wstep H].
  repeat wstep H. done.
Qed.

Lemma check_card_Ok card actor role d u d' : check_card card actor role d = Ok (u, d') → d' = d.
Proof. unfold check_card. intros H. wstep H. destruct (c_owner <$> _); [|done]. by apply guard_Ok in H as [_ ->]. Qed.

Lemma new_id_Ok prefix d id d' : new_id prefix d = Ok (id, d') → d' = d.
Proof. unfold new_id. intros H. wstep H. by apply lift_Ok in H as [_ ->]. Qed.

(** What a task that was inserted has passed. *)
Record inserted (now : Z) (h : Host) (actor : string) (add : AddArgs) (place : Placement)
    (id : string) (d d' : db) : Prop := {
  in_new : task_exists id d = false;
  in_task : ∃ after files size value cwd s, let scope := non_empty (ad_scope add) in
    canonical files ∧ (∀ x, x ∈ after → task_exists x d = true) ∧
    (∀ x, scope = Some x → scope_known x d = true) ∧
    (is_inline place = true → is_Some (ad_command add) ∧
      ∀ t, t ∈ work_tasks (work d) → holds_files t → apart files (files_of t)) ∧
    work d' = work (insert_work_task (new_task now actor id add scope after files size value cwd
                (is_inline place) s) d) }.

(** The statements of [insert_task] that only check. *)
Lemma check_fits_Ok (place : Placement) w e d u d' :
  match place with PlaceInline cpus => guard (f_lt (f_max cpus (f_of_Z 1)) w) (e cpus) | PlaceQueued => mret tt end
    d = Ok (u, d') → d' = d.
Proof. destruct place; [by intros [_ ->]%mret_Ok|by intros [_ ->]%guard_Ok]. Qed.

Lemma check_command_Ok inline (command : option (list string)) e d u d' :
  match command with None => guard inline e | Some argv => refuse (check_command argv) end d = Ok (u, d') →
  d' = d ∧ (inline = true → is_Some command).
Proof.
  destruct command; [intros [_ ->]%refuse_Ok; eauto|]. intros [-> ->]%guard_Ok. done.
Qed.

Lemma check_scope_Ok scope d u d' :
  match scope with
  | Some name => refuse (validate_name "scope" name) ≫= λ _, scope_exists name
  | None => mret tt
  end d = Ok (u, d') → d' = d ∧ ∀ x, scope = Some x → scope_known x d = true.
Proof.
  destruct scope as [name|]; intros H; [|by apply mret_Ok in H as [_ ->]].
  wstep H. apply scope_exists_Ok in H as [-> Hk]. split; [done|]. by intros x [= <-].
Qed.

Lemma check_id_Ok id prefix d r d' :
  match id with
  | Some id => refuse (validate_name "task" id) ≫= λ _, mret id
  | None => new_id prefix
  end d = Ok (r, d') → d' = d.
Proof. destruct id; intros H; [by repeat wstep H|by apply new_id_Ok in H]. Qed.

Lemma insert_task_Ok now h actor role add place d id d' :
  insert_task now h actor role add place d = Ok (id, d') → inserted now h actor add place id d d'.
Proof.
  unfold insert_task. intros H. do 3 wstep H. step check_fits_Ok in H as ? ->. do 2 wstep H.
  step check_command_Ok in H as ? [-> Hcmd]. step check_cwd_Ok in H as cwd ->. do 3 wstep H.
  step (add_files_Ok _ _ _ []) in H as files [-> Hcan]; [|apply canonical_nil]. wstep H.
  step check_names_Ok in H as ? ->. step check_scope_Ok in H as ? [-> Hscope].
  apply tx_bind_Ok in H as (? & d1 & Hcard & H).
  assert (d1 = d) as ->.
  { destruct (non_empty (ad_card add)); [by apply check_card_Ok in Hcard|by apply mret_Ok in Hcard as [_ ->]]. }
  step check_id_Ok in H as id' ->. do 2 wstep H. step check_prereqs_Ok in H as ? [-> Hafter].
  apply tx_bind_Ok in H as (? & d1 & Hfiles & H).
  assert (d1 = d ∧ (is_inline place = true → ∀ t, t ∈ work_tasks (work d) → holds_files t → apart files (files_of t)))
    as [-> Hfree].
  { destruct (is_inline place); [|by apply mret_Ok in Hfiles as [_ ->]].
    apply check_files_Ok in Hfiles as [-> ?]. done. }
  do 2 wstep H. apply tx_bind_Ok in H as (? & d1 & Hev & H). wstep H. subst id'.
  constructor; [done|]. eexists (once (ad_after add)), files, _, _, cwd, _. cbn zeta. split_and!; try done.
  - intros Hi. split; auto.
  - match type of Hev with _ ?d0 = _ => transitivity (work d0); [|reflexivity] end.
    destruct (is_inline place); [by wstep Hev|by apply mret_Ok in Hev as [_ ->]].
Qed.

(** ** New rows *)

Lemma new_task_wf now actor id add scope after files size value cwd inline s seq :
  canonical files → (inline = true → is_Some (ad_command add)) →
  task_wf (new_task now actor id add scope after files size value cwd inline s seq).
Proof.
  intros (wss & -> & Hcl) Hcmd. constructor; try done; cbn.
  - destruct inline; [exists TClaimed|exists TQueued]; (split; [done|]); cbn; [|done].
    split_and!; eauto. by intros [].
  - rewrite list_json_parse. eauto.
  - by exists wss.
  - intros raw. destruct (ad_command add) as [argv|]; intros [= <-]. rewrite list_json_parse. eauto.
Qed.

(** A task is there after it was inserted, the others are as they were. *)
Lemma inserted_ok now h actor add place id d d' :
  work_wf (work d) → inserted now h actor add place id d d' →
  work_wf (work d') ∧ (∀ id', id' ≠ id → view_at id' d' = view_at id' d) ∧ view_at id d = None ∧
  ∃ fx, fx_author fx = actor ∧ (is_inline place = true → is_Some (fx_command fx)) ∧
    view_at id d' = Some (if is_inline place then mk_tview TClaimed (Some actor) (Some actor) false fx
                          else mk_tview TQueued None None false fx).
Proof.
  intros Hwf [Hnew (after & files & size & value & cwd & s & Hcan & Hafter & Hscope & Hinl & E)]. cbn zeta in *.
  set (mk := new_task now actor id add (non_empty (ad_scope add)) after files size value cwd (is_inline place) s) in *.
  assert (∀ id', find_task id' d' = match find_task id' d with
    | Some u => Some u | None => if decide (id = id') then Some (mk (work_seq (work d) + 1)%Z) else None end) as Hfind.
  { intros id'. transitivity (find_task id' (insert_work_task mk d)); [unfold find_task; by rewrite E|].
    apply (find_app w_id). }
  assert (find_task id d = None) as Hnone.
  { destruct (find_task id d) as [u|] eqn:Eu; [|done]. apply find_task_Some in Eu.
    by rewrite (proj2 (task_exists_true id d)) in Hnew by (by exists u). }
  assert (files_of (mk (work_seq (work d) + 1)%Z) = files) as Ef
    by (apply files_of_parse; cbn; apply list_json_parse).
  split_and!.
  - rewrite E. apply work_wf_insert; try done.
    + apply new_task_wf; [done|]. intros Hi. by apply Hinl.
    + intros x Hx. apply task_exists_true, Hafter. unfold after_of in Hx. cbn in Hx. by rewrite list_json_parse in Hx.
    + intros x Hx. by apply scope_known_true, Hscope.
    + rewrite Ef. destruct (is_inline place) eqn:Ei; [intros _; by apply Hinl|]. by intros [?|?].
  - intros id' Hne. unfold view_at. rewrite Hfind. destruct (find_task id' d); [done|]. by rewrite decide_False.
  - unfold view_at. by rewrite Hnone.
  - exists (fixed_of (mk 0%Z)). split; [done|]. split.
    + intros Hi. cbn. destruct (Hinl Hi) as [[argv ->] _]. eauto.
    + unfold view_at. rewrite Hfind, Hnone, decide_True by done. cbn.
      unfold mk, new_task, view_of, fixed_of. by destruct (is_inline place).
Qed.

Lemma work_add_ok now h op d r d' :
  work_wf (work d) → work_add now h op d = Ok (r, d') → agent_step op now d d'.
Proof.
  intros Hwf H. unfold work_add in H. do 3 wstep H. apply insert_task_Ok in H.
  destruct (inserted_ok _ _ _ _ _ _ (with_nonce now op d) _ Hwf H) as (Hwf' & Hother & Hnone & fx & Ha & _ & Hv).
  eapply agent_step_intro; [done..|]. split; [done|]. intros id.
  destruct (decide (id = r)) as [->|Hne]; [right|left; by apply Hother].
  rewrite Hnone, Hv. apply wl_add. rewrite Ha. apply is_agent_self.
Qed.

(** ** Requests *)

Lemma check_runnable_Ok t actor d u d' :
  check_runnable t actor d = Ok (u, d') →
  d' = d ∧ is_Some (tr_command t) ∧ is_claimed t = true ∧ is_requested t = false ∧
  tr_agent t = Some actor ∧ tr_accepted t = Some actor.
Proof.
  unfold check_runnable. intros H. do 5 wstep H. apply guard_Ok in H as [Hacc ->]. guards.
  split_and!; try done; [by apply not_eq_None_Some|].
  apply andb_false_iff in H0 as [E|E]; [congruence|done].
Qed.

Lemma check_request_Ok op actor t named s d u d' :
  check_request op actor t named s d = Ok (u, d') → d' = d.
Proof. unfold check_request. intros H. do 2 wstep H. by apply guard_Ok in H as [_ ->]. Qed.

Lemma reserve_ok now h t actor cpus log_dir d u d' :
  work_wf (work d) → find_task (tr_id t) d = Some (tr_row t) → reads (tr_row t) t →
  is_Some (tr_command t) → is_claimed t = true → is_requested t = false →
  tr_agent t = Some actor → tr_accepted t = Some actor → reserve now h t actor cpus log_dir d = Ok (u, d') →
  work_wf (work d') ∧ (∀ id', id' ≠ tr_id t → view_at id' d' = view_at id' d) ∧
  is_Some (fx_command (fixed_of (tr_row t))) ∧
  view_at (tr_id t) d = Some (mk_tview TClaimed (Some actor) (Some actor) false (fixed_of (tr_row t))) ∧
  view_at (tr_id t) d' = Some (mk_tview TClaimed (Some actor) (Some actor) true (fixed_of (tr_row t))).
Proof.
  intros Hwf Hf Hr Hcmd Hcl Hrq Hag Hacc H. unfold reserve in H. repeat wstep H.
  destruct (claimed_view _ _ _ Hwf Hf Hr) as (b & Eb & _ & _ & Hst & Hcol & Hv); [done..|].
  apply (read_command _ _ Hr) in Hcmd. assert (b = actor) as -> by congruence. rewrite Hacc in Hv.
  pose proof (find_task_Some _ _ _ Hf) as [Hin _]. pose proof (ww_task _ Hwf _ Hin) as Ht.
  set (f := with_request _ _ _ _). set (d1 := logged _ _ _ _ _ _).
  assert (∀ id', find_task id' d1 = (if decide (id' = tr_id t) then f else λ t, t) <$> find_task id' d) as Hfind.
  { intros id'. by apply (find_task_update (tr_id t) f d). }
  split_and!; [| | done| |].
  - change (work d1) with (work (update_task (tr_id t) f d)). eapply work_wf_keep; try done.
    destruct Ht as [_ Ha Hfiles Hc _ Hfit]. constructor; try done.
    + exists TClaimed. split; [done|]. unfold tr_agent, tr_accepted in *. cbn in *. naive_solver.
    + cbn. intros raw [= <-]. apply prediction_json_parse.
  - intros id' Hne. unfold view_at. rewrite Hfind, decide_False by done. by destruct (find_task id' d).
  - unfold view_at. rewrite Hf. done.
  - unfold view_at. rewrite Hfind, decide_True, Hf by done. cbn [fmap option_fmap option_map mbind option_bind].
    rewrite (view_of_state TClaimed) by done. unfold tr_agent, tr_accepted in *. cbn. by rewrite Hag, Hacc.
Qed.

Lemma work_request_ok now h op cpus log_dir d r d' :
  work_wf (work d) → work_request now h op cpus log_dir d = Ok (r, d') → agent_step op now d d'.
Proof.
  intros Hwf H. unfold work_request in H. do 5 wstep H. apply tx_bind_Ok in H as (id & d1 & Hins & H).
  wstep H. step check_runnable_Ok in H as ? (-> & Hcmd & Hcl & Hrq & Hag & Hacc).
  step check_request_Ok in H as ? ->. apply tx_bind_Ok in H as (? & d2 & Hres & H). wstep H. subst r id.
  eapply agent_step_intro; [done..|].
  destruct (ra_task a) as [task|], (ra_add a) as [add|]; try done.
  - repeat wstep Hins.
    destruct (reserve_ok _ _ _ _ _ _ (with_nonce now op d) _ _ Hwf Hfind Hread Hcmd Hcl Hrq Hag Hacc Hres)
      as (Hwf' & Hother & Hfc & Hv & Hv'). split; [done|]. intros id.
    destruct (decide (id = tr_id t)) as [->|Hne]; [right|left; by apply Hother].
    rewrite Hv, Hv'. apply wl_request; [apply is_agent_self|done].
  - apply insert_task_Ok in Hins.
    destruct (inserted_ok _ _ _ _ _ _ (with_nonce now op d) _ Hwf Hins) as (Hwf1 & Hother1 & Hnone & fx & Ha & _ & Hv1).
    destruct (reserve_ok _ _ _ _ _ _ d1 _ _ Hwf1 Hfind Hread Hcmd Hcl Hrq Hag Hacc Hres)
      as (Hwf' & Hother & Hfc & Hv & Hv'). split; [done|]. intros id.
    destruct (decide (id = tr_id t)) as [->|Hne]; [right|left; by rewrite Hother, Hother1].
    rewrite Hnone, Hv'. rewrite Hv1 in Hv. cbn in Hv. injection Hv as ->. rewrite <- Ha. 
    apply wl_inline; [rewrite Ha; apply is_agent_self|done].
Qed.
End Add.
