(* ===== verification/WorkEdit.v ===== *)
(** * The work queue: updates and scopes

    [work_ops/edit.rs] and [scope.rs]: an update keeps the prerequisites known
    and without a cycle, and a scope is never put under itself. *)

From Stdlib Require Import Ascii.
From stdpp Require Import relations.
From S2P Require Import Prelude F64 Strs PyFmt Bytes Core Crypto Task Graph Order Claims Settings.
From S2P Require Import Predict Signature StoreDb Identity Leases Policy Board BoardLog WorkRow Work.
From S2P Require Import WorkInv WorkSteps.

(** One edge more, into a place its source cannot be reached from. *)
Lemma acyclic_add {A} (R R' : relation A) a b :
  (∀ x y, R' x y → R x y ∨ x = a ∧ y = b) → (∀ c, ¬ tc R c c) → ¬ rtc R b a → ∀ c, ¬ tc R' c c.
Proof.
  intros Hsub Hac Hnr.
  assert (∀ x y, tc R' x y → tc R x y ∨ rtc R x a ∧ rtc R b y) as H.
  { intros x y H. induction H as [x y H|x m y H _ IH]; apply Hsub in H as [H|[-> ->]].
    - left. by apply tc_once.
    - right. by split.
    - destruct IH as [IH|[IH ?]]; [left; by eapply tc_l|right; split; [by eapply rtc_l|done]].
    - destruct IH as [IH|[IH ?]]; [right; split; [done|by apply tc_rtc]|done]. }
  intros c [Hc|[H1 H2]]%H; [by eapply Hac|]. apply Hnr. by etrans.
Qed.

Lemma acyclic_sub {A} (R R' : relation A) :
  (∀ x y, R' x y → R x y) → (∀ c, ¬ tc R c c) → ∀ c, ¬ tc R' c c.
Proof.
  intros Hsub Hac c Hc. apply (Hac c). revert Hc. generalize c at 2 4. intros y Hc.
  induction Hc as [x y H|x m y H _ IH]; [by apply tc_once, Hsub|]. eapply tc_l; [by apply Hsub|done].
Qed.

Section Edit.
Context `{P : Prims} `{LC : LeaseCodec} `{C : WorkCodec} {CL : WorkCodecLaws C}.

(** ** Prerequisites *)

Lemma validate_after_Ok id l d after d' :
  validate_after id l d = Ok (after, d') → d' = d ∧ ∀ x, x ∈ after → task_exists x d = true.
Proof.
  unfold validate_after. intros H. wstep H. apply tx_bind_Ok in H as (v & d1 & Hgo & H).
  apply mret_Ok in H as [-> ->]. clear Hg. revert Hgo.
  induction (once l) as [|y l' IH]; intros H.
  { apply mret_Ok in H as [_ ->]. split; [done|]. by intros x ?%not_elem_of_nil. }
  repeat wstep H. guards. apply IH in H as [-> H]. split; [done|].
  by intros x [->|Hx]%elem_of_cons; auto.
Qed.

(** The prerequisites of the tasks once those of [id] are [after]. *)
Definition after_with (id : string) (after : list string) (t : work_task) : list string :=
  if decide (w_id t = id) then after else after_of t.

Lemma check_cycles_Ok id after d u d' :
  check_cycles id after d = Ok (u, d') →
  d' = d ∧ deps_acyclic (work_tasks (work d) ≫= λ t, mk_dep (w_id t) <$> after_with id after t).
Proof.
  unfold check_cycles. intros H. do 2 wstep H. apply lift_Ok in H as [H ->]. split; [done|].
  destruct (Graph_new _) as [g|] eqn:Hg; [|done]. apply try_map_Ok in Hl. intros c Hc.
  apply (graph_id_acyclic _ g c Hg). revert Hc. generalize c at 2 4. intros b Hc.
  assert (∀ x y, dep_edge (work_tasks (work d) ≫= λ t, mk_dep (w_id t) <$> after_with id after t) x y →
    id_edge (imap with_index a) x y) as Hedge.
  { intros x y (t & (z & [= -> ->] & Hx)%list_elem_of_fmap & [i Hi]%list_elem_of_lookup)%list_elem_of_bind.
    eapply Forall2_lookup_l in Hl as (k & Hk & Ek); [|done].
    exists (with_index i k). unfold cycle_task in Ek. apply result_bind_Ok in Ek as (l & El & [= <-]).
    split; [eapply list_elem_of_lookup_2; by rewrite list_lookup_imap, Hk|]. split; [done|]. cbn.
    unfold after_with in Hx. case_bool_decide as Ed; [by rewrite decide_True in Hx; simplify_eq|].
    rewrite decide_False in Hx by done. unfold stored_list, ok_or in El. unfold after_of in Hx.
    destruct (parse_files _); by simplify_eq. }
  induction Hc as [x y H'|x m y H' _ IH]; [by apply tc_once, Hedge|]. eapply tc_l; [by apply Hedge|done].
Qed.

Lemma task_deps_with f id after ts :
  (∀ t, w_id (f t) = w_id t) → (∀ t, t ∈ ts → w_id t = id → after_of (f t) = after) →
  task_deps (map (λ t, if decide (w_id t = id) then f t else t) ts) =
  ts ≫= λ t, mk_dep (w_id t) <$> after_with id after t.
Proof.
  intros Hi Ha. unfold task_deps. induction ts as [|t ts IH]; [done|]. cbn [map].
  rewrite !bind_cons, IH by (intros; apply Ha; [by right|done]). f_equal.
  unfold after_with. case_decide; [|done]. by rewrite Hi, Ha by (done || by left).
Qed.

(** ** Updates *)

(** A change of one task that may change its prerequisites. *)
Lemma edit_ok f by' d id t after d' :
  work_wf (work d) → find_task id d = Some t → work d' = work (update_task id f d) → keeps_row f →
  w_files (f t) = w_files t → sp_scope (w_spec (f t)) = sp_scope (w_spec t) →
  sp_command (w_spec (f t)) = sp_command (w_spec t) → w_sigs (f t) = w_sigs t →
  columns_fit (f t) = columns_fit t → parse_files (sp_after (w_spec (f t))) = Some after →
  (∀ x, x ∈ after → task_exists x d = true) →
  after = after_of t ∨ deps_acyclic (work_tasks (work d) ≫= λ t, mk_dep (w_id t) <$> after_with id after t) →
  (∃ s, w_state (f t) = TaskState_as_str s ∧ columns_of_state s (f t)) →
  (holds_files (f t) → holds_files t ∨ clear_of d t) →
  view_of (f t) = view_of t ∨ wlife by' (view_of t) (view_of (f t)) → body_ok by' d d'.
Proof.
  intros Hwf Hf E Hk Efi Esc Eco Esg Efit Eaf Hkn Hac Hs Hh Hv.
  eapply (body_ok_to _ _ (update_task id f d)); [|done]. split; [|by eapply work_step_update].
  pose proof (find_task_Some _ _ _ Hf) as [Hin Hid]. destruct (ww_task _ Hwf t Hin) as [_ _ Hfi Hc Hp Hfit].
  assert (after_of (f t) = after) as Ea by (unfold after_of; by rewrite Eaf).
  eapply work_wf_update; try done.
  - constructor; [done|by eexists|by rewrite Efi|by rewrite Eco|by rewrite Esg|by rewrite Efit].
  - rewrite Ea. intros x Hx. by apply task_exists_true, Hkn.
  - assert (∀ u, u ∈ work_tasks (work d) → w_id u = id → u = t) as Huniq.
    { intros u Hu Hui. apply (key_inj w_id (work_tasks (work d))); [apply Hwf|done..|congruence]. }
    rewrite (task_deps_with f id after); [|apply Hk|intros u Hu Hui; by rewrite (Huniq u)].
    destruct Hac as [->|Hac]; [|done].
    rewrite <- (task_deps_with (λ t, t) id (after_of t)); [|done|intros u Hu Hui; by rewrite (Huniq u)].
    rewrite (task_deps_same (λ t, t)) by done. apply Hwf.
  - intros Hhf. destruct (Hh Hhf) as [?|Hcl]; [by left|right]. intros u Hu Hhu _. by apply Hcl.
Qed.

(** Where an update may put a task. *)
Inductive placed (now : Z) (actor : string) (role : Role) (d : db) (t : TaskRecord) :
    TaskState * option string * option Z → Prop :=
| placed_same : placed now actor role d t (tr_state t, tr_agent t, tr_claimed t)
| placed_queue : is_claimed t = true → is_requested t = false → placed now actor role d t (TQueued, None, None)
| placed_agent pk :
    role_le Supervisor role = true → is_requested t = false →
    (tr_state t = TQueued → ∀ u, u ∈ work_tasks (work d) → holds_files u → apart (tr_files t) (files_of u)) →
    placed now actor role d t (TClaimed, Some pk, Some now).

Lemma assign_Ok now t after pk d r d' :
  assign now t after pk d = Ok (r, d') →
  d' = d ∧ r = (TClaimed, Some pk, Some now) ∧ is_requested t = false ∧
  (tr_state t = TQueued → ∀ u, u ∈ work_tasks (work d) → holds_files u → apart (tr_files t) (files_of u)).
Proof.
  unfold assign. intros H. destruct (unhex32 pk); [|done]. do 3 wstep H.
  apply tx_bind_Ok in H as (? & d1 & Hb & H). wstep H. case_bool_decide as Es.
  - apply claim_block_Ok in Hb as (-> & _ & Hc). done.
  - wstep Hb. done.
Qed.

Lemma update_place_Ok now actor role t after o e d r d' :
  match o with
  | None => mret (tr_state t, tr_agent t, tr_claimed t)
  | Some None => guard (negb (is_claimed t) || is_requested t) e ≫= λ _, mret (TQueued, None, None)
  | Some (Some pk) => guard (role_lt role Supervisor) (forbidden role) ≫= λ _, assign now t after pk
  end d = Ok (r, d') → d' = d ∧ placed now actor role d t r.
Proof.
  intros H. destruct o as [[pk|]|].
  - wstep H. apply assign_Ok in H as (-> & -> & Hrq & Hc). split; [done|]. constructor; try done.
    unfold role_lt, role_le in *. apply Nat.ltb_ge in Hg. by apply Nat.leb_le.
  - repeat wstep H. guards. subst. split; [done|]. by constructor.
  - wstep H. subst. split; [done|]. constructor.
Qed.

Lemma update_after_Ok id o (known : list string) d after d' :
  match o with
  | Some l => after ← validate_after id l; check_cycles id after ≫= λ _, mret after
  | None => mret known
  end d = Ok (after, d') → d' = d ∧
  (after = known ∨ (∀ x, x ∈ after → task_exists x d = true) ∧
    deps_acyclic (work_tasks (work d) ≫= λ t, mk_dep (w_id t) <$> after_with id after t)).
Proof.
  destruct o as [l|]; intros H; [|by apply mret_Ok in H as [-> ->]; auto].
  step validate_after_Ok in H as after' [-> Hk]. step check_cycles_Ok in H as ? [-> Hac].
  apply mret_Ok in H as [-> ->]. auto.
Qed.

(** The state, the columns and the view of an updated row. *)
Lemma placed_ok now actor role d t title kind size value after state agent claimed :
  work_wf (work d) → find_task (tr_id t) d = Some (tr_row t) → reads (tr_row t) t →
  tr_state t = TQueued ∨ tr_state t = TClaimed →
  role_le Supervisor role = true ∨
    match tr_state t with TQueued => tr_author t = actor | _ => tr_agent t = Some actor end →
  placed now actor role d t (state, agent, claimed) →
  let accepted := if bool_decide (agent = tr_agent t) then tr_accepted t else None in
  let t' := with_update title kind size value after state agent claimed accepted (tr_row t) in
  columns_of_state state t' ∧ (holds_files t' → holds_files (tr_row t) ∨ clear_of d (tr_row t)) ∧
  (view_of t' = view_of (tr_row t) ∨ wlife (ByAgent actor role) (view_of (tr_row t)) (view_of t')).
Proof.
  intros Hwf Hf Hr Hs Hmay Hp accepted t'. destruct (read_columns _ _ _ Hwf Hf Hr) as [Hcol Hst].
  pose proof (view_of_read _ Hr) as Hv. rewrite (view_of_state state t' eq_refl). rewrite Hv.
  change (fixed_of t') with (fixed_of (tr_row t)). cbn.
  change (bool_decide (is_Some (cl_requested (w_claim (tr_row t))))) with (is_requested t).
  fold (is_requested t).
  inversion Hp as [E|Hc Hrq E|pk Hsup Hrq Hfree E]; subst; subst t' accepted.
  - rewrite bool_decide_true by done.
    split_and!; [|intros Hh; left; unfold holds_files in *; by rewrite Hst|by left].
    destruct Hs as [E|E]; rewrite E in *; [|exact Hcol]. destruct Hcol as (Ecl & Hns).
    split; [|done]. cbn. unfold tr_agent, tr_accepted, tr_claimed. by rewrite Ecl.
  - unfold is_claimed in Hc. guards. rewrite Hc in *.
    destruct Hcol as ((b & Eb) & _ & _ & _ & Hns & Hne). unfold tr_agent in *. rewrite Eb in *.
    assert (tr_requested t = None) as Hnr by (unfold is_requested in Hrq; guards; by apply eq_None_not_Some).
    rewrite bool_decide_false by done. unfold tr_requested in Hnr.
    split_and!; [cbn; by rewrite Hnr|by intros [?|?]|].
    right. rewrite Hrq. apply wl_requeue. destruct Hmay as [Hm|[= ->]]; [right; left; by exists actor, role|left; apply is_agent_self].
  - assert (tr_requested t = None) as Hnr by (unfold is_requested in Hrq; guards; by apply eq_None_not_Some).
    rewrite Hrq. unfold tr_requested in Hnr. assert (is_supervisor (ByAgent actor role)) by (by exists actor, role).
    destruct Hs as [Es|Es]; rewrite Es in *.
    + destruct Hcol as (Ecl & Hns & Hne). unfold tr_agent, tr_accepted in *. rewrite Ecl in *. cbn in *.
      rewrite bool_decide_false by done. split_and!; try done; eauto; [by rewrite Ecl; intros []| |].
      * intros _. right. intros u Hu Hh. rewrite (files_of_parse _ _ (rd_files _ _ Hr)). by apply Hfree.
      * right. apply wl_claim. by right.
    + destruct Hcol as ((b & Eb) & _ & Hacc & _ & Hns & Hne). unfold tr_agent, tr_accepted in *. rewrite Eb in *.
      split_and!.
      * cbn. rewrite Hnr. split_and!; eauto; [|by intros []].
        by destruct (bool_decide_reflect (Some pk = Some b)) as [[= ->]|]; [|left].
      * intros _. left. by left.
      * right. apply wl_assign. done.
Qed.

Lemma update_in_ok now actor role id args d r d' :
  work_wf (work d) → update_in now actor role id args d = Ok (r, d') →
  body_ok (ByAgent actor role) d d'.
Proof.
  intros Hwf H. unfold update_in in H. do 4 wstep H.
  apply tx_bind_Ok in H as (? & d1 & Ht & H).
  assert (d1 = d) as ->.
  { destruct (ua_title args); [by apply check_text_field_Ok in Ht|by apply mret_Ok in Ht as [_ ->]]. }
  apply tx_bind_Ok in H as (? & d1 & Hk & H).
  assert (d1 = d) as ->.
  { destruct (ua_kind args); [by apply refuse_Ok in Hk as [_ ->]|by apply mret_Ok in Hk as [_ ->]]. }
  do 2 wstep H. step update_after_Ok in H as after [-> Hafter].
  step (update_place_Ok now actor role) in H as [[state agent] claimed] [-> Hp].
  destruct (bool_decide (changed_fields args = [])); [wstep H; by apply body_ok_same|].
  repeat wstep H. guards. subst id.
  assert (tr_state t = TQueued ∨ tr_state t = TClaimed) as Hs by (destruct (tr_state t); auto; done).
  destruct (placed_ok _ _ _ _ _ (default (sp_title (w_spec (tr_row t))) (ua_title args))
    (default (sp_kind (w_spec (tr_row t))) (ua_kind args)) (default (sp_size (w_spec (tr_row t))) (ua_size args))
    (default (sp_value (w_spec (tr_row t))) (ua_value args)) after _ _ _ Hwf Hfind Hread Hs Hmay Hp)
    as (Hcol & Hholds & Hview).
  pose proof (find_task_Some _ _ _ Hfind) as [Hin _].
  assert (after_of (tr_row t) = tr_after t) as Ea by (unfold after_of; by rewrite (rd_after _ _ Hread)).
  eapply (edit_ok (with_update _ _ _ _ _ _ _ _ _)); try done.
  - cbn. apply list_json_parse.
  - intros y Hy. destruct Hafter as [->|[Hk' _]]; [|by apply Hk'].
    apply task_exists_true, (ww_known _ Hwf (tr_row t)); [done|by rewrite Ea].
  - rewrite Ea. destruct Hafter as [->|[_ ?]]; auto.
  - by exists state.
Qed.

Lemma work_update_ok now op d r d' :
  work_wf (work d) → work_update now op d = Ok (r, d') → agent_step op now d d'.
Proof.
  intros Hwf H. unfold work_update in H. do 4 wstep H. apply tx_bind_Ok in H as (? & d1 & Hu & H). wstep H.
  eapply agent_step_intro; [done..|]. by eapply update_in_ok.
Qed.

(** ** Scopes *)

Lemma find_scope_Some id d s : find_scope id d = Some s → s ∈ work_scopes (work d) ∧ sc_id s = id.
Proof.
  unfold find_scope. destruct (list_find _ _) as [[n x]|] eqn:E; [|done]. intros [= <-].
  apply list_find_Some in E as (Hl & Hid & _). split; [by eapply list_elem_of_lookup_2|done].
Qed.

Lemma find_scope_None id d s : find_scope id d = None → s ∈ work_scopes (work d) → sc_id s ≠ id.
Proof.
  unfold find_scope. destruct (list_find _ _) as [[n x]|] eqn:E; [done|].
  intros _. apply list_find_None in E. rewrite Forall_forall in E. apply E.
Qed.

(** The parent of a scope. *)
Lemma scope_edge_find d a b :
  NoDup (sc_id <$> work_scopes (work d)) →
  scope_edge (work_scopes (work d)) a b ↔ find_scope b d ≫= sc_parent = Some a.
Proof.
  intros Hd. split.
  - intros (s & Hs & Hid & Hp). destruct (find_scope b d) as [u|] eqn:E.
    + apply find_scope_Some in E as [Hu Hui]. cbn.
      by rewrite <- (key_inj sc_id (work_scopes (work d)) s u) by (done || congruence).
    + by eapply find_scope_None in E.
  - intros H. destruct (find_scope b d) as [u|] eqn:E; [|done]. apply find_scope_Some in E as [Hu Hui].
    by exists u.
Qed.

(** The walk up ends, and ends well only when it did not meet [id]. *)
Lemma parent_loop_total fuel id parent scope seen d :
  NoDup seen → (∀ x, x ∈ seen → is_Some (find_scope x d)) →
  length (work_scopes (work d)) < fuel + length seen → is_Some (parent_loop fuel id parent scope seen d).
Proof.
  assert (∀ l, NoDup l → (∀ x, x ∈ l → is_Some (find_scope x d)) → length l ≤ length (work_scopes (work d))) as Hlen.
  { intros l Hl Hk. rewrite <- (length_fmap sc_id). apply NoDup_incl_length; [by apply NoDup_ListNoDup|].
    intros x Hx%list_elem_of_In. destruct (Hk x Hx) as [s Hs]. apply find_scope_Some in Hs as [Hs <-].
    by apply list_elem_of_In, list_elem_of_fmap_2. }
  revert scope seen. induction fuel as [|fuel IH]; intros scope seen Hnd Hk Hf; [pose proof (Hlen seen Hnd Hk); lia|].
  cbn. case_bool_decide; [by eexists|]. case_bool_decide; [by eexists|].
  destruct (find_scope scope d) as [row|] eqn:E; [|by eexists]. destruct (sc_parent row) as [next|]; [|by eexists].
  apply IH; [by constructor| |cbn; lia]. intros x [->|Hx]%elem_of_cons; [by rewrite E|auto].
Qed.

Lemma parent_loop_Ok fuel id parent scope seen d :
  work_wf (work d) → (∀ x, x ∈ seen → tc (scope_edge (work_scopes (work d))) scope x) →
  parent_loop fuel id parent scope seen d = Some (Ok tt) →
  is_Some (find_scope scope d) ∧ ¬ rtc (scope_edge (work_scopes (work d))) id scope.
Proof.
  intros Hwf. revert scope seen. induction fuel as [|fuel IH]; intros scope seen Hseen; [done|]. cbn.
  case_bool_decide as Hid; [done|].
  case_bool_decide as Hin; [exfalso; by apply (ww_forest _ Hwf scope), Hseen|].
  destruct (find_scope scope d) as [row|] eqn:E; [|done]. intros H. split; [by eexists|].
  intros [->|(m & Hm & Hedge)]%rtc_inv_r; [done|].
  apply (scope_edge_find d) in Hedge; [|apply Hwf]. rewrite E in Hedge. cbn in Hedge. rewrite Hedge in H.
  assert (scope_edge (work_scopes (work d)) m scope) as Hms.
  { apply (scope_edge_find d); [apply Hwf|]. by rewrite E. }
  apply IH in H as [_ H]; [done|].
  intros x [->|Hx]%elem_of_cons; [by apply tc_once|]. eapply tc_l; [done|by apply Hseen].
Qed.

(** What a new scopes table must be. *)
Lemma work_wf_scopes d ss :
  work_wf (work d) → NoDup (sc_id <$> ss) → (∀ s, s ∈ work_scopes (work d) → sc_id s ∈ sc_id <$> ss) →
  (∀ s, s ∈ ss → is_Some (ScopeKind_parse (sc_kind s)) ∧
     ∀ p, sc_parent s = Some p → p ∈ sc_id <$> ss) →
  (∀ c, ¬ tc (scope_edge ss) c c) → work_wf (work (set_scopes ss d)).
Proof.
  intros [H1 H2 H3 H4 H5 H6 H7 H8 H9 H10 H11 H12 H13 H14] Hnd Hold Hss Hac.
  assert (∀ x, x ∈ sc_id <$> ss → ∃ r, r ∈ ss ∧ sc_id r = x) as Hex.
  { intros x (r & -> & Hr)%list_elem_of_fmap. by exists r. }
  constructor; try done; cbn [work set_scopes set_work work_tasks work_scopes].
  - intros t s Ht Es. destruct (H9 t s Ht Es) as (r & Hr & <-). auto.
  - intros s Hs. by apply Hss.
  - intros s p Hs Hp. by apply Hex, (Hss s Hs).
Qed.

Lemma ScopeKind_parse_as_str k : ScopeKind_parse (ScopeKind_as_str k) = Some k.
Proof. by destruct k. Qed.

(** A parent that may be set: known, and not under [id]. *)
Definition parent_ok (id : string) (parent : option string) (d : db) : Prop :=
  ∀ p, parent = Some p → is_Some (find_scope p d) ∧
    (scope_edge (work_scopes (work d)) p id ∨ ¬ rtc (scope_edge (work_scopes (work d))) id p).

Lemma scope_parent_Ok id o d parent d' :
  work_wf (work d) →
  match o with
  | None => mret (find_scope id d ≫= sc_parent)
  | Some "" => mret None
  | Some parent =>
      refuse (validate_name "parent scope" parent) ≫= λ _, check_parent id parent ≫= λ _, mret (Some parent)
  end d = Ok (parent, d') → d' = d ∧ parent_ok id parent d.
Proof.
  intros Hwf. assert (∀ parent : string, (refuse (validate_name "parent scope" parent) ≫= λ _,
    check_parent id parent ≫= λ _, mret (Some parent) : tx (option string)) d = Ok (Some parent, d') →
    d' = d ∧ parent_ok id (Some parent) d) as Hcheck.
  { intros p H. wstep H. apply tx_bind_Ok in H as (v & d1 & Hp & H). wstep H. unfold check_parent in Hp.
    destruct (parent_loop _ _ _ _ _ _) as [[[]|]|] eqn:E; [|done..]. simplify_eq. split; [done|].
    apply parent_loop_Ok in E; [|done|by intros ? ?%not_elem_of_nil]. intros p' [= <-]. naive_solver. }
  destruct o as [[|c s]|]; intros H.
  - apply mret_Ok in H as [-> ->]. done.
  - pose proof H as H'. wstep H'. apply tx_bind_Ok in H' as (v & d1 & _ & H'). wstep H'. subst parent. by apply Hcheck.
  - apply mret_Ok in H as [-> ->]. split; [done|]. intros p Hp.
    apply (scope_edge_find d) in Hp as Hedge; [|apply Hwf]. split; [|by left].
    destruct Hedge as (r & Hr & _ & Ep). destruct (ww_parent _ Hwf r p Hr Ep) as (q & Hq & <-).
    destruct (find_scope (sc_id q) d) eqn:E; [done|]. by eapply find_scope_None in E.
Qed.

(** One scope is set, the others are as they were. *)
Lemma set_scope_ok d ss id parent :
  work_wf (work d) → NoDup (sc_id <$> ss) → (∀ s, s ∈ work_scopes (work d) → sc_id s ∈ sc_id <$> ss) →
  (∀ s, s ∈ ss → s ∈ work_scopes (work d) ∧ sc_id s ≠ id ∨
     sc_id s = id ∧ sc_parent s = parent ∧ is_Some (ScopeKind_parse (sc_kind s))) →
  parent_ok id parent d → work_wf (work (set_scopes ss d)).
Proof.
  intros Hwf Hnd Hold Hss Hp. apply work_wf_scopes; [done..| |].
  - intros s Hs. destruct (Hss s Hs) as [[Hs' _]|(_ & -> & Hk)].
    + split; [by apply (ww_kind _ Hwf)|]. intros p Ep.
      destruct (ww_parent _ Hwf s p Hs' Ep) as (r & Hr & <-). auto.
    + split; [done|]. intros p Ep. destruct (Hp p Ep) as [[r Hr] _].
      apply find_scope_Some in Hr as [Hr <-]. auto.
  - assert (∀ x y, scope_edge ss x y → scope_edge (work_scopes (work d)) x y ∨ parent = Some x ∧ y = id) as Hedge.
    { intros x y (s & Hs & <- & Ep). destruct (Hss s Hs) as [[Hs' _]|(-> & Ep' & _)]; [left; by exists s|right].
      by rewrite <- Ep'. }
    destruct parent as [p|].
    + destruct (Hp p eq_refl) as [_ [He|Hnr]].
      * eapply acyclic_sub; [|apply (ww_forest _ Hwf)]. intros x y [H|[[= ->] ->]]%Hedge; done.
      * eapply (acyclic_add _ _ p id); [|apply (ww_forest _ Hwf)|done]. intros x y [H|[[= ->] ->]]%Hedge; auto.
    + eapply acyclic_sub; [|apply (ww_forest _ Hwf)]. by intros x y [H|[H _]]%Hedge.
Qed.

Lemma scope_set_in_ok by' now actor args d u d' :
  work_wf (work d) → scope_set_in now actor args d = Ok (u, d') → body_ok by' d d'.
Proof.
  intros Hwf H. unfold scope_set_in in H. do 2 wstep H. apply tx_bind_Ok in H as (parent & d1 & Hp & H).
  apply scope_parent_Ok in Hp as [-> Hp]; [|done]. apply tx_bind_Ok in H as (task & d1 & Ht & H).
  assert (d1 = d) as ->.
  { destruct (sa_task args); [|by apply mret_Ok in Ht as [_ ->]]. by repeat wstep Ht. }
  repeat wstep H.
  set (kind := match sa_kind args with Some kind => _ | None => _ end) in *.
  assert (is_Some (ScopeKind_parse kind)) as Hk.
  { subst kind. destruct (sa_kind args) as [k|]; [rewrite ScopeKind_parse_as_str; eauto|].
    destruct (find_scope (sa_id args) d) as [s|] eqn:E; [|case_bool_decide; by eexists].
    apply find_scope_Some in E as [E _]. by apply (ww_kind _ Hwf). }
  assert (∀ ss, work_wf (work (set_scopes ss d)) → body_ok by' d (set_scopes ss d)) as Hbody.
  { intros ss Hss. split; [done|]. intros id. by left. }
  destruct (find_scope (sa_id args) d) as [s|] eqn:E.
  - eapply body_ok_to; [|reflexivity]. apply Hbody, (set_scope_ok _ _ (sa_id args) parent); try done.
    + rewrite keys_update; [apply Hwf|]. intros x. by case_decide.
    + intros x Hx. rewrite keys_update; [by apply list_elem_of_fmap_2|]. intros y. by case_decide.
    + intros x (y & <- & Hy)%list_elem_of_In%in_map_iff. apply list_elem_of_In in Hy. case_decide; [by right|by left].
  - eapply body_ok_to; [|reflexivity]. apply Hbody, (set_scope_ok _ _ (sa_id args) parent); try done.
    + rewrite fmap_app. apply NoDup_app. split; [apply Hwf|]. split; [|apply NoDup_singleton].
      intros x (y & -> & Hy)%list_elem_of_fmap Hx%list_elem_of_singleton. by eapply find_scope_None in E.
    + intros x Hx. rewrite fmap_app. apply elem_of_app. left. by apply list_elem_of_fmap_2.
    + intros x [Hx| ->%list_elem_of_singleton]%elem_of_app; [left|by right].
      split; [done|]. by eapply find_scope_None.
Qed.

Lemma work_scope_set_ok now op d r d' :
  work_wf (work d) → work_scope_set now op d = Ok (r, d') → agent_step op now d d'.
Proof.
  intros Hwf H. unfold work_scope_set in H. do 3 wstep H. apply tx_bind_Ok in H as (v & d1 & Hs & H). wstep H.
  eapply agent_step_intro; [done..|]. by eapply scope_set_in_ok.
Qed.

(** Setting a parent always ends: the fuel of the walk is enough. *)
Lemma check_parent_total id parent d : ∃ r, parent_loop (2 + length (work_scopes (work d))) id parent parent [] d = Some r.
Proof. apply parent_loop_total; [constructor|by intros x ?%not_elem_of_nil|cbn; lia]. Qed.
End Edit.
