(* ===== verification/WorkFrames.v ===== *)
(** * What the work operations leave alone

    Everything but the work tables, their settings and the log, which grows by
    events that say nothing of cards.  [jobs.rs] may move a card as well, and
    reclaiming and pruning touch leases. *)

From Stdlib Require Import Ascii.
From stdpp Require Import relations.
From S2P Require Import Prelude F64 Strs PyFmt Bytes Core Crypto Task Graph Order Claims Settings.
From S2P Require Import Predict Signature StoreDb Identity Leases Policy Board BoardLog WorkRow Work.
From S2P Require Import Jobs.

(** The tables of the other parts but the board's. *)
Record outer_frame (d d' : db) : Prop := {
  of_identities : identities d' = identities d;
  of_channels : channels d' = channels d;
  of_members : members d' = members d;
  of_keys : channel_keys d' = channel_keys d;
  of_rotations : rotations d' = rotations d;
  of_posts : posts d' = posts d;
  of_team : team d' = team d;
  of_seq : (event_seq d ≤ event_seq d')%Z }.

(** The board's tables, and the replay of the log. *)
Record board_frame (d d' : db) : Prop := {
  bf_cards : cards d' = cards d;
  bf_evidence : evidence d' = evidence d;
  bf_approvals : approvals d' = approvals d;
  bf_deps : card_deps d' = card_deps d;
  bf_log id : replay (events d') id = replay (events d) id }.

(** What a work operation leaves alone after its envelope; all but reclaiming a
    lease and pruning leave the leases alone too. *)
Record quiet_frame (d d' : db) : Prop := {
  qf_outer : outer_frame d d';
  qf_board : board_frame d d';
  qf_nonces : nonces d' = nonces d }.

Record work_frame (d d' : db) : Prop := {
  wf_quiet : quiet_frame d d';
  wf_leases : leases d' = leases d;
  wf_timers : timers (work d') = timers (work d);
  wf_marks : reconcile_marks (work d') = reconcile_marks (work d) }.

#[export] Instance outer_frame_pre : PreOrder outer_frame.
Proof.
  split; [by intros d|]. intros a b c [] []. constructor; try congruence. lia.
Qed.

#[export] Instance board_frame_pre : PreOrder board_frame.
Proof.
  split; [by intros d|]. intros a b c [] []. constructor; congruence.
Qed.

#[export] Instance quiet_frame_pre : PreOrder quiet_frame.
Proof.
  split; [by intros d|]. intros a b c [] []. constructor; [by etrans|by etrans|congruence].
Qed.

#[export] Instance work_frame_pre : PreOrder work_frame.
Proof.
  split; [by intros d|]. intros a b c [] []. constructor; [by etrans|congruence..].
Qed.

Lemma replay_silent evs e id : silent (e_kind e) → replay (evs ++ [e]) id = replay evs id.
Proof. intros H. rewrite replay_snoc. by apply apply_silent. Qed.

Lemma outer_frame_logged now actor kind subject data d : outer_frame d (logged now actor kind subject data d).
Proof. constructor; try done. cbn. lia. Qed.

Lemma work_frame_logged now actor kind subject data d :
  silent kind → work_frame d (logged now actor kind subject data d).
Proof.
  intros H. constructor; [|done..]. constructor; [apply outer_frame_logged| |done]. constructor; try done.
  intros id. by apply replay_silent.
Qed.

Create HintDb work_frame.

Section Frames.
Context `{P : Prims} `{LC : LeaseCodec} `{C : WorkCodec}.

Lemma work_frame_set w d :
  timers w = timers (work d) → reconcile_marks w = reconcile_marks (work d) → work_frame d (set_work w d).
Proof. done. Qed.

Lemma work_frame_settings s d : work_frame d (set_settings s d).
Proof. done. Qed.

Lemma record_event_frames now actor kind subject data :
  silent kind → frames work_frame (record_event now actor kind subject data).
Proof.
  intros H. unfold record_event. repeat frame_step. by apply work_frame_logged.
Qed.

Lemma load_task_frames id : frames work_frame (load_task id).
Proof. unfold load_task. repeat frame_step. Qed.

Lemma settings_work_frames : frames work_frame settings_in.
Proof. unfold settings_in. repeat frame_step. Qed.

Lemma holders_in_frames now ex : frames work_frame (holders_in now ex).
Proof. unfold holders_in. repeat frame_step. Qed.

Lemma check_parent_frames id parent : frames work_frame (check_parent id parent).
Proof. intros d u d'. unfold check_parent. destruct (parent_loop _ _ _ _ _ _) as [[]|]; by intros [= _ <-]. Qed.

Lemma check_names_frames what l : frames work_frame (check_names what l).
Proof. induction l; cbn [check_names]; unfold refuse; repeat frame_step. done. Qed.

Lemma check_prereqs_frames id l : frames work_frame (check_prereqs id l).
Proof. induction l; cbn [check_prereqs]; repeat frame_step. done. Qed.

Lemma add_files_frames role cwd raws files : frames work_frame (add_files role cwd raws files).
Proof.
  revert files. induction raws; intros files; cbn [add_files]; unfold check_text_field, refuse; repeat frame_step.
  done.
Qed.

Lemma validate_after_frames id l : frames work_frame (validate_after id l).
Proof.
  unfold validate_after. repeat frame_step. induction (once l); unfold refuse; repeat frame_step. done.
Qed.

#[local] Hint Resolve load_task_frames settings_work_frames holders_in_frames check_parent_frames
  check_names_frames check_prereqs_frames add_files_frames validate_after_frames : work_frame.

(** A statement at a time; a write is one of the work tables or of the settings,
    an event a silent one. *)
Ltac work_frames :=
  repeat first
    [ frame_step
    | solve [eauto with work_frame]
    | apply record_event_frames; by repeat split
    | match goal with |- work_frame _ (match ?x with _ => _ end) => destruct x end
    | solve [apply work_frame_set; reflexivity]
    | solve [apply work_frame_settings]
    | apply work_frame_logged; by repeat split
    | progress unfold refusal, refuse, check_text_field, subject_task, may_act, may_run, scope_exists,
        check_card, check_request, check_runnable, new_id ].

Lemma check_files_frames now subject files ex : frames work_frame (check_files now subject files ex).
Proof. unfold check_files. work_frames. Qed.

Lemma claim_block_frames now id after files ex : frames work_frame (claim_block now id after files ex).
Proof. unfold claim_block. repeat frame_step. apply check_files_frames. Qed.

Lemma take_frames now id actor : frames work_frame (take now id actor).
Proof. unfold take. work_frames. Qed.

#[local] Hint Resolve check_files_frames claim_block_frames take_frames : work_frame.

Lemma next_in_frames now actor scope policy : frames work_frame (next_in now actor scope policy).
Proof. unfold next_in, queued_in_scope. work_frames. Qed.

Lemma scope_set_in_frames now actor args : frames work_frame (scope_set_in now actor args).
Proof. unfold scope_set_in. work_frames. Qed.

Lemma reserve_frames now h t actor cpus log_dir : frames work_frame (reserve now h t actor cpus log_dir).
Proof. unfold reserve. work_frames. Qed.

Lemma insert_task_frames now h actor role add place :
  frames work_frame (insert_task now h actor role add place).
Proof. unfold insert_task, check_cwd. work_frames. Qed.

Lemma update_in_frames now actor role id args : frames work_frame (update_in now actor role id args).
Proof. unfold update_in, check_cycles, assign. work_frames. Qed.

Lemma reclaim_task_frames now actor id note : frames work_frame (reclaim_task now actor id note).
Proof. unfold reclaim_task. work_frames. Qed.

(** ** The operations *)

(** An operation is authorized, its nonce recorded, and the rest is in the
    frame. *)
Definition enveloped {A} (R : db → db → Prop) (now : Z) (op : SignedOp) (m : tx A) : Prop :=
  ∀ d a d', m d = Ok (a, d') → ∃ kind role, authorized now op kind role d ∧ R (with_nonce now op d) d'.

Lemma enveloped_intro {A} R now op kind (k : Role → tx A) :
  (∀ role, frames R (k role)) → enveloped R now op (authorize now op kind ≫= k).
Proof.
  intros Hk d a d' (role & d1 & [Hau ->]%authorize_Ok & H)%tx_bind_Ok. exists kind, role.
  split; [done|]. by eapply Hk.
Qed.

#[local] Hint Resolve next_in_frames scope_set_in_frames reserve_frames insert_task_frames
  update_in_frames reclaim_task_frames : work_frame.

Ltac work_op := apply enveloped_intro; intros role; work_frames.

Lemma work_scope_set_frames now op : enveloped work_frame now op (work_scope_set now op).
Proof. work_op. Qed.
Lemma work_add_frames now h op : enveloped work_frame now op (work_add now h op).
Proof. work_op. Qed.
Lemma work_next_frames now op : enveloped work_frame now op (work_next now op).
Proof. work_op. Qed.
Lemma work_claim_frames now op : enveloped work_frame now op (work_claim now op).
Proof. work_op. Qed.
Lemma work_accept_frames now op : enveloped work_frame now op (work_accept now op).
Proof. work_op. Qed.
Lemma work_request_frames now h op cpus log_dir :
  enveloped work_frame now op (work_request now h op cpus log_dir).
Proof. work_op. Qed.
Lemma work_cancel_frames now op : enveloped work_frame now op (work_cancel now op).
Proof. work_op. Qed.
Lemma work_update_frames now op : enveloped work_frame now op (work_update now op).
Proof. work_op. Qed.
Lemma work_settings_frames now op : enveloped work_frame now op (work_settings_set now op).
Proof. work_op. Qed.

Lemma work_finish_frames now op : enveloped work_frame now op (work_finish now op).
Proof. work_op. Qed.

(** ** Leases that are reclaimed *)

(** In the frame but for leases, which stay well formed. *)
Record lease_frame (now : Z) (d d' : db) : Prop := {
  lf_quiet : quiet_frame d d';
  lf_leases : leases_wf now (leases d) → leases_wf now (leases d');
  lf_timers : timers (work d') = timers (work d);
  lf_marks : reconcile_marks (work d') = reconcile_marks (work d) }.

#[export] Instance lease_frame_pre now : PreOrder (lease_frame now).
Proof.
  split; [by intros d|]. intros a b c [] []. constructor; [by etrans|auto|congruence..].
Qed.

Lemma work_lease_frame now d d' : work_frame d d' → lease_frame now d d'.
Proof. intros [Hq E Et Em]. constructor; [done| |done..]. by rewrite E. Qed.

Lemma reclaim_lease_frames now actor id note : frames (lease_frame now) (reclaim_lease now actor id note).
Proof.
  unfold reclaim_lease, record_event. repeat frame_step.
  - constructor; [done| |done|done]. intros Hwf. unfold update_lease. cbn [leases set_leases].
    apply (leases_wf_map now); try done.
    + intros x. by case_decide.
    + intros x Hx. by case_decide.
  - apply work_lease_frame, work_frame_logged. by repeat split.
Qed.

Lemma work_reclaim_frames now op : enveloped (lease_frame now) now op (work_reclaim now op).
Proof.
  apply enveloped_intro. intros role. unfold check_text_field, refuse. repeat frame_step.
  - intros d u d' H. by eapply work_lease_frame, reclaim_task_frames.
  - apply reclaim_lease_frames.
Qed.

Lemma filter_sublist {A} (Q : A → Prop) `{∀ x, Decision (Q x)} l k :
  sublist l k → sublist (filter Q l) (filter Q k).
Proof.
  induction 1 as [|x l k _ IH|x l k _ IH]; [done|..]; rewrite !filter_cons; repeat case_decide; try done; by constructor.
Qed.

Lemma leases_wf_sublist now t t' : sublist t' t → leases_wf now t → leases_wf now t'.
Proof.
  intros Hs [Hi Hk He Hq Hc Hp Hcap].
  assert (∀ l, l ∈ t' → l ∈ t) as Hin by (intros l Hl; by eapply elem_of_sublist).
  constructor; auto.
  - eapply sublist_NoDup; [done|by apply fmap_sublist].
  - intros h. etrans; [|apply (Hcap h)]. apply sublist_length. by apply filter_sublist.
Qed.

(** ** Jobs *)

Context `{JC : JobCodec}.

Definition sys_enveloped {A} (R : db → db → Prop) (now : Z) (op : SignedOp) (m : tx A) : Prop :=
  ∀ d a d', m d = Ok (a, d') → ∃ kind, sys_authorized now op kind d ∧ R (with_nonce now op d) d'.

Lemma sys_enveloped_intro {A} R now op kind (k : unit → tx A) :
  (∀ u, frames R (k u)) → sys_enveloped R now op (authorize_system now op kind ≫= k).
Proof.
  intros Hk d a d' (u & d1 & [Hau ->]%authorize_system_record & H)%tx_bind_Ok. exists kind.
  split; [done|]. by eapply Hk.
Qed.

Lemma job_start_frames now op : sys_enveloped work_frame now op (job_start now op).
Proof. apply sys_enveloped_intro. intros u. unfold current. work_frames. Qed.

Lemma job_note_frames now op : sys_enveloped work_frame now op (job_note now op).
Proof. apply sys_enveloped_intro. intros u. unfold current. work_frames. Qed.

Lemma job_sample_frames id cpu rss peak sampled : frames work_frame (job_sample id cpu rss peak sampled).
Proof. unfold job_sample. work_frames. Qed.

(** Pruned events say nothing of cards. *)
Lemma pruned_silent kind : pruned_kind kind = true → silent kind.
Proof. intros H. repeat split; intros ->; by vm_compute in H. Qed.

Lemma replay_filter keep evs id :
  (∀ e, keep e = false → silent (e_kind e)) → replay (List.filter keep evs) id = replay evs id.
Proof.
  intros H. induction evs as [|e evs IH] using rev_ind; [done|].
  rewrite List.filter_app, replay_snoc. cbn. destruct (keep e) eqn:E.
  - by rewrite replay_snoc, IH.
  - rewrite app_nil_r, IH. symmetry. apply apply_silent, H, E.
Qed.

Lemma work_frame_foldl {A} (f : db → A → db) l d : (∀ d x, work_frame d (f d x)) → work_frame d (foldl f d l).
Proof. intros Hf. revert d. induction l as [|x l IH]; intros d; cbn; [done|]. etrans; [apply Hf|apply IH]. Qed.

(** Pruning drops marks as well. *)
Record prune_frame (now : Z) (d d' : db) : Prop := {
  nf_quiet : quiet_frame d d';
  nf_leases : leases_wf now (leases d) → leases_wf now (leases d');
  nf_timers : timers (work d') = timers (work d) }.

#[export] Instance prune_frame_pre now : PreOrder (prune_frame now).
Proof. split; [by intros d|]. intros a b c [] []. constructor; [by etrans|auto|congruence]. Qed.

Lemma work_prune_frames now cutoff : frames (prune_frame now) (work_prune cutoff).
Proof.
  unfold work_prune. repeat frame_step; try done.
  - constructor; try done. constructor; try done. constructor; try done. intros id. cbn.
    apply replay_filter. intros e He. apply negb_false_iff, andb_true_iff in He as [_ He]. by apply pruned_silent.
  - constructor; try done. apply leases_wf_sublist, bool_filter_sublist.
  - match goal with |- prune_frame _ ?d (foldl ?f ?e ?l) => assert (work_frame e (foldl f e l)) as [] end;
      [|by constructor; [|congruence|]]. apply work_frame_foldl. intros. by apply work_frame_set.
Qed.
End Frames.
