(* ===== verification/JobCards.v ===== *)
(** * What the end of a job does to its card

    [src/crates/agora-store/src/cards_ext/job_sync.rs]: the card of a finished
    job moves along the edges of the lifecycle for jobs, or stays. *)

From Stdlib Require Import Ascii.
From stdpp Require Import relations.
From S2P Require Import Prelude F64 Strs PyFmt Bytes Core Crypto Task Graph Order Claims Settings.
From S2P Require Import Predict Signature StoreDb Identity Leases Policy Board BoardLog WorkRow Work.
From S2P Require Import Jobs WorkFrames.

(** Up to [n] steps of every card. *)
Definition board_steps (n : nat) (d d' : db) : Prop :=
  ∀ id, ∃ k, k ≤ n ∧ nsteps life k (card_at id d) (card_at id d').

Lemma board_steps_same n d d' : (∀ id, card_at id d' = card_at id d) → board_steps n d d'.
Proof. intros H id. exists 0. split; [lia|]. rewrite H. constructor. Qed.

Lemma board_step_steps n d d' : 1 ≤ n → board_step d d' → board_steps n d d'.
Proof.
  intros Hn H id. destruct (H id) as [->|Hl]; [exists 0; split; [lia|constructor]|].
  exists 1. split; [lia|by apply nsteps_once].
Qed.

Lemma board_steps_trans n m d1 d2 d3 : board_steps n d1 d2 → board_steps m d2 d3 → board_steps (n + m) d1 d3.
Proof.
  intros H1 H2 id. destruct (H1 id) as (k & Hk & S1), (H2 id) as (j & Hj & S2).
  exists (k + j). split; [lia|by eapply nsteps_trans].
Qed.

(** Rows that keep their state and owner, and a log that replays as before. *)
Definition same_standing (c c' : card) : Prop :=
  c_id c' = c_id c ∧ c_state c' = c_state c ∧ c_owner c' = c_owner c.

Lemma board_keep d d' g :
  board_wf d → cards d' = map g (cards d) → (∀ c, same_standing c (g c)) →
  (∀ x, x ∈ evidence d → x ∈ evidence d') → approvals d' = approvals d → card_deps d' = card_deps d →
  (∀ id, replay (events d') id = replay (events d) id) → board_wf d' ∧ board_step d d'.
Proof.
  intros Hwf Ec Hg Hev Eap Ed El.
  assert (∀ id, card_at id d' = card_at id d) as Hat.
  { intros id. unfold card_at, find_card. rewrite Ec, find_map by (intros c; apply Hg).
    destruct (list_find _ _) as [[n c]|]; cbn; [|done]. by destruct (Hg c) as (_ & -> & _). }
  assert (∀ c, c ∈ cards d → g c ∈ cards d') as Hin by (intros c Hc; rewrite Ec; by apply list_elem_of_fmap_2).
  split; [|by intros id; left]. constructor.
  - rewrite Ec, (keys_update c_id g); [apply Hwf|]. intros c. apply Hg.
  - intros x. rewrite Ec. intros (c & -> & Hc)%list_elem_of_fmap. destruct (Hg c) as (-> & -> & ->).
    destruct (bw_card d Hwf c Hc) as (s & ? & ? & Hd). exists s. split_and!; try done.
    intros Es. eapply has_evidence_row_mono; [done|auto].
  - intros a. rewrite Eap. intros (c & s & Hc & E & Hs & Hcl)%(bw_approval d Hwf). exists (g c), s.
    destruct (Hg c) as (-> & -> & _). auto.
  - intros e. rewrite Ed. intros [(c & Hc & E) (c' & Hc' & E')]%(bw_dep d Hwf).
    split; [exists (g c); destruct (Hg c) as (-> & _)|exists (g c'); destruct (Hg c') as (-> & _)]; auto.
  - rewrite Ed. apply Hwf.
  - intros id. unfold log_agrees. rewrite El, Hat. apply Hwf.
Qed.

Lemma board_keep_same d d' :
  board_wf d → board_frame d d' → board_wf d' ∧ board_step d d'.
Proof.
  intros Hwf [Ec Ee Ea Ed El]. eapply (board_keep d d' (λ c, c)); try done; [by rewrite Ec, map_id|].
  intros x. by rewrite Ee.
Qed.

Section Sync.
Context `{P : Prims} `{LC : LeaseCodec} `{C : WorkCodec} `{JC : JobCodec}.

Lemma apply_job_moved id s e from to job :
  e_subject e = id → e_kind e = "card.moved" →
  e_data e = VObject [("from", VString (card_as_str from)); ("to", VString (card_as_str to)); ("job", VString job)] →
  apply_event id s e = Some to.
Proof.
  intros Hs Hk Hd. unfold apply_event. rewrite Hs, Hk, Hd, bool_decide_eq_true_2 by done. cbn. by destruct to.
Qed.

Lemma job_edge_owner from to (owner : option string) :
  job_edge from to = true → owner_fits from owner →
  owner_fits to (if bool_decide (to = Ready) then None else owner).
Proof. by destruct from, to. Qed.

Lemma sync_move_board now actor id job from to d u d' :
  board_wf d → card_at id d = Some from → job_edge from to = true →
  sync_move now actor id job from to d = Ok (u, d') →
  board_wf d' ∧ board_step d d' ∧ card_at id d' = Some to.
Proof.
  intros Hwf Hat Hedge H. unfold sync_move in H. tx_inv.
  unfold card_at in Hat. destruct (find_card id d) as [c|] eqn:Hf; [|done]. cbn in Hat.
  apply find_card_Some in Hf as Hf'. destruct Hf' as [Hc Hid].
  destruct (bw_card d Hwf c Hc) as (s & Hs & Hown & _). rewrite Hat in Hs. injection Hs as <-.
  set (f := λ c : card, with_state (card_as_str to) (if bool_decide (to = Ready) then None else c_owner c) now c).
  set (d0 := if bool_decide (to = Doing ∨ to = Ready) then drop_approvals id d else d).
  assert (cards d0 = cards d ∧ evidence d0 = evidence d ∧ card_deps d0 = card_deps d ∧ events d0 = events d)
    as (Ec & Ee & Ed & El) by (unfold d0; by destruct to).
  match goal with |- board_wf ?d1 ∧ _ => assert (board_wf d1 ∧ board_step d d1) as [Hwf' Hstep] end.
  { eapply (move_board d _ f id c from to); try done.
    - by apply life_job.
    - by apply (job_edge_owner from).
    - by destruct from, to.
    - cbn. by rewrite Ec.
    - cbn. unfold d0. by destruct to, from.
    - cbn. by rewrite El.
    - done.
    - intros s. by apply (apply_job_moved _ _ _ from to job). }
  split_and!; [done..|]. unfold card_at.
  match goal with |- find_card id ?e ≫= _ = _ =>
    assert (find_card id e = find_card id (update_card id f d)) as -> by (unfold find_card; cbn; by rewrite Ec) end.
  rewrite card_at_update by done. rewrite decide_True, Hf by done. cbn. apply card_parse_as_str.
Qed.

Lemma sync_moves_board now actor id job from steps n d u d' :
  board_wf d → card_at id d = Some from → length steps ≤ n →
  (∃ outcome, sync_path outcome from = Some steps) →
  sync_moves now actor id job from steps d = Ok (u, d') → board_wf d' ∧ board_steps n d d'.
Proof.
  intros Hwf Hat Hn [o Ho] H.
  assert (∀ steps from d, board_wf d → card_at id d = Some from →
    (match steps with [] => True | [a] => job_edge from a = true
     | a :: b :: l => job_edge from a = true ∧ job_edge a b = true ∧ l = [] end) →
    sync_moves now actor id job from steps d = Ok (u, d') → board_wf d' ∧ board_steps (length steps) d d') as Hgen.
  { clear. intros steps. induction steps as [|a steps IH]; intros from d Hwf Hat Hs H; cbn [sync_moves] in H.
    { apply mret_Ok in H as [_ ->]. split; [done|by apply board_steps_same]. }
    apply tx_bind_Ok in H as (v & d1 & Hm & H).
    assert (job_edge from a = true ∧ match steps with [] => True | [b] => job_edge a b = true
      | b :: c :: l => job_edge a b = true ∧ job_edge b c = true ∧ l = [] end) as [He Hrest].
    { destruct steps as [|b [|c l]]; naive_solver. }
    destruct (sync_move_board _ _ _ _ _ _ _ _ _ Hwf Hat He Hm) as (Hwf1 & Hst & Hat1).
    destruct (IH a d1 Hwf1 Hat1 Hrest H) as [Hwf' Hsteps]. split; [done|].
    apply (board_steps_trans 1 (length steps) d d1); [by apply board_step_steps|done]. }
  destruct (Hgen steps from d Hwf Hat) as [Hw Hst]; [|done|].
  { destruct o, from; cbn in Ho; simplify_eq; cbn; auto. }
  split; [done|]. intros x. destruct (Hst x) as (k & Hk & Hx). exists k. split; [lia|done].
Qed.

Lemma record_evidence_board now actor id reference d u d' :
  board_wf d → record_evidence now actor id reference d = Ok (u, d') → board_wf d' ∧ board_step d d'.
Proof.
  intros Hwf H. unfold record_evidence in H. tx_inv.
  eapply (board_keep d _ (λ c, c)); try done; cbn; destruct (existsb _ (evidence d)); cbn;
    try (by rewrite map_id); try done.
  - intros y Hy. apply elem_of_app. by left.
  - intros id'. apply replay_silent. by repeat split.
  - intros id'. apply replay_silent. by repeat split.
Qed.

(** Rows that keep state and owner. *)
Lemma update_card_keep id f d :
  board_wf d → (∀ c, same_standing c (f c)) → board_wf (update_card id f d) ∧ board_step d (update_card id f d).
Proof.
  intros Hwf Hf. apply (board_keep d _ (λ c, if decide (c_id c = id) then f c else c)); try done.
  intros c. case_decide; [apply Hf|done].
Qed.

Lemma needs_owner_board id action d :
  board_wf d → board_wf (update_card id (needs_owner action) d) ∧ board_step d (update_card id (needs_owner action) d).
Proof.
  intros Hwf. by apply update_card_keep.
Qed.

Lemma skip_notice_board now actor id c job outcome d u d' :
  board_wf d → skip_notice now actor id c job outcome d = Ok (u, d') → board_wf d' ∧ board_step d d'.
Proof.
  intros Hwf H. unfold skip_notice in H. apply tx_bind_Ok in H as (targets & d1 & Ht & H).
  assert (d1 = d) as ->.
  { destruct (c_owner c); [by apply mret_Ok in Ht as [_ ->]|]. by apply query_Ok in Ht as [_ ->]. }
  step notify_Ok in H as v (t & n & ->). tx_inv. apply board_keep_same; [done|].
  constructor; try done. intros id'. apply replay_silent. by repeat split.
Qed.

Lemma author_may_move_Ok owner author d b d' : author_may_move owner author d = Ok (b, d') → d' = d.
Proof.
  unfold author_may_move. case_bool_decide; [naive_solver|]. destruct (unhex32 author) as [pk|]; [|naive_solver].
  destruct (active_role pk d) as [[r d1]|e] eqn:E; [apply active_role_Ok in E as [-> _]; naive_solver|].
  destruct e; naive_solver.
Qed.

Lemma board_then n d d1 d2 :
  board_wf d1 ∧ board_steps n d d1 → (board_wf d1 → board_wf d2 ∧ board_step d1 d2) →
  (∀ id, card_at id d2 = card_at id d1) → board_wf d2 ∧ board_steps n d d2.
Proof.
  intros [Hwf Hs] H Hat. destruct (H Hwf) as [Hwf2 _]. split; [done|]. intros id. rewrite Hat. apply Hs.
Qed.

Lemma sync_path_length o s l : sync_path o s = Some l → length l ≤ 2.
Proof. destruct o, s; cbn; intros [= <-]; cbn; lia. Qed.

Lemma card_at_cards id d d' : cards d' = cards d → card_at id d' = card_at id d.
Proof. intros E. unfold card_at, find_card. by rewrite E. Qed.

Lemma record_evidence_cards now actor id reference d u d' :
  record_evidence now actor id reference d = Ok (u, d') → cards d' = cards d.
Proof. intros H. unfold record_evidence in H. tx_inv. cbn. by destruct (existsb _ _). Qed.

Lemma card_job_sync_board now op task final d u d' :
  board_wf d → card_job_sync_tx now op task final d = Ok (u, d') → board_wf d' ∧ board_steps 2 d d'.
Proof.
  intros Hwf H. unfold card_job_sync_tx in H. step authorize_system_record in H as ? [_ ->].
  step lift_Ok in H as args [_ ->]. step guard_Ok in H as ? [_ ->]. step query_Ok in H as ? [-> ->].
  step lift_Ok in H as t [_ ->].
  assert (board_wf (with_nonce now op d) ∧ board_step d (with_nonce now op d)) as [Hwf0 _] by (by apply board_keep_same).
  set (d0 := with_nonce now op d) in *. change (board_steps 2 d d') with (board_steps 2 d0 d').
  destruct (w_card t) as [id|]; [|apply mret_Ok in H as [_ ->]; split; [done|by apply board_steps_same]].
  step load_card_Ok in H as c (-> & Hc & Hid). step lift_Ok in H as state [Hs ->].
  step author_may_move_Ok in H as trusted ->.
  destruct (if trusted then _ else None) as [steps|] eqn:Hp.
  2: { apply skip_notice_board in H as [? ?]; [|done]. split; [done|by apply board_step_steps; [lia|]]. }
  assert (sync_path (cs_outcome args) state = Some steps) as Hpath by (by destruct trusted).
  apply tx_bind_Ok in H as (v & d1 & Hm & H).
  assert (card_at id d0 = Some state) as Hat.
  { unfold card_at. rewrite <- Hid, (find_card_elem d0 c (bw_ids _ Hwf0) Hc). cbn.
    unfold card_state_of, ok_or in Hs. destruct (card_parse (c_state c)); by simplify_eq. }
  pose proof (sync_moves_board _ _ _ _ _ _ 2 _ _ _ Hwf0 Hat (sync_path_length _ _ _ Hpath)
    ltac:(by eexists) Hm) as Hmv.
  destruct (cs_outcome args).
  - eapply board_then; [exact Hmv|intros Hw; by eapply record_evidence_board|].
    intros id'. by eapply card_at_cards, record_evidence_cards.
  - step execute_Ok in H as ? ->.
    eapply board_then; [|intros Hw; by eapply record_evidence_board|intros id'; by eapply card_at_cards, record_evidence_cards].
    eapply board_then; [exact Hmv|intros Hw; by apply needs_owner_board|].
    intros id'. unfold card_at. rewrite card_at_update by done. case_decide; by destruct (find_card id' d1).
  - apply mret_Ok in H as [_ ->]. exact Hmv.
Qed.

(** ** What the sync leaves alone *)

Record sync_frame (d d' : db) : Prop := {
  sf_outer : outer_frame d d';
  sf_leases : leases d' = leases d;
  sf_work : work d' = work d;
  sf_nonces : nonces d' = nonces d }.

#[export] Instance sync_frame_pre : PreOrder sync_frame.
Proof.
  split; [by intros d|]. intros a b c [] []. constructor; [by etrans|congruence..].
Qed.

Lemma sync_frame_logged now actor kind subject data d : sync_frame d (logged now actor kind subject data d).
Proof. constructor; try done. apply outer_frame_logged. Qed.

Ltac sync_frames :=
  repeat first
    [ frame_step
    | apply sync_frame_logged
    | match goal with |- sync_frame _ (if ?x then _ else _) => destruct x end
    | done ].

Lemma sync_moves_frames now actor id job from steps : frames sync_frame (sync_moves now actor id job from steps).
Proof.
  revert from. induction steps as [|to steps IH]; intros from; cbn [sync_moves]; unfold sync_move; sync_frames.
Qed.

Lemma card_job_sync_frames now op task final :
  sys_enveloped sync_frame now op (card_job_sync_tx now op task final).
Proof.
  apply sys_enveloped_intro. intros u. unfold load_card. sync_frames.
  - intros d b d' ->%author_may_move_Ok. done.
  - apply sync_moves_frames.
  - unfold record_evidence. sync_frames.
  - unfold record_evidence. sync_frames.
  - unfold skip_notice, supervisors. sync_frames.
    intros d b d' (t & n & ->)%notify_Ok. done.
Qed.
End Sync.
