(* ===== verification/WorkJobs.v ===== *)
(** * The work queue: jobs

    The system operations of [jobs.rs] keep the invariant and are steps of a
    task's life that only the daemon takes: a job starts only when its claimant
    accepted its command and asked for it, and a start or an end is recorded
    once. *)

From Stdlib Require Import Ascii.
From stdpp Require Import relations.
From S2P Require Import Prelude F64 Strs PyFmt Bytes Core Crypto Task Graph Order Claims Settings.
From S2P Require Import Predict Signature StoreDb Identity Leases Policy Board BoardLog WorkRow Work.
From S2P Require Import WorkInv WorkSteps Jobs WorkFrames JobCards.

(** The widths of the decoded fields: an exit status is an [i32], a peak a
    [u64]. *)
Class JobCodecLaws (JC : JobCodec) : Prop := {
  job_finish_status s a z : parse_job_finish s = Some a → jf_status a = Some z → (i32_min ≤ z ≤ i32_max)%Z;
  job_finish_peak s a z : parse_job_finish s = Some a → jf_rss_peak_kib a = Some z → in_u64 z = true }.

Section Jobs.
Context `{P : Prims} `{LC : LeaseCodec} `{C : WorkCodec} {CL : WorkCodecLaws C} `{JC : JobCodec} {JL : JobCodecLaws JC}.

Lemma current_Ok id d t d' : current id d = Ok (t, d') → d' = d ∧ find_task id d = Some t.
Proof.
  unfold current. intros H. wstep H. apply lift_Ok in H as [H ->]. destruct (find_task id d); cbn in H; by simplify_eq.
Qed.

Lemma to_i64_Ok v what z : to_i64 v what = Ok z → z = v ∧ (v ≤ i64_max)%Z.
Proof. unfold to_i64. destruct (Z.leb_spec v i64_max); [|done]. by intros [= <-]. Qed.

Lemma opt_i64_Ok o what r : opt_i64 o what = Ok r → r = o.
Proof.
  unfold opt_i64. destruct o as [v|]; [|by intros [= <-]].
  intros (z & [-> _]%to_i64_Ok & [= <-])%result_bind_Ok. done.
Qed.

Definition system_step (op : SignedOp) (now : Z) (d d' : db) : Prop :=
  ∃ kind, sys_authorized now op kind d ∧ work_wf (work d') ∧ work_step BySystem d d'.

Lemma system_step_intro now op kind d d' :
  sys_authorized now op kind d → body_ok BySystem (with_nonce now op d) d' → system_step op now d d'.
Proof. intros Ha Hb. exists kind. split; [done|]. by eapply body_ok_from. Qed.

(** The columns and the view of a row of the invariant. *)
Lemma row_state d id t :
  work_wf (work d) → find_task id d = Some t →
  ∃ s, w_state t = TaskState_as_str s ∧ columns_of_state s t ∧ columns_fit t = true.
Proof.
  intros Hwf [Hin _]%find_task_Some. destruct (ww_task _ Hwf t Hin) as [(s & Es & Hc) _ _ _ _ Hf]. by exists s.
Qed.

Lemma job_start_ok now op d r d' :
  work_wf (work d) → job_start now op d = Ok (r, d') → system_step op now d d'.
Proof.
  intros Hwf H. unfold job_start in H. step authorize_system_record in H as ? [Hau ->]. wstep H.
  step current_Ok in H as cur [-> Hf]. do 4 wstep H. apply load_task_Ok in H as (-> & _). guards.
  eapply system_step_intro; [done|]. rewrite find_task_nonce in Hf.
  destruct (row_state _ _ _ Hwf Hf) as (s & Es & Hcol & _).
  destruct s; try (rewrite Es in *; done).
  destruct Hcol as ((b & Eb) & Hcl & _ & Hrq & Hns & Hne). destruct (Hrq H1) as [Ha Hc].
  eapply (body_ok_update (with_start _ _ _)); [exact Hwf|exact Hf|reflexivity|done|].
  constructor; try done.
  - exists TRunning. split; [done|]. cbn. rewrite Eb in *. split_and!; eauto.
  - intros _. by left.
  - right. rewrite (view_of_state TClaimed), (view_of_state TRunning) by done. cbn.
    rewrite Eb in *. rewrite Ha, bool_decide_true by done. by apply wl_start.
Qed.

(** The tables after the first half of [job_finish]. *)
Definition finished (now : Z) (op : SignedOp) (args : JobFinishArgs) (cur : work_task) (d : db) : db :=
  let d1 := update_task (o_subject op)
              (with_finish (final_of (rn_cancel_requested (w_run cur)) (jf_before_start args) (jf_status args)) args
                 (jf_rss_peak_kib args)) d in
  match rn_started (w_run cur), jf_status args with
  | Some started, Some s =>
      if bool_decide (s ∈ NOT_RUN_STATUSES) then d1
      else insert_history (history_of cur args started
             (match jf_rss_peak_kib args with
              | Some p => Some p
              | None => find_task (o_subject op) d1 ≫= λ t, us_rss_peak (w_usage t)
              end)) d1
  | _, _ => d1
  end.

Lemma job_finish_Ok now op sync d r d' :
  job_finish now op sync d = Ok (r, d') →
  sys_authorized now op "job.finish" d ∧
  ∃ args cur d1, parse_job_finish (o_arg op) = Some args ∧ find_task (o_subject op) d = Some cur ∧
    (w_state cur = "running" ∨
     w_state cur = "claimed" ∧ is_Some (cl_requested (w_claim cur)) ∧ jf_before_start args = true) ∧
    work d1 = work (finished now op args cur (with_nonce now op d)) ∧ work_frame (with_nonce now op d) d1 ∧
    match sync with
    | None => d' = d1
    | Some s => card_job_sync_tx now s (o_subject op)
                  (final_of (rn_cancel_requested (w_run cur)) (jf_before_start args) (jf_status args)) d1 = Ok (tt, d')
    end.
Proof.
  unfold job_finish. intros H. step authorize_system_record in H as ? [Hau ->]. split; [done|]. wstep H.
  step current_Ok in H as cur [-> Hf]. do 4 wstep H. wstep H.
  match type of H with _ ?dx = _ => set (d1 := dx) in H end.
  exists a, cur, d1. unfold ok_or in Hl. destruct (parse_job_finish _) as [args|]; [|done]. simplify_eq.
  apply opt_i64_Ok in Hl0 as ->. split_and!; [done|done| | | |].
  - apply andb_false_iff in Hg as [Hg|Hg]; guards; [by left|right; done].
  - unfold d1, finished. cbn. destruct (rn_started (w_run cur)) as [st|], (jf_status a) as [s|]; try done.
    by destruct (bool_decide (s ∈ NOT_RUN_STATUSES)).
  - unfold d1. etrans; [|apply work_frame_logged; by repeat split].
    destruct (rn_started (w_run cur)) as [st|]; [|done]. destruct (jf_status a) as [s|]; [|done].
    by destruct (bool_decide (s ∈ NOT_RUN_STATUSES)).
  - destruct sync as [s|].
    + apply tx_bind_Ok in H as ([] & d2 & Hs & H). by apply load_task_Ok in H as (-> & _).
    + wstep H. by apply load_task_Ok in H as (-> & _).
Qed.

Lemma final_of_final cancel before status : is_final (final_of cancel before status) = true.
Proof. unfold final_of. destruct cancel, before; try done. by case_bool_decide. Qed.

Lemma final_of_before cancel status :
  final_of cancel true status = TFailed ∨ final_of cancel true status = TCancelled.
Proof. unfold final_of. destruct cancel; auto. Qed.

Lemma finish_fit s args t :
  columns_fit t = true → (∀ z, jf_status args = Some z → (i32_min ≤ z ≤ i32_max)%Z) →
  (∀ z, jf_rss_peak_kib args = Some z → in_u64 z = true) →
  columns_fit (with_finish s args (jf_rss_peak_kib args) t) = true.
Proof.
  unfold columns_fit. rewrite !andb_true_iff. intros [[H1 H2] H3] Hs Hp. cbn. split; [split; [done|]|].
  - destruct (jf_rss_peak_kib args) as [z|]; [by apply Hp|done].
  - destruct (jf_status args) as [z|]; [|done]. cbn. specialize (Hs z eq_refl).
    apply andb_true_iff. rewrite !Z.leb_le. lia.
Qed.

(** A running job, or one that could not start, ends. *)
Lemma finish_change d id cur args :
  work_wf (work d) → find_task id d = Some cur →
  (∀ z, jf_status args = Some z → (i32_min ≤ z ≤ i32_max)%Z) →
  (∀ z, jf_rss_peak_kib args = Some z → in_u64 z = true) →
  w_state cur = "running" ∨
    w_state cur = "claimed" ∧ is_Some (cl_requested (w_claim cur)) ∧ jf_before_start args = true →
  row_change BySystem cur
    (with_finish (final_of (rn_cancel_requested (w_run cur)) (jf_before_start args) (jf_status args)) args
       (jf_rss_peak_kib args) cur).
Proof.
  intros Hwf Hf Hst Hpk Hs. destruct (row_state _ _ _ Hwf Hf) as (s & Es & Hcol & Hfit).
  set (s' := final_of _ _ _). pose proof (final_of_final _ _ _ : is_final s' = true) as Hfin.
  assert (s = TRunning ∨ s = TClaimed ∧ is_Some (cl_requested (w_claim cur)) ∧ (s' = TFailed ∨ s' = TCancelled)) as Hs'.
  { destruct Hs as [E|(E & Hrq & Hb)]; [left|right]; rewrite E in Es; destruct s; try discriminate Es; [done|].
    split_and!; [done..|]. unfold s'. rewrite Hb. apply final_of_before. }
  constructor; try done.
  - rewrite Hfit. by apply finish_fit.
  - exists s'. split; [done|]. assert (rn_started (w_run cur) = None ∨ is_Some (cl_agent (w_claim cur)) ∧
      cl_accepted (w_claim cur) = cl_agent (w_claim cur) ∧ is_Some (sp_command (w_spec cur))) as Hstart.
    { destruct Hs' as [->|[-> _]]; cbn in Hcol; naive_solver. }
    destruct s'; try discriminate Hfin; cbn; (split; [eauto|]); destruct Hstart as [->|?]; try done; by intros [].
  - intros [E|E]; cbn in E; destruct s'; discriminate.
  - right. rewrite (view_of_state s cur Es), (view_of_state s') by done. cbn.
    assert (is_Some (cl_requested (w_claim cur))) as Hrq.
    { destruct Hs' as [->|[_ [? _]]]; [|done]. cbn in Hcol. naive_solver. }
    rewrite bool_decide_true by done. apply wl_finish; [done|]. naive_solver.
Qed.

Lemma work_wf_history d mk :
  work_wf (work d) → (∀ n k, jh_rss_peak (mk n) = Some k → (0 ≤ k)%Z) → work_wf (work (insert_history mk d)).
Proof.
  intros [] Hp.
  constructor; cbn [work insert_history set_history set_work work_tasks work_seq work_scopes job_history]; try done.
  intros x k [Hx| ->%list_elem_of_singleton]%elem_of_app Hk; eauto.
Qed.

Lemma peak_fits d id t k :
  work_wf (work d) → find_task id d = Some t → us_rss_peak (w_usage t) = Some k → (0 ≤ k)%Z.
Proof.
  intros Hwf Hf Hk. destruct (row_state _ _ _ Hwf Hf) as (_ & _ & _ & Hfit).
  unfold columns_fit in Hfit. rewrite !andb_true_iff in Hfit. destruct Hfit as [[_ Hp] _]. rewrite Hk in Hp.
  apply in_u64_spec in Hp. lia.
Qed.

Lemma finished_ok now op args cur d :
  work_wf (work d) → find_task (o_subject op) d = Some cur → parse_job_finish (o_arg op) = Some args →
  w_state cur = "running" ∨
    w_state cur = "claimed" ∧ is_Some (cl_requested (w_claim cur)) ∧ jf_before_start args = true →
  body_ok BySystem d (finished now op args cur d).
Proof.
  intros Hwf Hf Hargs Hs. unfold finished.
  set (f := with_finish _ _ _). set (d1 := update_task (o_subject op) f d).
  assert (body_ok BySystem d d1) as Hbody.
  { eapply (body_ok_update f); [exact Hwf|exact Hf|reflexivity|done|].
    eapply finish_change; try done; [intros z; by eapply job_finish_status|intros z; by eapply job_finish_peak]. }
  clearbody d1. clear Hs f. destruct (rn_started (w_run cur)) as [st|]; [|done]. destruct (jf_status args) as [z|]; [|done].
  case_bool_decide; [done|]. destruct Hbody as [Hwf1 Hstep]. split; [|exact Hstep].
  apply work_wf_history; [done|]. intros n k. cbn. destruct (jf_rss_peak_kib args) as [p|] eqn:Ep.
  - intros [= <-]. apply (job_finish_peak _ _ _ Hargs), in_u64_spec in Ep. lia.
  - destruct (find_task (o_subject op) d1) as [t|] eqn:Et; [|done]. cbn. by eapply peak_fits.
Qed.

Lemma job_finish_ok now op sync d r d' :
  work_wf (work d) → job_finish now op sync d = Ok (r, d') → system_step op now d d'.
Proof.
  intros Hwf (Hau & args & cur & d1 & Hargs & Hf & Hs & Hw & _ & Hsync)%job_finish_Ok.
  eapply system_step_intro; [done|].
  eapply (body_ok_to _ _ (finished now op args cur (with_nonce now op d))); [by apply finished_ok|].
  destruct sync as [s|]; [|by subst].
  apply card_job_sync_frames in Hsync as (kind & _ & [_ _ Hwk _]). rewrite Hwk, <- Hw. done.
Qed.

(** ** Notes, samples and retention *)

(** The tables stay well formed and the lifecycle sees nothing. *)
Definition unseen (d d' : db) : Prop := work_wf (work d) → work_wf (work d') ∧ ∀ id, view_at id d' = view_at id d.

#[local] Instance unseen_pre : PreOrder unseen.
Proof.
  split; [by intros d Hwf|]. intros a b c H1 H2 Hwf. destruct (H1 Hwf) as [Hb Hv], (H2 Hb) as [Hc Hw].
  split; [done|]. intros id. by rewrite Hw.
Qed.

Lemma unseen_body by' d d' : unseen d d' → work_wf (work d) → body_ok by' d d'.
Proof. intros H Hwf. destruct (H Hwf) as [Hwf' Hv]. split; [done|]. intros id. left. apply Hv. Qed.

Lemma unseen_update f d id :
  keeps_row f →
  (∀ t, find_task id d = Some t → w_spec (f t) = w_spec t ∧ w_state (f t) = w_state t ∧ w_claim (f t) = w_claim t ∧
     w_sigs (f t) = w_sigs t ∧ (columns_fit t = true → columns_fit (f t) = true) ∧
     ∀ s, columns_of_state s t → columns_of_state s (f t)) →
  unseen d (update_task id f d).
Proof.
  intros Hk Hf Hwf. destruct (find_task id d) as [t|] eqn:Et.
  - destruct (Hf t eq_refl) as (E1 & E2 & E3 & E4 & E5 & E6). destruct (row_state _ _ _ Hwf Et) as (s & Es & Hcol & Hfit).
    assert (view_of (f t) = view_of t) as Hv by (unfold view_of, fixed_of; by rewrite E1, E2, E3). split.
    + eapply (body_ok_update f BySystem); [exact Hwf|exact Et|reflexivity|done|].
      constructor; try done; [by rewrite E4|by rewrite E5| | |by left].
      * exists s. rewrite E2. auto.
      * unfold holds_files. by rewrite E2.
    + intros id'. unfold view_at. rewrite find_task_update by done.
      case_decide as E; [|by destruct (find_task id' d)]. rewrite E, Et. exact Hv.
  - assert (work (update_task id f d) = work d) as E.
    { rewrite update_task_work. destruct (work d) as [ts] eqn:Ew. cbn. f_equal.
      etrans; [|apply map_id]. apply map_ext_in. intros x Hx%list_elem_of_In. case_decide; [|done].
      exfalso. eapply find_task_None; [exact Et|rewrite Ew; exact Hx|done]. }
    split; [by rewrite E|]. intros id'. by apply view_at_same.
Qed.

Lemma job_note_ok now op d r d' :
  work_wf (work d) → job_note now op d = Ok (r, d') → system_step op now d d'.
Proof.
  intros Hwf H. unfold job_note in H. step authorize_system_record in H as ? [Hau ->]. wstep H.
  step current_Ok in H as cur [-> Hf]. repeat wstep H. eapply system_step_intro; [done|].
  eapply body_ok_to; [apply unseen_body; [by apply (unseen_update (set_note a))|exact Hwf]|reflexivity].
Qed.

Lemma job_sample_ok by' id cpu rss peak sampled d u d' :
  (0 ≤ rss)%Z → (0 ≤ peak)%Z → work_wf (work d) → job_sample id cpu rss peak sampled d = Ok (u, d') →
  body_ok by' d d'.
Proof.
  intros Hr Hp Hwf H. unfold job_sample in H. do 2 wstep H. apply execute_Ok in H as ->.
  apply to_i64_Ok in Hl as [-> Hl]. apply to_i64_Ok in Hl0 as [-> Hl0].
  apply unseen_body; [|done]. apply unseen_update.
  - constructor; intros t; by destruct (String.eqb _ _).
  - intros t Ht. destruct (String.eqb _ _); split_and!; try done.
    unfold columns_fit. rewrite !andb_true_iff. intros Hfit. cbn. unfold i64_max in *.
    split; [|apply Hfit]. rewrite !in_u64_spec. unfold u64_max. lia.
Qed.

Lemma work_prune_ok by' cutoff d r d' :
  work_wf (work d) → work_prune cutoff d = Ok (r, d') → body_ok by' d d'.
Proof.
  intros Hwf H. unfold work_prune in H. repeat wstep H. subst r.
  match goal with |- body_ok _ _ (foldl _ ?d0 ?l) => set (ids := l); set (d1 := d0) end.
  apply unseen_body; [|done]. transitivity d1.
  { intros _. split; [|done]. by destruct Hwf. }
  clearbody ids d1. clear. revert d1. induction ids as [|id ids IH]; intros d; cbn [foldl]; [done|].
  etrans; [|apply IH]. by apply unseen_update.
Qed.
End Jobs.
