(* ===== verification/Timers.v ===== *)
(** * agora-store: timers

    [src/crates/agora-store/src/timers.rs], [timers/template.rs] and
    [timers/fire.rs]: stored schedules that add a task when they are due. *)

From Stdlib Require Import Ascii.
From stdpp Require Import relations.
From S2P Require Import Prelude F64 Strs PyFmt Bytes Core Crypto Task Graph Order Claims Settings Timer.
From S2P Require Import Predict Signature StoreDb Identity Leases Policy Board WorkRow Work.

(** ** Data *)

Record TimerArgs : Type := mk_timer_args {
  ta_id : option string; ta_spec : TimerSpec; ta_template : AddArgs }.

Record TimerRecord : Type := mk_timer_record {
  ti_id : string; ti_owner : string; ti_owner_name : string; ti_spec : TimerSpec;
  ti_template : AddArgs; ti_enabled : bool; ti_next_fire_ms : option Z; ti_last_fire_ms : option Z;
  ti_fired : Z; ti_created_ms : Z }.

(** Serde of the arguments and of the two columns that hold JSON. *)
Class TimerCodec : Type := {
  parse_timer_args : string → option TimerArgs;
  parse_fire_args : string → option Z;
  spec_json : TimerSpec → string;
  parse_spec : string → option TimerSpec;
  template_json : AddArgs → string;
  parse_template : string → option AddArgs }.

(** The fields of a template that are not floats. *)
Definition same_template (a b : AddArgs) : Prop :=
  ad_id a = ad_id b ∧ ad_title a = ad_title b ∧ ad_kind a = ad_kind b ∧ ad_scope a = ad_scope b ∧
  ad_after a = ad_after b ∧ ad_files a = ad_files b ∧ ad_command a = ad_command b ∧
  ad_cwd a = ad_cwd b ∧ ad_card a = ad_card b.

(** A schedule is read back as it was written, and a template but for the last
    bits of its numbers; a time is an [i64]. *)
Class TimerCodecLaws (C : TimerCodec) : Prop := {
  fire_args_fit s ms : parse_fire_args s = Some ms → (i64_min ≤ ms ≤ i64_max)%Z;
  spec_json_parse spec : parse_spec (spec_json spec) = Some spec;
  template_json_parse t : ∃ t', parse_template (template_json t) = Some t' ∧ same_template t t' }.

Definition TIMER_ID_LIMIT : nat := 100.
Definition TITLE_LIMIT : nat := 200.
Definition CWD_LIMIT : nat := 4096.

(** The first candidate that is free, from the [i]-th on. *)
Fixpoint first_free (fuel : nat) (candidate : nat → string) (taken : string → bool) (i : nat) : option string :=
  match fuel with
  | O => None
  | S k => if taken (candidate i) then first_free k candidate taken (S i) else Some (candidate i)
  end.

(** ** Rows *)

Definition find_timer (id : string) (d : db) : option timer_row :=
  snd <$> list_find (λ t, tm_id t = id) (timers (work d)).

Definition timer_exists (id : string) (d : db) : bool :=
  existsb (λ t, bool_decide (tm_id t = id)) (timers (work d)).

Definition update_timer (id : string) (f : timer_row → timer_row) (d : db) : db :=
  set_timers (map (λ t, if decide (tm_id t = id) then f t else t) (timers (work d))) d.

(** [SET enabled=0, next_fire=NULL]. *)
Definition disabled_timer (t : timer_row) : timer_row :=
  mk_timer_row (tm_id t) (tm_owner t) (tm_spec t) (tm_template t) false None (tm_last_fire t) (tm_fired t)
    (tm_created t).

(** [SET enabled=?, next_fire=?, last_fire=?, fired=fired+1]. *)
Definition fired_timer (next : option Z) (fire_ms : Z) (t : timer_row) : timer_row :=
  mk_timer_row (tm_id t) (tm_owner t) (tm_spec t) (tm_template t) (bool_decide (is_Some next)) next
    (Some fire_ms) (tm_fired t + 1) (tm_created t).

(** The owner of a card, if there is such a card. *)
Definition card_owner (card : string) : tx (option (option string)) :=
  query (λ d, c_owner <$> find_card card d).

Section Timers.
Context `{P : Prims} `{LC : LeaseCodec} `{C : WorkCodec} `{TC : TimerCodec}.

Definition timer_record (t : timer_row) : result StoreError TimerRecord :=
  pk ← ok_or (unhex32 (tm_owner t)) (Invalid "corrupt timer owner in database");
  spec ← ok_or (parse_spec (tm_spec t)) (Invalid "corrupt timer spec in database");
  template ← ok_or (parse_template (tm_template t)) (Invalid "corrupt timer template in database");
  fired ← (if in_u32 (tm_fired t) then Ok (tm_fired t)
           else Err (Invalid "corrupt fire count in database"));
  Ok (mk_timer_record (tm_id t) (tm_owner t) (pseudonym pk) spec template (tm_enabled t) (tm_next_fire t)
        (tm_last_fire t) fired (tm_created t)).

Definition load_timer (id : string) : tx (option TimerRecord) :=
  row ← query (find_timer id);
  match row with
  | None => mret None
  | Some t => r ← lift (timer_record t); mret (Some r)
  end.

(** The task that was inserted, read back. *)
Definition timer_load_task (id : string) : tx TaskRecord :=
  row ← query (find_task id);
  match row with
  | None => fail (Sql "Query returned no rows")
  | Some t => lift (task_from_row t)
  end.

(** One candidate more than there are timers is enough. *)
Definition next_timer_id : tx string :=
  found ← query (λ d, let ts := timers (work d) in
    first_free (S (length ts)) (λ i, "timer-" +:+ dec (sat_i64 (Z.of_nat (length ts) + 1 + Z.of_nat i)))
      (λ id, timer_exists id d) 0);
  lift (ok_or found StoreIo).

(** ** Templates *)

Definition positive (value : f64) (message : string) : tx unit :=
  guard (negb (is_finite value && f_lt f_zero value)) (Invalid message).

Definition check_template_cwd (template : AddArgs) : tx unit :=
  match ad_cwd template with
  | Some cwd =>
      refuse (check_text "cwd" cwd CWD_LIMIT) ≫= λ _,
      guard (negb (starts_with "/" cwd)) (Invalid "the working directory must be an absolute path")
  | None => guard (bool_decide (is_Some (ad_command template))) (Invalid "a command needs a working directory")
  end.

Definition template_file (cwd : option string) (file : string) : result StoreError string :=
  if String.eqb file "~" || starts_with "~/" file
  then Err (Refused ("file " +:+ file +:+ " is not expanded in a timer template: use an absolute path"))
  else if negb (starts_with "/" file) && bool_decide (cwd = None)
  then Err (Refused ("file " +:+ file +:+ " is relative and the template has no cwd"))
  else match canonical_path file (default "/" cwd) None with Ok p => Ok p | Err e => Err (Refused e) end.

Fixpoint check_template_after (l : list string) : tx unit :=
  match l with
  | [] => mret tt
  | x :: l' =>
      refuse (validate_name "after" x) ≫= λ _,
      known ← query (task_exists x);
      guard (negb known) (Refused ("after " +:+ x +:+ " is not a task")) ≫= λ _,
      check_template_after l'
  end.

Definition with_template_files (files : list string) (t : AddArgs) : AddArgs :=
  mk_add_args (ad_id t) (ad_title t) (ad_kind t) (ad_scope t) (ad_after t) (ad_size t) (ad_value t) files
    (ad_weight t) (ad_command t) (ad_cwd t) (ad_card t).

Definition check_template (owner : string) (role : Role) (template : AddArgs) : tx AddArgs :=
  guard (bool_decide (is_Some (ad_id template)))
    (Invalid "a timer template takes no task id: its tasks are named <timer>-<n>") ≫= λ _,
  guard (Nat.ltb MAX_ITEMS (length (ad_files template)) || Nat.ltb MAX_ITEMS (length (ad_after template)))
    (Invalid "too many files or prerequisites") ≫= λ _,
  refuse (validate_kind (ad_kind template)) ≫= λ _,
  refuse (check_text "title" (ad_title template) TITLE_LIMIT) ≫= λ _,
  match ad_scope template with
  | Some scope =>
      refuse (validate_name "scope" scope) ≫= λ _,
      known ← query (scope_known scope);
      guard (negb known) (Refused ("unknown scope " +:+ scope))
  | None => mret tt
  end ≫= λ _,
  check_template_after (ad_after template) ≫= λ _,
  positive (ad_size template) "size must be a positive number" ≫= λ _,
  positive (ad_value template) "value must be a positive number" ≫= λ _,
  guard (negb (is_finite (ad_weight template) && f_le MIN_WEIGHT (ad_weight template)))
    (Invalid "weight must be at least 0.1") ≫= λ _,
  match ad_command template with
  | Some argv => refuse (check_command argv)
  | None => mret tt
  end ≫= λ _,
  check_template_cwd template ≫= λ _,
  files ← lift (try_map (template_file (ad_cwd template)) (ad_files template));
  let too_broad := if role_lt role Supervisor then List.find (λ file, Nat.ltb (path_depth file) 2) files
                   else None in
  match too_broad with
  | Some file => fail (Refused (printable file +:+ " is too broad to claim"))
  | None => mret tt
  end ≫= λ _,
  match ad_card template with
  | Some card =>
      refuse (validate_name "card" card) ≫= λ _,
      found ← card_owner card;
      owned_by ← lift (ok_or found (NotFound ("card " +:+ card)));
      if bool_decide (owned_by = Some owner) then mret tt else need role Supervisor
  | None => mret tt
  end ≫= λ _,
  mret (with_template_files files template).

(** ** Operations *)

Definition timer_create (now : Z) (op : SignedOp) : tx TimerRecord :=
  role ← authorize now op "timer.create";
  need role Worker ≫= λ _,
  args ← lift (ok_or (parse_timer_args (o_arg op)) (Invalid "timer arg must be a timer JSON object"));
  refuse (validate (ta_spec args)) ≫= λ _,
  let owner := actor_hex op in
  id ← match ta_id args with
       | Some id =>
           guard (Nat.ltb TIMER_ID_LIMIT (length (chars id))) (Invalid "timer id is longer than 100 characters") ≫= λ _,
           refuse (validate_name "timer id" id) ≫= λ _,
           mret id
       | None => next_timer_id
       end;
  known ← query (timer_exists id);
  guard known (Invalid "timer already exists") ≫= λ _,
  checked ← check_template owner role (ta_template args);
  s ← settings_in;
  enabled ← query (λ d, Z.of_nat (length (List.filter
              (λ t, String.eqb (tm_owner t) owner && tm_enabled t) (timers (work d)))));
  guard (timer_quota s <=? enabled)%Z
    (Refused ("timer quota reached: " +:+ dec enabled +:+ " of " +:+ dec (timer_quota s) +:+ " enabled timers")) ≫= λ _,
  next ← lift (ok_or (first_fire (ta_spec args) now) (Refused "the schedule never fires"));
  execute (λ d, set_timers (timers (work d) ++ [mk_timer_row id owner (spec_json (ta_spec args))
    (template_json checked) true (Some next) None 0 now]) d) ≫= λ _,
  append now owner "timer.created" id
    (VObject [("spec", VString (describe (ta_spec args))); ("next_fire", VNumber (NInt next))]) ≫= λ _,
  created ← load_timer id;
  lift (ok_or created (NotFound ("timer " +:+ id))).

Definition timer_delete (now : Z) (op : SignedOp) : tx unit :=
  role ← authorize now op "timer.delete";
  let id := o_subject op in
  row ← query (find_timer id);
  owner ← lift (ok_or (tm_owner <$> row) (NotFound ("timer " +:+ id)));
  let actor := actor_hex op in
  (if bool_decide (owner = actor) then mret tt else need role Supervisor) ≫= λ _,
  execute (λ d, set_timers (List.filter (λ t, negb (String.eqb (tm_id t) id)) (timers (work d))) d) ≫= λ _,
  append now actor "timer.deleted" id (VObject []) ≫= λ _,
  mret tt.

(** The reads: [ORDER BY created, id], [MIN(next_fire)] and [ORDER BY next_fire, id]. *)
Definition timer_order (a b : timer_row) : comparison :=
  then_with (Z.compare (tm_created a) (tm_created b)) (String.compare (tm_id a) (tm_id b)).

Definition timers_of (owner : option string) : tx (list TimerRecord) :=
  rows ← query (λ d, sort_by timer_order
    (List.filter (λ t, from_option (String.eqb (tm_owner t)) true owner) (timers (work d))));
  lift (try_map timer_record rows).

Definition min_opt (a b : option Z) : option Z :=
  match a, b with Some x, Some y => Some (Z.min x y) | Some x, None => Some x | None, _ => b end.

Definition next_timer_due : tx (option Z) :=
  query (λ d, foldr (λ t m, if tm_enabled t then min_opt (tm_next_fire t) m else m) None (timers (work d))).

(** A [NULL] next fire is not due, and sorts first. *)
Definition due_order (a b : timer_row) : comparison :=
  then_with (Z.compare (default i64_min (tm_next_fire a)) (default i64_min (tm_next_fire b)))
    (String.compare (tm_id a) (tm_id b)).

Definition row_due (now : Z) (t : timer_row) : bool :=
  tm_enabled t && from_option (λ n, n <=? now)%Z false (tm_next_fire t).

Definition due_timers (now : Z) : tx (list TimerRecord) :=
  rows ← query (λ d, sort_by due_order (List.filter (row_due now) (timers (work d))));
  lift (try_map timer_record rows).

Definition is_due (timer : TimerRecord) (now : Z) : bool :=
  ti_enabled timer && from_option (λ next, next <=? now)%Z false (ti_next_fire_ms timer).

(** ** Firing *)

(** [<timer>-<n>], or [<timer>-<n>-<k>]; one candidate more than there are tasks
    is enough. *)
Definition task_candidate (base : string) (i : nat) : string :=
  match i with O => base | S _ => base +:+ "-" +:+ dec (sat_u64 (1 + Z.of_nat i)) end.

Definition next_task_id (timer : string) (n : Z) : tx string :=
  found ← query (λ d, first_free (S (length (work_tasks (work d)))) (task_candidate (timer +:+ "-" +:+ dec n))
                        (λ id, task_exists id d) 0);
  lift (ok_or found StoreIo).

Definition canonical_cwd (real : string → option string) (cwd : string) : string := default cwd (real cwd).

(** The prerequisites that still exist, and a note for each that does not. *)
Fixpoint keep_after (l : list string) (d : db) : list string * list string :=
  match l with
  | [] => ([], [])
  | x :: l' =>
      let '(after, notes) := keep_after l' d in
      if task_exists x d then (x :: after, notes)
      else (after, ("prerequisite " +:+ x +:+ " no longer exists") :: notes)
  end.

Definition keep_scope (scope : option string) (d : db) : option string * list string :=
  match scope with
  | Some s => if scope_known s d then (Some s, []) else (None, ["scope " +:+ s +:+ " no longer exists"])
  | None => (None, [])
  end.

Definition keep_card (owner : string) (role : Role) (card : option string) (d : db) : option string * list string :=
  match card with
  | Some c =>
      match c_owner <$> find_card c d with
      | None => (None, ["card " +:+ c +:+ " no longer exists"])
      | Some owned_by =>
          if bool_decide (owned_by = Some owner) || role_le Supervisor role then (Some c, [])
          else (None, ["card " +:+ c +:+ " is no longer owned by the timer owner"])
      end
  | None => (None, [])
  end.

Definition fired_task (now : Z) (id origin note : string) (owner : string) (scope : option string)
    (after : list string) (cwd card : option string) (template : AddArgs) (seq : Z) : work_task :=
  mk_work_task seq id
    (mk_task_spec (ad_title template) (ad_kind template) scope owner now (list_json after) (ad_size template)
       (ad_value template) (list_json (ad_files template)) (list_json <$> ad_command template) cwd
       (ad_weight template) card (Some origin))
    "queued" (mk_task_claim None None None None)
    (mk_task_run None None None None None None None None false None false)
    (mk_task_usage None None None None None) (mk_task_sigs None None None None None) note.

(** The role of the owner, if it may still work. *)
Definition owner_role (pk : string) (d : db) : option Role :=
  i ← find_ident pk d;
  if i_revoked i then None
  else role ← role_parse (i_role i); if role_le Worker role then Some role else None.

Definition fire_timer (now : Z) (real : string → option string) (system : string) (timer : TimerRecord)
    (fire_ms : Z) : tx (option TaskRecord) :=
  pk ← lift (ok_or (unhex32 (ti_owner timer)) (Invalid "corrupt timer owner in database"));
  role ← query (owner_role pk);
  match role with
  | None =>
      execute (update_timer (ti_id timer) disabled_timer) ≫= λ _,
      append now system "timer.disabled" (ti_id timer)
        (VObject [("reason", VString "owner is revoked, unknown or no longer a worker")]) ≫= λ _,
      mret None
  | Some role =>
      task_id ← next_task_id (ti_id timer) (ti_fired timer + 1);
      let origin := "timer:" +:+ ti_id timer in
      let template := ti_template timer in
      kept ← query (λ d, (keep_scope (ad_scope template) d, keep_after (ad_after template) d,
                          keep_card (ti_owner timer) role (ad_card template) d));
      let '((scope, n1), (after, n2), (card, n3)) :=
        (kept : (option string * list string) * (list string * list string) * (option string * list string)) in
      let cwd := canonical_cwd real <$> ad_cwd template in
      execute (insert_work_task (fired_task now task_id origin (join "; " (n1 ++ n2 ++ n3)) (ti_owner timer)
        scope after cwd card template)) ≫= λ _,
      append now system "work.added" task_id
        (VObject [("origin", VString origin); ("scope", v_opt scope);
                  ("detail", VString ("timer " +:+ ti_id timer))]) ≫= λ _,
      let next := next_fire (ti_spec timer) fire_ms now in
      execute (update_timer (ti_id timer) (fired_timer next fire_ms)) ≫= λ _,
      append now system "timer.fired" (ti_id timer)
        (VObject [("task", VString task_id); ("fire_ms", VNumber (NInt fire_ms)); ("scope", v_opt scope);
                  ("detail", VString ("timer " +:+ ti_id timer))]) ≫= λ _,
      t ← timer_load_task task_id;
      mret (Some t)
  end.

Definition timer_fire (now : Z) (real : string → option string) (op : SignedOp) : tx (option TaskRecord) :=
  authorize_system now op "timer.fire" ≫= λ _,
  fire_ms ← lift (ok_or (parse_fire_args (o_arg op)) (Invalid "timer.fire arg must be a fire time JSON object"));
  timer ← load_timer (o_subject op);
  match timer with
  | Some t => if is_due t now then fire_timer now real (actor_hex op) t fire_ms else mret None
  | None => mret None
  end.
End Timers.
