(* ===== verification/TimerInv.v ===== *)
(** * Timers: what holds of the stored ones

    Their rows decode, a timer is enabled exactly as long as it has a next fire,
    and firing one that is due adds one task of its owner's, or disables it, and
    leaves it not due. *)

From Stdlib Require Import Ascii.
From stdpp Require Import relations.
From S2P Require Import Prelude F64 Strs PyFmt Bytes Core Crypto Task Graph Order Claims Settings Civil Cron Timer.
From S2P Require Import Predict Signature StoreDb Identity Leases Policy Board BoardLog WorkRow Work.
From S2P Require Import Jobs WorkFrames WorkInv WorkSteps WorkNext WorkAdd Timers.

(** ** Free candidates *)

Lemma first_free_Some fuel cand taken i x :
  first_free fuel cand taken i = Some x → taken x = false ∧ ∃ j, i ≤ j ∧ x = cand j.
Proof.
  revert i. induction fuel as [|k IH]; intros i; cbn; [done|]. destruct (taken (cand i)) eqn:E.
  - intros (? & j & ? & ?)%IH. split; [done|]. exists j. split; [lia|done].
  - intros [= <-]. split; [done|]. by exists i.
Qed.

Lemma first_free_None fuel cand taken i :
  first_free fuel cand taken i = None → ∀ j, i ≤ j < i + fuel → taken (cand j) = true.
Proof.
  revert i. induction fuel as [|k IH]; intros i; cbn; [lia|]. destruct (taken (cand i)) eqn:E; [|done].
  intros H j Hj. destruct (decide (j = i)) as [->|Hne]; [done|]. apply (IH (S i)); [done|lia].
Qed.

(** More distinct candidates than are taken: one is free. *)
Lemma first_free_total (l : list string) cand taken :
  (∀ x, taken x = true → x ∈ l) →
  (∀ i j, i ≤ length l → j ≤ length l → cand i = cand j → i = j) →
  is_Some (first_free (S (length l)) cand taken 0).
Proof.
  intros Hin Hinj. destruct (first_free _ _ _ _) as [x|] eqn:E; [by eexists|exfalso].
  pose proof (first_free_None _ _ _ _ E) as Ht.
  assert ((cand <$> seq 0 (S (length l))) ⊆+ l) as Hs.
  { apply NoDup_submseteq.
    - apply NoDup_fmap_2_strong; [|apply NoDup_seq]. intros i j Hi%elem_of_seq Hj%elem_of_seq. apply Hinj; lia.
    - intros x (i & -> & Hi%elem_of_seq)%list_elem_of_fmap. apply Hin, Ht. lia. }
  apply submseteq_length in Hs. rewrite length_fmap, length_seq in Hs. lia.
Qed.

Lemma app_dash_ne base s : s ≠ "" → base +:+ s ≠ base.
Proof.
  intros Hs E. assert (String.length (base +:+ s) = String.length base) as El by (by rewrite E).
  rewrite length_str_app in El. destruct s; [done|]. cbn in El. lia.
Qed.

Lemma task_candidate_inj base i j :
  (Z.of_nat i < u64_max)%Z → (Z.of_nat j < u64_max)%Z → task_candidate base i = task_candidate base j → i = j.
Proof.
  intros Hi Hj. destruct i as [|i], j as [|j]; cbn [task_candidate]; intros E; try done.
  - symmetry in E. by apply app_dash_ne in E.
  - by apply app_dash_ne in E.
  - apply (inj (String.append base)), (inj (String.append "-")) in E.
    apply dec_inj in E; unfold sat_u64 in *; lia.
Qed.

(** ** Frames *)

(** What a timer operation leaves alone after its envelope. *)
Record timer_frame (d d' : db) : Prop := {
  tf_quiet : quiet_frame d d';
  tf_leases : leases d' = leases d;
  tf_marks : reconcile_marks (work d') = reconcile_marks (work d) }.

#[export] Instance timer_frame_pre : PreOrder timer_frame.
Proof. split; [by intros d|]. intros a b c [] []. constructor; [by etrans|congruence..]. Qed.

Lemma work_timer_frame d d' : work_frame d d' → timer_frame d d'.
Proof. by intros []. Qed.

Lemma timer_frame_set w d : reconcile_marks w = reconcile_marks (work d) → timer_frame d (set_work w d).
Proof. done. Qed.

Section Timers.
Context `{P : Prims} `{LC : LeaseCodec} `{C : WorkCodec} `{TC : TimerCodec}.

Lemma check_template_after_frames l : frames timer_frame (check_template_after l).
Proof. induction l; cbn [check_template_after]; unfold refuse; repeat frame_step. done. Qed.

Lemma check_template_frames owner role t : frames timer_frame (check_template owner role t).
Proof.
  unfold check_template, positive, check_template_cwd, card_owner, refuse.
  repeat first [frame_step|apply check_template_after_frames].
Qed.

Ltac timer_frames :=
  repeat first
    [ frame_step
    | apply check_template_frames
    | solve [apply timer_frame_set; reflexivity]
    | apply work_timer_frame, work_frame_logged; by repeat split
    | progress unfold refuse, load_timer, next_timer_id, settings_in, fire_timer, next_task_id, timer_load_task ].

Lemma timer_create_frames now op : enveloped timer_frame now op (timer_create now op).
Proof. apply enveloped_intro. intros role. timer_frames. Qed.

Lemma timer_delete_frames now op : enveloped timer_frame now op (timer_delete now op).
Proof. apply enveloped_intro. intros role. timer_frames. Qed.

Lemma timer_fire_frames now real op : sys_enveloped timer_frame now op (timer_fire now real op).
Proof. apply sys_enveloped_intro. intros u. timer_frames. Qed.

(** ** The invariant *)

(** A row decodes, its schedule is valid and its files canonical, and it is
    enabled while it has a next fire. *)
Record timer_ok (t : timer_row) : Prop := {
  to_owner : is_Some (unhex32 (tm_owner t));
  to_spec : ∃ spec, parse_spec (tm_spec t) = Some spec ∧ validate spec = Ok tt;
  to_template : ∃ a, parse_template (tm_template t) = Some a ∧ canonical (ad_files a);
  to_fired : (0 ≤ tm_fired t)%Z;
  to_enabled : tm_enabled t = bool_decide (is_Some (tm_next_fire t)) }.

Record timers_wf (w : work_tables) : Prop := {
  tiw_ids : NoDup (tm_id <$> timers w);
  tiw_row t : t ∈ timers w → timer_ok t }.

Lemma timers_wf_same w w' : timers w' = timers w → timers_wf w → timers_wf w'.
Proof. intros E [H1 H2]. constructor; by rewrite E. Qed.

(** Only the tasks, the scopes and the history matter to the queue. *)
Lemma work_wf_tables w w' :
  work_tasks w' = work_tasks w → work_seq w' = work_seq w → work_scopes w' = work_scopes w →
  job_history w' = job_history w → work_wf w → work_wf w'.
Proof. intros E1 E2 E3 E4 []. constructor; rewrite ?E1, ?E2, ?E3, ?E4; done. Qed.

Lemma find_timer_Some id d t : find_timer id d = Some t → t ∈ timers (work d) ∧ tm_id t = id.
Proof.
  unfold find_timer. destruct (list_find _ _) as [[n x]|] eqn:E; [|done]. intros [= <-].
  apply list_find_Some in E as (Hl & Hid & _). split; [by eapply list_elem_of_lookup_2|done].
Qed.

Lemma timer_exists_true id d : timer_exists id d = true ↔ ∃ t, t ∈ timers (work d) ∧ tm_id t = id.
Proof. unfold timer_exists. rewrite existsb_elem. by setoid_rewrite bool_decide_eq_true. Qed.

Lemma timers_update d id f :
  (∀ t, tm_id (f t) = tm_id t) → (∀ t, timer_ok t → timer_ok (f t)) →
  timers_wf (work d) → timers_wf (work (update_timer id f d)).
Proof.
  intros Hid Hf [H1 H2]. constructor; cbn.
  - by rewrite (keys_update tm_id) by (intros t; by case_decide).
  - intros t (u & -> & Hu)%list_elem_of_fmap. case_decide; auto.
Qed.

Lemma disabled_ok t : timer_ok t → timer_ok (disabled_timer t).
Proof. by intros []. Qed.

Lemma fired_ok next ms t : timer_ok t → timer_ok (fired_timer next ms t).
Proof. intros []. constructor; cbn; try done. lia. Qed.

Lemma load_timer_Ok id d r d' :
  load_timer id d = Ok (r, d') → d' = d ∧
  match r with
  | None => find_timer id d = None
  | Some tr => ∃ t, find_timer id d = Some t ∧ timer_record t = Ok tr
  end.
Proof.
  unfold load_timer. intros H. step query_Ok in H as row [-> ->]. destruct (find_timer id d) as [t|] eqn:E.
  - step lift_Ok in H as tr [Hr ->]. apply mret_Ok in H as [-> ->]. eauto.
  - by apply mret_Ok in H as [-> ->].
Qed.

(** What a record says of its row. *)
Lemma timer_record_Ok t tr :
  timer_record t = Ok tr → ti_id tr = tm_id t ∧ ti_owner tr = tm_owner t ∧ parse_spec (tm_spec t) = Some (ti_spec tr) ∧
  parse_template (tm_template t) = Some (ti_template tr) ∧ ti_enabled tr = tm_enabled t ∧
  ti_next_fire_ms tr = tm_next_fire t ∧ ti_fired tr = tm_fired t.
Proof.
  unfold timer_record. destruct (unhex32 _); [|done]. destruct (parse_spec _); [|done].
  destruct (parse_template _); [|done]. destruct (in_u32 _); [|done]. by intros [= <-].
Qed.

Lemma timer_record_total t :
  timer_ok t → (tm_fired t ≤ u32_max)%Z → ∃ tr, timer_record t = Ok tr.
Proof.
  intros [[pk Ho] (spec & Hs & _) (a & Ha & _) Hf _] Hm. unfold timer_record. rewrite Ho, Hs, Ha. cbn.
  unfold in_u32. rewrite (proj2 (Z.leb_le _ _) Hf), (proj2 (Z.leb_le _ _) Hm). cbn. by eexists.
Qed.

(** ** Creating and deleting *)

Lemma next_timer_id_Ok d id d' : next_timer_id d = Ok (id, d') → d' = d.
Proof. unfold next_timer_id. intros H. step query_Ok in H as ? [-> ->]. by apply lift_Ok in H as [_ ->]. Qed.

Lemma template_files_canonical cwd raws files :
  try_map (template_file cwd) raws = Ok files → canonical files.
Proof.
  revert files. induction raws as [|raw raws IH]; intros files; cbn [try_map]; [intros [= <-]; apply canonical_nil|].
  destruct (template_file cwd raw) as [p|] eqn:E; [|done]. cbn. destruct (try_map _ raws) as [ps|]; [|done].
  intros [= <-]. change (p :: ps) with ([p] ++ ps). apply canonical_app; [|by apply IH].
  unfold template_file in E. repeat case_match; simplify_eq. by eapply canonical_path_Ok.
Qed.

Lemma check_template_after_Ok l d u d' : check_template_after l d = Ok (u, d') → d' = d.
Proof.
  induction l as [|x l IH]; cbn [check_template_after]; intros H; [by apply mret_Ok in H as [_ ->]|].
  repeat wstep H. auto.
Qed.

Lemma check_template_Ok owner role t d t' d' :
  check_template owner role t d = Ok (t', d') → d' = d ∧ canonical (ad_files t').
Proof.
  unfold check_template, positive. intros H. do 4 wstep H.
  apply tx_bind_Ok in H as (v1 & d1 & E1 & H). assert (d1 = d) as ->.
  { destruct (ad_scope t); [|by wstep E1]. do 2 wstep E1. by apply guard_Ok in E1 as [_ ->]. }
  step check_template_after_Ok in H as ? ->. do 3 wstep H.
  apply tx_bind_Ok in H as (v2 & d1 & E2 & H). assert (d1 = d) as ->.
  { destruct (ad_command t); [by apply refuse_Ok in E2 as [_ ->]|by wstep E2]. }
  apply tx_bind_Ok in H as (v3 & d1 & E3 & H). assert (d1 = d) as ->.
  { unfold check_template_cwd in E3. destruct (ad_cwd t); [wstep E3|]; by apply guard_Ok in E3 as [_ ->]. }
  wstep H. apply tx_bind_Ok in H as (v4 & d1 & E4 & H). assert (d1 = d) as ->.
  { repeat case_match; try done; by wstep E4. }
  apply tx_bind_Ok in H as (v5 & d1 & E5 & H). assert (d1 = d) as ->.
  { destruct (ad_card t); [|by wstep E5]. wstep E5. unfold card_owner in E5. do 2 wstep E5.
    case_bool_decide; [by wstep E5|by apply need_Ok in E5 as [-> _]]. }
  apply mret_Ok in H as [-> ->]. split; [done|]. cbn. by eapply template_files_canonical.
Qed.

Context {TL : TimerCodecLaws TC}.

Lemma timer_create_ok now op d r d' :
  ident_wf (identities d) → work_wf (work d) → timers_wf (work d) → timer_create now op d = Ok (r, d') →
  (∃ kind role, authorized now op kind role d) ∧ work_wf (work d') ∧ timers_wf (work d') ∧ ∀ by', work_step by' d d'.
Proof.
  intros Hidw Hwf [H1 H2] H. unfold timer_create in H. do 4 wstep H.
  apply tx_bind_Ok in H as (id & d1 & Eid & H). assert (d1 = with_nonce now op d) as ->.
  { destruct (ta_id a); [by repeat wstep Eid|by apply next_timer_id_Ok in Eid]. }
  do 2 wstep H. step check_template_Ok in H as checked [-> Hcan]. do 4 wstep H. do 2 wstep H.
  step load_timer_Ok in H as ? [-> _]. apply lift_Ok in H as [_ ->].
  destruct u0. destruct (au_role _ _ _ _ _ Hau) as (i & Hi & _). apply find_ident_Some in Hi as [Hi Hk].
  split_and!; [by eauto|by apply (work_wf_tables (work d))| |intros by' z; by left].
  destruct (template_json_parse checked) as (t' & Ht & Hsame).
  constructor; cbn.
  - apply keys_insert; [done|]. intros t Ht' E. assert (timer_exists id (with_nonce now op d) = true); [|congruence].
    apply timer_exists_true. eauto.
  - intros t [Ht'| ->%list_elem_of_singleton]%elem_of_app; [by apply H2|]. constructor; cbn; try done.
    + unfold actor_hex. rewrite unhex32_hex; [by eexists|]. rewrite <- Hk. by apply Hidw.
    + rewrite spec_json_parse. eauto.
    + exists t'. split; [done|]. destruct Hsame as (_ & _ & _ & _ & _ & <- & _). done.
Qed.

Lemma timer_delete_ok now op d r d' :
  work_wf (work d) → timers_wf (work d) → timer_delete now op d = Ok (r, d') →
  (∃ kind role, authorized now op kind role d) ∧ work_wf (work d') ∧ timers_wf (work d') ∧ ∀ by', work_step by' d d'.
Proof.
  intros Hwf [H1 H2] H. unfold timer_delete in H. do 3 wstep H.
  apply tx_bind_Ok in H as (v1 & d1 & E1 & H). assert (d1 = with_nonce now op d) as ->.
  { case_bool_decide; [by wstep E1|by apply need_Ok in E1 as [-> _]]. }
  repeat wstep H. split_and!; [by eauto|by apply (work_wf_tables (work d))| |intros by' z; by left].
  constructor; cbn.
  - eapply sublist_NoDup; [exact H1|]. apply fmap_sublist, bool_filter_sublist.
  - intros t [Ht _]%list_elem_of_In%List.filter_In. apply H2. by apply list_elem_of_In.
Qed.

(** ** Firing *)

(** The next fire is after now, whatever time is given for the last. *)
Lemma next_fire_later spec ms now n :
  validate spec = Ok tt → (i64_min ≤ now ≤ i64_max)%Z → (i64_min ≤ ms ≤ i64_max)%Z →
  next_fire spec ms now = Some n → (now < n)%Z.
Proof.
  intros Hv Hnow Hms H. destruct spec as [at_ms|every_s start|expr]; cbn [next_fire validate] in *; [done|..].
  - destruct (every_s <? MIN_EVERY_S)%Z eqn:Em; [done|]. apply Z.ltb_ge in Em. unfold MIN_EVERY_S in Em.
    destruct (period_ms every_s) as [p|] eqn:Ep; [|done]. cbn in H.
    assert (p = every_s * 1000)%Z as ->.
    { unfold period_ms in Ep. destruct (checked_i64 every_s) as [z|] eqn:E1; [|done].
      apply checked_i64_Some in E1 as [-> _]. cbn in Ep. by apply checked_i64_Some in Ep as [-> _]. }
    rewrite (proj2 (Z.ltb_lt _ _)) in H by lia. set (anchor := default ms start) in *.
    destruct (checked_i64 (now - anchor)) as [ahead|] eqn:E1; [|done]. apply checked_i64_Some in E1 as [-> _]. cbn in H.
    destruct (checked_i64 ((now - anchor) / _ + 1)) as [steps|] eqn:E2; [|done]. apply checked_i64_Some in E2 as [-> _]. cbn in H.
    destruct (checked_i64 (_ * _)) as [dist|] eqn:E3; [|done]. apply checked_i64_Some in E3 as [-> _]. cbn in H.
    apply checked_i64_Some in H as [-> _].
    pose proof (Z.mod_pos_bound (now - anchor) (every_s * 1000) ltac:(lia)).
    pose proof (Z.div_mod (now - anchor) (every_s * 1000) ltac:(lia)). lia.
  - destruct (Cron_parse expr) as [c|] eqn:Ec; [|done]. cbn in H.
    pose proof (next_after_spec c (Z.max now ms)) as Hs. rewrite H in Hs.
    destruct Hs as [Hs _]; [by eapply Cron_parse_ok|lia|lia].
Qed.

Lemma next_task_id_Ok timer n d id d' :
  next_task_id timer n d = Ok (id, d') → d' = d ∧ task_exists id d = false.
Proof.
  unfold next_task_id. intros H. step query_Ok in H as found [-> ->]. apply lift_Ok in H as [H ->]. split; [done|].
  destruct (first_free _ _ _ _) as [x|] eqn:E; [|done]. injection H as ->. by apply first_free_Some in E as [? _].
Qed.

Lemma next_task_id_total timer n d :
  (Z.of_nat (length (work_tasks (work d))) < u64_max)%Z → ∃ id, next_task_id timer n d = Ok (id, d).
Proof.
  intros Hl. unfold next_task_id, mbind, tx_bind, query, lift.
  destruct (first_free_total (w_id <$> work_tasks (work d)) (task_candidate (timer +:+ "-" +:+ dec n))
    (λ id, task_exists id d)) as [id Hid].
  - intros x (t & Ht & <-)%task_exists_true. by apply list_elem_of_fmap_2.
  - rewrite length_fmap. intros i j Hi Hj. apply task_candidate_inj; lia.
  - rewrite length_fmap in Hid. rewrite Hid. by exists id.
Qed.

Lemma keep_after_known l d x : x ∈ (keep_after l d).1 → task_exists x d = true.
Proof.
  induction l as [|y l IH]; cbn; [by intros ?%elem_of_nil|]. destruct (keep_after l d) as [after notes]. cbn in IH.
  destruct (task_exists y d) eqn:E; cbn; [|done]. intros [->|Hx]%elem_of_cons; auto.
Qed.

Lemma keep_scope_known scope d x : (keep_scope scope d).1 = Some x → scope_known x d = true.
Proof. unfold keep_scope. destruct scope as [s|]; [|done]. destruct (scope_known s d) eqn:E; [|done]. by intros [= <-]. Qed.

Lemma timer_load_task_Ok id d r d' : timer_load_task id d = Ok (r, d') → d' = d.
Proof.
  unfold timer_load_task. intros H. wstep H. destruct (find_task id d); [|done]. by apply lift_Ok in H as [_ ->].
Qed.

(** The task a timer adds. *)
Definition task_of_timer (now : Z) (t : timer_row) (template : AddArgs) (d : db) (task : work_task) : Prop :=
  task_exists (w_id task) d = false ∧ w_state task = "queued" ∧ w_claim task = mk_task_claim None None None None ∧
  sp_author (w_spec task) = tm_owner t ∧ sp_origin (w_spec task) = Some ("timer:" +:+ tm_id t) ∧
  sp_queued (w_spec task) = now ∧ sp_title (w_spec task) = ad_title template ∧
  sp_files (w_spec task) = list_json (ad_files template) ∧ sp_command (w_spec task) = list_json <$> ad_command template ∧
  (∀ x, x ∈ after_of task → x ∈ ad_after template ∧ task_exists x d = true).

(** What firing did: nothing but disable the timer of an owner that may not
    work any more, or one more task and the timer moved to its next fire. *)
Definition fires (now ms : Z) (t : timer_row) (spec : TimerSpec) (template : AddArgs) (d d' : db) : Prop :=
  match unhex32 (tm_owner t) ≫= λ pk, owner_role pk d with
  | None => work d' = work (update_timer (tm_id t) disabled_timer d)
  | Some _ => ∃ mk, let task := mk (work_seq (work d) + 1)%Z in
      w_seq task = (work_seq (work d) + 1)%Z ∧ task_wf task ∧
      (∀ s, sp_scope (w_spec task) = Some s → scope_known s d = true) ∧ task_of_timer now t template d task ∧
      work d' = work (update_timer (tm_id t) (fired_timer (next_fire spec ms now) ms) (insert_work_task mk d))
  end.

Context {CL : WorkCodecLaws C}.

Lemma keep_after_sub l d x : x ∈ (keep_after l d).1 → x ∈ l.
Proof.
  induction l as [|y l IH]; cbn; [done|]. destruct (keep_after l d) as [after notes]. cbn in IH.
  destruct (task_exists y d); cbn; rewrite ?elem_of_cons; naive_solver.
Qed.

Lemma fired_task_wf now id origin note owner scope after cwd card template seq :
  canonical (ad_files template) → task_wf (fired_task now id origin note owner scope after cwd card template seq).
Proof.
  intros (wss & E & Hcl). constructor; try done; cbn.
  - by exists TQueued.
  - rewrite list_json_parse. eauto.
  - exists wss. unfold w_files. cbn. by rewrite E.
  - intros raw. destruct (ad_command template); intros [= <-]. rewrite list_json_parse. eauto.
Qed.

Lemma fire_timer_Ok now real system tr ms t d r d' :
  timer_ok t → timer_record t = Ok tr → fire_timer now real system tr ms d = Ok (r, d') →
  fires now ms t (ti_spec tr) (ti_template tr) d d'.
Proof.
  intros Hok Hr H. destruct (timer_record_Ok _ _ Hr) as (Eid & Eow & _ & Etp & _ & _ & _).
  destruct (to_template _ Hok) as (template & Et & Hcan). rewrite Etp in Et. injection Et as <-.
  unfold fire_timer in H. rewrite Eow, Eid in H. unfold fires. step lift_Ok in H as pk [Hpk ->].
  destruct (unhex32 (tm_owner t)) as [pk'|] eqn:Eh; [|done]. injection Hpk as ->. cbn [mbind option_bind].
  wstep H. destruct (owner_role pk d) as [role|]; [|by repeat wstep H].
  step next_task_id_Ok in H as tid [-> Hnew]. wstep H.
  destruct (keep_scope (ad_scope (ti_template tr)) d) as [scope n1] eqn:Es.
  destruct (keep_after (ad_after (ti_template tr)) d) as [after n2] eqn:Ea.
  destruct (keep_card (tm_owner t) role (ad_card (ti_template tr)) d) as [card n3]. do 4 wstep H.
  step timer_load_task_Ok in H as ? ->. wstep H. eexists. cbn zeta. split_and!; [| | | |reflexivity]; cbn; try done.
  - by apply fired_task_wf.
  - intros z Hz. apply (keep_scope_known (ad_scope (ti_template tr))). by rewrite Es.
  - unfold task_of_timer. cbn. split_and!; try done. unfold after_of. cbn. rewrite list_json_parse. cbn.
    intros z Hz. pose proof (keep_after_known (ad_after (ti_template tr)) d z).
    pose proof (keep_after_sub (ad_after (ti_template tr)) d z). rewrite Ea in *. auto.
Qed.

Lemma fires_ok now ms t spec template d d' :
  work_wf (work d) → timers_wf (work d) → fires now ms t spec template d d' →
  work_wf (work d') ∧ timers_wf (work d') ∧ work_step BySystem d d'.
Proof.
  intros Hwf Htw H. unfold fires in H. destruct (_ ≫= _) as [role|].
  - destruct H as (mk & Hseq & Ht & Hsc & (Hnew & Hst & Hcl & _ & _ & _ & _ & _ & _ & Hafter) & E). cbn zeta in *.
    assert (work_wf (work (insert_work_task mk d))) as Hwf'.
    { apply work_wf_insert; try done.
      - intros x [_ Hx]%Hafter. by apply task_exists_true.
      - intros x Hx. by apply scope_known_true, Hsc.
      - intros [E'|E']; rewrite Hst in E'; discriminate. }
    rewrite E. split_and!.
    + by apply (work_wf_tables (work (insert_work_task mk d))).
    + apply timers_update; [done|intros; by apply fired_ok|by apply (timers_wf_same (work d))].
    + intros id. assert (view_at id d' = view_at id (insert_work_task mk d)) as -> by (unfold view_at, find_task; by rewrite E).
      apply (work_step_insert BySystem d mk); [done|]. unfold view_of. rewrite Hst, Hcl. by apply wl_fire.
  - rewrite H. split_and!; [by apply (work_wf_tables (work d))|apply timers_update; [done|intros; by apply disabled_ok|done]|].
    intros id. left. unfold view_at, find_task. by rewrite H.
Qed.

Lemma timer_fire_ok now real op d r d' :
  work_wf (work d) → timers_wf (work d) → timer_fire now real op d = Ok (r, d') →
  ∃ kind, sys_authorized now op kind d ∧ work_wf (work d') ∧ timers_wf (work d') ∧ work_step BySystem d d'.
Proof.
  intros Hwf Htw H. unfold timer_fire in H. apply tx_bind_Ok in H as (u & d1 & [Hau ->]%authorize_system_record & H).
  exists "timer.fire". split; [done|]. wstep H. step load_timer_Ok in H as tr [-> Htr].
  destruct tr as [tr|]; [destruct (is_due tr now)|].
  - destruct Htr as (t & Hf & Hr). pose proof (find_timer_Some _ _ _ Hf) as [Hin _].
    eapply fire_timer_Ok in H; [|by apply Htw|done]. by apply fires_ok in H.
  - wstep H. by split_and!; [..|apply work_step_same].
  - wstep H. by split_and!; [..|apply work_step_same].
Qed.

Lemma append_run now actor kind subject data d :
  append now actor kind subject data d = Ok (event_seq d + 1, logged now actor kind subject data d)%Z.
Proof. done. Qed.

Lemma fire_timer_total now real system tr ms t d :
  timer_ok t → timer_record t = Ok tr → (Z.of_nat (length (work_tasks (work d))) < u64_max)%Z →
  ∃ r d', fire_timer now real system tr ms d = Ok (r, d').
Proof.
  intros Hok Hr Hl. destruct (timer_record_Ok _ _ Hr) as (_ & Eow & _ & Etp & _ & _ & _).
  destruct (to_template _ Hok) as (template & Et & Hcan). rewrite Etp in Et. injection Et as <-.
  destruct (to_owner _ Hok) as [pk Hpk].
  unfold fire_timer, mbind, tx_bind, lift, query. rewrite Eow, Hpk. cbn [ok_or].
  destruct (owner_role pk d) as [role|]; [|by eexists _, _].
  destruct (next_task_id_total (ti_id tr) (ti_fired tr + 1) d Hl) as [id Hid]. rewrite Hid.
  destruct (next_task_id_Ok _ _ _ _ _ Hid) as [_ Hnew].
  destruct (keep_scope _ d) as [scope n1], (keep_after _ d) as [after n2], (keep_card _ _ _ d) as [card n3].
  unfold execute. rewrite !append_run. cbn beta iota zeta.
  set (mk := fired_task _ _ _ _ _ _ _ _ _ _). unfold timer_load_task, mbind, tx_bind, query.
  match goal with |- context [find_task id ?e] => assert (find_task id e = Some (mk (work_seq (work d) + 1)%Z)) as -> end.
  { match goal with |- find_task id ?e = _ => transitivity (find_task id (insert_work_task mk d)); [reflexivity|] end.
    etrans; [apply (find_app w_id)|]. cbn. rewrite decide_True by done.
    destruct (list_find _ _) as [[n u]|] eqn:Ef; [|done]. exfalso. apply list_find_Some in Ef as (Hu & Hid' & _).
    apply list_elem_of_lookup_2 in Hu. rewrite (proj2 (task_exists_true id d)) in Hnew; [done|eauto]. }
  destruct (task_from_row_total (mk (work_seq (work d) + 1)%Z)) as [r Hrow]; [by apply fired_task_wf|].
  unfold lift. rewrite Hrow. by eexists _, _.
Qed.

(** A due timer fires once. *)
Lemma timer_fire_due now real op ms t d d1 :
  timers_wf (work d) → authorize_system now op "timer.fire" d = Ok (tt, d1) → parse_fire_args (o_arg op) = Some ms →
  find_timer (o_subject op) d = Some t → row_due now t = true → (tm_fired t ≤ u32_max)%Z →
  (Z.of_nat (length (work_tasks (work d))) < u64_max)%Z →
  ∃ r d' spec template, timer_fire now real op d = Ok (r, d') ∧ parse_spec (tm_spec t) = Some spec ∧
    parse_template (tm_template t) = Some template ∧ validate spec = Ok tt ∧ fires now ms t spec template d1 d'.
Proof.
  intros Htw Hau Hms Hf Hdue Hfd Hl. pose proof (find_timer_Some _ _ _ Hf) as [Hin _].
  pose proof (tiw_row _ Htw t Hin) as Hok. destruct (timer_record_total t Hok Hfd) as [tr Hr].
  pose proof Hau as [_ ->]%authorize_system_record.
  destruct (timer_record_Ok _ _ Hr) as (_ & _ & Es & Et & Een & Enx & _).
  destruct (to_spec _ Hok) as (spec & Es' & Hv). rewrite Es in Es'. injection Es' as <-.
  destruct (fire_timer_total now real (actor_hex op) tr ms t (with_nonce now op d) Hok Hr Hl) as (r & d' & Hfire).
  exists r, d', (ti_spec tr), (ti_template tr). split_and!; try done; [|by eapply fire_timer_Ok].
  unfold timer_fire, mbind, tx_bind. rewrite Hau. unfold lift. rewrite Hms. cbn [ok_or].
  unfold load_timer, mbind, tx_bind, query.
  assert (find_timer (o_subject op) (with_nonce now op d) = Some t) as -> by done.
  unfold lift. rewrite Hr. cbn. unfold row_due in Hdue. unfold is_due. by rewrite Een, Enx, Hdue.
Qed.

Lemma find_timer_update id f d id' :
  (∀ t, tm_id (f t) = tm_id t) →
  find_timer id' (update_timer id f d) = (if decide (id' = id) then f else λ t, t) <$> find_timer id' d.
Proof.
  intros Hf. unfold find_timer, update_timer. cbn.
  rewrite (find_map tm_id (λ t, if decide (tm_id t = id) then f t else t)) by (intros t; by case_decide).
  destruct (list_find _ _) as [[n t]|] eqn:E; cbn; [|done]. apply list_find_Some in E as (_ & <- & _).
  by case_decide.
Qed.

Lemma find_timer_work id d d' : work d' = work d → find_timer id d' = find_timer id d.
Proof. unfold find_timer. by intros ->. Qed.

(** Afterwards the timer is not due, and no other timer has changed. *)
Lemma fires_settled now ms t spec template d d' :
  find_timer (tm_id t) d = Some t → validate spec = Ok tt → (i64_min ≤ now ≤ i64_max)%Z →
  (i64_min ≤ ms ≤ i64_max)%Z → fires now ms t spec template d d' →
  (∃ t', find_timer (tm_id t) d' = Some t' ∧ row_due now t' = false) ∧
  ∀ id, id ≠ tm_id t → find_timer id d' = find_timer id d.
Proof.
  intros Hf Hv Hnow Hms H.
  assert (∃ f d0, (∀ t, tm_id (f t) = tm_id t) ∧ row_due now (f t) = false ∧ timers (work d0) = timers (work d) ∧
    work d' = work (update_timer (tm_id t) f d0)) as (f & d0 & Hid & Hnd & Et & E).
  { unfold fires in H. destruct (_ ≫= _); [|by exists disabled_timer, d].
    destruct H as (mk & _ & _ & _ & _ & E). eexists _, (insert_work_task mk d). split_and!; [|..|exact E]; try done.
    unfold row_due, fired_timer. cbn. destruct (next_fire spec ms now) as [n|] eqn:En; [|done]. cbn.
    apply Z.leb_gt. by eapply next_fire_later. }
  assert (∀ id, find_timer id d0 = find_timer id d) as Hsame by (intros id; unfold find_timer; by rewrite Et).
  split.
  - exists (f t). split; [|done]. rewrite (find_timer_work _ _ _ E), find_timer_update, decide_True, Hsame, Hf by done. done.
  - intros id Hne. rewrite (find_timer_work _ _ _ E), find_timer_update, decide_False, Hsame by done.
    by destruct (find_timer id d).
Qed.

(** A timer that is not due does not fire. *)
Lemma timer_fire_idle now real op t d r d' :
  find_timer (o_subject op) d = Some t → row_due now t = false → timer_fire now real op d = Ok (r, d') →
  r = None ∧ work d' = work d.
Proof.
  intros Hf Hnd H. unfold timer_fire in H. apply tx_bind_Ok in H as (u & d1 & [_ ->]%authorize_system_record & H).
  wstep H. step load_timer_Ok in H as tr [-> Htr]. destruct tr as [tr|]; [|by wstep H; subst].
  destruct Htr as (t' & Hf' & Hr). assert (t' = t) as -> by (unfold find_timer in *; cbn in *; congruence).
  destruct (timer_record_Ok _ _ Hr) as (_ & _ & _ & _ & Een & Enx & _).
  unfold row_due in Hnd. unfold is_due in H. rewrite Een, Enx, Hnd in H. by wstep H; subst.
Qed.
End Timers.

(** A title that the queue takes may be too long for a timer's template. *)
Definition long_title : string := foldr String.append "" (replicate 300 "a").

Example template_title_shorter :
  check_text "title" long_title TITLE_MAX = Ok tt ∧
  check_text "title" long_title TITLE_LIMIT = Err "title is longer than 200 characters".
Proof. by vm_compute. Qed.
