(* ===== verification/Wire.v ===== *)
(** * Signed records and their wire forms

    The records that carry a signature ([SignedOp] of [Identity], and
    [SignedMessage], [SignedReaction] and [SignedNote] of
    [src/crates/agora-store/src/messages.rs] and [social.rs]) with the bytes
    they sign, and [src/crates/agora-proto/src/convert.rs]: their wire forms and
    the handshake.  The base64 codec is a parameter ([Base64]). *)

From S2P Require Import Prelude Strs Bytes Crypto Frame Identity.

(** ** Signed records *)

Record Attachment : Type := mk_attachment { a_hash : string; a_name : string; a_mime : string }.

Record SignedMessage : Type := mk_message {
  s_id : string; s_channel : string; s_thread_of : option string; s_sender : string; s_ts : Z;
  s_encrypted : bool; s_epoch : Z; s_body : string; s_attachments : list Attachment;
  s_sig : string }.

Record SignedReaction : Type := mk_reaction {
  rx_kind : string; rx_target : string; rx_by : string; rx_emoji : string; rx_remove : bool;
  rx_ts : Z; rx_sig : string }.

Record SignedNote : Type := mk_note {
  sn_id : string; sn_author : string; sn_ts : Z; sn_title : string; sn_body : string;
  sn_tags : string; sn_supersedes : option string; sn_sig : string }.

(** [bool as u8]. *)
Definition bool_byte (b : bool) : string := String (byte_of (if b then 1 else 0)) "".

Definition attachment_bytes (l : list Attachment) : string :=
  foldr (λ a s, canonical "att" [a_hash a; a_name a; a_mime a] +:+ s) "" l.

Definition message_bytes (m : SignedMessage) : string :=
  canonical "msg/v2"
    [s_id m; s_channel m; default "" (s_thread_of m); s_sender m; le_bytes 8 (s_ts m);
     bool_byte (s_encrypted m); le_bytes 8 (s_epoch m); s_body m; attachment_bytes (s_attachments m)].

Definition reaction_bytes (r : SignedReaction) : string :=
  canonical "react/v1"
    [rx_kind r; rx_target r; rx_by r; rx_emoji r; bool_byte (rx_remove r); le_bytes 8 (rx_ts r)].

Definition note_bytes (n : SignedNote) : string :=
  canonical "note/v1"
    [sn_id n; sn_author n; le_bytes 8 (sn_ts n); sn_title n; sn_body n; sn_tags n;
     default "" (sn_supersedes n)].

Definition HELLO_DOMAIN : string := "hello/v1".

Definition hello_signing_bytes (challenge pubkey : string) : string :=
  canonical HELLO_DOMAIN [challenge; pubkey].

Section Signing.
Context `{P : Prims}.

Definition sign_op (op : SignedOp) (i : Identity) : SignedOp :=
  let op' := mk_op (o_kind op) (o_subject op) (o_arg op) (o_ts op) (o_nonce op) (public i) (o_sig op) in
  mk_op (o_kind op') (o_subject op') (o_arg op') (o_ts op') (o_nonce op') (o_actor op')
    (sign i (signing_bytes op')).

Definition sign_message (m : SignedMessage) (i : Identity) : SignedMessage :=
  let m' := mk_message (s_id m) (s_channel m) (s_thread_of m) (public i) (s_ts m) (s_encrypted m)
              (s_epoch m) (s_body m) (s_attachments m) (s_sig m) in
  mk_message (s_id m') (s_channel m') (s_thread_of m') (s_sender m') (s_ts m') (s_encrypted m')
    (s_epoch m') (s_body m') (s_attachments m') (sign i (message_bytes m')).

Definition verify_message (m : SignedMessage) : result CryptoError unit :=
  verify (s_sender m) (message_bytes m) (s_sig m).

Definition sign_reaction (r : SignedReaction) (i : Identity) : SignedReaction :=
  let r' := mk_reaction (rx_kind r) (rx_target r) (public i) (rx_emoji r) (rx_remove r) (rx_ts r)
              (rx_sig r) in
  mk_reaction (rx_kind r') (rx_target r') (rx_by r') (rx_emoji r') (rx_remove r') (rx_ts r')
    (sign i (reaction_bytes r')).

Definition sign_note (n : SignedNote) (i : Identity) : SignedNote :=
  let n' := mk_note (sn_id n) (public i) (sn_ts n) (sn_title n) (sn_body n) (sn_tags n)
              (sn_supersedes n) (sn_sig n) in
  mk_note (sn_id n') (sn_author n') (sn_ts n') (sn_title n') (sn_body n') (sn_tags n')
    (sn_supersedes n') (sign i (note_bytes n')).

End Signing.

(** ** Wire forms *)

Class Base64 : Type := { b64 : string → string; b64_decode : string → option string }.

Class Base64Laws (B : Base64) : Prop := { b64_roundtrip s : b64_decode (b64 s) = Some s }.

Definition PROTO_VERSION : Z := 1.

Record OpWire : Type := mk_op_wire {
  ow_kind : string; ow_subject : string; ow_arg : string; ow_ts : Z; ow_nonce : string;
  ow_actor : string; ow_sig : string }.

Record AttachmentWire : Type := mk_attachment_wire {
  aw_hash : string; aw_name : string; aw_mime : string }.

Record MessageWire : Type := mk_message_wire {
  mw_id : string; mw_channel : string; mw_thread_of : option string; mw_sender : string; mw_ts : Z;
  mw_encrypted : bool; mw_epoch : Z; mw_body : string; mw_attachments : list AttachmentWire;
  mw_sig : string }.

Record ReactionWire : Type := mk_reaction_wire {
  rw_kind : string; rw_target : string; rw_by : string; rw_emoji : string; rw_remove : bool;
  rw_ts : Z; rw_sig : string }.

Record NoteWire : Type := mk_note_wire {
  nw_id : string; nw_author : string; nw_ts : Z; nw_title : string; nw_body : string;
  nw_tags : string; nw_supersedes : option string; nw_sig : string }.

Record KeyWire : Type := mk_key_wire { kw_pk : string; kw_wrapped : string }.

Record ClientHello : Type := mk_hello {
  ch_version : Z; ch_pubkey : string; ch_sig : string; ch_label : string }.

Section Wire.
Context `{B : Base64}.

Definition unb64 (s field : string) : result ProtoError string :=
  ok_or (b64_decode s) (Encoding field).

Definition unhex_pk (s field : string) : result ProtoError string :=
  ok_or (unhex32 s) (Encoding field).

Definition from_op (op : SignedOp) : OpWire :=
  mk_op_wire (o_kind op) (o_subject op) (o_arg op) (o_ts op) (o_nonce op) (hex (o_actor op))
    (b64 (o_sig op)).

Definition to_op (w : OpWire) : result ProtoError SignedOp :=
  actor ← unhex_pk (ow_actor w) "actor";
  sig ← unb64 (ow_sig w) "sig";
  mret (mk_op (ow_kind w) (ow_subject w) (ow_arg w) (ow_ts w) (ow_nonce w) actor sig).

Definition from_attachment (a : Attachment) : AttachmentWire :=
  mk_attachment_wire (a_hash a) (a_name a) (a_mime a).

Definition to_attachment (a : AttachmentWire) : Attachment :=
  mk_attachment (aw_hash a) (aw_name a) (aw_mime a).

Definition from_message (m : SignedMessage) : MessageWire :=
  mk_message_wire (s_id m) (s_channel m) (s_thread_of m) (hex (s_sender m)) (s_ts m)
    (s_encrypted m) (s_epoch m) (b64 (s_body m)) (map from_attachment (s_attachments m))
    (b64 (s_sig m)).

Definition to_message (w : MessageWire) : result ProtoError SignedMessage :=
  sender ← unhex_pk (mw_sender w) "sender";
  body ← unb64 (mw_body w) "body";
  sig ← unb64 (mw_sig w) "sig";
  mret (mk_message (mw_id w) (mw_channel w) (mw_thread_of w) sender (mw_ts w) (mw_encrypted w)
    (mw_epoch w) body (map to_attachment (mw_attachments w)) sig).

Definition from_reaction (r : SignedReaction) : ReactionWire :=
  mk_reaction_wire (rx_kind r) (rx_target r) (hex (rx_by r)) (rx_emoji r) (rx_remove r) (rx_ts r)
    (b64 (rx_sig r)).

Definition to_reaction (w : ReactionWire) : result ProtoError SignedReaction :=
  by' ← unhex_pk (rw_by w) "by";
  sig ← unb64 (rw_sig w) "sig";
  mret (mk_reaction (rw_kind w) (rw_target w) by' (rw_emoji w) (rw_remove w) (rw_ts w) sig).

Definition from_note (n : SignedNote) : NoteWire :=
  mk_note_wire (sn_id n) (hex (sn_author n)) (sn_ts n) (sn_title n) (sn_body n) (sn_tags n)
    (sn_supersedes n) (b64 (sn_sig n)).

Definition to_note (w : NoteWire) : result ProtoError SignedNote :=
  author ← unhex_pk (nw_author w) "author";
  sig ← unb64 (nw_sig w) "sig";
  mret (mk_note (nw_id w) author (nw_ts w) (nw_title w) (nw_body w) (nw_tags w) (nw_supersedes w) sig).

Definition from_pair (k : string * string) : KeyWire := mk_key_wire (hex k.1) (b64 k.2).

Fixpoint keys_from_wire (keys : list KeyWire) : result ProtoError (list (string * string)) :=
  match keys with
  | [] => Ok []
  | k :: keys' =>
      pk ← unhex_pk (kw_pk k) "keys.pk";
      wrapped ← unb64 (kw_wrapped k) "keys.wrapped";
      rest ← keys_from_wire keys';
      mret ((pk, wrapped) :: rest)
  end.

Definition keys_to_wire (keys : list (string * string)) : list KeyWire := map from_pair keys.

Context `{P : Prims}.

Definition hello_sign (i : Identity) (challenge label : string) : ClientHello :=
  let pubkey := public i in
  let sig := sign i (hello_signing_bytes challenge pubkey) in
  mk_hello PROTO_VERSION (hex pubkey) (b64 sig) label.

Definition hello_verify (h : ClientHello) (challenge : string) : result ProtoError string :=
  if negb (ch_version h =? PROTO_VERSION)%Z then Err (Encoding "version") else
  pubkey ← unhex_pk (ch_pubkey h) "pubkey";
  sig ← unb64 (ch_sig h) "sig";
  match verify pubkey (hello_signing_bytes challenge pubkey) sig with
  | Err e => Err (CryptoErr e)
  | Ok _ => Ok pubkey
  end.

(** ** Round trips *)

Context `{BL : !Base64Laws B}.

Lemma unhex_pk_hex pk field : String.length pk = 32 → unhex_pk (hex pk) field = Ok pk.
Proof. intros H. unfold unhex_pk. by rewrite unhex32_hex. Qed.

Lemma unb64_b64 s field : unb64 (b64 s) field = Ok s.
Proof. unfold unb64. by rewrite b64_roundtrip. Qed.

Lemma op_roundtrip op : String.length (o_actor op) = 32 → to_op (from_op op) = Ok op.
Proof.
  intros H. unfold to_op, from_op. cbn. rewrite unhex_pk_hex, unb64_b64 by done. by destruct op.
Qed.

Lemma message_roundtrip m : String.length (s_sender m) = 32 → to_message (from_message m) = Ok m.
Proof.
  intros H. unfold to_message, from_message. cbn. rewrite unhex_pk_hex, !unb64_b64 by done. cbn.
  rewrite map_map, (map_ext _ id) by (by intros []). rewrite map_id. by destruct m.
Qed.

Lemma reaction_roundtrip r : String.length (rx_by r) = 32 → to_reaction (from_reaction r) = Ok r.
Proof.
  intros H. unfold to_reaction, from_reaction. cbn. rewrite unhex_pk_hex, unb64_b64 by done.
  by destruct r.
Qed.

Lemma note_roundtrip n : String.length (sn_author n) = 32 → to_note (from_note n) = Ok n.
Proof.
  intros H. unfold to_note, from_note. cbn. rewrite unhex_pk_hex, unb64_b64 by done. by destruct n.
Qed.

Lemma keys_roundtrip keys :
  Forall (λ k, String.length k.1 = 32) keys → keys_from_wire (keys_to_wire keys) = Ok keys.
Proof.
  induction 1 as [|[pk w] keys Hk _ IH]; [done|].
  unfold keys_to_wire in *. cbn [map from_pair keys_from_wire kw_pk kw_wrapped fst snd].
  rewrite unhex_pk_hex, unb64_b64 by done. rstep. by rewrite IH.
Qed.

(** The daemon proves the key of an honest client. *)
Lemma hello_roundtrip `{L : !PrimsLaws P} i challenge label :
  String.length (public i) = 32 →
  hello_verify (hello_sign i challenge label) challenge = Ok (public i).
Proof.
  intros H. unfold hello_verify, hello_sign.
  cbn [ch_version ch_pubkey ch_sig]. rewrite Z.eqb_refl. cbn [negb].
  rewrite unhex_pk_hex, unb64_b64 by done. rstep. by rewrite verify_sign.
Qed.

End Wire.

(** ** A signature commits to the whole record *)

Lemma fields_bytes_app_inj fs gs r r' :
  length fs = length gs → Forall (λ f, str_len f < 2 ^ 64)%Z fs →
  Forall (λ f, str_len f < 2 ^ 64)%Z gs →
  fields_bytes fs +:+ r = fields_bytes gs +:+ r' → fs = gs ∧ r = r'.
Proof.
  revert gs. induction fs as [|f fs IH]; intros [|g gs] Hl Hf Hg; cbn in Hl; try lia;
    cbn [fields_bytes]; intros H; [done|].
  apply Forall_cons in Hf as [Lf Hf]. apply Forall_cons in Hg as [Lg Hg].
  rewrite !str_app_assoc in H. apply str_app_inj in H as [E H]; [|by rewrite !le_bytes_length].
  rewrite !str_len_nat in *. apply le_bytes_inj in E; [|lia..].
  apply Nat2Z.inj in E. apply str_app_inj in H as [-> H]; [|done].
  destruct (IH gs) as [-> ->]; [lia|done..].
Qed.

Definition attachment_fits (a : Attachment) : Prop :=
  (str_len (a_hash a) < 2 ^ 64 ∧ str_len (a_name a) < 2 ^ 64 ∧ str_len (a_mime a) < 2 ^ 64)%Z.

(** The concatenation of the attachments' encodings splits one way. *)
Lemma attachment_bytes_inj l l' :
  Forall attachment_fits l → Forall attachment_fits l' →
  attachment_bytes l = attachment_bytes l' → l = l'.
Proof.
  revert l'. induction l as [|a l IH]; intros [|b l'] Hl Hl' H; try done.
  apply Forall_cons in Hl as [(? & ? & ?) Hl]. apply Forall_cons in Hl' as [(? & ? & ?) Hl'].
  change (canonical "att" [a_hash a; a_name a; a_mime a] +:+ attachment_bytes l =
          canonical "att" [a_hash b; a_name b; a_mime b] +:+ attachment_bytes l') in H.
  unfold canonical in H. rewrite !str_app_assoc in H.
  apply str_app_inj_r in H. apply str_app_inj_r in H. rewrite !str_app_cons in H.
  apply str_cons_inj_r in H. apply fields_bytes_app_inj in H as [E H]; [|done|by repeat constructor..].
  injection E as E1 E2 E3. rewrite (IH l') by done. destruct a, b; cbn in *; by subst.
Qed.

(** Everything an identity signs, by domain. *)
Inductive signed : Type :=
| SOp (op : SignedOp)
| SMessage (m : SignedMessage)
| SReaction (r : SignedReaction)
| SNote (n : SignedNote)
| SHello (challenge : string) (h : ClientHello).

(** The key a hello names, as the bytes that are signed. *)
Definition hello_key (h : ClientHello) : string := default "" (unhex32 (ch_pubkey h)).

Definition signed_bytes (s : signed) : string :=
  match s with
  | SOp op => signing_bytes op
  | SMessage m => message_bytes m
  | SReaction r => reaction_bytes r
  | SNote n => note_bytes n
  | SHello challenge h => hello_signing_bytes challenge (hello_key h)
  end.

(** What a signature covers: the record without the signature, and a hello
    without its version and label, which are not signed; an absent thread or
    predecessor is the empty one. *)
Definition content (s : signed) : signed :=
  match s with
  | SOp op => SOp (mk_op (o_kind op) (o_subject op) (o_arg op) (o_ts op) (o_nonce op) (o_actor op) "")
  | SMessage m =>
      SMessage (mk_message (s_id m) (s_channel m) (Some (default "" (s_thread_of m))) (s_sender m)
        (s_ts m) (s_encrypted m) (s_epoch m) (s_body m) (s_attachments m) "")
  | SReaction r =>
      SReaction (mk_reaction (rx_kind r) (rx_target r) (rx_by r) (rx_emoji r) (rx_remove r) (rx_ts r) "")
  | SNote n =>
      SNote (mk_note (sn_id n) (sn_author n) (sn_ts n) (sn_title n) (sn_body n) (sn_tags n)
        (Some (default "" (sn_supersedes n))) "")
  | SHello challenge h => SHello challenge (mk_hello 0 (ch_pubkey h) "" "")
  end.

Definition in_range64 (z : Z) : Prop := (i64_min ≤ z ≤ i64_max)%Z.

(** The fields in the order they are signed, and what Rust's types bound. *)
Definition signed_fields (s : signed) : list string :=
  match s with
  | SOp op => [o_kind op; o_subject op; o_arg op; le_bytes 8 (o_ts op); o_nonce op; o_actor op]
  | SMessage m =>
      [s_id m; s_channel m; default "" (s_thread_of m); s_sender m; le_bytes 8 (s_ts m);
       bool_byte (s_encrypted m); le_bytes 8 (s_epoch m); s_body m; attachment_bytes (s_attachments m)]
  | SReaction r =>
      [rx_kind r; rx_target r; rx_by r; rx_emoji r; bool_byte (rx_remove r); le_bytes 8 (rx_ts r)]
  | SNote n =>
      [sn_id n; sn_author n; le_bytes 8 (sn_ts n); sn_title n; sn_body n; sn_tags n;
       default "" (sn_supersedes n)]
  | SHello challenge h => [challenge; hello_key h]
  end.

Definition signed_fits (s : signed) : Prop :=
  Forall (λ f, str_len f < 2 ^ 64)%Z (signed_fields s) ∧
  match s with
  | SOp op => in_range64 (o_ts op)
  | SMessage m => in_range64 (s_ts m) ∧ in_range64 (s_epoch m) ∧ Forall attachment_fits (s_attachments m)
  | SReaction r => in_range64 (rx_ts r)
  | SNote n => in_range64 (sn_ts n)
  | SHello _ h => is_Some (unhex32 (ch_pubkey h))
  end.

Definition domain (s : signed) : string :=
  match s with
  | SOp _ => "op/v1" | SMessage _ => "msg/v2" | SReaction _ => "react/v1" | SNote _ => "note/v1"
  | SHello _ _ => HELLO_DOMAIN
  end.

Lemma signed_bytes_canonical s : signed_bytes s = canonical (domain s) (signed_fields s).
Proof. by destruct s. Qed.

Lemma domain_no_nul s : contains_byte (byte_of 0) (domain s) = false.
Proof. by destruct s. Qed.

Lemma bool_byte_inj a b : bool_byte a = bool_byte b → a = b.
Proof. by destruct a, b. Qed.

Ltac peel_fields H := repeat (apply field_inj in H as [? H]); clear H.
Ltac use_fields :=
  repeat match goal with E : ?x = ?y |- _ => rewrite E; clear E end; reflexivity.

Lemma signed_fields_inj a b :
  signed_fits a → signed_fits b → domain a = domain b → signed_fields a = signed_fields b →
  content a = content b.
Proof.
  intros [_ Ha] [_ Hb] Hd H.
  destruct a as [a|a|a|a|ca a], b as [b|b|b|b|cb b]; try discriminate Hd; cbn [signed_fields content] in *.
  - peel_fields H. rewrite (le_bytes_inj_i64 (o_ts a) (o_ts b)) by done. use_fields.
  - destruct Ha as (Ta & Pa & Aa), Hb as (Tb & Pb & Ab). peel_fields H.
    rewrite (le_bytes_inj_i64 (s_ts a) (s_ts b)), (le_bytes_inj_i64 (s_epoch a) (s_epoch b)),
      (bool_byte_inj (s_encrypted a) (s_encrypted b)),
      (attachment_bytes_inj (s_attachments a) (s_attachments b)) by done.
    use_fields.
  - peel_fields H.
    rewrite (le_bytes_inj_i64 (rx_ts a) (rx_ts b)), (bool_byte_inj (rx_remove a) (rx_remove b)) by done.
    use_fields.
  - peel_fields H. rewrite (le_bytes_inj_i64 (sn_ts a) (sn_ts b)) by done. use_fields.
  - destruct Ha as [x Hx], Hb as [y Hy]. unfold hello_key in H. rewrite Hx, Hy in H. cbn [default from_option id] in H.
    injection H as -> ->. apply unhex32_Some in Hx as [_ ->]. apply unhex32_Some in Hy as [_ ->]. done.
Qed.

(** C12: what is signed is the record. Two records with the same signed bytes
    are of the same kind; operations, messages, reactions and notes agree in every
    field but the signature itself (an absent thread or predecessor counts as the
    empty one), and hellos in the challenge and the key, which are what a hello
    signs: its version and label are not covered. So a signature on one
    operation, message, reaction, note or handshake proves no other. *)
Theorem signatures_commit (a b : signed) :
  signed_fits a → signed_fits b → signed_bytes a = signed_bytes b → content a = content b.
Proof.
  intros Ha Hb H. rewrite !signed_bytes_canonical in H.
  apply canonical_inj in H as [Hd H]; [|apply domain_no_nul..|apply Ha|apply Hb].
  by apply signed_fields_inj.
Qed.

Lemma signatures_commit_witness :
  let a := SReaction (mk_reaction "card" "k1" "me" "+1" false 5 "x") in
  let b := SReaction (mk_reaction "card" "k1" "me" "+1" false 5 "y") in
  signed_fits a ∧ signed_bytes a = signed_bytes b ∧ content a = content b.
Proof.
  cbn zeta. assert (∀ s, signed_fits (SReaction (mk_reaction "card" "k1" "me" "+1" false 5 s))) as Hf.
  { intros s. split; [|cbn; unfold in_range64, i64_min, i64_max; lia].
    repeat constructor; vm_compute; reflexivity. }
  split; [apply Hf|]. split; [reflexivity|].
  apply signatures_commit; [apply Hf|apply Hf|reflexivity].
Defined.
