(* ===== verification/Channels.v ===== *)
(** * agora-store: channels, membership and key epochs

    [src/crates/agora-store/src/channels.rs].  An encrypted channel has one
    wrapped key per member and epoch; a member that leaves by itself or is
    revoked flags the channel, and nobody posts until it is rotated.  What holds
    of the tables is [chan_wf]: every member of an encrypted channel holds the
    key of the current epoch, and unless a rotation is pending nobody else
    does. *)

From S2P Require Import Prelude F64 Strs Bytes Core Crypto Task StoreDb Identity.

Definition CHANNEL_KINDS : list string := ["dm"; "group"; "thread"; "squad"; "team"].

Definition WRAPPED_KEY_LEN : nat := 72.
Arguments WRAPPED_KEY_LEN : simpl never.

Record ChannelInfo : Type := mk_info {
  ci_id : string; ci_kind : string; ci_name : string; ci_parent : option string; ci_epoch : Z;
  ci_encrypted : bool; ci_rotation_pending : bool; ci_my_role : option string }.

(** ** Queries *)

Definition find_channel (id : string) (d : db) : option channel :=
  snd <$> list_find (λ c, ch_id c = id) (channels d).

Definition current_epoch (id : string) : tx Z :=
  c ← query (find_channel id);
  lift (ok_or (ch_epoch <$> c) (NotFound id)).

Definition rotation_pending (id : string) (d : db) : bool :=
  existsb (λ r, bool_decide (r_channel r = id)) (rotations d).

Definition member_row (id pk : string) (d : db) : option member :=
  snd <$> list_find (λ m, m_channel m = id ∧ m_pubkey m = pk) (members d).

Definition is_member (id pk : string) (d : db) : bool :=
  existsb (λ m, bool_decide (m_channel m = id ∧ m_pubkey m = pk)) (members d).

Definition is_channel_admin (id pk : string) (d : db) : bool :=
  existsb (λ m, bool_decide (m_channel m = id ∧ m_pubkey m = pk ∧ m_role m = "admin")) (members d).

(** (other members, other admins), not counting [pk]. *)
Definition others_of (id pk : string) (d : db) : nat * nat :=
  let l := filter (λ m, m_channel m = id ∧ m_pubkey m ≠ pk) (members d) in
  (length l, length (filter (λ m, m_role m = "admin") l)).

(** A public key column holds 32 bytes. *)
Definition read_pub (pk : string) : result StoreError string :=
  if Nat.eqb (String.length pk) 32 then Ok pk else Err (Sql "pubkey is not 32 bytes").

Fixpoint read_pubs (pks : list string) : result StoreError (list string) :=
  match pks with
  | [] => Ok []
  | pk :: pks' => x ← read_pub pk; xs ← read_pubs pks'; mret (x :: xs)
  end.

Definition channel_pks (id : string) (d : db) : list string :=
  m_pubkey <$> filter (λ m, m_channel m = id) (members d).

Definition member_set (id : string) : tx (gset string) :=
  pks ← query (channel_pks id);
  l ← lift (read_pubs pks);
  mret (list_to_set l).

(** ** Arguments *)

Definition parse_pk (v : Value) : result StoreError string :=
  ok_or (vget "pk" v ≫= λ p, v_str p ≫= unhex32) (Invalid "member pk must be 64 lowercase hex").

Definition parse_member (v : Value) : result StoreError (string * string) :=
  pk ← parse_pk v;
  match vget "role" v ≫= v_str with
  | Some r =>
      if decide (r = "admin") then Ok (pk, "admin")
      else if decide (r = "member") then Ok (pk, "member")
      else Err (Invalid "member role must be admin or member")
  | None => Err (Invalid "member role must be admin or member")
  end.

Definition check_keys_field (arg : Value) (expected : option string) : result StoreError unit :=
  match expected, vget "keys" arg with
  | None, None => Ok tt
  | None, Some _ => Err (Invalid "keys digest without keys")
  | Some digest, Some v =>
      if decide (v_str v = Some digest) then Ok tt else Err (Invalid "keys digest mismatch")
  | Some _, None => Err (Invalid "keys digest mismatch")
  end.

Fixpoint key_set_from (acc : gset string) (keys : list (string * string)) :
    result StoreError (gset string) :=
  match keys with
  | [] => Ok acc
  | (pk, wrapped) :: keys' =>
      if negb (Nat.eqb (String.length wrapped) WRAPPED_KEY_LEN)
      then Err (Invalid "wrapped key must be 72 bytes")
      else if decide (pk ∈ acc) then Err (Invalid "duplicate key pubkey")
      else key_set_from ({[pk]} ∪ acc) keys'
  end.

Definition key_set (keys : list (string * string)) : result StoreError (gset string) :=
  key_set_from ∅ keys.

(** ** Statements *)

Definition add_channel (c : channel) (d : db) : db := set_channels (channels d ++ [c]) d.

Definition set_epoch (id : string) (epoch : Z) (d : db) : db :=
  set_channels (map (λ c, if decide (ch_id c = id)
    then mk_channel (ch_id c) (ch_kind c) (ch_name c) (ch_parent c) epoch (ch_created c)
    else c) (channels d)) d.

(** The primary key [(channel, pubkey)] refuses a second row. *)
Definition insert_member (id pk role : string) : tx unit :=
  dup ← query (is_member id pk);
  guard dup (Sql "UNIQUE constraint failed: channel_members") ≫= λ _,
  execute (λ d, set_members (members d ++ [mk_member id pk role]) d).

Fixpoint insert_members (id : string) (l : list (string * string)) : tx unit :=
  match l with
  | [] => mret tt
  | (pk, role) :: l' => insert_member id pk role ≫= λ _, insert_members id l'
  end.

Definition has_key (id : string) (epoch : Z) (pk : string) (d : db) : bool :=
  existsb (λ k, bool_decide (k_channel k = id ∧ k_epoch k = epoch ∧ k_member k = pk)) (channel_keys d).

(** The primary key [(channel, epoch, member)] refuses a second row. *)
Definition insert_key (id : string) (epoch : Z) (pk wrapped wrapper : string) : tx unit :=
  dup ← query (has_key id epoch pk);
  guard dup (Sql "UNIQUE constraint failed: channel_keys") ≫= λ _,
  execute (λ d, set_keys (channel_keys d ++ [mk_key_row id epoch pk wrapped (Some wrapper)]) d).

Fixpoint insert_keys (id : string) (epoch : Z) (keys : list (string * string)) (wrapper : string) :
    tx unit :=
  match keys with
  | [] => mret tt
  | (pk, wrapped) :: keys' =>
      insert_key id epoch pk wrapped wrapper ≫= λ _, insert_keys id epoch keys' wrapper
  end.

Definition settle_rotation (id : string) (d : db) : db :=
  set_rotations (filter (λ r, r_channel r ≠ id) (rotations d)) d.

(** [INSERT OR IGNORE INTO channel_rotation]. *)
Definition flag_left (now : Z) (id pk : string) (d : db) : db :=
  if rotation_pending id d then d
  else set_rotations (rotations d ++ [mk_rotation id now ("left " +:+ hex pk)]) d.

Definition drop_member (id pk : string) (d : db) : db :=
  set_members (filter (λ m, ¬ (m_channel m = id ∧ m_pubkey m = pk)) (members d)) d.

Section Channels.
Context `{P : Prims} `{J : JsonText}.

(** ** The digest of wrapped keys *)

Definition key_cmp (a b : string * string) : comparison :=
  then_with (String.compare a.1 b.1) (String.compare a.2 b.2).

Definition keys_digest (epoch : Z) (keys : list (string * string)) : string :=
  content_hash (canonical "keys/v1"
    (le_bytes 8 epoch :: concat (map (λ k, [k.1; k.2]) (sort_by key_cmp keys)))).

Definition parse_arg (arg : string) : result StoreError Value :=
  ok_or (parse_json arg) (Invalid "arg must be JSON").

(** ** Operations *)

(** The loop over the listed members; a [BTreeMap] keeps each key once. *)
Fixpoint read_members (items : list Value) (acc : list (string * string)) :
    tx (list (string * string)) :=
  match items with
  | [] => mret acc
  | m :: items' =>
      x ← lift (parse_member m);
      active_role x.1 ≫= λ _,
      guard (existsb (λ y, bool_decide (y.1 = x.1)) acc) (Invalid "duplicate member") ≫= λ _,
      read_members items' (acc ++ [x])
  end.

(** The creator joins as an admin, over its own entry if it was listed; the map
    is read back in key order. *)
Definition with_creator (actor : string) (l : list (string * string)) : list (string * string) :=
  sort_by (λ a b, String.compare a.1 b.1) (filter (λ x, x.1 ≠ actor) l ++ [(actor, "admin")]).

Definition parse_parent (role : Role) (actor : string) (arg : Value) : tx (option string) :=
  match vget "parent" arg with
  | None | Some VNull => mret None
  | Some (VString p) =>
      m ← query (is_member p actor);
      guard (role_lt role Supervisor && negb m) (NotMember p) ≫= λ _,
      current_epoch p ≫= λ _,
      mret (Some p)
  | Some _ => fail (Invalid "parent must be null or a channel id")
  end.

Definition opt_str (o : option string) : Value := from_option VString VNull o.

Definition create_channel (now : Z) (op : SignedOp) (keys : list (string * string)) : tx unit :=
  role ← authorize now op "channel.create";
  need role Worker ≫= λ _,
  guard (is_empty_str (o_subject op)) (Invalid "channel id must not be empty") ≫= λ _,
  arg ← lift (parse_arg (o_arg op));
  kind ← lift (ok_or (k ← vget "kind" arg ≫= v_str;
                      if decide (k ∈ CHANNEL_KINDS) then Some k else None)
           (Invalid "channel kind must be dm, group, thread, squad or team"));
  name ← lift match vget "name" arg with
              | None => Ok ""
              | Some v => ok_or (v_str v) (Invalid "channel name must be a string")
              end;
  parent ← parse_parent role (o_actor op) arg;
  listed ← match vget "members" arg with
           | None => mret []
           | Some (VArray items) => read_members items []
           | Some _ => fail (Invalid "members must be an array")
           end;
  let mems := with_creator (o_actor op) listed in
  let encrypted := negb (bool_decide (keys = [])) in
  (if encrypted
   then ks ← lift (key_set keys);
        guard (negb (bool_decide (ks = list_to_set mems.*1)))
          (Invalid "keys must cover exactly the member set")
   else mret tt) ≫= λ _,
  lift (check_keys_field arg (if encrypted then Some (keys_digest 0 keys) else None)) ≫= λ _,
  exists' ← query (λ d, existsb (λ c, bool_decide (ch_id c = o_subject op)) (channels d));
  guard exists' (Invalid "channel already exists") ≫= λ _,
  execute (add_channel (mk_channel (o_subject op) kind name parent 0 now)) ≫= λ _,
  insert_members (o_subject op) mems ≫= λ _,
  insert_keys (o_subject op) 0 keys (o_actor op) ≫= λ _,
  append now (actor_hex op) "channel.created" (o_subject op)
    (VObject [("kind", VString kind); ("name", VString name); ("parent", opt_str parent);
              ("members", VNumber (NInt (Z.of_nat (length mems)))); ("encrypted", VBool encrypted)]) ≫= λ _,
  mret tt.

(** Admins of the channel, and supervisors. *)
Definition need_admin (role : Role) (id actor : string) : tx unit :=
  admin ← query (is_channel_admin id actor);
  guard (role_lt role Supervisor && negb admin) (Transition (Forbidden role)).

Definition add_member (now : Z) (op : SignedOp) (wrapped : option string) : tx unit :=
  role ← authorize now op "channel.add";
  need role Worker ≫= λ _,
  let id := o_subject op in
  arg ← lift (parse_arg (o_arg op));
  target ← lift (parse_member arg);
  need_admin role id (o_actor op) ≫= λ _,
  epoch ← current_epoch id;
  active_role target.1 ≫= λ _,
  already ← query (is_member id target.1);
  guard already (Invalid "already a member") ≫= λ _,
  encrypted ← query (is_encrypted id);
  (match encrypted, wrapped with
   | true, Some w =>
       if Nat.eqb (String.length w) WRAPPED_KEY_LEN
       then lift (check_keys_field arg (Some (keys_digest epoch [(target.1, w)]))) ≫= λ _,
            insert_key id epoch target.1 w (o_actor op)
       else fail (Invalid "encrypted channel needs a 72-byte wrapped key")
   | true, None => fail (Invalid "encrypted channel needs a 72-byte wrapped key")
   | false, None => lift (check_keys_field arg None)
   | false, Some _ => fail (Invalid "unencrypted channel takes no wrapped key")
   end) ≫= λ _,
  insert_member id target.1 target.2 ≫= λ _,
  append now (actor_hex op) "channel.member_added" id
    (VObject [("member", VString (hex target.1)); ("role", VString target.2);
              ("epoch", VNumber (NInt epoch))]) ≫= λ _,
  mret tt.

(** The new epoch with its keys, one for each of the members that are there. *)
Definition next_epoch (op : SignedOp) (arg : Value) (epoch : Z) (keys : list (string * string))
    (msg : string) : tx Z :=
  let id := o_subject op in
  ms ← member_set id;
  ks ← lift (key_set keys);
  guard (negb (bool_decide (ks = ms))) (Invalid msg) ≫= λ _,
  let new := wrap_i64 (epoch + 1) in
  lift (check_keys_field arg (Some (keys_digest new keys))) ≫= λ _,
  execute (set_epoch id new) ≫= λ _,
  insert_keys id new keys (o_actor op) ≫= λ _,
  execute (settle_rotation id) ≫= λ _,
  mret new.

Definition remove_member (now : Z) (op : SignedOp) (keys : list (string * string)) : tx unit :=
  role ← authorize now op "channel.remove";
  let id := o_subject op in
  arg ← lift (parse_arg (o_arg op));
  target ← lift (parse_pk arg);
  admin ← query (is_channel_admin id (o_actor op));
  let self_leave := bool_decide (target = o_actor op) in
  guard (negb (self_leave || negb (role_lt role Supervisor)
               || (negb (role_lt role Worker) && admin)))
    (Transition (Forbidden role)) ≫= λ _,
  member ← query (is_member id target);
  (if member : bool then mret tt else
   (if role_lt role Supervisor then mret tt else current_epoch id ≫= λ _, mret tt) ≫= λ _,
   fail (NotMember id)) ≫= λ _,
  epoch ← current_epoch id;
  target_admin ← query (is_channel_admin id target);
  others ← query (others_of id target);
  guard (target_admin && Nat.eqb others.2 0 && negb (Nat.eqb others.1 0))
    (Invalid "cannot remove the last channel admin") ≫= λ _,
  encrypted ← query (is_encrypted id);
  guard (encrypted && self_leave
         && (negb (bool_decide (keys = [])) || bool_decide (is_Some (vget "keys" arg))))
    (Invalid "self-leave takes no keys") ≫= λ _,
  execute (drop_member id target) ≫= λ _,
  new ← (if negb encrypted then
           guard (negb (bool_decide (keys = []))) (Invalid "unencrypted channel takes no keys") ≫= λ _,
           lift (check_keys_field arg None) ≫= λ _,
           mret epoch
         else if self_leave then execute (flag_left now id target) ≫= λ _, mret epoch
         else next_epoch op arg epoch keys "keys must cover exactly the remaining members");
  append now (actor_hex op) "channel.member_removed" id
    (VObject [("member", VString (hex target)); ("epoch", VNumber (NInt new))]) ≫= λ _,
  mret tt.

Definition set_role (id pk role : string) (d : db) : db :=
  set_members (map (λ m, if decide (m_channel m = id ∧ m_pubkey m = pk)
    then mk_member id pk role else m) (members d)) d.

Definition set_channel_role (now : Z) (op : SignedOp) : tx unit :=
  role ← authorize now op "channel.role";
  need role Worker ≫= λ _,
  let id := o_subject op in
  arg ← lift (parse_arg (o_arg op));
  target ← lift (parse_member arg);
  need_admin role id (o_actor op) ≫= λ _,
  current_epoch id ≫= λ _,
  row ← query (member_row id target.1);
  old ← lift (ok_or (m_role <$> row) (NotMember id));
  if decide (old = target.2) then mret tt else
  others ← query (others_of id target.1);
  guard (bool_decide (old = "admin") && Nat.eqb others.2 0)
    (Invalid "cannot demote the last channel admin") ≫= λ _,
  execute (set_role id target.1 target.2) ≫= λ _,
  append now (actor_hex op) "channel.role_changed" id
    (VObject [("member", VString (hex target.1)); ("role", VString target.2)]) ≫= λ _,
  mret tt.

Definition rotate_channel_key (now : Z) (op : SignedOp) (keys : list (string * string)) : tx Z :=
  role ← authorize now op "channel.rotate";
  need role Worker ≫= λ _,
  let id := o_subject op in
  arg ← lift (parse_arg (o_arg op));
  need_admin role id (o_actor op) ≫= λ _,
  epoch ← current_epoch id;
  encrypted ← query (is_encrypted id);
  guard (negb encrypted) (Invalid "channel is not encrypted") ≫= λ _,
  new ← next_epoch op arg epoch keys "keys must cover exactly the member set";
  append now (actor_hex op) "channel.rotated" id (VObject [("epoch", VNumber (NInt new))]) ≫= λ _,
  mret new.

(** ** Reads *)

Definition info_row (reader : string) (d : db) (c : channel) : ChannelInfo :=
  mk_info (ch_id c) (ch_kind c) (ch_name c) (ch_parent c) (ch_epoch c) (is_encrypted (ch_id c) d)
    (rotation_pending (ch_id c) d) (m_role <$> member_row (ch_id c) reader d).

Definition by_id (a b : channel) : comparison := String.compare (ch_id a) (ch_id b).

Definition list_channels (reader : string) : tx (list ChannelInfo) :=
  active_role reader ≫= λ _,
  query (λ d, info_row reader d <$>
    sort_by by_id (List.filter (λ c, is_member (ch_id c) reader d) (channels d))).

Definition all_channels (reader : string) : tx (list ChannelInfo) :=
  role ← active_role reader;
  need role Supervisor ≫= λ _,
  query (λ d, info_row reader d <$> sort_by by_id (channels d)).

Fixpoint read_member_rows (l : list member) : result StoreError (list (string * string)) :=
  match l with
  | [] => Ok []
  | m :: l' => pk ← read_pub (m_pubkey m); xs ← read_member_rows l'; mret ((pk, m_role m) :: xs)
  end.

Definition channel_members (id : string) : tx (list (string * string)) :=
  current_epoch id ≫= λ _,
  rows ← query (λ d, sort_by (λ a b, String.compare (m_pubkey a) (m_pubkey b))
                      (filter (λ m, m_channel m = id) (members d)));
  lift (read_member_rows rows).

Definition channel_info (reader id : string) : tx (ChannelInfo * list (string * string)) :=
  role ← active_role reader;
  m ← query (is_member id reader);
  (if m : bool then mret tt else
   guard (role_lt role Supervisor) (NotMember id) ≫= λ _,
   current_epoch id ≫= λ _, mret tt) ≫= λ _,
  c ← query (find_channel id);
  c' ← lift (ok_or c (Sql "Query returned no rows"));
  info ← query (λ d, info_row reader d c');
  ms ← channel_members id;
  mret (info, ms).

Definition key_row_of (id : string) (epoch : Z) (pk : string) (d : db) : option key_row :=
  snd <$> list_find (λ k, k_channel k = id ∧ k_epoch k = epoch ∧ k_member k = pk) (channel_keys d).

Definition member_key (reader id : string) (epoch : option Z) : tx (Z * string * string) :=
  active_role reader ≫= λ _,
  m ← query (is_member id reader);
  guard (negb m) (NotMember id) ≫= λ _,
  e ← match epoch with Some e => mret e | None => current_epoch id end;
  row ← query (key_row_of id e reader);
  match row with
  | Some k =>
      match k_wrapper k with
      | Some w =>
          if Nat.eqb (String.length w) 32 then mret (e, w, k_wrapped k)
          else fail (Sql "wrapper is not 32 bytes")
      | None => fail (NotFound "channel key")
      end
  | None => fail (NotFound "channel key")
  end.

Definition wrapped_key (id pk : string) (epoch : Z) (d : db) : option string :=
  k_wrapped <$> key_row_of id epoch pk d.

End Channels.
