(* ===== verification/ChanInv.v ===== *)
(** * agora-store: who holds the key of a channel

    The invariant of the channel tables and its preservation by every operation
    of [channels.rs], and by the revocation of [identity.rs]. *)

From S2P Require Import Prelude F64 Strs Bytes Core Crypto Task StoreDb Identity Channels.

(** ** What the tables say *)

Definition member_of (d : db) (id pk : string) : Prop :=
  ∃ m, m ∈ members d ∧ m_channel m = id ∧ m_pubkey m = pk.

Definition holds (d : db) (id : string) (epoch : Z) (pk : string) : Prop :=
  ∃ k, k ∈ channel_keys d ∧ k_channel k = id ∧ k_epoch k = epoch ∧ k_member k = pk.

Definition encrypted (d : db) (id : string) : Prop :=
  ∃ k, k ∈ channel_keys d ∧ k_channel k = id.

Definition pending (d : db) (id : string) : Prop := ∃ r, r ∈ rotations d ∧ r_channel r = id.

(** A key that is registered and not revoked, or that is or was the daemon's own:
    registering another system key marks the old one as revoked and leaves its
    memberships as they are. *)
Definition standing (d : db) (pk : string) : Prop :=
  ∃ i, i ∈ identities d ∧ i_pubkey i = pk ∧ (i_revoked i = false ∨ i_system i = true).

Definition member_key_of (m : member) : string * string := (m_channel m, m_pubkey m).
Definition key_key_of (k : key_row) : string * Z * string := (k_channel k, k_epoch k, k_member k).

(** Members and keys are of channels that exist, a member has a standing key,
    an epoch is at most the number of events, every member of an encrypted
    channel holds the current key, nobody else does unless a rotation is
    pending, and only encrypted channels wait for one. *)
Record chan_wf (d : db) : Prop := {
  cw_seq : (0 ≤ event_seq d)%Z;
  cw_ids : NoDup (ch_id <$> channels d);
  cw_epoch c : c ∈ channels d → (0 ≤ ch_epoch c ≤ event_seq d)%Z;
  cw_members : NoDup (member_key_of <$> members d);
  cw_member id pk : member_of d id pk → id ∈ ch_id <$> channels d ∧ standing d pk;
  cw_keys : NoDup (key_key_of <$> channel_keys d);
  cw_key k : k ∈ channel_keys d →
    (∃ c, c ∈ channels d ∧ ch_id c = k_channel k ∧ k_epoch k ≤ ch_epoch c)%Z ∧
    String.length (k_wrapped k) = WRAPPED_KEY_LEN;
  cw_hold c pk : c ∈ channels d → encrypted d (ch_id c) → member_of d (ch_id c) pk →
    holds d (ch_id c) (ch_epoch c) pk;
  cw_only c pk : c ∈ channels d → ¬ pending d (ch_id c) → holds d (ch_id c) (ch_epoch c) pk →
    member_of d (ch_id c) pk;
  cw_pending id : pending d id → encrypted d id }.

(** ** The queries decide them *)

Lemma is_member_true id pk d : is_member id pk d = true ↔ member_of d id pk.
Proof. unfold is_member. rewrite existsb_elem. by setoid_rewrite bool_decide_eq_true. Qed.

Lemma has_key_true id e pk d : has_key id e pk d = true ↔ holds d id e pk.
Proof. unfold has_key. rewrite existsb_elem. by setoid_rewrite bool_decide_eq_true. Qed.

Lemma is_encrypted_true id d : is_encrypted id d = true ↔ encrypted d id.
Proof. unfold is_encrypted. rewrite existsb_elem. by setoid_rewrite bool_decide_eq_true. Qed.

Lemma rotation_pending_true id d : rotation_pending id d = true ↔ pending d id.
Proof. unfold rotation_pending. rewrite existsb_elem. by setoid_rewrite bool_decide_eq_true. Qed.

Lemma is_member_false id pk d : is_member id pk d = false ↔ ¬ member_of d id pk.
Proof. by rewrite <- is_member_true, not_true_iff_false. Qed.

Lemma has_key_false id e pk d : has_key id e pk d = false ↔ ¬ holds d id e pk.
Proof. by rewrite <- has_key_true, not_true_iff_false. Qed.

Lemma is_encrypted_false id d : is_encrypted id d = false ↔ ¬ encrypted d id.
Proof. by rewrite <- is_encrypted_true, not_true_iff_false. Qed.

Lemma rotation_pending_false id d : rotation_pending id d = false ↔ ¬ pending d id.
Proof. by rewrite <- rotation_pending_true, not_true_iff_false. Qed.

Lemma find_channel_Some id d c : find_channel id d = Some c → c ∈ channels d ∧ ch_id c = id.
Proof.
  unfold find_channel. destruct (list_find _ _) as [[n x]|] eqn:E; cbn; [|done].
  intros [= ->]. apply list_find_Some in E as (H & ? & _).
  by split; [eapply list_elem_of_lookup_2|].
Qed.

Lemma current_epoch_Ok id d e d' :
  current_epoch id d = Ok (e, d') →
  d' = d ∧ ∃ c, c ∈ channels d ∧ ch_id c = id ∧ ch_epoch c = e.
Proof.
  unfold current_epoch. intros H. apply tx_bind_Ok in H as (c & ? & Hq & H).
  apply query_Ok in Hq as [-> ->]. apply lift_Ok in H as [H ->]. split; [done|].
  destruct (find_channel id d) as [c|] eqn:E; cbn in H; simplify_eq.
  apply find_channel_Some in E as [? ?]. eauto.
Qed.

Lemma holds_encrypted d id e pk : holds d id e pk → encrypted d id.
Proof. intros (k & ? & ? & _). by exists k. Qed.

Lemma channel_unique d c c' :
  chan_wf d → c ∈ channels d → c' ∈ channels d → ch_id c = ch_id c' → c = c'.
Proof. intros Hwf. apply key_inj, Hwf. Qed.

(** The key of an epoch past the current one was given to nobody. *)
Lemma fresh_epoch d c e pk : chan_wf d → c ∈ channels d → (ch_epoch c < e)%Z → ¬ holds d (ch_id c) e pk.
Proof.
  intros Hwf Hc He (k & Hk & Hid & Hep & _). destruct (cw_key d Hwf k Hk) as [(c' & Hc' & Ec & Hle) _].
  rewrite (channel_unique d c c') in He by (done || congruence). lia.
Qed.

Lemma member_of_key d id pk : member_of d id pk ↔ (id, pk) ∈ member_key_of <$> members d.
Proof.
  rewrite list_elem_of_fmap. unfold member_of, member_key_of. split.
  - intros (m & ? & <- & <-). by exists m.
  - intros (m & [= -> ->] & ?). by exists m.
Qed.

(** A channel stays, its epoch does not go back, and it stays encrypted or plain. *)
Definition chan_grow (d d' : db) : Prop :=
  ∀ c, c ∈ channels d → ∃ c', c' ∈ channels d' ∧ ch_id c' = ch_id c ∧ (ch_epoch c ≤ ch_epoch c')%Z ∧
    (encrypted d' (ch_id c) ↔ encrypted d (ch_id c)).

Lemma chan_grow_same d d' :
  channels d' = channels d → channel_keys d' = channel_keys d → chan_grow d d'.
Proof. intros Ec Ek c Hc. exists c. rewrite Ec. unfold encrypted. by rewrite Ek. Qed.

(** ** Changes of the tables *)

(** Membership rows may change their role, keys, channels and rotations stay. *)
Lemma chan_wf_frame d d' :
  chan_wf d → channels d' = channels d → member_key_of <$> members d' = member_key_of <$> members d →
  channel_keys d' = channel_keys d → rotations d' = rotations d →
  (∀ pk, standing d pk → standing d' pk) → (event_seq d ≤ event_seq d')%Z → chan_wf d' ∧ chan_grow d d'.
Proof.
  intros Hwf Ec Em Ek Er Hl Hs. split; [|by apply chan_grow_same].
  assert (∀ id pk, member_of d' id pk ↔ member_of d id pk) as Hm.
  { intros id pk. by rewrite !member_of_key, Em. }
  assert (∀ id e pk, holds d' id e pk ↔ holds d id e pk) as Hh. { intros. unfold holds. by rewrite Ek. }
  assert (∀ id, encrypted d' id ↔ encrypted d id) as He. { intros. unfold encrypted. by rewrite Ek. }
  assert (∀ id, pending d' id ↔ pending d id) as Hp. { intros. unfold pending. by rewrite Er. }
  destruct Hwf. constructor; rewrite ?Ec, ?Em, ?Ek; try done.
  - lia.
  - intros c Hc. specialize (cw_epoch0 c Hc). lia.
  - intros id pk [? ?]%Hm%cw_member0. auto.
  - intros c pk Hc ?%He ?%Hm. apply Hh. auto.
  - intros c pk Hc Hn%(not_iff_compat (Hp _)) ?%Hh. apply Hm. auto.
  - intros id ?%Hp. apply He. auto.
Qed.

(** Members leave: a channel that is encrypted and lost one waits for a
    rotation. *)
Lemma chan_wf_shrink d d' :
  chan_wf d → channels d' = channels d → members d' `sublist_of` members d →
  channel_keys d' = channel_keys d →
  (∀ id, pending d id → pending d' id) → (∀ id, pending d' id → encrypted d id) →
  (∀ id pk, encrypted d id → member_of d id pk → member_of d' id pk ∨ pending d' id) →
  (∀ id pk, member_of d' id pk → standing d pk → standing d' pk) → (event_seq d ≤ event_seq d')%Z →
  chan_wf d' ∧ chan_grow d d'.
Proof.
  intros Hwf Ec Em Ek Hp He Hlost Hl Hs. split; [|by apply chan_grow_same].
  assert (∀ id pk, member_of d' id pk → member_of d id pk) as Hm.
  { intros id pk (m & Hm & ?). exists m. split; [|done].
    eapply sublist_subseteq; [exact Em|exact Hm]. }
  assert (∀ id e pk, holds d' id e pk ↔ holds d id e pk) as Hh. { intros. unfold holds. by rewrite Ek. }
  assert (∀ id, encrypted d' id ↔ encrypted d id) as He'. { intros. unfold encrypted. by rewrite Ek. }
  pose proof Hwf as [? ? ? Hnd Hmem ? ? Hhold Honly ?].
  constructor; rewrite ?Ec, ?Ek; try done.
  - lia.
  - intros c Hc. pose proof (cw_epoch d Hwf c Hc). lia.
  - eapply sublist_NoDup; [exact Hnd|]. by apply fmap_sublist.
  - intros id pk Hx. destruct (Hmem id pk (Hm _ _ Hx)). eauto.
  - intros c pk Hc ?%He' ?%Hm. apply Hh. auto.
  - intros c pk Hc Hn Hk%Hh. assert (¬ pending d (ch_id c)) as Hn' by eauto.
    destruct (Hlost (ch_id c) pk) as [?|?]; eauto using holds_encrypted. done.
  - intros id ?%He. by apply He'.
Qed.

(** One member joins, with a key of the current epoch where there are keys. *)
Lemma chan_wf_join d d' c pk role ks :
  chan_wf d → c ∈ channels d → standing d pk → ¬ member_of d (ch_id c) pk →
  channels d' = channels d → identities d' = identities d → rotations d' = rotations d →
  members d' = members d ++ [mk_member (ch_id c) pk role] →
  channel_keys d' = channel_keys d ++ ks →
  (encrypted d (ch_id c) ∧ ¬ holds d (ch_id c) (ch_epoch c) pk ∧
     ∃ w by', ks = [mk_key_row (ch_id c) (ch_epoch c) pk w by'] ∧ String.length w = WRAPPED_KEY_LEN) ∨
  (¬ encrypted d (ch_id c) ∧ ks = []) →
  (event_seq d ≤ event_seq d')%Z → chan_wf d' ∧ chan_grow d d'.
Proof.
  intros Hwf Hc Hlive Hnew Ec Ei Er Em Ek Hks Hs.
  assert (∀ id x, member_of d' id x ↔ member_of d id x ∨ (id = ch_id c ∧ x = pk)) as Hm.
  { intros id x. rewrite !member_of_key, Em, fmap_app, elem_of_app. cbn.
    rewrite list_elem_of_singleton. unfold member_key_of at 2. cbn. naive_solver. }
  assert (∀ x, standing d' x ↔ standing d x) as Hl. { intros. unfold standing. by rewrite Ei. }
  assert (∀ id, pending d' id ↔ pending d id) as Hp. { intros. unfold pending. by rewrite Er. }
  assert (∀ id, encrypted d' id ↔ encrypted d id) as He.
  { intros id. unfold encrypted. rewrite Ek. setoid_rewrite elem_of_app. split; [|naive_solver].
    intros (k & [Hk|Hk] & <-); [by exists k|]. destruct Hks as [((k0 & ? & ?) & _ & w & b & -> & _)|[_ ->]].
    - apply list_elem_of_singleton in Hk as ->. by exists k0.
    - by apply elem_of_nil in Hk. }
  assert (∀ id e x, holds d' id e x ↔
    holds d id e x ∨ (encrypted d id ∧ id = ch_id c ∧ e = ch_epoch c ∧ x = pk)) as Hh.
  { intros id e x. unfold holds. rewrite Ek. setoid_rewrite elem_of_app.
    destruct Hks as [(He1 & _ & w & b & -> & _)|[He1 ->]].
    - setoid_rewrite list_elem_of_singleton. split.
      + intros (k & [Hk| ->] & E); [left; by exists k|right]. cbn in E. destruct E as (<- & <- & <-). auto.
      + intros [(k & ? & ?)|(_ & -> & -> & ->)]; [exists k; auto|].
        exists (mk_key_row (ch_id c) (ch_epoch c) pk w b). auto.
    - setoid_rewrite elem_of_nil. split.
      + intros (k & [Hk|[]] & E). left. by exists k.
      + intros [(k & ? & ?)|(? & -> & _)]; [exists k; auto|done]. }
  split; [|intros x Hx; exists x; rewrite Ec, He; done].
  pose proof Hwf as [? ? ? Hnd Hmem Hkd Hkey Hhold Honly Hpe].
  constructor; rewrite ?Ec; try done.
  - lia.
  - intros x Hx. pose proof (cw_epoch d Hwf x Hx). lia.
  - rewrite Em. apply keys_insert; [done|]. intros y Hy [= E1 E2]. apply Hnew. by exists y.
  - intros id x [Hx|[-> ->]]%Hm; rewrite Hl; [auto|]. split; [|done]. by apply list_elem_of_fmap_2.
  - rewrite Ek. destruct Hks as [(_ & Hno & w & b & -> & _)|[_ ->]]; [|by rewrite app_nil_r].
    apply keys_insert; [done|]. intros y Hy [= E1 E2 E3]. apply Hno. by exists y.
  - intros k. rewrite Ek, elem_of_app. intros [Hk|Hk]; [by apply Hkey|].
    destruct Hks as [(_ & _ & w & b & -> & Hw)|[_ ->]]; [|by apply elem_of_nil in Hk].
    apply list_elem_of_singleton in Hk as ->. split; [|done]. exists c. cbn. split_and!; [done..|lia].
  - intros x y Hx Hex%He [Hy|[E ->]]%Hm; apply Hh; [left; auto|right].
    split_and!; try done. by rewrite (channel_unique d x c).
  - intros x y Hx Hn [Hy|(_ & ? & _ & ->)]%Hh; apply Hm; [left|by right].
    rewrite Hp in Hn. auto.
  - intros id ?%Hp. apply He. auto.
Qed.

(** The rows a channel gets at once. *)
Definition member_rows (id : string) (l : list (string * string)) : list member :=
  map (λ x, mk_member id x.1 x.2) l.
Definition key_rows (id : string) (epoch : Z) (keys : list (string * string)) (by' : string) :
    list key_row :=
  map (λ x, mk_key_row id epoch x.1 x.2 (Some by')) keys.

Lemma elem_of_key_rows id epoch keys by' k :
  k ∈ key_rows id epoch keys by' →
  k_channel k = id ∧ k_epoch k = epoch ∧ k_member k ∈ keys.*1 ∧ (k_member k, k_wrapped k) ∈ keys.
Proof.
  intros ([pk w] & -> & Hx)%list_elem_of_fmap. cbn. split_and!; try done.
  apply list_elem_of_fmap. by exists (pk, w).
Qed.

Lemma key_rows_elem id epoch keys by' pk :
  pk ∈ keys.*1 → ∃ k, k ∈ key_rows id epoch keys by' ∧ k_channel k = id ∧ k_epoch k = epoch ∧ k_member k = pk.
Proof.
  intros ([x w] & -> & Hx)%list_elem_of_fmap. exists (mk_key_row id epoch x w (Some by')).
  split; [|done]. apply list_elem_of_fmap. by exists (x, w).
Qed.

Lemma key_rows_NoDup id epoch keys by' l :
  NoDup keys.*1 → NoDup (key_key_of <$> l) →
  (∀ k, k ∈ l → k_channel k = id → k_epoch k ≠ epoch) →
  NoDup (key_key_of <$> l ++ key_rows id epoch keys by').
Proof.
  intros Hn Hl Hf. rewrite fmap_app. apply NoDup_app. split_and!; [done| |].
  - intros x (k & -> & Hk)%list_elem_of_fmap (k' & [= E1 E2 _] & Hk')%list_elem_of_fmap.
    apply elem_of_key_rows in Hk' as (E3 & E4 & _). eapply Hf; [exact Hk|congruence..].
  - unfold key_rows. rewrite <- list_fmap_compose. clear -Hn.
    induction keys as [|[pk w] keys IH]; cbn; [constructor|]. cbn in Hn.
    apply NoDup_cons in Hn as [Hx Hn]. constructor; [|by apply IH].
    intros ([y v] & [= ->] & Hy)%list_elem_of_fmap. apply Hx, list_elem_of_fmap. by exists (y, v).
Qed.

Lemma elem_of_member_rows d id l by' :
  members by' = members d ++ member_rows id l →
  ∀ i pk, member_of by' i pk ↔ member_of d i pk ∨ (i = id ∧ pk ∈ l.*1).
Proof.
  intros E i pk. rewrite !member_of_key, E, fmap_app, elem_of_app. f_equiv.
  unfold member_rows. rewrite <- list_fmap_compose, !list_elem_of_fmap. split.
  - intros (x & [= -> ->] & Hx). split; [done|]. by exists x.
  - intros (-> & x & -> & Hx). by exists x.
Qed.

Lemma holds_key_rows d d' id0 epoch keys by' :
  channel_keys d' = channel_keys d ++ key_rows id0 epoch keys by' →
  ∀ id e pk, holds d' id e pk ↔ holds d id e pk ∨ (id = id0 ∧ e = epoch ∧ pk ∈ keys.*1).
Proof.
  intros Ek id e pk. unfold holds. rewrite Ek. setoid_rewrite elem_of_app. split.
  - intros (k & [Hk|Hk] & <- & <- & <-); [left; by exists k|right].
    by apply elem_of_key_rows in Hk as (? & ? & ? & _).
  - intros [(k & ? & ?)|(-> & -> & Hx)]; [exists k; auto|].
    apply (key_rows_elem id0 epoch keys by') in Hx as (k & ? & ?). exists k. auto.
Qed.

Lemma encrypted_key_rows d d' id0 epoch keys by' :
  channel_keys d' = channel_keys d ++ key_rows id0 epoch keys by' →
  ∀ id, encrypted d' id ↔ encrypted d id ∨ (id = id0 ∧ keys ≠ []).
Proof.
  intros Ek id. unfold encrypted. rewrite Ek. setoid_rewrite elem_of_app. split.
  - intros (k & [Hk|Hk] & <-); [left; by exists k|right].
    apply elem_of_key_rows in Hk as (? & _ & Hx & _). split; [done|]. intros ->. by apply elem_of_nil in Hx.
  - intros [(k & ? & ?)|[-> Hx]]; [exists k; auto|]. destruct keys as [|[pk w] keys']; [done|].
    exists (mk_key_row id0 epoch pk w (Some by')). split; [right; by left|done].
Qed.

Lemma member_rows_NoDup d id l :
  NoDup (member_key_of <$> members d) → NoDup l.*1 → (∀ pk, ¬ member_of d id pk) →
  NoDup (member_key_of <$> members d ++ member_rows id l).
Proof.
  intros Hd Hl Hn. rewrite fmap_app. apply NoDup_app. unfold member_rows. rewrite <- list_fmap_compose.
  split_and!; [done| |].
  - intros x (m & -> & Hi)%list_elem_of_fmap (y & [= E1 _] & _)%list_elem_of_fmap.
    apply (Hn (m_pubkey m)). by exists m.
  - rewrite (list_fmap_ext _ (pair id ∘ fst) l) by done. rewrite list_fmap_compose.
    apply NoDup_fmap; [|done]. by intros ? ? [= ->].
Qed.

(** A new channel, with the keys of epoch 0 for its members or without keys. *)
Lemma chan_wf_new d d' c ms keys by' :
  chan_wf d → ch_id c ∉ ch_id <$> channels d → ch_epoch c = 0%Z →
  channels d' = channels d ++ [c] → identities d' = identities d → rotations d' = rotations d →
  members d' = members d ++ member_rows (ch_id c) ms →
  channel_keys d' = channel_keys d ++ key_rows (ch_id c) 0 keys by' →
  NoDup ms.*1 → Forall (standing d) ms.*1 → NoDup keys.*1 →
  Forall (λ k, String.length k.2 = WRAPPED_KEY_LEN) keys →
  keys = [] ∨ (∀ pk, pk ∈ keys.*1 ↔ pk ∈ ms.*1) →
  (event_seq d ≤ event_seq d')%Z → chan_wf d' ∧ chan_grow d d'.
Proof.
  intros Hwf Hnew E0 Ec Ei Er Em Ek Hnd Hlive Hkn Hkl Hcov Hs.
  pose proof (elem_of_member_rows d (ch_id c) ms d' Em) as Hm.
  assert (∀ k, k ∈ channel_keys d → k_channel k ≠ ch_id c) as Hold.
  { intros k Hk E. destruct (cw_key d Hwf k Hk) as [(x & Hx & Ex & _) _].
    apply Hnew. rewrite <- E, <- Ex. by apply list_elem_of_fmap_2. }
  pose proof (encrypted_key_rows d d' _ _ _ _ Ek) as He.
  pose proof (holds_key_rows d d' _ _ _ _ Ek) as Hh.
  assert (∀ x, x ∈ channels d' → (x ∈ channels d ∧ ch_id x ≠ ch_id c) ∨ x = c) as Hx.
  { intros x. rewrite Ec, elem_of_app, list_elem_of_singleton. intros [Hx| ->]; [left|by right].
    split; [done|]. intros E. apply Hnew. rewrite <- E. by apply list_elem_of_fmap_2. }
  assert (∀ pk, ¬ member_of d (ch_id c) pk) as Hnm. { intros pk [? _]%(cw_member d Hwf). done. }
  split.
  2: { intros x Hi. exists x. rewrite Ec, elem_of_app, He. split_and!; [by left|done..|].
    split; [|by left]. intros [?|[E _]]; [done|]. destruct Hnew. rewrite <- E. by apply list_elem_of_fmap_2. }
  pose proof (cw_seq d Hwf). constructor; [lia|..].
  - rewrite Ec. apply keys_insert; [apply Hwf|]. intros y Hy E. apply Hnew. rewrite <- E. by apply list_elem_of_fmap_2.
  - intros x [[Hi _]| ->]%Hx; [pose proof (cw_epoch d Hwf x Hi)|]; lia.
  - rewrite Em. apply member_rows_NoDup; [apply Hwf|done|done].
  - intros id pk. rewrite Hm. unfold standing. rewrite Ei, Ec, fmap_app, elem_of_app. intros [Hi|[-> Hi]].
    + destruct (cw_member d Hwf id pk Hi). auto.
    + split; [right; by left|]. rewrite Forall_forall in Hlive. by apply Hlive.
  - rewrite Ek. apply key_rows_NoDup; [done|apply Hwf|]. intros k Hk E. by destruct (Hold k Hk).
  - intros k. rewrite Ek, elem_of_app, Ec. setoid_rewrite elem_of_app. intros [Hk|Hk].
    + destruct (cw_key d Hwf k Hk) as [(x & ? & ? & ?) ?]. split; [exists x; auto|done].
    + apply elem_of_key_rows in Hk as (-> & -> & _ & Hk). rewrite Forall_forall in Hkl. split; [|by apply (Hkl _ Hk)].
      exists c. rewrite list_elem_of_singleton. split_and!; auto. lia.
  - intros x pk [[Hi Hne]| ->]%Hx; rewrite He, Hm, Hh.
    + intros [?|[? _]] [?|[? _]]; try done. left. by apply (cw_hold d Hwf).
    + intros [(k & Hk & E)|[_ Hk]]; [by destruct (Hold k Hk)|]. intros [?|[_ Hi]]; [by destruct (Hnm pk)|].
      right. destruct Hcov as [->|Hcov]; [done|]. by rewrite Hcov.
  - intros x pk [[Hi Hne]| ->]%Hx; rewrite Hm, Hh; unfold pending; rewrite Er.
    + intros Hn [?|[? _]]; [|done]. left. by apply (cw_only d Hwf).
    + intros _ [(k & Hk & E & _)|(_ & _ & Hk)]; [by destruct (Hold k Hk)|]. right. split; [done|].
      destruct Hcov as [->|Hcov]; [by apply elem_of_nil in Hk|]. by apply Hcov.
  - intros id. unfold pending. rewrite Er, He. intros ?%(cw_pending d Hwf). by left.
Qed.

(** The next epoch of a channel, with a key for each member that is there. *)
Lemma chan_wf_rotate d d' c e keys by' :
  chan_wf d → c ∈ channels d → encrypted d (ch_id c) → (ch_epoch c < e ≤ event_seq d')%Z →
  channels d' = channels (set_epoch (ch_id c) e d) → members d' = members d →
  identities d' = identities d → rotations d' = rotations (settle_rotation (ch_id c) d) →
  channel_keys d' = channel_keys d ++ key_rows (ch_id c) e keys by' →
  NoDup keys.*1 → Forall (λ k, String.length k.2 = WRAPPED_KEY_LEN) keys →
  (∀ pk, pk ∈ keys.*1 ↔ member_of d (ch_id c) pk) → (event_seq d ≤ event_seq d')%Z → chan_wf d' ∧ chan_grow d d'.
Proof.
  intros Hwf Hc Henc He Ec Em Ei Er Ek Hnd Hlen Hcov Hs. cbn in Ec, Er.
  set (f := λ x, if decide (ch_id x = ch_id c)
    then mk_channel (ch_id x) (ch_kind x) (ch_name x) (ch_parent x) e (ch_created x) else x) in Ec.
  assert (∀ x, ch_id (f x) = ch_id x) as Hid. { intros x. unfold f. by case_decide. }
  assert (∀ x, x ∈ channels d' → ∃ y, y ∈ channels d ∧ ch_id x = ch_id y ∧
    ((y = c ∧ ch_epoch x = e) ∨ (ch_id y ≠ ch_id c ∧ x = y))) as Hx.
  { intros x. rewrite Ec. intros (y & -> & Hy)%list_elem_of_fmap. exists y. rewrite Hid.
    split_and!; [done..|]. unfold f. case_decide as E; [left|by right].
    split; [|done]. by apply (channel_unique d). }
  assert (∀ id pk, member_of d' id pk ↔ member_of d id pk) as Hm. { intros. unfold member_of. by rewrite Em. }
  assert (∀ id, encrypted d id → encrypted d' id) as Hen.
  { intros id (k & ? & ?). exists k. rewrite Ek, elem_of_app. auto. }
  pose proof (holds_key_rows d d' _ _ _ _ Ek) as Hh.
  assert (∀ id, id ≠ ch_id c → pending d id → pending d' id) as Hp.
  { intros id Hn (r & Hr & <-). exists r. rewrite Er. split; [|done]. by apply list_elem_of_filter. }
  split.
  2: { intros x Hi. exists (f x). rewrite Ec. split_and!; [by apply list_elem_of_fmap_2|apply Hid| |].
    - unfold f. case_decide; [|done]. rewrite (channel_unique d x c) by done. cbn. lia.
    - split; [|apply Hen]. rewrite (encrypted_key_rows d d' _ _ _ _ Ek). intros [?|[-> _]]; done. }
  pose proof (cw_seq d Hwf). constructor; rewrite ?Em, ?Ei; [lia|..].
  - rewrite Ec, (keys_update ch_id f) by done. apply Hwf.
  - intros x (y & Hy & _ & [[-> ->]|[_ ->]])%Hx; [|pose proof (cw_epoch d Hwf y Hy); lia].
    pose proof (cw_epoch d Hwf c Hc). lia.
  - apply Hwf.
  - intros id pk ?%Hm. unfold standing. rewrite Ei, Ec, (keys_update ch_id f) by done. by apply (cw_member d Hwf).
  - rewrite Ek. apply key_rows_NoDup; [done|apply Hwf|]. intros k Hk E1 E2.
    apply (fresh_epoch d c e (k_member k)); [done..|lia|]. by exists k.
  - intros k. rewrite Ek, elem_of_app. intros [Hk|Hk].
    + destruct (cw_key d Hwf k Hk) as [(x & Hi & <- & ?) ?]. split; [|done]. exists (f x).
      split_and!; [rewrite Ec; by apply list_elem_of_fmap_2|apply Hid|].
      unfold f. case_decide as E; [|done]. assert (x = c) as -> by (by apply (channel_unique d)).
      cbn [ch_epoch]. lia.
    + apply elem_of_key_rows in Hk as (-> & -> & _ & Hk). rewrite Forall_forall in Hlen.
      split; [|by apply (Hlen _ Hk)]. exists (f c). unfold f. rewrite decide_True by done. cbn.
      split_and!; [|done|lia]. rewrite Ec. apply list_elem_of_fmap. exists c. unfold f. by rewrite decide_True.
  - intros x pk (y & Hy & -> & [[-> ->]|[Hn ->]])%Hx Hex ?%Hm; apply Hh.
    + right. rewrite Hcov. done.
    + left. apply (cw_hold d Hwf); try done. destruct Hex as (k & Hk & E). rewrite Ek, elem_of_app in Hk.
      destruct Hk as [Hk|Hk]; [by exists k|]. apply elem_of_key_rows in Hk as (? & _). congruence.
  - intros x pk (y & Hy & -> & [[-> ->]|[Hn ->]])%Hx Hnp Hk%Hh; apply Hm.
    + destruct Hk as [Hk|(_ & _ & Hk)]; [|by apply Hcov].
      by destruct (fresh_epoch d c e pk Hwf Hc ltac:(lia)).
    + destruct Hk as [Hk|(? & _)]; [|done]. apply (cw_only d Hwf); try done. intros ?. apply Hnp. eauto.
  - intros id (r & Hr & E). rewrite Er, list_elem_of_filter in Hr. destruct Hr as [_ Hr].
    apply Hen, (cw_pending d Hwf). by exists r.
Qed.

(** ** Effects of the statements *)

Lemma insert_member_Ok id pk role d u d' :
  insert_member id pk role d = Ok (u, d') →
  ¬ member_of d id pk ∧ d' = set_members (members d ++ [mk_member id pk role]) d.
Proof. unfold insert_member. intros H. tx_inv. split; [|done]. by apply is_member_false. Qed.

Lemma insert_members_Ok id l d u d' :
  insert_members id l d = Ok (u, d') → d' = set_members (members d ++ member_rows id l) d.
Proof.
  revert d. induction l as [|[pk role] l IH]; intros d H; cbn in H.
  - apply mret_Ok in H as [_ ->]. rewrite app_nil_r. by destruct d.
  - step insert_member_Ok in H as ? [_ ->].
    apply IH in H as ->. cbn. by rewrite <- app_assoc.
Qed.

Lemma insert_key_Ok id e pk w by' d u d' :
  insert_key id e pk w by' d = Ok (u, d') →
  ¬ holds d id e pk ∧ d' = set_keys (channel_keys d ++ [mk_key_row id e pk w (Some by')]) d.
Proof. unfold insert_key. intros H. tx_inv. split; [|done]. by apply has_key_false. Qed.

Lemma insert_keys_Ok id e keys by' d u d' :
  insert_keys id e keys by' d = Ok (u, d') →
  d' = set_keys (channel_keys d ++ key_rows id e keys by') d.
Proof.
  revert d. induction keys as [|[pk w] keys IH]; intros d H; cbn in H.
  - apply mret_Ok in H as [_ ->]. rewrite app_nil_r. by destruct d.
  - step insert_key_Ok in H as ? [_ ->].
    apply IH in H as ->. cbn. by rewrite <- app_assoc.
Qed.

Lemma key_set_from_Ok keys acc ks :
  key_set_from acc keys = Ok ks →
  NoDup keys.*1 ∧ (∀ pk, pk ∈ keys.*1 → pk ∉ acc) ∧ ks = acc ∪ list_to_set keys.*1 ∧
  Forall (λ k, String.length k.2 = WRAPPED_KEY_LEN) keys.
Proof.
  revert acc. induction keys as [|[pk w] keys IH]; intros acc H; cbn in H.
  - simplify_eq. split_and!; try constructor; [by intros ? ?%elem_of_nil|set_solver].
  - destruct (Nat.eqb _ _) eqn:E; cbn [negb] in H; [|done]. case_decide as Ha; [done|].
    apply IH in H as (Hn & Hd & -> & Hl). apply Nat.eqb_eq in E. cbn. split_and!.
    + constructor; [|done]. intros Hx. specialize (Hd pk Hx). set_solver.
    + intros x [->|Hx]%elem_of_cons; [done|]. specialize (Hd x Hx). set_solver.
    + set_solver.
    + by constructor.
Qed.

Lemma key_set_Ok keys ks :
  key_set keys = Ok ks →
  NoDup keys.*1 ∧ ks = list_to_set keys.*1 ∧ Forall (λ k, String.length k.2 = WRAPPED_KEY_LEN) keys.
Proof. intros (? & _ & -> & ?)%key_set_from_Ok. split_and!; try done. set_solver. Qed.

Lemma read_pubs_Ok l l' : read_pubs l = Ok l' → l' = l.
Proof.
  revert l'. induction l as [|pk l IH]; intros l' H; cbn in H; [by simplify_eq|].
  apply result_bind_Ok in H as (x & Hx & H). apply result_bind_Ok in H as (xs & Hxs & H).
  unfold read_pub in Hx. destruct (Nat.eqb _ _); [|done]. apply IH in Hxs as ->. injection Hx as <-. by injection H as <-.
Qed.

Lemma member_set_Ok id d s d' :
  member_set id d = Ok (s, d') → d' = d ∧ ∀ pk, pk ∈ s ↔ member_of d id pk.
Proof.
  unfold member_set. intros H. tx_inv.
  match goal with H : read_pubs _ = Ok _ |- _ => apply read_pubs_Ok in H as -> end.
  split; [done|]. intros pk. rewrite elem_of_list_to_set. unfold channel_pks.
  rewrite list_elem_of_fmap. unfold member_of. setoid_rewrite list_elem_of_filter. naive_solver.
Qed.

Lemma active_live pk d r d' : active_role pk d = Ok (r, d') → d' = d ∧ standing d pk.
Proof.
  intros [-> (i & Hi & Hr & _)]%active_role_Ok. split; [done|].
  apply find_ident_Some in Hi as [? ?]. exists i. auto.
Qed.

Lemma read_members_Ok items acc d l d' :
  read_members items acc d = Ok (l, d') →
  NoDup acc.*1 → Forall (standing d) acc.*1 → d' = d ∧ NoDup l.*1 ∧ Forall (standing d) l.*1.
Proof.
  revert acc. induction items as [|v items IH]; intros acc H Hn Hl; cbn [read_members] in H.
  - by apply mret_Ok in H as [-> ->].
  - step lift_Ok in H as [pk role] [_ ->].
    step active_live in H as ? [-> Hlive].
    step guard_Ok in H as ? [Hg ->].
    apply IH in H; [done| |]; rewrite fmap_app; cbn.
    + apply NoDup_app. split_and!; [done| |apply NoDup_singleton].
      intros z (y & -> & Hy)%list_elem_of_fmap Hx. apply list_elem_of_singleton in Hx.
      pose proof (existsb_none _ _ _ Hg Hy) as Hz. cbn in Hz, Hx. by rewrite bool_decide_eq_false in Hz.
    + apply Forall_app. by repeat constructor.
Qed.

Lemma with_creator_spec (Q : string → Prop) actor l :
  NoDup l.*1 → Forall Q l.*1 → Q actor →
  NoDup (with_creator actor l).*1 ∧ Forall Q (with_creator actor l).*1.
Proof.
  intros Hn Hl Ha. unfold with_creator.
  pose proof (sort_by_perm (λ a b : string * string, String.compare a.1 b.1)
    (filter (λ x, x.1 ≠ actor) l ++ [(actor, "admin")])) as Hp.
  apply (fmap_Permutation fst) in Hp. rewrite Hp, fmap_app. cbn.
  assert (NoDup (filter (λ x, x.1 ≠ actor) l).*1 ∧ Forall Q (filter (λ x, x.1 ≠ actor) l).*1) as [Hf Hq].
  { split; [by apply keys_delete|]. rewrite Forall_forall in Hl |- *.
    intros x (y & -> & [_ Hy]%list_elem_of_filter)%list_elem_of_fmap. apply Hl.
    by apply list_elem_of_fmap_2. }
  split.
  - apply NoDup_app. split_and!; [done| |apply NoDup_singleton].
    intros x (y & -> & [? _]%list_elem_of_filter)%list_elem_of_fmap ?%list_elem_of_singleton. done.
  - apply Forall_app. by repeat constructor.
Qed.

(** ** The operations keep the invariant *)

Section Operations.
Context `{P : Prims} `{J : JsonText}.

Lemma need_admin_Ok role id actor d u d' : need_admin role id actor d = Ok (u, d') → d' = d.
Proof. unfold need_admin. intros H. by tx_inv. Qed.

Lemma parse_parent_Ok role actor arg d p d' : parse_parent role actor arg d = Ok (p, d') → d' = d.
Proof.
  unfold parse_parent. intros H.
  destruct (vget "parent" arg) as [[]|]; try (by apply mret_Ok in H as [_ ->]); try (by destruct (fail_Ok _ _ _ _ H)).
  step query_Ok in H as b [-> ->].
  step guard_Ok in H as ? [_ ->].
  step current_epoch_Ok in H as ? [-> _].
  by apply mret_Ok in H as [_ ->].
Qed.

Lemma authorized_live now op kind role d : authorized now op kind role d → standing d (o_actor op).
Proof. intros [_ _ _ (i & Hi & Hr & _) _]. apply find_ident_Some in Hi as [? ?]. exists i. auto. Qed.

(** The keys of a new channel cover its members or there are none. *)
Lemma create_keys_Ok keys (ms : list (string * string)) d u d' :
  (if negb (bool_decide (keys = []))
   then lift (key_set keys) ≫= λ ks, guard (negb (bool_decide (ks = list_to_set ms.*1)))
          (Invalid "keys must cover exactly the member set")
   else mret tt) d = Ok (u, d') →
  d' = d ∧ NoDup keys.*1 ∧ Forall (λ k, String.length k.2 = WRAPPED_KEY_LEN) keys ∧
  (keys = [] ∨ ∀ pk, pk ∈ keys.*1 ↔ pk ∈ ms.*1).
Proof.
  case_bool_decide as E; cbn [negb]; intros H.
  - apply mret_Ok in H as [_ ->]. subst keys. split_and!; try constructor. done.
  - step lift_Ok in H as ks [(Hn & -> & Hl)%key_set_Ok ->].
    apply guard_Ok in H as [Hg ->]. apply negb_false_iff, bool_decide_eq_true in Hg.
    split_and!; try done. right. intros pk. rewrite <- !(elem_of_list_to_set (C := gset string)), Hg. done.
Qed.

Lemma create_channel_wf now op keys d u d' :
  chan_wf d → create_channel now op keys d = Ok (u, d') → chan_wf d' ∧ chan_grow d d'.
Proof.
  intros Hwf H. unfold create_channel in H.
  step authorize_Ok in H as role [Hau ->].
  step need_Ok in H as ? [-> _].
  step guard_Ok in H as ? [_ ->].
  step lift_Ok in H as arg [_ ->].
  step lift_Ok in H as kind [_ ->].
  step lift_Ok in H as name [_ ->].
  step parse_parent_Ok in H as parent ->.
  apply tx_bind_Ok in H as (listed & d1 & Hx & H).
  assert (d1 = with_nonce now op d ∧ NoDup listed.*1 ∧ Forall (standing (with_nonce now op d)) listed.*1)
    as (-> & Hn & Hl).
  { destruct (vget "members" arg) as [[]|]; try (by destruct (fail_Ok _ _ _ _ Hx)).
    - by apply read_members_Ok in Hx; [|constructor..].
    - apply mret_Ok in Hx as [-> ->]. by repeat constructor. }
  destruct (with_creator_spec _ (o_actor op) listed Hn Hl (authorized_live _ _ _ _ _ Hau)) as [Hmn Hml].
  step create_keys_Ok in H as ? (-> & Hkn & Hkl & Hcov).
  step lift_Ok in H as ? [_ ->].
  step query_Ok in H as ex [-> ->].
  step guard_Ok in H as ? [Hnew ->].
  step execute_Ok in H as ? ->.
  step insert_members_Ok in H as ? ->.
  step insert_keys_Ok in H as ? ->.
  tx_inv.
  eapply (chan_wf_new d _ (mk_channel (o_subject op) kind name parent 0 now)
    (with_creator (o_actor op) listed) keys); try done; cbn; [|lia].
  intros (c & E & Hc)%list_elem_of_fmap. pose proof (existsb_none _ _ _ Hnew Hc) as Hf.
  cbn in Hf. rewrite bool_decide_eq_false in Hf. congruence.
Qed.

Lemma add_member_wf now op wrapped d u d' :
  chan_wf d → add_member now op wrapped d = Ok (u, d') → chan_wf d' ∧ chan_grow d d'.
Proof.
  intros Hwf H. unfold add_member in H.
  step authorize_Ok in H as role [_ ->].
  step need_Ok in H as ? [-> _].
  step lift_Ok in H as arg [_ ->].
  step lift_Ok in H as [pk mrole] [_ ->].
  step need_admin_Ok in H as ? ->.
  step current_epoch_Ok in H as epoch [-> (c & Hc & Eid & <-)].
  step active_live in H as ? [-> Hlive].
  step query_Ok in H as ? [-> ->].
  step guard_Ok in H as ? [_ ->].
  step query_Ok in H as ? [-> ->].
  apply tx_bind_Ok in H as (? & d1 & Hx & H).
  step insert_member_Ok in H as ? [Hnew ->]. tx_inv.
  cbn [fst snd] in *. rewrite <- Eid in *.
  destruct (is_encrypted (ch_id c) (with_nonce now op d)) eqn:Ee.
  - apply is_encrypted_true in Ee. destruct wrapped as [w|]; [|done].
    destruct (Nat.eqb _ _) eqn:El; [|done]. apply Nat.eqb_eq in El.
    step lift_Ok in Hx as ? [_ ->].
    apply insert_key_Ok in Hx as [Hno ->].
    eapply (chan_wf_join d _ c pk mrole [_]); try done; [|cbn; lia].
    left. split_and!; try done. eauto.
  - apply is_encrypted_false in Ee. destruct wrapped as [w|]; [done|]. apply lift_Ok in Hx as [_ ->].
    eapply (chan_wf_join d _ c pk mrole []); try done; [by rewrite app_nil_r|by right|cbn; lia].
Qed.

Lemma next_epoch_Ok op arg epoch keys msg d new d' :
  next_epoch op arg epoch keys msg d = Ok (new, d') →
  let id := o_subject op in
  new = wrap_i64 (epoch + 1) ∧ NoDup keys.*1 ∧
  Forall (λ k, String.length k.2 = WRAPPED_KEY_LEN) keys ∧
  (∀ pk, pk ∈ keys.*1 ↔ member_of d id pk) ∧
  d' = settle_rotation id (set_keys (channel_keys d ++ key_rows id new keys (o_actor op))
         (set_epoch id new d)).
Proof.
  unfold next_epoch. intros H. cbn zeta.
  step member_set_Ok in H as ms [-> Hms].
  step lift_Ok in H as ks [(Hn & -> & Hl)%key_set_Ok ->].
  step guard_Ok in H as ? [Hg ->]. apply negb_false_iff, bool_decide_eq_true in Hg.
  step lift_Ok in H as ? [_ ->].
  step execute_Ok in H as ? ->.
  step insert_keys_Ok in H as ? ->. tx_inv. split_and!; try done.
  intros pk. rewrite <- (elem_of_list_to_set (C := gset string)). apply Hms.
Qed.

(** A rotation from a state in which the channel may wait for one. *)
Lemma next_epoch_wf now op arg c keys msg d0 d new d' actor kind data :
  chan_wf d0 → c ∈ channels d0 → encrypted d0 (ch_id c) → ch_id c = o_subject op →
  channels d = channels d0 → members d = members d0 → channel_keys d = channel_keys d0 →
  identities d = identities d0 → event_seq d = event_seq d0 →
  filter (λ r, r_channel r ≠ ch_id c) (rotations d) = filter (λ r, r_channel r ≠ ch_id c) (rotations d0) →
  (event_seq d < i64_max)%Z → next_epoch op arg (ch_epoch c) keys msg d = Ok (new, d') →
  chan_wf (logged now actor kind (o_subject op) data d') ∧
  chan_grow d0 (logged now actor kind (o_subject op) data d').
Proof.
  intros Hwf Hc He Eid Ec Em Ek Ei Es Er Hseq H.
  apply next_epoch_Ok in H as (-> & Hn & Hl & Hcov & ->). rewrite <- Eid in *.
  pose proof (cw_epoch d0 Hwf c Hc) as Hep.
  rewrite wrap_i64_id by (unfold i64_min, i64_max in *; lia).
  eapply (chan_wf_rotate d0 _ c (ch_epoch c + 1) keys (o_actor op)); cbn; rewrite ?Ec, ?Em, ?Ek, ?Ei, ?Es, ?Er; try done; try lia.
  intros pk. rewrite Hcov. unfold member_of. by rewrite Em.
Qed.

Lemma drop_member_of id pk d i x :
  member_of (drop_member id pk d) i x ↔ member_of d i x ∧ ¬ (i = id ∧ x = pk).
Proof.
  unfold member_of, drop_member. cbn. setoid_rewrite list_elem_of_filter. split.
  - intros (m & [Hn Hm] & <- & <-). split; [by exists m|done].
  - intros ((m & Hm & <- & <-) & Hn). exists m. done.
Qed.

(** A member is dropped and its channel, if it is encrypted, flagged. *)
Lemma chan_wf_drop d d' id pk :
  chan_wf d → channels d' = channels d → members d' = members (drop_member id pk d) →
  channel_keys d' = channel_keys d → identities d' = identities d →
  (∀ i, pending d' i ↔ pending d i ∨ (i = id ∧ encrypted d id)) →
  (event_seq d ≤ event_seq d')%Z → chan_wf d' ∧ chan_grow d d'.
Proof.
  intros Hwf Ec Em Ek Ei Hp Hs.
  assert (∀ i x, member_of d' i x ↔ member_of d i x ∧ ¬ (i = id ∧ x = pk)) as Hm.
  { intros i x. rewrite <- drop_member_of. unfold member_of. by rewrite Em. }
  eapply (chan_wf_shrink d); try done.
  - rewrite Em. apply sublist_filter.
  - intros i ?. apply Hp. auto.
  - intros i [?|[-> ?]]%Hp; [by apply (cw_pending d Hwf)|done].
  - intros i x He Hx. rewrite Hm, Hp. destruct (decide (i = id ∧ x = pk)) as [[-> ->]|]; auto.
  - intros i x _. unfold standing. by rewrite Ei.
Qed.

Lemma flag_left_pending now id pk d i :
  pending (flag_left now id pk d) i ↔ pending d i ∨ i = id.
Proof.
  unfold flag_left. destruct (rotation_pending id d) eqn:E.
  - apply rotation_pending_true in E. naive_solver.
  - unfold pending. cbn. setoid_rewrite elem_of_app. setoid_rewrite list_elem_of_singleton. split.
    + intros (r & [Hr| ->] & <-); [left; by exists r|by right].
    + intros [(r & ? & ?)| ->]; [exists r; auto|]. eexists. split; [by right|done].
Qed.

Lemma remove_member_wf now op keys d u d' :
  chan_wf d → (event_seq d < i64_max)%Z → remove_member now op keys d = Ok (u, d') → chan_wf d' ∧ chan_grow d d'.
Proof.
  intros Hwf Hseq H. unfold remove_member in H.
  step authorize_Ok in H as role [_ ->].
  step lift_Ok in H as arg [_ ->].
  step lift_Ok in H as pk [_ ->].
  step query_Ok in H as ? [_ ->].
  step guard_Ok in H as ? [_ ->].
  step query_Ok in H as ? [-> ->].
  apply tx_bind_Ok in H as (? & d1 & Hx & H).
  assert (d1 = with_nonce now op d) as ->.
  { destruct (is_member _ _ _); [by apply mret_Ok in Hx as [_ ->]|].
    apply tx_bind_Ok in Hx as (? & ? & _ & Hx). by destruct (fail_Ok _ _ _ _ Hx). }
  clear Hx. step current_epoch_Ok in H as epoch [-> (c & Hc & Eid & <-)].
  step query_Ok in H as ? [_ ->].
  step query_Ok in H as ? [_ ->].
  step guard_Ok in H as ? [_ ->].
  step query_Ok in H as ? [-> ->].
  step guard_Ok in H as ? [_ ->].
  step execute_Ok in H as ? ->.
  apply tx_bind_Ok in H as (new & d1 & Hx & H).
  assert (∃ data, d' = logged now (actor_hex op) "channel.member_removed" (o_subject op) data d1) as [data ->].
  { tx_inv. by eexists. }
  clear H. destruct (is_encrypted _ _) eqn:Ee; cbn [negb] in Hx.
  - apply is_encrypted_true in Ee. case_bool_decide as Es.
    + step execute_Ok in Hx as ? ->. apply mret_Ok in Hx as [_ ->].
      eapply (chan_wf_drop d _ (o_subject op) pk); try done.
      1-4: unfold logged, flag_left; by destruct (rotation_pending _ _).
      { intros i. change (pending (logged _ _ _ _ _ ?x) i) with (pending x i). rewrite flag_left_pending.
        naive_solver. }
      { unfold flag_left. destruct (rotation_pending _ _); cbn; lia. }
    + set (dr := drop_member (o_subject op) pk (with_nonce now op d)) in *.
      set (d0 := set_rotations (rotations dr ++ [mk_rotation (o_subject op) now ""]) dr).
      eapply (next_epoch_wf now op arg c keys _ d0 dr); try done.
      * eapply (chan_wf_drop d _ (o_subject op) pk); try done.
        intros i. unfold pending. cbn. setoid_rewrite elem_of_app. setoid_rewrite list_elem_of_singleton.
        split; [intros (r & [Hr| ->] & <-); [left; by exists r|by right]|].
        intros [(r & ? & ?)|[-> _]]; [exists r; auto|]. eexists. split; [by right|done].
      * by rewrite Eid.
      * subst d0. cbn. rewrite filter_app, filter_cons_False, app_nil_r; [done|]. rewrite Eid. auto.
  - apply is_encrypted_false in Ee. tx_inv.
    eapply (chan_wf_drop d _ (o_subject op) pk); try done; [|cbn; lia]. intros i. naive_solver.
Qed.

Lemma set_channel_role_wf now op d u d' :
  chan_wf d → set_channel_role now op d = Ok (u, d') → chan_wf d' ∧ chan_grow d d'.
Proof.
  intros Hwf H. unfold set_channel_role in H.
  step authorize_Ok in H as role [_ ->].
  step need_Ok in H as ? [-> _].
  step lift_Ok in H as arg [_ ->].
  step lift_Ok in H as [pk mrole] [_ ->].
  step need_admin_Ok in H as ? ->.
  step current_epoch_Ok in H as ? [-> _].
  step query_Ok in H as ? [_ ->].
  step lift_Ok in H as old [_ ->].
  case_decide; [tx_inv; by apply (chan_wf_frame d)|]. tx_inv.
  apply (chan_wf_frame d); try done; [|cbn; lia]. cbn.
  apply keys_update. intros m. destruct (decide (m_channel m = _ ∧ _)) as [[E1 E2]|]; [|done].
  unfold member_key_of. cbn in *. by rewrite E1, E2.
Qed.

Lemma rotate_channel_key_wf now op keys d new d' :
  chan_wf d → (event_seq d < i64_max)%Z → rotate_channel_key now op keys d = Ok (new, d') → chan_wf d' ∧ chan_grow d d'.
Proof.
  intros Hwf Hseq H. unfold rotate_channel_key in H.
  step authorize_Ok in H as role [_ ->].
  step need_Ok in H as ? [-> _].
  step lift_Ok in H as arg [_ ->].
  step need_admin_Ok in H as ? ->.
  step current_epoch_Ok in H as epoch [-> (c & Hc & Eid & <-)].
  step query_Ok in H as ? [-> ->].
  step guard_Ok in H as ? [He ->]. apply negb_false_iff, is_encrypted_true in He.
  apply tx_bind_Ok in H as (e & d1 & Hx & H).
  assert (∃ data, d' = logged now (actor_hex op) "channel.rotated" (o_subject op) data d1) as [data ->].
  { tx_inv. by eexists. }
  eapply (next_epoch_wf now op arg c keys _ (with_nonce now op d) (with_nonce now op d)); try done.
  - by apply (chan_wf_frame d).
  - by rewrite Eid.
Qed.
End Operations.

(** ** The other parts of the store *)

(** Everything but channel operations and revocations. *)
Definition chan_same (d d' : db) : Prop :=
  channels d' = channels d ∧ members d' = members d ∧ channel_keys d' = channel_keys d ∧
  rotations d' = rotations d ∧ (∀ pk, standing d pk → standing d' pk) ∧ (event_seq d ≤ event_seq d')%Z.

#[export] Instance chan_same_pre : PreOrder chan_same.
Proof.
  split; [by repeat split|].
  intros a b c (E1 & E2 & E3 & E4 & E5 & E6) (F1 & F2 & F3 & F4 & F5 & F6).
  split_and!; try congruence; [auto|lia].
Qed.

Lemma chan_wf_same d d' : chan_same d d' → chan_wf d → chan_wf d' ∧ chan_grow d d'.
Proof. intros (E1 & E2 & E3 & E4 & E5 & E6) Hwf. apply (chan_wf_frame d); try done. by rewrite E2. Qed.

Lemma chan_same_tables d d' :
  channels d' = channels d → members d' = members d → channel_keys d' = channel_keys d →
  rotations d' = rotations d → identities d' = identities d → event_seq d' = event_seq d →
  chan_same d d'.
Proof. intros E1 E2 E3 E4 E5 E6. split_and!; try done; [|lia]. intros pk. unfold standing. by rewrite E5. Qed.

Lemma chan_same_logged now actor kind subject data d :
  chan_same d (logged now actor kind subject data d).
Proof. split_and!; try done. cbn. lia. Qed.

(** Rows change but their keys stand. *)
Lemma chan_same_idents f d :
  (∀ i, i_pubkey (f i) = i_pubkey i ∧
    (i_revoked i = false ∨ i_system i = true → i_revoked (f i) = false ∨ i_system (f i) = true)) →
  chan_same d (set_identities (map f (identities d)) d).
Proof.
  intros Hf. split_and!; try done. intros pk (i & Hi & <- & Hl). exists (f i).
  split; [by apply list_elem_of_fmap_2|]. destruct (Hf i). auto.
Qed.

Lemma chan_same_insert i d : chan_same d (insert_ident i d).
Proof. split_and!; try done. intros pk (j & Hj & ?). exists j. split; [cbn; rewrite elem_of_app; auto|done]. Qed.

Lemma chan_same_update pk f d :
  (∀ i, i_pubkey (f i) = i_pubkey i ∧
    (i_revoked i = false ∨ i_system i = true → i_revoked (f i) = false ∨ i_system (f i) = true)) →
  chan_same d (update_ident pk f d).
Proof. intros Hf. apply chan_same_idents. intros i. destruct (decide _); [apply Hf|done]. Qed.

Lemma chan_same_retire pk d :
  chan_same d (set_identities
    (map (λ i, if i_system i && negb (bool_decide (i_pubkey i = pk)) then with_revoked true i else i)
       (identities d)) d).
Proof.
  apply chan_same_idents. intros i. destruct (i_system i) eqn:E; cbn [andb]; [|rewrite E; auto].
  case_bool_decide; cbn; rewrite ?E; auto.
Qed.

(** Flagging the rotations of a revocation. *)
Lemma flag_rotations_pending now pk cs d id :
  pending (foldl (flag_rotation now pk) d cs) id ↔ pending d id ∨ id ∈ cs.
Proof.
  revert d. induction cs as [|c cs IH]; intros d; cbn [foldl]; [set_solver|].
  rewrite IH, elem_of_cons. unfold flag_rotation.
  destruct (existsb _ _) eqn:E.
  - apply (rotation_pending_true c d) in E. naive_solver.
  - unfold pending. cbn. setoid_rewrite elem_of_app. setoid_rewrite list_elem_of_singleton. split.
    + intros [(r & [Hr| ->] & <-)|?]; [left; by exists r|by right; left|by right; right].
    + intros [(r & ? & ?)|[->|?]]; [left; exists r; auto| |by right].
      left. eexists. split; [by right|done].
Qed.

Lemma flag_rotations_same now pk cs d :
  let d' := foldl (flag_rotation now pk) d cs in
  channels d' = channels d ∧ members d' = members d ∧ channel_keys d' = channel_keys d ∧
  identities d' = identities d ∧ event_seq d' = event_seq d.
Proof.
  revert d. induction cs as [|c cs IH]; intros d; cbn [foldl]; [done|].
  destruct (IH (flag_rotation now pk d c)) as (-> & -> & -> & -> & ->).
  unfold flag_rotation. by destruct (existsb _ _).
Qed.

Section Revoke.
Context `{P : Prims}.

Lemma revoke_identity_chan now op d u d' :
  chan_wf d → revoke_identity now op d = Ok (u, d') → chan_wf d' ∧ chan_grow d d'.
Proof.
  intros Hwf H. unfold revoke_identity in H.
  step authorize_Ok in H as role [_ ->].
  step need_Ok in H as ? [-> _].
  step lift_Ok in H as pk [_ ->].
  step refuse_system_target_Ok in H as ? [-> _].
  step active_role_Ok in H as tr [-> _].
  step if_need_Ok in H as ? [-> _].
  apply tx_bind_Ok in H as (? & d1 & Hy & H).
  assert (d1 = with_nonce now op d) as ->.
  { case_bool_decide; [|by apply mret_Ok in Hy as [_ ->]].
    step is_last_owner_Ok in Hy as ? [-> _]. by apply guard_Ok in Hy as [_ ->]. }
  clear Hy. set (dn := with_nonce now op d) in *.
  set (cs := filter (λ c, is_encrypted c dn = true) (channels_of pk dn)).
  assert (∃ data, d' = logged now (actor_hex op) "identity.revoked" (hex pk) data
    (update_ident pk (with_revoked true) (set_members (filter (λ m, m_pubkey m ≠ pk)
      (members (foldl (flag_rotation now pk) dn cs))) (foldl (flag_rotation now pk) dn cs)))) as [data Ed].
  { tx_inv. by eexists. }
  clear H.
  destruct (flag_rotations_same now pk cs dn) as (E1 & E2 & E3 & E4 & E5).
  pose proof (flag_rotations_pending now pk cs dn) as Hp.
  assert (∀ id, id ∈ cs ↔ encrypted d id ∧ member_of d id pk) as Hcs.
  { intros id. unfold cs, channels_of. rewrite list_elem_of_filter, is_encrypted_true, elem_of_sort_by.
    rewrite list_elem_of_fmap. unfold member_of. setoid_rewrite list_elem_of_filter. naive_solver. }
  set (df := foldl (flag_rotation now pk) dn cs) in *.
  assert (members d' = filter (λ m, m_pubkey m ≠ pk) (members d)) as Em.
  { rewrite Ed. change (members d) with (members dn). by rewrite <- E2. }
  assert (identities d' = map (λ i, if decide (i_pubkey i = pk) then with_revoked true i else i)
    (identities d)) as Ei.
  { rewrite Ed. change (identities d) with (identities dn). by rewrite <- E4. }
  eapply (chan_wf_shrink d).
  - done.
  - by rewrite Ed.
  - rewrite Em. apply sublist_filter.
  - by rewrite Ed.
  - intros id ?. rewrite Ed. apply Hp. by left.
  - intros id. rewrite Ed. intros [?|?%Hcs]%Hp; [by apply (cw_pending d Hwf)|naive_solver].
  - intros id y He (m & Hm & <- & <-). destruct (decide (m_pubkey m = pk)) as [E|E].
    + right. rewrite Ed. apply Hp. right. apply Hcs. split; [done|]. by exists m.
    + left. exists m. rewrite Em, list_elem_of_filter. done.
  - intros id y (m & Hm & <- & <-) (i & Hi & E & Hl). rewrite Em, list_elem_of_filter in Hm.
    exists i. rewrite Ei. split; [|done]. apply list_elem_of_fmap. exists i.
    destruct (decide _); [naive_solver congruence|done].
  - rewrite Ed. change (event_seq d ≤ event_seq df + 1)%Z. rewrite E5. cbn. lia.
Qed.
End Revoke.

Lemma chan_wf_empty : chan_wf empty_db.
Proof.
  constructor; cbn; try done; try by apply NoDup_nil.
  - intros c Hc. by apply elem_of_nil in Hc.
  - intros i pk (? & Hm & _). by apply elem_of_nil in Hm.
  - intros k Hk. by apply elem_of_nil in Hk.
  - intros c pk Hc. by apply elem_of_nil in Hc.
  - intros c pk Hc. by apply elem_of_nil in Hc.
  - intros i (? & Hm & _). by apply elem_of_nil in Hm.
Qed.
