(* ===== verification/Messages.v ===== *)
(** * agora-store: messages, blobs, the inbox and its cursors

    [src/crates/agora-store/src/messages.rs].  A message is verified, its sender
    authorized and the key epoch of its channel checked before the row is
    written; what a reader gets back is the signed message.  A large blob lives
    in a file named by its hash; the file system is the map of those files, and
    an attempt to write one has an outcome ([spill_outcome]). *)

From S2P Require Import Prelude F64 Strs Core Task Bytes Crypto Frame StoreDb Identity Wire.
From S2P Require Import Channels ChanInv.

Definition MAX_PAGE : Z := 500.
Definition MAX_BLOB : Z := 16777216.
Definition MAX_BODY : Z := 262144.
Definition SPILL_THRESHOLD : Z := 1048576.
Definition MAX_ID_LEN : Z := 256.
Definition MAX_ATTACHMENTS : nat := 32.
Definition MAX_ATTACHMENT_FIELD : Z := 255.
Definition MIN_ENCRYPTED_BODY : Z := 40.

Record MessageRow : Type := mk_message_row {
  mr_seq : Z; mr_id : string; mr_sender : string; mr_body : string; mr_encrypted : bool;
  mr_epoch : Z; mr_channel : string; mr_thread_of : option string; mr_ts : Z;
  mr_attachments : list Attachment; mr_sig : string }.

Definition to_signed (r : MessageRow) : SignedMessage :=
  mk_message (mr_id r) (mr_channel r) (mr_thread_of r) (mr_sender r) (mr_ts r) (mr_encrypted r)
    (mr_epoch r) (mr_body r) (mr_attachments r) (mr_sig r).

(** ** Rows *)

(** The attachments of one message, in [rowid] order. *)
Definition attachments_of (id : string) (d : db) : list Attachment :=
  (λ a, mk_attachment (at_hash a) (at_name a) (at_mime a)) <$>
    filter (λ a, at_message a = id) (message_attachments (posts d)).

(** A sender is 32 bytes; the attachments are filled in by the caller. *)
Definition message_row (m : message) : result StoreError MessageRow :=
  if Nat.eqb (String.length (ms_sender m)) 32
  then Ok (mk_message_row (ms_seq m) (ms_id m) (ms_sender m) (ms_body m) (ms_encrypted m)
         (ms_epoch m) (ms_channel m) (ms_thread_of m) (ms_ts m) [] (ms_sig m))
  else Err (Sql "sender must be 32 bytes").

Definition with_attachments (d : db) (r : MessageRow) : MessageRow :=
  mk_message_row (mr_seq r) (mr_id r) (mr_sender r) (mr_body r) (mr_encrypted r) (mr_epoch r)
    (mr_channel r) (mr_thread_of r) (mr_ts r) (attachments_of (mr_id r) d) (mr_sig r).

(** [rows.collect::<Result<_, _>>()]. *)
Fixpoint message_rows (l : list message) : result StoreError (list MessageRow) :=
  match l with
  | [] => Ok []
  | m :: l' => r ← message_row m; rs ← message_rows l'; mret (r :: rs)
  end.

Definition by_seq (a b : message) : comparison := Z.compare (ms_seq a) (ms_seq b).

(** [limit.clamp(0, MAX_PAGE)]. *)
Definition page (limit : Z) : nat := Z.to_nat (Z.max 0 (Z.min limit MAX_PAGE)).

(** [COALESCE(MAX(seq), 0)]. *)
Definition max_seq (l : list message) : Z :=
  match l with [] => 0 | m :: l' => foldr (λ x, Z.max (ms_seq x)) (ms_seq m) l' end.

Definition has_message (id : string) (d : db) : bool :=
  existsb (λ m, bool_decide (ms_id m = id)) (messages (posts d)).

Definition has_blob (hash : string) (d : db) : bool :=
  existsb (λ b, bool_decide (bl_hash b = hash)) (blobs (posts d)).

(** 64 lowercase hexadecimal digits. *)
Definition is_hash (h : string) : bool :=
  Nat.eqb (String.length h) 64 && str_all is_lower_hex h.

(** ** Posting *)

(** The loop over the attachments of a message, with the hashes seen. *)
Fixpoint check_attachments (seen : gset string) (l : list Attachment) : tx unit :=
  match l with
  | [] => mret tt
  | a :: l' =>
      guard (negb (is_hash (a_hash a))) (Invalid "attachment hash must be 64 lowercase hex chars") ≫= λ _,
      guard (MAX_ATTACHMENT_FIELD <? str_len (a_name a))%Z (Invalid "attachment name too long") ≫= λ _,
      guard (MAX_ATTACHMENT_FIELD <? str_len (a_mime a))%Z (Invalid "attachment mime too long") ≫= λ _,
      guard (bool_decide (a_hash a ∈ seen)) (Invalid "duplicate attachment in message") ≫= λ _,
      check_attachments ({[a_hash a]} ∪ seen) l'
  end.

Fixpoint check_blobs (l : list Attachment) : tx unit :=
  match l with
  | [] => mret tt
  | a :: l' =>
      known ← query (has_blob (a_hash a));
      guard (negb known) (Invalid "attachment blob missing") ≫= λ _,
      check_blobs l'
  end.

(** The primary key [(message, hash)] refuses a second row. *)
Fixpoint insert_attachments (id : string) (l : list Attachment) : tx unit :=
  match l with
  | [] => mret tt
  | a :: l' =>
      dup ← query (λ d, existsb (λ x, bool_decide (at_message x = id ∧ at_hash x = a_hash a))
                          (message_attachments (posts d)));
      guard dup (Sql "UNIQUE constraint failed: message_attachments") ≫= λ _,
      execute (λ d, set_attachments (message_attachments (posts d) ++
        [mk_attachment_row id (a_hash a) (a_name a) (a_mime a)]) d) ≫= λ _,
      insert_attachments id l'
  end.

(** What an encrypted and a plain channel accept. *)
Definition check_epoch (m : SignedMessage) : tx unit :=
  epoch ← current_epoch (s_channel m);
  enc ← query (is_encrypted (s_channel m));
  if enc : bool then
    guard (negb (s_encrypted m)) (Invalid "plaintext message in encrypted channel") ≫= λ _,
    guard (negb (s_epoch m =? epoch)%Z) (Invalid "stale or future key epoch")
  else
    guard (s_encrypted m) (Invalid "encrypted message in unencrypted channel") ≫= λ _,
    guard (negb (s_epoch m =? 0)%Z) (Invalid "epoch must be 0 in unencrypted channel").

Definition check_thread (m : SignedMessage) : tx unit :=
  match s_thread_of m with
  | None => mret tt
  | Some parent =>
      same ← query (λ d, existsb (λ x, bool_decide (ms_id x = parent ∧ ms_channel x = s_channel m))
                          (messages (posts d)));
      guard (negb same) (Invalid "thread parent not in this channel")
  end.

Section Messages.
Context `{P : Prims}.

Definition verify_signed (m : SignedMessage) : tx unit :=
  lift match verify_message m with Ok u => Ok u | Err e => Err (StoreCrypto e) end.

Definition check_message (now : Z) (m : SignedMessage) : tx unit :=
  guard (negb ((1 <=? str_len (s_id m)) && (str_len (s_id m) <=? MAX_ID_LEN))%Z)
    (Invalid "message id must be 1 to 256 bytes") ≫= λ _,
  guard (MAX_ID_LEN <? str_len (s_channel m))%Z (Invalid "channel id too long") ≫= λ _,
  guard (from_option (λ t, MAX_ID_LEN <? str_len t)%Z false (s_thread_of m))
    (Invalid "thread id too long") ≫= λ _,
  guard (Nat.ltb MAX_ATTACHMENTS (length (s_attachments m))) (Invalid "too many attachments") ≫= λ _,
  check_attachments ∅ (s_attachments m) ≫= λ _,
  guard (s_encrypted m && (str_len (s_body m) <? MIN_ENCRYPTED_BODY)%Z)
    (Invalid "encrypted body too short") ≫= λ _,
  guard (MAX_BODY <? str_len (s_body m))%Z (Invalid "body too large") ≫= λ _,
  check_clock now (s_ts m) ≫= λ _,
  verify_signed m.

Definition post_message (now : Z) (m : SignedMessage) : tx Z :=
  check_message now m ≫= λ _,
  role ← active_role (s_sender m);
  need role Worker ≫= λ _,
  member ← query (is_member (s_channel m) (s_sender m));
  guard (negb member) (NotMember (s_channel m)) ≫= λ _,
  waits ← query (rotation_pending (s_channel m));
  guard waits (Invalid "channel key rotation pending") ≫= λ _,
  duplicate ← query (has_message (s_id m));
  guard duplicate (Invalid "message id already exists") ≫= λ _,
  check_epoch m ≫= λ _,
  check_thread m ≫= λ _,
  check_blobs (s_attachments m) ≫= λ _,
  seq ← query (λ d, max_seq (messages (posts d)) + 1)%Z;
  execute (λ d, set_messages (messages (posts d) ++
    [mk_msg (s_id m) seq (s_channel m) (s_thread_of m) (s_sender m) (s_ts m) (s_encrypted m)
       (s_epoch m) (s_body m) (s_sig m)]) d) ≫= λ _,
  insert_attachments (s_id m) (s_attachments m) ≫= λ _,
  append now (hex (s_sender m)) "message.posted" (s_id m)
    (VObject [("channel", VString (s_channel m)); ("seq", VNumber (NInt seq))]) ≫= λ _,
  mret seq.

(** ** Reading *)

Definition channel_page (channel : string) (cursor limit : Z) : tx (list MessageRow) :=
  ms ← query (λ d, take (page limit) (sort_by by_seq
         (filter (λ m, ms_channel m = channel ∧ (cursor < ms_seq m)%Z) (messages (posts d)))));
  rows ← lift (message_rows ms);
  query (λ d, with_attachments d <$> rows).

Definition read_channel (reader channel : string) (cursor limit : Z) : tx (list MessageRow) :=
  active_role reader ≫= λ _,
  member ← query (is_member channel reader);
  guard (negb member) (NotMember channel) ≫= λ _,
  channel_page channel cursor limit.

Definition read_channel_any (reader channel : string) (cursor limit : Z) : tx (list MessageRow) :=
  role ← active_role reader;
  need role Supervisor ≫= λ _,
  channel_page channel cursor limit.

(** [COALESCE(c.acked, 0)] of the left join. *)
Definition acked (reader channel : string) (d : db) : Z :=
  from_option (cu_acked ∘ snd) 0%Z
    (list_find (λ c, cu_reader c = reader ∧ cu_channel c = channel) (cursors (posts d))).

(** The messages the inbox query selects, before its limit. *)
Definition unread (reader : string) (after : Z) (d : db) : list message :=
  sort_by by_seq (List.filter (λ m, is_member (ms_channel m) reader d
    && (acked reader (ms_channel m) d <? ms_seq m)%Z && (after <? ms_seq m)%Z
    && negb (bool_decide (ms_sender m = reader))) (messages (posts d))).

Definition inbox_after (reader : string) (after limit : Z) : tx (list (string * MessageRow)) :=
  active_role reader ≫= λ _,
  ms ← query (λ d, take (page limit) (unread reader after d));
  rows ← lift (message_rows ms);
  query (λ d, (λ r, (mr_channel r, with_attachments d r)) <$> rows).

Definition inbox (reader : string) (limit : Z) : tx (list (string * MessageRow)) :=
  inbox_after reader 0 limit.

(** [INSERT … ON CONFLICT(reader, channel) DO UPDATE SET acked=MAX(…)]. *)
Definition advance (reader channel : string) (seq : Z) (d : db) : db :=
  let same := λ c, bool_decide (cu_reader c = reader ∧ cu_channel c = channel) in
  set_cursors (if existsb same (cursors (posts d))
    then map (λ c, if same c then mk_cursor reader channel (Z.max (cu_acked c) seq) else c)
           (cursors (posts d))
    else cursors (posts d) ++ [mk_cursor reader channel seq]) d.

Definition ack (reader channel : string) (seq : Z) : tx Z :=
  active_role reader ≫= λ _,
  member ← query (is_member channel reader);
  guard (negb member) (NotMember channel) ≫= λ _,
  head ← query (λ d, max_seq (filter (λ m, ms_channel m = channel) (messages (posts d))));
  let seq := Z.max 0 (Z.min seq head) in
  execute (advance reader channel seq) ≫= λ _,
  query (acked reader channel).

(** ** Blobs *)

(** The file system below the blob directory: the spilled blobs by hash. *)
Notation files := (gmap string string).

(** How an attempt to write a file ends: the directory cannot be made, the
    random source fails, nothing was renamed into place, or the file is there
    but its directory was not synced. *)
Inductive spill_outcome : Type := Spilled | NoDir | NoRandom | NotWritten | NotSynced.

(** The directory [<dir>/<hash[0..2]>]. *)
Definition spill_dir (hash : string) : result StoreError string :=
  if is_hash hash then Ok (str_take 2 hash) else Err (Invalid "blob hash malformed").

Definition spill_bytes (fs : files) (hash bytes : string) (o : spill_outcome) :
    result StoreError unit * files :=
  match spill_dir hash, o with
  | Err e, _ => (Err e, fs)
  | Ok _, NoDir => (Err StoreIo, fs)
  | Ok _, o =>
      if from_option (λ b, bool_decide (content_hash b = hash)) false (fs !! hash) then (Ok tt, fs)
      else match o with
           | Spilled => (Ok tt, <[hash := bytes]> fs)
           | NotSynced => (Err StoreIo, <[hash := bytes]> fs)
           | NoRandom => (Err (StoreCrypto Random), fs)
           | _ => (Err StoreIo, fs)
           end
  end.

Definition blob_row (hash : string) (d : db) : option blob :=
  snd <$> list_find (λ b, bl_hash b = hash) (blobs (posts d)).

(** Whether the blob is stored in a file, once that file is there. *)
Definition ensure_blob_file (dir : option files) (hash bytes : string) (o : spill_outcome) (d : db) :
    result StoreError bool * option files :=
  let spill fs := match spill_bytes fs hash bytes o with
                  | (Ok _, fs') => (Ok true, Some fs')
                  | (Err e, fs') => (Err e, Some fs')
                  end in
  match bl_spilled <$> blob_row hash d, dir with
  | Some false, _ => (Ok false, dir)
  | Some true, None => (Ok true, dir)
  | Some true, Some fs => spill fs
  | None, Some fs => if (SPILL_THRESHOLD <? str_len bytes)%Z then spill fs else (Ok false, dir)
  | None, None => (Ok false, dir)
  end.

(** [INSERT OR IGNORE]; the size of a [Vec] fits an [i64]. *)
Definition insert_blob_row (hash bytes : string) (spilled : bool) (d : db) : db :=
  if has_blob hash d then d
  else set_blobs (blobs (posts d) ++
    [mk_blob hash (str_len bytes) (if spilled then "" else bytes) spilled]) d.

Definition put_blob (dir : option files) (bytes : string) (o : spill_outcome) (d : db) :
    result StoreError string * (option files * db) :=
  if (MAX_BLOB <? str_len bytes)%Z then (Err (Invalid "blob too large"), (dir, d)) else
  let hash := content_hash bytes in
  match ensure_blob_file dir hash bytes o d with
  | (Err e, dir') => (Err e, (dir', d))
  | (Ok spilled, dir') => (Ok hash, (dir', insert_blob_row hash bytes spilled d))
  end.

Definition charged_to (uploader hash : string) (d : db) : bool :=
  existsb (λ u, bool_decide (bu_uploader u = uploader ∧ bu_hash u = hash)) (blob_uploads (posts d)).

Definition usage_of (uploader : string) (d : db) : Z :=
  foldr (λ u, Z.add (bu_size u)) 0%Z (filter (λ u, bu_uploader u = uploader) (blob_uploads (posts d))).

(** Inside the transaction, once the file was seen to. *)
Definition charge_blob (now : Z) (uploader hash bytes : string) (quota : Z) (spilled : bool) : tx string :=
  role ← active_role uploader;
  need role Worker ≫= λ _,
  charged ← query (charged_to uploader hash);
  (if charged : bool then mret tt else
   used ← query (usage_of uploader);
   guard (quota <? sat_i64 (used + str_len bytes))%Z (Invalid "blob quota exceeded") ≫= λ _,
   execute (insert_blob_row hash bytes spilled) ≫= λ _,
   execute (λ d, set_uploads (blob_uploads (posts d) ++
     [mk_upload uploader hash (str_len bytes) now]) d)) ≫= λ _,
  mret hash.

(** The reads before the transaction. *)
Definition may_upload (uploader hash bytes : string) (quota : Z) : tx unit :=
  role ← active_role uploader;
  need role Worker ≫= λ _,
  charged ← query (charged_to uploader hash);
  used ← query (usage_of uploader);
  guard (negb charged && (quota <? sat_i64 (used + str_len bytes))%Z) (Invalid "blob quota exceeded").

Definition put_blob_for (now : Z) (uploader bytes : string) (max_len quota : Z) (o : spill_outcome)
    (dir : option files) (d : db) : result StoreError string * (option files * db) :=
  if (Z.min max_len MAX_BLOB <? str_len bytes)%Z then (Err (Invalid "blob too large"), (dir, d)) else
  let hash := content_hash bytes in
  match may_upload uploader hash bytes quota d with
  | Err e => (Err e, (dir, d))
  | Ok _ =>
      match ensure_blob_file dir hash bytes o d with
      | (Err e, dir') => (Err e, (dir', d))
      | (Ok spilled, dir') =>
          let '(r, d') := transact (charge_blob now uploader hash bytes quota spilled) d in
          (r, (dir', d'))
      end
  end.

(** [unreadable]: the file is there but reading it fails. *)
Definition get_blob (dir : option files) (unreadable : bool) (hash : string) (d : db) :
    result StoreError (option string) :=
  match blob_row hash d with
  | None => Ok None
  | Some row =>
      bytes ← (if bl_spilled row then
                 fs ← ok_or dir (Invalid "blob file missing");
                 spill_dir hash ≫= λ _,
                 b ← ok_or (fs !! hash) (Invalid "blob file missing");
                 if unreadable then Err StoreIo else Ok b
               else Ok (bl_bytes row));
      if decide (content_hash bytes = hash) then Ok (Some bytes)
      else Err (Invalid "blob file corrupt")
  end.

End Messages.

(** ** Stored blobs

    What [put_blob] and [put_blob_for] leave readable, and what they charge. *)

Section Blobs.
Context `{P : Prims} `{L : !PrimsLaws P}.

(** Inline rows hold bytes of their hash, and hashes are unique. *)
Record blob_wf (d : db) : Prop := {
  bw_keys : NoDup (bl_hash <$> blobs (posts d));
  bw_inline b : b ∈ blobs (posts d) → bl_spilled b = false → content_hash (bl_bytes b) = bl_hash b }.

Lemma is_hash_content bytes : is_hash (content_hash bytes) = true.
Proof.
  unfold is_hash, content_hash. rewrite hex_length, blake3_length. cbn [Nat.eqb Nat.mul Nat.add andb].
  apply unhex_hex_pairs.
Qed.

Lemma blob_row_Some hash d b : blob_row hash d = Some b → b ∈ blobs (posts d) ∧ bl_hash b = hash.
Proof.
  unfold blob_row. destruct (list_find _ _) as [[n x]|] eqn:E; cbn; [|done].
  intros [= ->]. apply list_find_Some in E as (H & ? & _). by split; [eapply list_elem_of_lookup_2|].
Qed.

Lemma blob_row_None hash d : blob_row hash d = None → has_blob hash d = false.
Proof.
  unfold blob_row, has_blob. destruct (list_find _ _) as [[n x]|] eqn:E; cbn; [done|]. intros _.
  apply list_find_None in E. apply not_true_iff_false. intros (x & Hx & Hh)%existsb_elem.
  rewrite Forall_forall in E. apply bool_decide_eq_true in Hh. by destruct (E x Hx).
Qed.

Lemma has_blob_row hash d b : blob_row hash d = Some b → has_blob hash d = true.
Proof.
  intros [Hb E]%blob_row_Some. apply existsb_elem. exists b. by rewrite bool_decide_eq_true.
Qed.

(** A file that was seen to holds bytes of its hash. *)
Lemma spill_bytes_Ok fs bytes o fs' :
  spill_bytes fs (content_hash bytes) bytes o = (Ok tt, fs') →
  ∃ b, fs' !! content_hash bytes = Some b ∧ content_hash b = content_hash bytes.
Proof.
  unfold spill_bytes, spill_dir. rewrite is_hash_content. intros H.
  destruct o; try discriminate H; destruct (fs !! content_hash bytes) as [b|] eqn:E; cbn in H.
  all: try case_bool_decide; simplify_eq; eauto.
  all: eexists; by rewrite lookup_insert_eq.
Qed.

(** A row is for the bytes, inline or in the file. *)
Lemma ensure_blob_file_Ok fs bytes o d spilled dir' :
  ensure_blob_file (Some fs) (content_hash bytes) bytes o d = (Ok spilled, dir') →
  ∃ fs', dir' = Some fs' ∧
    (spilled = true → ∃ b, fs' !! content_hash bytes = Some b ∧ content_hash b = content_hash bytes) ∧
    (∀ row, blob_row (content_hash bytes) d = Some row → bl_spilled row = spilled).
Proof.
  unfold ensure_blob_file. intros H.
  destruct (spill_bytes fs (content_hash bytes) bytes o) as [[[]|e] fs'] eqn:E.
  all: destruct (blob_row (content_hash bytes) d) as [row|]; cbn in H;
    [destruct (bl_spilled row) eqn:Er|destruct (SPILL_THRESHOLD <? str_len bytes)%Z]; simplify_eq.
  all: try (exists fs'; split_and!; [done|intros _; by eapply spill_bytes_Ok|by intros ? [= <-]]).
  all: exists fs; split_and!; [done|done|by intros ? [= <-]].
Qed.

Lemma get_blob_stored fs row hash d b :
  is_hash hash = true → blob_row hash d = Some row →
  (if bl_spilled row then fs !! hash = Some b else bl_bytes row = b) → content_hash b = hash →
  get_blob (Some fs) false hash d = Ok (Some b).
Proof.
  intros Hh Hr Hb Hc. unfold get_blob, spill_dir. rewrite Hr, Hh.
  destruct (bl_spilled row); rstep; rewrite Hb; rstep; by rewrite decide_True.
Qed.

(** What was stored reads back as bytes of the same hash, so as the same bytes
    unless the two are a collision. *)
Lemma put_get_blob fs bytes o d h dir' d' :
  blob_wf d → put_blob (Some fs) bytes o d = (Ok h, (dir', d')) →
  h = content_hash bytes ∧ blob_wf d' ∧
  ∃ b, get_blob dir' false h d' = Ok (Some b) ∧ content_hash b = content_hash bytes.
Proof.
  intros Hwf. unfold put_blob. destruct (MAX_BLOB <? str_len bytes)%Z; [done|].
  destruct (ensure_blob_file _ _ _ _ _) as [[spilled|e] dir] eqn:E; [|done]. intros [= <- <- <-].
  apply ensure_blob_file_Ok in E as (fs' & -> & Hfile & Hrow). split; [done|].
  unfold insert_blob_row. destruct (blob_row (content_hash bytes) d) as [row|] eqn:Er.
  - rewrite (has_blob_row _ _ _ Er). split; [done|]. specialize (Hrow row eq_refl).
    pose proof (blob_row_Some _ _ _ Er) as [Hin Hh]. destruct spilled.
    + destruct (Hfile eq_refl) as (b & Hb & Hc). exists b. split; [|done].
      eapply get_blob_stored; [apply is_hash_content|done|by rewrite Hrow|done].
    + pose proof (bw_inline d Hwf row Hin Hrow) as Hc. rewrite Hh in Hc. exists (bl_bytes row). split; [|done].
      eapply get_blob_stored; [apply is_hash_content|done|by rewrite Hrow|done].
  - rewrite (blob_row_None _ _ Er). set (row := mk_blob _ _ _ spilled).
    set (d1 := set_blobs _ _).
    assert (blob_row (content_hash bytes) d1 = Some row) as Er'.
    { unfold blob_row in *. subst d1. cbn. destruct (list_find _ (blobs (posts d))) as [[]|] eqn:Ef; [done|].
      rewrite list_find_app_r by done. cbn. by rewrite decide_True. }
    split.
    + destruct Hwf. constructor; subst d1; cbn.
      * apply keys_insert; [done|]. intros y Hy Ey. pose proof (blob_row_None _ _ Er) as Hn.
        pose proof (existsb_none _ _ _ Hn Hy) as Hf. by rewrite bool_decide_eq_false in Hf.
      * intros b. rewrite elem_of_app, list_elem_of_singleton. intros [?| ->]; [auto|]. cbn. by intros ->.
    + destruct spilled.
      * destruct (Hfile eq_refl) as (b & Hb & Hc). exists b. split; [|done].
        by eapply get_blob_stored; [apply is_hash_content|exact Er'|..].
      * exists bytes. split; [|done]. by eapply get_blob_stored; [apply is_hash_content|exact Er'|..].
Qed.

(** ** The quota *)

Lemma usage_charge uploader uploader' hash size now d :
  usage_of uploader (set_uploads (blob_uploads (posts d) ++ [mk_upload uploader' hash size now]) d) =
    (usage_of uploader d + if decide (uploader' = uploader) then size else 0)%Z.
Proof.
  unfold usage_of. cbn. rewrite filter_app. case_decide as E.
  - rewrite filter_cons_True by done. cbn. induction (filter _ _) as [|x l IH]; cbn in *; lia.
  - rewrite filter_cons_False by done. cbn. rewrite app_nil_r. lia.
Qed.

(** An upload that is charged keeps its uploader within the quota and charges
    nobody else. *)
Lemma charge_within_quota now uploader hash bytes quota spilled d h d' :
  (usage_of uploader d + str_len bytes ≤ i64_max)%Z → (0 ≤ usage_of uploader d)%Z →
  charge_blob now uploader hash bytes quota spilled d = Ok (h, d') →
  (charged_to uploader hash d = true ∧ d' = d) ∨
  (usage_of uploader d' = usage_of uploader d + str_len bytes ∧ usage_of uploader d' ≤ quota ∧
   ∀ other, other ≠ uploader → usage_of other d' = usage_of other d)%Z.
Proof.
  intros Hfit Hpos H. unfold charge_blob in H. step active_role_Ok in H as ? [-> _]. step need_Ok in H as ? [-> _].
  step query_Ok in H as ? [-> ->]. destruct (charged_to uploader hash d); [left; by tx_inv|right]. tx_inv.
  rename select (_ = false) into Hq. apply Z.ltb_ge in Hq.
  pose proof (str_len_nat bytes). rewrite sat_i64_id in Hq by (unfold i64_min, i64_max in *; lia).
  assert (∀ u, usage_of u (insert_blob_row hash bytes spilled d) = usage_of u d) as Hu.
  { intros u. unfold insert_blob_row. by destruct (has_blob hash d). }
  rewrite !usage_charge, !Hu, decide_True by done. split_and!; [done|lia|].
  intros other Ho. rewrite usage_charge, Hu, decide_False by congruence. lia.
Qed.

(** The database [put_blob_for] leaves is that of the one transaction it may
    run. *)
Lemma put_blob_for_db now uploader bytes max_len quota o dir d :
  let d' := (put_blob_for now uploader bytes max_len quota o dir d).2.2 in
  d' = d ∨ ∃ spilled, d' = (transact (charge_blob now uploader (content_hash bytes) bytes quota spilled) d).2.
Proof.
  unfold put_blob_for. destruct (_ <? _)%Z; [by left|]. destruct (may_upload _ _ _ _ _); [|by left].
  destruct (ensure_blob_file _ _ _ _ _) as [[spilled|e] dir']; [|by left]. right. exists spilled.
  by destruct (transact _ d).
Qed.
End Blobs.
