(* ===== verification/MsgInv.v ===== *)
(** * agora-store: what holds of messages and cursors

    The invariant of the message tables, its preservation, and what readers get:
    the signed message as it was posted, in the inbox of every other member
    until that member acknowledges it. *)

From Stdlib Require Import Sorted.
From S2P Require Import Prelude F64 Strs Bytes Core Crypto Task Frame StoreDb Identity Wire Channels ChanInv.
From S2P Require Import Messages.

(** The row a reader gets for a stored message. *)
Definition stored_row (d : db) (m : message) : MessageRow :=
  mk_message_row (ms_seq m) (ms_id m) (ms_sender m) (ms_body m) (ms_encrypted m) (ms_epoch m)
    (ms_channel m) (ms_thread_of m) (ms_ts m) (attachments_of (ms_id m) d) (ms_sig m).

(** An encrypted message of an encrypted channel, under a key that exists, or a
    plain one of a plain channel. *)
Definition epoch_fits (d : db) (m : message) : Prop :=
  ∃ c, c ∈ channels d ∧ ch_id c = ms_channel m ∧
    if ms_encrypted m then encrypted d (ch_id c) ∧ (0 ≤ ms_epoch m ≤ ch_epoch c)%Z
    else ¬ encrypted d (ch_id c) ∧ ms_epoch m = 0%Z.

Definition cursor_key (c : cursor) : string * string := (cu_reader c, cu_channel c).

(** Ids are unique, sequence numbers grow from 1 in the order of posting, every
    row is a signed message that verifies, a reply is to an earlier message of
    its channel, attachments are of messages and blobs that are there, and no
    cursor is past the last message of its channel. *)
Record post_wf `{Prims} (d : db) : Prop := {
  pw_ids : NoDup (ms_id <$> messages (posts d));
  pw_seqs : StronglySorted Z.lt (ms_seq <$> messages (posts d));
  pw_pos m : m ∈ messages (posts d) → (1 ≤ ms_seq m)%Z;
  pw_sender m : m ∈ messages (posts d) → String.length (ms_sender m) = 32;
  pw_sig m : m ∈ messages (posts d) → verify_message (to_signed (stored_row d m)) = Ok tt;
  pw_epoch m : m ∈ messages (posts d) → epoch_fits d m;
  pw_thread m p : m ∈ messages (posts d) → ms_thread_of m = Some p →
    ∃ x, x ∈ messages (posts d) ∧ ms_id x = p ∧ ms_channel x = ms_channel m ∧ (ms_seq x < ms_seq m)%Z;
  pw_attached a : a ∈ message_attachments (posts d) →
    at_message a ∈ ms_id <$> messages (posts d) ∧ has_blob (at_hash a) d = true;
  pw_cursors : NoDup (cursor_key <$> cursors (posts d));
  pw_cursor c : c ∈ cursors (posts d) →
    cu_acked c = 0%Z ∨ ∃ m, m ∈ messages (posts d) ∧ ms_channel m = cu_channel c ∧ (cu_acked c ≤ ms_seq m)%Z }.

(** ** Lists in order of sequence numbers *)

Lemma sort_by_id {A} (cmp : A → A → comparison) (l : list A) :
  StronglySorted (λ a b, cmp a b = Lt) l → sort_by cmp l = l.
Proof.
  induction 1 as [|x l _ IH Hx]; [done|]. change (insert_by cmp x (sort_by cmp l) = x :: l).
  rewrite IH. destruct Hx as [|y l Hy _]; [done|]. cbn. by rewrite Hy.
Qed.

Lemma StronglySorted_filter {A} (R : A → A → Prop) (f : A → bool) (l : list A) :
  StronglySorted R l → StronglySorted R (List.filter f l).
Proof.
  induction 1 as [|x l _ IH Hx]; cbn; [constructor|]. destruct (f x); [|done].
  constructor; [done|]. rewrite Forall_forall in *. intros y Hy. apply Hx.
  apply list_elem_of_In, filter_In in Hy as [Hy _]. by apply list_elem_of_In.
Qed.

Lemma by_seq_sorted l :
  StronglySorted Z.lt (ms_seq <$> l) → StronglySorted (λ a b, by_seq a b = Lt) l.
Proof.
  induction l as [|m l IH]; cbn; intros H; [constructor|]. inversion H as [|? ? Hl Hm]; subst.
  constructor; [auto|]. rewrite Forall_fmap in Hm. eapply Forall_impl; [exact Hm|].
  intros x Hx. by apply Z.compare_lt_iff.
Qed.

Lemma max_seq_le l m : m ∈ l → (ms_seq m ≤ max_seq l)%Z.
Proof.
  destruct l as [|x l]; [by intros ?%elem_of_nil|]. cbn. revert m.
  induction l as [|y l IH]; intros m Hm; cbn; [apply list_elem_of_singleton in Hm as ->; lia|].
  apply elem_of_cons in Hm as [->|[->|Hm]%elem_of_cons]; [|lia|].
  - specialize (IH x ltac:(left)). lia.
  - specialize (IH m ltac:(by right)). lia.
Qed.

Lemma max_seq_elem l : max_seq l = 0%Z ∨ ∃ m, m ∈ l ∧ max_seq l = ms_seq m.
Proof.
  destruct l as [|x l]; [by left|right]. cbn.
  induction l as [|y l (m & Hm & E)]; cbn; [exists x; split; [left|done]|]. rewrite E.
  destruct (Z.max_spec (ms_seq y) (ms_seq m)) as [[_ ->]|[_ ->]].
  - exists m. split; [|done]. apply elem_of_cons in Hm as [->|?]; [left|right; by right].
  - exists y. split; [right; left|done].
Qed.

Lemma sorted_snoc l x :
  StronglySorted Z.lt l → (∀ y, y ∈ l → (y < x)%Z) → StronglySorted Z.lt (l ++ [x]).
Proof.
  induction 1 as [|y l Hl IH Hy]; intros Hx; cbn; [repeat constructor|].
  constructor; [apply IH; intros; apply Hx; by right|].
  apply Forall_app. split; [done|]. repeat constructor. apply Hx. left.
Qed.

(** ** The effect of a post *)

Section Posting.
Context `{P : Prims}.

Lemma check_attachments_Ok seen l d u d' : check_attachments seen l d = Ok (u, d') → d' = d.
Proof.
  revert seen. induction l as [|a l IH]; intros seen H; cbn [check_attachments] in H; [by tx_inv|].
  do 4 (step guard_Ok in H as ? [_ ->]). by apply IH in H.
Qed.

Lemma check_blobs_Ok l d u d' :
  check_blobs l d = Ok (u, d') → d' = d ∧ Forall (λ a, has_blob (a_hash a) d = true) l.
Proof.
  revert d. induction l as [|a l IH]; intros d H; cbn [check_blobs] in H; [by tx_inv|].
  step query_Ok in H as ? [-> ->]. step guard_Ok in H as ? [Hk%negb_false_iff ->].
  apply IH in H as [-> ?]. by split; [|constructor].
Qed.

Lemma insert_attachments_Ok id l d u d' :
  insert_attachments id l d = Ok (u, d') →
  d' = set_attachments (message_attachments (posts d) ++
         ((λ a, mk_attachment_row id (a_hash a) (a_name a) (a_mime a)) <$> l)) d.
Proof.
  revert d. induction l as [|a l IH]; intros d H; cbn [insert_attachments] in H.
  - apply mret_Ok in H as [_ ->]. cbn. rewrite app_nil_r. destruct d as [].
    unfold set_attachments. cbn. by destruct posts.
  - step query_Ok in H as ? [-> ->]. step guard_Ok in H as ? [_ ->].
    step execute_Ok in H as ? ->. apply IH in H as ->. cbn. by rewrite <- app_assoc.
Qed.

Lemma check_message_Ok now m d u d' :
  check_message now m d = Ok (u, d') → d' = d ∧ verify_message m = Ok tt.
Proof.
  unfold check_message. intros H.
  do 4 (step guard_Ok in H as ? [_ ->]). step check_attachments_Ok in H as ? ->.
  do 2 (step guard_Ok in H as ? [_ ->]). step check_clock_Ok in H as ? [-> _].
  unfold verify_signed in H. apply lift_Ok in H as [H ->]. split; [done|].
  destruct (verify_message m) as [[]|]; done.
Qed.

Lemma check_epoch_Ok m d u d' :
  check_epoch m d = Ok (u, d') →
  d' = d ∧ ∃ c, c ∈ channels d ∧ ch_id c = s_channel m ∧
    if s_encrypted m then encrypted d (ch_id c) ∧ s_epoch m = ch_epoch c
    else ¬ encrypted d (ch_id c) ∧ s_epoch m = 0%Z.
Proof.
  unfold check_epoch. intros H. step current_epoch_Ok in H as e [-> (c & Hc & Eid & <-)].
  step query_Ok in H as enc [-> ->]. destruct (is_encrypted _ _) eqn:E.
  - apply is_encrypted_true in E. step guard_Ok in H as ? [Hs%negb_false_iff ->].
    apply guard_Ok in H as [He%negb_false_iff%Z.eqb_eq ->].
    split; [done|]. exists c. rewrite Hs, Eid. done.
  - apply is_encrypted_false in E. step guard_Ok in H as ? [Hs ->].
    apply guard_Ok in H as [He%negb_false_iff%Z.eqb_eq ->].
    split; [done|]. exists c. rewrite Hs, Eid. done.
Qed.

Lemma check_thread_Ok m d u d' :
  check_thread m d = Ok (u, d') →
  d' = d ∧ ∀ p, s_thread_of m = Some p →
    ∃ x, x ∈ messages (posts d) ∧ ms_id x = p ∧ ms_channel x = s_channel m.
Proof.
  unfold check_thread. destruct (s_thread_of m) as [p|]; intros H; [|by tx_inv].
  step query_Ok in H as ? [-> ->]. apply guard_Ok in H as [H%negb_false_iff ->].
  split; [done|]. intros q [= <-]. apply existsb_elem in H as (x & Hx & E).
  apply bool_decide_eq_true in E. exists x. tauto.
Qed.

Record posted (m : SignedMessage) (d : db) : Prop := {
  po_sig : verify_message m = Ok tt;
  po_active : ∃ i r, find_ident (s_sender m) d = Some i ∧ i_revoked i = false ∧
                role_parse (i_role i) = Some r ∧ role_le Worker r = true;
  po_member : member_of d (s_channel m) (s_sender m);
  po_settled : ¬ pending d (s_channel m);
  po_new : ∀ x, x ∈ messages (posts d) → ms_id x ≠ s_id m;
  po_epoch : ∃ c, c ∈ channels d ∧ ch_id c = s_channel m ∧
    if s_encrypted m then encrypted d (ch_id c) ∧ s_epoch m = ch_epoch c
    else ¬ encrypted d (ch_id c) ∧ s_epoch m = 0%Z;
  po_thread : ∀ p, s_thread_of m = Some p →
    ∃ x, x ∈ messages (posts d) ∧ ms_id x = p ∧ ms_channel x = s_channel m;
  po_blobs : Forall (λ a, has_blob (a_hash a) d = true) (s_attachments m) }.

(** The row of a message. *)
Definition msg_row (m : SignedMessage) (seq : Z) : message :=
  mk_msg (s_id m) seq (s_channel m) (s_thread_of m) (s_sender m) (s_ts m) (s_encrypted m)
    (s_epoch m) (s_body m) (s_sig m).

Lemma post_message_Ok now m d seq d' :
  post_message now m d = Ok (seq, d') →
  posted m d ∧ seq = (max_seq (messages (posts d)) + 1)%Z ∧
  ∃ data, d' = logged now (hex (s_sender m)) "message.posted" (s_id m) data
    (set_attachments (message_attachments (posts d) ++
       ((λ a, mk_attachment_row (s_id m) (a_hash a) (a_name a) (a_mime a)) <$> s_attachments m))
      (set_messages (messages (posts d) ++ [msg_row m seq]) d)).
Proof.
  unfold post_message. intros H.
  step check_message_Ok in H as ? [-> Hsig].
  step active_role_Ok in H as r [-> (i & Hi & Hr & Hp)].
  step need_Ok in H as ? [-> Hneed].
  step query_Ok in H as ? [-> ->]. step guard_Ok in H as ? [Hm%negb_false_iff%is_member_true ->].
  step query_Ok in H as ? [-> ->]. step guard_Ok in H as ? [Hw%rotation_pending_false ->].
  step query_Ok in H as ? [-> ->]. step guard_Ok in H as ? [Hd ->].
  step check_epoch_Ok in H as ? [-> He].
  step check_thread_Ok in H as ? [-> Ht].
  step check_blobs_Ok in H as ? [-> Hb].
  step query_Ok in H as ? [-> ->]. step execute_Ok in H as ? ->.
  step insert_attachments_Ok in H as ? ->. tx_inv. split_and!; [|done|by eexists].
  constructor; try done; [by eexists _, _|].
  intros y Hy E. pose proof (existsb_none _ _ _ Hd Hy) as Hf. by rewrite bool_decide_eq_false in Hf.
Qed.
End Posting.

(** ** The invariant is kept *)

Section Preservation.
Context `{P : Prims}.

(** Messages, attachments and cursors stay, channels and blobs only grow. *)
Lemma post_wf_frame d d' :
  post_wf d → chan_grow d d' → messages (posts d') = messages (posts d) →
  message_attachments (posts d') = message_attachments (posts d) →
  cursors (posts d') = cursors (posts d) →
  (∀ h, has_blob h d = true → has_blob h d' = true) → post_wf d'.
Proof.
  intros [] Hg Em Ea Ec Hb. constructor; rewrite ?Em, ?Ea, ?Ec; try done.
  - intros m Hm. unfold stored_row, attachments_of. rewrite Ea. exact (pw_sig0 m Hm).
  - intros m Hm. destruct (pw_epoch0 m Hm) as (c & Hc & Eid & He). destruct (Hg c Hc) as (c' & Hc' & Eid' & Hle & Hen).
    exists c'. rewrite Eid'. split_and!; [done|congruence|].
    revert He. destruct (ms_encrypted m); rewrite Hen; [|done]. intros [? ?]. split; [done|lia].
  - intros a [? ?]%pw_attached0. auto.
Qed.

Lemma filter_none {A} (Q : A → Prop) `{∀ x, Decision (Q x)} (l : list A) :
  (∀ x, x ∈ l → ¬ Q x) → filter Q l = [].
Proof.
  induction l as [|x l IH]; intros Hn; [done|]. rewrite filter_cons_False by (apply Hn; left).
  apply IH. intros y Hy. apply Hn. by right.
Qed.

Lemma attachments_of_new d d' id l :
  message_attachments (posts d') = message_attachments (posts d) ++
    ((λ a, mk_attachment_row id (a_hash a) (a_name a) (a_mime a)) <$> l) →
  (∀ a, a ∈ message_attachments (posts d) → at_message a ≠ id) →
  attachments_of id d' = l ∧ ∀ x, x ≠ id → attachments_of x d' = attachments_of x d.
Proof.
  intros E Hn. unfold attachments_of. rewrite E. split.
  - rewrite filter_app, fmap_app, (filter_none _ (message_attachments (posts d))).
    + clear. induction l as [|[h n m] l IH]; [done|]. rewrite fmap_cons, filter_cons_True by done.
      rewrite fmap_cons. change (?x ++ ?a :: ?b = ?c :: ?e) with (a :: b = c :: e). by f_equal.
    + intros a Ha. by apply Hn.
  - intros x Hx. rewrite filter_app, fmap_app, (filter_none _ (_ <$> l)); [by rewrite app_nil_r|].
    intros a (b & -> & _)%list_elem_of_fmap. cbn. congruence.
Qed.

(** What a post does to the attachments of messages. *)
Lemma post_attachments now m d seq d' :
  post_wf d → post_message now m d = Ok (seq, d') →
  attachments_of (s_id m) d' = s_attachments m ∧
  ∀ x, x ≠ s_id m → attachments_of x d' = attachments_of x d.
Proof.
  intros Hwf (Hp & _ & data & Ed)%post_message_Ok. apply attachments_of_new; [by rewrite Ed|].
  intros a Ha Ea. destruct (pw_attached d Hwf a Ha) as [(y & Ey & Hy)%list_elem_of_fmap _].
  eapply (po_new m d Hp); [exact Hy|congruence].
Qed.

Lemma post_message_wf now m d seq d' :
  ident_wf (identities d) → chan_wf d → post_wf d → post_message now m d = Ok (seq, d') → post_wf d'.
Proof.
  intros Hid Hch Hwf H. destruct (post_attachments now m d seq d' Hwf H) as [Hnew Hold].
  apply post_message_Ok in H as ([] & Eseq & data & Ed).
  set (row := msg_row m seq) in *.
  assert (messages (posts d') = messages (posts d) ++ [row]) as Em by (by rewrite Ed).
  assert (∀ x, x ∈ messages (posts d') ↔ x ∈ messages (posts d) ∨ x = row) as Hin.
  { intros x. by rewrite Em, elem_of_app, list_elem_of_singleton. }
  assert (∀ x, x ∈ messages (posts d) → (ms_seq x < seq)%Z) as Hlt.
  { intros x Hx%max_seq_le. lia. }
  assert (∀ x, epoch_fits d x → epoch_fits d' x) as Hep by (intros x; by rewrite Ed).
  assert (∀ h, has_blob h d' = has_blob h d) as Hbl by (intros h; by rewrite Ed).
  destruct Hwf. constructor.
  - rewrite Em. apply keys_insert; [done|]. intros y Hy. by apply po_new0.
  - rewrite Em, fmap_app. apply sorted_snoc; [done|]. intros y (x & -> & Hx)%list_elem_of_fmap. auto.
  - intros x [Hx| ->]%Hin; [auto|]. cbn. destruct (max_seq_elem (messages (posts d))) as [E|(y & Hy & E)]; [lia|].
    specialize (pw_pos0 y Hy). lia.
  - intros x [Hx| ->]%Hin; [auto|]. destruct (cw_member d Hch _ _ po_member0) as [_ (i & Hi & E & _)].
    cbn. rewrite <- E. by apply (iw_len _ Hid).
  - intros x [Hx| ->]%Hin.
    + unfold stored_row. rewrite Hold by auto. exact (pw_sig0 x Hx).
    + unfold stored_row, to_signed. cbn. rewrite Hnew. by destruct m.
  - intros x [Hx| ->]%Hin; apply Hep; [auto|]. destruct po_epoch0 as (c & Hc & Eid & He).
    exists c. split_and!; [done..|]. cbn. pose proof (cw_epoch d Hch c Hc).
    revert He. destruct (s_encrypted m); [|done]. intros [? ->]. split; [done|lia].
  - intros x p [Hx| ->]%Hin Hp.
    + destruct (pw_thread0 x p Hx Hp) as (y & ? & ?). exists y. rewrite Hin. auto.
    + destruct (po_thread0 p Hp) as (y & Hy & ? & ?). exists y. rewrite Hin. split_and!; auto.
  - intros a. rewrite Ed. cbn. rewrite elem_of_app, fmap_app, elem_of_app. change (has_blob (at_hash a) _) with (has_blob (at_hash a) d).
    intros [Ha|(b & -> & Hb)%list_elem_of_fmap]; [destruct (pw_attached0 a Ha); auto|].
    split; [right; by left|]. rewrite Forall_forall in po_blobs0. by apply po_blobs0.
  - by rewrite Ed.
  - intros c. rewrite Ed. intros [?|(x & ? & ?)]%pw_cursor0; [by left|right]. exists x. cbn. rewrite elem_of_app. auto.
Qed.

Lemma ack_Ok reader channel seq d e d' :
  ack reader channel seq d = Ok (e, d') →
  member_of d channel reader ∧
  let head := max_seq (filter (λ m, ms_channel m = channel) (messages (posts d))) in
  let s := Z.max 0 (Z.min seq head) in
  d' = advance reader channel s d ∧ e = acked reader channel d'.
Proof.
  unfold ack. intros H. step active_role_Ok in H as ? [-> _]. step query_Ok in H as ? [-> ->].
  step guard_Ok in H as ? [Hm%negb_false_iff%is_member_true ->]. step query_Ok in H as ? [-> ->].
  step execute_Ok in H as ? ->. apply query_Ok in H as [-> ->]. done.
Qed.

Lemma elem_of_advance reader channel s d c :
  c ∈ cursors (posts (advance reader channel s d)) →
  c ∈ cursors (posts d) ∨ (cursor_key c = (reader, channel) ∧
    (cu_acked c = s ∨ ∃ c0, c0 ∈ cursors (posts d) ∧ cursor_key c0 = (reader, channel) ∧
       cu_acked c = Z.max (cu_acked c0) s)).
Proof.
  unfold advance. cbn. destruct (existsb _ _).
  - intros (c0 & -> & Hc0)%list_elem_of_fmap. case_bool_decide as E; [right|by left].
    destruct E as [E1 E2]. split; [done|right]. exists c0. unfold cursor_key. rewrite E1, E2. done.
  - rewrite elem_of_app, list_elem_of_singleton. intros [?| ->]; [by left|right]. by split; [|left].
Qed.

Lemma advance_keys reader channel s d :
  NoDup (cursor_key <$> cursors (posts d)) →
  NoDup (cursor_key <$> cursors (posts (advance reader channel s d))).
Proof.
  intros Hd. unfold advance. cbn. destruct (existsb _ _) eqn:E.
  - rewrite (keys_update cursor_key); [done|]. intros c. case_bool_decide as Ek; [|done].
    destruct Ek as [<- <-]. done.
  - apply keys_insert; [done|]. intros y Hy [= E1 E2].
    pose proof (existsb_none _ _ _ E Hy) as Hf. cbn in Hf. rewrite bool_decide_eq_false in Hf. auto.
Qed.

Lemma ack_wf reader channel seq d e d' :
  post_wf d → ack reader channel seq d = Ok (e, d') → post_wf d'.
Proof.
  intros Hwf (_ & -> & _)%ack_Ok. set (head := max_seq _).
  destruct Hwf. constructor; try done; [by apply advance_keys|].
  assert (∃ s, s = Z.max 0 (Z.min seq head)) as [s Es] by eauto. rewrite <- Es.
  assert (s = 0%Z ∨ ∃ m, m ∈ messages (posts d) ∧ ms_channel m = channel ∧ (s ≤ ms_seq m)%Z) as Hs.
  { destruct (max_seq_elem (filter (λ m, ms_channel m = channel) (messages (posts d)))) as [E|(m & Hm & E)].
    - left. subst head. lia.
    - apply list_elem_of_filter in Hm as [? Hm]. destruct (decide (s = 0%Z)); [by left|right].
      exists m. split_and!; [done..|]. subst head. lia. }
  intros c [Hc|[[= _ Ech] Hc]]%elem_of_advance; [by apply pw_cursor0|].
  change (messages _) with (messages (posts d)). rewrite Ech.
  destruct Hc as [->|(c0 & Hc0 & [= E1 E2] & ->)]; [done|].
  destruct (pw_cursor0 c0 Hc0) as [E0|(m & Hm & Ec & Hle)].
  - rewrite E0. destruct Hs as [-> |(m & ? & ? & ?)]; [left; lia|].
    right. exists m. split_and!; [done..|]. lia.
  - destruct (Z.max_spec (cu_acked c0) s) as [[_ ->]|[_ ->]]; [done|]. right. exists m. by rewrite <- E2.
Qed.
End Preservation.

(** ** Reading back *)

Section Reading.
Context `{P : Prims}.

Lemma message_rows_stored d ms :
  post_wf d → (∀ m, m ∈ ms → m ∈ messages (posts d)) →
  ∃ rows, message_rows ms = Ok rows ∧ with_attachments d <$> rows = stored_row d <$> ms ∧
    mr_channel <$> rows = ms_channel <$> ms.
Proof.
  intros Hwf. induction ms as [|m ms IH]; intros Hin; [by exists []|].
  destruct IH as (rows & E & Er & Ec). { intros x Hx. apply Hin. by right. }
  cbn [message_rows]. unfold message_row. rewrite (pw_sender d Hwf m), Nat.eqb_refl by (apply Hin; left).
  rewrite E. eexists. split; [reflexivity|]. cbn. split; f_equal; done.
Qed.

Lemma elem_of_filterb {A} (f : A → bool) l x : x ∈ List.filter f l ↔ x ∈ l ∧ f x = true.
Proof. rewrite !list_elem_of_In. apply filter_In. Qed.

(** The inbox query reads the table in order. *)
Lemma unread_eq reader after d :
  post_wf d → unread reader after d =
    List.filter (λ m, is_member (ms_channel m) reader d
      && (acked reader (ms_channel m) d <? ms_seq m)%Z && (after <? ms_seq m)%Z
      && negb (bool_decide (ms_sender m = reader))) (messages (posts d)).
Proof. intros Hwf. apply sort_by_id, StronglySorted_filter, by_seq_sorted, Hwf. Qed.

Lemma elem_of_unread reader after d m :
  m ∈ unread reader after d ↔
  m ∈ messages (posts d) ∧ member_of d (ms_channel m) reader ∧
  (acked reader (ms_channel m) d < ms_seq m)%Z ∧ (after < ms_seq m)%Z ∧ ms_sender m ≠ reader.
Proof.
  unfold unread. rewrite elem_of_sort_by, elem_of_filterb, !andb_true_iff, !Z.ltb_lt, is_member_true,
    negb_true_iff, bool_decide_eq_false. tauto.
Qed.

Lemma inbox_after_stored reader after limit d r :
  post_wf d → active_role reader d = Ok (r, d) →
  inbox_after reader after limit d =
    Ok ((λ m, (ms_channel m, stored_row d m)) <$> take (page limit) (unread reader after d), d).
Proof.
  intros Hwf Ha. unfold inbox_after, mbind, tx_bind at 1. rewrite Ha. unfold tx_bind, query at 1.
  destruct (message_rows_stored d (take (page limit) (unread reader after d)) Hwf) as (rows & E & Er & Ec).
  { intros m (i & Hi%list_elem_of_lookup_2 & _)%elem_of_take. apply elem_of_unread in Hi. tauto. }
  rewrite E. unfold lift, query. do 2 f_equal.
  clear E. revert Er Ec. generalize (take (page limit) (unread reader after d)) as ms.
  induction rows as [|x rows IH]; intros [|m ms] Er Ec; cbn in Er, Ec; simplify_eq; [done|].
  cbn. f_equal; [by f_equal|]. by apply IH.
Qed.

(** ** Cursors *)

(** [acked] on the rows. *)
Definition acked_in (r c : string) (l : list cursor) : Z :=
  from_option (cu_acked ∘ snd) 0%Z (list_find (λ x, cu_reader x = r ∧ cu_channel x = c) l).

Lemma acked_in_cons r c x l :
  acked_in r c (x :: l) = if decide (cu_reader x = r ∧ cu_channel x = c) then cu_acked x else acked_in r c l.
Proof.
  unfold acked_in. cbn [list_find]. case_decide; [done|]. by destruct (list_find _ l) as [[]|].
Qed.

Lemma acked_in_snoc r c x l :
  acked_in r c (l ++ [x]) =
    if existsb (λ y, bool_decide (cu_reader y = r ∧ cu_channel y = c)) l then acked_in r c l
    else acked_in r c [x].
Proof.
  induction l as [|y l IH]; [done|]. cbn [app existsb]. rewrite !acked_in_cons, IH.
  destruct (decide (cu_reader y = r ∧ cu_channel y = c)) as [E|E].
  - by rewrite bool_decide_eq_true_2.
  - rewrite bool_decide_eq_false_2 by done. by rewrite (acked_in_cons r c x []).
Qed.

Lemma acked_in_other r c l :
  existsb (λ y, bool_decide (cu_reader y = r ∧ cu_channel y = c)) l = false → acked_in r c l = 0%Z.
Proof.
  induction l as [|y l IH]; [done|]. cbn [existsb]. rewrite orb_false_iff, bool_decide_eq_false, acked_in_cons.
  intros [Hy Hl]. rewrite decide_False by done. auto.
Qed.

Lemma acked_advance reader channel s d r c :
  (0 ≤ s)%Z →
  acked r c (advance reader channel s d) =
    if decide (r = reader ∧ c = channel) then Z.max (acked r c d) s else acked r c d.
Proof.
  intros Hs. change (acked r c d) with (acked_in r c (cursors (posts d))).
  change (acked r c (advance reader channel s d)) with (acked_in r c (cursors (posts (advance reader channel s d)))).
  unfold advance. cbn [cursors posts set_cursors set_posts]. destruct (existsb _ _) eqn:E.
  - case_decide as Er.
    + destruct Er as [-> ->]. revert E. induction (cursors (posts d)) as [|x l IH]; [done|].
      cbn [existsb map]. rewrite !acked_in_cons. case_bool_decide as Ex; cbn [orb cu_reader cu_channel cu_acked].
      * intros _. by rewrite !decide_True.
      * intros E. rewrite !decide_False by done. auto.
    + clear E. induction (cursors (posts d)) as [|x l IH]; [done|]. cbn [map]. rewrite !acked_in_cons, IH.
      case_bool_decide as Ex; cbn [cu_reader cu_channel cu_acked]; [|done].
      destruct Ex as [-> ->]. rewrite !decide_False; [done|naive_solver..].
  - rewrite acked_in_snoc, acked_in_cons. cbn [cu_reader cu_channel cu_acked]. case_decide as Er.
    + destruct Er as [-> ->]. rewrite E, decide_True, (acked_in_other _ _ _ E) by done. lia.
    + rewrite decide_False by naive_solver. clear E. destruct (existsb _ _) eqn:E'; [done|].
      by rewrite (acked_in_other _ _ _ E').
Qed.

Lemma acked_bound reader channel d :
  post_wf d → acked reader channel d = 0%Z ∨
  ∃ m, m ∈ messages (posts d) ∧ ms_channel m = channel ∧ (acked reader channel d ≤ ms_seq m)%Z.
Proof.
  intros Hwf. unfold acked. destruct (list_find _ _) as [[n c]|] eqn:E; cbn; [|by left].
  apply list_find_Some in E as (Hc & [_ <-] & _). apply (pw_cursor d Hwf). by eapply list_elem_of_lookup_2.
Qed.

Lemma ack_exact reader d r ch seq :
  active_role reader d = Ok (r, d) → is_member ch reader d = true →
  (0 ≤ seq ≤ max_seq (filter (λ x, ms_channel x = ch) (messages (posts d))))%Z →
  ack reader ch seq d = Ok (acked reader ch (advance reader ch seq d), advance reader ch seq d).
Proof.
  intros Ha Hm Hs. unfold ack, mbind, tx_bind at 1. rewrite Ha. unfold tx_bind, query, guard.
  rewrite Hm. cbn [negb]. unfold mret, tx_ret, execute.
  replace (Z.max 0 (Z.min seq _)) with seq by lia. done.
Qed.

(** A cursor that moved to [seq] hides what is not after it. *)
Definition past (ch : string) (seq : Z) (m : message) : bool :=
  negb (bool_decide (ms_channel m = ch)) || (seq <? ms_seq m)%Z.

Lemma filter_filterb {A} (f g : A → bool) l :
  List.filter f (List.filter g l) = List.filter (λ x, g x && f x) l.
Proof. induction l as [|x l IH]; cbn; [done|]. destruct (g x); cbn; by rewrite IH. Qed.

Lemma unread_advance reader ch seq d :
  post_wf d → post_wf (advance reader ch seq d) → (0 ≤ seq)%Z →
  unread reader 0 (advance reader ch seq d) = List.filter (past ch seq) (unread reader 0 d).
Proof.
  intros Hwf Hwf' Hs. rewrite !unread_eq, filter_filterb by done.
  change (messages (posts (advance _ _ _ _))) with (messages (posts d)).
  apply List.filter_ext. intros x. change (is_member _ _ (advance _ _ _ _)) with (is_member (ms_channel x) reader d).
  rewrite acked_advance by done. unfold past.
  destruct (is_member _ _ _), (0 <? ms_seq x)%Z, (bool_decide (ms_sender x = reader)); cbn; rewrite ?andb_false_r; try done.
  rewrite !andb_true_r. case_decide as E; case_bool_decide as E'; cbn; try tauto.
  - destruct (Z.ltb_spec (Z.max (acked reader (ms_channel x) d) seq) (ms_seq x)),
      (Z.ltb_spec (acked reader (ms_channel x) d) (ms_seq x)), (Z.ltb_spec seq (ms_seq x)); cbn; lia.
  - by rewrite andb_true_r.
Qed.

Lemma filter_all {A} (f : A → bool) l : Forall (λ x, f x = true) l → List.filter f l = l.
Proof. induction 1 as [|x l Hx _ IH]; cbn; [done|]. by rewrite Hx, IH. Qed.

(** The first unread message, acknowledged, leaves the rest. *)
Lemma ack_first reader d r m rest :
  post_wf d → active_role reader d = Ok (r, d) → unread reader 0 d = m :: rest →
  let d' := advance reader (ms_channel m) (ms_seq m) d in
  (transact (ack reader (ms_channel m) (ms_seq m)) d).2 = d' ∧ post_wf d' ∧ unread reader 0 d' = rest.
Proof.
  intros Hwf Ha Hu d'. assert (m ∈ unread reader 0 d) as (Hm & Hmem%is_member_true & _ & Hpos & _)%elem_of_unread.
  { rewrite Hu. left. }
  assert (ack reader (ms_channel m) (ms_seq m) d = Ok (acked reader (ms_channel m) d', d')) as Hack.
  { eapply ack_exact; [done..|]. split; [lia|]. apply max_seq_le. by apply list_elem_of_filter. }
  assert (post_wf d') as Hwf' by (by eapply ack_wf).
  split_and!; [unfold transact; by rewrite Hack|done|]. unfold d'. rewrite unread_advance by (done || lia).
  rewrite Hu. cbn [List.filter]. unfold past at 1. rewrite bool_decide_eq_true_2, Z.ltb_irrefl by done. cbn [negb orb].
  apply filter_all. assert (StronglySorted (λ a b, by_seq a b = Lt) (m :: rest)) as Hso.
  { rewrite <- Hu, unread_eq by done. apply StronglySorted_filter, by_seq_sorted, Hwf. }
  inversion Hso as [|? ? _ Hrest]; subst. eapply Forall_impl; [exact Hrest|].
  intros x Hx. unfold past. apply Z.compare_lt_iff, Z.ltb_lt in Hx. rewrite Hx. apply orb_true_r.
Qed.

(** ** A reader that acknowledges what it reads *)

(** Acknowledges each message of a page in turn. *)
Fixpoint ack_all (reader : string) (rows : list (string * MessageRow)) (d : db) : db :=
  match rows with
  | [] => d
  | (ch, row) :: rows' => ack_all reader rows' (transact (ack reader ch (mr_seq row)) d).2
  end.

(** Reads a page and acknowledges it, until the inbox is empty. *)
Fixpoint drain (fuel : nat) (reader : string) (limit : Z) (d : db) : list MessageRow * db :=
  match fuel with
  | O => ([], d)
  | S n =>
      match inbox reader limit d with
      | Ok (rows, _) =>
          if decide (rows = []) then ([], d) else
          let '(rest, d') := drain n reader limit (ack_all reader rows d) in (rows.*2 ++ rest, d')
      | Err _ => ([], d)
      end
  end.

(** What a cursor may change. *)
Definition same_but_cursors (d d' : db) : Prop := ∃ t, d' = set_cursors t d.

Lemma same_but_cursors_trans a b c : same_but_cursors a b → same_but_cursors b c → same_but_cursors a c.
Proof. intros [t ->] [t' ->]. by exists t'. Qed.

Lemma same_but_cursors_refl d : same_but_cursors d d.
Proof. exists (cursors (posts d)). destruct d. unfold set_cursors. cbn. by destruct posts. Qed.

Lemma active_cursors reader r d d' :
  same_but_cursors d d' → active_role reader d = Ok (r, d) → active_role reader d' = Ok (r, d').
Proof.
  intros [t ->] [_ (i & Hi & Hr & Hp)]%active_role_Ok. unfold active_role, mbind, tx_bind, query.
  change (find_ident reader (set_cursors t d)) with (find_ident reader d).
  rewrite Hi, Hr. unfold lift. by rewrite Hp.
Qed.

Lemma ack_all_page reader d d0 r ms rest :
  post_wf d0 → same_but_cursors d d0 → active_role reader d = Ok (r, d) →
  unread reader 0 d0 = ms ++ rest →
  let d' := ack_all reader ((λ m, (ms_channel m, stored_row d m)) <$> ms) d0 in
  post_wf d' ∧ unread reader 0 d' = rest ∧ same_but_cursors d d'.
Proof.
  revert d0. induction ms as [|m ms IH]; intros d0 Hwf Hs Ha Hu; [done|].
  destruct (ack_first reader d0 r m (ms ++ rest) Hwf (active_cursors _ _ _ _ Hs Ha) Hu) as (E & Hwf' & Hu').
  rewrite fmap_cons. cbn [ack_all stored_row mr_seq]. rewrite E.
  apply IH; [done| |done|done]. eapply same_but_cursors_trans; [exact Hs|]. by eexists.
Qed.

Lemma stored_row_cursors d d' : same_but_cursors d d' → stored_row d' = stored_row d.
Proof. by intros [t ->]. Qed.

(** Every unread message is read once and in order, and then none is left. *)
Lemma drain_all fuel reader limit d r :
  post_wf d → active_role reader d = Ok (r, d) → (1 ≤ limit)%Z → length (unread reader 0 d) < fuel →
  ∃ d', drain fuel reader limit d = (stored_row d <$> unread reader 0 d, d') ∧
    unread reader 0 d' = [] ∧ same_but_cursors d d'.
Proof.
  revert d. induction fuel as [|n IH]; intros d Hwf Ha Hlim Hf; [lia|]. cbn [drain]. unfold inbox.
  rewrite (inbox_after_stored _ _ _ _ _ Hwf Ha). set (ms := take (page limit) (unread reader 0 d)).
  destruct (ack_all_page reader d d r ms (drop (page limit) (unread reader 0 d)) Hwf (same_but_cursors_refl d) Ha)
    as (Hwf' & Hu' & Hsame).
  { unfold ms. by rewrite take_drop. }
  assert (1 ≤ page limit) as Hp. { unfold page, MAX_PAGE. lia. }
  case_decide as Em.
  - apply fmap_nil_inv in Em. assert (unread reader 0 d = []) as Hn.
    { destruct (unread reader 0 d); [done|]. subst ms. by destruct (page limit); [lia|]. }
    exists d. rewrite Hn. split_and!; [done|done|apply same_but_cursors_refl].
  - destruct (IH _ Hwf' (active_cursors _ _ _ _ Hsame Ha) Hlim) as (d' & E & Hnil & Hs').
    { rewrite Hu', length_drop. destruct (unread reader 0 d) as [|x l]; [by destruct (page limit)|]. cbn [length] in *. lia. }
    exists d'. rewrite E, (stored_row_cursors _ _ Hsame), Hu'.
    split_and!; [|done|by eapply same_but_cursors_trans]. f_equal.
    rewrite <- list_fmap_compose. rewrite <- fmap_app. unfold ms. change (snd ∘ _) with (stored_row d).
    by rewrite take_drop.
Qed.
Lemma drain_wf fuel reader limit d r rows d' :
  post_wf d → active_role reader d = Ok (r, d) → drain fuel reader limit d = (rows, d') → post_wf d'.
Proof.
  revert d rows d'. induction fuel as [|n IH]; intros d rows d' Hwf Ha H; cbn [drain] in H; [by simplify_eq|].
  unfold inbox in H. rewrite (inbox_after_stored _ _ _ _ _ Hwf Ha) in H. case_decide; [by simplify_eq|].
  set (ms := take (page limit) (unread reader 0 d)) in *.
  destruct (ack_all_page reader d d r ms (drop (page limit) (unread reader 0 d)) Hwf (same_but_cursors_refl d) Ha)
    as (Hwf' & _ & Hsame). { unfold ms. by rewrite take_drop. }
  destruct (drain n reader limit _) as [rest d1] eqn:E. simplify_eq.
  eapply IH; [exact Hwf'|by eapply active_cursors|exact E].
Qed.
End Reading.

Lemma sublist_filterb {A} (f : A → bool) l : List.filter f l `sublist_of` l.
Proof. induction l as [|x l IH]; cbn; [constructor|]. destruct (f x); by constructor. Qed.

Lemma StronglySorted_weaken {A} (R S : A → A → Prop) l :
  (∀ a b, R a b → S a b) → StronglySorted R l → StronglySorted S l.
Proof. intros Hi. induction 1 as [|x l _ IH Hx]; constructor; [done|]. eapply Forall_impl; [exact Hx|auto]. Qed.
