(* ===== verification/Social.v ===== *)
(** * agora-store: reactions and knowledge notes

    [src/crates/agora-store/src/social.rs] past the signed records of [Wire].  A
    reaction is used once (its signed content is the nonce), a note is never
    changed but superseded.  The full-text index is a parameter ([Fts]). *)

From S2P Require Import Prelude F64 Strs Bytes Core Crypto Task Frame StoreDb Identity Wire Channels ChanInv.
From S2P Require Import Messages.

(** ** Reactions *)

Definition message_channel (id : string) (d : db) : option string :=
  ms_channel ∘ snd <$> list_find (λ m, ms_id m = id) (messages (posts d)).

Definition same_reaction (kind target by' emoji : string) (r : reaction_row) : Prop :=
  re_kind r = kind ∧ re_target r = target ∧ re_by r = by' ∧ re_emoji r = emoji.

#[export] Instance same_reaction_dec kind target by' emoji r :
  Decision (same_reaction kind target by' emoji r).
Proof. unfold same_reaction. apply _. Defined.

Definition drop_reaction (r : SignedReaction) (d : db) : db :=
  set_reactions (filter (λ x, ¬ same_reaction (rx_kind r) (rx_target r) (rx_by r) (rx_emoji r) x)
    (reactions (posts d))) d.

(** [INSERT OR REPLACE]: the old row goes, the new one is the last. *)
Definition replace_reaction (r : SignedReaction) (d : db) : db :=
  set_reactions (reactions (posts (drop_reaction r d)) ++
    [mk_reaction_row (rx_kind r) (rx_target r) (rx_by r) (rx_emoji r) (rx_ts r) (rx_sig r)]) d.

Definition count_reaction (r : SignedReaction) (d : db) : nat :=
  length (filter (λ x, same_reaction (rx_kind r) (rx_target r) (rx_by r) (rx_emoji r) x)
    (reactions (posts d))).

Section Social.
Context `{P : Prims}.

(** The target of a reaction, as its author may see it. *)
Definition target_exists (r : SignedReaction) : tx bool :=
  if decide (rx_kind r = "message") then
    channel ← query (message_channel (rx_target r));
    match channel with
    | None => mret false
    | Some ch =>
        m ← query (is_member ch (rx_by r));
        guard (negb m) (NotFound (rx_target r)) ≫= λ _, mret true
    end
  else if decide (rx_kind r = "file") then query (has_blob (rx_target r))
  else if decide (rx_kind r = "card") then
    query (λ d, existsb (λ c, bool_decide (c_id c = rx_target r)) (cards d))
  else fail (Invalid "unknown reaction target kind").

Definition react_nonce (r : SignedReaction) : string :=
  "react:" +:+ content_hash (reaction_bytes r).

Definition react (now : Z) (r : SignedReaction) : tx unit :=
  guard (is_empty_str (rx_emoji r) || (64 <? str_len (rx_emoji r))%Z)
    (Invalid "reaction must be 1..=64 bytes") ≫= λ _,
  guard (256 <? str_len (rx_target r))%Z (Invalid "reaction target longer than 256 bytes") ≫= λ _,
  check_clock now (rx_ts r) ≫= λ _,
  lift match verify (rx_by r) (reaction_bytes r) (rx_sig r) with
       | Ok u => Ok u
       | Err e => Err (StoreCrypto e)
       end ≫= λ _,
  active_role (rx_by r) ≫= λ _,
  consume_nonce now (rx_by r) (react_nonce r) (rx_ts r) ≫= λ _,
  exists' ← target_exists r;
  guard (negb exists') (NotFound (rx_target r)) ≫= λ _,
  let data := VObject [("kind", VString (rx_kind r)); ("target", VString (rx_target r));
                       ("emoji", VString (rx_emoji r))] in
  if rx_remove r then
    removed ← query (count_reaction r);
    execute (drop_reaction r) ≫= λ _,
    if Nat.eqb removed 0 then mret tt
    else append now (hex (rx_by r)) "reaction.removed" (rx_target r) data ≫= λ _, mret tt
  else
    execute (replace_reaction r) ≫= λ _,
    append now (hex (rx_by r)) "reaction.added" (rx_target r) data ≫= λ _, mret tt.

(** [GROUP BY emoji ORDER BY 2 DESC, 1]. *)
Definition reaction_counts (kind target : string) (d : db) : list (string * Z) :=
  let rows := re_emoji <$> filter (λ r, re_kind r = kind ∧ re_target r = target) (reactions (posts d)) in
  sort_by (λ a b, then_with (Z.compare b.2 a.2) (String.compare a.1 b.1))
    ((λ e, (e, Z.of_nat (length (filter (λ x, x = e) rows)))) <$> remove_dups rows).

Definition reaction_counts_for (reader kind target : string) : tx (list (string * Z)) :=
  active_role reader ≫= λ _,
  (if decide (kind = "message") then
     channel ← query (message_channel target);
     member ← match channel with
              | None => mret false
              | Some ch => query (is_member ch reader)
              end;
     guard (negb member) (NotFound target)
   else if decide (kind = "file" ∨ kind = "card") then mret tt
   else fail (Invalid "unknown reaction target kind")) ≫= λ _,
  query (reaction_counts kind target).

(** ** Notes *)

Definition note_author (id : string) (d : db) : option string :=
  kn_author ∘ snd <$> list_find (λ k, kn_id k = id) (knowledge (posts d)).

Definition publish_note (now : Z) (n : SignedNote) : tx unit :=
  guard (is_empty_str (sn_id n) || (256 <? str_len (sn_id n))%Z)
    (Invalid "note id must be 1..=256 bytes") ≫= λ _,
  guard (is_empty_str (sn_title n) || (512 <? str_len (sn_title n))%Z)
    (Invalid "note title must be 1..=512 bytes") ≫= λ _,
  guard (MAX_BODY <? str_len (sn_body n))%Z (Invalid "note body too large") ≫= λ _,
  guard (1024 <? str_len (sn_tags n))%Z (Invalid "note tags longer than 1024 bytes") ≫= λ _,
  guard (from_option (λ k, 256 <? str_len k)%Z false (sn_supersedes n))
    (Invalid "supersedes longer than 256 bytes") ≫= λ _,
  check_clock now (sn_ts n) ≫= λ _,
  lift match verify (sn_author n) (note_bytes n) (sn_sig n) with
       | Ok u => Ok u
       | Err e => Err (StoreCrypto e)
       end ≫= λ _,
  role ← active_role (sn_author n);
  need role Worker ≫= λ _,
  duplicate ← query (λ d, existsb (λ k, bool_decide (kn_id k = sn_id n)) (knowledge (posts d)));
  guard duplicate (Invalid "note already exists") ≫= λ _,
  (match sn_supersedes n with
   | None => mret tt
   | Some k =>
       prev ← query (note_author k);
       author ← lift (ok_or prev (NotFound k));
       guard (negb (bool_decide (author = sn_author n)) && role_lt role Supervisor)
         (Transition (Forbidden role))
   end) ≫= λ _,
  execute (λ d, set_knowledge (knowledge (posts d) ++
    [mk_note_row (sn_id n) (sn_author n) (sn_ts n) (sn_title n) (sn_body n) (sn_tags n)
       (sn_supersedes n) (sn_sig n)]) d) ≫= λ _,
  append now (hex (sn_author n)) "note.published" (sn_id n)
    (VObject [("supersedes", opt_str (sn_supersedes n))]) ≫= λ _,
  mret tt.

(** The rows that match a query, best first. *)
Class Fts : Type := { fts_match : string → list note_row → list note_row }.

(** [t.replace] of each quote by two. *)
Fixpoint double_quotes (s : string) : string :=
  match s with
  | "" => ""
  | String c s' =>
      if byte_eqb c (byte_of 34) then String c (String c (double_quotes s'))
      else String c (double_quotes s')
  end.

Definition quote_mark : string := String (byte_of 34) "".

Definition fts_query (query : string) : string :=
  let bounded := encode (take 1024 (filter (λ c, c ≠ 0%Z) (chars query))) in
  join " " ((λ t, quote_mark +:+ double_quotes t +:+ quote_mark) <$> take 16 (split_whitespace bounded)).

Definition search_notes `{Fts} (query : string) (limit : Z) (d : db) : list (string * string) :=
  let q := fts_query query in
  if is_empty_str q then [] else
  let all := knowledge (posts d) in
  (λ k, (kn_id k, kn_title k)) <$>
    take (Z.to_nat (Z.max 0 (Z.min limit 200)))
      (List.filter (λ k, negb (existsb (λ n, bool_decide (kn_supersedes n = Some (kn_id k))) all))
        (fts_match q all)).

End Social.

(** ** What holds of reactions and notes *)

Definition reaction_key (r : reaction_row) : string * string * string * string :=
  (re_kind r, re_target r, re_by r, re_emoji r).

(** The signed records the rows came from. *)
Definition reaction_of (r : reaction_row) : SignedReaction :=
  mk_reaction (re_kind r) (re_target r) (re_by r) (re_emoji r) false (re_ts r) (re_sig r).
Definition note_of (k : note_row) : SignedNote :=
  mk_note (kn_id k) (kn_author k) (kn_ts k) (kn_title k) (kn_body k) (kn_tags k) (kn_supersedes k)
    (kn_sig k).

(** One reaction per author, target and emoji; note ids are unique; both carry
    their author's signature; a note supersedes an earlier one. *)
Record soc_wf `{Prims} (t : post_tables) : Prop := {
  sw_reactions : NoDup (reaction_key <$> reactions t);
  sw_reaction r : r ∈ reactions t → verify (re_by r) (reaction_bytes (reaction_of r)) (re_sig r) = Ok tt;
  sw_notes : NoDup (kn_id <$> knowledge t);
  sw_note k : k ∈ knowledge t → verify (kn_author k) (note_bytes (note_of k)) (kn_sig k) = Ok tt;
  sw_supersedes i k p : knowledge t !! i = Some k → kn_supersedes k = Some p →
    ∃ j x, (j < i)%nat ∧ knowledge t !! j = Some x ∧ kn_id x = p }.

Section Preservation.
Context `{P : Prims}.

(** The nonce a reaction uses up. *)
Definition react_op (r : SignedReaction) : SignedOp :=
  mk_op "" "" "" (rx_ts r) (react_nonce r) (rx_by r) "".

Definition reaction_row_of (r : SignedReaction) : reaction_row :=
  mk_reaction_row (rx_kind r) (rx_target r) (rx_by r) (rx_emoji r) (rx_ts r) (rx_sig r).

Lemma target_exists_Ok r d b d' : target_exists r d = Ok (b, d') → d' = d.
Proof.
  unfold target_exists. intros H. repeat case_decide; try (by tx_inv).
  step query_Ok in H as ch [-> ->]. destruct (message_channel _ _); by tx_inv.
Qed.

Lemma react_Ok now r d u d' :
  react now r d = Ok (u, d') →
  verify (rx_by r) (reaction_bytes r) (rx_sig r) = Ok tt ∧
  let dn := with_nonce now (react_op r) d in
  let t := reactions (posts (drop_reaction r dn)) in
  (rx_remove r = true ∧ (d' = set_reactions t dn ∨
     ∃ data, d' = logged now (hex (rx_by r)) "reaction.removed" (rx_target r) data (set_reactions t dn))) ∨
  (rx_remove r = false ∧ ∃ data, d' = logged now (hex (rx_by r)) "reaction.added" (rx_target r) data
     (set_reactions (t ++ [reaction_row_of r]) dn)).
Proof.
  unfold react. intros H. do 2 (step guard_Ok in H as ? [_ ->]). step check_clock_Ok in H as ? [-> _].
  step lift_Ok in H as ? [Hv ->]. step active_role_Ok in H as ? [-> _].
  step consume_nonce_Ok in H as ? [_ ->]. step target_exists_Ok in H as ? ->.
  step guard_Ok in H as ? [_ ->].
  split; [destruct (verify _ _ _) as [[]|]; done|]. cbn zeta. destruct (rx_remove r).
  - left. split; [done|]. step query_Ok in H as n [_ ->]. step execute_Ok in H as ? ->.
    destruct (Nat.eqb n 0); tx_inv; [by left|right]. by eexists.
  - right. split; [done|]. tx_inv. by eexists.
Qed.

Lemma soc_wf_drop t t' Q `{∀ x, Decision (Q x)} :
  soc_wf t → reactions t' = filter Q (reactions t) → knowledge t' = knowledge t → soc_wf t'.
Proof.
  intros [] Er Ek. constructor; rewrite ?Er, ?Ek; try done; [by apply keys_delete|].
  intros r [_ ?]%list_elem_of_filter. auto.
Qed.

Lemma react_wf now r d u d' : soc_wf (posts d) → react now r d = Ok (u, d') → soc_wf (posts d').
Proof.
  intros Hwf (Hv & H)%react_Ok. cbn zeta in H.
  destruct H as [[_ [->|[data ->]]]|[Hr [data ->]]]; [by eapply soc_wf_drop..|].
  destruct Hwf. constructor; cbn; try done.
  - apply keys_insert; [by apply keys_delete|]. intros y [Hn _]%list_elem_of_filter [= E1 E2 E3 E4]. by apply Hn.
  - intros x. rewrite elem_of_app, list_elem_of_singleton. intros [[_ ?]%list_elem_of_filter| ->]; [auto|].
    unfold reaction_of, reaction_row_of. cbn. destruct r. cbn in *. by subst.
Qed.

Lemma publish_note_Ok now n d u d' :
  publish_note now n d = Ok (u, d') →
  verify (sn_author n) (note_bytes n) (sn_sig n) = Ok tt ∧
  (∀ k, k ∈ knowledge (posts d) → kn_id k ≠ sn_id n) ∧
  (∀ p, sn_supersedes n = Some p → ∃ k, k ∈ knowledge (posts d) ∧ kn_id k = p) ∧
  ∃ data, d' = logged now (hex (sn_author n)) "note.published" (sn_id n) data
    (set_knowledge (knowledge (posts d) ++ [mk_note_row (sn_id n) (sn_author n) (sn_ts n) (sn_title n)
       (sn_body n) (sn_tags n) (sn_supersedes n) (sn_sig n)]) d).
Proof.
  unfold publish_note. intros H. do 5 (step guard_Ok in H as ? [_ ->]). step check_clock_Ok in H as ? [-> _].
  step lift_Ok in H as ? [Hv ->]. step active_role_Ok in H as role [-> _]. step need_Ok in H as ? [-> _].
  step query_Ok in H as ? [-> ->]. step guard_Ok in H as ? [Hd ->].
  apply tx_bind_Ok in H as (? & d1 & Hs & H).
  assert (d1 = d ∧ ∀ p, sn_supersedes n = Some p → ∃ k, k ∈ knowledge (posts d) ∧ kn_id k = p) as [-> Hsup].
  { destruct (sn_supersedes n) as [p|]; [|by apply mret_Ok in Hs as [_ ->]].
    step query_Ok in Hs as ? [-> ->]. step lift_Ok in Hs as a [Ha ->]. apply guard_Ok in Hs as [_ ->].
    split; [done|]. intros ? [= <-]. unfold note_author in Ha.
    destruct (list_find _ _) as [[i k]|] eqn:E; [|done]. apply list_find_Some in E as (Hk & ? & _).
    exists k. split; [by eapply list_elem_of_lookup_2|done]. }
  tx_inv. split_and!; [destruct (verify _ _ _) as [[]|]; done| |done|by eexists].
  intros k Hk E. pose proof (existsb_none _ _ _ Hd Hk) as Hf. cbn in Hf. by rewrite bool_decide_eq_false in Hf.
Qed.

Lemma publish_note_wf now n d u d' :
  soc_wf (posts d) → publish_note now n d = Ok (u, d') → soc_wf (posts d').
Proof.
  intros [] (Hv & Hn & Hs & data & ->)%publish_note_Ok. constructor; cbn; try done.
  - by apply keys_insert.
  - intros k. rewrite elem_of_app, list_elem_of_singleton. intros [?| ->]; [auto|]. by destruct n.
  - intros i k p Hk Hp. apply lookup_app_Some in Hk as [Hk|[Hi Hk]].
    + destruct (sw_supersedes0 i k p Hk Hp) as (j & x & ? & ? & ?). exists j, x. split_and!; try done.
      by apply lookup_app_l_Some.
    + apply list_lookup_singleton_Some in Hk as [Ei <-]. destruct (Hs p Hp) as (x & Hx & Ex).
      apply list_elem_of_lookup_1 in Hx as [j Hj]. exists j, x.
      pose proof (lookup_lt_Some _ _ _ Hj). split_and!; [lia|by apply lookup_app_l_Some|done].
Qed.
End Preservation.
