(* ===== verification/Team.v ===== *)
(** * agora-store: sprints and statuses

    [src/crates/agora-store/src/sprints.rs]: sprints are planned, then active,
    one at a time, then closed, and group cards;
    [src/crates/agora-store/src/status.rs]: what each harness of an identity says
    it is doing, which only the peers of its channels read. *)

From Stdlib Require Import Ascii.
From stdpp Require Import relations.
From S2P Require Import Prelude F64 Strs PyFmt Bytes Core Crypto Task Graph Claims StoreDb Identity Policy Board.
From S2P Require Import BoardLog Channels.

(** ** Sprints *)

Record SprintSummary : Type := mk_summary {
  ss_total : Z; ss_done : Z; ss_in_flight : Z; ss_blocked : Z }.

Definition set_sprints (t : list sprint_row) (d : db) : db :=
  set_team (mk_team_tables t (sprint_cards (team d)) (statuses (team d))) d.
Definition set_sprint_cards (t : list (string * string)) (d : db) : db :=
  set_team (mk_team_tables (sprints (team d)) t (statuses (team d))) d.
Definition set_statuses (t : list status_row) (d : db) : db :=
  set_team (mk_team_tables (sprints (team d)) (sprint_cards (team d)) t) d.

Definition find_sprint (id : string) (d : db) : option sprint_row :=
  snd <$> list_find (λ s, sn_id s = id) (sprints (team d)).

Definition sprint_state (id : string) : tx string :=
  row ← query (find_sprint id);
  lift (ok_or (sn_state <$> row) (NotFound id)).

Definition require_sprint_id (op : SignedOp) : tx unit :=
  guard (is_empty_str (o_subject op)) (Invalid "sprint id must not be empty").

(** [ensure_card]. *)
Definition ensure_card (id : string) : tx unit := require_card id.

Definition with_sprint_state (state : string) (s : sprint_row) : sprint_row :=
  mk_sprint_row (sn_id s) (sn_name s) (sn_goal s) (sn_starts s) (sn_ends s) state.

Definition update_sprint (id : string) (f : sprint_row → sprint_row) (d : db) : db :=
  set_sprints (map (λ s, if decide (sn_id s = id) then f s else s) (sprints (team d))) d.

Definition sprint_active (s : sprint_row) : bool := String.eqb (sn_state s) "active".

Section Sprints.
Context `{P : Prims} `{J : JsonText}.

Definition parse_create_arg (arg : string) : result StoreError (string * string * Z * Z) :=
  v ← ok_or (parse_json arg) (Invalid "sprint arg must be JSON");
  name ← ok_or (match vget "name" v ≫= v_str with
                | Some s => if is_empty_str s then None else Some s
                | None => None
                end) (Invalid "sprint name must be a non-empty string");
  goal ← match vget "goal" v with
         | None => Ok ""
         | Some g => ok_or (v_str g) (Invalid "sprint goal must be a string")
         end;
  starts ← ok_or (vget "starts" v ≫= v_i64) (Invalid "sprint starts must be an integer");
  ends ← ok_or (vget "ends" v ≫= v_i64) (Invalid "sprint ends must be an integer");
  Ok (name, goal, starts, ends).

Definition create_sprint (now : Z) (op : SignedOp) : tx unit :=
  role ← authorize now op "sprint.create";
  need role Supervisor ≫= λ _,
  require_sprint_id op ≫= λ _,
  arg ← lift (parse_create_arg (o_arg op));
  let '(name, goal, starts, ends) := (arg : string * string * Z * Z) in
  guard (ends <=? starts)%Z (Invalid "sprint must end after it starts") ≫= λ _,
  row ← query (find_sprint (o_subject op));
  guard (bool_decide (is_Some row)) (Invalid "sprint already exists") ≫= λ _,
  execute (λ d, set_sprints (sprints (team d) ++
    [mk_sprint_row (o_subject op) name goal starts ends "planned"]) d) ≫= λ _,
  append now (actor_hex op) "sprint.created" (o_subject op)
    (VObject [("name", VString name); ("goal", VString goal); ("starts", VNumber (NInt starts));
              ("ends", VNumber (NInt ends))]) ≫= λ _,
  mret tt.

Definition add_to_sprint (now : Z) (op : SignedOp) : tx unit :=
  role ← authorize now op "sprint.add";
  need role Supervisor ≫= λ _,
  require_sprint_id op ≫= λ _,
  guard (is_empty_str (o_arg op)) (Invalid "card id must not be empty") ≫= λ _,
  ensure_card (o_arg op) ≫= λ _,
  state ← sprint_state (o_subject op);
  guard (String.eqb state "closed") (Invalid "sprint is closed") ≫= λ _,
  there ← query (λ d, bool_decide ((o_subject op, o_arg op) ∈ sprint_cards (team d)));
  if (there : bool) then mret tt else
  execute (λ d, set_sprint_cards (sprint_cards (team d) ++ [(o_subject op, o_arg op)]) d) ≫= λ _,
  append now (actor_hex op) "sprint.card_added" (o_subject op) (VObject [("card", VString (o_arg op))]) ≫= λ _,
  mret tt.

Definition start_sprint (now : Z) (op : SignedOp) : tx unit :=
  role ← authorize now op "sprint.start";
  need role Supervisor ≫= λ _,
  require_sprint_id op ≫= λ _,
  state ← sprint_state (o_subject op);
  guard (negb (String.eqb state "planned")) (Invalid "sprint is not planned") ≫= λ _,
  another ← query (λ d, existsb sprint_active (sprints (team d)));
  guard another (Invalid "another sprint is already active") ≫= λ _,
  execute (update_sprint (o_subject op) (with_sprint_state "active")) ≫= λ _,
  append now (actor_hex op) "sprint.started" (o_subject op) (VObject []) ≫= λ _,
  mret tt.

Definition close_sprint (now : Z) (op : SignedOp) : tx unit :=
  role ← authorize now op "sprint.close";
  need role Supervisor ≫= λ _,
  require_sprint_id op ≫= λ _,
  state ← sprint_state (o_subject op);
  guard (negb (String.eqb state "active")) (Invalid "sprint is not active") ≫= λ _,
  execute (update_sprint (o_subject op) (with_sprint_state "closed")) ≫= λ _,
  append now (actor_hex op) "sprint.closed" (o_subject op) (VObject []) ≫= λ _,
  mret tt.
End Sprints.

(** The states of the cards of a sprint: [sprint_cards JOIN cards]. *)
Definition sprint_states (sprint : string) (d : db) : list string :=
  omap (λ sc, if String.eqb sc.1 sprint then c_state <$> find_card sc.2 d else None) (sprint_cards (team d)).

(** [SELECT state, COUNT( * ) … GROUP BY state]. *)
Definition count_of (s : string) (l : list string) : Z := Z.of_nat (length (filter (λ x, x = s) l)).

Definition grouped (l : list string) : list (string * Z) :=
  (λ s, (s, count_of s l)) <$> sort_by String.compare (remove_dups l).

Definition add_count (out : SprintSummary) (row : string * Z) : SprintSummary :=
  let '(state, n) := row in
  let total := (ss_total out + n)%Z in
  if String.eqb state "done"
  then mk_summary total (ss_done out + n) (ss_in_flight out) (ss_blocked out)
  else if String.eqb state "blocked"
  then mk_summary total (ss_done out) (ss_in_flight out) (ss_blocked out + n)
  else if String.eqb state "claimed" || String.eqb state "doing" || String.eqb state "review"
  then mk_summary total (ss_done out) (ss_in_flight out + n) (ss_blocked out)
  else mk_summary total (ss_done out) (ss_in_flight out) (ss_blocked out).

Definition sprint_summary (sprint : string) : tx SprintSummary :=
  sprint_state sprint ≫= λ _,
  rows ← query (λ d, grouped (sprint_states sprint d));
  mret (foldl add_count (mk_summary 0 0 0 0) rows).

(** ** Statuses *)

(** A status as the store reports it. *)
Record StatusRow : Type := mk_status {
  st_pk : string; st_pseudonym : string; st_state : string; st_harness : string;
  st_folder : string; st_matter : string; st_ts : Z }.

Record StatusArg : Type := mk_status_arg {
  sa_state : string; sa_harness : string; sa_folder : string; sa_matter : string }.

Definition set_status_field (out : StatusArg) (key text : string) : result StoreError StatusArg :=
  if String.eqb key "state" then Ok (mk_status_arg text (sa_harness out) (sa_folder out) (sa_matter out))
  else if String.eqb key "harness" then Ok (mk_status_arg (sa_state out) text (sa_folder out) (sa_matter out))
  else if String.eqb key "folder" then Ok (mk_status_arg (sa_state out) (sa_harness out) text (sa_matter out))
  else if String.eqb key "matter" then Ok (mk_status_arg (sa_state out) (sa_harness out) (sa_folder out) text)
  else Err (Invalid "unknown status field").

Fixpoint set_status_fields (out : StatusArg) (fields : list (string * Value)) : result StoreError StatusArg :=
  match fields with
  | [] => Ok out
  | (key, value) :: fields' =>
      text ← ok_or (v_str value) (Invalid "status fields must be strings");
      out' ← set_status_field out key text;
      set_status_fields out' fields'
  end.

Section Statuses.
Context `{P : Prims} `{J : JsonText}.

Definition StatusArg_parse (arg : string) : result StoreError StatusArg :=
  v ← ok_or (parse_json arg) (Invalid "status arg must be JSON");
  match v with
  | VObject fields => set_status_fields (mk_status_arg "" "" "" "") fields
  | _ => Err (Invalid "status arg must be a JSON object")
  end.

Definition require_own_subject (op : SignedOp) : tx unit :=
  guard (negb (String.eqb (o_subject op) (hex (o_actor op))))
    (Invalid "status subject must be the actor's own key").

Definition same_status (pk harness : string) (s : status_row) : bool :=
  String.eqb (su_pk s) pk && String.eqb (su_harness s) harness.

(** [INSERT … ON CONFLICT(pk, harness) DO UPDATE]. *)
Definition upsert_status (r : status_row) (d : db) : db :=
  let same := same_status (su_pk r) (su_harness r) in
  if existsb same (statuses (team d))
  then set_statuses (map (λ s, if same s then r else s) (statuses (team d))) d
  else set_statuses (statuses (team d) ++ [r]) d.

Definition long (n : nat) (s : string) : bool := Nat.ltb n (String.length s).

Definition set_status (now : Z) (op : SignedOp) : tx unit :=
  arg ← lift (StatusArg_parse (o_arg op));
  guard (is_empty_str (sa_state arg) || long 64 (sa_state arg))
    (Invalid "status state must be 1..=64 bytes") ≫= λ _,
  guard (long 64 (sa_harness arg)) (Invalid "status harness longer than 64 bytes") ≫= λ _,
  guard (long 512 (sa_folder arg)) (Invalid "status folder longer than 512 bytes") ≫= λ _,
  guard (long 512 (sa_matter arg)) (Invalid "status matter longer than 512 bytes") ≫= λ _,
  role ← authorize now op "status.set";
  need role Worker ≫= λ _,
  require_own_subject op ≫= λ _,
  execute (upsert_status (mk_status_row (o_actor op) (sa_harness arg) (sa_state arg) (sa_folder arg)
    (sa_matter arg) now)) ≫= λ _,
  append now (actor_hex op) "status.set" (actor_hex op)
    (VObject [("state", VString (sa_state arg)); ("harness", VString (sa_harness arg))]) ≫= λ _,
  mret tt.

Definition clear_status (now : Z) (op : SignedOp) : tx unit :=
  arg ← lift (StatusArg_parse (o_arg op));
  guard (long 64 (sa_harness arg)) (Invalid "status harness longer than 64 bytes") ≫= λ _,
  role ← authorize now op "status.clear";
  need role Worker ≫= λ _,
  require_own_subject op ≫= λ _,
  there ← query (λ d, existsb (same_status (o_actor op) (sa_harness arg)) (statuses (team d)));
  execute (λ d, set_statuses (List.filter (λ s, negb (same_status (o_actor op) (sa_harness arg) s))
    (statuses (team d))) d) ≫= λ _,
  if (there : bool)
  then append now (actor_hex op) "status.cleared" (actor_hex op)
         (VObject [("harness", VString (sa_harness arg))]) ≫= λ _, mret tt
  else mret tt.

Definition status_order (a b : status_row) : comparison :=
  then_with (Z.compare (su_ts b) (su_ts a))
    (then_with (String.compare (su_pk a) (su_pk b)) (String.compare (su_harness a) (su_harness b))).

(** [SELECT 1 FROM channel_members a JOIN channel_members b ON b.channel=a.channel …]. *)
Definition share_channel (a b : string) (d : db) : bool :=
  existsb (λ m, String.eqb (m_pubkey m) a && is_member (m_channel m) b d) (members d).

Definition status_record (s : status_row) : result StoreError StatusRow :=
  if Nat.eqb (String.length (su_pk s)) 32
  then Ok (mk_status (hex (su_pk s)) (pseudonym (su_pk s)) (su_state s) (su_harness s) (su_folder s)
             (su_matter s) (su_ts s))
  else Err (Invalid "corrupt status key in database").

Definition status_rows (keep : status_row → db → bool) : tx (list StatusRow) :=
  rows ← query (λ d, sort_by status_order (List.filter (λ s, keep s d) (statuses (team d))));
  lift (try_map status_record rows).

Definition statuses_of (reader : string) : tx (list StatusRow) :=
  role_of reader ≫= λ _,
  status_rows (λ s d, String.eqb (su_pk s) reader || share_channel (su_pk s) reader d).

Definition all_statuses (reader : string) : tx (list StatusRow) :=
  role ← role_of reader;
  need role Supervisor ≫= λ _,
  status_rows (λ _ _, true).
End Statuses.

(** ** What holds of the tables *)

(** One sprint: absent, or in a state. *)
Inductive sprint_life : option string → option string → Prop :=
| sprint_plan : sprint_life None (Some "planned")
| sprint_begin : sprint_life (Some "planned") (Some "active")
| sprint_end : sprint_life (Some "active") (Some "closed").

Definition sprint_at (id : string) (d : db) : option string := sn_state <$> find_sprint id d.

(** Every sprint is as it was or took one step. *)
Definition sprint_step (d d' : db) : Prop :=
  ∀ id, sprint_at id d' = sprint_at id d ∨ sprint_life (sprint_at id d) (sprint_at id d').

Definition status_key (s : status_row) : string * string := (su_pk s, su_harness s).

(** Sprints are unique, end after they start and have a state, and one is
    active at most; a card of a sprint exists and is in it once; a status is one
    of an identity's, of bounded length, and unique for its harness. *)
Record team_wf (d : db) : Prop := {
  te_ids : NoDup (sn_id <$> sprints (team d));
  te_sprint s : s ∈ sprints (team d) →
    (sn_starts s < sn_ends s)%Z ∧ sn_state s ∈ ["planned"; "active"; "closed"];
  te_active s s' : s ∈ sprints (team d) → s' ∈ sprints (team d) →
    sn_state s = "active" → sn_state s' = "active" → s = s';
  te_pairs : NoDup (sprint_cards (team d));
  te_known p : p ∈ sprint_cards (team d) →
    (∃ s, s ∈ sprints (team d) ∧ sn_id s = p.1) ∧ (∃ c, c ∈ cards d ∧ c_id c = p.2);
  te_keys : NoDup (status_key <$> statuses (team d));
  te_status s : s ∈ statuses (team d) →
    (∃ i, i ∈ identities d ∧ i_pubkey i = su_pk s) ∧ (0 < String.length (su_state s) ≤ 64) ∧
    String.length (su_harness s) ≤ 64 ∧ String.length (su_folder s) ≤ 512 ∧ String.length (su_matter s) ≤ 512 }.

Lemma find_sprint_Some id d s : find_sprint id d = Some s → s ∈ sprints (team d) ∧ sn_id s = id.
Proof.
  unfold find_sprint. destruct (list_find _ _) as [[n x]|] eqn:E; [|done]. intros [= <-].
  apply list_find_Some in E as (Hl & Hid & _). split; [by eapply list_elem_of_lookup_2|done].
Qed.

Lemma find_sprint_None id d s : find_sprint id d = None → s ∈ sprints (team d) → sn_id s ≠ id.
Proof.
  unfold find_sprint. destruct (list_find _ _) as [[n x]|] eqn:E; [done|].
  intros _. apply list_find_None in E. rewrite Forall_forall in E. apply E.
Qed.

Lemma sprint_state_Ok id d st d' :
  sprint_state id d = Ok (st, d') → d' = d ∧ ∃ s, find_sprint id d = Some s ∧ sn_state s = st.
Proof.
  unfold sprint_state. intros H. step query_Ok in H as row [-> ->]. apply lift_Ok in H as [H ->].
  destruct (find_sprint id d) as [s|]; [|done]. injection H as <-. eauto.
Qed.

(** Cards and identities that stay keep the tables well formed. *)
Lemma team_wf_frame d d' :
  team d' = team d → (∀ c, c ∈ cards d → ∃ c', c' ∈ cards d' ∧ c_id c' = c_id c) →
  (∀ i, i ∈ identities d → ∃ i', i' ∈ identities d' ∧ i_pubkey i' = i_pubkey i) → team_wf d → team_wf d'.
Proof.
  intros E Hc Hi [H1 H2 H3 H4 H5 H6 H7]. constructor; rewrite E; try done.
  - intros p Hp. destruct (H5 p Hp) as [Hs (c & Hin & Ec)]. split; [done|].
    destruct (Hc c Hin) as (c' & ? & ?). exists c'. split; [done|congruence].
  - intros s Hs. destruct (H7 s Hs) as [(i & Hin & Ei) Hb]. split; [|done].
    destruct (Hi i Hin) as (i' & ? & ?). exists i'. split; [done|congruence].
Qed.

(** The changed sprint and the others. *)
Lemma sprint_update_ok d id s state :
  team_wf d → find_sprint id d = Some s →
  (sn_state s = "planned" ∧ state = "active" ∧ existsb sprint_active (sprints (team d)) = false ∨
   sn_state s = "active" ∧ state = "closed") →
  let d' := update_sprint id (with_sprint_state state) d in team_wf d' ∧ sprint_step d d'.
Proof.
  intros [H1 H2 H3 H4 H5 H6 H7] Hf Hst d'. pose proof (find_sprint_Some _ _ _ Hf) as [Hin Hid].
  set (g := λ x, if decide (sn_id x = id) then with_sprint_state state x else x).
  assert (sprints (team d') = map g (sprints (team d))) as Es by done.
  assert (∀ x, sn_id (g x) = sn_id x) as Hg by (intros x; unfold g; by case_decide).
  assert (∀ y, y ∈ map g (sprints (team d)) → ∃ x, x ∈ sprints (team d) ∧ y = g x) as Hel.
  { intros y (x & -> & Hx)%list_elem_of_fmap. eauto. }
  assert (∀ x, x ∈ sprints (team d) → sn_id x = id → x = s) as Hu.
  { intros x Hx E. apply (key_inj sn_id (sprints (team d))); [done..|congruence]. }
  split.
  - constructor; try done; rewrite Es.
    + by rewrite keys_update.
    + intros y (x & Hx & ->)%Hel. destruct (H2 x Hx) as [Hb Hin']. unfold g. case_decide as E; [|done].
      split; [done|]. cbn. destruct Hst as [(_ & -> & _)|[_ ->]]; set_solver.
    + assert (∀ x, x ∈ sprints (team d) → sn_state (g x) = "active" → x = s ∨ sn_state x = "active" ∧ sn_id x ≠ id) as Ha.
      { intros x Hx. unfold g. case_decide as E; [intros _; left; by apply Hu|by right]. }
      intros a b (x & Hx & ->)%Hel (y & Hy & ->)%Hel Ax Ay. f_equal.
      assert (∀ z, z ∈ sprints (team d) → sn_state z = "active" → sn_id z ≠ id → False) as Hno.
      { intros z Hz Az Hne. destruct Hst as [(_ & _ & Hex)|[As _]].
        - assert (existsb sprint_active (sprints (team d)) = true); [|congruence].
          apply existsb_elem. exists z. split; [done|]. by apply String.eqb_eq.
        - apply Hne. rewrite (H3 z s) by done. done. }
      destruct (Ha x Hx Ax) as [->|[? ?]], (Ha y Hy Ay) as [->|[? ?]]; try done; exfalso; eauto.
    + intros p Hp. destruct (H5 p Hp) as [(x & Hx & Ex) Hc]. split; [|done]. exists (g x). rewrite Hg.
      split; [by apply list_elem_of_fmap_2|done].
  - intros i. unfold sprint_at, find_sprint. rewrite Es, (find_map sn_id g) by done.
    destruct (decide (i = id)) as [->|Hne].
    + right. unfold find_sprint in Hf. rewrite Hf. cbn. unfold g. rewrite decide_True by done. cbn.
      destruct Hst as [(-> & -> & _)|[-> ->]]; constructor.
    + left. destruct (list_find _ _) as [[n x]|] eqn:E; [|done]. cbn. unfold g. rewrite decide_False; [done|].
      apply list_find_Some in E as (_ & E & _). congruence.
Qed.

Section Operations.
Context `{P : Prims} `{J : JsonText}.

(** One statement of an operation that committed. *)
Ltac tstep H :=
  first [step authorize_Ok in H as ?role [?Hau ->] | step need_Ok in H as ? [-> ?Hneed]
    | step guard_Ok in H as ? [?Hg ->] | step lift_Ok in H as ?a [?Hl ->] | step query_Ok in H as ? [-> ->]
    | step execute_Ok in H as ? -> | step append_Ok in H as ? -> | apply mret_Ok in H as [_ ->]].

Lemma team_wf_nonce now op d : team_wf d → team_wf (with_nonce now op d).
Proof. by intros []. Qed.

Lemma create_sprint_ok now op d u d' :
  team_wf d → create_sprint now op d = Ok (u, d') → team_wf d' ∧ sprint_step d d'.
Proof.
  intros Hwf H. unfold create_sprint, require_sprint_id in H. do 3 tstep H. tstep H.
  destruct a as [[[name goal] starts] ends]. repeat tstep H. apply Z.leb_gt in Hg0.
  apply bool_decide_eq_false, eq_None_not_Some in Hg1.
  destruct Hwf as [H1 H2 H3 H4 H5 H6 H7]. set (s := mk_sprint_row (o_subject op) name goal starts ends "planned").
  assert (∀ z, z ∈ sprints (team d) ++ [s] ↔ z ∈ sprints (team d) ∨ z = s) as Hel.
  { intros z. by rewrite elem_of_app, list_elem_of_singleton. }
  split.
  - constructor; cbn -[status_key]; fold s; try done.
    + apply keys_insert; [done|]. intros z Hz. by apply (find_sprint_None _ _ _ Hg1).
    + intros z [Hz| ->]%Hel; [by apply H2|]. split; [done|]. cbn. set_solver.
    + intros z y [Hz| ->]%Hel [Hy| ->]%Hel; try done. by apply H3.
    + intros p Hp. destruct (H5 p Hp) as [(z & Hz & Ez) Hc]. split; [|done]. exists z. rewrite Hel. auto.
  - intros id.
    assert (find_sprint id (set_sprints (sprints (team d) ++ [s]) d) =
      match find_sprint id d with Some y => Some y | None => if decide (sn_id s = id) then Some s else None end) as E
      by (apply (find_app sn_id)).
    change (sprint_at id (set_sprints (sprints (team d) ++ [s]) d) = sprint_at id d ∨
      sprint_life (sprint_at id d) (sprint_at id (set_sprints (sprints (team d) ++ [s]) d))).
    unfold sprint_at. rewrite E. destruct (find_sprint id d); [by left|]. case_decide; [right; constructor|by left].
Qed.

Lemma add_to_sprint_ok now op d u d' :
  team_wf d → add_to_sprint now op d = Ok (u, d') → team_wf d' ∧ sprint_step d d'.
Proof.
  intros Hwf H. unfold add_to_sprint, require_sprint_id, ensure_card in H. do 4 tstep H.
  step require_card_Ok in H as ? (-> & c & Hc & Ec). step sprint_state_Ok in H as st (-> & s & Hs & Es).
  do 2 tstep H. destruct (bool_decide _) eqn:Hin; repeat tstep H.
  { split; [by destruct Hwf|by left]. }
  apply bool_decide_eq_false in Hin. split; [|by left]. destruct Hwf as [H1 H2 H3 H4 H5 H6 H7].
  constructor; try done; cbn.
  - apply NoDup_app. split_and!; [done| |apply NoDup_singleton]. intros p Hp ->%list_elem_of_singleton. done.
  - intros p [Hp| ->%list_elem_of_singleton]%elem_of_app; [by apply H5|]. cbn.
    apply find_sprint_Some in Hs. split; eauto.
Qed.

Lemma start_sprint_ok now op d u d' :
  team_wf d → start_sprint now op d = Ok (u, d') → team_wf d' ∧ sprint_step d d'.
Proof.
  intros Hwf H. unfold start_sprint, require_sprint_id in H. do 3 tstep H.
  step sprint_state_Ok in H as st (-> & s & Hs & Es). repeat tstep H.
  apply negb_false_iff, String.eqb_eq in Hg0. subst st.
  destruct (sprint_update_ok (with_nonce now op d) (o_subject op) s "active") as [Hw Hst];
    [by apply team_wf_nonce|done|left; done|]. split; [by destruct Hw|exact Hst].
Qed.

Lemma close_sprint_ok now op d u d' :
  team_wf d → close_sprint now op d = Ok (u, d') → team_wf d' ∧ sprint_step d d'.
Proof.
  intros Hwf H. unfold close_sprint, require_sprint_id in H. do 3 tstep H.
  step sprint_state_Ok in H as st (-> & s & Hs & Es). repeat tstep H.
  apply negb_false_iff, String.eqb_eq in Hg0. subst st.
  destruct (sprint_update_ok (with_nonce now op d) (o_subject op) s "closed") as [Hw Hst];
    [by apply team_wf_nonce|done|right; done|]. split; [by destruct Hw|exact Hst].
Qed.
Lemma same_status_true pk h s : same_status pk h s = true ↔ status_key s = (pk, h).
Proof.
  unfold same_status, status_key. rewrite andb_true_iff, !String.eqb_eq. split; [by intros [-> ->]|by intros [= -> ->]].
Qed.

Lemma same_status_false pk h s : same_status pk h s = false ↔ status_key s ≠ (pk, h).
Proof. rewrite <- same_status_true. by destruct (same_status pk h s). Qed.

Lemma long_false n s : long n s = false → String.length s ≤ n.
Proof. unfold long. intros H%Nat.ltb_ge. done. Qed.

Lemma map_keys (r : status_row) t :
  status_key <$> map (λ s, if same_status (su_pk r) (su_harness r) s then r else s) t = status_key <$> t.
Proof.
  apply keys_update. intros s. destruct (same_status _ _ s) eqn:E; [|done]. by apply same_status_true in E.
Qed.

(** A status that was set is the only one of its key and harness. *)
Lemma elem_of_upsert r d s :
  s ∈ statuses (team (upsert_status r d)) → s = r ∨ s ∈ statuses (team d) ∧ status_key s ≠ status_key r.
Proof.
  unfold upsert_status. destruct (existsb _ _) eqn:Eb; cbn.
  - intros (z & -> & Hz)%list_elem_of_fmap. destruct (same_status _ _ z) eqn:E; [by left|right].
    by apply same_status_false in E.
  - intros [Hs| ->%list_elem_of_singleton]%elem_of_app; [right|by left]. split; [done|].
    apply (existsb_none _ _ s) in Eb; [|done]. by apply same_status_false.
Qed.

Lemma upsert_status_in r d : r ∈ statuses (team (upsert_status r d)).
Proof.
  unfold upsert_status. destruct (existsb _ _) eqn:Eb; cbn; [|apply elem_of_app; right; by left].
  apply existsb_elem in Eb as (s & Hs & E). apply list_elem_of_fmap. exists s. by rewrite E.
Qed.

Lemma upsert_status_keys r d :
  NoDup (status_key <$> statuses (team d)) → NoDup (status_key <$> statuses (team (upsert_status r d))).
Proof.
  intros Hd. unfold upsert_status. destruct (existsb _ _) eqn:Eb; cbn -[status_key].
  - by rewrite map_keys.
  - apply keys_insert; [done|]. intros s Hs. apply (existsb_none _ _ s) in Eb; [|done]. by apply same_status_false.
Qed.

Lemma set_status_Ok now op d u d' :
  set_status now op d = Ok (u, d') → ∃ role arg data,
    authorized now op "status.set" role d ∧ StatusArg_parse (o_arg op) = Ok arg ∧
    o_subject op = actor_hex op ∧ role_le Worker role = true ∧
    (0 < String.length (sa_state arg) ≤ 64) ∧ String.length (sa_harness arg) ≤ 64 ∧
    String.length (sa_folder arg) ≤ 512 ∧ String.length (sa_matter arg) ≤ 512 ∧
    d' = logged now (actor_hex op) "status.set" (actor_hex op) data
           (upsert_status (mk_status_row (o_actor op) (sa_harness arg) (sa_state arg) (sa_folder arg)
              (sa_matter arg) now) (with_nonce now op d)).
Proof.
  unfold set_status, require_own_subject. intros H. repeat tstep H.
  apply orb_false_iff in Hg as [He Hs]. apply negb_false_iff, String.eqb_eq in Hg3.
  do 3 eexists. split_and!; try done; eauto using long_false. destruct (sa_state a); [done|cbn; lia].
Qed.

Lemma set_status_ok now op d u d' :
  team_wf d → set_status now op d = Ok (u, d') → team_wf d' ∧ sprint_step d d'.
Proof.
  intros Hwf H. destruct (set_status_Ok _ _ _ _ _ H) as (role & arg & data & Hau & _ & _ & _ & Hl1 & Hl2 & Hl3 & Hl4 & ->).
  set (r := mk_status_row _ _ _ _ _ _). destruct Hwf as [H1 H2 H3 H4 H5 H6 H7].
  assert (∀ d, sprints (team (upsert_status r d)) = sprints (team d) ∧
    sprint_cards (team (upsert_status r d)) = sprint_cards (team d) ∧ cards (upsert_status r d) = cards d ∧
    identities (upsert_status r d) = identities d) as Hsame.
  { intros z. unfold upsert_status. by destruct (existsb _ _). }
  destruct (Hsame (with_nonce now op d)) as (E1 & E2 & E3 & E4).
  split; [|intros id; left; unfold sprint_at, find_sprint; cbn; by rewrite E1].
  constructor; cbn -[status_key upsert_status]; rewrite ?E1, ?E2, ?E3, ?E4; try done.
  - by apply upsert_status_keys.
  - intros s [->|[Hs _]]%elem_of_upsert; [|by apply H7]. cbn. split_and!; try done; [|lia..].
    destruct (au_role _ _ _ _ _ Hau) as (i & Hi & _). apply find_ident_Some in Hi as [? ?]. eauto.
Qed.

Lemma clear_status_ok now op d u d' :
  team_wf d → clear_status now op d = Ok (u, d') → team_wf d' ∧ sprint_step d d'.
Proof.
  intros Hwf H.
  assert (∃ keep, statuses (team d') = List.filter keep (statuses (team d)) ∧ sprints (team d') = sprints (team d) ∧
    sprint_cards (team d') = sprint_cards (team d) ∧ cards d' = cards d ∧ identities d' = identities d)
    as (keep & Es & E1 & E2 & E3 & E4).
  { unfold clear_status, require_own_subject in H. do 7 tstep H. destruct (existsb _ _); repeat tstep H; by eexists. }
  split; [|intros id; left; unfold sprint_at, find_sprint; by rewrite E1].
  destruct Hwf as [H1 H2 H3 H4 H5 H6 H7]. constructor; rewrite ?E1, ?E2, ?E3, ?E4, ?Es; try done.
  - eapply sublist_NoDup; [exact H6|]. apply fmap_sublist, bool_filter_sublist.
  - intros s [Hs _]%list_elem_of_In%List.filter_In. apply H7. by apply list_elem_of_In.
Qed.

(** Both status operations read their argument before the envelope. *)
Lemma set_status_nonces now op d u d' :
  set_status now op d = Ok (u, d') → ∃ kind role, authorized now op kind role d ∧ nonces d' = nonces (with_nonce now op d).
Proof.
  intros (role & arg & data & Hau & _ & _ & _ & _ & _ & _ & _ & ->)%set_status_Ok. exists "status.set", role. split; [done|].
  unfold upsert_status. by destruct (existsb _ _).
Qed.

Lemma clear_status_nonces now op d u d' :
  clear_status now op d = Ok (u, d') → ∃ kind role, authorized now op kind role d ∧ nonces d' = nonces (with_nonce now op d).
Proof.
  unfold clear_status, require_own_subject. intros H. do 7 tstep H.
  destruct (existsb _ _); repeat tstep H; exists "status.clear", role; done.
Qed.

(** ** Who reads a status *)

Lemma share_channel_true a b d :
  share_channel a b d = true ↔ ∃ m m', m ∈ members d ∧ m' ∈ members d ∧ m_channel m = m_channel m' ∧
    m_pubkey m = a ∧ m_pubkey m' = b.
Proof.
  unfold share_channel, is_member. rewrite existsb_elem. split.
  - intros (m & Hm & [Ha (m' & Hm' & Hb)%existsb_elem]%andb_true_iff). apply String.eqb_eq in Ha.
    apply bool_decide_eq_true in Hb as [? ?]. exists m, m'. split_and!; done.
  - intros (m & m' & Hm & Hm' & Ec & <- & <-). exists m. split; [done|]. rewrite String.eqb_refl. cbn.
    apply existsb_elem. exists m'. split; [done|]. by apply bool_decide_eq_true.
Qed.

Lemma status_records l :
  (∀ s, s ∈ l → String.length (su_pk s) = 32) → ∃ out, try_map status_record l = Ok out ∧
  ∀ r, r ∈ out ↔ ∃ s, s ∈ l ∧ r = mk_status (hex (su_pk s)) (pseudonym (su_pk s)) (su_state s) (su_harness s)
    (su_folder s) (su_matter s) (su_ts s).
Proof.
  induction l as [|s l IH]; intros Hl; [exists []; split; [done|]; intros r; set_solver|].
  destruct IH as (out & E & Hout); [intros; apply Hl; by right|]. eexists. split.
  - cbn [try_map]. rewrite E. unfold status_record. rewrite (Hl s) by (by left). reflexivity.
  - intros r. rewrite elem_of_cons, Hout. setoid_rewrite elem_of_cons. naive_solver.
Qed.

(** What a reader gets: exactly the statuses of its own key and of the keys that
    are in a channel with it. *)
Lemma statuses_of_spec reader role d :
  team_wf d → (∀ i, i ∈ identities d → String.length (i_pubkey i) = 32) → active_role reader d = Ok (role, d) →
  ∃ out, statuses_of reader d = Ok (out, d) ∧ ∀ r, r ∈ out ↔ ∃ s, s ∈ statuses (team d) ∧
    (su_pk s = reader ∨ ∃ m m', m ∈ members d ∧ m' ∈ members d ∧ m_channel m = m_channel m' ∧
       m_pubkey m = su_pk s ∧ m_pubkey m' = reader) ∧
    r = mk_status (hex (su_pk s)) (pseudonym (su_pk s)) (su_state s) (su_harness s) (su_folder s) (su_matter s)
          (su_ts s).
Proof.
  intros Hwf Hk Hr.
  set (keep := λ s, String.eqb (su_pk s) reader || share_channel (su_pk s) reader d).
  destruct (status_records (sort_by status_order (List.filter keep (statuses (team d))))) as (out & E & Hout).
  { intros s Hs. apply elem_of_sort_by, list_elem_of_In, List.filter_In in Hs as [Hs%list_elem_of_In _].
    destruct (te_status d Hwf s Hs) as [(i & Hi & <-) _]. by apply Hk. }
  exists out. split.
  - unfold statuses_of, role_of, status_rows, mbind, tx_bind, query, lift. rewrite Hr. fold keep. by rewrite E.
  - intros r. rewrite Hout. split; intros (s & Hs & H).
    + apply elem_of_sort_by, list_elem_of_In, List.filter_In in Hs as [Hs%list_elem_of_In Hkeep].
      exists s. split; [done|]. split; [|done]. apply orb_true_iff in Hkeep as [Hb|Hb].
      * left. by apply String.eqb_eq.
      * right. by apply share_channel_true.
    + destruct H as [Hv ->]. exists s. split; [|done]. apply elem_of_sort_by, list_elem_of_In, List.filter_In.
      split; [by apply list_elem_of_In|]. apply orb_true_iff. destruct Hv as [Hv|Hv].
      * left. by apply String.eqb_eq.
      * right. by apply share_channel_true.
Qed.
End Operations.

(** ** Totals of a sprint *)

Lemma filter_split (s : string) (l : list string) :
  length l = length (filter (λ x, x = s) l) + length (filter (λ x, x ≠ s) l).
Proof. induction l as [|x l IH]; [done|]. rewrite !filter_cons. repeat case_decide; cbn; try done; lia. Qed.

Lemma count_of_other s t l : s ≠ t → count_of s (filter (λ x, x ≠ t) l) = count_of s l.
Proof.
  intros Hne. unfold count_of. do 2 f_equal. induction l as [|x l IH]; [done|].
  rewrite !filter_cons. repeat case_decide; rewrite ?filter_cons; repeat case_decide; try congruence; done.
Qed.

(** The groups partition the rows. *)
Lemma counts_sum ks l :
  NoDup ks → (∀ x, x ∈ l → x ∈ ks) → foldr (λ s n, count_of s l + n)%Z 0%Z ks = Z.of_nat (length l).
Proof.
  revert l. induction ks as [|k ks IH]; intros l Hd Hin.
  { destruct l as [|x l]; [done|]. exfalso. assert (x ∈ []) as H by (apply Hin; by left). by apply elem_of_nil in H. }
  apply NoDup_cons in Hd as [Hk Hd]. cbn [foldr].
  assert (∀ js, k ∉ js → foldr (λ s n, count_of s l + n)%Z 0%Z js =
    foldr (λ s n, count_of s (filter (λ x, x ≠ k) l) + n)%Z 0%Z js) as Hsame.
  { intros js. induction js as [|j js IHj]; [done|]. intros Hj%not_elem_of_cons. cbn.
    rewrite count_of_other, IHj by naive_solver. done. }
  rewrite Hsame by done. rewrite IH; [|done|].
  - rewrite (filter_split k l). unfold count_of. lia.
  - intros x [Hne Hx]%list_elem_of_filter. apply Hin in Hx. apply elem_of_cons in Hx. naive_solver.
Qed.

Lemma add_count_le o s n :
  (0 ≤ n)%Z → let o' := add_count o (s, n) in (ss_total o' = ss_total o + n)%Z ∧
    (ss_done o' + ss_in_flight o' + ss_blocked o' - ss_total o' ≤
     ss_done o + ss_in_flight o + ss_blocked o - ss_total o)%Z.
Proof. intros Hn. unfold add_count. repeat case_match; cbn; lia. Qed.

(** The total of a sprint is the number of its cards, and the three other
    counts are parts of it. *)
Lemma sprint_summary_total sprint d out d' :
  sprint_summary sprint d = Ok (out, d') →
  d' = d ∧ ss_total out = Z.of_nat (length (sprint_states sprint d)) ∧
  (ss_done out + ss_in_flight out + ss_blocked out ≤ ss_total out)%Z.
Proof.
  unfold sprint_summary. intros H. step sprint_state_Ok in H as st (-> & _). step query_Ok in H as rows [-> ->].
  apply mret_Ok in H as [-> ->]. split; [done|]. set (l := sprint_states sprint d).
  assert (∀ rows o, (∀ r, r ∈ rows → 0 ≤ r.2)%Z →
    let o' := foldl add_count o rows in
    (ss_total o' = ss_total o + foldr (λ r n, r.2 + n) 0 rows)%Z ∧
    (ss_done o' + ss_in_flight o' + ss_blocked o' - ss_total o' ≤
     ss_done o + ss_in_flight o + ss_blocked o - ss_total o)%Z) as Hfold.
  { clear. intros rows. induction rows as [|[s n] rows IH]; intros o Hp; cbn [foldl foldr]; [lia|].
    assert (0 ≤ n)%Z as Hn by (apply (Hp (s, n)); by left).
    destruct (IH (add_count o (s, n))) as [E1 E2]; [intros; apply Hp; by right|].
    destruct (add_count_le o s n Hn) as [F1 F2]. cbn in *. lia. }
  destruct (Hfold (grouped l) (mk_summary 0 0 0 0)) as [E1 E2].
  { intros r (s & -> & _)%list_elem_of_fmap. cbn. unfold count_of. lia. }
  cbn in E1, E2. split; [|lia]. rewrite E1, Z.add_0_l. rewrite <- (counts_sum (sort_by String.compare (remove_dups l)) l).
  - unfold grouped. induction (sort_by String.compare (remove_dups l)) as [|k ks IH]; [done|]. cbn. f_equal. exact IH.
  - rewrite sort_by_perm. apply NoDup_remove_dups.
  - intros x Hx. by apply elem_of_sort_by, elem_of_remove_dups.
Qed.
