(* ===== verification/Reconcile.v ===== *)
(** * The reconciler's plan

    [src/crates/agora-sched/src/reconcile.rs], [reconcile/claims.rs] and
    [reconcile/floors.rs]: from a snapshot of the store, the actions of one pass.
    A rule is the list of the actions it pushes, in order; [plan] pushes them. *)

From Stdlib Require Import Ascii.
From S2P Require Import Prelude F64 Strs PyFmt TextFmt Bytes Core Task Graph Claims Settings Predict Admit StoreDb.
From S2P Require Import Identity Leases Policy.

(** ** Data *)

Record CardSnap : Type := mk_card_snap {
  cs_id : string; cs_title : string; cs_team : string; cs_lane : string; cs_state : string;
  cs_owner : option string; cs_updated_ms : Z }.

Record SprintSnap : Type := mk_sprint_snap {
  sn_snap_id : string; sn_snap_name : string; sn_snap_ends_ms : Z; sn_snap_state : string;
  sn_snap_open_cards : Z }.

Record Mark : Type := mk_mark { mark_key : string; mark_last_ms : Z; mark_count : Z }.

Record ClaimSnap : Type := mk_claim_snap {
  cm_task : string; cm_agent : string; cm_claimed_ms : Z; cm_title : string }.

Record PolicyRecord : Type := mk_policy_record {
  po_team : string; po_lane : string; po_policy : TeamPolicy; po_updated_ms : Z; po_by : string }.

Record ReconcileInput : Type := mk_reconcile_input {
  ri_now_ms : Z;
  ri_settings : WorkSettings;
  ri_machine : option MachineSnapshot;
  ri_cards : list CardSnap;
  ri_leases : list LeaseRecord;
  ri_policies : list PolicyRecord;
  ri_require_review_default : bool;
  ri_marks : list Mark;
  ri_supervisors : list string;
  ri_admission_paused : option string;
  ri_blocker_card : option string;
  ri_sprints : list SprintSnap;
  ri_claims : list ClaimSnap }.

Inductive ReconcileAction : Type :=
| ExpireLease (key lease : string)
| ExpireClaim (key task agent : string) (claimed_ms : Z) (notice_key text : string)
| CloseQuiet (key lease : string)
| Notice (key target kind subject text : string)
| ReclaimCard (key card owner : string)
| Blocker (key : string) (open : bool) (title owner_action : string)
| Admission (key : string) (paused : option string).

Definition action_key (a : ReconcileAction) : string :=
  match a with
  | ExpireLease key _ | ExpireClaim key _ _ _ _ _ | CloseQuiet key _ | Notice key _ _ _ _
  | ReclaimCard key _ _ | Blocker key _ _ _ | Admission key _ => key
  end.

Definition op_kind (a : ReconcileAction) : string :=
  match a with
  | ExpireLease _ _ => "reconcile.expire"
  | ExpireClaim _ _ _ _ _ _ => "reconcile.claim_expire"
  | CloseQuiet _ _ => "reconcile.quiet_close"
  | Notice _ _ _ _ _ => "reconcile.notice"
  | ReclaimCard _ _ _ => "reconcile.reclaim"
  | Blocker _ _ _ _ => "reconcile.blocker"
  | Admission _ _ => "reconcile.admission"
  end.

#[export] Instance LeaseKind_eq_dec : EqDecision LeaseKind.
Proof. solve_decision. Defined.

Definition MAX_ACTIONS_PER_PASS : nat := 64.
Definition MAX_CLAIM_EXPIRIES_PER_PASS : nat := 16.

(** [pk.get(..8).unwrap_or(pk)]: eight bytes, when a character ends there. *)
Definition is_continuation (c : byte) : bool :=
  let n := Z.of_N (N_of_ascii c) in (128 <=? n)%Z && (n <=? 191)%Z.

Definition short_key (pk : string) : string :=
  match str_drop 8 pk with
  | "" => pk
  | String c _ => if is_continuation c then pk else str_take 8 pk
  end.

(** ** Floors *)

Record Breach : Type := mk_breach {
  br_resource : string; br_value : string; br_floor : string; br_text : string }.

Definition disk_breach (machine : MachineSnapshot) (s : WorkSettings) : list Breach :=
  match disk_free_kib machine, disk_floor_kib s with
  | Some free, Some floor =>
      if (free <? floor)%Z
      then [mk_breach "disk space" (gib free) (gib floor)
              ("disk free " +:+ gib free +:+ " below the floor of " +:+ gib floor)]
      else []
  | _, _ => []
  end.

Definition memory_breach (machine : MachineSnapshot) (s : WorkSettings) : list Breach :=
  match total_memory_kib machine, m_signals machine ≫= memory_used_kib, memory_floor_kib s with
  | Some total, Some used, Some floor =>
      let available := sat_u64 (total - used) in
      if (available <? floor)%Z
      then [mk_breach "memory" (gib available) (gib floor)
              ("available memory " +:+ gib available +:+ " below the floor of " +:+ gib floor)]
      else []
  | _, _, _ => []
  end.

Definition cpu_breach (machine : MachineSnapshot) (s : WorkSettings) : list Breach :=
  match m_signals machine ≫= idle_pct, idle_floor_pct s with
  | Some idle, Some floor =>
      if f_lt idle floor
      then let value := fmt_fixed idle 0 +:+ "%" in
           let floor := fmt_fixed floor 0 +:+ "%" in
           [mk_breach "CPU" value floor ("CPU " +:+ value +:+ " idle below the floor of " +:+ floor)]
      else []
  | _, _ => []
  end.

Definition breaches (i : ReconcileInput) : list Breach :=
  match ri_machine i with
  | None => []
  | Some machine =>
      let s := ri_settings i in disk_breach machine s ++ memory_breach machine s ++ cpu_breach machine s
  end.

Definition floor_owner_action (l : list Breach) : string :=
  join "; " ((λ b, "free " +:+ br_resource b +:+ " (" +:+ br_value b +:+ " < floor " +:+ br_floor b +:+ ")") <$> l)
  +:+ " — admission is paused until then".

(** ** The planner *)

(** The keys of the actions emitted so far, and the actions. *)
Record Planner : Type := mk_planner { pl_emitted : list string; pl_out : list ReconcileAction }.

Section Rules.
Context (i : ReconcileInput).

Definition planner_marks : list string := mark_key <$> ri_marks i.

Definition policy_order (a b : PolicyRecord) : comparison :=
  then_with (String.compare (po_team a) (po_team b))
    (then_with (String.compare (po_lane a) (po_lane b))
      (then_with (Z.compare (po_updated_ms a) (po_updated_ms b)) (String.compare (po_by a) (po_by b)))).

(** The last of the sorted records for a team and lane. *)
Definition planner_policy (key : string * string) : option TeamPolicy :=
  po_policy <$> last (filter (λ p, po_team p = key.1 ∧ po_lane p = key.2) (sort_by policy_order (ri_policies i))).

Fixpoint dedup_sorted (l : list string) : list string :=
  match l with
  | [] => []
  | x :: l' => match l' with
               | y :: _ => if String.eqb x y then dedup_sorted l' else x :: dedup_sorted l'
               | [] => [x]
               end
  end.

Definition planner_supervisors : list string := dedup_sorted (sort_by String.compare (ri_supervisors i)).

Definition push (p : Planner) (a : ReconcileAction) : Planner :=
  if Nat.leb MAX_ACTIONS_PER_PASS (length (pl_out p)) || bool_decide (action_key a ∈ planner_marks) then p
  else if bool_decide (action_key a ∈ pl_emitted p) then p
  else mk_planner (action_key a :: pl_emitted p) (pl_out p ++ [a]).

Definition planner_effective (team lane : string) : EffectivePolicy :=
  effective (omap planner_policy [("*", "*"); (team, "*"); ("*", lane); (team, lane)])
    (ri_require_review_default i).

Definition global_policy : EffectivePolicy :=
  effective (omap planner_policy [("*", "*")]) (ri_require_review_default i).

(** R1. *)
Definition lease_overdue (l : LeaseRecord) : bool :=
  bool_decide (lr_kind l ≠ KQuiet) && bool_decide (lr_released_ms l = None)
  && from_option (λ at_ms, at_ms <=? ri_now_ms i)%Z false (lr_expires_ms l).

Definition expire_leases : list ReconcileAction :=
  (λ l, ExpireLease ("expire:" +:+ lr_id l +:+ ":" +:+ dec (default 0%Z (lr_expires_ms l))) (lr_id l)) <$>
  sort_by (λ a b, String.compare (lr_id a) (lr_id b)) (List.filter lease_overdue (ri_leases i)).

(** R7. *)
Definition expiry_key (c : ClaimSnap) : string := "claim:" +:+ cm_task c +:+ ":" +:+ dec (cm_claimed_ms c).

Definition claim_overdue (ttl_ms : Z) (c : ClaimSnap) : bool :=
  (sat_i64 (cm_claimed_ms c + ttl_ms) <=? ri_now_ms i)%Z && negb (bool_decide (expiry_key c ∈ planner_marks)).

Definition expire_claims : list ReconcileAction :=
  let ttl_s := claim_ttl_s (ri_settings i) in
  if negb (is_finite ttl_s) || f_le ttl_s f_zero then []
  else
    let ttl_ms := f_as_i64 (ttl_s * f_of_Z 1000)%f64 in
    let ttl := fmt_prec ttl_s 0 in
    (λ c, ExpireClaim (expiry_key c) (cm_task c) (cm_agent c) (cm_claimed_ms c)
            ("claim-notice:" +:+ cm_task c +:+ ":" +:+ dec (cm_claimed_ms c))
            ("claim on task " +:+ cm_task c +:+ " (" +:+ cm_title c +:+ ") expired after " +:+ ttl
             +:+ "s without a run request; it is back in the queue")) <$>
    take MAX_CLAIM_EXPIRIES_PER_PASS
      (sort_by (λ a b, then_with (Z.compare (cm_claimed_ms a) (cm_claimed_ms b))
                         (String.compare (cm_task a) (cm_task b)))
        (List.filter (claim_overdue ttl_ms) (ri_claims i))).

(** R2. *)
Definition quiet_overdue (l : LeaseRecord) : bool :=
  let grace_ms := (quiet_max (ri_settings i) * f_of_Z 1000)%f64 in
  bool_decide (lr_kind l = KQuiet) && bool_decide (lr_released_ms l = None)
  && from_option (λ at_ms, f_le (f_of_Z at_ms + grace_ms)%f64 (f_of_Z (ri_now_ms i))) false (lr_expected_end_ms l).

Definition close_quiet_windows : list ReconcileAction :=
  (λ l, CloseQuiet ("quiet:" +:+ lr_id l +:+ ":" +:+ dec (default 0%Z (lr_expected_end_ms l))) (lr_id l)) <$>
  sort_by (λ a b, String.compare (lr_id a) (lr_id b)) (List.filter quiet_overdue (ri_leases i)).

(** R3. *)
Definition in_hand (state : string) : bool := String.eqb state "claimed" || String.eqb state "doing".

(** Each text once, at its first place. *)
Definition seen_once (l : list string) : list string :=
  foldl (λ acc x, if bool_decide (x ∈ acc) then acc else acc ++ [x]) [] l.

Definition idle_ms (c : CardSnap) : f64 := f_of_Z (sat_i64 (ri_now_ms i - cs_updated_ms c)).

Definition stale_card (c : CardSnap) (owner : string) : list ReconcileAction :=
  let eff := planner_effective (cs_team c) (cs_lane c) in
  let idle := idle_ms c in
  let idle_text := span (Some (idle / f_of_Z 1000)%f64) in
  let stamp := cs_id c +:+ ":" +:+ dec (cs_updated_ms c) in
  (if f_le (ef_stale_after_s eff * f_of_Z 1000)%f64 idle
   then [Notice ("stale1:" +:+ stamp) owner "stale" (cs_id c)
           ("card " +:+ cs_id c +:+ " (" +:+ cs_title c +:+ ") has been " +:+ cs_state c +:+ " for " +:+ idle_text
            +:+ " without activity; move it, add evidence, or release it")]
   else []) ++
  (if f_le ((ef_stale_after_s eff + ef_escalate_after_s eff) * f_of_Z 1000)%f64 idle
   then
     let chain := seen_once (ef_escalation_chain eff) in
     let targets := match chain with [] => planner_supervisors | _ => chain end in
     let tail := if ef_reclaim eff then "it will be reclaimed after " +:+ span (Some (ef_reclaim_after_s eff))
                 else "reclaim is off for this lane" in
     (λ target, Notice ("stale2:" +:+ stamp +:+ ":" +:+ target) target "escalation" (cs_id c)
        ("card " +:+ cs_id c +:+ " (" +:+ cs_title c +:+ ") owned by " +:+ short_key owner +:+ " has been "
         +:+ cs_state c +:+ " for " +:+ idle_text +:+ "; " +:+ tail)) <$> targets
   else []) ++
  (if ef_reclaim eff && f_le (ef_reclaim_after_s eff * f_of_Z 1000)%f64 idle
   then [Notice ("stale3:" +:+ stamp) owner "reclaimed" (cs_id c)
           ("card " +:+ cs_id c +:+ " (" +:+ cs_title c +:+ ") was reclaimed after " +:+ idle_text
            +:+ " without activity; it is ready again and no longer yours");
         ReclaimCard ("reclaim:" +:+ stamp) (cs_id c) owner]
   else []).

Definition owned_cards : list (CardSnap * string) :=
  sort_by (λ a b, String.compare (cs_id a.1) (cs_id b.1))
    (omap (λ c, if in_hand (cs_state c) then (λ o, (c, o)) <$> cs_owner c else None) (ri_cards i)).

Definition stale_cards : list ReconcileAction := owned_cards ≫= λ x, stale_card x.1 x.2.

(** R4. *)
Definition lane_order (a b : string * string) : comparison :=
  then_with (String.compare a.1 b.1) (String.compare a.2 b.2).

Definition lane_count (k : string * string) : Z :=
  Z.of_nat (length (List.filter (λ c, String.eqb (cs_team c) k.1 && String.eqb (cs_lane c) k.2 && in_hand (cs_state c))
    (ri_cards i))).

Definition wip_lane (k : string * string) : list ReconcileAction :=
  match ef_wip_limit (planner_effective k.1 k.2) with
  | None => []
  | Some limit =>
      let count := lane_count k in
      if (count <=? limit)%Z then []
      else
        let bucket := Z.quot (ri_now_ms i) 3600000 in
        let name := k.1 +:+ "/" +:+ k.2 in
        (λ target, Notice ("wip:" +:+ name +:+ ":" +:+ dec count +:+ ":" +:+ dec bucket +:+ ":" +:+ target) target
           "wip" name ("lane " +:+ name +:+ " has " +:+ dec count
             +:+ " cards in progress, above its WIP limit of " +:+ dec limit)) <$> planner_supervisors
  end.

Definition wip_limits : list ReconcileAction :=
  sort_by lane_order (remove_dups ((λ c, (cs_team c, cs_lane c)) <$> ri_cards i)) ≫= wip_lane.

(** R5. *)
Definition machine_floors : list ReconcileAction :=
  match ri_machine i with
  | None => []
  | Some _ =>
      let bs := breaches i in
      let bucket := Z.quot (ri_now_ms i) 600000 in
      match bs with
      | [] =>
          (if bool_decide (is_Some (ri_admission_paused i)) then [Admission ("resume:" +:+ dec bucket) None] else []) ++
          match ri_blocker_card i with
          | Some card => [Blocker ("unblock:" +:+ card) false "" ""]
          | None => []
          end
      | _ =>
          let text := join "; " (br_text <$> bs) in
          (if bool_decide (ri_admission_paused i = None)
           then [Admission ("pause:" +:+ dec bucket) (Some text)] else []) ++
          [Blocker ("blocker:" +:+ dec bucket) true ("Machine floor breached: " +:+ text) (floor_owner_action bs)]
      end
  end.

(** R6. *)
Definition sprint_ended (s : SprintSnap) : bool :=
  String.eqb (sn_snap_state s) "active" && (sn_snap_ends_ms s <=? ri_now_ms i)%Z.

Definition sprint_rollover_of (s : SprintSnap) : list ReconcileAction :=
  let ago := span (Some (f_of_Z (sat_i64 (ri_now_ms i - sn_snap_ends_ms s)) / f_of_Z 1000)%f64) in
  let text := "sprint " +:+ sn_snap_name s +:+ " ended " +:+ ago +:+ " ago with " +:+ dec (sn_snap_open_cards s)
              +:+ " open cards; close it and roll them over" in
  (λ target, Notice ("sprint:" +:+ sn_snap_id s +:+ ":" +:+ target) target "sprint_end" (sn_snap_id s) text) <$>
  planner_supervisors.

Definition sprint_rollovers : list ReconcileAction :=
  if negb (ef_sprint_rollover global_policy) then []
  else sort_by (λ a b, String.compare (sn_snap_id a) (sn_snap_id b)) (List.filter sprint_ended (ri_sprints i)) ≫=
       sprint_rollover_of.

(** The actions of all rules, in order. *)
Definition candidates : list ReconcileAction :=
  expire_leases ++ expire_claims ++ close_quiet_windows ++ stale_cards ++ wip_limits ++ machine_floors ++
  sprint_rollovers.

Definition plan : list ReconcileAction := pl_out (foldl push (mk_planner [] []) candidates).
End Rules.

(** ** What a pass emits *)

(** The state of a pass: no more than its cap, keys once and not marked. *)
Record planner_ok (i : ReconcileInput) (p : Planner) : Prop := {
  ok_cap : length (pl_out p) ≤ MAX_ACTIONS_PER_PASS;
  ok_keys : NoDup (action_key <$> pl_out p);
  ok_emitted k : k ∈ pl_emitted p ↔ k ∈ action_key <$> pl_out p;
  ok_marks a : a ∈ pl_out p → action_key a ∉ planner_marks i }.

Lemma push_ok i p a : planner_ok i p → planner_ok i (push i p a).
Proof.
  intros [Hc Hk He Hm]. unfold push. destruct (Nat.leb_spec MAX_ACTIONS_PER_PASS (length (pl_out p))); [done|].
  cbn [orb]. case_bool_decide as Hmk; [done|]. case_bool_decide as Hem; [done|].
  rewrite He in Hem. constructor; cbn [pl_out pl_emitted].
  - rewrite length_app. cbn. lia.
  - rewrite fmap_app. apply NoDup_app. split_and!; [done| |apply NoDup_singleton].
    intros k Hk' ->%list_elem_of_singleton. done.
  - intros k. rewrite elem_of_cons, He, fmap_app, elem_of_app. cbn. rewrite list_elem_of_singleton. tauto.
  - intros b [Hb| ->%list_elem_of_singleton]%elem_of_app; [by apply Hm|done].
Qed.

Lemma pushes_ok i l p : planner_ok i p → planner_ok i (foldl (push i) p l).
Proof. revert p. induction l as [|a l IH]; intros p Hp; cbn; [done|]. by apply IH, push_ok. Qed.

Lemma planner_ok_init i : planner_ok i (mk_planner [] []).
Proof. constructor; cbn; [lia|constructor|done|]. by intros a ?%elem_of_nil. Qed.

(** What is emitted was pushed, in the order it was pushed. *)
Lemma pushes_sublist i l p : ∃ k, pl_out (foldl (push i) p l) = pl_out p ++ k ∧ sublist k l.
Proof.
  revert p. induction l as [|a l IH]; intros p; cbn; [exists []; by rewrite app_nil_r|].
  destruct (IH (push i p a)) as (k & -> & Hs). unfold push. repeat case_match; try (exists k; split; [done|by constructor]).
  exists (a :: k). cbn. rewrite <- app_assoc. split; [done|by constructor].
Qed.

(** Every action that was pushed is there, is marked, or the pass is full, or an
    earlier one has its key. *)
Lemma pushes_complete i l p a :
  planner_ok i p → a ∈ l → let q := foldl (push i) p l in
  action_key a ∈ action_key <$> pl_out q ∨ action_key a ∈ planner_marks i ∨ length (pl_out q) = MAX_ACTIONS_PER_PASS.
Proof.
  revert p. induction l as [|b l IH]; intros p Hp; cbn; [by intros ?%elem_of_nil|].
  intros [->|Ha]%elem_of_cons; [|by apply IH, Ha; apply push_ok].
  destruct (pushes_sublist i l (push i p b)) as (k & E & _). pose proof (pushes_ok i l _ (push_ok i p b Hp)) as [Hcap _ _ _].
  rewrite E in *. unfold push in *. destruct (Nat.leb_spec MAX_ACTIONS_PER_PASS (length (pl_out p))).
  { right; right. cbn in *. rewrite length_app in *. lia. }
  cbn [orb] in *. case_bool_decide; [by right; left|]. case_bool_decide as Hem.
  - left. rewrite (ok_emitted _ _ Hp) in Hem. rewrite fmap_app. apply elem_of_app. by left.
  - left. cbn. rewrite !fmap_app. cbn. set_solver.
Qed.

(** ** Why an action is emitted *)

(** A card that its owner has left idle for [after_s] seconds. *)
Definition idle_for (i : ReconcileInput) (c : CardSnap) (owner : string) (after_s : f64) : Prop :=
  c ∈ ri_cards i ∧ in_hand (cs_state c) = true ∧ cs_owner c = Some owner ∧
  f_le (after_s * f_of_Z 1000)%f64 (idle_ms i c) = true.

Definition card_policy (i : ReconcileInput) (c : CardSnap) : EffectivePolicy :=
  planner_effective i (cs_team c) (cs_lane c).

(** A machine below one of its floors: disk, available memory or idle CPU. *)
Definition floor_breached (i : ReconcileInput) : Prop :=
  ∃ m, ri_machine i = Some m ∧
    ((∃ free floor, disk_free_kib m = Some free ∧ disk_floor_kib (ri_settings i) = Some floor ∧ (free < floor)%Z) ∨
     (∃ total used floor, total_memory_kib m = Some total ∧ m_signals m ≫= memory_used_kib = Some used ∧
        memory_floor_kib (ri_settings i) = Some floor ∧ (sat_u64 (total - used) < floor)%Z) ∨
     (∃ idle floor, m_signals m ≫= idle_pct = Some idle ∧ idle_floor_pct (ri_settings i) = Some floor ∧
        f_lt idle floor = true)).

Definition claim_ttl_ms (i : ReconcileInput) : Z := f_as_i64 (claim_ttl_s (ri_settings i) * f_of_Z 1000)%f64.

Definition hour_bucket (i : ReconcileInput) : Z := Z.quot (ri_now_ms i) 3600000.
Definition floor_bucket (i : ReconcileInput) : Z := Z.quot (ri_now_ms i) 600000.

(** The text that identifies one idle time of a card. *)
Definition card_stamp (c : CardSnap) : string := cs_id c +:+ ":" +:+ dec (cs_updated_ms c).

(** What the snapshot calls for, rule by rule: the action, its key and its
    reason.  The texts for people are left open. *)
Inductive called_for (i : ReconcileInput) : ReconcileAction → Prop :=
| call_expire l e :
    l ∈ ri_leases i → lr_kind l ≠ KQuiet → lr_released_ms l = None → lr_expires_ms l = Some e → (e ≤ ri_now_ms i)%Z →
    called_for i (ExpireLease ("expire:" +:+ lr_id l +:+ ":" +:+ dec e) (lr_id l))
| call_claim c notice_key text :
    c ∈ ri_claims i → is_finite (claim_ttl_s (ri_settings i)) = true → f_le (claim_ttl_s (ri_settings i)) f_zero = false →
    (sat_i64 (cm_claimed_ms c + claim_ttl_ms i) ≤ ri_now_ms i)%Z →
    called_for i (ExpireClaim ("claim:" +:+ cm_task c +:+ ":" +:+ dec (cm_claimed_ms c)) (cm_task c) (cm_agent c)
                    (cm_claimed_ms c) notice_key text)
| call_quiet l e :
    l ∈ ri_leases i → lr_kind l = KQuiet → lr_released_ms l = None → lr_expected_end_ms l = Some e →
    f_le (f_of_Z e + quiet_max (ri_settings i) * f_of_Z 1000)%f64 (f_of_Z (ri_now_ms i)) = true →
    called_for i (CloseQuiet ("quiet:" +:+ lr_id l +:+ ":" +:+ dec e) (lr_id l))
| call_stale c owner text :
    idle_for i c owner (ef_stale_after_s (card_policy i c)) →
    called_for i (Notice ("stale1:" +:+ card_stamp c) owner "stale" (cs_id c) text)
| call_escalate c owner target text :
    idle_for i c owner (ef_stale_after_s (card_policy i c) + ef_escalate_after_s (card_policy i c))%f64 →
    target ∈ ef_escalation_chain (card_policy i c) ∨
      (ef_escalation_chain (card_policy i c) = [] ∧ target ∈ ri_supervisors i) →
    called_for i (Notice ("stale2:" +:+ card_stamp c +:+ ":" +:+ target) target "escalation" (cs_id c) text)
| call_reclaimed c owner text :
    idle_for i c owner (ef_reclaim_after_s (card_policy i c)) → ef_reclaim (card_policy i c) = true →
    called_for i (Notice ("stale3:" +:+ card_stamp c) owner "reclaimed" (cs_id c) text)
| call_reclaim c owner :
    idle_for i c owner (ef_reclaim_after_s (card_policy i c)) → ef_reclaim (card_policy i c) = true →
    called_for i (ReclaimCard ("reclaim:" +:+ card_stamp c) (cs_id c) owner)
| call_wip team lane limit target text :
    (∃ c, c ∈ ri_cards i ∧ cs_team c = team ∧ cs_lane c = lane) →
    ef_wip_limit (planner_effective i team lane) = Some limit → (limit < lane_count i (team, lane))%Z →
    target ∈ ri_supervisors i →
    called_for i (Notice ("wip:" +:+ (team +:+ "/" +:+ lane) +:+ ":" +:+ dec (lane_count i (team, lane)) +:+ ":" +:+ dec (hour_bucket i)
                            +:+ ":" +:+ target) target "wip" (team +:+ "/" +:+ lane) text)
| call_pause text :
    floor_breached i → ri_admission_paused i = None →
    called_for i (Admission ("pause:" +:+ dec (floor_bucket i)) (Some text))
| call_block title action :
    floor_breached i → called_for i (Blocker ("blocker:" +:+ dec (floor_bucket i)) true title action)
| call_resume :
    is_Some (ri_machine i) → ¬ floor_breached i → is_Some (ri_admission_paused i) →
    called_for i (Admission ("resume:" +:+ dec (floor_bucket i)) None)
| call_unblock card :
    is_Some (ri_machine i) → ¬ floor_breached i → ri_blocker_card i = Some card →
    called_for i (Blocker ("unblock:" +:+ card) false "" "")
| call_sprint s target text :
    ef_sprint_rollover (global_policy i) = true → s ∈ ri_sprints i → sn_snap_state s = "active" →
    (sn_snap_ends_ms s ≤ ri_now_ms i)%Z → target ∈ ri_supervisors i →
    called_for i (Notice ("sprint:" +:+ sn_snap_id s +:+ ":" +:+ target) target "sprint_end" (sn_snap_id s) text).

Lemma elem_of_sorted_filter {A} (cmp : A → A → comparison) f l (x : A) :
  x ∈ sort_by cmp (List.filter f l) ↔ x ∈ l ∧ f x = true.
Proof. by rewrite elem_of_sort_by, list_elem_of_In, List.filter_In, <- list_elem_of_In. Qed.

Lemma elem_of_dedup_sorted l x : x ∈ dedup_sorted l ↔ x ∈ l.
Proof.
  induction l as [|y l IH]; cbn; [done|]. destruct l as [|z l]; [done|].
  destruct (String.eqb_spec y z) as [->|]; rewrite ?elem_of_cons in *; naive_solver.
Qed.

Lemma planner_supervisor i x : x ∈ planner_supervisors i ↔ x ∈ ri_supervisors i.
Proof. unfold planner_supervisors. by rewrite elem_of_dedup_sorted, elem_of_sort_by. Qed.

Lemma seen_once_from (acc l : list string) x :
  x ∈ foldl (λ acc x, if bool_decide (x ∈ acc) then acc else acc ++ [x]) acc l ↔ x ∈ acc ∨ x ∈ l.
Proof.
  revert acc. induction l as [|y l IH]; intros acc; cbn [foldl]; [set_solver|]. rewrite IH.
  case_bool_decide; rewrite elem_of_cons, ?elem_of_app, ?list_elem_of_singleton; naive_solver.
Qed.

Lemma elem_of_seen_once l x : x ∈ seen_once l ↔ x ∈ l.
Proof. unfold seen_once. rewrite seen_once_from. set_solver. Qed.

Lemma owned_card i c o : (c, o) ∈ owned_cards i ↔ c ∈ ri_cards i ∧ in_hand (cs_state c) = true ∧ cs_owner c = Some o.
Proof.
  unfold owned_cards. rewrite elem_of_sort_by, list_elem_of_omap. split.
  - intros (x & Hx & E). destruct (in_hand (cs_state x)) eqn:Eh; [|done]. destruct (cs_owner x) as [o'|] eqn:Eo; [|done].
    injection E as <- <-. done.
  - intros (Hc & Hh & Ho). exists c. by rewrite Hh, Ho.
Qed.

Lemma breaches_floor i : breaches i ≠ [] ↔ floor_breached i.
Proof.
  unfold breaches, floor_breached. destruct (ri_machine i) as [m|]; [|naive_solver].
  assert (disk_breach m (ri_settings i) ≠ [] ↔
    ∃ free floor, disk_free_kib m = Some free ∧ disk_floor_kib (ri_settings i) = Some floor ∧ (free < floor)%Z) as Hd.
  { unfold disk_breach. destruct (disk_free_kib m) as [free|]; [|split; [done|by intros (? & ? & ? & _)]].
    destruct (disk_floor_kib _) as [floor|]; [|split; [done|by intros (? & ? & _ & ? & _)]].
    destruct (Z.ltb_spec free floor); (split; [intros H'|]); [by eexists _, _|done|done|]. intros (? & ? & [= <-] & [= <-] & ?). lia. }
  assert (memory_breach m (ri_settings i) ≠ [] ↔
    ∃ total used floor, total_memory_kib m = Some total ∧ m_signals m ≫= memory_used_kib = Some used ∧
      memory_floor_kib (ri_settings i) = Some floor ∧ (sat_u64 (total - used) < floor)%Z) as Hm.
  { unfold memory_breach. destruct (total_memory_kib m) as [total|]; [|split; [done|by intros (? & ? & ? & ? & _)]].
    destruct (m_signals m ≫= memory_used_kib) as [used|]; [|split; [done|by intros (? & ? & ? & _ & ? & _)]].
    destruct (memory_floor_kib _) as [floor|]; [|split; [done|by intros (? & ? & ? & _ & _ & ? & _)]]. cbn zeta.
    destruct (Z.ltb_spec (sat_u64 (total - used)) floor); (split; [intros H'|]); [by eexists _, _, _|done|done|].
    intros (? & ? & ? & [= <-] & [= <-] & [= <-] & ?). lia. }
  assert (cpu_breach m (ri_settings i) ≠ [] ↔
    ∃ idle floor, m_signals m ≫= idle_pct = Some idle ∧ idle_floor_pct (ri_settings i) = Some floor ∧ f_lt idle floor = true) as Hc.
  { unfold cpu_breach. destruct (m_signals m ≫= idle_pct) as [idle|]; [|split; [done|by intros (? & ? & ? & _)]].
    destruct (idle_floor_pct _) as [floor|]; [|split; [done|by intros (? & ? & _ & ? & _)]].
    destruct (f_lt idle floor) eqn:E; (split; [intros H'|]); [by eexists _, _|done|done|]. intros (? & ? & [= <-] & [= <-] & ?). congruence. }
  split.
  - intros H. exists m. split; [done|]. rewrite <- Hd, <- Hm, <- Hc. destruct (disk_breach _ _); [|by left].
    destruct (memory_breach _ _); [|by right; left]. by right; right.
  - intros (? & [= <-] & H) E. rewrite <- Hd, <- Hm, <- Hc in H. apply app_eq_nil in E as [E1 E]. apply app_eq_nil in E as [E2 E3].
    destruct H as [H|[H|H]]; congruence.
Qed.

(** ** The rules call for exactly that *)

(** [rule] pushes what is called for in [P], up to the texts: [same] is equality
    of everything else. *)
Definition same_action (a b : ReconcileAction) : Prop :=
  match a, b with
  | ExpireClaim k t g c _ _, ExpireClaim k' t' g' c' _ _ => k = k' ∧ t = t' ∧ g = g' ∧ c = c'
  | Notice k t n s _, Notice k' t' n' s' _ => k = k' ∧ t = t' ∧ n = n' ∧ s = s'
  | Blocker k o _ _, Blocker k' o' _ _ => k = k' ∧ o = o'
  | Admission k p, Admission k' p' => k = k' ∧ (is_Some p ↔ is_Some p')
  | _, _ => a = b
  end.

Lemma same_action_key a b : same_action a b → action_key a = action_key b.
Proof. destruct a, b; cbn; naive_solver. Qed.

Lemma expire_leases_called i a : a ∈ expire_leases i → called_for i a.
Proof.
  intros (l & -> & [Hl Ho]%elem_of_sorted_filter)%list_elem_of_fmap. unfold lease_overdue in Ho.
  apply andb_true_iff in Ho as [[Hk%bool_decide_eq_true Hr%bool_decide_eq_true]%andb_true_iff He].
  destruct (lr_expires_ms l) as [e|] eqn:E; [|done]. apply Z.leb_le in He. by apply call_expire.
Qed.

Lemma expire_claims_called i a : a ∈ expire_claims i → called_for i a.
Proof.
  unfold expire_claims. destruct (_ || _) eqn:Eb; [by intros ?%elem_of_nil|].
  apply orb_false_iff in Eb as [Hf%negb_false_iff Hz].
  intros (c & -> & Hc)%list_elem_of_fmap. apply elem_of_take in Hc as (n & Hn & _).
  apply list_elem_of_lookup_2, elem_of_sorted_filter in Hn as [Hc [Ho%Z.leb_le _]%andb_true_iff]. by apply call_claim.
Qed.

Lemma close_quiet_called i a : a ∈ close_quiet_windows i → called_for i a.
Proof.
  intros (l & -> & [Hl Ho]%elem_of_sorted_filter)%list_elem_of_fmap. unfold quiet_overdue in Ho.
  apply andb_true_iff in Ho as [[Hk%bool_decide_eq_true Hr%bool_decide_eq_true]%andb_true_iff He].
  destruct (lr_expected_end_ms l) as [e|] eqn:E; [|done]. by apply call_quiet.
Qed.

Lemma escalation_targets i c target :
  target ∈ match seen_once (ef_escalation_chain (card_policy i c)) with [] => planner_supervisors i | _ => seen_once (ef_escalation_chain (card_policy i c)) end ↔
  target ∈ ef_escalation_chain (card_policy i c) ∨ (ef_escalation_chain (card_policy i c) = [] ∧ target ∈ ri_supervisors i).
Proof.
  destruct (ef_escalation_chain (card_policy i c)) as [|y l] eqn:E.
  - cbn. rewrite planner_supervisor. set_solver.
  - assert (y ∈ seen_once (y :: l)) as Hy by (apply elem_of_seen_once; by left).
    rewrite <- (elem_of_seen_once (y :: l) target). destruct (seen_once (y :: l)); [by apply elem_of_nil in Hy|]. clear. naive_solver.
Qed.

Lemma stale_cards_called i a : a ∈ stale_cards i → called_for i a.
Proof.
  unfold stale_cards. intros ([c o] & Ha & (Hc & Hh & Ho)%owned_card)%list_elem_of_bind. cbn [fst snd] in Ha.
  unfold stale_card in Ha. fold (card_policy i c) in Ha. rewrite !elem_of_app in Ha. destruct Ha as [Ha|[Ha|Ha]].
  - destruct (f_le _ _) eqn:E in Ha; [|by apply elem_of_nil in Ha]. apply list_elem_of_singleton in Ha as ->. by apply call_stale.
  - destruct (f_le _ _) eqn:E in Ha; [|by apply elem_of_nil in Ha]. apply list_elem_of_fmap in Ha as (target & -> & Ht%escalation_targets).
    by apply (call_escalate i c o).
  - destruct (_ && _) eqn:E in Ha; [|by apply elem_of_nil in Ha]. apply andb_true_iff in E as [Er E].
    apply elem_of_cons in Ha as [->| ->%list_elem_of_singleton]; [by apply call_reclaimed|by apply call_reclaim].
Qed.

Lemma wip_limits_called i a : a ∈ wip_limits i → called_for i a.
Proof.
  intros ([team lane] & Ha & Hk)%list_elem_of_bind. unfold wip_lane in Ha. cbn [fst snd] in Ha.
  destruct (ef_wip_limit _) as [limit|] eqn:E; [|by apply elem_of_nil in Ha].
  destruct (Z.leb_spec (lane_count i (team, lane)) limit); [by apply elem_of_nil in Ha|].
  apply list_elem_of_fmap in Ha as (target & -> & Ht%planner_supervisor).
  apply elem_of_sort_by, elem_of_remove_dups, list_elem_of_fmap in Hk as (c & [= -> ->] & Hc). eapply call_wip; eauto.
Qed.

Lemma machine_floors_called i a : a ∈ machine_floors i → called_for i a.
Proof.
  pose proof (breaches_floor i) as Hb. unfold machine_floors. destruct (ri_machine i) as [m|] eqn:Em; [|by intros ?%elem_of_nil].
  assert (is_Some (ri_machine i)) as Hm by (rewrite Em; eauto).
  destruct (breaches i) as [|b bs] eqn:Eb; rewrite elem_of_app.
  - assert (¬ floor_breached i) as Hn by (intros H; by apply Hb in H). intros [Ha|Ha].
    + case_bool_decide as Hp; [|by apply elem_of_nil in Ha]. apply list_elem_of_singleton in Ha as ->. by apply call_resume.
    + destruct (ri_blocker_card i) eqn:Ec; [|by apply elem_of_nil in Ha]. apply list_elem_of_singleton in Ha as ->. by apply call_unblock.
  - assert (floor_breached i) as Hf by (by apply Hb). intros [Ha| ->%list_elem_of_singleton]; [|by apply call_block].
    case_bool_decide as Hp; [|by apply elem_of_nil in Ha]. apply list_elem_of_singleton in Ha as ->. by apply call_pause.
Qed.

Lemma sprint_rollovers_called i a : a ∈ sprint_rollovers i → called_for i a.
Proof.
  unfold sprint_rollovers. destruct (ef_sprint_rollover _) eqn:Eg; [|by intros ?%elem_of_nil].
  intros (s & Ha & [Hs [He%String.eqb_eq Hn%Z.leb_le]%andb_true_iff]%elem_of_sorted_filter)%list_elem_of_bind.
  apply list_elem_of_fmap in Ha as (target & -> & Ht%planner_supervisor). by apply call_sprint.
Qed.

Lemma candidates_called i a : a ∈ candidates i → called_for i a.
Proof.
  unfold candidates. rewrite !elem_of_app.
  intros [?|[?|[?|[?|[?|[?|?]]]]]]; eauto using expire_leases_called, expire_claims_called, close_quiet_called,
    stale_cards_called, wip_limits_called, machine_floors_called, sprint_rollovers_called.
Qed.

(** ** Every rule is complete *)

(** At most as many claims are overdue as a pass expires. *)
Definition few_claims (i : ReconcileInput) : Prop :=
  length (List.filter (claim_overdue i (claim_ttl_ms i)) (ri_claims i)) ≤ MAX_CLAIM_EXPIRIES_PER_PASS.

Definition is_expire_claim (a : ReconcileAction) : bool := match a with ExpireClaim _ _ _ _ _ _ => true | _ => false end.

Lemma claim_called i c nk text :
  c ∈ ri_claims i → is_finite (claim_ttl_s (ri_settings i)) = true → f_le (claim_ttl_s (ri_settings i)) f_zero = false →
  (sat_i64 (cm_claimed_ms c + claim_ttl_ms i) ≤ ri_now_ms i)%Z → few_claims i → expiry_key c ∉ planner_marks i →
  ∃ b, b ∈ expire_claims i ∧ same_action (ExpireClaim (expiry_key c) (cm_task c) (cm_agent c) (cm_claimed_ms c) nk text) b.
Proof.
  intros Hc Hf Hz Hd Hn Hm. unfold expire_claims. rewrite Hf, Hz. cbn [negb orb]. eexists. split.
  - apply list_elem_of_fmap. exists c. split; [done|]. rewrite take_ge; [|rewrite length_sort_by; exact Hn].
    apply elem_of_sorted_filter. split; [done|]. unfold claim_overdue. fold (claim_ttl_ms i).
    rewrite (proj2 (Z.leb_le _ _) Hd), bool_decide_eq_false_2 by done. done.
  - done.
Qed.

Lemma stale_called i c owner a :
  c ∈ ri_cards i → in_hand (cs_state c) = true → cs_owner c = Some owner → a ∈ stale_card i c owner → a ∈ stale_cards i.
Proof. intros Hc Hh Ho Ha. apply list_elem_of_bind. exists (c, owner). split; [done|]. by apply owned_card. Qed.

Lemma breached_pushes i :
  floor_breached i → ∃ text title act,
    (ri_admission_paused i = None → Admission ("pause:" +:+ dec (floor_bucket i)) (Some text) ∈ machine_floors i) ∧
    Blocker ("blocker:" +:+ dec (floor_bucket i)) true title act ∈ machine_floors i.
Proof.
  intros Hf. pose proof (proj2 (breaches_floor i) Hf) as Hb. destruct Hf as (m & Em & _). unfold machine_floors. rewrite Em.
  destruct (breaches i) as [|x l]; [done|]. eexists _, _, _. split.
  - intros ->. apply elem_of_app. left. by left.
  - apply elem_of_app. right. by left.
Qed.

Lemma sound_pushes i :
  is_Some (ri_machine i) → ¬ floor_breached i →
  (is_Some (ri_admission_paused i) → Admission ("resume:" +:+ dec (floor_bucket i)) None ∈ machine_floors i) ∧
  (∀ card, ri_blocker_card i = Some card → Blocker ("unblock:" +:+ card) false "" "" ∈ machine_floors i).
Proof.
  intros [m Em] Hf. unfold machine_floors. rewrite Em.
  destruct (breaches i) eqn:Eb; [|destruct Hf; apply breaches_floor; by rewrite Eb]. split.
  - intros Hp. rewrite bool_decide_eq_true_2 by done. by left.
  - intros card ->. apply elem_of_app. right. by left.
Qed.

(** What is called for is pushed by its rule. *)
Lemma called_pushed i a :
  called_for i a → action_key a ∉ planner_marks i → (is_expire_claim a = true → few_claims i) →
  ∃ b, b ∈ candidates i ∧ same_action a b.
Proof.
  intros Ha Hm Hfew. unfold candidates. setoid_rewrite elem_of_app. setoid_rewrite elem_of_app.
  setoid_rewrite elem_of_app. setoid_rewrite elem_of_app. setoid_rewrite elem_of_app. setoid_rewrite elem_of_app.
  destruct Ha as [l e Hl Hk Hr He Hn|c nk text Hc Hf Hz Hd|l e Hl Hk Hr He Hn|c o text (Hc & Hh & Ho & Hi)|c o target text (Hc & Hh & Ho & Hi) Ht
    |c o text (Hc & Hh & Ho & Hi) Hre|c o (Hc & Hh & Ho & Hi) Hre|team lane limit target text (c & Hc & <- & <-) Hw Hcnt Ht|text Hf Hp|title act Hf
    |Hs Hf Hp|card Hs Hf Hp|s target text Hg Hs Hst He Ht].
  - eexists. split; [left; apply list_elem_of_fmap; exists l; split; [done|]|cbn; by rewrite He].
    apply elem_of_sorted_filter. split; [done|]. unfold lease_overdue. rewrite He, Hr, bool_decide_eq_true_2 by done. cbn. by apply Z.leb_le.
  - destruct (claim_called i c nk text Hc Hf Hz Hd (Hfew eq_refl) Hm) as (b & ? & ?). exists b. auto.
  - eexists. split; [do 2 right; left; apply list_elem_of_fmap; exists l; split; [done|]|cbn; by rewrite He].
    apply elem_of_sorted_filter. split; [done|]. unfold quiet_overdue. rewrite He, Hr, Hk. by rewrite !bool_decide_eq_true_2.
  - eexists. split; [do 3 right; left; apply (stale_called i c o _ Hc Hh Ho); unfold stale_card; fold (card_policy i c); rewrite Hi;
      apply elem_of_app; left; by left|done].
  - eexists. split; [do 3 right; left; apply (stale_called i c o _ Hc Hh Ho); unfold stale_card; fold (card_policy i c); rewrite Hi;
      apply elem_of_app; right; apply elem_of_app; left; apply list_elem_of_fmap; exists target; split; [done|by apply escalation_targets]|done].
  - eexists. split; [do 3 right; left; apply (stale_called i c o _ Hc Hh Ho); unfold stale_card; fold (card_policy i c); rewrite Hi, Hre;
      do 2 (apply elem_of_app; right); by left|done].
  - eexists. split; [do 3 right; left; apply (stale_called i c o _ Hc Hh Ho); unfold stale_card; fold (card_policy i c); rewrite Hi, Hre;
      do 2 (apply elem_of_app; right); by right; left|done].
  - eexists. split; [do 4 right; left; apply list_elem_of_bind; exists (cs_team c, cs_lane c); split|].
    + unfold wip_lane. cbn [fst snd]. rewrite Hw, (proj2 (Z.leb_gt _ _) Hcnt). apply list_elem_of_fmap. exists target.
      split; [done|by apply planner_supervisor].
    + apply elem_of_sort_by, elem_of_remove_dups, list_elem_of_fmap. by exists c.
    + done.
  - destruct (breached_pushes i Hf) as (text' & _ & _ & Ha & _). exists (Admission ("pause:" +:+ dec (floor_bucket i)) (Some text')).
    split; [do 5 right; left; auto|by split].
  - destruct (breached_pushes i Hf) as (_ & title' & act' & _ & Hb). exists (Blocker ("blocker:" +:+ dec (floor_bucket i)) true title' act').
    split; [do 5 right; left; auto|by split].
  - destruct (sound_pushes i Hs Hf) as [Ha _]. eexists. split; [do 5 right; left; by apply Ha|by split].
  - destruct (sound_pushes i Hs Hf) as [_ Hb]. eexists. split; [do 5 right; left; by apply Hb|by split].
  - eexists. split; [do 6 right; unfold sprint_rollovers; rewrite Hg; apply list_elem_of_bind; exists s; split|].
    + apply list_elem_of_fmap. exists target. split; [done|by apply planner_supervisor].
    + apply elem_of_sorted_filter. split; [done|]. unfold sprint_ended. rewrite Hst. cbn. by apply Z.leb_le.
    + done.
Qed.

(** ** What a key says *)

(** The rule a key belongs to. *)
Definition tag_of (a : ReconcileAction) : string :=
  match a with
  | ExpireLease _ _ => "expire:"
  | ExpireClaim _ _ _ _ _ _ => "claim:"
  | CloseQuiet _ _ => "quiet:"
  | Notice _ _ kind _ _ =>
      if String.eqb kind "stale" then "stale1:" else if String.eqb kind "escalation" then "stale2:"
      else if String.eqb kind "reclaimed" then "stale3:" else if String.eqb kind "wip" then "wip:" else "sprint:"
  | ReclaimCard _ _ _ => "reclaim:"
  | Blocker _ open _ _ => if open then "blocker:" else "unblock:"
  | Admission _ paused => match paused with Some _ => "pause:" | None => "resume:" end
  end.

Lemma called_tag i a : called_for i a → ∃ rest, action_key a = tag_of a +:+ rest.
Proof. intros []; by eexists. Qed.

Lemma tag_of_elem a :
  tag_of a ∈ ["expire:"; "claim:"; "quiet:"; "stale1:"; "stale2:"; "stale3:"; "reclaim:"; "wip:"; "pause:"; "blocker:"; "resume:";
              "unblock:"; "sprint:"].
Proof. destruct a as [| | |key target kind subject text| |key [] title act|key []]; cbn; repeat case_match; set_solver. Qed.

Lemma tags_apart a b r s : tag_of a +:+ r = tag_of b +:+ s → tag_of a = tag_of b.
Proof.
  pose proof (tag_of_elem a) as Ha. pose proof (tag_of_elem b) as Hb. revert Ha Hb. generalize (tag_of a) (tag_of b). intros t u Ha Hb H.
  repeat (apply elem_of_cons in Ha as [->|Ha]; [repeat (apply elem_of_cons in Hb as [->|Hb]; [done|]); by apply elem_of_nil in Hb|]).
  by apply elem_of_nil in Ha.
Qed.

(** The last colon of a key ends the id. *)
Lemma last_colon s t d e :
  contains_byte ":" d = false → contains_byte ":" e = false → s +:+ ":" +:+ d = t +:+ ":" +:+ e → s = t.
Proof.
  intros Hd He. revert t. induction s as [|c s IH]; intros [|x t]; rewrite ?str_app_cons, ?str_app_nil_l; intros H; [done|..].
  - injection H as <- ->. rewrite contains_app in Hd. cbn in Hd. by rewrite orb_true_r in Hd.
  - injection H as -> <-. rewrite contains_app in He. cbn in He. by rewrite orb_true_r in He.
  - injection H as -> H. f_equal. by apply IH.
Qed.

Lemma dec_no_colon n : contains_byte ":" (dec n) = false.
Proof.
  assert (∀ s, str_all is_ascii_digit s = true → contains_byte ":" s = false) as Hd.
  { induction s as [|c s IH]; [done|]. cbn [str_all contains_byte]. intros [Hc Hs]%andb_true_iff. rewrite IH by done.
    destruct (byte_eqb c ":") eqn:E; [|done]. apply byte_eqb_eq in E as ->. done. }
  unfold dec. destruct (Z.ltb_spec n 0); cbn [contains_byte]; apply Hd, dec_abs_spec; lia.
Qed.

Lemma stamped_id p s t n m : p +:+ s +:+ ":" +:+ dec n = p +:+ t +:+ ":" +:+ dec m → s = t.
Proof. intros H%(inj (String.append p)). by eapply last_colon; [apply dec_no_colon..|]. Qed.

(** [b] is an action of the same rule as [a], and about the same lease, task or
    card where the key says which. *)
Definition stands_for (a b : ReconcileAction) : Prop :=
  tag_of b = tag_of a ∧
  match a, b with
  | ExpireLease _ id, ExpireLease _ id' | CloseQuiet _ id, CloseQuiet _ id' => id' = id
  | ExpireClaim _ id _ _ _ _, ExpireClaim _ id' _ _ _ _ | ReclaimCard _ id _, ReclaimCard _ id' _ => id' = id
  | Notice _ _ kind id _, Notice _ _ _ id' _ => kind = "stale" ∨ kind = "reclaimed" → id' = id
  | _, _ => True
  end.

Lemma same_key_stands i a b : called_for i a → called_for i b → action_key b = action_key a → stands_for a b.
Proof.
  intros Ha Hb Hk. assert (tag_of b = tag_of a) as Ht.
  { destruct (called_tag i a Ha) as [r Er], (called_tag i b Hb) as [s Es]. rewrite Er, Es in Hk. by eapply tags_apart. }
  split; [done|]. destruct Ha, Hb; cbn in Ht; try discriminate Ht; cbn in Hk |- *; try done;
    try (by eapply stamped_id); intros [Hx|Hx]; try discriminate Hx; by eapply stamped_id.
Qed.

(** The actions of a rule, one by one. *)
Ltac rule_cases H :=
  repeat match type of H with
  | _ ∈ [] => by apply elem_of_nil in H
  | _ ∈ _ ++ _ => apply elem_of_app in H as [H|H]
  | _ ∈ _ :: _ => apply elem_of_cons in H as [->|H]; [done|]
  | _ ∈ (_ ≫= _) => apply list_elem_of_bind in H as (? & H & _)
  | _ ∈ (_ <$> _) => apply list_elem_of_fmap in H as (? & -> & _); done
  | _ ∈ (if ?b then _ else _) => destruct b
  | _ ∈ match ?x with _ => _ end => destruct x
  end.

Lemma other_rules_claims i a :
  a ∈ expire_leases i ∨ a ∈ close_quiet_windows i ∨ a ∈ stale_cards i ∨ a ∈ wip_limits i ∨ a ∈ machine_floors i ∨ a ∈ sprint_rollovers i →
  is_expire_claim a = false.
Proof.
  unfold expire_leases, close_quiet_windows, stale_cards, stale_card, wip_limits, wip_lane, machine_floors, sprint_rollovers, sprint_rollover_of.
  intros [H|[H|[H|[H|[H|H]]]]]; cbn zeta in H; rule_cases H.
Qed.

(** A pass expires a bounded number of claims. *)
Lemma plan_claims i : length (List.filter is_expire_claim (plan i)) ≤ MAX_CLAIM_EXPIRIES_PER_PASS.
Proof.
  destruct (pushes_sublist i (candidates i) (mk_planner [] [])) as (k & E & Hs). fold (plan i) in E. cbn in E. subst k.
  assert (length (List.filter is_expire_claim (plan i)) ≤ length (List.filter is_expire_claim (candidates i))) as Hlen.
  { clear -Hs. induction Hs as [|x l k _ IH|x l k _ IH]; cbn; [done|..]; destruct (is_expire_claim x); cbn; lia. }
  etrans; [exact Hlen|]. clear Hs Hlen.
  assert (∀ l, (∀ a, a ∈ l → is_expire_claim a = false) → List.filter is_expire_claim l = []) as Hnone.
  { induction l as [|a l IH]; intros Hl; [done|]. cbn. rewrite Hl by (by left). apply IH. intros b Hb. apply Hl. by right. }
  pose proof (other_rules_claims i) as Ho. unfold candidates. rewrite !List.filter_app.
  rewrite (Hnone (expire_leases i)), (Hnone (close_quiet_windows i)), (Hnone (stale_cards i)), (Hnone (wip_limits i)),
    (Hnone (machine_floors i)), (Hnone (sprint_rollovers i)), !app_nil_r, app_nil_l by auto 8.
  etrans; [apply List.filter_length_le|]. unfold expire_claims. destruct (_ || _); [cbn; lia|]. rewrite length_fmap, length_take. lia.
Qed.

(** C16: the plan of a pass. A pass emits at most 64 actions with keys of their
    own, none of them marked, at most 16 of them claim expiries, and each for a
    reason the snapshot gives: an expired path or pool lease, a claim past its
    time to live, an overdue quiet window, a card its owner left idle past the
    threshold of its policy, a lane over its limit, a machine floor that is
    breached or no longer, an ended sprint. And unless the pass is full, or more
    than 16 claims are overdue, for every action the snapshot gives a reason for
    that is not marked an action of the same rule with its key is emitted, about
    the same lease, task or card; only the keys of escalations, lanes and sprints
    do not tell every two of them apart. *)
Theorem plan_justified i :
  length (plan i) ≤ 64 ∧ NoDup (action_key <$> plan i) ∧
  (∀ a, a ∈ plan i → action_key a ∉ mark_key <$> ri_marks i ∧ called_for i a) ∧
  length (List.filter is_expire_claim (plan i)) ≤ 16 ∧
  (∀ a, called_for i a → action_key a ∉ mark_key <$> ri_marks i → length (plan i) < 64 →
     (is_expire_claim a = true → few_claims i) → ∃ b, b ∈ plan i ∧ action_key b = action_key a ∧ stands_for a b).
Proof.
  destruct (pushes_ok i (candidates i) _ (planner_ok_init i)) as [Hc Hk _ Hm]. fold (plan i) in *.
  destruct (pushes_sublist i (candidates i) (mk_planner [] [])) as (k & E & Hs). fold (plan i) in E. cbn in E. subst k.
  assert (∀ a, a ∈ plan i → called_for i a) as Hcall by (intros a Ha; apply candidates_called; by eapply elem_of_sublist).
  split_and!; [done|done| |apply plan_claims|].
  - intros a Ha. split; [by apply Hm|by apply Hcall].
  - intros a Ha Hn Hl Hf. destruct (called_pushed i a Ha Hn Hf) as (c & Hcc & Hs'%same_action_key).
    rewrite Hs' in Hn. destruct (pushes_complete i (candidates i) _ c (planner_ok_init i) Hcc) as [H|[H|H]]; [|done|].
    + apply list_elem_of_fmap in H as (b & Eb & Hb). exists b. split_and!; [done|congruence|].
      eapply same_key_stands; [done|by apply Hcall|congruence].
    + fold (plan i) in H. unfold MAX_ACTIONS_PER_PASS in H. lia.
Qed.
