(* ===== verification/StoreReconcile.v ===== *)
(** * agora-store: the reconciler

    [src/crates/agora-store/src/reconcile.rs], [reconcile/effects.rs] and
    [reconcile/claims.rs]: the snapshot a pass plans from, the application of one
    action, and the watchdog's report. *)

From Stdlib Require Import Ascii.
From stdpp Require Import relations.
From S2P Require Import Prelude F64 Strs PyFmt TextFmt Bytes Core Crypto Task Graph Order Claims Settings Civil Predict.
From S2P Require Import Signature Admit StoreDb Identity Leases Policy Board WorkRow Work Team Timers Reconcile.

(** [serde_json::from_str] of an action. *)
Class ReconcileCodec : Type := { parse_action : string → option ReconcileAction }.

Definition EXPIRY_WINDOW_MS : Z := 600000.
Definition WATCHDOG_NOTICES : nat := 50.
Definition ORPHAN_NOTE : string := "its supervisor".

Record ReconcileOutcome : Type := mk_outcome { oc_applied : bool; oc_notice_posted : bool }.

(** ** Reads *)

Definition state_value (key : string) (d : db) : option string :=
  snd <$> (snd <$> list_find (λ kv, kv.1 = key) (work_state (work d))).

Definition card_is_open (id : string) (d : db) : bool :=
  match c_state <$> find_card id d with
  | Some s => negb (String.eqb s "done") && negb (String.eqb s "cancelled")
  | None => false
  end.

Definition card_snap (c : card) : CardSnap :=
  mk_card_snap (c_id c) (c_title c) (c_team c) (c_lane c) (c_state c) (c_owner c) (c_updated c).

Definition in_progress_cards (d : db) : list CardSnap :=
  card_snap <$> sort_by (λ a b, then_with (Z.compare (c_updated a) (c_updated b)) (String.compare (c_id a) (c_id b)))
    (List.filter (λ c, in_hand (c_state c)) (cards d)).

Definition count_u32 (n : Z) : Z := if in_u32 n then n else u32_max.

Definition read_marks (d : db) : list Mark :=
  (λ m, mk_mark (mk_key m) (mk_last m) (count_u32 (mk_count m))) <$>
  sort_by (λ a b, String.compare (mk_key a) (mk_key b)) (reconcile_marks (work d)).

Definition supervises (i : ident) : bool :=
  (String.eqb (i_role i) "supervisor" || String.eqb (i_role i) "controller" || String.eqb (i_role i) "owner")
  && negb (i_revoked i) && negb (i_system i).

Definition supervisor_keys (d : db) : list string :=
  sort_by String.compare ((λ i, hex (i_pubkey i)) <$> List.filter supervises (identities d)).

Definition sprint_snap (d : db) (s : sprint_row) : SprintSnap :=
  let open_cards := List.filter (λ st, negb (String.eqb st "done") && negb (String.eqb st "cancelled"))
                      (sprint_states (sn_id s) d) in
  mk_sprint_snap (sn_id s) (sn_name s) (sn_ends s) (sn_state s) (count_u32 (Z.of_nat (length open_cards))).

Definition read_sprints (d : db) : list SprintSnap :=
  sprint_snap d <$> sort_by (λ a b, String.compare (sn_id a) (sn_id b))
    (List.filter sprint_active (sprints (team d))).

(** A claimed task with a command and without a request; rows are in [seq]
    order. *)
Definition claim_snap (t : work_task) : option ClaimSnap :=
  let cl := w_claim t in
  match cl_agent cl, cl_claimed cl with
  | Some agent, Some claimed =>
      if String.eqb (w_state t) "claimed" && bool_decide (cl_requested cl = None)
         && bool_decide (is_Some (sp_command (w_spec t)))
      then Some (mk_claim_snap (w_id t) agent claimed (sp_title (w_spec t)))
      else None
  | _, _ => None
  end.

Definition read_claims (d : db) : list ClaimSnap := omap claim_snap (work_tasks (work d)).

Section Reads.
Context `{P : Prims} `{LC : LeaseCodec} `{PC : PolicyCodec}.

Definition stored_policies : tx (list PolicyRecord) :=
  rows ← query (λ d, sort_by (λ a b, then_with (String.compare (pr_team a) (pr_team b))
                                       (String.compare (pr_lane a) (pr_lane b))) (policies d));
  lift (try_map (λ r, p ← ok_or (parse_policy (pr_json r)) (Invalid "stored policy is corrupt");
                      Ok (mk_policy_record (pr_team r) (pr_lane r) p (pr_updated r) (pr_by r))) rows).

Definition read_leases (keep : lease → bool) (order : lease → lease → comparison) : tx (list LeaseRecord) :=
  rows ← query (λ d, sort_by order (List.filter keep (leases d)));
  lift (try_map lease_from_row rows).

Definition reconcile_input (now : Z) (machine : option MachineSnapshot) (require_review_default : bool) :
    tx ReconcileInput :=
  blocker_card ← query (λ d, match state_value "blocker_card" d with
                             | Some id => if card_is_open id d then Some id else None
                             | None => None
                             end);
  settings ← settings_in;
  cards ← query in_progress_cards;
  leases ← read_leases (λ l, bool_decide (l_released l = None)) (λ a b, String.compare (l_id a) (l_id b));
  policies ← stored_policies;
  marks ← query read_marks;
  supervisors ← query supervisor_keys;
  paused ← query (state_value "admission_paused");
  sprints ← query read_sprints;
  claims ← query read_claims;
  mret (mk_reconcile_input now settings machine cards leases policies require_review_default marks supervisors
          paused blocker_card sprints claims).
End Reads.

(** ** Effects *)

(** The state table: [INSERT … ON CONFLICT(key) DO UPDATE] and [DELETE]. *)
Definition put_state (key value : string) (d : db) : db :=
  if existsb (λ kv, String.eqb kv.1 key) (work_state (work d))
  then set_work_state (map (λ kv, if String.eqb kv.1 key then (key, value) else kv) (work_state (work d))) d
  else set_work_state (work_state (work d) ++ [(key, value)]) d.

Definition drop_state (key : string) (d : db) : db :=
  set_work_state (List.filter (λ kv, negb (String.eqb kv.1 key)) (work_state (work d))) d.

Definition marked (key : string) (d : db) : bool :=
  existsb (λ m, bool_decide (mk_key m = key)) (reconcile_marks (work d)).

Definition insert_mark (key : string) (now : Z) (d : db) : db :=
  set_marks (reconcile_marks (work d) ++ [mk_mark_row key now 1]) d.

Definition reclaim_card (now : Z) (actor card owner : string) : tx unit :=
  row ← query (find_card card);
  match row with
  | Some c =>
      if bool_decide (c_owner c = Some owner) && in_hand (c_state c)
      then execute (update_card card (with_state "ready" None now)) ≫= λ _,
           execute (drop_approvals card) ≫= λ _,
           append now actor "card.reclaimed" card (VObject []) ≫= λ _,
           append now actor "card.moved" card
             (VObject [("from", VString (c_state c)); ("to", VString "ready")]) ≫= λ _,
           mret tt
      else mret tt
  | None => mret tt
  end.

(** [LIKE 'blocker-%'] does not tell ASCII case. *)
Definition is_blocker_id (id : string) : bool := starts_with "blocker-" (to_ascii_lowercase id).

(** One candidate more than there are cards is enough. *)
Definition next_blocker_id : tx string :=
  found ← query (λ d,
    let count := Z.of_nat (length (List.filter (λ c, is_blocker_id (c_id c)) (cards d))) in
    first_free (S (length (cards d))) (λ i, "blocker-" +:+ dec (count + 1 + Z.of_nat i))
      (λ id, bool_decide (is_Some (find_card id d))) 0);
  lift (ok_or found (Invalid "no free blocker card id")).

Definition with_blocker_text (title owner_action : string) (now : Z) (c : card) : card :=
  mk_card (c_id c) title (c_lane c) (c_state c) (c_owner c) (c_created c) now (c_priority c) (c_value c)
    (c_size c) (c_team c) true owner_action.

Definition blocker_card (id title owner_action : string) (now : Z) : card :=
  mk_card id title "ops" "blocked" None now now 0 (f_of_Z 1) (f_of_Z 1) "" true owner_action.

Definition open_blocker (now : Z) (actor title owner_action : string) : tx string :=
  known ← query (state_value "blocker_card");
  open ← query (λ d, from_option (λ id, card_is_open id d) false known);
  match known, (open : bool) with
  | Some id, true =>
      execute (update_card id (with_blocker_text title owner_action now)) ≫= λ _, mret id
  | _, _ =>
      id ← next_blocker_id;
      execute (λ d, set_cards (cards d ++ [blocker_card id title owner_action now]) d) ≫= λ _,
      append now actor "card.created" id (VObject [("title", VString title); ("lane", VString "ops")]) ≫= λ _,
      execute (put_state "blocker_card" id) ≫= λ _,
      mret id
  end.

Definition without_need (c : card) : card :=
  mk_card (c_id c) (c_title c) (c_lane c) (c_state c) (c_owner c) (c_created c) (c_updated c) (c_priority c)
    (c_value c) (c_size c) (c_team c) false (c_owner_action c).

(** [SET state = 'cancelled', updated = ?]: the owner stays. *)
Definition as_cancelled (now : Z) (c : card) : card :=
  mk_card (c_id c) (c_title c) (c_lane c) "cancelled" (c_owner c) (c_created c) now (c_priority c) (c_value c)
    (c_size c) (c_team c) (c_needs_owner c) (c_owner_action c).

Definition iso_utc (ms : Z) : string :=
  let '(year, month, day, hour, minute, _) := civil_from_ms ms in
  let second := (ms mod 60000 / 1000)%Z in
  (if (year <? 0)%Z then "-" +:+ dec_pad 3 (- year) else dec_pad 4 year)
  +:+ "-" +:+ dec_pad 2 month +:+ "-" +:+ dec_pad 2 day +:+ "T" +:+ dec_pad 2 hour
  +:+ ":" +:+ dec_pad 2 minute +:+ ":" +:+ dec_pad 2 second +:+ "Z".

(** [INSERT OR IGNORE INTO evidence]. *)
Definition ignore_evidence (card reference by' : string) (d : db) : db :=
  if existsb (λ e, bool_decide (ev_card e = card ∧ ev_ref e = reference)) (evidence d) then d
  else set_evidence (evidence d ++ [mk_evidence card reference by']) d.

Definition close_blocker (now : Z) (actor : string) : tx (option string) :=
  known ← query (state_value "blocker_card");
  match known with
  | None => execute (drop_state "blocker_card") ≫= λ _, mret None
  | Some id =>
      execute (update_card id without_need) ≫= λ _,
      row ← query (find_card id);
      open ← query (card_is_open id);
      match row, (open : bool) with
      | Some c, true =>
          execute (update_card id (as_cancelled now)) ≫= λ _,
          execute (ignore_evidence id ("resolved at " +:+ iso_utc now) actor) ≫= λ _,
          append now actor "card.moved" id
            (VObject [("from", VString (c_state c)); ("to", VString "cancelled")]) ≫= λ _,
          mret tt
      | _, _ => mret tt
      end ≫= λ _,
      execute (drop_state "blocker_card") ≫= λ _,
      mret (Some id)
  end.

Definition set_admission (paused : option string) : tx unit :=
  match paused with
  | Some reason => execute (put_state "admission_paused" reason)
  | None => execute (drop_state "admission_paused")
  end.

(** *** Claims *)

Definition CLAIM_EXPIRED : string := "claim expired".
Definition MAX_CLAIM_TTL_MS : Z := i64_max / 2.

Section Effects.
Context `{P : Prims} `{LC : LeaseCodec} `{C : WorkCodec} `{RC : ReconcileCodec}.

Definition claim_ttl_ms : tx (option Z) :=
  s ← settings_in;
  let ttl_s := claim_ttl_s s in
  mret (if negb (is_finite ttl_s) || f_le ttl_s f_zero then None
        else Some (Z.min (f_as_i64 (ttl_s * f_of_Z 1000)%f64) MAX_CLAIM_TTL_MS)).

(** The [WHERE] of the update. *)
Definition claim_expires (now ttl : Z) (agent : string) (claimed_ms : Z) (t : work_task) : bool :=
  let cl := w_claim t in
  String.eqb (w_state t) "claimed" && bool_decide (cl_agent cl = Some agent)
  && bool_decide (cl_claimed cl = Some claimed_ms) && bool_decide (cl_requested cl = None)
  && bool_decide (is_Some (sp_command (w_spec t))) && (claimed_ms + ttl <=? now)%Z.

Definition expire_claim (now : Z) (actor task agent : string) (claimed_ms : Z) : tx bool :=
  ttl ← claim_ttl_ms;
  match ttl with
  | None => mret false
  | Some ttl =>
      row ← query (find_task task);
      match row with
      | Some t =>
          if claim_expires now ttl agent claimed_ms t
          then execute (update_task task (with_requeue CLAIM_EXPIRED)) ≫= λ _,
               append now actor "work.reclaimed" task
                 (VObject [("note", VString CLAIM_EXPIRED); ("scope", v_opt (sp_scope (w_spec t)));
                           ("detail", VString CLAIM_EXPIRED)]) ≫= λ _,
               mret true
          else mret false
      | None => mret false
      end
  end.

(** *** Actions *)

(** [UPDATE leases SET released = ?1 WHERE …]. *)
Definition expire_lease (now : Z) (lease : string) : db → db :=
  update_lease lease (λ l,
    if bool_decide (l_released l = None) && (String.eqb (l_kind l) "path" || String.eqb (l_kind l) "pool")
       && from_option (λ e, e <=? now)%Z false (l_expires l)
    then with_release now l else l).

Definition close_quiet (now : Z) (lease : string) : db → db :=
  update_lease lease (λ l,
    if bool_decide (l_released l = None) && String.eqb (l_kind l) "quiet" then with_release now l else l).

(** The effect of an action: the subject of its event, and whether it posted a
    notice. *)
Definition perform (now : Z) (actor : string) (a : ReconcileAction) : tx (string * bool) :=
  match a with
  | ExpireLease _ lease => execute (expire_lease now lease) ≫= λ _, mret (lease, false)
  | ExpireClaim _ task agent claimed_ms notice_key text =>
      released ← expire_claim now actor task agent claimed_ms;
      if (released : bool) && negb (is_empty_str notice_key) && negb (is_empty_str text)
      then post_notice now agent "claim_expired" task text ≫= λ _,
           execute (λ d, if marked notice_key d then d else insert_mark notice_key now d) ≫= λ _,
           mret (task, true)
      else mret (task, false)
  | CloseQuiet _ lease => execute (close_quiet now lease) ≫= λ _, mret (lease, false)
  | Notice _ target kind subject text => post_notice now target kind subject text ≫= λ _, mret (target, false)
  | ReclaimCard _ card owner => reclaim_card now actor card owner ≫= λ _, mret (card, false)
  | Blocker _ true title owner_action => id ← open_blocker now actor title owner_action; mret (id, false)
  | Blocker _ false _ _ => id ← close_blocker now actor; mret (default "blocker" id, false)
  | Admission _ paused => set_admission paused ≫= λ _, mret ("admission", false)
  end.

(** The transaction, [None] when its key was marked already. *)
Definition reconcile_tx (now : Z) (op : SignedOp) : tx (option ReconcileOutcome) :=
  authorize_system now op (o_kind op) ≫= λ _,
  action ← lift (ok_or (parse_action (o_arg op)) (Invalid "reconcile arg must be a reconcile action"));
  guard (negb (String.eqb (op_kind action) (o_kind op))) (Invalid "wrong operation kind") ≫= λ _,
  let key := action_key action in
  known ← query (marked key);
  if (known : bool) then mret None else
  let actor := actor_hex op in
  done ← perform now actor action;
  let '(subject, notice_posted) := (done : string * bool) in
  again ← query (marked key);
  guard again (Sql "UNIQUE constraint failed: reconcile_marks.key") ≫= λ _,
  execute (insert_mark key now) ≫= λ _,
  append now actor (o_kind op) subject (VObject [("key", VString key)]) ≫= λ _,
  mret (Some (mk_outcome true notice_posted)).

(** A marked action is dropped, and its transaction with it. *)
Definition apply_reconcile_outcome (now : Z) (op : SignedOp) : tx ReconcileOutcome := λ d,
  match reconcile_tx now op d with
  | Ok (None, _) => Ok (mk_outcome false false, d)
  | Ok (Some out, d') => Ok (out, d')
  | Err e => Err e
  end.

Definition apply_reconcile (now : Z) (op : SignedOp) : tx bool :=
  out ← apply_reconcile_outcome now op; mret (oc_applied out).
End Effects.

(** ** The watchdog *)

Record StaleCard : Type := mk_stale_card {
  sk_id : string; sk_title : string; sk_owner : option string; sk_state : string; sk_idle_s : f64;
  sk_stage : string }.

Record WipView : Type := mk_wip_view {
  wv_team : string; wv_lane : string; wv_count : Z; wv_limit : option Z }.

Record NeedsOwner : Type := mk_needs_owner { no_card : string; no_title : string; no_owner_action : string }.

Record WatchdogReport : Type := mk_watchdog {
  wd_now_ms : Z; wd_stale : list StaleCard; wd_expiring_leases : list LeaseRecord; wd_notices : list notice;
  wd_needs_owner : list NeedsOwner; wd_wip : list WipView; wd_paused : option string;
  wd_orphaned_jobs : list string }.

Definition secs (ms : Z) : f64 := (f_of_Z ms / f_of_Z 1000)%f64.

Definition stage_of (eff : EffectivePolicy) (idle_s : f64) : option string :=
  if f_lt idle_s (ef_stale_after_s eff) then None
  else if ef_reclaim eff && f_le (ef_reclaim_after_s eff) idle_s then Some "reclaim due"
  else if f_le (ef_stale_after_s eff + ef_escalate_after_s eff)%f64 idle_s then Some "escalated"
  else Some "stale".

(** [in_progress.entry(..).or_insert(0)], a map sorted by its keys. *)
Fixpoint bump_lane (k : string * string) (m : list ((string * string) * Z)) : list ((string * string) * Z) :=
  match m with
  | [] => [(k, 1%Z)]
  | (k', n) :: m' =>
      match lane_order k k' with
      | Eq => (k', Z.min (n + 1) u32_max) :: m'
      | Lt => (k, 1%Z) :: m
      | Gt => (k', n) :: bump_lane k m'
      end
  end.

Section Watchdog.
Context `{P : Prims} `{LC : LeaseCodec} `{PC : PolicyCodec}.

Fixpoint scan_cards (now : Z) (require_review_default : bool) (l : list CardSnap) (stale : list StaleCard)
    (lanes : list ((string * string) * Z)) : tx (list StaleCard * list ((string * string) * Z)) :=
  match l with
  | [] => mret (stale, lanes)
  | c :: l' =>
      eff ← effective_policy (cs_team c) (cs_lane c) require_review_default;
      let idle_s := secs (sat_i64 (now - cs_updated_ms c)) in
      let stale := match stage_of eff idle_s with
                   | Some stage => stale ++ [mk_stale_card (cs_id c) (cs_title c) (cs_owner c) (cs_state c) idle_s stage]
                   | None => stale
                   end in
      scan_cards now require_review_default l' stale (bump_lane (cs_team c, cs_lane c) lanes)
  end.

Fixpoint wip_views (require_review_default : bool) (l : list ((string * string) * Z)) : tx (list WipView) :=
  match l with
  | [] => mret []
  | ((team, lane), count) :: l' =>
      eff ← effective_policy team lane require_review_default;
      rest ← wip_views require_review_default l';
      mret (mk_wip_view team lane count (ef_wip_limit eff) :: rest)
  end.

(** [ORDER BY seq DESC LIMIT ?], turned round. *)
Definition last_notices (me : string) (d : db) : list notice :=
  reverse (firstn WATCHDOG_NOTICES (reverse (filter (λ n, nt_target n = me) (notices d)))).

Definition owner_needs (d : db) : list NeedsOwner :=
  (λ c, mk_needs_owner (c_id c) (c_title c) (c_owner_action c)) <$>
  sort_by (λ a b, String.compare (c_id a) (c_id b)) (List.filter c_needs_owner (cards d)).

Definition orphans (d : db) : list string :=
  w_id <$> List.filter (λ t, String.eqb (w_state t) "running" && contains_str ORPHAN_NOTE (w_note t))
    (work_tasks (work d)).

Definition watchdog_report (now : Z) (me : string) (require_review_default : bool) : tx WatchdogReport :=
  in_progress ← query in_progress_cards;
  scanned ← scan_cards now require_review_default in_progress [] [];
  let '(stale, lanes) := (scanned : list StaleCard * list ((string * string) * Z)) in
  wip ← wip_views require_review_default lanes;
  expiring ← read_leases (λ l, bool_decide (l_released l = None)
      && from_option (λ e, e <=? sat_i64 (now + EXPIRY_WINDOW_MS))%Z false (l_expires l))
    (λ a b, then_with (Z.compare (default i64_min (l_expires a)) (default i64_min (l_expires b)))
              (String.compare (l_id a) (l_id b)));
  notices ← query (last_notices me);
  needs ← query owner_needs;
  orphaned ← query orphans;
  paused ← query (state_value "admission_paused");
  mret (mk_watchdog now stale expiring notices needs wip paused orphaned).
End Watchdog.
