(* ===== verification/ReconInv.v ===== *)
(** * The reconciler: what its actions leave true

    An action that is applied keeps every table well formed, takes at most one
    step of a card's or a task's life, and marks its key; one whose key is marked
    changes nothing. *)

From Stdlib Require Import Ascii.
From stdpp Require Import relations.
From S2P Require Import Prelude F64 Strs PyFmt TextFmt Bytes Core Crypto Task Graph Order Claims Settings Predict.
From S2P Require Import Signature StoreDb Identity Leases Policy Board BoardLog WorkRow Work Jobs WorkInv.
From S2P Require Import WorkSteps WorkFrames JobCards Team Timers TimerInv Reconcile StoreReconcile.

(** ** What stays *)

(** Nothing of the parts but marks, state, notices and silent events. *)
Record still (d d' : db) : Prop := {
  st_outer : outer_frame d d';
  st_board : board_frame d d';
  st_nonces : nonces d' = nonces d;
  st_leases : leases d' = leases d;
  st_timers : timers (work d') = timers (work d);
  st_tasks : work_tasks (work d') = work_tasks (work d);
  st_seq : work_seq (work d') = work_seq (work d);
  st_scopes : work_scopes (work d') = work_scopes (work d);
  st_history : job_history (work d') = job_history (work d);
  st_marks k : marked k d = true → marked k d' = true }.

#[export] Instance still_pre : PreOrder still.
Proof. split; [by intros d|]. intros a b c [] []. constructor; try congruence; first [by etrans|auto]. Qed.

Lemma still_logged now actor kind subject data d : silent kind → still d (logged now actor kind subject data d).
Proof. intros H. apply (work_frame_logged now actor kind subject data d) in H as [[] ? ? Em]. constructor; try done. Qed.

Section Recon.
Context `{P : Prims} `{LC : LeaseCodec} `{C : WorkCodec} `{RC : ReconcileCodec}.

(** One action: each part is as it was or well formed again, a step further. *)
Record performed (now : Z) (d d' : db) : Prop := {
  pf_outer : outer_frame d d';
  pf_nonces : nonces d' = nonces d;
  pf_timers : timers (work d') = timers (work d);
  pf_marks k : marked k d = true → marked k d' = true;
  pf_leases : leases_wf now (leases d) → leases_wf now (leases d');
  pf_board : board_wf d → board_wf d' ∧ board_step d d';
  pf_work : work_wf (work d) → work_wf (work d') ∧ work_step BySystem d d' }.

(** The queue sees its own tables only. *)
Lemma still_work d d' : still d d' → work_wf (work d) → work_wf (work d').
Proof. intros []. by apply work_wf_tables. Qed.

Lemma still_view id d d' : still d d' → view_at id d' = view_at id d.
Proof. intros []. unfold view_at, find_task. by rewrite st_tasks0. Qed.

Lemma still_performed now d d' : still d d' → performed now d d'.
Proof.
  intros H. pose proof H as [Ho Hb En El Et _ _ _ _ Hm]. constructor; try done.
  - by rewrite El.
  - intros Hwf. by apply board_keep_same.
  - intros Hwf. split; [by eapply still_work|]. intros id. left. by apply still_view.
Qed.

Lemma performed_still now d1 d2 d3 : performed now d1 d2 → still d2 d3 → performed now d1 d3.
Proof.
  intros [Ho En Et Hm Hl Hb Hw] H. pose proof H as [Ho' Hb' En' El' Et' _ _ _ _ Hm']. constructor.
  - by etrans.
  - congruence.
  - congruence.
  - auto.
  - rewrite El'. exact Hl.
  - intros [Hwf Hst]%Hb. destruct (board_keep_same _ _ Hwf Hb') as [Hwf' _]. split; [done|]. intros id.
    rewrite (card_at_cards id d2 d3) by apply Hb'. apply Hst.
  - intros [Hwf Hst]%Hw. split; [by eapply still_work|]. intros id. rewrite (still_view id d2 d3) by done. apply Hst.
Qed.

(** ** Statements that keep everything *)

Lemma still_put key value d : still d (put_state key value d).
Proof. unfold put_state. by destruct (existsb _ _). Qed.

Lemma still_drop key d : still d (drop_state key d).
Proof. done. Qed.

Lemma still_mark key now d : still d (insert_mark key now d).
Proof. constructor; try done. intros k. unfold marked. cbn. rewrite existsb_app. by intros ->. Qed.

Lemma still_notices t n d : still d (set_notices t n d).
Proof. done. Qed.

Lemma post_notice_still now target kind subject text : frames still (post_notice now target kind subject text).
Proof. unfold post_notice. repeat frame_step. apply still_notices. Qed.

(** ** Leases *)

Lemma performed_leases now id f d :
  (∀ l, f l = l ∨ f l = with_release now l) → performed now d (update_lease id f d).
Proof.
  intros Hf. constructor; try done.
  - unfold update_lease. cbn [leases set_leases]. intros Hwf. apply (leases_wf_map now); try done.
    + intros l. case_decide; [|done]. by destruct (Hf l) as [->| ->].
    + intros l _. case_decide; [|done]. by destruct (Hf l) as [->| ->].
  - intros Hwf. by apply board_keep_same.
  - intros Hwf. split; [done|]. by apply work_step_same.
Qed.

Lemma expire_lease_performed now lease d : performed now d (expire_lease now lease d).
Proof. apply performed_leases. intros l. destruct (_ && _); auto. Qed.

Lemma close_quiet_performed now lease d : performed now d (close_quiet now lease d).
Proof. apply performed_leases. intros l. destruct (_ && _); auto. Qed.

(** ** Claims *)

Lemma claim_ttl_ms_Ok d r d' : claim_ttl_ms d = Ok (r, d') → d' = d.
Proof. unfold claim_ttl_ms. intros H. step settings_in_Ok in H as s ->. by apply mret_Ok in H as [_ ->]. Qed.

Lemma requeue_ok task t d d' :
  work_wf (work d) → find_task task d = Some t → w_state t = "claimed" → cl_requested (w_claim t) = None →
  is_Some (sp_command (w_spec t)) → work d' = work (update_task task (with_requeue CLAIM_EXPIRED) d) →
  body_ok BySystem d d'.
Proof.
  intros Hwf Hf Hst Hrq Hcmd E. pose proof (find_task_Some _ _ _ Hf) as [Hin _].
  destruct (tw_state _ (ww_task _ Hwf t Hin)) as (s & Hs & Hcol). rewrite Hst in Hs.
  assert (s = TClaimed) as -> by (by destruct s). cbn in Hcol.
  eapply (body_ok_update (with_requeue CLAIM_EXPIRED)); try done. constructor; try done.
  - exists TQueued. split; [done|]. cbn. rewrite Hrq. naive_solver.
  - by intros [?|?].
  - right. rewrite (view_of_state TQueued (with_requeue _ t)) by done. rewrite (view_of_state TClaimed t) by done.
    cbn. rewrite Hrq. destruct Hcol as ([a Ha] & _). rewrite Ha. apply wl_requeue. right; right. done.
Qed.

Lemma expire_claim_performed now actor task agent ms d r d' :
  expire_claim now actor task agent ms d = Ok (r, d') → performed now d d'.
Proof.
  unfold expire_claim. intros H. step claim_ttl_ms_Ok in H as ttl ->.
  destruct ttl as [ttl|]; [|apply mret_Ok in H as [_ ->]; by apply still_performed].
  step query_Ok in H as row [-> ->]. destruct (find_task task d) as [t|] eqn:Hf;
    [|apply mret_Ok in H as [_ ->]; by apply still_performed].
  destruct (claim_expires now ttl agent ms t) eqn:Hc; [|apply mret_Ok in H as [_ ->]; by apply still_performed].
  unfold claim_expires in Hc. rewrite !andb_true_iff, !bool_decide_eq_true in Hc.
  destruct Hc as (((((Hs%String.eqb_eq & _) & _) & Hrq) & Hcmd) & _).
  step execute_Ok in H as ? ->. step append_Ok in H as ? ->. apply mret_Ok in H as [_ ->].
  eapply performed_still; [|apply still_logged; by repeat split]. constructor; try done.
  - intros Hwf. by apply board_keep_same.
  - intros Hwf. eapply requeue_ok; try done.
Qed.

(** ** Cards *)

(** A change of the board alone. *)
Lemma performed_board now d d' :
  outer_frame d d' → nonces d' = nonces d → leases d' = leases d → work d' = work d →
  (board_wf d → board_wf d' ∧ board_step d d') → performed now d d'.
Proof.
  intros Ho En El Ew Hb. constructor; try done.
  - by rewrite Ew.
  - intros k. unfold marked. by rewrite Ew.
  - by rewrite El.
  - intros Hwf. split; [by rewrite Ew|by apply work_step_same].
Qed.

Lemma replay_at id d s : board_wf d → card_at id d = Some s → s ≠ Blocked → replay (events d) id = Some s.
Proof. intros Hwf Hat Hne. destruct (bw_log d Hwf id) as [->|(_ & _ & E)]; congruence. Qed.

(** A second event that says where the card is. *)
Lemma board_repeat now actor id data d s :
  board_wf d → card_at id d = Some s → s ≠ Blocked →
  (∀ x, apply_event id x (mk_event (event_seq d + 1) now actor "card.moved" id data) = Some s) →
  let d' := logged now actor "card.moved" id data d in board_wf d' ∧ ∀ id', card_at id' d' = card_at id' d.
Proof.
  intros Hwf Hat Hne Happ d'. split; [|done]. apply (board_keep d d' (λ c, c)); try done; [by rewrite map_id|].
  intros id'. unfold d', logged. cbn [events set_events]. rewrite replay_snoc.
  destruct (decide (id' = id)) as [->|Hid]; [|by apply apply_event_other].
  rewrite Happ. symmetry. by apply replay_at.
Qed.

Lemma reclaim_card_performed now actor card owner d u d' :
  reclaim_card now actor card owner d = Ok (u, d') → performed now d d'.
Proof.
  unfold reclaim_card. intros H. step query_Ok in H as row [-> ->].
  destruct (find_card card d) as [c|] eqn:Hf; [|apply mret_Ok in H as [_ ->]; by apply still_performed].
  destruct (_ && _) eqn:Hc; [|apply mret_Ok in H as [_ ->]; by apply still_performed].
  apply andb_true_iff in Hc as [_ Hh]. tx_inv. apply performed_board; try done; [constructor; try done; cbn; lia|].
  intros Hwf. pose proof (find_card_Some _ _ _ Hf) as [Hin Hid].
  set (d1 := logged now actor "card.reclaimed" card (VObject [])
    (drop_approvals card (update_card card (with_state "ready" None now) d))).
  destruct (bw_card d Hwf c Hin) as (s & Hs & _).
  assert (s = Claimed ∨ s = Doing) as Hfrom.
  { unfold in_hand in Hh. apply orb_true_iff in Hh as [E%String.eqb_eq|E%String.eqb_eq]; rewrite E in Hs; injection Hs; auto. }
  assert (board_wf d1 ∧ board_step d d1) as [Hwf1 Hst1].
  { eapply (move_board d d1 (with_state "ready" None now) card c s Ready); try done.
    - by apply life_reclaim.
    - intros z. unfold apply_event. cbn. by rewrite bool_decide_eq_true_2. }
  assert (card_at card d1 = Some Ready) as Hat.
  { transitivity (find_card card (update_card card (with_state "ready" None now) d) ≫= λ c, card_parse (c_state c)); [done|].
    rewrite card_at_update, decide_True, Hf by done. done. }
  destruct (board_repeat now actor card (VObject [("from", VString (c_state c)); ("to", VString "ready")]) d1 Ready)
    as [Hwf2 Hsame]; try done.
  { intros z. unfold apply_event. cbn. by rewrite bool_decide_eq_true_2. }
Qed.

Lemma next_blocker_id_Ok d id d' :
  next_blocker_id d = Ok (id, d') → d' = d ∧ find_card id d = None ∧ starts_with "blocker-" id = true.
Proof.
  unfold next_blocker_id. intros H. step query_Ok in H as found [-> ->]. apply lift_Ok in H as [H ->].
  destruct (first_free _ _ _ _) as [x|] eqn:E; [|done]. injection H as ->.
  apply first_free_Some in E as (Hn & j & _ & ->). split_and!; [done| |apply starts_with_true; eauto].
  apply bool_decide_eq_false in Hn. by apply eq_None_not_Some.
Qed.

(** The search ends. *)
Lemma next_blocker_id_total d : ∃ id, next_blocker_id d = Ok (id, d).
Proof.
  unfold next_blocker_id, mbind, tx_bind, query, lift. set (n := Z.of_nat _).
  destruct (first_free_total (c_id <$> cards d) (λ i, "blocker-" +:+ dec (n + 1 + Z.of_nat i))
    (λ id, bool_decide (is_Some (find_card id d)))) as [id Hid].
  - intros x [c Hc]%bool_decide_eq_true. apply find_card_Some in Hc as [Hc <-]. by apply list_elem_of_fmap_2.
  - intros i j _ _ E. apply (inj (String.append "blocker-")) in E. apply dec_inj in E; lia.
  - rewrite length_fmap in Hid. rewrite Hid. by exists id.
Qed.

(** A new blocker: its event says created, its row says blocked. *)
Lemma new_blocker_board now actor id title owner_action data d :
  board_wf d → find_card id d = None → starts_with "blocker-" id = true →
  let d' := logged now actor "card.created" id data
              (set_cards (cards d ++ [blocker_card id title owner_action now]) d) in
  board_wf d' ∧ board_step d d'.
Proof.
  intros Hwf Hn Hb d'. set (c := blocker_card id title owner_action now).
  assert (∀ z, z ∈ cards d' ↔ z ∈ cards d ∨ z = c) as Hel by (intros z; cbn; by rewrite elem_of_app, list_elem_of_singleton).
  assert (∀ id', find_card id' d' = match find_card id' d with Some y => Some y
    | None => if decide (c_id c = id') then Some c else None end) as Hfind by (intros id'; apply (find_app c_id)).
  assert (∀ k, known d k → known d' k) as Hk by (intros k (z & Hz & E); exists z; rewrite Hel; auto).
  split.
  - constructor; try done.
    + apply keys_insert; [apply (bw_ids d Hwf)|]. intros z Hz. by apply (find_card_None _ _ _ Hn).
    + intros z [Hz| ->]%Hel; [by apply (bw_card d Hwf)|]. by exists Blocked.
    + intros a (z & s & Hz & E)%(bw_approval d Hwf). exists z, s. rewrite Hel. naive_solver.
    + intros e [? ?]%(bw_dep d Hwf). split; by apply Hk.
    + apply (bw_acyclic d Hwf).
    + intros id'. unfold log_agrees, d', logged. cbn [events set_events]. rewrite replay_snoc.
      destruct (decide (id' = id)) as [->|Hne].
      * right. split_and!; [done|unfold apply_event; cbn; by rewrite bool_decide_eq_true_2|].
        unfold card_at. fold d'. rewrite Hfind, Hn, decide_True by done. done.
      * rewrite apply_event_other by done. unfold card_at. fold d'. rewrite Hfind. pose proof (bw_log d Hwf id') as Hl.
        unfold log_agrees, card_at in Hl. destruct (find_card id' d); [done|]. by rewrite decide_False by (cbn; congruence).
  - intros id'. unfold card_at. rewrite Hfind. destruct (find_card id' d); [by left|].
    case_decide; [right; apply life_blocker|by left].
Qed.

Lemma open_blocker_performed now actor title owner_action d id d' :
  open_blocker now actor title owner_action d = Ok (id, d') → performed now d d'.
Proof.
  unfold open_blocker. intros H. step query_Ok in H as known [-> ->]. step query_Ok in H as op [-> ->].
  assert (∀ id0, next_blocker_id d = Ok (id0, d) → performed now d
    (put_state "blocker_card" id0 (logged now actor "card.created" id0
      (VObject [("title", VString title); ("lane", VString "ops")])
      (set_cards (cards d ++ [blocker_card id0 title owner_action now]) d)))) as Hnew.
  { intros id0 (_ & Hn & Hb)%next_blocker_id_Ok. eapply performed_still; [|apply still_put].
    apply performed_board; try done; [constructor; try done; cbn; lia|]. intros Hwf. by apply new_blocker_board. }
  destruct (state_value "blocker_card" d) as [known|]; [destruct (from_option _ _ _)|].
  - tx_inv. apply performed_board; try done. intros Hwf. by apply update_card_keep.
  - apply tx_bind_Ok in H as (id0 & d1 & Hid & H). pose proof Hid as [-> _]%next_blocker_id_Ok.
    apply Hnew in Hid. by tx_inv.
  - apply tx_bind_Ok in H as (id0 & d1 & Hid & H). pose proof Hid as [-> _]%next_blocker_id_Ok.
    apply Hnew in Hid. by tx_inv.
Qed.

Lemma card_is_open_true id d c : find_card id d = Some c → card_is_open id d = true →
  ∀ s, card_parse (c_state c) = Some s → s ≠ Done ∧ s ≠ Cancelled.
Proof.
  unfold card_is_open. intros ->. cbn. intros [H1%negb_true_iff H2%negb_true_iff]%andb_true_iff s Hs.
  apply String.eqb_neq in H1, H2. apply card_parse_Some in Hs. split; intros ->; by rewrite Hs in *.
Qed.

(** The blocker is cancelled whatever state it is in. *)
Lemma cancel_board now actor id c d :
  board_wf d → find_card id d = Some c → card_is_open id d = true →
  let d' := logged now actor "card.moved" id (VObject [("from", VString (c_state c)); ("to", VString "cancelled")])
              (ignore_evidence id ("resolved at " +:+ iso_utc now) actor (update_card id (as_cancelled now) d)) in
  board_wf d' ∧ board_step d d'.
Proof.
  intros Hwf Hf Ho d'. pose proof (find_card_Some _ _ _ Hf) as [Hin Hid].
  destruct (bw_card d Hwf c Hin) as (s & Hs & Hown & _). destruct (card_is_open_true _ _ _ Hf Ho _ Hs) as [Hnd Hnc].
  set (d1 := logged now actor "card.moved" id (VObject [("from", VString (c_state c)); ("to", VString "cancelled")])
    (update_card id (as_cancelled now) d)).
  assert (board_wf d1 ∧ board_step d d1) as [Hwf1 Hst1].
  { eapply (move_board d d1 (as_cancelled now) id c s Cancelled); try done.
    - apply (life_move _ _ Supervisor (mk_gate false false false)); [by destruct s|done].
    - intros z. unfold apply_event. cbn. by rewrite bool_decide_eq_true_2. }
  assert (cards d' = cards d1 ∧ approvals d' = approvals d1 ∧ card_deps d' = card_deps d1 ∧ events d' = events d1 ∧
    ∀ z, z ∈ evidence d1 → z ∈ evidence d') as (E1 & E2 & E3 & E4 & E5).
  { unfold d', ignore_evidence. destruct (existsb _ _); [done|]. cbn. split_and!; try done.
    intros z Hz. apply elem_of_app. by left. }
  destruct (board_keep d1 d' (λ c, c)) as [Hwf' _]; try done; [by rewrite map_id|by rewrite E4|].
  split; [done|]. intros id'. rewrite (card_at_cards id' d1 d') by done. apply Hst1.
Qed.

Lemma close_blocker_performed now actor d r d' :
  close_blocker now actor d = Ok (r, d') → performed now d d'.
Proof.
  unfold close_blocker. intros H. step query_Ok in H as known [-> ->].
  destruct (state_value "blocker_card" d) as [id|]; [|tx_inv; apply still_performed, still_drop].
  step execute_Ok in H as ? ->. step query_Ok in H as row [-> ->]. step query_Ok in H as op [-> ->].
  set (d1 := update_card id without_need d) in *.
  assert (∀ dd, board_wf d → board_wf d1 → board_wf dd ∧ board_step d1 dd → board_wf dd ∧ board_step d dd) as Hpre.
  { intros dd Hwf Hwf1 [Hwf' Hst]. split; [done|]. intros id'.
    destruct (update_card_keep id without_need d Hwf) as [_ Hs0]; [done|].
    assert (card_at id' d1 = card_at id' d) as <-; [|apply Hst]. unfold card_at, d1. rewrite card_at_update by done.
    case_decide; destruct (find_card id' d); done. }
  apply tx_bind_Ok in H as (v & d2 & Hmid & H). tx_inv. eapply performed_still; [|apply still_drop].
  destruct (find_card id d1) as [c|] eqn:Hf; [destruct (card_is_open id d1) eqn:Ho|].
  - tx_inv. apply performed_board.
    + unfold ignore_evidence. destruct (existsb _ _); constructor; try done; cbn; lia.
    + unfold ignore_evidence. by destruct (existsb _ _).
    + unfold ignore_evidence. by destruct (existsb _ _).
    + unfold ignore_evidence. by destruct (existsb _ _).
    + intros Hwf. assert (board_wf d1) as Hwf1 by (by apply update_card_keep). apply Hpre; try done.
      by apply cancel_board.
  - tx_inv. apply performed_board; try done. intros Hwf. by apply update_card_keep.
  - tx_inv. apply performed_board; try done. intros Hwf. by apply update_card_keep.
Qed.

(** ** Actions *)

Lemma perform_performed now actor a d r d' : perform now actor a d = Ok (r, d') → performed now d d'.
Proof.
  destruct a as [key lease|key task agent ms nk text|key lease|key target kind subject text|key card owner
    |key [] title oa|key paused]; cbn [perform]; intros H.
  - tx_inv. apply expire_lease_performed.
  - apply tx_bind_Ok in H as (b & d1 & Hx%expire_claim_performed & H). destruct (_ && _); [|by tx_inv].
    apply tx_bind_Ok in H as (n & d2 & Hn%post_notice_still & H). tx_inv. eapply performed_still; [done|].
    etrans; [exact Hn|]. destruct (marked nk d2); [done|apply still_mark].
  - tx_inv. apply close_quiet_performed.
  - apply tx_bind_Ok in H as (n & d2 & Hn%post_notice_still & H). tx_inv. by apply still_performed.
  - apply tx_bind_Ok in H as (n & d2 & Hn%reclaim_card_performed & H). by tx_inv.
  - apply tx_bind_Ok in H as (n & d2 & Hn%open_blocker_performed & H). by tx_inv.
  - apply tx_bind_Ok in H as (n & d2 & Hn%close_blocker_performed & H). by tx_inv.
  - apply tx_bind_Ok in H as (n & d2 & Hn & H). tx_inv. unfold set_admission in Hn.
    destruct paused; apply execute_Ok in Hn as ->; apply still_performed; [apply still_put|apply still_drop].
Qed.

Lemma marked_true key d : marked key d = true ↔ key ∈ mk_key <$> reconcile_marks (work d).
Proof.
  unfold marked. rewrite existsb_elem, list_elem_of_fmap. setoid_rewrite bool_decide_eq_true. naive_solver.
Qed.

(** An action that was applied: the daemon signed it, it was not marked and is
    now. *)
Record applied (now : Z) (op : SignedOp) (a : ReconcileAction) (d d' : db) : Prop := {
  ap_auth : sys_authorized now op (o_kind op) d;
  ap_action : parse_action (o_arg op) = Some a;
  ap_kind : op_kind a = o_kind op;
  ap_fresh : marked (action_key a) d = false;
  ap_marked : marked (action_key a) d' = true;
  ap_done : performed now (with_nonce now op d) d' }.

Lemma op_kind_silent a : silent (op_kind a).
Proof. by destruct a as [| | | | | |]; repeat split. Qed.

Lemma apply_reconcile_Ok now op d out d' :
  apply_reconcile_outcome now op d = Ok (out, d') →
  (d' = d ∧ oc_applied out = false ∧ sys_authorized now op (o_kind op) d ∧ ∃ a, parse_action (o_arg op) = Some a ∧ marked (action_key a) d = true) ∨
  (oc_applied out = true ∧ ∃ a, applied now op a d d').
Proof.
  unfold apply_reconcile_outcome. destruct (reconcile_tx now op d) as [[[o|] d1]|e] eqn:E; [..|done]; intros [= <- <-].
  - right. unfold reconcile_tx in E. apply tx_bind_Ok in E as (u & d2 & [Hau ->]%authorize_system_record & H).
    step lift_Ok in H as a [Hp ->]. step guard_Ok in H as ? [Hk%negb_false_iff%String.eqb_eq ->].
    step query_Ok in H as known [-> ->]. destruct (marked _ _) eqn:Hm; [by apply mret_Ok in H as [H _]|].
    apply tx_bind_Ok in H as ([subject posted] & d2 & Hd%perform_performed & H).
    step query_Ok in H as again [-> ->]. step guard_Ok in H as ? [Hag ->]. step execute_Ok in H as ? ->.
    step append_Ok in H as ? ->. apply mret_Ok in H as [[= ->] ->]. split; [done|]. exists a.
    destruct (parse_action (o_arg op)) as [a'|] eqn:Hpa; [|done]. injection Hp as ->. constructor; try done.
    + apply marked_true. cbn. rewrite fmap_app, elem_of_app. right. by left.
    + eapply performed_still; [exact Hd|]. etrans; [apply still_mark|]. rewrite <- Hk. apply still_logged, op_kind_silent.
  - left. unfold reconcile_tx in E.
    apply tx_bind_Ok in E as (u & d2 & [Hau ->]%authorize_system_record & H). split_and!; [done..|].
    step lift_Ok in H as a [Hp ->]. step guard_Ok in H as ? [_ ->]. step query_Ok in H as known [-> ->].
    destruct (parse_action (o_arg op)) as [a'|] eqn:Hpa; [|done]. injection Hp as ->. exists a. split; [done|].
    destruct (marked (action_key a) _) eqn:Hm; [done|].
    apply tx_bind_Ok in H as ([subject posted] & d3 & _ & H). tx_inv.
Qed.
End Recon.
