(* ===== verification/DemoCodec.v ===== *)
(** * A concrete store

    Instances of the parameters for examples: signatures of 64 bytes verify for
    every key, argument texts are their own titles, paths and ids, and a list
    of texts is written with a mark before every byte. *)

From Stdlib Require Import Ascii.
From S2P Require Import Prelude F64 Strs PyFmt Bytes Core Crypto Task Graph Order Claims Settings.
From S2P Require Import Timer Predict Signature StoreDb Identity Leases Policy Board WorkRow Work Jobs WorkJobs Timers Reconcile StoreReconcile.

(** ** Lists of texts *)

Fixpoint encode_text (s : string) : string :=
  match s with
  | EmptyString => "e"
  | String c s' => String "c" (String c (encode_text s'))
  end.

Fixpoint encode_texts (l : list string) : string :=
  match l with [] => "" | s :: l' => encode_text s +:+ encode_texts l' end.

Definition demo_list (l : list string) : string := match l with [] => "[]" | _ => encode_texts l end.

(** [acc] is the text under way and [l] the texts before it. *)
Fixpoint decode_texts (acc : string) (l : list string) (s : string) : option (list string) :=
  match s with
  | EmptyString => if is_empty_str acc then Some l else None
  | String "e" s' => decode_texts "" (l ++ [acc]) s'
  | String "c" (String c s') => decode_texts (acc +:+ String c EmptyString) l s'
  | _ => None
  end.

Definition parse_list (s : string) : option (list string) :=
  if String.eqb s "[]" then Some [] else decode_texts "" [] s.

Lemma decode_text acc l s rest :
  decode_texts acc l (encode_text s +:+ rest) = decode_texts "" (l ++ [acc +:+ s]) rest.
Proof.
  revert acc. induction s as [|c s IH]; intros acc; cbn [encode_text]; rewrite !str_app_cons; cbn [decode_texts].
  - by rewrite str_app_nil_r.
  - by rewrite IH, str_app_assoc.
Qed.

Lemma decode_encode l acc : decode_texts "" acc (encode_texts l) = Some (acc ++ l).
Proof.
  revert acc. induction l as [|s l IH]; intros acc; cbn [encode_texts]; [by rewrite app_nil_r|].
  rewrite decode_text, IH, <- app_assoc. done.
Qed.

Lemma parse_list_demo l : parse_list (demo_list l) = Some l.
Proof.
  destruct l as [|s l]; [done|]. unfold parse_list, demo_list.
  replace (String.eqb (encode_texts (s :: l)) "[]") with false; [by rewrite decode_encode|].
  by destruct s.
Qed.

(** ** Numbers and options *)

Fixpoint pos_text (p : BinNums.positive) : string :=
  match p with xI q => String "1" (pos_text q) | xO q => String "0" (pos_text q) | xH => "" end.

Fixpoint text_pos (s : string) : option BinNums.positive :=
  match s with
  | EmptyString => Some xH
  | String "1" r => xI <$> text_pos r
  | String "0" r => xO <$> text_pos r
  | _ => None
  end.

Definition z_text (z : Z) : string :=
  match z with Z0 => "" | Zpos p => String "p" (pos_text p) | Zneg p => String "n" (pos_text p) end.

Definition text_z (s : string) : option Z :=
  match s with
  | EmptyString => Some Z0
  | String "p" r => Zpos <$> text_pos r
  | String "n" r => Zneg <$> text_pos r
  | _ => None
  end.

Lemma text_pos_text p : text_pos (pos_text p) = Some p.
Proof. induction p as [p IH|p IH|]; cbn; [by rewrite IH..|done]. Qed.

Lemma text_z_text z : text_z (z_text z) = Some z.
Proof. destruct z; cbn; [done|by rewrite text_pos_text..]. Qed.

Definition opt_text (o : option string) : string := demo_list (option_list o).

Definition text_opt (s : string) : option (option string) :=
  l ← parse_list s; match l with [] => Some None | [x] => Some (Some x) | _ => None end.

Lemma text_opt_text o : text_opt (opt_text o) = Some o.
Proof. unfold text_opt, opt_text. rewrite parse_list_demo. by destruct o. Qed.

(** ** Schedules and templates *)

Definition demo_spec (spec : TimerSpec) : string :=
  demo_list match spec with
            | TAt ms => ["at"; z_text ms]
            | TEvery n start => ["every"; z_text n; opt_text (z_text <$> start)]
            | TCron expr => ["cron"; expr]
            end.

Definition parse_demo_spec (s : string) : option TimerSpec :=
  l ← parse_list s;
  match l with
  | ["at"; ms] => TAt <$> text_z ms
  | ["every"; n; start] =>
      n ← text_z n; start ← text_opt start;
      match start with None => Some (TEvery n None) | Some t => z ← text_z t; Some (TEvery n (Some z)) end
  | ["cron"; expr] => Some (TCron expr)
  | _ => None
  end.

Lemma parse_demo_spec_text spec : parse_demo_spec (demo_spec spec) = Some spec.
Proof.
  unfold parse_demo_spec, demo_spec. rewrite parse_list_demo. destruct spec as [ms|n start|expr]; cbn; [|..|done].
  - by rewrite text_z_text.
  - rewrite text_z_text. cbn. rewrite text_opt_text. destruct start; cbn; [by rewrite text_z_text|done].
Qed.

Definition demo_template (t : AddArgs) : string :=
  demo_list [opt_text (ad_id t); ad_title t; ad_kind t; opt_text (ad_scope t); demo_list (ad_after t);
    demo_list (ad_files t); opt_text (demo_list <$> ad_command t); opt_text (ad_cwd t); opt_text (ad_card t)].

Definition parse_demo_template (s : string) : option AddArgs :=
  l ← parse_list s;
  match l with
  | [id; title; kind; scope; after; files; command; cwd; card] =>
      id ← text_opt id; scope ← text_opt scope; after ← parse_list after; files ← parse_list files;
      command ← text_opt command;
      command ← match command with None => Some None | Some c => Some <$> parse_list c end;
      cwd ← text_opt cwd; card ← text_opt card;
      Some (mk_add_args id title kind scope after (f_of_Z 1) (f_of_Z 1) files (f_of_Z 1) command cwd card)
  | _ => None
  end.

Lemma parse_demo_template_text t :
  ∃ t', parse_demo_template (demo_template t) = Some t' ∧ same_template t t'.
Proof.
  unfold parse_demo_template, demo_template. rewrite parse_list_demo. cbn [mbind option_bind].
  rewrite !text_opt_text, !parse_list_demo. cbn [mbind option_bind].
  destruct t as [id title kind scope after size value files weight [argv|] cwd card]; cbn -[parse_list demo_list].
  - rewrite parse_list_demo. eexists. split; [reflexivity|]. by repeat split.
  - eexists. split; [reflexivity|]. by repeat split.
Qed.

(** ** Instances *)

Definition demo_prims : Prims := {|
  blake3 b := be_bytes 32 (str_len b);
  blake3_derive _ _ := be_bytes 32 0;
  vk_valid _ := true;
  ed_public seed := seed;
  ed_sign _ _ := be_bytes 64 0;
  ed_verify _ _ _ := true;
  x_shared _ _ := "";
  aead_encrypt _ _ _ m := Some (m +:+ be_bytes 16 0);
  aead_decrypt _ _ _ c := Some (str_take (String.length c - 16) c) |}.

Definition demo_leases : LeaseCodec := {|
  parse_lease_args s := Some (mk_lease_args KPath s f_zero None None None "");
  parse_renew_args _ := Some None;
  parse_quiet_args _ := Some (mk_quiet_args 10000000 "");
  parse_pool_args s := Some (mk_pool_args s (f_of_Z 1) "" "");
  parse_files := parse_list;
  parse_settings _ := None;
  sql_sum _ := f_zero |}.

Definition demo_policies : PolicyCodec := {|
  parse_policy _ := None;
  parse_policy_args _ := None;
  policy_value _ := VNull;
  value_text _ := "null" |}.

Definition demo_json : JsonText := {|
  parse_json s := Some (VObject [("title", VString s)]) |}.

Definition demo_board : BoardCodec := {|
  parse_update _ := None;
  parse_dep s := Some (mk_dep_args s false);
  parse_link _ := None;
  parse_escalate _ := None |}.

(** A task is named by the argument, runs [make] in [/p] and changes one file. *)
Definition demo_work : WorkCodec := {|
  sha256 _ := [];
  digest_json _ _ _ _ := "";
  list_json := demo_list;
  prediction_json _ := "";
  parse_prediction _ := Some (mk_prediction f_zero None None f_zero None LNone 0);
  settings_json _ := "";
  parse_scope_args s := Some (mk_scope_args s None None None);
  parse_add_args s := Some (mk_add_args (Some s) "t" "other" None [] (f_of_Z 1) (f_of_Z 1)
    ["/p/" +:+ s] (f_of_Z 1) (Some ["make"]) (Some "/p") None);
  parse_next_args _ := Some (mk_next_args None Fifo);
  parse_accept_args s := Some s;
  parse_run_args s := Some (mk_run_args (Some s) None);
  parse_finish_args _ := Some (mk_finish_args TDone "");
  parse_cancel_args s := Some s;
  parse_update_args _ := None;
  parse_reclaim_args s := Some s;
  parse_settings_args _ := None |}.

Definition demo_jobs : JobCodec := {|
  parse_job_start _ := Some (mk_job_start 7 8 None "" false None "");
  parse_job_finish _ := Some (mk_job_finish (Some 0) "" None (Some 640) 2000 false)%Z;
  parse_job_note s := Some s;
  parse_card_sync _ := None |}.

(** A timer named by its argument, which adds a task every minute. *)
Definition demo_timers : TimerCodec := {|
  parse_timer_args s := Some (mk_timer_args (Some s) (TEvery 60 (Some 900)%Z)
    (mk_add_args None "t" "other" None [] (f_of_Z 1) (f_of_Z 1) ["/p/" +:+ s] (f_of_Z 1) None None None));
  parse_fire_args _ := Some 900%Z;
  spec_json := demo_spec;
  parse_spec := parse_demo_spec;
  template_json := demo_template;
  parse_template := parse_demo_template |}.

Lemma demo_timers_laws : TimerCodecLaws demo_timers.
Proof.
  constructor; [|exact parse_demo_spec_text|exact parse_demo_template_text].
  intros s ms [= <-]. unfold i64_min, i64_max. lia.
Qed.

Lemma demo_work_laws : @WorkCodecLaws demo_leases demo_work.
Proof. constructor; [exact parse_list_demo|done|by eexists]. Qed.

Lemma demo_jobs_laws : JobCodecLaws demo_jobs.
Proof. constructor; intros s a z [= <-] [= <-]; [unfold i32_min, i32_max; lia|done]. Qed.

(** A blocker, or the lease of that name. *)
Definition demo_reconcile : ReconcileCodec := {|
  parse_action s := Some (if String.eqb s "blocker" then Blocker s true "disk" "free disk space" else ExpireLease s s) |}.

Definition demo_key (n : Z) : string := be_bytes 32 n.

Definition demo_op (kind subject arg nonce : string) (who : Z) : SignedOp :=
  mk_op kind subject arg 1000 nonce (demo_key who) (be_bytes 64 0).
