(* ===== verification/Push.v ===== *)
(** * agora-daemon: event push and presence

    [src/crates/agora-daemon/src/push.rs] and [presence.rs]: which bus events a
    subscribed connection gets, what a slow one is told it missed, and who is
    online. A forwarder runs beside the connection's writer: a run is a sequence
    of turns, each a branch of its loop or an event that the writer takes. *)

From Stdlib Require Import Ascii.
From S2P Require Import Prelude F64 Strs Bytes Core Crypto Task StoreDb Identity Channels ChanInv.

(** ** Events ([agora-proto/src/reply.rs]) *)

Inductive Event : Type :=
| MessageAppended (channel : string) (seq : Z)
| ReactionChanged (kind target : string)
| ChannelChanged (channel : string)
| CardChanged (card : string)
| SprintChanged (sprint : string)
| NotePublished (id : string)
| IdentityChanged (pubkey : string)
| Acked (reader channel : string) (seq : Z)
| BlobStored (hash : string)
| WorkChanged (task : string)
| LeaseChanged (lease : string)
| TimerChanged (timer : string)
| NoticePosted (target : string) (seq : Z)
| WorkSettingsChanged
| PolicyChanged
| Lagged (dropped : Z).

#[export] Instance Event_eq_dec : EqDecision Event.
Proof. solve_decision. Defined.

Definition EVENT_QUEUE : nat := 256.

(** ** What a subscriber wants *)

Record Filter : Type := mk_filter {
  fi_me : string; fi_explicit : option (gset string); fi_members : gset string }.

Definition effective_for (explicit : option (gset string)) (members : gset string) : gset string :=
  match explicit with Some l => filter (λ c, c ∈ members) l | None => members end.

Definition fi_effective (f : Filter) : gset string := effective_for (fi_explicit f) (fi_members f).

(** [is_none_or]: on the list, when there is one. *)
Definition listed (f : Filter) (channel : string) : bool :=
  match fi_explicit f with Some l => bool_decide (channel ∈ l) | None => true end.

Definition in_effective (f : Filter) (channel : string) : bool :=
  bool_decide (channel ∈ fi_members f) && listed f channel.

Definition needs_refresh (f : Filter) (e : Event) : bool :=
  match e with
  | ChannelChanged _ => true
  | IdentityChanged pubkey => String.eqb pubkey (hex (fi_me f))
  | _ => false
  end.

Definition wants (f : Filter) (e : Event) (after_refresh : option (gset string)) : bool :=
  match e with
  | MessageAppended channel _ => in_effective f channel
  | ChannelChanged channel =>
      let before := in_effective f channel in
      let after := from_option (λ s, bool_decide (channel ∈ s)) false after_refresh in
      listed f channel && (before || after)
  | Acked reader _ _ => String.eqb reader (hex (fi_me f))
  | IdentityChanged pubkey => String.eqb pubkey (hex (fi_me f))
  | _ => false
  end.

Definition set_filter_members (members : gset string) (f : Filter) : Filter :=
  mk_filter (fi_me f) (fi_explicit f) members.

(** ** The forwarder *)

Definition read_members (pk : string) : tx (gset string) :=
  cs ← list_channels pk; mret (list_to_set (ci_id <$> cs)).

Record Verdict : Type := mk_verdict { vd_forward : bool; vd_end : bool }.

(** [d] is the database that the reader answers from. *)
Definition refresh (f : Filter) (event : option Event) (d : db) : Verdict * Filter :=
  match read_members (fi_me f) d with
  | Ok (members, _) =>
      let after := effective_for (fi_explicit f) members in
      (mk_verdict (from_option (λ e, wants f e (Some after)) false event) false, set_filter_members members f)
  | Err _ =>
      let forward := from_option (λ e, wants f e None) false event in
      let ends := match event with
                  | Some (IdentityChanged pubkey) => String.eqb pubkey (hex (fi_me f))
                  | _ => false
                  end in
      (mk_verdict forward ends, set_filter_members ∅ f)
  end.

Definition decide_event (f : Filter) (e : Event) (d : db) : Verdict * Filter :=
  if needs_refresh f e then refresh f (Some e) d else (mk_verdict (wants f e None) false, f).

(** The queue to the connection's writer: what the writer took, what waits, and
    whether the writer is gone. *)
Record outq : Type := mk_outq { oq_taken : list Event; oq_items : list Event; oq_closed : bool }.

Definition oq_sent (q : outq) : list Event := oq_taken q ++ oq_items q.

Inductive sent : Type := SendOk (q : outq) | SendFull | SendClosed.

(** [mpsc::Sender::try_send]. *)
Definition try_send (e : Event) (q : outq) : sent :=
  if oq_closed q then SendClosed
  else if Nat.leb EVENT_QUEUE (length (oq_items q)) then SendFull
  else SendOk (mk_outq (oq_taken q) (oq_items q ++ [e]) false).

(** The queue and the count after an offer, [None] when the queue is closed. *)
Definition offer (q : outq) (dropped : Z) (e : Event) : option (outq * Z) :=
  let send q :=
    match try_send e q with
    | SendOk q' => Some (q', 0%Z)
    | SendFull => Some (q, sat_u64 1)
    | SendClosed => None
    end in
  if (0 <? dropped)%Z then
    match try_send (Lagged dropped) q with
    | SendOk q' => send q'
    | SendFull => Some (q, sat_u64 (dropped + 1))
    | SendClosed => None
    end
  else send q.

Record Forwarder : Type := mk_forwarder {
  fw_filter : Filter; fw_dropped : Z; fw_out : outq; fw_live : bool }.

Inductive turn : Type :=
| TEnding                       (* [ending] or the daemon's shutdown fires *)
| TReserve                      (* [out.reserve()], while events are owed *)
| TRecv (e : Event) (d : db)    (* an event of the bus *)
| TLagged (n : Z) (d : db)      (* the bus overwrote [n] events *)
| TBusClosed
| TTake                         (* the writer takes an event *)
| TWriterGone.                  (* the writer drops its end *)

Definition stop (fw : Forwarder) : Forwarder := mk_forwarder (fw_filter fw) (fw_dropped fw) (fw_out fw) false.

Definition run_turn (fw : Forwarder) (t : turn) : Forwarder :=
  let q := fw_out fw in
  match t with
  | TTake => match oq_items q with
             | e :: items => mk_forwarder (fw_filter fw) (fw_dropped fw)
                               (mk_outq (oq_taken q ++ [e]) items (oq_closed q)) (fw_live fw)
             | [] => fw
             end
  | TWriterGone => mk_forwarder (fw_filter fw) (fw_dropped fw) (mk_outq (oq_taken q) (oq_items q) true) (fw_live fw)
  | _ =>
    if negb (fw_live fw) then fw else
    match t with
    | TReserve =>
        if (0 <? fw_dropped fw)%Z then
          match try_send (Lagged (fw_dropped fw)) q with
          | SendOk q' => mk_forwarder (fw_filter fw) 0 q' true
          | SendFull => fw
          | SendClosed => stop fw
          end
        else fw
    | TRecv e d =>
        let '(verdict, f) := decide_event (fw_filter fw) e d in
        let offered := if vd_forward verdict then offer q (fw_dropped fw) e else Some (q, fw_dropped fw) in
        match offered with
        | None => stop (mk_forwarder f (fw_dropped fw) q true)
        | Some (q', dropped) => mk_forwarder f dropped q' (negb (vd_end verdict))
        end
    | TLagged n d => mk_forwarder (refresh (fw_filter fw) None d).2 (sat_u64 (fw_dropped fw + n)) q true
    | _ => stop fw
    end
  end.

Definition run_turns (fw : Forwarder) (ts : list turn) : Forwarder := foldl run_turn fw ts.

(** ** Subscribing *)

Inductive SubscribeError : Type := SubStore (e : StoreError) | SubNotMember (channel : string).

(** The channels of the reply, and the forwarder. *)
Definition subscribe (me : string) (chosen : list string) (d : db) :
    result SubscribeError (list string * Forwarder) :=
  match read_members me d with
  | Err e => Err (SubStore e)
  | Ok (members, _) =>
      let start explicit :=
        let f := mk_filter me explicit members in
        Ok (sort_by String.compare (elements (fi_effective f)), mk_forwarder f 0 (mk_outq [] [] false) true) in
      match chosen with
      | [] => start None
      | _ => match List.find (λ c, negb (bool_decide (c ∈ members))) chosen with
             | Some missing => Err (SubNotMember missing)
             | None => start (Some (list_to_set chosen))
             end
      end
  end.

(** ** Presence *)

Definition usize_max : Z := u64_max.

Notation Presence := (gmap string Z).

Definition enter (pk : string) (p : Presence) : Presence :=
  <[pk := Z.min usize_max (default 0 (p !! pk) + 1)%Z]> p.

(** The drop of a guard. *)
Definition leave (pk : string) (p : Presence) : Presence :=
  match p !! pk with
  | Some n => let n := Z.max 0 (n - 1) in if (n =? 0)%Z then delete pk p else <[pk := n]> p
  | None => p
  end.

Definition online (p : Presence) : list string := sort_by String.compare (map_to_list p).*1.

Definition is_online (pk : string) (p : Presence) : bool := bool_decide (is_Some (p !! pk)).

(** The identities that share a channel with [me], channel by channel. *)
Fixpoint peers_of (ids : list string) : tx (gset string) :=
  match ids with
  | [] => mret ∅
  | id :: ids' => ms ← channel_members id; rest ← peers_of ids'; mret (list_to_set (fst <$> ms) ∪ rest)
  end.

Definition online_reply (p : Presence) (me : string) : tx (list string) :=
  cs ← list_channels me;
  peers ← peers_of (ci_id <$> cs);
  mret (hex <$> List.filter (λ pk, String.eqb pk me || bool_decide (pk ∈ (peers : gset string))) (online p)).

(** ** What a subscriber is told *)

(** What the forwarder owes its subscriber: a wanted event, or a number that the
    bus lost. *)
Inductive item : Type := Wanted (e : Event) | Lost (n : Z).

Definition turn_items (fw : Forwarder) (t : turn) : list item :=
  if fw_live fw && negb (oq_closed (fw_out fw)) then
    match t with
    | TRecv e d => if vd_forward (decide_event (fw_filter fw) e d).1 then [Wanted e] else []
    | TLagged n _ => [Lost n]
    | _ => []
    end
  else [].

Fixpoint owed (fw : Forwarder) (ts : list turn) : list item :=
  match ts with [] => [] | t :: ts' => turn_items fw t ++ owed (run_turn fw t) ts' end.

Definition item_weight (i : item) : Z := match i with Wanted _ => 1 | Lost n => n end.
Definition weight (l : list item) : Z := foldr (λ i acc, item_weight i + acc)%Z 0%Z l.

Definition is_marker (e : Event) : bool := match e with Lagged _ => true | _ => false end.

(** How many events a sequence stands for, a marker for as many as it says. *)
Definition event_weight (e : Event) : Z := match e with Lagged n => n | _ => 1 end.
Definition told (s : list Event) : Z := foldr (λ e acc, event_weight e + acc)%Z 0%Z s.

Lemma weight_app l k : weight (l ++ k) = (weight l + weight k)%Z.
Proof. unfold weight. induction l as [|i l IH]; cbn; [done|]. rewrite IH. lia. Qed.

Lemma told_app s t : told (s ++ t) = (told s + told t)%Z.
Proof. unfold told. induction s as [|e s IH]; cbn; [done|]. rewrite IH. lia. Qed.

(** At every event, exactly what came before it was told, or is in a marker. *)
Record accounted (l : list item) (s : list Event) (dropped : Z) : Prop := {
  ac_dropped : (0 ≤ dropped)%Z;
  ac_told : (0 ≤ told s)%Z;
  ac_total : weight l = (told s + dropped)%Z;
  ac_at s1 e s2 : s = s1 ++ e :: s2 → is_marker e = false →
    ∃ l1 l2, l = l1 ++ Wanted e :: l2 ∧ weight l1 = told s1 }.

Lemma accounted_item l s dropped i :
  (0 ≤ item_weight i)%Z → accounted l s dropped → accounted (l ++ [i]) s (dropped + item_weight i).
Proof.
  intros Hi [Hd Hp Ht Ha]. constructor.
  - lia.
  - done.
  - rewrite weight_app, Ht. unfold weight. cbn. lia.
  - intros s1 e s2 Hs He. destruct (Ha s1 e s2 Hs He) as (l1 & l2 & -> & Hw). exists l1, (l2 ++ [i]).
    by rewrite <- app_assoc.
Qed.

Lemma snoc_split {A} (s s1 s2 : list A) x e :
  s ++ [x] = s1 ++ e :: s2 → (s2 = [] ∧ s = s1 ∧ x = e) ∨ ∃ s2', s2 = s2' ++ [x] ∧ s = s1 ++ e :: s2'.
Proof.
  destruct s2 as [|y s2] using rev_ind; intros H.
  - left. by apply app_inj_tail in H as [-> ->].
  - right. exists s2. rewrite app_comm_cons, app_assoc in H. apply app_inj_tail in H as [-> ->]. done.
Qed.

Lemma accounted_send l s e : is_marker e = false → accounted l s 0 → accounted (l ++ [Wanted e]) (s ++ [e]) 0.
Proof.
  intros He [Hd Hp Ht Ha].
  assert (told [e] = 1%Z) as E1 by (by destruct e). constructor; [done|rewrite told_app; lia|..].
  - rewrite weight_app, told_app, Ht, E1. unfold weight. cbn. lia.
  - intros s1 e' s2 [(-> & -> & ->)|(s2' & -> & ->)]%snoc_split He'.
    + exists l, []. split; [done|]. lia.
    + destruct (Ha s1 e' s2' eq_refl He') as (l1 & l2 & -> & Hw). exists l1, (l2 ++ [Wanted e]). by rewrite <- app_assoc.
Qed.

Lemma accounted_mark l s dropped : accounted l s dropped → accounted l (s ++ [Lagged dropped]) 0.
Proof.
  intros [Hd Hp Ht Ha].
  assert (told [Lagged dropped] = dropped) as E1 by (unfold told; cbn; lia). constructor; [done|rewrite told_app; lia|..].
  - rewrite told_app, Ht. lia.
  - intros s1 e s2 [(-> & -> & <-)|(s2' & -> & ->)]%snoc_split He; [done|]. by eapply Ha.
Qed.

Lemma wanted_not_marker f e r : wants f e r = true → is_marker e = false.
Proof. by destruct e. Qed.

Lemma decided_not_marker f e d : vd_forward (decide_event f e d).1 = true → is_marker e = false.
Proof.
  unfold decide_event. destruct (needs_refresh f e); [|apply wanted_not_marker].
  unfold refresh. destruct (read_members _ d) as [[m d']|]; cbn; apply wanted_not_marker.
Qed.

Lemma try_send_Ok e q q' : try_send e q = SendOk q' → oq_sent q' = oq_sent q ++ [e] ∧ oq_closed q' = false ∧ oq_closed q = false.
Proof.
  unfold try_send. destruct (oq_closed q); [done|]. destruct (Nat.leb _ _); [done|]. intros [= <-].
  unfold oq_sent. cbn. by rewrite app_assoc.
Qed.

Lemma try_send_closed e q : try_send e q = SendClosed → oq_closed q = true.
Proof. unfold try_send. destruct (oq_closed q); [done|]. by destruct (Nat.leb _ _). Qed.

(** An offer keeps the account, as long as the count fits. *)
Lemma offer_accounted l q dropped e :
  accounted l (oq_sent q) dropped → is_marker e = false → (weight l < u64_max)%Z →
  match offer q dropped e with
  | Some (q', dropped') => oq_closed q = false ∧ oq_closed q' = false ∧ accounted (l ++ [Wanted e]) (oq_sent q') dropped'
  | None => oq_closed q = true
  end.
Proof.
  intros Hac He Hw. pose proof Hac as [Hd Ht0 Ht _]. unfold offer.
  assert (∀ q1, accounted l (oq_sent q1) 0 → oq_closed q1 = oq_closed q →
    match match try_send e q1 with SendOk q' => Some (q', 0%Z) | SendFull => Some (q1, sat_u64 1) | SendClosed => None end with
    | Some (q', dropped') => oq_closed q = false ∧ oq_closed q' = false ∧ accounted (l ++ [Wanted e]) (oq_sent q') dropped'
    | None => oq_closed q = true
    end) as Hsend.
  { intros q1 Hac1 Hc. destruct (try_send e q1) as [q'| |] eqn:E.
    - destruct (try_send_Ok _ _ _ E) as (-> & ? & ?). split_and!; [congruence|done|]. by apply accounted_send.
    - assert (oq_closed q1 = false) by (unfold try_send in E; by destruct (oq_closed q1)).
      split_and!; [congruence|done|]. apply (accounted_item l (oq_sent q1) 0 (Wanted e)); [done|done].
    - apply try_send_closed in E. congruence. }
  destruct (Z.ltb_spec 0 dropped); [|apply Hsend; [|done]; by replace dropped with 0%Z in Hac by lia].
  destruct (try_send (Lagged dropped) q) as [q'| |] eqn:E.
  - destruct (try_send_Ok _ _ _ E) as (Es & Ec & Ec'). apply Hsend; [rewrite Es; by apply accounted_mark|congruence].
  - assert (oq_closed q = false) by (unfold try_send in E; by destruct (oq_closed q)). split_and!; [done..|].
    replace (sat_u64 (dropped + 1)) with (dropped + item_weight (Wanted e))%Z; [by apply accounted_item|].
    unfold sat_u64. cbn. lia.
  - by apply try_send_closed in E.
Qed.

(** The account of a forwarder; nothing is owed to a writer that is gone. *)
Definition in_account (l : list item) (fw : Forwarder) : Prop :=
  ∃ dropped, accounted l (oq_sent (fw_out fw)) dropped ∧ (oq_closed (fw_out fw) = false → dropped = fw_dropped fw).

Definition turn_ok (t : turn) : Prop := match t with TLagged n _ => (0 ≤ n)%Z | _ => True end.

Lemma in_account_same l fw fw' :
  fw_out fw' = fw_out fw → fw_dropped fw' = fw_dropped fw ∨ oq_closed (fw_out fw) = true → in_account l fw → in_account l fw'.
Proof. intros Eq Ed (k & Hk & Hc). exists k. rewrite Eq. split; [done|]. intros H. destruct Ed; [|congruence]. rewrite Hc by done. by symmetry. Qed.

Lemma reserve_account l f dropped q q' live :
  try_send (Lagged dropped) q = SendOk q' → in_account l (mk_forwarder f dropped q live) →
  in_account l (mk_forwarder f 0 q' live).
Proof.
  intros (Es & Ec & Ec')%try_send_Ok (k & Hk & Hc). cbn in *. rewrite (Hc Ec') in Hk. exists 0%Z. cbn. split; [|done].
  rewrite Es. by apply accounted_mark.
Qed.

Lemma recv_account l f dropped q e d :
  oq_closed q = false → in_account l (mk_forwarder f dropped q true) →
  let items := turn_items (mk_forwarder f dropped q true) (TRecv e d) in
  (weight (l ++ items) ≤ u64_max)%Z → in_account (l ++ items) (run_turn (mk_forwarder f dropped q true) (TRecv e d)).
Proof.
  intros Hq (k & Hk & Hc). unfold turn_items, run_turn. cbn [fw_filter fw_dropped fw_out fw_live] in *. rewrite Hq.
  rewrite (Hc Hq) in Hk. cbn [negb andb]. pose proof (decided_not_marker f e d) as Hm.
  destruct (decide_event f e d) as [[forward ends] f']. cbn [fst vd_forward vd_end] in *. destruct forward; intros Hw.
  - rewrite weight_app in Hw. unfold weight at 2 in Hw. cbn in Hw.
    pose proof (offer_accounted l q dropped e Hk (Hm eq_refl) ltac:(lia)) as Ho.
    destruct (offer q dropped e) as [[q' dropped']|]; [|congruence]. destruct Ho as (_ & _ & Ho). by exists dropped'.
  - rewrite app_nil_r in *. by exists dropped.
Qed.

Lemma run_turn_account l fw t :
  in_account l fw → turn_ok t → (weight (l ++ turn_items fw t) ≤ u64_max)%Z →
  in_account (l ++ turn_items fw t) (run_turn fw t).
Proof.
  intros Hac Hok Hw. destruct fw as [f dropped q live].
  assert (∀ fw', turn_items (mk_forwarder f dropped q live) t = [] → fw_out fw' = q →
    fw_dropped fw' = dropped ∨ oq_closed q = true →
    in_account (l ++ turn_items (mk_forwarder f dropped q live) t) fw') as Hsame.
  { intros fw' -> Eq Ed. rewrite app_nil_r. by apply (in_account_same l (mk_forwarder f dropped q live)). }
  assert (live = false ∨ t = TEnding ∨ t = TBusClosed → run_turn (mk_forwarder f dropped q live) t =
    match t with
    | TTake => run_turn (mk_forwarder f dropped q live) TTake
    | TWriterGone => run_turn (mk_forwarder f dropped q live) TWriterGone
    | _ => mk_forwarder f dropped q false
    end) as Hdead.
  { unfold run_turn. intros [->|[->| ->]]; [by destruct t|by destruct live..]. }
  destruct t as [| |e d|n d| | |].
  - rewrite Hdead by auto. apply Hsame; [unfold turn_items; by destruct (_ && _)|auto..].
  - destruct live; [|rewrite Hdead by auto; by apply Hsame; auto].
    assert (turn_items (mk_forwarder f dropped q true) TReserve = []) as E by (unfold turn_items; by destruct (_ && _)).
    cbn -[turn_items try_send]. destruct (0 <? dropped)%Z; [|by apply Hsame; auto].
    destruct (try_send (Lagged dropped) q) eqn:Es; [|by apply Hsame; auto..].
    rewrite E, app_nil_r. by eapply reserve_account.
  - destruct live; [|rewrite Hdead by auto; by apply Hsame; auto]. destruct (oq_closed q) eqn:Eq; [|by apply recv_account].
    assert (turn_items (mk_forwarder f dropped q true) (TRecv e d) = []) as E by (unfold turn_items; cbn; by rewrite Eq).
    rewrite E, app_nil_r. unfold run_turn. cbn [fw_filter fw_dropped fw_out fw_live negb].
    destruct (decide_event f e d) as [v f']. destruct (vd_forward v); [|apply (in_account_same l (mk_forwarder f dropped q true)); auto].
    assert (offer q dropped e = None) as ->; [|apply (in_account_same l (mk_forwarder f dropped q true)); auto].
    unfold offer, try_send. rewrite Eq. by destruct (0 <? dropped)%Z.
  - destruct live; [|rewrite Hdead by auto; by apply Hsame; auto].
    unfold turn_items in *. cbn [fw_live fw_out andb] in *. destruct (oq_closed q) eqn:Eq; cbn [negb] in *.
    + rewrite app_nil_r in *. apply (in_account_same l (mk_forwarder f dropped q true)); auto.
    + destruct Hac as (k & Hk & Hc). exists (k + n)%Z. cbn in *. split; [by apply (accounted_item l _ k (Lost n))|].
      intros _. rewrite (Hc Eq). rewrite weight_app in Hw. unfold weight at 2 in Hw. cbn in Hw.
      destruct Hk as [Hk0 Hk1 Hk2 _]. rewrite (Hc Eq) in *. unfold sat_u64. lia.
  - rewrite Hdead by auto. apply Hsame; [unfold turn_items; by destruct (_ && _)|auto..].
  - cbn [run_turn fw_out]. destruct (oq_items q) as [|e items] eqn:E; [apply Hsame; [unfold turn_items; by destruct (_ && _)|auto..]|].
    replace (turn_items (mk_forwarder f dropped q live) TTake) with (@nil item) by (unfold turn_items; by destruct (_ && _)).
    rewrite app_nil_r. destruct Hac as (k & Hk & Hc). exists k. cbn in *. split; [|done].
    unfold oq_sent in *. cbn. rewrite E in Hk. by rewrite <- app_assoc.
  - replace (turn_items (mk_forwarder f dropped q live) TWriterGone) with (@nil item) by (unfold turn_items; by destruct (_ && _)).
    rewrite app_nil_r. destruct Hac as (k & Hk & Hc). exists k. by cbn.
Qed.

Lemma run_turns_account l fw ts :
  in_account l fw → Forall turn_ok ts → (weight (l ++ owed fw ts) ≤ u64_max)%Z →
  (∀ ts1 ts2, ts = ts1 ++ ts2 → 0 ≤ weight (owed (run_turns fw ts1) ts2))%Z →
  in_account (l ++ owed fw ts) (run_turns fw ts).
Proof.
  intros Hac Hok. revert l fw Hac. induction Hok as [|t ts Ht _ IH]; intros l fw Hac Hw Hp; [by rewrite app_nil_r|].
  cbn [owed run_turns foldl] in *. rewrite app_assoc in *. apply IH; [|done|].
  - apply run_turn_account; [done..|]. rewrite weight_app in Hw. specialize (Hp [t] ts eq_refl). cbn in Hp. lia.
  - intros ts1 ts2 ->. apply (Hp (t :: ts1) ts2 eq_refl).
Qed.

Lemma items_weight fw t : turn_ok t → (0 ≤ weight (turn_items fw t))%Z.
Proof.
  intros Ht. unfold turn_items. destruct (_ && _); [|done]. destruct t as [| |e d|n d| | |]; try done.
  - by destruct (vd_forward _).
  - unfold weight. cbn in *. lia.
Qed.

Lemma owed_weight fw ts : Forall turn_ok ts → (0 ≤ weight (owed fw ts))%Z.
Proof.
  intros H. revert fw. induction H as [|t ts Ht _ IH]; intros fw; [done|]. cbn [owed]. rewrite weight_app.
  specialize (IH (run_turn fw t)). pose proof (items_weight fw t Ht). lia.
Qed.

(** A new subscription owes nothing. *)
Lemma subscribe_Ok me chosen d reply fw :
  subscribe me chosen d = Ok (reply, fw) →
  ∃ members d', read_members me d = Ok (members, d') ∧ (∀ c, c ∈ chosen → c ∈ members) ∧
    fw = mk_forwarder (mk_filter me (match chosen with [] => None | _ => Some (list_to_set chosen) end) members)
           0 (mk_outq [] [] false) true ∧
    reply = sort_by String.compare (elements (fi_effective (fw_filter fw))).
Proof.
  unfold subscribe. destruct (read_members me d) as [[members d']|]; [|done]. intros H. exists members, d'.
  destruct chosen as [|c chosen]; [injection H as <- <-; split_and!; [done| |done|done]; by intros c ?%elem_of_nil|].
  destruct (List.find _ _) eqn:E; [done|]. injection H as <- <-. split_and!; [done| |done|done].
  intros c' Hc. apply list_elem_of_In in Hc. pose proof (List.find_none _ _ E c' Hc) as Hn.
  by apply negb_false_iff, bool_decide_eq_true in Hn.
Qed.

(** C21: a subscriber is told of everything it misses. After any interleaving of
    the forwarder's turns with its writer, every event that was queued for the
    subscriber is a wanted one, in the order of the bus, and at each of them the
    events before it stand for exactly the wanted and lost events that came
    before, a marker for as many as it says; what is not yet accounted for is
    the count still owed, unless the writer is gone. (Counts are 64 bits wide.) *)
Theorem push_accounts_for_all me chosen d reply fw ts :
  subscribe me chosen d = Ok (reply, fw) → Forall turn_ok ts → (weight (owed fw ts) ≤ u64_max)%Z →
  let fw' := run_turns fw ts in let s := oq_sent (fw_out fw') in
  (∀ s1 e s2, s = s1 ++ e :: s2 → is_marker e = false →
     ∃ l1 l2, owed fw ts = l1 ++ Wanted e :: l2 ∧ weight l1 = told s1) ∧
  (oq_closed (fw_out fw') = false → weight (owed fw ts) = (told s + fw_dropped fw')%Z).
Proof.
  intros (members & d' & _ & _ & -> & _)%subscribe_Ok Hok Hw fw' s.
  assert (in_account [] (mk_forwarder (mk_filter me (match chosen with [] => None | _ => Some (list_to_set chosen) end)
    members) 0 (mk_outq [] [] false) true)) as Hinit.
  { exists 0%Z. split; [|done]. constructor; [done..|]. intros s1 e s2 Hs. by destruct s1. }
  destruct (run_turns_account _ _ ts Hinit Hok Hw) as (k & [_ _ Ht Ha] & Hc).
  { intros ts1 ts2 ->. apply owed_weight. by apply Forall_app in Hok as [_ ?]. }
  split; [exact Ha|]. intros Hcl. unfold s, fw'. rewrite <- (Hc Hcl). exact Ht.
Qed.

(** Once the writer has room again, the count goes out even if no event comes. *)
Lemma marker_goes_out fw :
  fw_live fw = true → oq_closed (fw_out fw) = false → (0 < fw_dropped fw)%Z →
  length (oq_items (fw_out fw)) < EVENT_QUEUE →
  let fw' := run_turn fw TReserve in
  fw_dropped fw' = 0%Z ∧ oq_sent (fw_out fw') = oq_sent (fw_out fw) ++ [Lagged (fw_dropped fw)].
Proof.
  intros Hl Hc Hd Hq. unfold run_turn. rewrite Hl, (proj2 (Z.ltb_lt 0 _)) by done. cbn [negb].
  unfold try_send. rewrite Hc, (proj2 (Nat.leb_gt _ _)) by done. cbn. unfold oq_sent. cbn. by rewrite app_assoc.
Qed.

(** ** Who gets what *)

(** A turn that reads the membership again. *)
Definition rereads (me : string) (t : turn) : option db :=
  match t with
  | TRecv (ChannelChanged _) d | TLagged _ d => Some d
  | TRecv (IdentityChanged pk) d => if String.eqb pk (hex me) then Some d else None
  | _ => None
  end.

(** The database of the last such turn. *)
Definition last_read (me : string) (d : db) (ts : list turn) : db :=
  foldl (λ d t, default d (rereads me t)) d ts.

(** What a read of the membership finds: an active identity in the channel. *)
Definition active_member (d : db) (c me : string) : Prop :=
  member_of d c me ∧ ∃ role, active_role me d = Ok (role, d).

Lemma filter_members_Ok me d members d' :
  read_members me d = Ok (members, d') → ∀ c, c ∈ members → active_member d c me.
Proof.
  unfold read_members, list_channels. intros H c Hc. apply tx_bind_Ok in H as (cs & d1 & H & [-> _]%mret_Ok).
  apply tx_bind_Ok in H as (role & d2 & Hr & [-> _]%query_Ok). pose proof (active_role_Ok _ _ _ _ Hr) as [-> _].
  apply elem_of_list_to_set, list_elem_of_fmap in Hc as (i & -> & (ch & -> & Hin)%list_elem_of_fmap).
  apply elem_of_sort_by, list_elem_of_In, List.filter_In in Hin as [_ Hm]. split; [by apply is_member_true|by exists role].
Qed.

(** What a forwarder holds: the channels of its identity at the last read. *)
Definition fits (me : string) (explicit : option (gset string)) (d : db) (fw : Forwarder) : Prop :=
  fi_me (fw_filter fw) = me ∧ fi_explicit (fw_filter fw) = explicit ∧
  (fw_live fw = true → ∀ c, c ∈ fi_members (fw_filter fw) → active_member d c me).

Lemma refresh_fits me explicit f event d0 :
  fi_me f = me → fi_explicit f = explicit → let f' := (refresh f event d0).2 in
  fi_me f' = me ∧ fi_explicit f' = explicit ∧ ∀ c, c ∈ fi_members f' → active_member d0 c me.
Proof.
  intros <- <-. unfold refresh. destruct (read_members (fi_me f) d0) as [[members d']|] eqn:E; cbn; split_and!; try done.
  intros c Hc. by eapply filter_members_Ok.
Qed.

Lemma run_turn_fits me explicit d fw t :
  fits me explicit d fw → fits me explicit (default d (rereads me t)) (run_turn fw t).
Proof.
  destruct fw as [f dropped q live]. intros (Hme & Hex & Hm). cbn in Hme, Hex, Hm. unfold fits, run_turn.
  cbn [fw_filter fw_dropped fw_out fw_live]. destruct t as [| |e d'|n d'| | |].
  - by destruct live.
  - destruct live; [|done]. cbn. destruct (0 <? dropped)%Z; [|done]. by destruct (try_send _ _).
  - destruct live; [|by split_and!]. cbn [negb].
    assert (let f' := (decide_event f e d').2 in fi_me f' = me ∧ fi_explicit f' = explicit ∧
      ∀ c, c ∈ fi_members f' → active_member (default d (rereads me (TRecv e d'))) c me) as Hf.
    { unfold decide_event. destruct (needs_refresh f e) eqn:En.
      - assert (rereads me (TRecv e d') = Some d') as ->; [|by apply refresh_fits].
        destruct e; try done. cbn in *. by rewrite <- Hme, En.
      - cbn [snd]. split_and!; [done..|]. assert (rereads me (TRecv e d') = None) as ->; [|by apply Hm].
        destruct e; try done. cbn in *. by rewrite <- Hme, En. }
    destruct (decide_event f e d') as [v f']. cbn [snd] in Hf. destruct (if vd_forward v then _ else _) as [[]|]; naive_solver.
  - destruct live; [|by split_and!]. cbn. destruct (refresh_fits me explicit f None d' Hme Hex) as (? & ? & ?). by split_and!.
  - by destruct live.
  - destruct (oq_items q); by split_and!.
  - by split_and!.
Qed.

Lemma owed_member me explicit d fw ts c n :
  fits me explicit d fw → Wanted (MessageAppended c n) ∈ owed fw ts →
  ∃ ts1 d1 ts2, ts = ts1 ++ TRecv (MessageAppended c n) d1 :: ts2 ∧ active_member (last_read me d ts1) c me ∧
    match explicit with Some l => c ∈ l | None => True end.
Proof.
  revert d fw. induction ts as [|t ts IH]; intros d fw Hf; cbn [owed]; [by intros ?%elem_of_nil|].
  intros [Ht|Hts]%elem_of_app.
  - unfold turn_items in Ht. destruct (fw_live fw) eqn:El; [|by apply elem_of_nil in Ht]. cbn [andb] in Ht.
    destruct (negb _); [|by apply elem_of_nil in Ht]. destruct t as [| |e d'|k d'| | |]; try by apply elem_of_nil in Ht.
    + destruct (vd_forward _) eqn:Ef; [|by apply elem_of_nil in Ht]. apply list_elem_of_singleton in Ht as [= <-].
      cbn in Ef. apply andb_true_iff in Ef as [Hm%bool_decide_eq_true Hl]. destruct Hf as (_ & Hex & Hfm).
      exists [], d', ts. split_and!; [done|by apply Hfm|]. unfold listed in Hl. rewrite Hex in Hl.
      destruct explicit; [by apply bool_decide_eq_true in Hl|done].
    + by apply list_elem_of_singleton in Ht.
  - apply (run_turn_fits me explicit d fw t) in Hf. destruct (IH _ _ Hf Hts) as (ts1 & d1 & ts2 & -> & Hm & Hl).
    by exists (t :: ts1), d1, ts2.
Qed.

Lemma offer_sent q dropped e q' dropped' x :
  offer q dropped e = Some (q', dropped') → x ∈ oq_sent q' → is_marker x = false → x ∈ oq_sent q ∨ x = e.
Proof.
  assert (∀ y q1 q2, try_send y q1 = SendOk q2 → x ∈ oq_sent q2 → x ∈ oq_sent q1 ∨ x = y) as Hs.
  { intros y q1 q2 (-> & _)%try_send_Ok. rewrite elem_of_app, list_elem_of_singleton. tauto. }
  unfold offer. intros H Hx Hm. destruct (0 <? dropped)%Z.
  - destruct (try_send (Lagged dropped) q) as [q1| |] eqn:E1; [|by injection H as <- _; left|done].
    destruct (try_send e q1) as [q2| |] eqn:E2; [..|done]; injection H as <- _.
    + destruct (Hs _ _ _ E2 Hx) as [Hx1| ->]; [|by right]. destruct (Hs _ _ _ E1 Hx1) as [?| ->]; [by left|done].
    + destruct (Hs _ _ _ E1 Hx) as [?| ->]; [by left|done].
  - destruct (try_send e q) as [q2| |] eqn:E2; [..|done]; injection H as <- _; [by eapply Hs|by left].
Qed.

(** Nothing but what is wanted is queued. *)
Lemma sent_owed fw ts x :
  x ∈ oq_sent (fw_out (run_turns fw ts)) → is_marker x = false → x ∈ oq_sent (fw_out fw) ∨ Wanted x ∈ owed fw ts.
Proof.
  revert fw. induction ts as [|t ts IH]; intros fw Hx Hm; [by left|]. cbn [run_turns foldl owed] in *.
  destruct (IH _ Hx Hm) as [H|H]; [|right; apply elem_of_app; by right]. clear Hx IH. destruct fw as [f dropped q live].
  unfold run_turn in H. cbn [fw_filter fw_dropped fw_out fw_live] in *. destruct t as [| |e d|n d| | |].
  - left. by destruct live.
  - left. destruct live; [|done]. cbn in H. destruct (0 <? dropped)%Z; [|done]. destruct (try_send _ _) eqn:E; [|done..].
    cbn in H. apply try_send_Ok in E as (E & _). rewrite E in H. apply elem_of_app in H as [?|Hl]; [done|].
    apply list_elem_of_singleton in Hl as ->. done.
  - destruct live; [|by left]. cbn [negb] in H. pose proof (surjective_pairing (decide_event f e d)) as Ep.
    destruct (decide_event f e d) as [v f'] eqn:Ed. clear Ep. destruct (vd_forward v) eqn:Ev; [|by left].
    destruct (offer q dropped e) as [[q' dropped']|] eqn:Eo; [|by left]. cbn in H.
    destruct (offer_sent _ _ _ _ _ _ Eo H Hm) as [?| ->]; [by left|]. right. apply elem_of_app. left. unfold turn_items.
    cbn [fw_live fw_out fw_filter]. rewrite Ed. cbn [fst]. rewrite Ev. destruct (oq_closed q) eqn:Ec; [|by left].
    exfalso. unfold offer, try_send in Eo. rewrite Ec in Eo. by destruct (0 <? dropped)%Z.
  - left. by destruct live.
  - left. by destruct live.
  - left. destruct (oq_items q) as [|y items] eqn:E; [done|]. unfold oq_sent in *. cbn in H. rewrite E.
    by rewrite <- app_assoc in H.
  - by left.
Qed.

(** C22: notifications stay within the membership. An event about a message in a
    channel reaches a subscriber only if its identity was active and a member of
    the channel when the membership was last read (at the subscription, a channel
    change, a change of its identity or a lag of the bus) and, with a list of
    channels, if the channel is on it. *)
Theorem push_members_only me chosen d reply fw ts c n :
  subscribe me chosen d = Ok (reply, fw) → MessageAppended c n ∈ oq_sent (fw_out (run_turns fw ts)) →
  ∃ ts1 d1 ts2, ts = ts1 ++ TRecv (MessageAppended c n) d1 :: ts2 ∧ active_member (last_read me d ts1) c me ∧
    (chosen = [] ∨ c ∈ chosen).
Proof.
  intros (members & d' & Hr & _ & -> & _)%subscribe_Ok Hs.
  destruct (sent_owed _ _ _ Hs eq_refl) as [H|H]; [by apply elem_of_nil in H|].
  apply (owed_member me (match chosen with [] => None | _ => Some (list_to_set chosen) end) d) in H
    as (ts1 & d1 & ts2 & -> & Hm & Hl).
  - exists ts1, d1, ts2. split_and!; [done|exact Hm|]. destruct chosen; [by left|right].
    by apply elem_of_list_to_set in Hl.
  - split_and!; [done..|]. intros _ c'. cbn. by eapply filter_members_Ok.
Qed.

(** ** Who is online *)

(** The guards that are alive: [enter] makes one, its drop runs [leave]. *)
Inductive guarded : list string → Presence → Prop :=
| gd_none : guarded [] ∅
| gd_enter pk gs p : guarded gs p → (Z.of_nat (length gs) < usize_max)%Z → guarded (pk :: gs) (enter pk p)
| gd_leave pk g1 g2 p : guarded (g1 ++ pk :: g2) p → guarded (g1 ++ g2) (leave pk p).

Definition guards_of (pk : string) (gs : list string) : Z := Z.of_nat (length (filter (λ g, g = pk) gs)).

Lemma guards_of_app pk g1 g2 : guards_of pk (g1 ++ g2) = (guards_of pk g1 + guards_of pk g2)%Z.
Proof. unfold guards_of. rewrite filter_app, length_app. lia. Qed.

Lemma guards_of_cons pk g gs : guards_of pk (g :: gs) = ((if decide (g = pk) then 1 else 0) + guards_of pk gs)%Z.
Proof. unfold guards_of. rewrite filter_cons. case_decide; cbn; lia. Qed.

Lemma guards_of_bound pk gs : (0 ≤ guards_of pk gs ≤ Z.of_nat (length gs))%Z.
Proof. unfold guards_of. pose proof (length_filter (λ g, g = pk) gs). lia. Qed.

(** A count is the number of live guards, and there is none at zero. *)
Lemma guarded_counts gs p : guarded gs p → ∀ pk, p !! pk = if decide (guards_of pk gs = 0)%Z then None else Some (guards_of pk gs).
Proof.
  induction 1 as [|pk gs p _ IH Hn|pk g1 g2 p _ IH]; intros k; [done|..].
  - rewrite guards_of_cons. pose proof (guards_of_bound k gs). pose proof (guards_of_bound pk gs). unfold enter.
    destruct (decide (pk = k)) as [->|Hne].
    + rewrite lookup_insert_eq, (IH k). destruct (decide (k = k)) as [_|]; [|done].
      repeat case_decide; cbn; try lia; f_equal; lia.
    + rewrite lookup_insert_ne, (IH k) by done. by destruct (decide (pk = k)).
  - specialize (IH k) as Ek. pose proof (IH pk) as Ep. rewrite guards_of_app, guards_of_cons in *.
    destruct (decide (pk = pk)) as [_|]; [|done]. pose proof (guards_of_bound pk g1). pose proof (guards_of_bound pk g2).
    rewrite decide_False in Ep by lia. unfold leave. rewrite Ep.
    replace (Z.max 0 (guards_of pk g1 + (1 + guards_of pk g2) - 1)) with (guards_of pk g1 + guards_of pk g2)%Z by lia.
    destruct (decide (pk = k)) as [->|Hne].
    + destruct (Z.eqb_spec (guards_of k g1 + guards_of k g2) 0) as [E|E].
      * rewrite lookup_delete_eq, decide_True by done. done.
      * rewrite lookup_insert_eq, decide_False by done. done.
    + destruct (decide (pk = k)) as [|_]; [done|]. rewrite Z.add_0_l in Ek. destruct (_ =? _)%Z; [rewrite lookup_delete_ne by done|rewrite lookup_insert_ne by done]; exact Ek.
Qed.

Lemma guards_elem pk gs : guards_of pk gs ≠ 0%Z ↔ pk ∈ gs.
Proof.
  unfold guards_of. split.
  - intros H. destruct (filter (λ g, g = pk) gs) as [|x l] eqn:E; [done|].
    assert (x ∈ filter (λ g, g = pk) gs) as Hx by (rewrite E; by left). by apply list_elem_of_filter in Hx as [-> ?].
  - intros H E. assert (pk ∈ filter (λ g, g = pk) gs) as Hx by (by apply list_elem_of_filter).
    destruct (filter (λ g, g = pk) gs); [by apply elem_of_nil in Hx|cbn in E; lia].
Qed.

Lemma online_elem gs p pk : guarded gs p → pk ∈ online p ↔ pk ∈ gs.
Proof.
  intros H. unfold online. rewrite elem_of_sort_by, list_elem_of_fmap. pose proof (guarded_counts gs p H pk) as E.
  rewrite <- guards_elem. split.
  - intros ([k n] & -> & Hk%elem_of_map_to_list). cbn in *. rewrite E in Hk. by case_decide.
  - intros Hn. rewrite decide_False in E by done. exists (pk, guards_of pk gs). split; [done|]. by apply elem_of_map_to_list.
Qed.

Lemma read_member_rows_Ok l :
  (∀ m, m ∈ l → String.length (m_pubkey m) = 32) → read_member_rows l = Ok ((λ m, (m_pubkey m, m_role m)) <$> l).
Proof.
  induction l as [|m l IH]; intros H; [done|]. cbn [read_member_rows]. unfold read_pub. rewrite H by (by left).
  cbn. rewrite IH; [done|]. intros m' Hm'. apply H. by right.
Qed.

Lemma channel_members_Ok id d :
  is_Some (find_channel id d) → (∀ m, m ∈ members d → String.length (m_pubkey m) = 32) →
  ∃ ms, channel_members id d = Ok (ms, d) ∧ ∀ pk, pk ∈ fst <$> ms ↔ member_of d id pk.
Proof.
  intros [c Hc] Hlen. unfold channel_members, current_epoch, mbind, tx_bind, query, lift. rewrite Hc. cbn [fmap option_fmap option_map ok_or].
  set (l := sort_by _ _). assert (∀ m, m ∈ l ↔ m ∈ members d ∧ m_channel m = id) as Hl.
  { intros m. unfold l. rewrite elem_of_sort_by, list_elem_of_filter. tauto. }
  rewrite read_member_rows_Ok by (intros m [Hm _]%Hl; by apply Hlen). eexists. split; [done|]. intros pk.
  rewrite <- list_fmap_compose, list_elem_of_fmap. unfold member_of. split.
  - intros (m & -> & [Hm Hch]%Hl). by exists m.
  - intros (m & Hm & Hch & <-). exists m. split; [done|]. by apply Hl.
Qed.

Lemma peers_of_Ok ids d :
  (∀ id, id ∈ ids → is_Some (find_channel id d)) → (∀ m, m ∈ members d → String.length (m_pubkey m) = 32) →
  ∃ peers, peers_of ids d = Ok (peers, d) ∧ ∀ pk, pk ∈ peers ↔ ∃ id, id ∈ ids ∧ member_of d id pk.
Proof.
  intros Hids Hlen. induction ids as [|id ids IH]; cbn [peers_of].
  { exists ∅. split; [done|]. intros pk. split; [by intros ?%elem_of_empty|]. intros (id & ?%elem_of_nil & _). done. }
  destruct (channel_members_Ok id d (Hids id ltac:(by left)) Hlen) as (ms & Ems & Hms).
  destruct IH as (peers & Ep & Hp); [intros id' ?; apply Hids; by right|].
  unfold mbind, tx_bind. rewrite Ems, Ep. eexists. split; [done|]. intros pk.
  rewrite elem_of_union, elem_of_list_to_set, Hms, Hp. setoid_rewrite elem_of_cons. naive_solver.
Qed.

(** The reply: the online identities that share a channel with the caller, and
    the caller. *)
Lemma online_reply_spec gs p me role d :
  guarded gs p → chan_wf d → (∀ i, i ∈ identities d → String.length (i_pubkey i) = 32) →
  active_role me d = Ok (role, d) →
  ∃ out, online_reply p me d = Ok (out, d) ∧ ∀ h, h ∈ out ↔ ∃ pk, h = hex pk ∧ pk ∈ gs ∧
    (pk = me ∨ ∃ id, member_of d id me ∧ member_of d id pk).
Proof.
  intros Hg Hwf Hlen Hr.
  assert (∀ m, m ∈ members d → String.length (m_pubkey m) = 32) as Hm32.
  { intros m Hm. destruct (cw_member d Hwf (m_channel m) (m_pubkey m)) as [_ (i & Hi & <- & _)]; [by exists m|]. by apply Hlen. }
  set (cs := info_row me d <$> sort_by by_id (List.filter (λ c, is_member (ch_id c) me d) (channels d))).
  assert (∀ id, id ∈ ci_id <$> cs ↔ member_of d id me) as Hcs.
  { intros id. unfold cs. rewrite <- list_fmap_compose, list_elem_of_fmap. split.
    - intros (c & -> & [_ Hc]%elem_of_sort_by%list_elem_of_In%List.filter_In). by apply is_member_true.
    - intros Hm. destruct (cw_member d Hwf id me Hm) as [(c & -> & Hc)%list_elem_of_fmap _]. exists c. split; [done|].
      apply elem_of_sort_by, list_elem_of_In, List.filter_In. split; [by apply list_elem_of_In|by apply is_member_true]. }
  destruct (peers_of_Ok (ci_id <$> cs) d) as (peers & Ep & Hp).
  { intros id Hid%Hcs. destruct (cw_member d Hwf id me Hid) as [(c & -> & Hc)%list_elem_of_fmap _].
    unfold find_channel. destruct (list_find _ _) as [[n c']|] eqn:E; [by eexists|].
    apply list_find_None in E. rewrite Forall_forall in E. by destruct (E c Hc). }
  { done. }
  eexists. split.
  - unfold online_reply, list_channels, mbind, tx_bind. rewrite Hr. unfold query. fold cs. rewrite Ep. reflexivity.
  - intros h. rewrite list_elem_of_fmap. setoid_rewrite list_elem_of_In. setoid_rewrite List.filter_In.
    setoid_rewrite <- list_elem_of_In. setoid_rewrite (online_elem gs p _ Hg).
    setoid_rewrite orb_true_iff. setoid_rewrite String.eqb_eq. setoid_rewrite bool_decide_eq_true. setoid_rewrite Hp.
    setoid_rewrite Hcs. naive_solver.
Qed.
