(* ===== verification/Store.v ===== *)
(** * agora-store: sequences of calls

    The calls of [src/crates/agora-store/src/] that the other files model, as
    one type, the state a sequence of them leaves, and what holds of every such
    state. *)

From Stdlib Require Import Ascii.
From stdpp Require Import relations.
From S2P Require Import Prelude F64 Strs PyFmt Bytes Core Crypto Task Graph Claims Settings StoreDb.
From S2P Require Import Identity Leases Policy Board BoardLog Frame Wire Channels ChanInv Messages MsgInv Social Team.
From S2P Require Import WorkRow Work Jobs WorkFrames JobCards WorkInv WorkSteps WorkNext.
From S2P Require Import WorkAdd WorkEdit WorkJobs Timers TimerInv Reconcile StoreReconcile ReconInv DemoCodec.

(** ** Calls *)

Inductive call : Type :=
| Register (pk label : string)
| BootstrapOwner (pk : string)
| RegisterSystem (pk : string)
| GrantRole (op : SignedOp)
| RevokeIdentity (op : SignedOp)
| PoolDefine (op : SignedOp)
| LeaseAcquire (op : SignedOp)
| LeaseRenew (op : SignedOp)
| LeaseRelease (op : SignedOp)
| QuietOpen (op : SignedOp)
| QuietClose (op : SignedOp)
| PolicySet (op : SignedOp)
| CreateCard (op : SignedOp)
| AddEvidence (op : SignedOp)
| Approve (op : SignedOp)
| MoveCard (op : SignedOp) (require_review : bool)
| ReclaimStale (op : SignedOp)
| CardUpdate (op : SignedOp)
| CardDep (op : SignedOp)
| CardLinkCall (op : SignedOp)
| CardEscalate (op : SignedOp) (require_review : bool)
| CreateChannel (op : SignedOp) (keys : list (string * string))
| AddMember (op : SignedOp) (wrapped : option string)
| RemoveMember (op : SignedOp) (keys : list (string * string))
| ChannelRole (op : SignedOp)
| RotateKey (op : SignedOp) (keys : list (string * string))
| PostMessage (m : SignedMessage)
| Ack (reader channel : string) (seq : Z)
| ChargeBlob (uploader bytes : string) (quota : Z) (spilled : bool)
| React (r : SignedReaction)
| PublishNote (n : SignedNote)
| CreateSprint (op : SignedOp)
| AddToSprint (op : SignedOp)
| StartSprint (op : SignedOp)
| CloseSprint (op : SignedOp)
| SetStatus (op : SignedOp)
| ClearStatus (op : SignedOp)
| WorkScope (op : SignedOp)
| WorkAdd (h : Host) (op : SignedOp)
| WorkNext (op : SignedOp)
| WorkClaim (op : SignedOp)
| WorkAccept (op : SignedOp)
| WorkRun (h : Host) (op : SignedOp) (cpus : f64) (log_dir : string)
| WorkFinish (op : SignedOp)
| WorkCancel (op : SignedOp)
| WorkUpdate (op : SignedOp)
| WorkReclaim (op : SignedOp)
| WorkSettingsCall (op : SignedOp)
| TimerCreate (op : SignedOp)
| TimerDelete (op : SignedOp)
| JobStart (op : SignedOp)
| JobFinish (op : SignedOp) (sync : option SignedOp)
| JobNote (op : SignedOp)
| TimerFire (real : string → option string) (op : SignedOp)
| ReconcileCall (op : SignedOp)
| JobSample (id : string) (cpu : f64) (rss peak sampled : Z)
| WorkPrune (cutoff : Z).

(** The signed operation of an agent that a call carries. *)
Definition call_op (c : call) : option SignedOp :=
  match c with
  | Register _ _ | BootstrapOwner _ | RegisterSystem _ | PostMessage _ | Ack _ _ _
  | ChargeBlob _ _ _ _ | React _ | PublishNote _ | JobStart _ | JobFinish _ _ | JobNote _ | TimerFire _ _ | ReconcileCall _
  | JobSample _ _ _ _ _ | WorkPrune _ => None
  | GrantRole op | RevokeIdentity op | PoolDefine op | LeaseAcquire op | LeaseRenew op
  | LeaseRelease op | QuietOpen op | QuietClose op | PolicySet op | CreateCard op | AddEvidence op
  | Approve op | MoveCard op _ | ReclaimStale op | CardUpdate op | CardDep op | CardLinkCall op
  | CardEscalate op _ | CreateChannel op _ | AddMember op _ | RemoveMember op _ | ChannelRole op
  | RotateKey op _ | CreateSprint op | AddToSprint op | StartSprint op | CloseSprint op | SetStatus op
  | ClearStatus op | WorkScope op | WorkAdd _ op | WorkNext op | WorkClaim op | WorkAccept op
  | WorkRun _ op _ _ | WorkFinish op | WorkCancel op | WorkUpdate op | WorkReclaim op
  | WorkSettingsCall op | TimerCreate op | TimerDelete op => Some op
  end.

(** The operations of the daemon's own key that a call carries. *)
Definition system_ops (c : call) : list SignedOp :=
  match c with
  | JobStart op | JobNote op | TimerFire _ op | ReconcileCall op | JobFinish op None => [op]
  | JobFinish op (Some sync) => [op; sync]
  | _ => []
  end.

(** Every operation a call carries, and whether the daemon signed it. *)
Definition call_ops (c : call) : list (SignedOp * bool) :=
  match call_op c with Some op => [(op, false)] | None => (λ op, (op, true)) <$> system_ops c end.

Section Calls.
Context `{P : Prims} `{LC : LeaseCodec} `{PC : PolicyCodec} `{J : JsonText} `{BC : BoardCodec}.
Context `{WC : WorkCodec} `{JC : JobCodec} `{TC : TimerCodec} `{RC : ReconcileCodec}.

Definition unit_of {A} (m : tx A) : tx unit := m ≫= λ _, mret tt.

Definition run_call (now : Z) (c : call) : tx unit :=
  match c with
  | Register pk label => register_identity now pk label
  | BootstrapOwner pk => bootstrap_owner now pk
  | RegisterSystem pk => register_system_identity now pk
  | GrantRole op => grant_role now op
  | RevokeIdentity op => revoke_identity now op
  | PoolDefine op => unit_of (pool_define now op)
  | LeaseAcquire op => unit_of (lease_acquire now op)
  | LeaseRenew op => unit_of (lease_renew now op)
  | LeaseRelease op => lease_release now op
  | QuietOpen op => unit_of (quiet_open now op)
  | QuietClose op => quiet_close now op
  | PolicySet op => unit_of (policy_set now op)
  | CreateCard op => create_card now op
  | AddEvidence op => add_evidence now op
  | Approve op => approve now op
  | MoveCard op rr => transition now op rr
  | ReclaimStale op => reclaim_stale now op
  | CardUpdate op => unit_of (card_update now op)
  | CardDep op => card_dep now op
  | CardLinkCall op => card_link now op
  | CardEscalate op rr => unit_of (card_escalate now op rr)
  | CreateChannel op keys => create_channel now op keys
  | AddMember op wrapped => add_member now op wrapped
  | RemoveMember op keys => remove_member now op keys
  | ChannelRole op => set_channel_role now op
  | RotateKey op keys => unit_of (rotate_channel_key now op keys)
  | PostMessage m => unit_of (post_message now m)
  | Ack reader channel seq => unit_of (ack reader channel seq)
  | ChargeBlob uploader bytes quota spilled =>
      unit_of (charge_blob now uploader (content_hash bytes) bytes quota spilled)
  | React r => react now r
  | PublishNote n => publish_note now n
  | CreateSprint op => create_sprint now op
  | AddToSprint op => add_to_sprint now op
  | StartSprint op => start_sprint now op
  | CloseSprint op => close_sprint now op
  | SetStatus op => set_status now op
  | ClearStatus op => clear_status now op
  | WorkScope op => unit_of (work_scope_set now op)
  | WorkAdd h op => unit_of (work_add now h op)
  | WorkNext op => unit_of (work_next now op)
  | WorkClaim op => unit_of (work_claim now op)
  | WorkAccept op => unit_of (work_accept now op)
  | WorkRun h op cpus log_dir => unit_of (work_request now h op cpus log_dir)
  | WorkFinish op => unit_of (work_finish now op)
  | WorkCancel op => unit_of (work_cancel now op)
  | WorkUpdate op => unit_of (work_update now op)
  | WorkReclaim op => work_reclaim now op
  | WorkSettingsCall op => unit_of (work_settings_set now op)
  | TimerCreate op => unit_of (timer_create now op)
  | TimerDelete op => timer_delete now op
  | JobStart op => unit_of (job_start now op)
  | JobFinish op sync => unit_of (job_finish now op sync)
  | JobNote op => job_note now op
  | TimerFire real op => unit_of (timer_fire now real op)
  | ReconcileCall op => unit_of (apply_reconcile now op)
  | JobSample id cpu rss peak sampled => job_sample id cpu rss peak sampled
  | WorkPrune cutoff => unit_of (work_prune cutoff)
  end.

Definition exec (x : Z * call) (d : db) : result StoreError unit * db :=
  transact (run_call x.1 x.2) d.

(** The state after a sequence of calls, each at its clock. *)
Definition run (l : list (Z * call)) (d : db) : db := foldl (λ d x, (exec x d).2) d l.

Lemma unit_of_Ok {A} (m : tx A) d u d' : unit_of m d = Ok (u, d') → ∃ a, m d = Ok (a, d').
Proof. intros (a & d1 & H & [_ ->]%mret_Ok)%tx_bind_Ok. eauto. Qed.

Lemma exec_cases x d :
  (∃ d', run_call x.1 x.2 d = Ok (tt, d') ∧ exec x d = (Ok tt, d')) ∨
  (∃ e, exec x d = (Err e, d)).
Proof. unfold exec, transact. destruct (run_call _ _ d) as [[[] d']|e]; eauto. Qed.

(** ** Frames of the helpers *)

Section Helpers.
Context (R : db → db → Prop) `{!PreOrder R}.

Lemma settings_frames : frames R settings_in.
Proof. unfold settings_in. repeat frame_step. Qed.

Lemma path_holder_frames now me path : frames R (path_holder now me path).
Proof. unfold path_holder. repeat frame_step. Qed.

Lemma acquire_path_frames now role me resource : frames R (acquire_path now role me resource).
Proof. intros d r d' (-> & _)%acquire_path_Ok. reflexivity. Qed.

Lemma acquire_pool_frames now resource amount : frames R (acquire_pool now resource amount).
Proof. intros d r d' (-> & _)%acquire_pool_Ok. reflexivity. Qed.

Lemma next_lease_id_frames : frames R next_lease_id.
Proof. unfold next_lease_id. repeat frame_step. Qed.

Lemma check_lease_room_frames now holder : frames R (check_lease_room now holder).
Proof. unfold check_lease_room. repeat frame_step. Qed.

Lemma lease_by_id_frames id : frames R (lease_by_id id).
Proof. unfold lease_by_id. repeat frame_step. Qed.

Lemma load_card_frames id : frames R (load_card id).
Proof. unfold load_card. repeat frame_step. Qed.

Lemma require_card_frames id : frames R (require_card id).
Proof. unfold require_card. repeat frame_step. Qed.

Lemma check_wip_frames id rr : frames R (check_wip id rr).
Proof. intros d u d' ->%check_wip_state. reflexivity. Qed.

Lemma check_edit_frames role owner actor : frames R (check_edit role owner actor).
Proof. intros d u d' ->%check_edit_state. reflexivity. Qed.

Lemma check_acyclic_frames : frames R check_acyclic.
Proof. unfold check_acyclic. repeat frame_step. Qed.

Lemma card_ext_of_frames id : frames R (card_ext_of id).
Proof. intros d u d' ->%card_ext_of_state. reflexivity. Qed.

Lemma check_targets_frames keys : frames R (check_targets keys).
Proof. intros d u d' ->%check_targets_state. reflexivity. Qed.

Lemma effective_for_frames t l rr : frames R (effective_for t l rr).
Proof. intros d e d' ->%effective_for_state. reflexivity. Qed.

Lemma stored_policy_frames c t l : frames R (stored_policy c t l).
Proof. unfold stored_policy. repeat frame_step. Qed.

Lemma active_role_frames pk : frames R (active_role pk).
Proof. unfold active_role. repeat frame_step. Qed.

Lemma refuse_system_target_frames t : frames R (refuse_system_target t).
Proof. unfold refuse_system_target, is_system. repeat frame_step. Qed.

Lemma notify_frames now targets kind subject text :
  (∀ t n d, R d (set_notices t n d)) → frames R (notify now targets kind subject text).
Proof. intros H d u d' (t & n & ->)%notify_Ok. apply H. Qed.

Lemma insert_dep_frames e :
  (∀ t d, R d (set_deps t d)) → frames R (insert_dep e).
Proof. intros H d b d' ->%insert_dep_Ok. destruct b; [apply H|reflexivity]. Qed.

Lemma insert_deps_frames after id :
  (∀ t d, R d (set_deps t d)) → frames R (insert_deps after id).
Proof. intros H d u d' (es & -> & _)%insert_deps_Ok. apply H. Qed.

Lemma current_epoch_frames id : frames R (current_epoch id).
Proof. intros d e d' [-> _]%current_epoch_Ok. reflexivity. Qed.

Lemma parse_parent_frames role actor arg : frames R (parse_parent role actor arg).
Proof. intros d p d' ->%parse_parent_Ok. reflexivity. Qed.

Lemma need_admin_frames role id actor : frames R (need_admin role id actor).
Proof. intros d u d' ->%need_admin_Ok. reflexivity. Qed.

Lemma member_set_frames id : frames R (member_set id).
Proof. intros d s d' [-> _]%member_set_Ok. reflexivity. Qed.

Lemma read_members_frames items acc : frames R (read_members items acc).
Proof.
  revert acc. induction items as [|v items IH]; intros acc; cbn [read_members]; repeat frame_step.
  - apply active_role_frames.
  - apply IH.
Qed.

Lemma insert_member_frames id pk role :
  (∀ t d, R d (set_members t d)) → frames R (insert_member id pk role).
Proof. intros H d u d' [_ ->]%insert_member_Ok. apply H. Qed.

Lemma insert_members_frames id l :
  (∀ t d, R d (set_members t d)) → frames R (insert_members id l).
Proof. intros H d u d' ->%insert_members_Ok. apply H. Qed.

Lemma insert_key_frames id e pk w by' :
  (∀ t d, R d (set_keys t d)) → frames R (insert_key id e pk w by').
Proof. intros H d u d' [_ ->]%insert_key_Ok. apply H. Qed.

Lemma insert_keys_frames id e keys by' :
  (∀ t d, R d (set_keys t d)) → frames R (insert_keys id e keys by').
Proof. intros H d u d' ->%insert_keys_Ok. apply H. Qed.

Lemma check_message_frames now m : frames R (check_message now m).
Proof. intros d u d' [-> _]%check_message_Ok. reflexivity. Qed.

Lemma check_epoch_frames m : frames R (check_epoch m).
Proof. intros d u d' [-> _]%check_epoch_Ok. reflexivity. Qed.

Lemma check_thread_frames m : frames R (check_thread m).
Proof. intros d u d' [-> _]%check_thread_Ok. reflexivity. Qed.

Lemma check_blobs_frames l : frames R (check_blobs l).
Proof. intros d u d' [-> _]%check_blobs_Ok. reflexivity. Qed.

Lemma target_exists_frames r : frames R (target_exists r).
Proof. intros d u d' ->%target_exists_Ok. reflexivity. Qed.

Lemma insert_attachments_frames id l :
  (∀ t d, R d (set_attachments t d)) → frames R (insert_attachments id l).
Proof. intros H d u d' ->%insert_attachments_Ok. apply H. Qed.

Lemma check_clock_frames now ts : frames R (check_clock now ts).
Proof. intros d u d' [-> _]%check_clock_Ok. reflexivity. Qed.

Lemma consume_nonce_frames now actor nonce ts :
  (∀ t d, R d (set_nonces t d)) → frames R (consume_nonce now actor nonce ts).
Proof. intros H d u d' [_ ->]%consume_nonce_Ok. apply H. Qed.

Lemma authorize_frames now op kind :
  (∀ d, R d (with_nonce now op d)) → frames R (authorize now op kind).
Proof. intros H d r d' (_ & ->)%authorize_Ok. apply H. Qed.
End Helpers.

#[local] Hint Resolve settings_frames path_holder_frames acquire_path_frames acquire_pool_frames
  next_lease_id_frames check_lease_room_frames lease_by_id_frames load_card_frames
  require_card_frames check_wip_frames check_edit_frames check_acyclic_frames card_ext_of_frames
  check_targets_frames effective_for_frames stored_policy_frames active_role_frames
  refuse_system_target_frames notify_frames insert_dep_frames insert_deps_frames authorize_frames
  current_epoch_frames parse_parent_frames need_admin_frames member_set_frames read_members_frames
  insert_member_frames insert_members_frames insert_key_frames insert_keys_frames
  check_message_frames check_epoch_frames check_thread_frames check_blobs_frames
  target_exists_frames insert_attachments_frames check_clock_frames consume_nonce_frames
  : tx_frame.

Ltac frame_op :=
  repeat first
    [ frame_step
    | solve [eauto with tx_frame typeclass_instances]
    | apply notify_frames; try typeclasses eauto; intros
    | apply insert_dep_frames; try typeclasses eauto; intros
    | apply insert_deps_frames; try typeclasses eauto; intros
    | apply authorize_frames; try typeclasses eauto; intros
    | apply insert_member_frames; try typeclasses eauto; intros
    | apply insert_members_frames; try typeclasses eauto; intros
    | apply insert_key_frames; try typeclasses eauto; intros
    | apply insert_keys_frames; try typeclasses eauto; intros
    | apply insert_attachments_frames; try typeclasses eauto; intros
    | apply consume_nonce_frames; try typeclasses eauto; intros
    | progress unfold unit_of, find_pool, refuse, is_last_owner, supervisors, next_epoch,
        require_sprint_id, ensure_card, sprint_state ].

(** Flagging rotations, row by row. *)
Lemma flag_rotations_R (R : db → db → Prop) `{!PreOrder R} now target cs d :
  (∀ t d, R d (set_rotations t d)) → R d (foldl (flag_rotation now target) d cs).
Proof.
  intros H. revert d. induction cs as [|c cs IH]; intros d; cbn; [reflexivity|].
  etrans; [|apply IH]. unfold flag_rotation. destruct (existsb _ _); [reflexivity|apply H].
Qed.

(** The one-statement changes a frame proof ends in. *)
Ltac frame_leaf :=
  repeat lazymatch goal with
  | |- ?R ?d (foldl (flag_rotation _ _) _ _) => apply (flag_rotations_R R); intros ? ?
  | |- ?R ?d (upsert_policy _ _) => unfold upsert_policy
  | |- ?R ?d (flag_left _ _ _ _) => unfold flag_left
  | |- ?R ?d (insert_blob_row _ _ _ _) => unfold insert_blob_row
  | |- ?R ?d (upsert_status _ _) => unfold upsert_status
  | |- ?R ?d (if ?b then _ else _) => destruct b
  | |- ?R ?d (match ?x with _ => _ end ?d) => destruct x
  | |- _ => reflexivity
  end.

(** ** What a call carries is authorized, and its nonce recorded *)

(** Everything after the envelope leaves the nonces alone. *)
Definition same_nonces (d d' : db) : Prop := nonces d' = nonces d.

#[local] Instance same_nonces_pre : PreOrder same_nonces.
Proof. unfold same_nonces. split; [done|]. intros a b c E1 E2. by rewrite E2. Qed.

Lemma enveloped_nonces {A} now op kind (k : Role → tx A) d a d' :
  (∀ role, frames same_nonces (k role)) →
  (authorize now op kind ≫= k) d = Ok (a, d') →
  ∃ kind role, authorized now op kind role d ∧ nonces d' = nonces (with_nonce now op d).
Proof. intros Hk H. by apply (enveloped_intro same_nonces now op kind k Hk) in H as (? & ? & ? & ?); eauto. Qed.

(** The same of the work operations, from their frames. *)
Lemma work_nonces {A} (R : db → db → Prop) now op (m : tx A) d a d' :
  enveloped R now op m → (∀ d d', R d d' → quiet_frame d d') → m d = Ok (a, d') →
  ∃ kind role, authorized now op kind role d ∧ nonces d' = nonces (with_nonce now op d).
Proof. intros Hm HR H. apply Hm in H as (kind & role & Ha & H). exists kind, role. split; [done|]. by apply HR in H as []. Qed.

(** The part of the store a call belongs to. *)
Inductive part : Type := PIdentity | PLease | PPolicy | PBoard | PChannel | PPost | PTeam | PWork.

#[export] Instance part_eq_dec : EqDecision part.
Proof. solve_decision. Defined.

Definition part_of (c : call) : part :=
  match c with
  | Register _ _ | BootstrapOwner _ | RegisterSystem _ | GrantRole _ | RevokeIdentity _ => PIdentity
  | PoolDefine _ | LeaseAcquire _ | LeaseRenew _ | LeaseRelease _ | QuietOpen _ | QuietClose _ => PLease
  | PolicySet _ => PPolicy
  | CreateChannel _ _ | AddMember _ _ | RemoveMember _ _ | ChannelRole _ | RotateKey _ _ => PChannel
  | PostMessage _ | Ack _ _ _ | ChargeBlob _ _ _ _ | React _ | PublishNote _ => PPost
  | CreateCard _ | AddEvidence _ | Approve _ | MoveCard _ _ | ReclaimStale _ | CardUpdate _ | CardDep _
  | CardLinkCall _ | CardEscalate _ _ => PBoard
  | CreateSprint _ | AddToSprint _ | StartSprint _ | CloseSprint _ | SetStatus _ | ClearStatus _ => PTeam
  | _ => PWork
  end.

Lemma work_frame_quiet d d' : work_frame d d' → quiet_frame d d'.
Proof. by intros []. Qed.

Lemma lease_frame_quiet now d d' : lease_frame now d d' → quiet_frame d d'.
Proof. by intros []. Qed.

Lemma timer_frame_quiet d d' : timer_frame d d' → quiet_frame d d'.
Proof. by intros []. Qed.

Create HintDb work_calls.
#[local] Hint Resolve work_scope_set_frames work_add_frames work_next_frames work_claim_frames work_accept_frames
  work_request_frames work_finish_frames work_cancel_frames work_update_frames work_settings_frames
  work_frame_quiet lease_frame_quiet : work_calls.

Lemma run_work_op now c op d d' :
  part_of c = PWork → call_op c = Some op → run_call now c d = Ok (tt, d') →
  ∃ kind role, authorized now op kind role d ∧ nonces d' = nonces (with_nonce now op d).
Proof.
  intros Hp Hop H. destruct c; try discriminate Hp; try discriminate Hop; injection Hop as <-; cbn [run_call] in H;
    try (apply unit_of_Ok in H as [? H]).
  all: try solve [refine (work_nonces work_frame _ _ _ _ _ _ _ _ H); eauto with work_calls].
  all: try solve [refine (work_nonces timer_frame _ _ _ _ _ _ _ _ H);
    auto using timer_create_frames, timer_delete_frames, timer_frame_quiet].
  refine (work_nonces (lease_frame now) _ _ _ _ _ _ _ _ H); [apply work_reclaim_frames|apply lease_frame_quiet].
Qed.

Lemma run_call_op now c op d d' :
  call_op c = Some op → run_call now c d = Ok (tt, d') →
  ∃ kind role, authorized now op kind role d ∧ nonces d' = nonces (with_nonce now op d).
Proof.
  intros Hop H. destruct (decide (part_of c = PWork)) as [E|E]; [by eapply run_work_op|].
  destruct c; try done; cbn in Hop; simplify_eq; cbn [run_call] in H; try (apply unit_of_Ok in H as [? H]);
    try (by eapply set_status_nonces); try (by eapply clear_status_nonces); (eapply enveloped_nonces; [|exact H]); intros role.
  all: clear.
  all: frame_op; frame_leaf.
Qed.

(** What the envelope of an operation has checked, and that its nonce is on
    file, unless nothing changed. *)
Record carried (now : Z) (op : SignedOp) (system : bool) (d d' : db) : Prop := {
  ca_clock : (Z.abs (now - o_ts op) ≤ MAX_SKEW_MS)%Z;
  ca_sig : verify (o_actor op) (signing_bytes op) (o_sig op) = Ok tt;
  ca_ident : ∃ i, i ∈ identities d ∧ i_pubkey i = o_actor op ∧ i_revoked i = false ∧ i_system i = system ∧
               (system = false → is_Some (role_parse (i_role i)));
  ca_fresh : nonce_seen (o_actor op) (o_nonce op) (prune_nonces now d) = false;
  ca_filed : d' = d ∨ mk_nonce (o_actor op) (o_nonce op) (o_ts op) ∈ nonces d' }.

Lemma carried_agent now op kind role d d' :
  authorized now op kind role d → nonces d' = nonces (with_nonce now op d) → carried now op false d d'.
Proof.
  intros [_ Hc Hs (i & Hi & Hr & Hy & Hp) Hf] En. constructor; try done.
  - exists i. apply find_ident_Some in Hi as [? ?]. split_and!; eauto.
  - right. rewrite En. apply with_nonce_in.
Qed.

Lemma carried_system now op kind d d' :
  sys_authorized now op kind d → nonces d' = nonces (with_nonce now op d) → carried now op true d d'.
Proof.
  intros [_ Hc Hs (i & Hi & Hk & Hy & Hr) Hf] En. constructor; try done.
  - by exists i.
  - right. rewrite En. apply with_nonce_in.
Qed.

Lemma keeps_nonces_trans now d1 d2 d3 : keeps_nonces now d1 d2 → keeps_nonces now d2 d3 → keeps_nonces now d1 d3.
Proof. intros H1 H2 n Hn Hm Ht. auto. Qed.

(** A nonce that is seen in the pruned table is seen after another was filed. *)
Lemma nonce_seen_later now op actor nonce d :
  nonce_seen actor nonce (prune_nonces now d) = true →
  nonce_seen actor nonce (prune_nonces now (with_nonce now op d)) = true.
Proof.
  unfold nonce_seen. rewrite !existsb_elem. intros (n & Hn & Hb). exists n. split; [|done].
  unfold prune_nonces in *. cbn [nonces set_nonces] in *. apply list_elem_of_filter in Hn as [Hw Hn].
  apply list_elem_of_filter. split; [done|]. unfold with_nonce. cbn [nonces set_nonces].
  apply elem_of_app. left. by apply list_elem_of_filter.
Qed.
Lemma nonce_seen_nonces actor nonce d d' :
  nonces d' = nonces d → nonce_seen actor nonce d' = nonce_seen actor nonce d.
Proof. unfold nonce_seen. by intros ->. Qed.

(** The two envelopes of a job's end. *)
Lemma finish_carried now op sync d r d' :
  job_finish now op sync d = Ok (r, d') →
  keeps_nonces now d d' ∧ ((i64_min ≤ o_ts op)%Z → carried now op true d d') ∧
  ∀ s, sync = Some s → carried now s true d d'.
Proof.
  intros (Hau & args & cur & d1 & _ & _ & _ & _ & [[[Ei _ _ _ _ _ _ _] _ En] _] & Hsync)%job_finish_Ok.
  assert (keeps_nonces now d d1) as Hk1.
  { eapply keeps_nonces_trans; [apply (with_nonce_keeps now op)|by apply keeps_nonces_eq]. }
  destruct sync as [s|]; [|subst d'; split_and!; [done|intros _; by eapply carried_system|done]].
  apply card_job_sync_frames in Hsync as (kind & Hs & [_ _ _ En']).
  assert (keeps_nonces now d1 d') as Hk2.
  { eapply keeps_nonces_trans; [apply (with_nonce_keeps now s)|by apply keeps_nonces_eq]. }
  split; [by eapply keeps_nonces_trans|]. split.
  - intros Hts. destruct (carried_system _ _ _ _ _ Hau En) as [? ? ? ? _]. constructor; try done.
    right. apply Hk2; [rewrite En; apply with_nonce_in|done|]. cbn. unfold MAX_SKEW_MS in *. lia.
  - intros s' [= <-]. destruct (carried_system _ _ _ _ _ Hs En') as [? ? Hi Hf ?]. constructor; try done.
    + by rewrite Ei in Hi.
    + apply not_true_iff_false. intros Hn%(nonce_seen_later now op). apply not_true_iff_false in Hf. apply Hf.
      rewrite <- Hn. apply nonce_seen_nonces. unfold prune_nonces. cbn. by rewrite En.
    + right. rewrite En'. apply with_nonce_in.
Qed.

(** A reconcile call was dropped, or applied. *)
Lemma reconcile_ran now op d u d' :
  apply_reconcile now op d = Ok (u, d') →
  d' = d ∧ sys_authorized now op (o_kind op) d ∨ ∃ a, applied now op a d d'.
Proof.
  intros (out & d1 & H & [_ ->]%mret_Ok)%tx_bind_Ok.
  apply apply_reconcile_Ok in H as [(-> & _ & Hs & _)|(_ & a & Ha)]; [by left|right; by exists a].
Qed.

Lemma run_call_system now c op d d' :
  op ∈ system_ops c → (i64_min ≤ o_ts op)%Z → run_call now c d = Ok (tt, d') → carried now op true d d'.
Proof.
  intros Hop Hts H. destruct c; cbn in Hop; try (by apply not_elem_of_nil in Hop); cbn [run_call] in H.
  - apply list_elem_of_singleton in Hop as ->. apply unit_of_Ok in H as [? H].
    apply job_start_frames in H as (kind & Hs & [[_ _ En] _]). by eapply carried_system.
  - apply unit_of_Ok in H as [r H]. destruct sync as [s|].
    + apply finish_carried in H as (_ & Ho & Hs).
      apply elem_of_cons in Hop as [->| ->%list_elem_of_singleton]; [by apply Ho|by apply Hs].
    + apply list_elem_of_singleton in Hop as ->. by apply finish_carried in H as (_ & Ho & _); apply Ho.
  - apply list_elem_of_singleton in Hop as ->.
    apply job_note_frames in H as (kind & Hs & [[_ _ En] _]). by eapply carried_system.
  - apply list_elem_of_singleton in Hop as ->. apply unit_of_Ok in H as [? H].
    apply timer_fire_frames in H as (kind & Hs & [[_ _ En] _]). by eapply carried_system.
  - apply list_elem_of_singleton in Hop as ->. apply unit_of_Ok in H as [? H]. apply reconcile_ran in H as [[-> Hs]|(a & [Hs _ _ _ _ [_ En _ _ _ _ _]])].
    + destruct Hs as [_ Hc Hsg (i & Hi & Hk & Hy & Hrv) Hf]. constructor; try done; [by exists i|by left].
    + by eapply carried_system.
Qed.

(** Every operation of a committed call was in order. *)
Lemma run_call_carried now c op system d d' :
  (op, system) ∈ call_ops c → (i64_min ≤ o_ts op)%Z → run_call now c d = Ok (tt, d') → carried now op system d d'.
Proof.
  unfold call_ops. intros Hin Hts H. destruct (call_op c) as [op'|] eqn:E.
  - apply list_elem_of_singleton in Hin as [= -> ->].
    destruct (run_call_op now c op' d d' E H) as (kind & role & Ha & En). by eapply carried_agent.
  - apply list_elem_of_fmap in Hin as (x & [= -> ->] & Hx). by eapply run_call_system.
Qed.

(** Calls that carry no operation leave the nonces alone. *)
Lemma run_call_no_op now c d d' :
  call_ops c = [] → (∀ r, c ≠ React r) → run_call now c d = Ok (tt, d') → nonces d' = nonces d.
Proof.
  intros Hop Hnr H. destruct (decide (part_of c = PWork)) as [Hp|Hp].
  - destruct c; try discriminate Hp; try discriminate Hop; cbn [run_call] in H.
    + by destruct sync.
    + by apply job_sample_frames in H as [[_ _ ->] _].
    + apply unit_of_Ok in H as [? H]. by apply (work_prune_frames now) in H as [[_ _ ->] _].
  - revert H. change (nonces d' = nonces d) with (same_nonces d d'). revert d d'.
    assert (frames same_nonces (run_call now c)) as Hf.
    { destruct c; try discriminate Hop; try done; cbn [run_call]; try (by destruct (Hnr r));
        unfold register_identity, bootstrap_owner, register_system_identity, post_message, ack, charge_blob,
          publish_note; frame_op; frame_leaf. }
    intros d d'. apply Hf.
Qed.

Lemma react_keeps now r d u d' : react now r d = Ok (u, d') → keeps_nonces now d d'.
Proof.
  intros [_ H]%react_Ok n Hin Hm Ht.
  assert (nonces d' = nonces (with_nonce now (react_op r) d)) as ->; [|by apply with_nonce_keeps].
  destruct H as [[_ [->|[data ->]]]|[_ [data ->]]]; done.
Qed.

Lemma run_call_keeps now c d d' :
  run_call now c d = Ok (tt, d') → keeps_nonces now d d'.
Proof.
  intros H. destruct (call_op c) as [op|] eqn:E.
  { destruct (run_call_op now c op d d' E H) as (kind & role & _ & En).
    intros n Hn Hm Ht. rewrite En. by apply with_nonce_keeps. }
  destruct (system_ops c) as [|op l] eqn:Es.
  - assert ((∃ r, c = React r) ∨ ∀ r, c ≠ React r) as [[r ->]|Hn]
      by (destruct c; eauto; right; discriminate); [by eapply react_keeps|].
    apply keeps_nonces_eq. eapply run_call_no_op; [|done..]. unfold call_ops. by rewrite E, Es.
  - destruct c; try discriminate Es; cbn [run_call] in H; try (apply unit_of_Ok in H as [? H]).
    + apply job_start_frames in H as (kind & _ & [[_ _ En] _]).
      intros n Hn Hm Ht. rewrite En. by apply with_nonce_keeps.
    + by apply finish_carried in H as [H _].
    + apply job_note_frames in H as (kind & _ & [[_ _ En] _]).
      intros n Hn Hm Ht. rewrite En. by apply with_nonce_keeps.
    + apply timer_fire_frames in H as (kind & _ & [[_ _ En] _]).
      intros n Hn Hm Ht. rewrite En. by apply with_nonce_keeps.
    + apply reconcile_ran in H as [[-> _]|(a & [_ _ _ _ _ [_ En _ _ _ _ _]])]; [by apply keeps_nonces_eq|].
      intros n Hn Hm Ht. rewrite En. by apply with_nonce_keeps.
Qed.

Lemma exec_keeps x d : keeps_nonces x.1 d (exec x d).2.
Proof.
  destruct (exec_cases x d) as [(d' & H & ->)|(e & ->)]; [by eapply run_call_keeps|].
  by apply keeps_nonces_eq.
Qed.

(** A nonce survives any calls whose clocks are at most [MAX_SKEW_MS] past the
    end of its window. *)
Lemma run_keeps l d n :
  n ∈ nonces d → (i64_min ≤ n_ts n)%Z →
  Forall (λ x, x.1 - 2 * MAX_SKEW_MS ≤ n_ts n)%Z l → n ∈ nonces (run l d).
Proof.
  intros Hn Hm Hl. revert d Hn. induction Hl as [|x l Hx Hl IH]; intros d Hn; [done|].
  cbn [run foldl]. apply IH. by eapply exec_keeps.
Qed.

(** ** What calls of one part leave of the others *)

Definition is_finish (c : call) : bool := match c with JobFinish _ _ => true | _ => false end.

Definition is_reconcile (c : call) : bool := match c with ReconcileCall _ => true | _ => false end.

(** Work calls that may move cards. *)
Definition moves_cards (c : call) : bool := is_finish c || is_reconcile c.

Definition is_prune (c : call) : bool := match c with WorkPrune _ => true | _ => false end.

Definition is_timer (c : call) : bool :=
  match c with TimerCreate _ | TimerDelete _ | TimerFire _ _ => true | _ => false end.

(** What a work call leaves alone: the other parts but leases, which stay well
    formed, the board, unless a job ends or the daemon reconciles, the timers, and
    the marks, unless they are pruned. *)
Record work_call_frame (now : Z) (c : call) (d d' : db) : Prop := {
  wc_outer : outer_frame d d';
  wc_leases : leases_wf now (leases d) → leases_wf now (leases d');
  wc_board : moves_cards c = false → board_frame d d';
  wc_timers : is_timer c = false → timers (work d') = timers (work d);
  wc_marks : is_prune c = false → ∀ k, marked k d = true → marked k d' = true }.

Lemma marks_stay k d d' :
  reconcile_marks (work d') = reconcile_marks (work d) → marked k d = true → marked k d' = true.
Proof. unfold marked. by intros ->. Qed.

Lemma lease_call_frame now c d d' : lease_frame now d d' → work_call_frame now c d d'.
Proof. intros [[] ? ? Em]. constructor; try done. intros _ k. by apply marks_stay. Qed.

Lemma prune_call_frame now c d d' : is_prune c = true → prune_frame now d d' → work_call_frame now c d d'.
Proof. intros Hp [[] ? ?]. constructor; try done. by rewrite Hp. Qed.

(** The same after an envelope. *)
Lemma lease_call_after now c op d d' : lease_frame now (with_nonce now op d) d' → work_call_frame now c d d'.
Proof.
  intros [[[] []] Hl Et Em]. constructor; [by constructor|exact Hl|by constructor|done|].
  intros _ k. by apply (marks_stay k (with_nonce now op d)).
Qed.

Lemma timer_call_frame now c op d d' :
  is_timer c = true → timer_frame (with_nonce now op d) d' → work_call_frame now c d d'.
Proof.
  intros Hc [[[] [] _] El Em]. constructor; [by constructor|by rewrite El|by constructor|by rewrite Hc|].
  intros _ k. by apply (marks_stay k (with_nonce now op d)).
Qed.

Lemma work_call_enveloped {A} now c op (m : tx A) d a d' :
  enveloped work_frame now op m → m d = Ok (a, d') → work_call_frame now c d d'.
Proof.
  intros Hm H. apply Hm in H as (kind & role & _ & H). by eapply lease_call_after, work_lease_frame.
Qed.

Lemma work_call_system {A} now c op (m : tx A) d a d' :
  sys_enveloped work_frame now op m → m d = Ok (a, d') → work_call_frame now c d d'.
Proof.
  intros Hm H. apply Hm in H as (kind & _ & H). by eapply lease_call_after, work_lease_frame.
Qed.

Lemma run_work_frame now c d d' :
  part_of c = PWork → run_call now c d = Ok (tt, d') → work_call_frame now c d d'.
Proof.
  intros Hp H. destruct c; try discriminate Hp; cbn [run_call] in H; try (apply unit_of_Ok in H as [? H]).
  all: try solve [refine (work_call_enveloped _ _ _ _ _ _ _ _ H); eauto with work_calls].
  - apply work_reclaim_frames in H as (kind & role & _ & H). by eapply lease_call_after.
  - apply timer_create_frames in H as (kind & role & _ & H). by eapply timer_call_frame.
  - apply timer_delete_frames in H as (kind & role & _ & H). by eapply timer_call_frame.
  - refine (work_call_system _ _ _ _ _ _ _ _ H). apply job_start_frames.
  - apply job_finish_Ok in H as (_ & args & cur & d1 & _ & _ & _ & _ & [[Ho _ _] El Et Em] & Hs).
    constructor; [| |done|..].
    + transitivity d1; [by destruct Ho|]. destruct sync as [s|]; [|by subst].
      apply card_job_sync_frames in Hs as (kind & _ & [Ho' _ _ _]). by destruct Ho'.
    + assert (leases d' = leases d1) as ->; [|by rewrite El]. destruct sync as [s|]; [|by subst].
      by apply card_job_sync_frames in Hs as (kind & _ & [_ -> _ _]).
    + intros _. transitivity (timers (work d1)); [|exact Et]. destruct sync as [s|]; [|by subst].
      apply card_job_sync_frames in Hs as (kind & _ & [_ _ Ew _]). by rewrite Ew.
    + intros _ k. apply marks_stay. transitivity (reconcile_marks (work d1)); [|exact Em].
      destruct sync as [s|]; [|by subst]. apply card_job_sync_frames in Hs as (kind & _ & [_ _ Ew _]). by rewrite Ew.
  - refine (work_call_system _ _ _ _ _ _ _ _ H). apply job_note_frames.
  - apply timer_fire_frames in H as (kind & _ & H). by eapply timer_call_frame.
  - apply reconcile_ran in H as [[-> _]|(a & [_ _ _ _ _ [Ho _ Et Hm Hl _ _]])]; [done|].
    constructor; [by destruct Ho|exact Hl|done|by intros _|]. intros _ k Hk. by apply Hm.
  - apply lease_call_frame, work_lease_frame. by eapply job_sample_frames.
  - apply prune_call_frame; [done|]. by eapply work_prune_frames.
Qed.

(** A job's end moves its card. *)
Lemma run_finish_board now op sync d r d' :
  board_wf d → job_finish now op sync d = Ok (r, d') → board_wf d' ∧ board_steps 2 d d'.
Proof.
  intros Hwf (_ & args & cur & d1 & _ & _ & _ & _ & [[_ Hb _] _] & Hs)%job_finish_Ok.
  assert (board_wf d1 ∧ board_step d d1) as [Hwf1 _] by (apply board_keep_same; [done|by destruct Hb]).
  assert (∀ id, card_at id d1 = card_at id d) as Hat.
  { intros id. apply card_at_cards. by destruct Hb. }
  destruct sync as [s|]; [|subst; split; [done|by apply board_steps_same]].
  apply card_job_sync_board in Hs as [Hwf' Hst]; [|done]. split; [done|]. intros id. rewrite <- Hat. apply Hst.
Qed.

(** A reconcile call moves a card by a step at most. *)
Lemma run_reconcile_board now op d u d' :
  board_wf d → apply_reconcile now op d = Ok (u, d') → board_wf d' ∧ board_step d d'.
Proof.
  intros Hwf [[-> _]|(a & [_ _ _ _ _ Hd])]%reconcile_ran; [split; [done|by left]|].
  apply (pf_board _ _ _ Hd). by apply (board_keep_same d).
Qed.

Definition same_leases (d d' : db) : Prop := leases d' = leases d.
Definition same_identities (d d' : db) : Prop := identities d' = identities d.

#[local] Instance same_leases_pre : PreOrder same_leases.
Proof. unfold same_leases. split; [done|]. intros a b c E1 E2. by rewrite E2. Qed.
#[local] Instance same_identities_pre : PreOrder same_identities.
Proof. unfold same_identities. split; [done|]. intros a b c E1 E2. by rewrite E2. Qed.

Ltac unfold_call :=
  cbn [run_call];
  unfold unit_of, register_identity, bootstrap_owner, register_system_identity, grant_role,
    revoke_identity, pool_define, lease_acquire, lease_renew, lease_release, quiet_open, quiet_close,
    policy_set, create_card, add_evidence, approve, transition, reclaim_stale, card_update, card_dep,
    card_link, card_escalate, create_channel, add_member, remove_member, set_channel_role,
    rotate_channel_key, post_message, ack, charge_blob, react, publish_note, create_sprint, add_to_sprint,
    start_sprint, close_sprint, set_status, clear_status, require_sprint_id, ensure_card, sprint_state,
    require_own_subject.

(** Each frame is that of the work calls, or step by step of the others. *)
Ltac other_call now c :=
  destruct (decide (part_of c = PWork)) as [Hw|Hw];
  [ intros d [] d' H; apply (run_work_frame now c d d' Hw) in H as [[] _ _ _ _]
  | destruct c; try done; unfold_call; frame_op; frame_leaf ].

Lemma run_call_leases now c :
  part_of c ≠ PLease → part_of c ≠ PWork → frames same_leases (run_call now c).
Proof. intros Hp Hw. destruct c; try done; unfold_call; frame_op; frame_leaf. Qed.

Lemma run_call_identities now c : part_of c ≠ PIdentity → frames same_identities (run_call now c).
Proof. intros Hp. other_call now c. done. Qed.

Lemma board_frame_tables d d' :
  cards d' = cards d → evidence d' = evidence d → approvals d' = approvals d →
  card_deps d' = card_deps d → events d' = events d → board_frame d d'.
Proof. intros ???? E. constructor; try done. by rewrite E. Qed.

Lemma board_frame_logged now actor kind subject data d :
  silent kind → board_frame d (logged now actor kind subject data d).
Proof. intros H. by apply (work_frame_logged now actor kind subject data d) in H as [[_ ? _] _]. Qed.

Lemma run_call_off_board now c :
  part_of c ≠ PBoard → moves_cards c = false → frames board_frame (run_call now c).
Proof.
  intros Hp Hfin. destruct (decide (part_of c = PWork)) as [Hw|Hw].
  { intros d [] d' H. by apply (run_work_frame now c d d' Hw) in H as [_ _ H _ _]; apply H. }
  destruct c; try done; unfold_call; frame_op.
  all: try (apply board_frame_logged; by repeat split; discriminate).
  all: try (apply board_frame_tables; reflexivity).
  all: frame_leaf.
  all: try (apply board_frame_tables; reflexivity).
Qed.

Definition same_posts (d d' : db) : Prop := posts d' = posts d.

#[local] Instance same_posts_pre : PreOrder same_posts.
Proof. unfold same_posts. split; [done|]. intros a b c E1 E2. by rewrite E2. Qed.

Lemma run_call_posts now c : part_of c ≠ PPost → frames same_posts (run_call now c).
Proof. intros Hp. other_call now c. done. Qed.

(** Revocations change the channels of a key as well. *)
Definition changes_channels (c : call) : bool :=
  match c with
  | RevokeIdentity _ => true
  | _ => bool_decide (part_of c = PChannel)
  end.

Lemma outer_chan_same d d' : outer_frame d d' → chan_same d d'.
Proof. intros [Ei Ec Em Ek Er _ _ Es]. split_and!; try done. intros pk. unfold standing, find_ident. by rewrite Ei. Qed.

Lemma run_call_chan_same now c : changes_channels c = false → frames chan_same (run_call now c).
Proof.
  intros Hp. destruct (decide (part_of c = PWork)) as [Hw|Hw].
  { intros d [] d' H. by apply (run_work_frame now c d d' Hw) in H as [?%outer_chan_same _ _ _ _]. }
  destruct c; try discriminate Hp; try done; unfold_call; frame_op.
  all: try apply chan_same_logged.
  all: try apply chan_same_insert.
  all: try apply chan_same_retire.
  all: try (apply chan_same_tables; reflexivity).
  all: frame_leaf.
  all: try apply chan_same_insert.
  all: try (apply chan_same_update; intros ?; cbn; tauto).
  all: try (apply chan_same_tables; reflexivity).
Qed.

Definition same_work (d d' : db) : Prop := work d' = work d.

#[local] Instance same_work_pre : PreOrder same_work.
Proof. unfold same_work. split; [done|]. intros a b c E1 E2. by rewrite E2. Qed.

Lemma run_call_same_work now c : part_of c ≠ PWork → frames same_work (run_call now c).
Proof. intros Hp. destruct c; try done; unfold_call; frame_op; frame_leaf. Qed.

Definition same_team (d d' : db) : Prop := team d' = team d.

#[local] Instance same_team_pre : PreOrder same_team.
Proof. unfold same_team. split; [done|]. intros a b c E1 E2. by rewrite E2. Qed.

Lemma run_call_same_team now c : part_of c ≠ PTeam → frames same_team (run_call now c).
Proof. intros Hp. other_call now c. done. Qed.

(** No call removes an identity. *)
Definition idents_stay (d d' : db) : Prop :=
  ∀ i, i ∈ identities d → ∃ i', i' ∈ identities d' ∧ i_pubkey i' = i_pubkey i.

#[local] Instance idents_stay_pre : PreOrder idents_stay.
Proof.
  split; [intros d i Hi; by exists i|]. intros a b c H1 H2 i Hi.
  destruct (H1 i Hi) as (j & Hj & <-). by apply H2.
Qed.

Lemma idents_stay_map (f : ident → ident) d :
  (∀ i, i_pubkey (f i) = i_pubkey i) → idents_stay d (set_identities (map f (identities d)) d).
Proof. intros Hf i Hi. exists (f i). split; [by apply list_elem_of_fmap_2|apply Hf]. Qed.

Lemma idents_stay_insert i d : idents_stay d (insert_ident i d).
Proof. intros j Hj. exists j. split; [cbn; rewrite elem_of_app; by left|done]. Qed.

Lemma idents_stay_same d d' : identities d' = identities d → idents_stay d d'.
Proof. intros E i Hi. exists i. by rewrite E. Qed.

Lemma run_call_idents_stay now c : frames idents_stay (run_call now c).
Proof.
  destruct (decide (part_of c = PIdentity)) as [Hp|Hp].
  2: { intros d [] d' H. apply idents_stay_same. exact (run_call_identities now c Hp d tt d' H). }
  destruct c; try discriminate Hp; unfold_call; frame_op.
  all: frame_leaf; unfold update_ident; try apply idents_stay_insert; try (by apply idents_stay_same).
  all: apply idents_stay_map; intros ?; by repeat case_match.
Qed.

(** ** The work queue *)

(** What the types of the code give of a call's key or sample, and that the log
    has room: an epoch is at most the number of events, so it does not wrap
    around. *)
Definition call_fits (c : call) (d : db) : Prop :=
  match c with
  | Register pk _ | BootstrapOwner pk | RegisterSystem pk => String.length pk = 32
  | RemoveMember _ _ | RotateKey _ _ => (event_seq d < i64_max)%Z
  | JobSample _ _ rss peak _ => (0 ≤ rss)%Z ∧ (0 ≤ peak)%Z
  | _ => True
  end.


Context {CL : WorkCodecLaws WC} {JL : JobCodecLaws JC} {TL : TimerCodecLaws TC}.

(** Who takes the steps of a call. *)
Definition takes_steps (by' : taker) (c : call) (d : db) : Prop :=
  match by' with
  | ByAgent who role => ∃ op i, call_op c = Some op ∧ who = actor_hex op ∧ find_ident (o_actor op) d = Some i ∧
      i_revoked i = false ∧ role_parse (i_role i) = Some role
  | BySystem => call_op c = None
  end.

Lemma agent_step_taken c op now d d' :
  call_op c = Some op → agent_step op now d d' → work_wf (work d') ∧ ∃ by', takes_steps by' c d ∧ work_step by' d d'.
Proof.
  intros Hop (kind & role & Ha & _ & Hwf & Hst). split; [done|]. exists (ByAgent (actor_hex op) role).
  split; [|done]. destruct (au_role _ _ _ _ _ Ha) as (i & ? & ? & _ & ?). by exists op, i.
Qed.

(** An operation that kept the queue as it was. *)
Lemma agent_kept c op now d d' :
  call_op c = Some op → (∃ kind role, authorized now op kind role d) → (∀ by', work_step by' d d') →
  ∃ by', takes_steps by' c d ∧ work_step by' d d'.
Proof.
  intros Hop (kind & role & Ha) Hst. exists (ByAgent (actor_hex op) role). split; [|done].
  destruct (au_role _ _ _ _ _ Ha) as (i & ? & ? & _ & ?). by exists op, i.
Qed.

Lemma run_call_work now c d d' :
  call_fits c d → ident_wf (identities d) → work_wf (work d) → timers_wf (work d) → run_call now c d = Ok (tt, d') →
  work_wf (work d') ∧ timers_wf (work d') ∧ ∃ by', takes_steps by' c d ∧ work_step by' d d'.
Proof.
  intros Hfit Hiw Hwf Htw H. destruct (is_timer c) eqn:Et.
  { destruct c; try discriminate Et; cbn [run_call] in H; try (apply unit_of_Ok in H as [? H]).
    - apply timer_create_ok in H as (Ha & ? & ? & Hst); [|done..]. split_and!; [done..|by eapply agent_kept].
    - apply timer_delete_ok in H as (Ha & ? & ? & Hst); [|done..]. split_and!; [done..|by eapply agent_kept].
    - apply timer_fire_ok in H as (kind & _ & ? & ? & ?); [|done..]. split_and!; [done..|by exists BySystem]. }
  destruct (is_reconcile c) eqn:Erec.
  { destruct c; try discriminate Erec. apply unit_of_Ok in H as [? H]. apply reconcile_ran in H as [[-> _]|(a & [_ _ _ _ _ Hd])].
    - split_and!; [done..|]. exists BySystem. split; [done|by apply work_step_same].
    - destruct (pf_work _ _ _ Hd) as [? Hst]; [done|]. split_and!; [done| |by exists BySystem].
      apply (timers_wf_same (work d)); [|done]. apply Hd. }
  assert (work_wf (work d') ∧ ∃ by', takes_steps by' c d ∧ work_step by' d d') as [? ?].
  2: { split_and!; [done| |done]. apply (timers_wf_same (work d)); [|done].
       destruct (decide (part_of c = PWork)) as [Hw|Hw];
         [by apply (run_work_frame now c d d' Hw)|by rewrite (run_call_same_work now c Hw d tt d' H)]. }
  clear Htw Hiw. destruct (decide (part_of c = PWork)) as [Hw|Hw].
  2: { pose proof (run_call_same_work now c Hw d tt d' H) as E. split; [by rewrite E|].
       assert (∀ by', work_step by' d d') as Hst by (intros by'; by apply work_step_same).
       destruct (call_op c) as [op|] eqn:Hop; [|by exists BySystem].
       destruct (run_call_op now c op d d' Hop H) as (kind & role & Ha & _).
       destruct (au_role _ _ _ _ _ Ha) as (i & ? & ? & _ & ?). exists (ByAgent (actor_hex op) role). split; [|done].
       by exists op, i. }
  destruct c; try discriminate Hw; try discriminate Et; try discriminate Erec; cbn [run_call] in H; try (apply unit_of_Ok in H as [? H]).
  - eapply agent_step_taken; [done|]. by eapply work_scope_set_ok.
  - eapply agent_step_taken; [done|]. by eapply work_add_ok.
  - eapply agent_step_taken; [done|]. by eapply work_next_ok.
  - eapply agent_step_taken; [done|]. by eapply work_claim_ok.
  - eapply agent_step_taken; [done|]. by eapply work_accept_ok.
  - eapply agent_step_taken; [done|]. by eapply work_request_ok.
  - eapply agent_step_taken; [done|]. by eapply work_finish_ok.
  - eapply agent_step_taken; [done|]. by eapply work_cancel_ok.
  - eapply agent_step_taken; [done|]. by eapply work_update_ok.
  - eapply agent_step_taken; [done|]. by eapply work_reclaim_ok.
  - eapply agent_step_taken; [done|]. by eapply work_settings_ok.
  - apply job_start_ok in H as (kind & _ & ? & ?); [|done]. split; [done|by exists BySystem].
  - apply job_finish_ok in H as (kind & _ & ? & ?); [|done]. split; [done|by exists BySystem].
  - apply job_note_ok in H as (kind & _ & ? & ?); [|done]. split; [done|by exists BySystem].
  - destruct Hfit. apply (job_sample_ok BySystem) in H as [? ?]; [|done..]. split; [done|by exists BySystem].
  - apply (work_prune_ok BySystem) in H as [? ?]; [|done]. split; [done|by exists BySystem].
Qed.
(** Marks stay until they are pruned. *)
Lemma exec_marks x k d :
  is_prune x.2 = false → marked k d = true → marked k (exec x d).2 = true.
Proof.
  intros Hp Hm. destruct (exec_cases x d) as [(d' & H & ->)|(e & ->)]; [|done]. cbn.
  destruct (decide (part_of x.2 = PWork)) as [Hw|Hw]; [by apply (run_work_frame _ _ _ _ Hw H)|].
  apply (marks_stay k d); [|done]. by rewrite (run_call_same_work _ _ Hw d tt d' H).
Qed.

(** ** Reachable states *)

(** States a sequence of calls leads to from a fresh database, with clocks that
    do not go back; a call may fail. *)
Inductive reachable : Z → db → Prop :=
| reach_init now : reachable now empty_db
| reach_step now now' c d :
    reachable now d → (now ≤ now')%Z → call_fits c d → reachable now' (exec (now', c) d).2.

Record store_inv (now : Z) (d : db) : Prop := {
  si_identities : ident_wf (identities d);
  si_leases : leases_wf now (leases d);
  si_board : board_wf d;
  si_channels : chan_wf d;
  si_posts : post_wf d;
  si_social : soc_wf (posts d);
  si_work : work_wf (work d);
  si_team : team_wf d;
  si_timers : timers_wf (work d) }.

Lemma post_wf_init : post_wf empty_db.
Proof.
  constructor; cbn; try by constructor.
  all: intros; match goal with H : _ ∈ [] |- _ => by apply elem_of_nil in H end.
Qed.

Lemma soc_wf_init : soc_wf (posts empty_db).
Proof.
  constructor; cbn; try by constructor.
  1-2: intros; match goal with H : _ ∈ [] |- _ => by apply elem_of_nil in H end.
  intros i k p H. by rewrite lookup_nil in H.
Qed.

Lemma nil_acyclic (R : string → string → Prop) : (∀ x y, ¬ R x y) → ∀ c, ¬ tc R c c.
Proof. intros H c Hc. assert (∃ x, R x c) as [x Hx]; [|by eapply H]. induction Hc; eauto. Qed.

Lemma work_wf_init : work_wf (work empty_db).
Proof.
  constructor; cbn; try by constructor.
  4: refine (nil_acyclic (dep_edge []) _); by intros x y H%elem_of_nil.
  8: refine (nil_acyclic (scope_edge []) _); by intros x y (s & H%elem_of_nil & _).
  1: done.
  all: intros; match goal with H : _ ∈ [] |- _ => by apply elem_of_nil in H end.
Qed.

Lemma team_wf_init : team_wf empty_db.
Proof. constructor; cbn; try by constructor. all: set_solver. Qed.

Lemma store_inv_init now : store_inv now empty_db.
Proof.
  constructor; [..|apply chan_wf_empty|apply post_wf_init|apply soc_wf_init|apply work_wf_init|apply team_wf_init|];
    constructor; cbn [identities leases cards approvals card_deps events empty_db fmap list_fmap];
    try (by constructor); try (by intros ? ?%elem_of_nil); try (by intros ? ? ?%elem_of_nil).
  - intros h. cbn. lia.
  - refine (nil_acyclic (dep_edge []) _). by intros x y H%elem_of_nil.
Qed.

Lemma run_call_ident_wf now c d d' :
  call_fits c d → ident_wf (identities d) → run_call now c d = Ok (tt, d') →
  ident_wf (identities d').
Proof.
  intros Hfit Hwf H. destruct (decide (part_of c = PIdentity)) as [E|E].
  - destruct c; try discriminate E; cbn [run_call] in H.
    + by eapply register_identity_wf.
    + by eapply bootstrap_owner_wf.
    + by eapply register_system_identity_wf.
    + by eapply grant_role_wf.
    + by eapply revoke_identity_wf.
  - by rewrite (run_call_identities now c E d tt d' H).
Qed.

Lemma run_call_leases_wf now0 now c d d' :
  (now0 ≤ now)%Z → leases_wf now0 (leases d) → run_call now c d = Ok (tt, d') →
  leases_wf now (leases d').
Proof.
  intros Hn Hwf H. destruct (decide (part_of c = PLease)) as [E|E].
  - destruct c; try discriminate E; cbn [run_call] in H; try (apply unit_of_Ok in H as [? H]).
    + apply pool_define_Ok in H as (-> & _). by apply (leases_wf_later now0).
    + by eapply lease_acquire_wf.
    + by eapply lease_renew_wf.
    + by eapply lease_release_wf.
    + by eapply quiet_open_wf.
    + by eapply quiet_close_wf.
  - destruct (decide (part_of c = PWork)) as [Hw|Hw].
    + apply (run_work_frame now c d d' Hw) in H as [_ Hl _ _ _]. by apply Hl, (leases_wf_later now0).
    + rewrite (run_call_leases now c E Hw d tt d' H). by apply (leases_wf_later now0).
Qed.

(** A card takes one step of its life in a call, two when a job ends. *)
Definition most_steps (c : call) : nat := if is_finish c then 2 else 1.

Lemma most_steps_one c d d' : board_step d d' → board_steps (most_steps c) d d'.
Proof. apply board_step_steps. unfold most_steps. destruct (is_finish c); lia. Qed.

Lemma board_call c d d' : board_wf d' ∧ board_step d d' → board_wf d' ∧ board_steps (most_steps c) d d'.
Proof. intros [? ?]. split; [done|by apply most_steps_one]. Qed.

Lemma run_call_board now c d d' :
  board_wf d → run_call now c d = Ok (tt, d') → board_wf d' ∧ board_steps (most_steps c) d d'.
Proof.
  intros Hwf H. destruct (is_finish c) eqn:Hfin.
  { destruct c; try discriminate Hfin. apply unit_of_Ok in H as [r H]. by eapply run_finish_board. }
  apply board_call. destruct (is_reconcile c) eqn:Hrec.
  { destruct c; try discriminate Hrec. apply unit_of_Ok in H as [? H]. by eapply run_reconcile_board. }
  assert (moves_cards c = false) as Hmv by (unfold moves_cards; by rewrite Hfin, Hrec). destruct (decide (part_of c = PBoard)) as [E|E].
  - destruct c; try discriminate E; cbn [run_call] in H; try (apply unit_of_Ok in H as [? H]).
    + by eapply create_card_board.
    + by eapply add_evidence_board.
    + by eapply approve_board.
    + by eapply transition_board.
    + by eapply reclaim_stale_board.
    + by eapply card_update_board.
    + by eapply card_dep_board.
    + by eapply card_link_board.
    + by eapply card_escalate_board.
  - apply board_keep_same; [done|]. by eapply run_call_off_board.
Qed.

Lemma run_call_channels now c d d' :
  call_fits c d → chan_wf d → run_call now c d = Ok (tt, d') → chan_wf d' ∧ chan_grow d d'.
Proof.
  intros Hfit Hwf H. destruct (changes_channels c) eqn:E.
  - destruct c; try discriminate E; cbn [run_call] in H; try (apply unit_of_Ok in H as [? H]).
    + by eapply revoke_identity_chan.
    + by eapply create_channel_wf.
    + by eapply add_member_wf.
    + by eapply remove_member_wf.
    + by eapply set_channel_role_wf.
    + by eapply rotate_channel_key_wf.
  - eapply chan_wf_same; [|done]. by eapply run_call_chan_same.
Qed.

Lemma charge_blob_Ok now uploader hash bytes quota spilled d h d' :
  charge_blob now uploader hash bytes quota spilled d = Ok (h, d') →
  d' = d ∨ ∃ t, d' = set_uploads t (insert_blob_row hash bytes spilled d).
Proof.
  unfold charge_blob. intros H. step active_role_Ok in H as ? [-> _]. step need_Ok in H as ? [-> _].
  step query_Ok in H as ? [-> ->]. destruct (charged_to _ _ _); tx_inv; [by left|right]. by eexists.
Qed.

Lemma has_blob_insert h hash bytes spilled d :
  has_blob h d = true → has_blob h (insert_blob_row hash bytes spilled d) = true.
Proof.
  unfold insert_blob_row. destruct (has_blob hash d); [done|]. unfold has_blob. cbn.
  rewrite existsb_app. by intros ->.
Qed.

Lemma run_call_post_wf now c d d' :
  ident_wf (identities d) → chan_wf d → chan_grow d d' → post_wf d → run_call now c d = Ok (tt, d') →
  post_wf d'.
Proof.
  intros Hi Hc Hg Hwf H. destruct (decide (part_of c = PPost)) as [E|E].
  - destruct c; try discriminate E; cbn [run_call] in H; try (apply unit_of_Ok in H as [? H]).
    + by eapply post_message_wf.
    + by eapply ack_wf.
    + apply charge_blob_Ok in H as [->|[t ->]]; [done|]. eapply (post_wf_frame d); try done.
      1-3: unfold insert_blob_row; by destruct (has_blob _ _).
      intros h Hh. by apply has_blob_insert.
    + apply react_Ok in H as [_ H].
      destruct H as [[_ [->|[data ->]]]|[_ [data ->]]]; by eapply (post_wf_frame d).
    + apply publish_note_Ok in H as (_ & _ & _ & data & ->). by eapply (post_wf_frame d).
  - eapply (post_wf_frame d); try done; unfold has_blob; by rewrite (run_call_posts now c E d tt d' H).
Qed.

Lemma run_call_soc_wf now c d d' :
  soc_wf (posts d) → run_call now c d = Ok (tt, d') → soc_wf (posts d').
Proof.
  intros Hwf H. destruct (decide (part_of c = PPost)) as [E|E].
  - destruct c; try discriminate E; cbn [run_call] in H; try (apply unit_of_Ok in H as [? H]).
    + apply post_message_Ok in H as (_ & _ & data & ->). by destruct Hwf.
    + apply ack_Ok in H as (_ & -> & _). by destruct Hwf.
    + apply charge_blob_Ok in H as [->|[t ->]]; [done|].
      unfold insert_blob_row. destruct Hwf, (has_blob _ _); by constructor.
    + by eapply react_wf.
    + by eapply publish_note_wf.
  - by rewrite (run_call_posts now c E d tt d' H).
Qed.

(** A card on the board stays there. *)
Lemma life_stays n s s' : nsteps life n s s' → is_Some s → is_Some s'.
Proof. induction 1 as [|n s s1 s2 Hl _ IH]; [done|]. intros _. apply IH. by destruct Hl. Qed.

Lemma run_call_team now c d d' :
  board_wf d → board_steps (most_steps c) d d' → team_wf d → run_call now c d = Ok (tt, d') →
  team_wf d' ∧ sprint_step d d'.
Proof.
  intros Hb Hst Hwf H. destruct (decide (part_of c = PTeam)) as [E|E].
  - destruct c; try discriminate E; cbn [run_call] in H.
    + by eapply create_sprint_ok.
    + by eapply add_to_sprint_ok.
    + by eapply start_sprint_ok.
    + by eapply close_sprint_ok.
    + by eapply set_status_ok.
    + by eapply clear_status_ok.
  - pose proof (run_call_same_team now c E d tt d' H) as Et.
    split; [|intros id; left; unfold sprint_at, find_sprint; by rewrite Et].
    apply (team_wf_frame d); [done| |exact (run_call_idents_stay now c d tt d' H)|done].
    intros cd Hc. destruct (Hst (c_id cd)) as (n & _ & Hl). apply life_stays in Hl as [st Hs].
    + unfold card_at in Hs. destruct (find_card (c_id cd) d') as [c'|] eqn:Ef; [|done].
      exists c'. by apply find_card_Some in Ef.
    + unfold card_at. rewrite find_card_elem by (done || apply Hb). destruct (bw_card _ Hb _ Hc) as (s & E' & _). by exists s.
Qed.

Lemma exec_inv now now' c d :
  store_inv now d → (now ≤ now')%Z → call_fits c d →
  let d' := (exec (now', c) d).2 in
  store_inv now' d' ∧ board_steps (most_steps c) d d' ∧ sprint_step d d'.
Proof.
  intros [Hi Hl Hb Hc Hp Hs Hw Ht Hti] Hn Hf. cbn zeta.
  destruct (exec_cases (now', c) d) as [(d' & H & ->)|(e & ->)]; cbn [snd].
  - destruct (run_call_board now' c d d' Hb H) as [? Hst], (run_call_channels now' c d d' Hf Hc H).
    destruct (run_call_team now' c d d' Hb Hst Ht H), (run_call_work now' c d d' Hf Hi Hw Hti H) as (? & ? & _).
    split; [|done].
    constructor; [by eapply run_call_ident_wf|by eapply run_call_leases_wf|done|done| | |done..].
    + by eapply run_call_post_wf.
    + by eapply run_call_soc_wf.
  - split; [|split; [by apply board_steps_same|by left]]. constructor; try done. by apply (leases_wf_later now).
Qed.

Lemma reachable_inv now d : reachable now d → store_inv now d.
Proof.
  induction 1 as [now|now now' c d _ IH Hn Hf]; [apply store_inv_init|]. by eapply exec_inv.
Qed.

(** ** Claims *)

(** C1: a signed operation is accepted once. A call that changes the store carries
    operations whose signatures verify for their actors, identities that are
    registered and not revoked, the daemon's own key exactly for the operations
    of the daemon; and after any further calls at clocks no more than five
    minutes past the later one's, no call that carries the same operation can
    commit: it fails and changes nothing. *)
Theorem no_replay now c op system d d' mid now' c' system' :
  (op, system) ∈ call_ops c → exec (now, c) d = (Ok tt, d') → d' ≠ d → (i64_min ≤ o_ts op)%Z →
  (op, system') ∈ call_ops c' → Forall (λ x, x.1 ≤ now' + MAX_SKEW_MS)%Z mid →
  verify (o_actor op) (signing_bytes op) (o_sig op) = Ok tt ∧
  (∃ i, i ∈ identities d ∧ i_pubkey i = o_actor op ∧ i_revoked i = false ∧ i_system i = system ∧
     (system = false → is_Some (role_parse (i_role i)))) ∧
  ∃ e, exec (now', c') (run mid d') = (Err e, run mid d').
Proof.
  intros Hop H Hne Hts Hop' Hmid.
  destruct (exec_cases (now, c) d) as [(d1 & Hr & E)|(e & E)]; rewrite E in H; simplify_eq.
  destruct (run_call_carried now c op system d d' Hop Hts Hr) as [Hclk0 Hsig Hi _ Hfiled].
  destruct Hfiled as [?|Hfiled]; [done|]. split_and!; [done..|].
  destruct (exec_cases (now', c') (run mid d')) as [(d2 & Hr2 & E2)|He]; [exfalso|done].
  destruct (run_call_carried now' c' op system' _ d2 Hop' Hts Hr2) as [Hclk _ _ Hfr _].
  rewrite nonce_seen_kept in Hfr; try done.
  apply run_keeps; [done|done|].
  eapply Forall_impl; [exact Hmid|]. cbn. intros x Hx. unfold MAX_SKEW_MS in *. lia.
Qed.

(** C2: every reachable state of the store is well formed. Keys are unique and
    32 bytes and roles parse; a system key is an observer, unless the first owner
    was set up with it, and then it is the only owner; at most one live system key
    is an observer; and once an agent is an owner some agent is an active owner;
    lease ids are
    unique, one quiet window is open at most, active path leases of different
    holders do not overlap and no holder has more than 64 active leases; card
    states parse and fit their owner column, a done card has evidence,
    approvals do not outlive the review they were for, dependencies join cards
    and have no cycle, and the events replay to the cards, but for a blocker
    card nobody moved yet; the members of an
    encrypted channel hold its current key and, unless a rotation is pending,
    nobody else does; messages, cursors, uploads, reactions and notes keep
    their keys and orders; one sprint is active at most and every status belongs to
    an identity; every task has the columns of its state, known prerequisites without
    a cycle, a known scope, and files no other held task overlaps; and every
    timer's schedule and template parse, with a schedule that is valid. *)
Theorem store_invariant now d : reachable now d → store_inv now d.
Proof. apply reachable_inv. Qed.

(** C3: the board refines the lifecycle of its cards. In a reachable state the
    events replay to exactly the states of the cards table (but for a blocker
    that the daemon opened and nobody has moved since, whose event says that it
    was created and not that it is blocked), each card got its state by steps of
    the lifecycle from not being there, and any call, by whomever and whenever,
    leaves every card as it was or moves it by one step; only the end of a job
    may take two. *)
Theorem board_refines now d :
  reachable now d →
  (∀ id, replay (events d) id = card_at id d ∨
     starts_with "blocker-" id = true ∧ replay (events d) id = Some Backlog ∧ card_at id d = Some Blocked) ∧
  (∀ id, rtc life None (card_at id d)) ∧
  (∀ now' c, (now ≤ now')%Z → call_fits c d → ∀ id, ∃ n, n ≤ most_steps c ∧
     nsteps life n (card_at id d) (card_at id (exec (now', c) d).2)).
Proof.
  intros H. pose proof (reachable_inv now d H) as Hinv.
  split_and!; [intros id; apply (bw_log _ (si_board _ _ Hinv))| |intros now' c Hn Hf; by apply (exec_inv now)].
  induction H as [now|now now' c d H IH Hn Hf]; intros id; [done|].
  pose proof (reachable_inv now d H) as Hd.
  destruct (exec_inv now now' c d Hd Hn Hf) as (_ & Hstep & _).
  etrans; [by apply IH|]. destruct (Hstep id) as (n & _ & Hl). by eapply rtc_nsteps_2.
Qed.

(** C10: leases exclude. In a reachable state two path leases of different
    holders that are both active are on canonical paths neither of which is or
    lies below the other; two open quiet windows are the same one; and a path
    that [path_holder] reports free overlaps no active path lease of anyone
    else. *)
Theorem leases_exclude now d :
  reachable now d →
  (∀ a b, a ∈ leases d → b ∈ leases d → l_kind a = "path" → l_kind b = "path" →
     active_at now a = true → active_at now b = true → l_holder a ≠ l_holder b →
     ∃ ws vs, Forall clean ws ∧ Forall clean vs ∧ l_resource a = path_of ws ∧
              l_resource b = path_of vs ∧ ¬ nested ws vs) ∧
  (∀ a b, a ∈ leases d → b ∈ leases d → open_quiet a = true → open_quiet b = true → a = b) ∧
  (∀ me path, path_holder now me path d = Ok (None, d) → ∀ l, l ∈ leases d →
     l_kind l = "path" → active_at now l = true → l_holder l ≠ me →
     overlap (l_resource l) path = false).
Proof.
  intros H. pose proof (si_leases _ _ (reachable_inv now d H)) as Hl. split_and!.
  - intros a b Ha Hb Ka Kb Aa Ab Hh.
    destruct (lw_canon _ _ Hl a Ha Ka) as (ws & Hws & Ea), (lw_canon _ _ Hl b Hb Kb) as (vs & Hvs & Eb).
    exists ws, vs. split_and!; try done. intros Hn%overlap_nested; try done.
    rewrite <- Ea, <- Eb in Hn. by rewrite (lw_path _ _ Hl a b) in Hn.
  - apply (lw_quiet _ _ Hl).
  - intros me path Hp l Hin K A Hh. apply path_holder_Ok in Hp as [_ Hf]. by apply (Hf eq_refl l).
Qed.
End Calls.

(** ** A concrete store *)

#[local] Existing Instances demo_prims demo_leases demo_policies demo_json demo_board demo_work demo_jobs
  demo_timers demo_reconcile demo_work_laws demo_jobs_laws demo_timers_laws.

(** An owner, two workers, a card that is claimed and two leases. *)
Definition demo_calls : list (Z * call) :=
  [(1000, BootstrapOwner (demo_key 1)); (1000, Register (demo_key 2) "b");
   (1000, Register (demo_key 3) "c");
   (1000, CreateCard (demo_op "card.create" "k1" "first" "n1" 2));
   (1000, MoveCard (demo_op "card.move" "k1" "ready" "n2" 1) false);
   (1000, MoveCard (demo_op "card.move" "k1" "claimed" "n3" 2) false);
   (1000, LeaseAcquire (demo_op "lease.acquire" "" "/p/q" "n4" 2));
   (1000, LeaseAcquire (demo_op "lease.acquire" "" "/p/qr" "n5" 3));
   (1000, LeaseAcquire (demo_op "lease.acquire" "" "/p/q/x" "n6" 3))]%Z.

Definition demo_db : db := run demo_calls empty_db.

Lemma demo_reachable : reachable 1000 demo_db.
Proof.
  unfold demo_db, run, demo_calls. cbn [foldl].
  repeat (apply (reach_step 1000 1000); [|lia|first [exact I|by vm_compute]]). apply reach_init.
Qed.

(** The worker's claim and lease went through; the lease below it did not. *)
Example demo_state :
  card_at "k1" demo_db = Some Claimed ∧ l_resource <$> leases demo_db = ["/p/q"; "/p/qr"] ∧
  e_kind <$> events demo_db = ["identity.owner"; "card.created"; "card.moved"; "card.moved";
    "lease.acquired"; "lease.acquired"].
Proof. by vm_compute. Qed.

(** Nothing keeps the first owner from being set up with the daemon's own key:
    the only owner then signs nothing, and nobody else becomes one. *)
Example system_key_owner :
  let d := run [(1000, RegisterSystem (demo_key 9)); (1000, BootstrapOwner (demo_key 9));
                (1000, BootstrapOwner (demo_key 1))]%Z empty_db in
  (λ i, (i_pubkey i, i_role i, i_system i, i_revoked i)) <$> identities d = [(demo_key 9, "owner", true, false)].
Proof. by vm_compute. Qed.

(** The same card creation twice, with a quiet window in between. *)
Definition demo_create : SignedOp := demo_op "card.create" "k9" "x" "r1" 2.
Definition demo_quiet : Z * call := (1200%Z, QuietOpen (demo_op "quiet.open" "" "" "r2" 1)).
Definition demo_after : db := run [demo_quiet] (exec (1000%Z, CreateCard demo_create) demo_db).2.

Lemma no_replay_witness :
  card_at "k9" demo_after = Some Backlog ∧
  ∃ e, exec (1500%Z, CreateCard demo_create) demo_after = (Err e, demo_after).
Proof.
  split; [by vm_compute|].
  apply (no_replay 1000 (CreateCard demo_create) demo_create false demo_db) with (system' := false);
    [by left| |by vm_compute|done|by left|].
  - destruct (exec_cases (1000%Z, CreateCard demo_create) demo_db) as [(d' & _ & ->)|(e & H)]; [done|].
    assert (is_ok (exec (1000%Z, CreateCard demo_create) demo_db).1 = true) as Hok by (by vm_compute).
    rewrite H in Hok. cbn [fst is_ok] in Hok. discriminate Hok.
  - constructor; [vm_compute; discriminate|constructor].
Defined.

Lemma store_invariant_witness : reachable 1000 demo_db ∧ store_inv 1000 demo_db.
Proof. split; [exact demo_reachable|]. apply store_invariant, demo_reachable. Defined.

Lemma board_refines_witness :
  replay (events demo_db) "k1" = Some Claimed ∧ rtc life None (card_at "k1" demo_db).
Proof.
  destruct (board_refines 1000 demo_db demo_reachable) as (H1 & H2 & _).
  split; [|apply H2]. destruct (H1 "k1") as [->|(Hb & _)]; [by vm_compute|discriminate Hb].
Defined.

Definition demo_lease (i : nat) : lease :=
  default (mk_lease "" "" "" f_zero "" None None 0 None 0 None None "") (leases demo_db !! i).

Lemma leases_exclude_witness :
  reachable 1000 demo_db ∧ l_holder (demo_lease 0) ≠ l_holder (demo_lease 1) ∧
  ∃ ws vs, l_resource (demo_lease 0) = path_of ws ∧ l_resource (demo_lease 1) = path_of vs ∧
    ¬ nested ws vs.
Proof.
  assert (l_holder (demo_lease 0) ≠ l_holder (demo_lease 1)) as Hh by (by vm_compute).
  assert (leases demo_db !! 0 = Some (demo_lease 0)) as H0 by (by vm_compute).
  assert (leases demo_db !! 1 = Some (demo_lease 1)) as H1 by (by vm_compute).
  split; [exact demo_reachable|]. split; [exact Hh|].
  destruct (proj1 (leases_exclude 1000 demo_db demo_reachable) (demo_lease 0) (demo_lease 1)
    (list_elem_of_lookup_2 _ _ _ H0) (list_elem_of_lookup_2 _ _ _ H1)
    ltac:(by vm_compute) ltac:(by vm_compute) ltac:(by vm_compute) ltac:(by vm_compute) Hh)
    as (ws & vs & _ & _ & E0 & E1 & Hn).
  exists ws, vs. exact (conj E0 (conj E1 Hn)).
Defined.
