(* ===== verification/Chat.v ===== *)
(** * Agora: what the chat of the store promises

    Who can read a message, that it reaches everyone it is for, and that a
    reader who acknowledges gets each message once; and who the daemon says is
    online; over every reachable state of the store. *)

From Stdlib Require Import Sorted.
From Stdlib Require Import Ascii.
From S2P Require Import Prelude F64 Strs Core PyFmt Task Graph Claims Settings Bytes Crypto.
From S2P Require Import Frame StoreDb Identity Leases Policy Board BoardLog WorkRow Jobs.
From S2P Require Import WorkJobs Timers Wire Channels ChanInv Messages MsgInv Social.
From S2P Require Import StoreReconcile DemoCodec Store Push.

Section Chat.
Context `{P : Prims} `{LC : LeaseCodec} `{PC : PolicyCodec} `{J : JsonText} `{BC : BoardCodec}.
Context `{WC : WorkCodec} {CL : WorkCodecLaws WC} `{JC : JobCodec} {JL : JobCodecLaws JC}.
Context `{TC : TimerCodec} {TL : TimerCodecLaws TC} `{RC : ReconcileCodec}.

(** ** Sequences of calls from a state *)

(** Clocks do not go back from [now] on, and each call fits the state it finds. *)
Fixpoint calls_fit (now : Z) (l : list (Z * call)) (d : db) : Prop :=
  match l with
  | [] => True
  | x :: l' => (now ≤ x.1)%Z ∧ call_fits x.2 d ∧ calls_fit x.1 l' (exec x d).2
  end.

Lemma run_ind (Q : db → Prop) now d l :
  reachable now d → calls_fit now l d → Q d →
  (∀ n n' c x, reachable n x → (n ≤ n')%Z → call_fits c x → Q x → Q (exec (n', c) x).2) →
  Q (run l d) ∧ ∃ n, reachable n (run l d).
Proof.
  intros Hr Hl HQ Hstep. revert now d Hr Hl HQ. induction l as [|[n c] l IH]; intros now d Hr Hl HQ; [eauto|].
  destruct Hl as (Hn & Hf & Hl). change (run ((n, c) :: l) d) with (run l (exec (n, c) d).2).
  apply (IH n); [by eapply reach_step|done|by eapply Hstep].
Qed.

(** ** Messages stay *)

(** A stored message reads the same ever after. *)
Definition keeps_message (x : message) (row : MessageRow) (d : db) : Prop :=
  x ∈ messages (posts d) ∧ stored_row d x = row.

Lemma run_call_keeps_message now c d d' x row :
  post_wf d → run_call now c d = Ok (tt, d') → keeps_message x row d → keeps_message x row d'.
Proof.
  intros Hwf H [Hx <-]. destruct (decide (part_of c = PPost)) as [E|E].
  2: { pose proof (run_call_posts now c E d tt d' H) as Ep. unfold same_posts in Ep.
       unfold keeps_message, stored_row, attachments_of. by rewrite Ep. }
  destruct c; try discriminate E; cbn [run_call] in H; try (apply unit_of_Ok in H as [? H]).
  - destruct (post_attachments _ _ _ _ _ Hwf H) as [_ Hold]. apply post_message_Ok in H as (Hp & _ & data & Ed).
    split; [rewrite Ed; cbn; rewrite elem_of_app; by left|]. unfold stored_row. rewrite Hold; [done|].
    by apply (po_new m d Hp).
  - by apply ack_Ok in H as (_ & -> & _).
  - apply charge_blob_Ok in H as [->|[t ->]]; [done|]. unfold insert_blob_row. by destruct (has_blob _ _).
  - apply react_Ok in H as [_ H]. by destruct H as [[_ [->|[data ->]]]|[_ [data ->]]].
  - by apply publish_note_Ok in H as (_ & _ & _ & data & ->).
Qed.

Lemma exec_keeps_message now now' c d x row :
  reachable now d → keeps_message x row d → keeps_message x row (exec (now', c) d).2.
Proof.
  intros Hr Hk. destruct (exec_cases (now', c) d) as [(d' & H & ->)|(e & ->)]; [|done].
  eapply run_call_keeps_message; [|exact H|done]. apply (reachable_inv now d Hr).
Qed.

Lemma exec_post_Ok now m d d' :
  exec (now, PostMessage m) d = (Ok tt, d') → ∃ seq, post_message now m d = Ok (seq, d').
Proof.
  destruct (exec_cases (now, PostMessage m) d) as [(d1 & H & E)|(e & E)]; rewrite E; intros [= ->].
  by apply unit_of_Ok in H.
Qed.

(** The row of a message that was just posted. *)
Lemma post_stored now m d seq d' :
  post_wf d → post_message now m d = Ok (seq, d') →
  keeps_message (msg_row m seq) (stored_row d' (msg_row m seq)) d' ∧
  to_signed (stored_row d' (msg_row m seq)) = m.
Proof.
  intros Hwf H. destruct (post_attachments _ _ _ _ _ Hwf H) as [Hnew _].
  apply post_message_Ok in H as (_ & _ & data & Ed).
  split; [split; [|done]|].
  - rewrite Ed. cbn. rewrite elem_of_app. right. by left.
  - unfold stored_row, to_signed. cbn. rewrite Hnew. by destruct m.
Qed.

(** A cursor is below a message that is posted after it moved. *)
Lemma post_unread now m d seq d' pk :
  post_wf d → post_message now m d = Ok (seq, d') → pk ≠ s_sender m →
  member_of d' (s_channel m) pk → msg_row m seq ∈ unread pk 0 d'.
Proof.
  intros Hwf H Hpk Hm. destruct (post_stored now m d seq d' Hwf H) as [[Hin _] _].
  apply post_message_Ok in H as (_ & Eseq & data & Ed).
  assert (∀ x, x ∈ messages (posts d) → (ms_seq x < seq)%Z) as Hlt. { intros x Hx%max_seq_le. lia. }
  assert (0 < seq)%Z as Hpos.
  { destruct (max_seq_elem (messages (posts d))) as [E|(y & Hy & E)]; [lia|]. pose proof (pw_pos d Hwf y Hy). lia. }
  apply elem_of_unread. split_and!; try done. cbn.
  assert (acked pk (s_channel m) d' = acked pk (s_channel m) d) as -> by (by rewrite Ed).
  destruct (acked_bound pk (s_channel m) d Hwf) as [->|(y & Hy & _ & Hle)]; [done|].
  specialize (Hlt y Hy). lia.
Qed.

(** ** Claims *)

(** C7: an encrypted message is for the members. When a message is accepted its
    signature is its sender's, the sender is a member, every member is registered
    and not revoked (but for a key that was the daemon's own and was replaced,
    which keeps its memberships), and in an encrypted channel the message is
    encrypted under the current epoch, whose key was given to exactly the members
    there are: not to anyone who left or was removed, and not to an agent that was
    revoked before. *)
Theorem posts_confidential now d now' m d' :
  reachable now d → exec (now', PostMessage m) d = (Ok tt, d') →
  verify_message m = Ok tt ∧ member_of d (s_channel m) (s_sender m) ∧
  (∀ pk, member_of d (s_channel m) pk →
     ∃ i, i ∈ identities d ∧ i_pubkey i = pk ∧ (i_revoked i = false ∨ i_system i = true)) ∧
  (encrypted d (s_channel m) ↔ s_encrypted m = true) ∧
  (s_encrypted m = true → ∀ pk,
     holds d (s_channel m) (s_epoch m) pk ↔ member_of d (s_channel m) pk) ∧
  (s_encrypted m = true → ∀ i, i ∈ identities d → i_revoked i = true → i_system i = false →
     ¬ holds d (s_channel m) (s_epoch m) (i_pubkey i)).
Proof.
  intros Hr H. destruct (reachable_inv now d Hr) as [Hid _ _ Hch _ _].
  apply exec_post_Ok in H as (seq & H). apply post_message_Ok in H as ([] & _).
  destruct po_epoch as (c & Hc & Eid & He).
  assert (s_encrypted m = true → ∀ pk, holds d (s_channel m) (s_epoch m) pk ↔ member_of d (s_channel m) pk) as Hiff.
  { intros Em. rewrite Em in He. destruct He as [He ->]. rewrite <- Eid in *.
    intros pk. split; [by apply (cw_only d Hch)|by apply (cw_hold d Hch)]. }
  split_and!; try done.
  - intros pk Hm. by apply (cw_member d Hch (s_channel m)).
  - rewrite <- Eid. destruct (s_encrypted m); [naive_solver|]. split; [naive_solver|done].
  - intros Em i Hi Hrev Hsys Hh%(Hiff Em). apply (cw_member d Hch) in Hh as [_ (j & Hj & Ej & Hst)].
    rewrite (key_inj i_pubkey _ j i (iw_keys _ Hid) Hj Hi Ej) in Hst. destruct Hst; congruence.
Qed.

(** C8: a message reaches every other member and stays. Right after it was
    accepted it is unread for everyone else in the channel; after any further
    calls it still reads back as the signed message that was posted, and for a
    member it is unread exactly as long as that member's cursor is below it. *)
Theorem message_delivered now d now' m d' l :
  reachable now d → (now ≤ now')%Z → exec (now', PostMessage m) d = (Ok tt, d') → calls_fit now' l d' →
  ∃ x, to_signed (stored_row (run l d') x) = m ∧ x ∈ messages (posts (run l d')) ∧
    (∀ pk, pk ≠ s_sender m → member_of d' (s_channel m) pk → x ∈ unread pk 0 d') ∧
    (∀ pk, pk ≠ s_sender m → member_of (run l d') (s_channel m) pk →
       (x ∈ unread pk 0 (run l d') ↔ (acked pk (s_channel m) (run l d') < ms_seq x)%Z)).
Proof.
  intros Hr Hn H Hl. pose proof (si_posts _ _ (reachable_inv now d Hr)) as Hwf.
  assert (reachable now' d') as Hr'.
  { replace d' with (exec (now', PostMessage m) d).2 by (by rewrite H). by eapply reach_step. }
  apply exec_post_Ok in H as (seq & H). destruct (post_stored now' m d seq d' Hwf H) as [Hk Hs].
  destruct (run_ind (keeps_message (msg_row m seq) (stored_row d' (msg_row m seq))) now' d' l Hr' Hl Hk)
    as ([Hin Hrow] & n & Hrn).
  { intros n n' c x Hx _ _ HQ. by eapply exec_keeps_message. }
  exists (msg_row m seq). rewrite Hrow. split_and!; [done|done| |].
  - intros pk Hpk Hm. by eapply post_unread.
  - intros pk Hpk Hm. rewrite elem_of_unread. split; [tauto|]. intros Ha. split_and!; try done.
    pose proof (si_posts _ _ (reachable_inv n _ Hrn)) as Hwf'. pose proof (pw_pos _ Hwf' _ Hin). lia.
Qed.

(** C9: a reader that reads pages of its inbox and acknowledges them gets every
    unread message exactly once, in the order of posting, each with a signature
    that verifies, after as many pages as there are messages at most; then its
    inbox is empty, and nothing but read cursors has changed. *)
Theorem inbox_drains now d reader role limit :
  reachable now d → active_role reader d = Ok (role, d) → (1 ≤ limit)%Z →
  let new := unread reader 0 d in
  ∃ d', drain (S (length new)) reader limit d = (stored_row d <$> new, d') ∧
    NoDup (ms_id <$> new) ∧ StronglySorted (λ a b, ms_seq a < ms_seq b)%Z new ∧
    Forall (λ m, verify_message (to_signed (stored_row d m)) = Ok tt) new ∧
    inbox reader limit d' = Ok ([], d') ∧ ∃ t, d' = set_cursors t d.
Proof.
  intros Hr Ha Hlim new. pose proof (si_posts _ _ (reachable_inv now d Hr)) as Hwf.
  destruct (drain_all (S (length new)) reader limit d role Hwf Ha Hlim) as (d' & E & Hnil & Hs); [subst new; lia|].
  assert (post_wf d') as Hwf' by (by eapply drain_wf).
  exists d'. split_and!; try done.
  - eapply sublist_NoDup; [apply (pw_ids d Hwf)|]. apply fmap_sublist.
    unfold new. rewrite unread_eq by done. apply sublist_filterb.
  - eapply StronglySorted_weaken; [|unfold new; rewrite unread_eq by done; apply StronglySorted_filter, by_seq_sorted, Hwf].
    intros a b. apply Z.compare_lt_iff.
  - apply Forall_forall. intros m [Hm _]%elem_of_unread. by apply (pw_sig d Hwf).
  - unfold inbox. rewrite (inbox_after_stored reader 0 limit d' role Hwf' (active_cursors _ _ _ _ Hs Ha)).
    by rewrite Hnil, take_nil.
Qed.
End Chat.

(** ** Who is online *)

Section Online.
Context `{P : Prims} `{LC : LeaseCodec} `{PC : PolicyCodec} `{J : JsonText} `{BC : BoardCodec}.
Context `{WC : WorkCodec} {CL : WorkCodecLaws WC} `{JC : JobCodec} {JL : JobCodecLaws JC}.
Context `{TC : TimerCodec} {TL : TimerCodecLaws TC} `{RC : ReconcileCodec}.

(** Who is online. An active identity that asks who is online gets exactly
    the identities with a live subscription that are itself or share a channel
    with it. *)
Theorem online_exact now d gs p me role :
  reachable now d → guarded gs p → active_role me d = Ok (role, d) →
  ∃ out, online_reply p me d = Ok (out, d) ∧ ∀ h, h ∈ out ↔ ∃ pk, h = hex pk ∧ pk ∈ gs ∧
    (pk = me ∨ ∃ id, member_of d id me ∧ member_of d id pk).
Proof.
  intros H Hg Hr. destruct (reachable_inv _ _ H) as [Hi _ _ Hc _ _ _ _ _]. eapply online_reply_spec; try done. apply Hi.
Qed.
End Online.

(** ** A concrete channel

    Two workers share an encrypted channel; the text of an argument is the
    digest of the keys that go with it. *)

#[local] Existing Instances demo_prims demo_leases demo_policies demo_board demo_work demo_jobs demo_work_laws
  demo_jobs_laws demo_timers demo_timers_laws demo_reconcile.

#[local] Instance chat_json : JsonText := {
  parse_json s := Some (VObject [("kind", VString "group"); ("keys", VString s);
    ("members", VArray [VObject [("pk", VString (hex (demo_key 3))); ("role", VString "member")]])]) }.

Definition chat_keys : list (string * string) :=
  [(demo_key 2, be_bytes 72 0); (demo_key 3, be_bytes 72 0)].

Definition chat_db : db :=
  run [(1000, BootstrapOwner (demo_key 1)); (1000, Register (demo_key 2) "b");
       (1000, Register (demo_key 3) "c");
       (1000, CreateChannel (demo_op "channel.create" "room" (keys_digest 0 chat_keys) "n1" 2) chat_keys)]%Z
    empty_db.

Definition chat_message : SignedMessage :=
  mk_message "m1" "room" None (demo_key 2) 1000 true 0 (be_bytes 40 0) [] (be_bytes 64 0).

Definition chat_after : db := (exec (1000%Z, PostMessage chat_message) chat_db).2.

Lemma chat_reachable : reachable 1000 chat_db.
Proof.
  unfold chat_db, run. cbn [foldl].
  repeat (apply (reach_step 1000 1000); [|lia|first [exact I|by vm_compute]]). apply reach_init.
Qed.

Lemma chat_posted : exec (1000%Z, PostMessage chat_message) chat_db = (Ok tt, chat_after).
Proof.
  unfold chat_after. destruct (exec_cases (1000%Z, PostMessage chat_message) chat_db) as [(d' & _ & ->)|(e & H)]; [done|].
  assert (is_ok (exec (1000%Z, PostMessage chat_message) chat_db).1 = true) as Hok by (by vm_compute).
  rewrite H in Hok. cbn [fst is_ok] in Hok. discriminate Hok.
Qed.

Lemma posts_confidential_witness :
  holds chat_db "room" 0 (demo_key 3) ∧ ¬ member_of chat_db "room" (demo_key 1) ∧
  ¬ holds chat_db "room" 0 (demo_key 1).
Proof.
  destruct (posts_confidential 1000 chat_db 1000 chat_message chat_after chat_reachable chat_posted)
    as (_ & _ & _ & _ & H & _).
  specialize (H eq_refl). cbn [s_channel s_epoch chat_message] in H.
  assert (¬ member_of chat_db "room" (demo_key 1)) as Hn by (apply is_member_false; by vm_compute).
  split; [|split; [exact Hn|by rewrite H]].
  apply H, is_member_true. by vm_compute.
Defined.

Lemma message_delivered_witness :
  ∃ x, to_signed (stored_row (run [(1000%Z, Ack (demo_key 3) "room" 1)] chat_after) x) = chat_message ∧
       x ∈ unread (demo_key 3) 0 chat_after.
Proof.
  destruct (message_delivered 1000 chat_db 1000 chat_message chat_after
    [(1000%Z, Ack (demo_key 3) "room" 1)] chat_reachable ltac:(lia) chat_posted)
    as (x & Hx & _ & Hu & _).
  { split; [cbn; lia|]. split; [exact I|exact I]. }
  exists x. split; [exact Hx|]. apply Hu; [by vm_compute|]. apply is_member_true. by vm_compute.
Defined.

Lemma inbox_drains_witness :
  length (unread (demo_key 3) 0 chat_after) = 1 ∧
  ∃ d', drain 2 (demo_key 3) 1 chat_after =
          (stored_row chat_after <$> unread (demo_key 3) 0 chat_after, d') ∧
        inbox (demo_key 3) 1 d' = Ok ([], d').
Proof.
  assert (length (unread (demo_key 3) 0 chat_after) = 1) as Hl by (by vm_compute).
  assert (active_role (demo_key 3) chat_after = Ok (Worker, chat_after)) as Ha by (by vm_compute).
  assert (reachable 1000 chat_after) as Hr.
  { apply (reach_step 1000 1000); [exact chat_reachable|lia|exact I]. }
  split; [exact Hl|].
  destruct (inbox_drains 1000 chat_after (demo_key 3) Worker 1 Hr Ha ltac:(lia))
    as (d' & E & _ & _ & _ & Hi & _).
  exists d'. rewrite Hl in E. exact (conj E Hi).
Defined.

(** ** A concrete channel *)

(** The two workers of the channel and the owner hold subscriptions; the owner
    is not in the channel. *)
Definition push_guards : list string := [demo_key 1; demo_key 2; demo_key 3].
Definition push_presence : Presence := enter (demo_key 1) (enter (demo_key 2) (enter (demo_key 3) ∅)).

Lemma push_guarded : guarded push_guards push_presence.
Proof. repeat (apply gd_enter; [|cbn; unfold usize_max, u64_max; lia]). apply gd_none. Qed.

Lemma online_exact_witness :
  ∃ out, online_reply push_presence (demo_key 2) chat_db = Ok (out, chat_db) ∧ hex (demo_key 3) ∈ out ∧
    ¬ hex (demo_key 1) ∈ out.
Proof.
  destruct (online_exact 1000 chat_db push_guards push_presence (demo_key 2) Worker chat_reachable push_guarded
    ltac:(by vm_compute)) as (out & E & Ho).
  exists out. split; [exact E|]. split.
  - apply Ho. exists (demo_key 3). split; [reflexivity|]. split; [apply list_elem_of_further, list_elem_of_further, list_elem_of_here|]. right. exists "room".
    split; apply is_member_true; by vm_compute.
  - intros (pk & Hh%hex_inj & _ & [->|(id & _ & Hm)])%Ho; [by vm_compute in Hh|]. subst pk.
    destruct Hm as (m & Hin & _ & Hk).
    assert (existsb (λ m, String.eqb (m_pubkey m) (demo_key 1)) (members chat_db) = false) as Hno by (by vm_compute).
    assert (existsb (λ m, String.eqb (m_pubkey m) (demo_key 1)) (members chat_db) = true) as Hyes.
    { apply existsb_elem. exists m. split; [exact Hin|]. by apply String.eqb_eq. }
    congruence.
Defined.

Definition push_fw : Forwarder :=
  match subscribe (demo_key 3) [] chat_db with
  | Ok (_, fw) => fw
  | Err _ => mk_forwarder (mk_filter "" None ∅) 0 (mk_outq [] [] false) true
  end.

(** The bus loses two events, then a message is posted and the writer takes
    what is queued. *)
Definition push_turns : list turn := [TLagged 2 chat_db; TRecv (MessageAppended "room" 1) chat_after; TTake].

Lemma push_subscribed : subscribe (demo_key 3) [] chat_db = Ok (["room"], push_fw).
Proof. by vm_compute. Qed.

Lemma push_accounts_for_all_witness :
  oq_sent (fw_out (run_turns push_fw push_turns)) = [Lagged 2; MessageAppended "room" 1] ∧
  ∃ l1 l2, owed push_fw push_turns = l1 ++ Wanted (MessageAppended "room" 1) :: l2 ∧ weight l1 = 2%Z.
Proof.
  assert (oq_sent (fw_out (run_turns push_fw push_turns)) = [Lagged 2; MessageAppended "room" 1]) as Hs by (by vm_compute).
  split; [exact Hs|].
  destruct (push_accounts_for_all (demo_key 3) [] chat_db ["room"] push_fw push_turns push_subscribed) as [H _].
  - repeat constructor; cbn; lia.
  - by vm_compute.
  - exact (H [Lagged 2] (MessageAppended "room" 1) [] Hs eq_refl).
Defined.

Lemma push_members_only_witness :
  MessageAppended "room" 1 ∈ oq_sent (fw_out (run_turns push_fw push_turns)) ∧
  ∃ ts1 d1 ts2, push_turns = ts1 ++ TRecv (MessageAppended "room" 1) d1 :: ts2 ∧
    active_member (last_read (demo_key 3) chat_db ts1) "room" (demo_key 3).
Proof.
  assert (MessageAppended "room" 1 ∈ oq_sent (fw_out (run_turns push_fw push_turns))) as Hin.
  { replace (oq_sent (fw_out (run_turns push_fw push_turns))) with [Lagged 2; MessageAppended "room" 1] by (by vm_compute).
    apply list_elem_of_further, list_elem_of_here. }
  split; [exact Hin|].
  destruct (push_members_only (demo_key 3) [] chat_db ["room"] push_fw push_turns "room" 1 push_subscribed Hin)
    as (ts1 & d1 & ts2 & E & Hm & _).
  exists ts1, d1, ts2. exact (conj E Hm).
Defined.
