(* ===== verification/WorkStore.v ===== *)
(** * Agora: what the work queue of the store promises

    Over every reachable state of the store: tasks follow their lifecycle, a
    job runs only a command its claimant accepted, held files are apart, the
    next task is the first claimable one, and the reads that plan agree with
    what the operations see. *)

From Stdlib Require Import Ascii.
From stdpp Require Import relations.
From S2P Require Import Prelude F64 Strs PyFmt Bytes Core Crypto Task Graph Order Claims Settings.
From S2P Require Import Predict Signature StoreDb Identity Leases Policy Board BoardLog WorkRow Work Jobs WorkQuery.
From S2P Require Import WorkInv WorkSteps WorkNext WorkJobs Timer Timers TimerInv Reconcile StoreReconcile DemoCodec Store.

Section WorkStore.
Context `{P : Prims} `{LC : LeaseCodec} `{PC : PolicyCodec} `{J : JsonText} `{BC : BoardCodec}.
Context `{WC : WorkCodec} {CL : WorkCodecLaws WC} `{JC : JobCodec} {JL : JobCodecLaws JC}.
Context `{TC : TimerCodec} {TL : TimerCodecLaws TC} `{RC : ReconcileCodec}.

Lemma reachable_work now d : reachable now d → work_wf (work d).
Proof. intros H. apply (reachable_inv now d H). Qed.

(** A step by anyone. *)
Definition wstep_any (v v' : option tview) : Prop := ∃ by', wlife by' v v'.

Lemma exec_work now' c d :
  ident_wf (identities d) → work_wf (work d) → timers_wf (work d) → call_fits c d →
  (∀ id, view_at id (exec (now', c) d).2 = view_at id d) ∨
  ∃ by', takes_steps by' c d ∧ work_step by' d (exec (now', c) d).2.
Proof.
  intros Hi Hwf Ht Hf. destruct (exec_cases (now', c) d) as [(d' & H & ->)|(e & ->)]; [right|by left].
  by apply run_call_work in H as (_ & _ & H).
Qed.

(** C4: the work queue refines the lifecycle of its tasks. In a reachable state
    every task got where it is by steps of the lifecycle from not being there;
    and a call leaves every task as it was, or each task takes one step at most
    that the caller may take: the identity that signed it with the role it has,
    or the daemon. *)
Theorem work_refines now d :
  reachable now d →
  (∀ id, rtc wstep_any None (view_at id d)) ∧
  (∀ now' c, (now ≤ now')%Z → call_fits c d →
     (∀ id, view_at id (exec (now', c) d).2 = view_at id d) ∨
     ∃ by', takes_steps by' c d ∧ ∀ id,
       view_at id (exec (now', c) d).2 = view_at id d ∨
       wlife by' (view_at id d) (view_at id (exec (now', c) d).2)).
Proof.
  intros H. split; [|intros now' c _ Hf; destruct (reachable_inv _ _ H); by apply exec_work].
  induction H as [now|now now' c d H IH Hn Hf]; intros id; [done|]. etrans; [by apply IH|].
  destruct (reachable_inv _ _ H) as [Hi _ _ _ _ _ Hw _ Ht], (exec_work now' c d Hi Hw Ht Hf) as [->|(by' & _ & Hst)]; [done|].
  destruct (Hst id) as [->|Hl]; [done|]. apply rtc_once. by exists by'.
Qed.

(** C5: a job runs only a command that its claimant accepted. Whatever was done
    to the store, a task that ever started has a command, and the agent that
    holds it is the one that accepted it. *)
Theorem jobs_run_accepted now d t :
  reachable now d → t ∈ work_tasks (work d) → is_Some (rn_started (w_run t)) →
  ∃ a, cl_agent (w_claim t) = Some a ∧ cl_accepted (w_claim t) = Some a ∧ is_Some (sp_command (w_spec t)).
Proof.
  intros Hr Ht Hs. destruct (tw_state _ (ww_task _ (reachable_work _ _ Hr) t Ht)) as (s & _ & Hc).
  assert (is_Some (cl_agent (w_claim t)) ∧ cl_accepted (w_claim t) = cl_agent (w_claim t) ∧
    is_Some (sp_command (w_spec t))) as ([a Ha] & Hacc & Hcmd).
  { destruct s; cbn in Hc; try (by apply Hc); [..|naive_solver].
    - destruct Hc as (_ & E & _). rewrite E in Hs. by destruct Hs.
    - destruct Hc as (_ & _ & _ & _ & E & _). rewrite E in Hs. by destruct Hs. }
  exists a. rewrite Hacc. done.
Qed.

(** C6: tasks that are claimed or running hold their files apart. Their paths
    are canonical, and no path of one is or lies below a path of another. *)
Theorem held_files_apart now d t u :
  reachable now d → t ∈ work_tasks (work d) → u ∈ work_tasks (work d) → w_id t ≠ w_id u →
  holds_files t → holds_files u →
  ∃ ts us, files_of t = path_of <$> ts ∧ files_of u = path_of <$> us ∧
    Forall (Forall clean) ts ∧ Forall (Forall clean) us ∧
    ∀ x y, x ∈ ts → y ∈ us → ¬ nested x y.
Proof.
  intros Hr Ht Hu Hne Hht Hhu. pose proof (reachable_work _ _ Hr) as Hwf.
  destruct (tw_files _ (ww_task _ Hwf t Ht)) as (ts & Et & Hts), (tw_files _ (ww_task _ Hwf u Hu)) as (us & Eu & Hus).
  assert (files_of t = path_of <$> ts) as Ft by (apply files_of_parse; rewrite Et; apply list_json_parse).
  assert (files_of u = path_of <$> us) as Fu by (apply files_of_parse; rewrite Eu; apply list_json_parse).
  exists ts, us. split_and!; try done. intros x y Hx Hy Hn. rewrite Forall_forall in Hts, Hus.
  apply overlap_nested in Hn; auto.
  assert (apart (files_of t) (files_of u)) as Hap by (by apply (ww_apart _ Hwf)).
  rewrite Ft, Fu in Hap. rewrite (Hap (path_of x) (path_of y)) in Hn; [done|by apply list_elem_of_fmap_2..].
Qed.

(** C13: asking for the next task never fails, and takes the right one. In a
    reachable state the queue of a scope can always be ordered; the task that
    is claimed is the first of the policy's order whose prerequisites are done
    and whose files nobody else holds; and none is claimed, and nothing
    changes, only when no queued task of the scope is claimable. *)
Theorem next_takes_first now d now' actor scope policy :
  reachable now d →
  ∃ r d', next_in now' actor scope policy d = Ok (r, d') ∧ next_result now' actor scope policy d r d'.
Proof.
  intros Hr. destruct (next_in_total now' actor Observer scope policy d (reachable_work _ _ Hr))
    as (r & d' & Hn & _ & Hres). eauto.
Qed.

Lemma settings_in_nonce now op d s d' : settings_in (with_nonce now op d) = Ok (s, d') → settings_in d = Ok (s, d).
Proof.
  unfold settings_in, mbind, tx_bind, query. change (work_settings (with_nonce now op d)) with (work_settings d).
  destruct (work_settings d) as [json|]; [|by intros [-> _]%mret_Ok]. unfold lift.
  destruct (ok_or _ _) as [x|]; [|done]. by intros [-> _]%mret_Ok.
Qed.

(** C11: a command is accepted by its digest. An acceptance that commits names a
    task that its signer has claimed and not yet asked to run, carries the
    digest of that task's command in its directory over its files, and comes
    from another identity than the author's unless the settings allow it; and
    the task is then accepted by the signer. *)
Theorem accept_by_digest now op d r d' :
  work_accept now op d = Ok (r, d') → ∃ row argv files s given,
  find_task (o_subject op) d = Some row ∧ sp_command (w_spec row) ≫= parse_files = Some argv ∧
  parse_files (w_files row) = Some files ∧ parse_accept_args (o_arg op) = Some given ∧
  w_state row = "claimed" ∧ cl_agent (w_claim row) = Some (actor_hex op) ∧ cl_requested (w_claim row) = None ∧
  settings_in d = Ok (s, d) ∧ (sp_author (w_spec row) = actor_hex op → self_accept s = true) ∧
  to_ascii_lowercase (trim given) = digest sha256 digest_json argv (default "" (sp_cwd (w_spec row))) files ∧
  ∃ row', find_task (o_subject op) d' = Some row' ∧ cl_accepted (w_claim row') = Some (actor_hex op) ∧
    w_spec row' = w_spec row.
Proof.
  intros H. unfold work_accept in H. do 3 wstep H. apply tx_bind_Ok in H as (s & d1 & Hset & H).
  pose proof (settings_in_Ok _ _ _ Hset) as ->. apply settings_in_nonce in Hset. do 8 wstep H. apply tx_bind_Ok in H as (v & d1 & Hacc & H). wstep H.
  guards. rewrite find_task_nonce in Hfind. unfold ok_or in Hl, Hl0.
  destruct (parse_accept_args (o_arg op)) as [given|]; [|done]. injection Hl as <-.
  destruct (digest_of t) as [sealed|] eqn:Ed; [|done]. injection Hl0 as <-. unfold digest_of in Ed.
  destruct (tr_command t) as [argv|] eqn:Ec; [|done]. injection Ed as Ed.
  pose proof (rd_command _ _ Hread) as Hc. unfold is_claimed, is_requested, tr_requested in *. guards.
  exists (tr_row t), argv, (tr_files t), s, given.
  pose proof (rd_state _ _ Hread) as Hst. rewrite H0 in Hst. apply TaskState_parse_Some in Hst.
  split_and!; try done.
  - destruct (sp_command (w_spec (tr_row t))) as [raw|]; [|congruence]. cbn. destruct Hc as [-> _]. done.
  - apply Hread.
  - by apply eq_None_not_Some.
  - intros Ea. rewrite bool_decide_true in Hg1 by exact Ea. by apply negb_false_iff in Hg1.
  - by rewrite Hg2, <- Ed.
  - case_bool_decide as Hb; cbn [negb] in Hacc.
    + apply mret_Ok in Hacc as [_ ->]. by exists (tr_row t).
    + repeat wstep Hacc. exists (with_accepted (actor_hex op) (tr_row t)). split_and!; try done.
      pose proof (find_task_update (o_subject op) (with_accepted (actor_hex op)) d (o_subject op) ltac:(done)) as E.
      rewrite decide_True, Hfind in E by done. exact E.
Qed.

(** ** Reads *)

(** The two ways to leave out tasks without files: in the query, and after it. *)
Lemma held_rows ts :
  (∀ t, t ∈ ts → ∃ l, w_files t = list_json l) →
  ∃ ys zs,
    try_map (λ t, files ← stored_list (w_files t); Ok (w_id t, files))
      (filter (λ t, (w_state t = "claimed" ∨ w_state t = "running") ∧ w_files t ≠ "[]") ts) = Ok ys ∧
    try_map (λ t, files ← string_list (w_files t); Ok (w_id t, files))
      (List.filter (λ t, String.eqb (w_state t) "claimed" || String.eqb (w_state t) "running") ts) = Ok zs ∧
    List.filter (λ h, negb (bool_decide (snd h = []))) zs = ys.
Proof.
  induction ts as [|t ts IH]; intros Hts; [by exists [], []|].
  destruct IH as (ys & zs & Hys & Hzs & E); [intros; apply Hts; by right|].
  destruct (Hts t) as [l Hl]; [by left|]. cbn [List.filter]. rewrite filter_cons.
  destruct (String.eqb (w_state t) "claimed" || String.eqb (w_state t) "running") eqn:Es.
  - assert (w_state t = "claimed" ∨ w_state t = "running") as Hs.
    { apply orb_true_iff in Es as [Es|Es]; apply String.eqb_eq in Es; auto. }
    assert (string_list (w_files t) = Ok l) as Hp by (unfold string_list; by rewrite Hl, list_json_parse).
    assert (stored_list (w_files t) = Ok l) as Hp' by (unfold stored_list; by rewrite Hl, list_json_parse).
    case_decide as Hd.
    + exists ((w_id t, l) :: ys), ((w_id t, l) :: zs). cbn. rewrite Hp, Hp'. cbn. rewrite Hys, Hzs. cbn.
      split_and!; try done. rewrite bool_decide_false; [by rewrite E|]. intros ->.
      destruct Hd as [_ Hd]. by rewrite Hl, list_json_nil in Hd.
    + exists ys, ((w_id t, l) :: zs). cbn. rewrite Hp. cbn. rewrite Hzs. cbn. split_and!; try done.
      assert (l = []) as ->; [|done].
      assert (w_files t = "[]") as Hn by (destruct (decide (w_files t = "[]")); [done|by destruct Hd]).
      pose proof (list_json_parse l) as H1. pose proof (list_json_parse []) as H2.
      rewrite list_json_nil, <- Hn, Hl, H1 in H2. by injection H2.
  - rewrite decide_False; [by exists ys, zs|]. intros [[E'|E'] _]; rewrite E' in Es; done.
Qed.

Lemma ran_runs_of keep n d :
  work_wf (work d) → ran_runs keep n d = Ok (run_of <$> ran_rows keep n d).
Proof.
  intros Hwf. unfold ran_runs.
  assert (∀ r, r ∈ ran_rows keep n d → ∀ k, jh_rss_peak r = Some k → (0 ≤ k)%Z) as Hp.
  { intros r Hr k. apply (ww_peaks _ Hwf). apply elem_of_take in Hr as (i & Hi & _).
    apply list_elem_of_lookup_2, elem_of_sort_by, list_elem_of_In, filter_In in Hi as [Hr _].
    by apply list_elem_of_In. }
  induction (ran_rows keep n d) as [|r l IH]; [done|]. cbn [try_map].
  assert (from_option (λ k, 0 <=? k)%Z true (jh_rss_peak r) = true) as Hk.
  { destruct (jh_rss_peak r) as [k|] eqn:E; [|done]. cbn. apply Z.leb_le. apply (Hp r); [by left|done]. }
  rewrite Hk. cbn. rewrite IH by (intros; eapply Hp; [by right|done]). cbn. do 3 f_equal.
  unfold run_of. f_equal. destruct (jh_rss_peak r) as [k|]; [|done]. cbn in Hk. by rewrite Hk.
Qed.

(** What a plan reads is what an operation sees. In a reachable state the
    holders of files that [work_holders] reports, for anyone, are those the file
    check of a claim reads in its transaction, and the history [work_history]
    reports for a command is the one a request predicts from; neither fails. *)
Theorem work_reads_agree now d :
  reachable now d →
  (∀ now' exclude, ∃ hs, holders_in now' exclude d = Ok (hs, d) ∧ work_holders now' exclude d = Ok hs) ∧
  (∀ s cpus, work_history s cpus d = Ok (history_in s cpus d)).
Proof.
  intros Hr. pose proof (reachable_work _ _ Hr) as Hwf. split.
  - intros now' ex. destruct (held_rows (work_tasks (work d))) as (ys & zs & Hys & Hzs & E).
    { intros t Ht. destruct (tw_files _ (ww_task _ Hwf t Ht)) as (wss & Ef & _). eauto. }
    exists (ys ++ ((λ l, ("lease:" +:+ l_id l, [l_resource l])) <$> foreign_leases now' ex d)). split.
    + unfold holders_in, held_tasks, mbind, tx_bind, query, lift. by setoid_rewrite Hys.
    + unfold work_holders. setoid_rewrite Hzs. cbn. by setoid_rewrite E.
  - intros s cpus. unfold work_history. rewrite !ran_runs_of by done. cbn. unfold history_in. do 2 f_equal.
    rewrite <- list_fmap_compose. done.
Qed.
(** The role of a timer's owner, if it may still work. *)
Definition timer_owner_role (t : timer_row) (d : db) : option Role :=
  unhex32 (tm_owner t) ≫= λ pk, owner_role pk d.

(** C17: a due timer fires once. In a reachable state the daemon's signed
    [timer.fire] for a timer that is due commits. When the timer's owner is an
    active worker or more, it adds exactly one task to the queue: a new queued
    one that the owner is the author of and that names the timer as its origin,
    with the template's title, files and command and prerequisites that exist.
    When the owner may not work any more no task is added. No other timer
    changes, the timer is no longer due, and so further fires of it at the same
    time change nothing in the queue. *)
Theorem due_timer_fires now0 now d real op ms t d1 :
  reachable now0 d → (i64_min ≤ now ≤ i64_max)%Z →
  authorize_system now op "timer.fire" d = Ok (tt, d1) → parse_fire_args (o_arg op) = Some ms →
  find_timer (o_subject op) d = Some t → row_due now t = true → (tm_fired t ≤ u32_max)%Z →
  (Z.of_nat (length (work_tasks (work d))) < u64_max)%Z →
  ∃ d', exec (now, TimerFire real op) d = (Ok tt, d') ∧
    match timer_owner_role t d with
    | None => work_tasks (work d') = work_tasks (work d)
    | Some _ => ∃ template task, parse_template (tm_template t) = Some template ∧
        work_tasks (work d') = work_tasks (work d) ++ [task] ∧ task_of_timer now t template d task
    end ∧
    (∀ id, id ≠ tm_id t → find_timer id d' = find_timer id d) ∧
    (∃ t', find_timer (tm_id t) d' = Some t' ∧ row_due now t' = false) ∧
    ∀ real' op' d'', o_subject op' = tm_id t → exec (now, TimerFire real' op') d' = (Ok tt, d'') → work d'' = work d'.
Proof.
  intros Hr Hnow Hau Hms Hf Hdue Hfd Hl. pose proof (si_timers _ _ (reachable_inv _ _ Hr)) as Htw.
  destruct (timer_fire_due now real op ms t d d1 Htw Hau Hms Hf Hdue Hfd Hl) as (r & d' & spec & template & H & _ & Htp & Hv & Hfi).
  pose proof Hau as [_ ->]%authorize_system_record. pose proof (find_timer_Some _ _ _ Hf) as [_ Hid].
  destruct (fires_settled now ms t spec template (with_nonce now op d) d') as [(t' & Ht' & Hnd) Hoth]; try done.
  { by rewrite Hid. }
  { by eapply fire_args_fit. }
  exists d'. split_and!; [|..|done|by exists t'|].
  - unfold exec, transact. cbn [run_call fst snd]. unfold unit_of, mbind, tx_bind. by rewrite H.
  - unfold timer_owner_role. unfold fires in Hfi. change (owner_role ?pk (with_nonce _ _ d)) with (owner_role pk d) in Hfi.
    destruct (_ ≫= _) as [role|]; [|by rewrite Hfi].
    destruct Hfi as (mk & _ & _ & _ & Htask & E). exists template, (mk (work_seq (work d) + 1)%Z).
    split_and!; [done|by rewrite E|done].
  - intros real' op' d'' Hs Hx. destruct (exec_cases (now, TimerFire real' op') d') as [(d2 & H2 & E)|(e & E)];
      rewrite E in Hx; [|done]. injection Hx as <-. apply unit_of_Ok in H2 as [r2 H2].
    eapply timer_fire_idle in H2 as [_ ?]; [done|by rewrite Hs|done].
Qed.
End WorkStore.

(** ** A concrete queue *)

#[local] Existing Instances demo_prims demo_leases demo_policies demo_json demo_board demo_work demo_jobs
  demo_work_laws demo_jobs_laws demo_timers demo_timers_laws demo_reconcile.

(** Every directory is real and empty. *)
Definition demo_host : Host := mk_host (λ s, Some (Some s)) (mk_probe (λ _, false) (λ _, false) (λ _ _, None)) None.

(** The owner queues two jobs; one worker takes the first, accepts its command
    and asks for it; another claims the second; the daemon starts the first. *)
Definition queue_calls : list (Z * call) :=
  [(1000, BootstrapOwner (demo_key 1)); (1000, Register (demo_key 2) "b"); (1000, Register (demo_key 3) "c");
   (1000, RegisterSystem (demo_key 9));
   (1000, WorkAdd demo_host (demo_op "work.add" "" "a" "w1" 1));
   (1000, WorkAdd demo_host (demo_op "work.add" "" "b" "w2" 1));
   (1000, WorkNext (demo_op "work.next" "" "" "w3" 2));
   (1000, WorkAccept (demo_op "work.accept" "a" "" "w4" 2));
   (1000, WorkRun demo_host (demo_op "work.run" "" "a" "w5" 2) (f_of_Z 4) "/logs");
   (1000, JobStart (demo_op "job.start" "a" "" "w6" 9));
   (1000, WorkClaim (demo_op "work.claim" "b" "" "w7" 3))]%Z.

Definition queue_db : db := run queue_calls empty_db.

Lemma queue_reachable : reachable 1000 queue_db.
Proof.
  unfold queue_db, run, queue_calls. cbn [foldl].
  repeat (apply (reach_step 1000 1000); [|lia|first [exact I|by vm_compute]]). apply reach_init.
Qed.

Example queue_state :
  (λ t, (w_id t, w_state t)) <$> work_tasks (work queue_db) = [("a", "running"); ("b", "claimed")] ∧
  e_kind <$> events queue_db = ["identity.owner"; "identity.system"; "work.added"; "work.added"; "work.claimed";
    "work.accepted"; "work.requested"; "job.started"; "work.claimed"].
Proof. split; by vm_compute. Qed.

Definition queue_task (i : nat) : work_task := default (new_task 0 "" "" default_add None [] [] f_zero f_zero None false None 0)
  (work_tasks (work queue_db) !! i).

Lemma queue_task_in i : i < 2 → queue_task i ∈ work_tasks (work queue_db).
Proof.
  intros Hi. apply list_elem_of_lookup. exists i. unfold queue_task.
  assert (is_Some (work_tasks (work queue_db) !! i)) as [t Ht].
  { apply lookup_lt_is_Some. replace (length (work_tasks (work queue_db))) with 2 by (by vm_compute). done. }
  by rewrite Ht.
Qed.

Lemma work_refines_witness :
  v_state <$> view_at "a" queue_db = Some TRunning ∧ rtc wstep_any None (view_at "a" queue_db).
Proof. split; [by vm_compute|]. apply (work_refines 1000 queue_db queue_reachable). Defined.

Lemma jobs_run_accepted_witness :
  ∃ a, cl_agent (w_claim (queue_task 0)) = Some a ∧ cl_accepted (w_claim (queue_task 0)) = Some a.
Proof.
  destruct (jobs_run_accepted 1000 queue_db (queue_task 0) queue_reachable (queue_task_in 0 ltac:(lia))
    ltac:(vm_compute; by eexists)) as (a & Ha & Hc & _).
  exists a. split; [exact Ha|exact Hc].
Defined.

Lemma held_files_apart_witness :
  ∃ ts us, files_of (queue_task 0) = path_of <$> ts ∧ files_of (queue_task 1) = path_of <$> us ∧
    ∀ x y, x ∈ ts → y ∈ us → ¬ nested x y.
Proof.
  destruct (held_files_apart 1000 queue_db (queue_task 0) (queue_task 1) queue_reachable
    (queue_task_in 0 ltac:(lia)) (queue_task_in 1 ltac:(lia)) ltac:(by vm_compute)
    ltac:(right; by vm_compute) ltac:(left; by vm_compute)) as (ts & us & Ht & Hu & _ & _ & Hn).
  exists ts, us. split; [exact Ht|]. split; [exact Hu|exact Hn].
Defined.

(** The state before the first task is taken, and the one after. *)
Definition before_next : db := run (firstn 6 queue_calls) empty_db.
Definition after_next : db := run (firstn 7 queue_calls) empty_db.

Lemma before_next_reachable : reachable 1000 before_next.
Proof.
  unfold before_next, run, queue_calls. cbn [foldl firstn].
  repeat (apply (reach_step 1000 1000); [|lia|first [exact I|by vm_compute]]). apply reach_init.
Qed.

Lemma next_takes_first_witness :
  ∃ r d', next_in 1000 (hex (demo_key 2)) None Fifo before_next = Ok (r, d') ∧
    next_result 1000 (hex (demo_key 2)) None Fifo before_next r d'.
Proof. apply (next_takes_first 1000 before_next 1000 _ None Fifo before_next_reachable). Defined.

Example next_claims_a :
  match next_in 1000 (hex (demo_key 2)) None Fifo before_next with
  | Ok (r, _) => tr_id <$> no_claimed r
  | Err _ => None
  end = Some "a".
Proof. by vm_compute. Qed.

Lemma accept_by_digest_witness :
  ∃ row argv, find_task "a" after_next = Some row ∧ sp_command (w_spec row) ≫= parse_files = Some argv.
Proof.
  destruct (work_accept 1000 (demo_op "work.accept" "a" "" "w4" 2) after_next) as [[r d']|e] eqn:E.
  - destruct (accept_by_digest 1000 (demo_op "work.accept" "a" "" "w4" 2) after_next r d' E)
      as (row & argv & _ & _ & _ & Hf & Ha & _). exists row, argv. split; [exact Hf|exact Ha].
  - exfalso. assert (is_ok (work_accept 1000 (demo_op "work.accept" "a" "" "w4" 2) after_next) = true) as Hok
      by (by vm_compute). rewrite E in Hok. discriminate Hok.
Defined.

Lemma work_reads_agree_witness :
  ∃ hs, work_holders 1000 None queue_db = Ok hs ∧ holders_in 1000 None queue_db = Ok (hs, queue_db).
Proof.
  destruct (proj1 (work_reads_agree 1000 queue_db queue_reachable) 1000%Z None) as (hs & H1 & H2).
  exists hs. split; [exact H2|exact H1].
Defined.

(** A timer of the worker's that is due. *)
Definition timer_calls : list (Z * call) :=
  [(1000, BootstrapOwner (demo_key 1)); (1000, Register (demo_key 2) "b"); (1000, RegisterSystem (demo_key 9));
   (1000, TimerCreate (demo_op "timer.create" "" "tick" "t1" 2))]%Z.

Definition timer_db : db := run timer_calls empty_db.

Lemma timer_reachable : reachable 1000 timer_db.
Proof.
  unfold timer_db, run, timer_calls. cbn [foldl].
  repeat (apply (reach_step 1000 1000); [|lia|first [exact I|by vm_compute]]). apply reach_init.
Qed.

Definition tick_timer : timer_row :=
  default (mk_timer_row "" "" "" "" false None None 0 0) (find_timer "tick" timer_db).

Definition tick_fire : SignedOp := demo_op "timer.fire" "tick" "" "t2" 9.

Lemma due_timer_fires_witness :
  row_due 1000 tick_timer = true ∧
  ∃ d' task, exec (1000%Z, TimerFire (λ _, None) tick_fire) timer_db = (Ok tt, d') ∧
    work_tasks (work d') = work_tasks (work timer_db) ++ [task] ∧ sp_author (w_spec task) = hex (demo_key 2).
Proof.
  split; [by vm_compute|].
  destruct (due_timer_fires 1000 1000 timer_db (λ _, None) tick_fire 900 tick_timer (with_nonce 1000 tick_fire timer_db)
    timer_reachable ltac:(unfold i64_min, i64_max; lia) ltac:(by vm_compute) eq_refl ltac:(by vm_compute)
    ltac:(by vm_compute) ltac:(by vm_compute) ltac:(by vm_compute)) as (d' & Hx & Hm & _).
  assert (timer_owner_role tick_timer timer_db = Some Worker) as E by (by vm_compute). rewrite E in Hm.
  destruct Hm as (template & task & _ & Ht & Hauth). exists d', task.
  split; [exact Hx|]. split; [exact Ht|]. destruct Hauth as (_ & _ & _ & -> & _). by vm_compute.
Defined.
