(* ===== verification/TeamStore.v ===== *)
(** * Agora: what sprints and statuses promise

    Over every reachable state of the store: sprints follow their lifecycle, one
    is active at most, and a status is read by its owner and the peers of its
    channels only. *)

From Stdlib Require Import Ascii.
From stdpp Require Import relations.
From S2P Require Import Prelude F64 Strs PyFmt Bytes Core Crypto Task Graph Claims Settings StoreDb.
From S2P Require Import Identity Leases Policy Board BoardLog Channels Team WorkRow Jobs WorkJobs Timers StoreReconcile DemoCodec Store.

Section TeamStore.
Context `{P : Prims} `{LC : LeaseCodec} `{PC : PolicyCodec} `{J : JsonText} `{BC : BoardCodec}.
Context `{WC : WorkCodec} {CL : WorkCodecLaws WC} `{JC : JobCodec} {JL : JobCodecLaws JC}.
Context `{TC : TimerCodec} {TL : TimerCodecLaws TC} `{RC : ReconcileCodec}.

(** C18: sprints refine their lifecycle. In a reachable state every sprint got
    its state by steps from not being there to planned, active and closed; any
    call leaves every sprint as it was or moves it by one step; and one sprint
    is active at most. *)
Theorem sprints_refine now d :
  reachable now d →
  (∀ id, rtc sprint_life None (sprint_at id d)) ∧
  (∀ now' c, (now ≤ now')%Z → call_fits c d → ∀ id, let d' := (exec (now', c) d).2 in
     sprint_at id d' = sprint_at id d ∨ sprint_life (sprint_at id d) (sprint_at id d')) ∧
  (∀ id id', sprint_at id d = Some "active" → sprint_at id' d = Some "active" → id = id').
Proof.
  intros H. pose proof (reachable_inv _ _ H) as Hinv. split_and!.
  - induction H as [now|now now' c d H IH Hn Hf]; intros id; [done|].
    pose proof (reachable_inv _ _ H) as Hd. destruct (exec_inv now now' c d Hd Hn Hf) as (_ & _ & Hstep).
    etrans; [by apply IH|]. destruct (Hstep id) as [->|Hl]; [done|by apply rtc_once].
  - intros now' c Hn Hf. by destruct (exec_inv now now' c d Hinv Hn Hf) as (_ & _ & Hstep).
  - unfold sprint_at. intros id id'. destruct (find_sprint id d) as [s|] eqn:E; [|done].
    destruct (find_sprint id' d) as [s'|] eqn:E'; [|done]. intros [= Es] [= Es'].
    apply find_sprint_Some in E as [? <-], E' as [? <-].
    by rewrite (te_active _ (si_team _ _ Hinv) s s').
Qed.

(** Who reads a status. In a reachable state an active identity that asks
    for statuses gets exactly those of its own key and of the keys that are in a
    channel with it. *)
Theorem statuses_visible now d reader role :
  reachable now d → active_role reader d = Ok (role, d) →
  ∃ out, statuses_of reader d = Ok (out, d) ∧ ∀ r, r ∈ out ↔ ∃ s, s ∈ statuses (team d) ∧
    (su_pk s = reader ∨ ∃ m m', m ∈ members d ∧ m' ∈ members d ∧ m_channel m = m_channel m' ∧
       m_pubkey m = su_pk s ∧ m_pubkey m' = reader) ∧
    r = mk_status (hex (su_pk s)) (pseudonym (su_pk s)) (su_state s) (su_harness s) (su_folder s) (su_matter s)
          (su_ts s).
Proof.
  intros H Hr. destruct (reachable_inv _ _ H) as [Hi _ _ _ _ _ _ Ht _]. eapply statuses_of_spec; [done| |done].
  apply Hi.
Qed.
End TeamStore.

(** ** A concrete store *)

(** A sprint's argument has a name, a start and an end; a status' has a state. *)
Definition team_json : JsonText := {|
  parse_json s := Some (VObject (if String.eqb s "sprint"
    then [("name", VString s); ("starts", VNumber (NInt 1)); ("ends", VNumber (NInt 9))]
    else [("state", VString s)])) |}.

#[local] Existing Instances demo_prims demo_leases demo_policies demo_board demo_work demo_jobs demo_work_laws
  demo_jobs_laws demo_timers demo_timers_laws demo_reconcile team_json.

Definition team_calls : list (Z * call) :=
  [(1000, BootstrapOwner (demo_key 1)); (1000, Register (demo_key 2) "b"); (1000, Register (demo_key 3) "c");
   (1000, CreateSprint (demo_op "sprint.create" "s1" "sprint" "n1" 1));
   (1000, CreateSprint (demo_op "sprint.create" "s2" "sprint" "n2" 1));
   (1000, StartSprint (demo_op "sprint.start" "s1" "" "n3" 1));
   (1000, StartSprint (demo_op "sprint.start" "s2" "" "n4" 1));
   (1000, SetStatus (demo_op "status.set" (hex (demo_key 2)) "busy" "n5" 2))]%Z.

Definition team_db : db := run team_calls empty_db.

Lemma team_reachable : reachable 1000 team_db.
Proof.
  unfold team_db, run, team_calls. cbn [foldl].
  repeat (apply (reach_step 1000 1000); [|lia|first [exact I|by vm_compute]]). apply reach_init.
Qed.

(** The second sprint waits until the first is closed. *)
Lemma sprints_refine_witness :
  sprint_at "s1" team_db = Some "active" ∧ sprint_at "s2" team_db = Some "planned" ∧
  rtc sprint_life None (sprint_at "s1" team_db).
Proof.
  split_and!; [by vm_compute..|]. apply (sprints_refine 1000 team_db team_reachable).
Defined.

(** The owner shares no channel with the worker and reads nothing of it. *)
Lemma statuses_visible_witness :
  length (statuses (team team_db)) = 1 ∧
  ∃ out, statuses_of (demo_key 1) team_db = Ok (out, team_db) ∧ ¬ ∃ r, r ∈ out.
Proof.
  split; [by vm_compute|].
  destruct (statuses_visible 1000 team_db (demo_key 1) Owner team_reachable ltac:(by vm_compute)) as (out & E & Hout).
  exists out. split; [exact E|]. intros [r Hr]. apply Hout in Hr as (s & Hs & [Hk|(m & m' & Hm & _)] & _).
  - assert (Forall (λ s, su_pk s ≠ demo_key 1) (statuses (team team_db))) as Hall.
    { apply Forall_forall. intros z Hz. assert (su_pk <$> statuses (team team_db) = [demo_key 2]) as Ek by (by vm_compute).
      assert (su_pk z ∈ su_pk <$> statuses (team team_db)) as Hz' by (by apply list_elem_of_fmap_2).
      rewrite Ek in Hz'. apply list_elem_of_singleton in Hz' as ->. by vm_compute. }
    rewrite Forall_forall in Hall. by apply (Hall s Hs).
  - assert (members team_db = []) as En by (by vm_compute). rewrite En in Hm. by apply elem_of_nil in Hm.
Defined.
