(* ===== verification/ReconStore.v ===== *)
(** * Agora: what the reconciler promises

    An action takes effect at most once, and every action a pass plans from the
    store's snapshot takes the effect it was planned for. *)

From Stdlib Require Import Ascii.
From stdpp Require Import relations.
From S2P Require Import Prelude F64 Strs PyFmt TextFmt Bytes Core Crypto Task Graph Order Claims Settings Predict.
From S2P Require Import Signature Admit StoreDb Identity Leases Policy Board BoardLog WorkRow Work Jobs WorkInv.
From S2P Require Import WorkSteps WorkNext WorkJobs Team Timers TimerInv Reconcile StoreReconcile ReconInv DemoCodec Store.

Section Once.
Context `{P : Prims} `{LC : LeaseCodec} `{PC : PolicyCodec} `{J : JsonText} `{BC : BoardCodec}.
Context `{WC : WorkCodec} {CL : WorkCodecLaws WC} `{JC : JobCodec} {JL : JobCodecLaws JC}.
Context `{TC : TimerCodec} {TL : TimerCodecLaws TC} `{RC : ReconcileCodec}.

Lemma run_marks l k d :
  Forall (λ x, is_prune x.2 = false) l → marked k d = true → marked k (run l d) = true.
Proof.
  intros Hl. revert d. induction Hl as [|x l Hx _ IH]; intros d Hm; [done|]. cbn [run foldl]. by apply IH, exec_marks.
Qed.

Lemma run_nil d : run [] d = d.
Proof. done. Qed.

(** An action whose key is marked is dropped. *)
Lemma marked_dropped now op a d :
  parse_action (o_arg op) = Some a → marked (action_key a) d = true → (exec (now, ReconcileCall op) d).2 = d.
Proof.
  intros Hp Hm. destruct (exec_cases (now, ReconcileCall op) d) as [(d' & H & ->)|(e & ->)]; [|done]. cbn.
  apply unit_of_Ok in H as [u H]. apply reconcile_ran in H as [[-> _]|(b & [_ Hb _ Hf _ _])]; [done|]. congruence.
Qed.

(** C15: a reconcile action takes effect at most once. After the daemon's call
    with an action was accepted, whether it was applied or its key was marked
    already, and after any further calls but a pruning of the marks, a call with
    an action of the same key changes nothing. *)
Theorem reconcile_once now op a d d1 mid now' op' a' :
  exec (now, ReconcileCall op) d = (Ok tt, d1) → parse_action (o_arg op) = Some a →
  Forall (λ x, is_prune x.2 = false) mid → parse_action (o_arg op') = Some a' → action_key a' = action_key a →
  (exec (now', ReconcileCall op') (run mid d1)).2 = run mid d1.
Proof.
  intros Hx Ha Hmid Ha' Ek. eapply marked_dropped; [done|]. rewrite Ek. apply run_marks; [done|].
  destruct (exec_cases (now, ReconcileCall op) d) as [(d' & H & E)|(e & E)]; rewrite E in Hx; [|done]. injection Hx as <-.
  apply unit_of_Ok in H as [u H]. unfold apply_reconcile in H. apply tx_bind_Ok in H as (out & d2 & H & [_ ->]%mret_Ok).
  apply apply_reconcile_Ok in H as [(-> & _ & _ & b & Hb & Hm)|(_ & b & [_ Hb _ _ Hm _])];
    rewrite Ha in Hb; by injection Hb as <-.
Qed.

(** ** The snapshot *)

(** What the snapshot says of the rows. *)
Record snapshot (now : Z) (i : ReconcileInput) (d : db) : Prop := {
  sh_now : ri_now_ms i = now;
  sh_settings : settings_in d = Ok (ri_settings i, d);
  sh_cards : ri_cards i = in_progress_cards d;
  sh_leases r : r ∈ ri_leases i → ∃ l, l ∈ leases d ∧ l_released l = None ∧ lease_from_row l = Ok r;
  sh_marks : ri_marks i = read_marks d;
  sh_blocker : ri_blocker_card i = match state_value "blocker_card" d with
                                   | Some id => if card_is_open id d then Some id else None
                                   | None => None
                                   end;
  sh_claims : ri_claims i = read_claims d }.

Lemma try_map_member {A B} (f : A → result StoreError B) l out y :
  try_map f l = Ok out → y ∈ out → ∃ x, x ∈ l ∧ f x = Ok y.
Proof.
  revert out. induction l as [|x l IH]; intros out; cbn [try_map]; [by intros [= <-] ?%elem_of_nil|].
  destruct (f x) as [b|] eqn:E; [|done]. cbn. destruct (try_map f l) as [bs|] eqn:El; [|done]. cbn.
  intros [= <-] [->|Hy]%elem_of_cons; [exists x; split; [by left|done]|].
  destruct (IH bs eq_refl Hy) as (z & ? & ?). exists z. split; [by right|done].
Qed.

Lemma stored_policies_Ok d ps d' : stored_policies d = Ok (ps, d') → d' = d.
Proof. unfold stored_policies. intros H. step query_Ok in H as ? [-> ->]. by apply lift_Ok in H as [_ ->]. Qed.

Lemma reconcile_input_Ok now machine rr d i d' :
  reconcile_input now machine rr d = Ok (i, d') → d' = d ∧ snapshot now i d.
Proof.
  unfold reconcile_input. intros H. step query_Ok in H as blk [-> ->].
  apply tx_bind_Ok in H as (s & d1 & Hs & H). pose proof (settings_in_Ok _ _ _ Hs) as ->.
  step query_Ok in H as cs [-> ->]. unfold read_leases in H. apply tx_bind_Ok in H as (ls & d1 & Hl & H).
  step query_Ok in Hl as rows [-> ->]. apply lift_Ok in Hl as [Hl ->]. step stored_policies_Ok in H as ps ->.
  repeat step query_Ok in H as ? [-> ->]. apply mret_Ok in H as [-> ->]. split; [done|].
  constructor; cbn; try done. intros r Hr. destruct (try_map_member _ _ _ _ Hl Hr) as (l & Hin & El).
  apply elem_of_sorted_filter in Hin as [Hin Hn%bool_decide_eq_true]. eauto.
Qed.

Lemma marks_of_snapshot now i d k : snapshot now i d → k ∈ mark_key <$> ri_marks i ↔ marked k d = true.
Proof.
  intros H. rewrite (sh_marks _ _ _ H), marked_true. unfold read_marks. rewrite !list_elem_of_fmap. split.
  - intros (m & -> & (r & -> & Hr)%list_elem_of_fmap). apply elem_of_sort_by in Hr. by exists r.
  - intros (r & -> & Hr). eexists. split; [|apply list_elem_of_fmap; exists r; split; [reflexivity|by apply elem_of_sort_by]].
    done.
Qed.

(** ** Effects *)

Lemma find_assoc (key : string) (l : list (string * string)) :
  snd <$> (snd <$> list_find (λ kv, kv.1 = key) l) =
  match l with [] => None | kv :: l' => if decide (kv.1 = key) then Some kv.2
    else snd <$> (snd <$> list_find (λ kv, kv.1 = key) l') end.
Proof. destruct l as [|kv l]; [done|]. cbn. case_decide; [done|]. by destruct (list_find _ l). Qed.

Lemma state_put key value d : state_value key (put_state key value d) = Some value.
Proof.
  unfold put_state. destruct (existsb _ _) eqn:E; unfold state_value; cbn [work set_work_state set_work work_state];
    induction (work_state (work d)) as [|kv l IH]; [done|..|by cbn; rewrite decide_True|].
  - cbn [map]. rewrite find_assoc. cbn [existsb] in E. destruct (String.eqb_spec kv.1 key) as [Ek|Ek].
    + by rewrite decide_True.
    + rewrite decide_False by done. by apply IH.
  - cbn [existsb] in E. apply orb_false_iff in E as [E1%String.eqb_neq E2]. cbn [app]. rewrite find_assoc, decide_False by done.
    by apply IH.
Qed.

Lemma state_drop key d : state_value key (drop_state key d) = None.
Proof.
  unfold drop_state, state_value. cbn. induction (work_state (work d)) as [|kv l IH]; [done|]. cbn.
  destruct (String.eqb_spec kv.1 key); cbn [negb]; [done|]. rewrite find_assoc, decide_False by done. done.
Qed.

Lemma find_lease_elem d l : NoDup (l_id <$> leases d) → l ∈ leases d → find_lease (l_id l) d = Some l.
Proof.
  intros Hd Hl. unfold find_lease. destruct (list_find _ _) as [[n z]|] eqn:E.
  - apply list_find_Some in E as (Hz & Hid & _). apply list_elem_of_lookup_2 in Hz. cbn.
    f_equal. by apply (key_inj l_id (leases d)).
  - apply list_find_None in E. rewrite Forall_forall in E. by destruct (E l).
Qed.

(** The lease [id] is released now; it was not before. *)
Definition lease_ends (now : Z) (id : string) (d d' : db) : Prop :=
  ∃ l, find_lease id d = Some l ∧ l_released l = None ∧ find_lease id d' = Some (with_release now l).

Lemma update_lease_ends now id f l d :
  (∀ l, l_id (f l) = l_id l) → find_lease id d = Some l → l_released l = None → f l = with_release now l →
  lease_ends now id d (update_lease id f d).
Proof.
  intros Hid Hf Hr Ef. exists l. split_and!; [done..|]. unfold find_lease, update_lease in *. cbn [leases set_leases].
  rewrite (find_map l_id (λ l, if decide (l_id l = id) then f l else l)) by (intros z; by case_decide).
  rewrite Hf. cbn. destruct (list_find _ _) as [[n z]|] eqn:E; [|done]. injection Hf as ->.
  apply list_find_Some in E as (_ & <- & _). by rewrite decide_True, Ef.
Qed.

(** The notice that a post writes. *)
Definition notice_added (now : Z) (target kind subject text : string) (d d' : db) : Prop :=
  notices d' = notices d ++ [mk_notice (notice_seq d + 1) now target kind subject
                               (encode (firstn NOTICE_TEXT_MAX_CHARS (chars text)))].

(** What an action is for. *)
Definition took_effect (now : Z) (a : ReconcileAction) (d d' : db) : Prop :=
  match a with
  | ExpireLease _ id | CloseQuiet _ id => lease_ends now id d d'
  | ExpireClaim _ task agent _ notice_key text =>
      (∃ t, find_task task d' = Some t ∧ w_state t = "queued" ∧ cl_agent (w_claim t) = None) ∧
      notice_added now agent "claim_expired" task text d d' ∧ marked notice_key d' = true
  | Notice _ target kind subject text => notice_added now target kind subject text d d'
  | ReclaimCard _ id _ => (∃ c, find_card id d' = Some c ∧ c_state c = "ready" ∧ c_owner c = None) ∧
      ∀ ap, ap ∈ approvals d' → ap_card ap ≠ id
  | Blocker _ true title owner_action => ∃ id c, state_value "blocker_card" d' = Some id ∧
      find_card id d' = Some c ∧ card_is_open id d' = true ∧ c_title c = title ∧ c_needs_owner c = true ∧
      c_owner_action c = owner_action
  | Blocker _ false _ _ => state_value "blocker_card" d' = None ∧ ∃ id c, state_value "blocker_card" d = Some id ∧
      find_card id d' = Some c ∧ c_state c = "cancelled" ∧ c_needs_owner c = false
  | Admission _ paused => state_value "admission_paused" d' = paused
  end.

(** When it has something to do. *)
Definition can_act (now : Z) (a : ReconcileAction) (d : db) : Prop :=
  match a with
  | ExpireLease _ id => ∃ l e, find_lease id d = Some l ∧ l_released l = None ∧
      (l_kind l = "path" ∨ l_kind l = "pool") ∧ l_expires l = Some e ∧ (e ≤ now)%Z
  | CloseQuiet _ id => ∃ l, find_lease id d = Some l ∧ l_released l = None ∧ l_kind l = "quiet"
  | ExpireClaim key task agent ms notice_key text => notice_key ≠ key ∧ notice_key ≠ "" ∧ text ≠ "" ∧
      ∃ t ttl, find_task task d = Some t ∧ claim_ttl_ms d = Ok (Some ttl, d) ∧ claim_expires now ttl agent ms t = true
  | ReclaimCard _ id owner => ∃ c, find_card id d = Some c ∧ c_owner c = Some owner ∧ in_hand (c_state c) = true
  | Blocker _ false _ _ => ∃ id, state_value "blocker_card" d = Some id ∧ card_is_open id d = true
  | _ => True
  end.

(** An action that ran as it should and left its own mark to be set. *)
Definition runs_as (now : Z) (actor : string) (a : ReconcileAction) (d : db) : Prop :=
  ∃ r d', perform now actor a d = Ok (r, d') ∧ took_effect now a d d' ∧
    marked (action_key a) d' = marked (action_key a) d.

Lemma expire_lease_runs now actor key id d : can_act now (ExpireLease key id) d → runs_as now actor (ExpireLease key id) d.
Proof.
  intros (l & e & Hf & Hr & Hk & He & Hle). eexists _, _. split_and!; [reflexivity| |done].
  apply (update_lease_ends now id _ l); [|done..|].
  - intros z. by destruct (_ && _).
  - rewrite bool_decide_eq_true_2, He by done. cbn. rewrite (proj2 (Z.leb_le e now)) by done.
    by destruct Hk as [->| ->].
Qed.

Lemma close_quiet_runs now actor key id d : can_act now (CloseQuiet key id) d → runs_as now actor (CloseQuiet key id) d.
Proof.
  intros (l & Hf & Hr & Hk). eexists _, _. split_and!; [reflexivity| |done].
  apply (update_lease_ends now id _ l); [|done..|].
  - intros z. by destruct (_ && _).
  - by rewrite bool_decide_eq_true_2, Hk.
Qed.

Lemma with_requeue_keeps note : keeps_row (with_requeue note).
Proof. done. Qed.

Lemma not_empty_str s : s ≠ "" → is_empty_str s = false.
Proof. by destruct s. Qed.

Lemma marked_mark k key now d : marked k (insert_mark key now d) = marked k d || bool_decide (key = k).
Proof. unfold marked. cbn. rewrite existsb_app. cbn. by rewrite orb_false_r. Qed.

Lemma expire_claim_runs now actor key task agent ms nk text d :
  can_act now (ExpireClaim key task agent ms nk text) d → runs_as now actor (ExpireClaim key task agent ms nk text) d.
Proof.
  intros (Hne & Hnk & Htx & t & ttl & Hf & Httl & Hc).
  unfold runs_as, perform, expire_claim, mbind, tx_bind. rewrite Httl. unfold query. rewrite Hf, Hc. cbn [execute].
  unfold execute. rewrite append_run. unfold mret, tx_ret.
  rewrite !not_empty_str by done. cbn [negb andb].
  match goal with |- context [post_notice _ _ _ _ _ ?e] => set (d1 := e) end.
  cbn [post_notice]. unfold post_notice, query, execute, mbind, tx_bind, mret, tx_ret.
  set (d2 := set_notices _ _ d1).
  assert (find_task task d2 = Some (with_requeue CLAIM_EXPIRED t)) as Ht.
  { transitivity (find_task task (update_task task (with_requeue CLAIM_EXPIRED) d)); [done|].
    rewrite find_task_update, decide_True, Hf by done. done. }
  assert (marked nk d2 = marked nk d ∧ marked key d2 = marked key d) as [E1 E2] by done.
  eexists _, _. split; [reflexivity|]. destruct (marked nk d2) eqn:Em.
  - split; [|done]. split_and!; [by eexists|done|done].
  - split; [|by rewrite marked_mark, bool_decide_eq_false_2, orb_false_r].
    split_and!; [by eexists|done|]. rewrite marked_mark, bool_decide_eq_true_2 by done. by rewrite orb_true_r.
Qed.

Lemma reclaim_card_runs now actor key id owner d :
  can_act now (ReclaimCard key id owner) d → runs_as now actor (ReclaimCard key id owner) d.
Proof.
  intros (c & Hf & Ho & Hh). unfold runs_as, perform, reclaim_card, mbind, tx_bind, query.
  rewrite Hf, bool_decide_eq_true_2, Hh by done. cbn [andb]. unfold execute. rewrite !append_run.
  eexists _, _. split_and!; [reflexivity| |done]. split.
  - match goal with |- context [find_card id ?e] =>
      assert (find_card id e = find_card id (update_card id (with_state "ready" None now) d)) as -> by done end.
    rewrite card_at_update, decide_True, Hf by done. by eexists.
  - intros ap. cbn [approvals drop_approvals logged set_events set_approvals]. intros [? _]%list_elem_of_filter. done.
Qed.

Lemma card_is_open_find id d d' : find_card id d' = find_card id d → card_is_open id d' = card_is_open id d.
Proof. unfold card_is_open. by intros ->. Qed.

Lemma card_is_open_found id d : card_is_open id d = true → is_Some (find_card id d).
Proof. unfold card_is_open. by destruct (find_card id d). Qed.

Lemma find_card_put id key value d : find_card id (put_state key value d) = find_card id d.
Proof. unfold put_state. by destruct (existsb _ _). Qed.

Lemma marked_put k key value d : marked k (put_state key value d) = marked k d.
Proof. unfold put_state. by destruct (existsb _ _). Qed.

Lemma new_blocker_runs now actor key title owner_action d :
  from_option (λ id, card_is_open id d) false (state_value "blocker_card" d) = false →
  runs_as now actor (Blocker key true title owner_action) d.
Proof.
  intros Ho. destruct (next_blocker_id_total d) as [id Hid]. pose proof (next_blocker_id_Ok _ _ _ Hid) as (_ & Hn & _).
  set (d1 := set_cards (cards d ++ [blocker_card id title owner_action now]) d).
  set (d2 := put_state "blocker_card" id
    (logged now actor "card.created" id (VObject [("title", VString title); ("lane", VString "ops")]) d1)).
  assert (find_card id d2 = Some (blocker_card id title owner_action now)) as Hf.
  { unfold d2. rewrite find_card_put. transitivity (find_card id d1); [done|]. etrans; [apply (find_app c_id)|].
    unfold find_card in Hn. rewrite Hn, decide_True by done. done. }
  exists (id, false), d2. split_and!.
  - unfold perform, open_blocker, mbind, tx_bind, query. destruct (state_value _ d) as [k|]; cbn in Ho |- *;
      [rewrite Ho|]; by rewrite Hid.
  - eexists id, _. split_and!; [apply state_put|exact Hf| |done..]. unfold card_is_open. by rewrite Hf.
  - unfold d2. by rewrite marked_put.
Qed.

Lemma old_blocker_runs now actor key title owner_action id d :
  state_value "blocker_card" d = Some id → card_is_open id d = true →
  runs_as now actor (Blocker key true title owner_action) d.
Proof.
  intros Hs Ho. destruct (card_is_open_found _ _ Ho) as [c Hc].
  exists (id, false), (update_card id (with_blocker_text title owner_action now) d). split_and!; [|..|done].
  - unfold perform, open_blocker, mbind, tx_bind, query. rewrite Hs. cbn. by rewrite Ho.
  - assert (find_card id (update_card id (with_blocker_text title owner_action now) d) =
      Some (with_blocker_text title owner_action now c)) as Hf by (rewrite card_at_update, decide_True, Hc by done; done).
    eexists id, _. split_and!; [exact Hs|exact Hf| |done..]. unfold card_is_open in *. by rewrite Hf, Hc in *.
Qed.

Lemma close_blocker_runs now actor key title owner_action d :
  can_act now (Blocker key false title owner_action) d → runs_as now actor (Blocker key false title owner_action) d.
Proof.
  intros (id & Hs & Ho). destruct (card_is_open_found _ _ Ho) as [c Hc].
  assert (find_card id (update_card id without_need d) = Some (without_need c)) as Hf
    by (rewrite card_at_update, decide_True, Hc by done; done).
  assert (card_is_open id (update_card id without_need d) = true) as Ho' by (unfold card_is_open in *; by rewrite Hf, Hc in *).
  unfold runs_as, perform, close_blocker, mbind, tx_bind, query. rewrite Hs. unfold execute. rewrite Hf, Ho', append_run.
  unfold mret, tx_ret. set (d1 := update_card id (as_cancelled now) _). set (d2 := ignore_evidence _ _ _ d1).
  assert (find_card id d2 = Some (as_cancelled now (without_need c))) as Hf2.
  { transitivity (find_card id d1); [unfold d2, ignore_evidence; by destruct (existsb _ _)|].
    unfold d1. rewrite card_at_update, decide_True, Hf by done. done. }
  assert (∀ k, marked k d2 = marked k d) as Hm by (intros k; unfold d2, ignore_evidence; by destruct (existsb _ _)).
  eexists _, _. split_and!; [reflexivity| |apply Hm]. split; [apply state_drop|].
  eexists id, _. by split_and!; [|exact Hf2|..].
Qed.

(** An action that can act runs and has its effect. *)
Lemma perform_effect now actor a d : can_act now a d → runs_as now actor a d.
Proof.
  destruct a as [key id|key task agent ms nk text|key id|key target kind subject text|key id owner|key [] title oa|key paused];
    [apply expire_lease_runs|apply expire_claim_runs|apply close_quiet_runs|..|apply reclaim_card_runs|
     |apply close_blocker_runs|]; intros _.
  - by eexists _, _.
  - destruct (from_option (λ id, card_is_open id d) false (state_value "blocker_card" d)) eqn:E; [|by apply new_blocker_runs].
    destruct (state_value "blocker_card" d) as [id|] eqn:Es; [|done]. by eapply old_blocker_runs.
  - destruct paused as [p|]; eexists _, _; (split_and!; [reflexivity|..|]);
      [apply state_put|apply marked_put|apply state_drop|done].
Qed.

(** ** The plan acts *)

(** The mark of a notice is not the mark of its expiry. *)
Lemma claim_keys i key task agent ms nk text :
  ExpireClaim key task agent ms nk text ∈ candidates i → nk ≠ key ∧ nk ≠ "" ∧ text ≠ "".
Proof.
  unfold candidates. rewrite !elem_of_app. intros [H|[H|[H|[H|[H|[H|H]]]]]].
  - by apply list_elem_of_fmap in H as (? & ? & _).
  - unfold expire_claims in H. destruct (_ || _); [by apply elem_of_nil in H|].
    by apply list_elem_of_fmap in H as (c & [= -> -> -> -> -> ->] & _).
  - by apply list_elem_of_fmap in H as (? & ? & _).
  - apply list_elem_of_bind in H as ([c o] & H & _). unfold stale_card in H. rewrite !elem_of_app in H.
    destruct H as [H|[H|H]]; (destruct (_ && _) in H || destruct (f_le _ _) in H); try by apply elem_of_nil in H.
    + by apply list_elem_of_singleton in H.
    + by apply list_elem_of_fmap in H as (? & ? & _).
    + by apply elem_of_cons in H as [?|?%list_elem_of_singleton].
  - apply list_elem_of_bind in H as (k & H & _). unfold wip_lane in H. repeat case_match; try by apply elem_of_nil in H.
    by apply list_elem_of_fmap in H as (? & ? & _).
  - unfold machine_floors in H. destruct (ri_machine i); [|by apply elem_of_nil in H].
    destruct (breaches i); apply elem_of_app in H as [H|H]; repeat case_match;
      by first [apply elem_of_nil in H|apply list_elem_of_singleton in H].
  - unfold sprint_rollovers in H. destruct (negb _); [by apply elem_of_nil in H|].
    apply list_elem_of_bind in H as (s & H & _). by apply list_elem_of_fmap in H as (? & ? & _).
Qed.

Lemma lease_row l r : lease_from_row l = Ok r →
  lr_id r = l_id l ∧ LeaseKind_parse (l_kind l) = Some (lr_kind r) ∧ lr_released_ms r = l_released l ∧
  lr_expires_ms r = l_expires l.
Proof. unfold lease_from_row. destruct (LeaseKind_parse _) eqn:E; [|done]. by intros [= <-]. Qed.

Lemma read_claim c d :
  c ∈ read_claims d → ∃ t, t ∈ work_tasks (work d) ∧ w_id t = cm_task c ∧ w_state t = "claimed" ∧
    cl_agent (w_claim t) = Some (cm_agent c) ∧ cl_claimed (w_claim t) = Some (cm_claimed_ms c) ∧
    cl_requested (w_claim t) = None ∧ is_Some (sp_command (w_spec t)).
Proof.
  intros (t & Ht & H)%list_elem_of_omap. exists t. split; [done|]. unfold claim_snap in H.
  destruct (cl_agent _), (cl_claimed _); try done. destruct (_ && _) eqn:E; [|done]. injection H as <-.
  rewrite !andb_true_iff, String.eqb_eq, !bool_decide_eq_true in E. naive_solver.
Qed.

Lemma sat_due a ttl now : (a + ttl <= now ∨ i64_max <= now ∨ now < sat_i64 (a + ttl))%Z.
Proof. unfold sat_i64, i64_max, i64_min. lia. Qed.

Lemma claim_acts now now' i d c :
  work_wf (work d) → snapshot now i d → c ∈ ri_claims i → is_finite (claim_ttl_s (ri_settings i)) = true →
  f_le (claim_ttl_s (ri_settings i)) f_zero = false → (now < i64_max)%Z → (now ≤ now')%Z →
  (sat_i64 (cm_claimed_ms c + f_as_i64 (claim_ttl_s (ri_settings i) * f_of_Z 1000)%f64) ≤ ri_now_ms i)%Z →
  ∃ t ttl, find_task (cm_task c) d = Some t ∧ claim_ttl_ms d = Ok (Some ttl, d) ∧
    claim_expires now' ttl (cm_agent c) (cm_claimed_ms c) t = true.
Proof.
  intros Hwf Hs Hc Hfin Hpos Hmax Hle Hdue. rewrite (sh_claims _ _ _ Hs) in Hc.
  apply read_claim in Hc as (t & Ht & Hid & Hst & Hag & Hcl & Hrq & Hcmd). exists t.
  rewrite <- Hid, (find_task_elem _ _ (ww_ids _ Hwf) Ht). unfold claim_ttl_ms, mbind, tx_bind.
  rewrite (sh_settings _ _ _ Hs), Hfin, Hpos. eexists. split_and!; [done|reflexivity|].
  unfold claim_expires. rewrite Hst, !bool_decide_eq_true_2 by done. cbn. apply Z.leb_le.
  rewrite (sh_now _ _ _ Hs) in Hdue. revert Hdue. set (z := f_as_i64 _). intros Hdue.
  pose proof (sat_due (cm_claimed_ms c) z now). lia.
Qed.

Lemma planned_acts now0 now now' i d a :
  store_inv now0 d → snapshot now i d → a ∈ plan i → (now < i64_max)%Z → (now ≤ now')%Z → can_act now' a d.
Proof.
  intros Hinv Hs Ha Hmax Hle.
  assert (a ∈ candidates i) as Hcand.
  { destruct (pushes_sublist i (candidates i) (mk_planner [] [])) as (k & E & Hk). fold (plan i) in E. cbn in E. subst k.
    by eapply elem_of_sublist. }
  pose proof (candidates_called _ _ Hcand) as Hj. pose proof (lw_ids _ _ (si_leases _ _ Hinv)) as Hli.
  destruct Hj as [r e Hr Hk _ He Hn|c nk text Hc Hfin Hpos Hdue|r e Hr Hk _ _ _|c o text (Hc & Hh & Ho & _)|c o target text _ _|c o text _ _
    |c o (Hc & Hh & Ho & _) _|team lane limit target text _ _ _ _|text _ _|title act _|_ _ _|card _ _ Hid|s target text _ _ _ _ _]; cbn; try done.
  - destruct (sh_leases _ _ _ Hs r Hr) as (l & Hl & Hrel & Hrow).
    apply lease_row in Hrow as (-> & Hp & _ & Ee). exists l, e. rewrite find_lease_elem by done.
    rewrite (sh_now _ _ _ Hs) in Hn. split_and!; [done..| |congruence|lia].
    unfold LeaseKind_parse in Hp. repeat case_decide; simplify_eq; auto; congruence.
  - destruct (claim_keys _ _ _ _ _ _ _ Hcand) as (? & ? & ?).
    split_and!; [done..|]. eapply claim_acts; try done. apply Hinv.
  - destruct (sh_leases _ _ _ Hs r Hr) as (l & Hl & Hrel & Hrow).
    apply lease_row in Hrow as (-> & Hp & _). exists l. rewrite find_lease_elem by done. split_and!; [done..|].
    unfold LeaseKind_parse in Hp. repeat case_decide; simplify_eq; auto; congruence.
  - rewrite (sh_cards _ _ _ Hs) in Hc.
    apply list_elem_of_fmap in Hc as (k & -> & Hk). apply elem_of_sorted_filter in Hk as [Hk _]. exists k.
    split_and!; [apply find_card_elem; [apply (bw_ids _ (si_board _ _ Hinv))|done]|done..].
  - rewrite (sh_blocker _ _ _ Hs) in Hid. exists card.
    destruct (state_value _ d) as [id'|]; [|done]. destruct (card_is_open id' d) eqn:E; [|done]. by injection Hid as ->.
Qed.

(** What follows the effect keeps it. *)
Lemma took_effect_marked now a key now1 actor kind subject data d d' :
  took_effect now a d d' → took_effect now a d (logged now1 actor kind subject data (insert_mark key now1 d')).
Proof.
  destruct a as [| | | | |key' [] title oa|]; try done. intros (Ht & Hn & Hm). split_and!; [done..|].
  change (marked notice_key (insert_mark key now1 d') = true). by rewrite marked_mark, Hm.
Qed.

Lemma claim_ttl_nonce now op d r :
  claim_ttl_ms d = Ok (r, d) → claim_ttl_ms (with_nonce now op d) = Ok (r, with_nonce now op d).
Proof.
  unfold claim_ttl_ms, settings_in, mbind, tx_bind, query.
  change (work_settings (with_nonce now op d)) with (work_settings d).
  destruct (work_settings d); [|by intros [= <-]]. unfold lift. destruct (ok_or _ _); [|done]. by intros [= <-].
Qed.

Lemma apply_reconcile_effect now op a d d1 :
  authorize_system now op (o_kind op) d = Ok (tt, d1) → parse_action (o_arg op) = Some a → o_kind op = op_kind a →
  marked (action_key a) d = false → can_act now a d →
  ∃ d', apply_reconcile now op d = Ok (true, d') ∧ took_effect now a d d' ∧ marked (action_key a) d' = true.
Proof.
  intros Hau Hp Hk Hm Hact. pose proof Hau as [_ ->]%authorize_system_record.
  destruct (perform_effect now (actor_hex op) a (with_nonce now op d)) as ([subject posted] & d' & Hd & Heff & Hmk).
  { destruct a as [| | | | |key' [] title oa|]; try done. destruct Hact as (? & ? & ? & t & ttl & Hf & Ht & Hc).
    split_and!; [done..|]. exists t, ttl. split_and!; [done|by apply claim_ttl_nonce|done]. }
  change (marked (action_key a) (with_nonce now op d)) with (marked (action_key a) d) in Hmk.
  exists (logged now (actor_hex op) (o_kind op) subject (VObject [("key", VString (action_key a))])
            (insert_mark (action_key a) now d')). split_and!.
  - unfold apply_reconcile, apply_reconcile_outcome, reconcile_tx, mbind, tx_bind. rewrite Hau. unfold lift, query.
    rewrite Hp. cbn [ok_or]. unfold guard. rewrite <- Hk, String.eqb_refl. cbn [negb].
    unfold mret, tx_ret. change (marked (action_key a) (with_nonce now op d)) with (marked (action_key a) d). rewrite Hm, Hd, Hmk, Hm. done.
  - apply took_effect_marked. by destruct a as [| | | | |key' [] title oa|].
  - change (marked (action_key a) (insert_mark (action_key a) now d') = true).
    rewrite marked_mark, bool_decide_eq_true_2 by done. by rewrite orb_true_r.
Qed.

(** C14: a planned action takes effect. Of the plan that a pass makes from the
    snapshot of a reachable state, the daemon's signed call with any action
    commits, then or later in the same state: the expired lease or the overdue
    quiet window is released, the expired claim is back in the queue and its
    agent has a notice, the notice is written, the idle card is ready without an
    owner or approvals, the blocker card is open with the breach as its title, or
    cancelled, admission is paused with the reason or resumed, and the action's
    key is marked. *)
Theorem plan_takes_effect now0 now now' machine rr i d op a d1 :
  reachable now0 d → reconcile_input now machine rr d = Ok (i, d) → a ∈ plan i →
  (now < i64_max)%Z → (now ≤ now')%Z → parse_action (o_arg op) = Some a → o_kind op = op_kind a →
  authorize_system now' op (o_kind op) d = Ok (tt, d1) →
  ∃ d', exec (now', ReconcileCall op) d = (Ok tt, d') ∧ took_effect now' a d d' ∧ marked (action_key a) d' = true.
Proof.
  intros Hr [_ Hs]%reconcile_input_Ok Ha Hmax Hle Hp Hk Hau.
  destruct (apply_reconcile_effect now' op a d d1) as (d' & H & Heff & Hm); try done.
  - apply not_true_is_false. rewrite <- (marks_of_snapshot now i d) by done.
    by apply (ok_marks i _ (pushes_ok i (candidates i) _ (planner_ok_init i))).
  - eapply planned_acts; [by apply reachable_inv|done..].
  - exists d'. split_and!; [|done..]. unfold exec, transact. cbn [run_call fst snd]. unfold unit_of, mbind, tx_bind.
    by rewrite H.
Qed.
End Once.

(** ** A concrete store *)

(** A blocker, or the end of the only lease. *)
Definition recon_codec : ReconcileCodec := {|
  parse_action s := Some (if String.eqb s "blocker" then Blocker s true "disk" "free disk space"
                          else ExpireLease "expire:lease-1:901000" "lease-1") |}.

#[local] Existing Instances demo_prims demo_leases demo_policies demo_json demo_board demo_work demo_jobs
  demo_work_laws demo_jobs_laws demo_timers demo_timers_laws recon_codec.

(** The owner, the daemon, and a path lease of fifteen minutes. *)
Definition recon_calls : list (Z * call) :=
  [(1000, BootstrapOwner (demo_key 1)); (1000, RegisterSystem (demo_key 9));
   (1000, LeaseAcquire (demo_op "lease.acquire" "" "/p" "n1" 1))]%Z.

Definition recon_db : db := run recon_calls empty_db.

Lemma recon_reachable : reachable 1000 recon_db.
Proof.
  unfold recon_db, run, recon_calls. cbn [foldl].
  repeat (apply (reach_step 1000 1000); [|lia|first [exact I|by vm_compute]]). apply reach_init.
Qed.

Definition expire_op : SignedOp := mk_op "reconcile.expire" "" "lease" 901000 "r1" (demo_key 9) (be_bytes 64 0).

Definition recon_input : ReconcileInput :=
  match reconcile_input 901000 None false recon_db with
  | Ok (i, _) => i
  | Err _ => mk_reconcile_input 0 default_settings None [] [] [] false [] [] None None [] []
  end.

Lemma recon_input_read : reconcile_input 901000 None false recon_db = Ok (recon_input, recon_db).
Proof.
  destruct (reconcile_input 901000 None false recon_db) as [[i d]|e] eqn:E; [|by vm_compute in E].
  pose proof (reconcile_input_Ok _ _ _ _ _ _ E) as [-> _]. unfold recon_input. by rewrite E.
Qed.

(** The lease expires after its fifteen minutes. *)
Lemma plan_takes_effect_witness :
  plan recon_input = [ExpireLease "expire:lease-1:901000" "lease-1"] ∧
  ∃ d', exec (901000, ReconcileCall expire_op)%Z recon_db = (Ok tt, d') ∧ lease_ends 901000 "lease-1" recon_db d'.
Proof.
  assert (plan recon_input = [ExpireLease "expire:lease-1:901000" "lease-1"]) as Hp by (by vm_compute).
  split; [exact Hp|].
  destruct (plan_takes_effect 1000 901000 901000 None false recon_input recon_db expire_op
    (ExpireLease "expire:lease-1:901000" "lease-1") (with_nonce 901000 expire_op recon_db) recon_reachable
    recon_input_read) as (d' & H & Heff & _).
  - rewrite Hp. by left.
  - unfold i64_max. lia.
  - lia.
  - reflexivity.
  - reflexivity.
  - destruct (authorize_system 901000 expire_op (o_kind expire_op) recon_db) as [[[] d]|e] eqn:E; [|by vm_compute in E].
    by pose proof E as [_ ->]%authorize_system_record.
  - exists d'. split; [exact H|exact Heff].
Defined.

Definition blocker_op (nonce : string) : SignedOp := demo_op "reconcile.blocker" "" "blocker" nonce 9.

Definition blocked_db : db := (exec (1000, ReconcileCall (blocker_op "r1"))%Z recon_db).2.

(** The second call for the same breach changes nothing, though it has a nonce of
    its own. *)
Lemma reconcile_once_witness :
  length (cards blocked_db) = 1 ∧ (exec (1000, ReconcileCall (blocker_op "r2"))%Z blocked_db).2 = blocked_db.
Proof.
  split; [by vm_compute|].
  assert (exec (1000, ReconcileCall (blocker_op "r1"))%Z recon_db = (Ok tt, blocked_db)) as Hx.
  { assert ((exec (1000, ReconcileCall (blocker_op "r1"))%Z recon_db).1 = Ok tt) as Hok by (by vm_compute).
    unfold blocked_db. rewrite <- Hok. apply surjective_pairing. }
  pose proof (reconcile_once 1000 (blocker_op "r1") (Blocker "blocker" true "disk" "free disk space") recon_db blocked_db []
    1000 (blocker_op "r2") (Blocker "blocker" true "disk" "free disk space") Hx eq_refl (Forall_nil_2 _) eq_refl eq_refl) as H.
  rewrite run_nil in H. exact H.
Defined.

(** The row of a new blocker is blocked, and the log, which only says that the
    card was created, puts it in the backlog. *)
Example blocker_log_differs :
  card_at "blocker-1" blocked_db = Some Blocked ∧ replay (events blocked_db) "blocker-1" = Some Backlog.
Proof. split; by vm_compute. Qed.
