(* ===== verification/Notify.v ===== *)
(** * agora-mcp: channel notifications

    The first half of [src/crates/agora-mcp/src/push.rs]: the token bucket that
    limits how often a session is notified, and the text of a notification. *)

From Stdlib Require Import Ascii.
From S2P Require Import Prelude F64 Strs PyFmt Bytes Task StoreDb Framing.

Local Open Scope Z_scope.

(** Channel-push tuning ([engine.rs]). *)
Record PushConfig : Type := mk_push_config {
  coalesce_ms : Z; burst : Z; refill_ms : Z; max_messages : nat; max_content_bytes : nat }.

Definition push_default : PushConfig := mk_push_config 300 3 2000 5 8192.

(** ** The token bucket *)

Record Bucket : Type := mk_bucket { bk_burst : Z; bk_refill_ms : Z; bk_tokens : Z; bk_stamp_ms : Z }.

Definition new_bucket (burst refill_ms now_ms : Z) : Bucket := mk_bucket burst refill_ms burst now_ms.

Definition period_ms (refill_ms : Z) : Z := Z.min i64_max (Z.max refill_ms 1).

Definition sat_u32 (z : Z) : Z := Z.max 0 (Z.min u32_max z).

Definition bk_refill (b : Bucket) (now_ms : Z) : Bucket :=
  let '(mk_bucket burst refill_ms tokens stamp_ms) := b in
  if burst <=? tokens then mk_bucket burst refill_ms burst now_ms
  else
    let period := period_ms refill_ms in
    let earned := Z.quot (sat_i64 (now_ms - stamp_ms)) period in
    if earned <=? 0 then b
    else
      let added := Z.min earned (sat_u32 (burst - tokens)) in
      let tokens' := sat_u32 (tokens + (if (0 <=? added) && (added <=? u32_max) then added else 0)) in
      mk_bucket burst refill_ms tokens'
        (if burst <=? tokens' then now_ms else sat_i64 (stamp_ms + sat_i64 (added * period))).

Definition try_take (b : Bucket) (now_ms : Z) : bool * Bucket :=
  let b := bk_refill b now_ms in
  if bk_tokens b =? 0 then (false, b)
  else (true, mk_bucket (bk_burst b) (bk_refill_ms b) (bk_tokens b - 1) (bk_stamp_ms b)).

Definition next_at (b : Bucket) (now_ms : Z) : Z :=
  if 0 <? bk_tokens b then now_ms
  else Z.max (sat_i64 (bk_stamp_ms b + period_ms (bk_refill_ms b))) now_ms.

(** A bucket that is asked at the given times. *)
Fixpoint take_all (b : Bucket) (times : list Z) : list bool * Bucket :=
  match times with
  | [] => ([], b)
  | t :: times' => let '(ok, b) := try_take b t in let '(oks, b) := take_all b times' in (ok :: oks, b)
  end.

Definition taken (b : Bucket) (times : list Z) : Z := Z.of_nat (length (List.filter id (take_all b times).1)).

(** ** The text of a notification *)

Definition CHANNEL_METHOD : string := "notifications/claude/channel".
Definition META_VALUE_CHARS : nat := 64.
Definition MESSAGE_OPEN : string := "<untrusted-message".
Definition MESSAGE_CLOSE : string := "</untrusted-message>".
Definition TRUNCATION_RESERVE : nat := 64.
Definition TRUNCATION_MARKER : string := newline +:+ "[truncated; call inbox]".
Definition READ_HINT : string := newline +:+ "Call the agora inbox tool to read, ack when handled.".

Local Open Scope nat_scope.

(** [str::is_char_boundary], up to the length. *)
Definition is_char_boundary (s : string) (i : nat) : bool :=
  match str_drop i s with
  | "" => true
  | String c _ => negb (in_range 128 191 c)
  end.

Fixpoint floor_boundary (s : string) (e : nat) : nat :=
  if is_char_boundary s e then e else match e with O => O | S e' => floor_boundary s e' end.

(** [str::rfind] of a byte, and of a text. *)
Fixpoint rfind_byte (x : byte) (s : string) : option nat :=
  match s with
  | "" => None
  | String c s' => match rfind_byte x s' with
                   | Some i => Some (S i)
                   | None => if byte_eqb c x then Some 0 else None
                   end
  end.

Fixpoint rfind_str (p s : string) : option nat :=
  match s with
  | "" => if is_empty_str p then Some 0 else None
  | String c s' => match rfind_str p s' with
                   | Some i => Some (S i)
                   | None => if starts_with p s then Some 0 else None
                   end
  end.

(** [str::matches(p).count()] for a text that is not empty: matches do not
    overlap, so the bytes of one are skipped. *)
Fixpoint count_matches (skip : nat) (p s : string) : nat :=
  match s with
  | "" => 0
  | String _ s' => match skip with
                   | S k => count_matches k p s'
                   | O => if starts_with p s then S (count_matches (String.length p - 1) p s') else count_matches 0 p s'
                   end
  end.

(** Whether the last block that is opened is not closed. *)
Definition block_left_open (s : string) : bool :=
  match rfind_str MESSAGE_OPEN s with
  | Some open => negb (contains_str MESSAGE_CLOSE (str_drop open s))
  | None => false
  end.

(** The content, cut, and the blocks that are whole in it. *)
Definition cap_content (content : string) (max : nat) : string * nat :=
  if Nat.leb (String.length content) max then (content, count_matches 0 MESSAGE_CLOSE content)
  else
    let e := floor_boundary content (min (max - TRUNCATION_RESERVE) (String.length content)) in
    let content := str_take e content in
    let content := str_take (default 0 (rfind_byte nl_byte content)) content in
    let whole := count_matches 0 MESSAGE_CLOSE content in
    let content := if block_left_open content then content +:+ MESSAGE_CLOSE else content in
    (content +:+ TRUNCATION_MARKER, whole).

Definition seq_of (m : Value) : option Z := vget "seq" m ≫= v_i64.

(** A value on one line, 64 characters at most. *)
Definition meta_value (value : string) : Value := VString (encode (firstn META_VALUE_CHARS (chars (escape_line value)))).

(** [max_by_key]: the last of the greatest. *)
Definition newest (msgs : list Value) : option Value :=
  let key m := default i64_min (seq_of m) in
  foldl (λ best m, match best with
                   | Some b => if (key b <=? key m)%Z then Some m else best
                   | None => Some m
                   end) None msgs.

Definition max_seq (msgs : list Value) : option Z :=
  foldl (λ best m, match seq_of m with
                   | Some s => Some (match best with Some b => Z.max b s | None => s end)
                   | None => best
                   end) None msgs.

Definition meta_for (msgs : list Value) : JMap :=
  let channels : gset string := list_to_set ((λ m, str_field m "channel") <$> msgs) in
  let channel := if Nat.ltb 1 (size channels) then "multiple"
                 else match msgs with m :: _ => str_field m "channel" | [] => "" end in
  let sender := from_option (λ m, str_field m "pseudonym") "" (newest msgs) in
  let seq := from_option dec "" (max_seq msgs) in
  [("channel", meta_value channel); ("sender", meta_value sender); ("seq", meta_value seq);
   ("count", meta_value (dec (Z.of_nat (length msgs))))].

(** [jsonrpc::notification]. *)
Definition notification (method : string) (params : Value) : Value :=
  VObject [("jsonrpc", VString "2.0"); ("method", VString method); ("params", params)].

(** The line that counts what is left out. *)
Definition more_line (more : nat) : string :=
  if Nat.ltb 0 more then newline +:+ "[+" +:+ dec (Z.of_nat more) +:+ " more unread; call inbox]" else "".

(** The text of a notification, and the number of messages whole in it. *)
Definition notification_content (msgs : list Value) (cfg : PushConfig) : string * nat :=
  let shown := if Nat.leb (max_messages cfg) (length msgs) then firstn (max_messages cfg) msgs else msgs in
  let content := frame_batch shown +:+ more_line (length msgs - length shown) in
  let '(content, whole) := cap_content content (max_content_bytes cfg - String.length READ_HINT) in
  (content +:+ READ_HINT, whole).

Definition build_notification_counted (msgs : list Value) (cfg : PushConfig) : Value * nat :=
  let '(content, whole) := notification_content msgs cfg in
  (notification CHANNEL_METHOD (VObject [("content", VString content); ("meta", VObject (meta_for msgs))]), whole).

Definition build_notification (msgs : list Value) (cfg : PushConfig) : Value := (build_notification_counted msgs cfg).1.

(** ** The rate *)

Local Open Scope Z_scope.

(** A bucket that was last asked at [now]. *)
Record bucket_ok (b : Bucket) (now : Z) : Prop := {
  bo_burst : 0 ≤ bk_burst b ≤ u32_max;
  bo_tokens : 0 ≤ bk_tokens b ≤ bk_burst b;
  bo_stamp : 0 ≤ bk_stamp_ms b ≤ now }.

Lemma period_range r : 1 ≤ period_ms r ≤ i64_max.
Proof. unfold period_ms, i64_max. lia. Qed.

(** What the tokens are worth, in time; a refill adds nothing to it. *)
Definition credit (b : Bucket) : Z := bk_tokens b * period_ms (bk_refill_ms b) - bk_stamp_ms b.

Lemma refill_ok b t now :
  bucket_ok b t → t ≤ now ≤ i64_max →
  let b' := bk_refill b now in
  bucket_ok b' now ∧ bk_burst b' = bk_burst b ∧ bk_refill_ms b' = bk_refill_ms b ∧ credit b' ≤ credit b ∧
  credit b' ≤ bk_burst b * period_ms (bk_refill_ms b) - now ∧
  (0 < bk_tokens b' ↔ 0 < bk_burst b ∧ (0 < bk_tokens b ∨ bk_stamp_ms b + period_ms (bk_refill_ms b) ≤ now)).
Proof.
  destruct b as [burst r tokens stamp]. intros [Hb Ht Hs] Hn. cbn in *. unfold credit. pose proof (period_range r) as Hp.
  destruct (Z.leb_spec burst tokens) as [Hf|Hf].
  { split_and!; cbn; [constructor; cbn; lia|done|done|nia|lia|lia]. }
  assert (sat_i64 (now - stamp) = now - stamp) as -> by (unfold sat_i64, i64_max, i64_min in *; lia).
  assert (sat_u32 (burst - tokens) = burst - tokens) as -> by (unfold sat_u32; lia).
  rewrite Z.quot_div_nonneg by lia. set (p := period_ms r) in *. set (q := (now - stamp) / p).
  pose proof (Z.mul_div_le (now - stamp) p ltac:(lia)) as Hq. pose proof (Z.mul_succ_div_gt (now - stamp) p ltac:(lia)) as Hq'.
  fold q in Hq, Hq'. destruct (Z.leb_spec q 0) as [H0|H0].
  { split_and!; cbn; [constructor; cbn; lia|done|done|lia|fold p; nia|fold p; nia]. }
  set (added := Z.min q (burst - tokens)) in *. assert (0 < added ≤ burst - tokens) as Ha by lia.
  rewrite (proj2 (Z.leb_le 0 added)), (proj2 (Z.leb_le added u32_max)) by lia. cbn [andb].
  assert (sat_u32 (tokens + added) = tokens + added) as -> by (unfold sat_u32; lia).
  assert (0 ≤ added * p ≤ q * p) as Hap by nia.
  assert (sat_i64 (added * p) = added * p) as -> by (unfold sat_i64, i64_max, i64_min in *; nia).
  assert (sat_i64 (stamp + added * p) = stamp + added * p) as -> by (unfold sat_i64, i64_max, i64_min in *; nia).
  assert (p ≤ now - stamp) as Hps by nia.
  destruct (Z.leb_spec burst (tokens + added)); (split_and!; cbn; [constructor; cbn; nia|done|done|fold p; nia|fold p; nia|fold p; lia]).
Qed.

Lemma try_take_ok b t now :
  bucket_ok b t → t ≤ now ≤ i64_max →
  let '(ok, b') := try_take b now in
  bucket_ok b' now ∧ bk_burst b' = bk_burst b ∧ bk_refill_ms b' = bk_refill_ms b ∧
  credit b' + (if ok then period_ms (bk_refill_ms b) else 0) ≤
    Z.min (credit b) (bk_burst b * period_ms (bk_refill_ms b) - now).
Proof.
  intros Ho Hn. destruct (refill_ok b t now Ho Hn) as (Ho' & Eb & Er & Hc & Hc' & _). unfold try_take.
  destruct (bk_refill b now) as [burst r tokens stamp]. cbn in *. subst. unfold credit in *. cbn in *. destruct Ho' as [H1 H2 H3]. cbn in *.
  destruct (Z.eqb_spec tokens 0); (split_and!; cbn; [constructor; cbn; lia|done|done|lia]).
Qed.

(** Times that do not go back, from [t] on. *)
Fixpoint ordered_from (t : Z) (times : list Z) : Prop :=
  match times with [] => True | t' :: times' => t ≤ t' ≤ i64_max ∧ ordered_from t' times' end.

Lemma default_last (t t' : Z) times : default t (last (t' :: times)) = default t' (last times).
Proof. destruct times as [|u times]; [done|]. rewrite last_cons_cons. by destruct (last (u :: times)) eqn:E; [|apply last_None in E]. Qed.

(** Taking spends the credit that there is. *)
Lemma take_all_spends b t times :
  bucket_ok b t → ordered_from t times →
  let '(oks, b') := take_all b times in
  bucket_ok b' (default t (last times)) ∧ bk_burst b' = bk_burst b ∧ bk_refill_ms b' = bk_refill_ms b ∧
  Z.of_nat (length (List.filter id oks)) * period_ms (bk_refill_ms b) ≤ credit b - credit b'.
Proof.
  revert b t. induction times as [|t' times IH]; intros b t Ho Hs; cbn [take_all].
  { split_and!; [done..|]. cbn. lia. }
  destruct Hs as [Ht Hs]. pose proof (try_take_ok b t t' Ho Ht) as Hk. destruct (try_take b t') as [ok b1].
  destruct Hk as (Ho1 & Eb & Er & Hc). specialize (IH b1 t' Ho1 Hs). destruct (take_all b1 times) as [oks b2].
  destruct IH as (Ho2 & Eb2 & Er2 & Hc2). rewrite Er in Hc2. split_and!.
  - by rewrite default_last.
  - congruence.
  - congruence.
  - destruct ok; cbn [List.filter id length] in *; lia.
Qed.

(** Sessions are notified at a bounded rate. However often a bucket is asked,
    between any two of its answers it gives out no more tokens than its burst and
    one for each whole period that passed between them. *)
Theorem bucket_rate b0 r now before first times :
  0 ≤ b0 ≤ u32_max → 0 ≤ now → ordered_from now (before ++ first :: times) →
  taken (take_all (new_bucket b0 r now) before).2 (first :: times) ≤
    b0 + (default first (last times) - first) / period_ms r.
Proof.
  intros Hb Hn Ho. assert (bucket_ok (new_bucket b0 r now) now) as Hok by (constructor; cbn; lia).
  assert (ordered_from now before ∧ ordered_from (default now (last before)) (first :: times)) as [Ho1 Ho2].
  { clear Hb Hok. revert now Hn Ho. induction before as [|t before IH]; intros now Hn Ho; [done|]. cbn [app ordered_from] in Ho.
    destruct Ho as [Ht Ho]. destruct (IH t ltac:(lia) Ho) as [IH1 IH2]. split; [by split|]. by rewrite default_last. }
  pose proof (take_all_spends _ _ _ Hok Ho1) as H1. destruct (take_all (new_bucket b0 r now) before) as [o1 b1].
  destruct H1 as (Hok1 & Eb & Er & _). cbn [new_bucket bk_burst bk_refill_ms] in Eb, Er. cbn [snd]. unfold taken. cbn [take_all].
  destruct Ho2 as [Hf Ho2]. pose proof (try_take_ok b1 _ first Hok1 Hf) as H2. destruct (try_take b1 first) as [ok b2].
  destruct H2 as (Hok2 & Eb2 & Er2 & Hc). pose proof (take_all_spends _ _ _ Hok2 Ho2) as H3.
  destruct (take_all b2 times) as [oks b3]. destruct H3 as (Hok3 & Eb3 & Er3 & Hc3). cbn [fst].
  rewrite Er2, Er in Hc3. rewrite Eb, Er in Hc. pose proof (period_range r) as Hp. set (p := period_ms r) in *.
  set (last_t := default first (last times)) in *. set (n := Z.of_nat (length (List.filter id (ok :: oks)))).
  assert (n * p ≤ b0 * p + (last_t - first)) as Hnp.
  { assert (- last_t ≤ credit b3) as Hlow by (destruct Hok3; unfold credit; rewrite Er3, Er2, Er; nia).
    unfold n. destruct ok; cbn [List.filter id length] in *; lia. }
  clearbody n. apply Z.le_sub_le_add_l. apply Z.div_le_lower_bound; [lia|]. lia.
Qed.

(** The time a bucket names is the first at which it gives a token. *)
Theorem next_at_exact b t now t' :
  bucket_ok b t → 0 < bk_burst b → t ≤ now → now ≤ t' ≤ i64_max →
  bk_stamp_ms b + period_ms (bk_refill_ms b) ≤ i64_max →
  (try_take b t').1 = true ↔ next_at b now ≤ t'.
Proof.
  intros Ho Hb Hn Ht Hs. destruct (refill_ok b t t' Ho ltac:(lia)) as (Ho' & _ & _ & _ & _ & Hiff). unfold try_take, next_at.
  pose proof (period_range (bk_refill_ms b)). destruct Ho as [H1 H2 H3]. destruct Ho' as [H1' H2' H3'].
  assert (sat_i64 (bk_stamp_ms b + period_ms (bk_refill_ms b)) = bk_stamp_ms b + period_ms (bk_refill_ms b)) as ->
    by (unfold sat_i64, i64_max, i64_min in *; lia).
  destruct (Z.eqb_spec (bk_tokens (bk_refill b t')) 0) as [E|E]; destruct (Z.ltb_spec 0 (bk_tokens b)); cbn [fst];
    (split; [intros; try done; lia|intros; try reflexivity; exfalso; lia]).
Qed.

(** Four requests within a period of a bucket of three. *)
Lemma bucket_rate_witness : taken (new_bucket 3 2000 0) [0; 10; 20; 1990] = 3.
Proof.
  pose proof (bucket_rate 3 2000 0 [] 0 [10; 20; 1990] ltac:(unfold u32_max; lia) ltac:(lia)) as H.
  cbn [app take_all snd ordered_from] in H.
  assert (taken (new_bucket 3 2000 0) [0; 10; 20; 1990] ≤ 3) as Hle.
  { etrans; [apply H; unfold i64_max; lia|]. by vm_compute. }
  apply Z.le_antisymm; [exact Hle|]. by vm_compute.
Defined.
