(* ===== verification/NotifyText.v ===== *)
(** * agora-mcp: what is whole in a notification

    The text of a channel notification as a sequence of lines, what a cut leaves
    of it, and why the count of whole messages is right ([cap_content] of
    [src/crates/agora-mcp/src/push.rs]). *)

From Stdlib Require Import Ascii.
From S2P Require Import Prelude F64 Strs PyFmt Bytes Task StoreDb Framing Notify.

(** ** Lines *)

(** A line is text, the opening tag of a block or its closing tag. *)
Inductive piece : Type := Plain (w : string) | Opens (w : string) | Closes.

Definition piece_text (p : piece) : string := match p with Plain w | Opens w => w | Closes => close_tag end.

Definition plain (w : string) : Prop :=
  contains_byte "<" w = false ∧ contains_byte ">" w = false ∧ contains_byte nl_byte w = false.

Definition piece_ok (p : piece) : Prop :=
  match p with
  | Plain w => plain w
  | Opens w => ∃ r, w = MESSAGE_OPEN +:+ r ∧ contains_byte "<" r = false ∧ contains_byte nl_byte r = false
  | Closes => True
  end.

Definition lines_text (l : list piece) : string := join newline (piece_text <$> l).

Definition closed (l : list piece) : nat :=
  foldr (λ p n, match p with Closes => S n | _ => n end) 0 l.

(** Whether a block is open after the lines. *)
Definition is_open (o : bool) (l : list piece) : bool :=
  foldl (λ o p, match p with Plain _ => o | Opens _ => true | Closes => false end) o l.

Lemma lines_text_cons p l : l ≠ [] → lines_text (p :: l) = piece_text p +:+ newline +:+ lines_text l.
Proof. by destruct l. Qed.

Lemma piece_no_nl p : piece_ok p → contains_byte nl_byte (piece_text p) = false.
Proof.
  destruct p as [w|w|]; cbn [piece_ok piece_text]; [by intros (_ & _ & ?)| |done].
  intros (r & -> & _ & H). rewrite contains_app, H. done.
Qed.

(** ** Searching in them *)

Lemma starts_with_cons x p c s : starts_with (String x p) (String c s) = byte_eqb x c && starts_with p s.
Proof.
  unfold starts_with. cbn [strip_prefix]. destruct (byte_eqb x c) eqn:E; cbn; [by destruct (strip_prefix p s)|].
  try rewrite E. done.
Qed.

Lemma lt_differs c : byte_eqb c "<" = false → byte_eqb "<" c = false.
Proof. intros H. destruct (byte_eqb "<" c) eqn:E; [|done]. apply byte_eqb_eq in E as <-. by rewrite byte_eqb_refl in H. Qed.

(** A text without an angle bracket holds the start of no tag. *)
Lemma count_plain p w s : contains_byte "<" w = false → count_matches 0 (String "<" p) (w +:+ s) = count_matches 0 (String "<" p) s.
Proof.
  induction w as [|c w IH]; [by rewrite str_app_nil_l|]. cbn [contains_byte]. intros [Hc Hw]%orb_false_iff.
  rewrite str_app_cons. cbn [count_matches]. rewrite starts_with_cons.
  assert (byte_eqb "<" c = false) as -> by (by apply lt_differs).
  cbn [andb]. by apply IH.
Qed.

Lemma count_skip p w s : count_matches (String.length w) p (w +:+ s) = count_matches 0 p s.
Proof. induction w as [|c w IH]; [by rewrite str_app_nil_l|]. rewrite str_app_cons. exact IH. Qed.

Lemma count_close s : count_matches 0 MESSAGE_CLOSE (close_tag +:+ s) = S (count_matches 0 MESSAGE_CLOSE s).
Proof.
  change close_tag with (String "<" "/untrusted-message>"). rewrite str_app_cons. cbn [count_matches].
  assert (starts_with MESSAGE_CLOSE (String "<" ("/untrusted-message>" +:+ s)) = true) as ->.
  { apply starts_with_true. by exists s. }
  exact (f_equal S (count_skip MESSAGE_CLOSE "/untrusted-message>" s)).
Qed.

Lemma count_open w s : piece_ok (Opens w) → count_matches 0 MESSAGE_CLOSE (w +:+ s) = count_matches 0 MESSAGE_CLOSE s.
Proof.
  intros (r & -> & Hr & _). rewrite str_app_assoc. change MESSAGE_OPEN with (String "<" (String "u" "ntrusted-message")).
  rewrite str_app_cons. cbn [count_matches]. unfold MESSAGE_CLOSE at 1. rewrite starts_with_cons, str_app_cons, starts_with_cons.
  change (byte_eqb "/" "u") with false. rewrite andb_false_r. rewrite <- str_app_cons. unfold MESSAGE_CLOSE.
  rewrite count_plain by done. by rewrite count_plain.
Qed.

Lemma count_piece p s :
  piece_ok p → count_matches 0 MESSAGE_CLOSE (piece_text p +:+ s) = closed [p] + count_matches 0 MESSAGE_CLOSE s.
Proof.
  destruct p as [w|w|]; intros H; cbn [piece_text closed foldr].
  - unfold MESSAGE_CLOSE. rewrite count_plain; [done|apply H].
  - by rewrite count_open.
  - by rewrite count_close.
Qed.

Lemma count_lines l : Forall piece_ok l → count_matches 0 MESSAGE_CLOSE (lines_text l) = closed l.
Proof.
  induction 1 as [|p l Hp Hl IH]; [done|]. destruct l as [|q l].
  - change (lines_text [p]) with (piece_text p). rewrite <- (str_app_nil_r (piece_text p)), count_piece by done. cbn. lia.
  - rewrite lines_text_cons by done. rewrite count_piece by done. unfold MESSAGE_CLOSE at 1. rewrite count_plain by done.
    fold MESSAGE_CLOSE. rewrite IH. destruct p; cbn; lia.
Qed.

Lemma contains_count p s : contains_str (String "<" p) s = negb (Nat.eqb (count_matches 0 (String "<" p) s) 0).
Proof.
  induction s as [|c s IH]; [done|]. cbn [contains_str count_matches]. destruct (starts_with _ _); [done|]. exact IH.
Qed.

Lemma rfind_plain w s : contains_byte "<" w = false → rfind_str MESSAGE_OPEN (w +:+ s) = Nat.add (String.length w) <$> rfind_str MESSAGE_OPEN s.
Proof.
  induction w as [|c w IH]; cbn [contains_byte String.length]; [intros _; rewrite str_app_nil_l; by destruct (rfind_str _ _)|].
  intros [Hc Hw]%orb_false_iff. rewrite str_app_cons. cbn [rfind_str]. rewrite IH by done.
  destruct (rfind_str MESSAGE_OPEN s) as [i|]; cbn [fmap option_fmap option_map]; [done|].
  unfold MESSAGE_OPEN. rewrite starts_with_cons.
  assert (byte_eqb "<" c = false) as -> by (by apply lt_differs). done.
Qed.

Lemma rfind_close s : rfind_str MESSAGE_OPEN (close_tag +:+ s) = Nat.add (String.length close_tag) <$> rfind_str MESSAGE_OPEN s.
Proof.
  change close_tag with (String "<" (String "/" "untrusted-message>")). rewrite str_app_cons. cbn [rfind_str].
  rewrite rfind_plain by done. destruct (rfind_str MESSAGE_OPEN s) as [i|]; cbn [fmap option_fmap option_map]; [done|].
  unfold MESSAGE_OPEN. rewrite starts_with_cons, str_app_cons, starts_with_cons. done.
Qed.

Lemma rfind_open w s : piece_ok (Opens w) →
  rfind_str MESSAGE_OPEN (w +:+ s) = Some (match rfind_str MESSAGE_OPEN s with Some i => String.length w + i | None => 0 end).
Proof.
  intros (r & -> & Hr & _).
  assert (rfind_str MESSAGE_OPEN ("untrusted-message" +:+ r +:+ s) =
    Nat.add (String.length "untrusted-message" + String.length r) <$> rfind_str MESSAGE_OPEN s) as E.
  { rewrite rfind_plain by done. rewrite rfind_plain by done. destruct (rfind_str MESSAGE_OPEN s); [|done].
    cbn [fmap option_fmap option_map]. f_equal; lia. }
  rewrite str_app_assoc. change (MESSAGE_OPEN +:+ r +:+ s) with (String "<" ("untrusted-message" +:+ r +:+ s)). cbn [rfind_str].
  rewrite E. destruct (rfind_str MESSAGE_OPEN s) as [i|]; cbn [fmap option_fmap option_map].
  - f_equal; by rewrite length_str_app.
  - assert (starts_with MESSAGE_OPEN (String "<" ("untrusted-message" +:+ r +:+ s)) = true) as -> by (apply starts_with_true; by exists (r +:+ s)).
    done.
Qed.

(** ** Open blocks *)

(** The last opening tag of the lines, and what comes after it. *)
Lemma rfind_lines l :
  Forall piece_ok l →
  match rfind_str MESSAGE_OPEN (lines_text l) with
  | None => Forall (λ p, ∀ w, p ≠ Opens w) l
  | Some i => ∃ a w b, l = a ++ Opens w :: b ∧ Forall (λ p, ∀ w, p ≠ Opens w) b ∧
                str_drop i (lines_text l) = lines_text (Opens w :: b)
  end.
Proof.
  induction 1 as [|p l Hp Hl IH]; [by constructor|].
  set (rest := match l with [] => "" | _ => newline +:+ lines_text l end).
  assert (lines_text (p :: l) = piece_text p +:+ rest) as E by (by destruct l; [rewrite str_app_nil_r|]).
  assert (rfind_str MESSAGE_OPEN rest = match l with [] => None | _ => S <$> rfind_str MESSAGE_OPEN (lines_text l) end) as Er.
  { unfold rest. destruct l; [done|]. rewrite rfind_plain by done. done. }
  assert (∀ i, rfind_str MESSAGE_OPEN rest = Some i → ∃ a w b, l = a ++ Opens w :: b ∧
    Forall (λ p, ∀ w, p ≠ Opens w) b ∧ str_drop i rest = lines_text (Opens w :: b)) as Hs.
  { intros i Hi. rewrite Er in Hi. unfold rest. destruct l as [|q l]; [done|].
    destruct (rfind_str MESSAGE_OPEN (lines_text (q :: l))) as [k|]; [|done]. cbn in Hi. injection Hi as <-. exact IH. }
  assert (rfind_str MESSAGE_OPEN rest = None → Forall (λ p, ∀ w, p ≠ Opens w) l) as Hn.
  { intros Hi. rewrite Er in Hi. destruct l as [|q l]; [constructor|].
    by destruct (rfind_str MESSAGE_OPEN (lines_text (q :: l))). }
  clear IH Er. rewrite E.
  assert (∀ i, rfind_str MESSAGE_OPEN rest = Some i → ∃ a w b, p :: l = a ++ Opens w :: b ∧
    Forall (λ p, ∀ w, p ≠ Opens w) b ∧ str_drop (String.length (piece_text p) + i) (piece_text p +:+ rest) = lines_text (Opens w :: b)) as Hs'.
  { intros i (a & w & b & -> & Hb & Hd)%Hs. exists (p :: a), w, b. split_and!; [done..|]. rewrite <- Hd.
    clear. induction (piece_text p) as [|c t IH]; [by rewrite str_app_nil_l|]. rewrite str_app_cons. exact IH. }
  clearbody rest. destruct p as [w|w|]; cbn [piece_text] in *.
  - rewrite rfind_plain by apply Hp. destruct (rfind_str MESSAGE_OPEN rest) as [i|]; cbn [fmap option_fmap option_map]; [by apply Hs'|].
    constructor; [done|by apply Hn].
  - rewrite rfind_open by done. destruct (rfind_str MESSAGE_OPEN rest) as [i|]; [by apply Hs'|].
    exists [], w, l. split_and!; [done|by apply Hn|]. symmetry. exact E.
  - rewrite rfind_close. destruct (rfind_str MESSAGE_OPEN rest) as [i|]; cbn [fmap option_fmap option_map]; [by apply Hs'|].
    constructor; [done|by apply Hn].
Qed.

Lemma is_open_app o a b : is_open o (a ++ b) = is_open (is_open o a) b.
Proof. apply foldl_app. Qed.

Lemma is_open_closing o b : Forall (λ p, ∀ w, p ≠ Opens w) b → is_open o b = o && Nat.eqb (closed b) 0.
Proof.
  intros H. revert o. induction H as [|p b Hp _ IH]; intros o; [by destruct o|]. cbn [is_open foldl]. fold (is_open o b).
  destruct p as [w|w|]; [apply IH|by destruct (Hp w)|]. unfold is_open in IH. rewrite IH. cbn. by rewrite andb_false_r.
Qed.

Lemma left_open_lines l : Forall piece_ok l → block_left_open (lines_text l) = is_open false l.
Proof.
  intros Hl. pose proof (rfind_lines l Hl) as H. unfold block_left_open. destruct (rfind_str _ _) as [i|].
  - destruct H as (a & w & b & -> & Hb & ->). apply Forall_app in Hl as [_ Hl]. unfold MESSAGE_CLOSE. rewrite contains_count.
    fold MESSAGE_CLOSE. rewrite count_lines by done. rewrite is_open_app. change (is_open (is_open false a) (Opens w :: b)) with (is_open true b).
    rewrite is_open_closing by done. cbn [closed foldr]. fold (closed b). by rewrite negb_involutive.
  - by rewrite is_open_closing.
Qed.

(** ** Cutting at a line break *)

Lemma split_lines l : l ≠ [] → Forall piece_ok l → split_byte nl_byte (lines_text l) = piece_text <$> l.
Proof.
  intros Hne H. induction H as [|p l Hp Hl IH]; [done|]. destruct l as [|q l].
  - change (lines_text [p]) with (piece_text p). rewrite split_none; [done|]. by apply piece_no_nl.
  - rewrite lines_text_cons by done. unfold newline. rewrite str_app_cons, str_app_nil_l, split_app, IH by done.
    rewrite split_none; [done|]. by apply piece_no_nl.
Qed.

(** The start of a text has the same lines, but for its last. *)
Lemma split_start x a b : ∃ w ws, split_byte x (a +:+ b) = removelast (split_byte x a) ++ w :: ws.
Proof.
  induction a as [|c a (w & ws & IH)].
  { rewrite str_app_nil_l. cbn. destruct (split_byte x b) as [|w ws] eqn:E; [by apply split_byte_ne in E|]. by exists w, ws. }
  rewrite str_app_cons. cbn [split_byte]. rewrite IH. destruct (split_byte x a) as [|v vs] eqn:E; [by apply split_byte_ne in E|].
  destruct (byte_eqb c x).
  - exists w, ws. done.
  - destruct vs as [|v' vs]; [by exists (String c w), ws|]. exists w, ws. done.
Qed.

(** A text up to its last line break is its lines but the last. *)
Lemma take_rfind x s : str_take (default 0 (rfind_byte x s)) s = join (String x "") (removelast (split_byte x s)).
Proof.
  induction s as [|c s IH]; [done|]. cbn [rfind_byte split_byte].
  assert (rfind_byte x s = None ↔ ∃ w, split_byte x s = [w]) as Hn.
  { clear IH. induction s as [|d s IHs]; [split; [by exists ""|done]|]. cbn [rfind_byte split_byte].
    destruct (byte_eqb d x).
    - split; [by destruct (rfind_byte x s)|]. intros [w Hw]. injection Hw as _ Hw. by apply split_byte_ne in Hw.
    - destruct (rfind_byte x s) as [i|] eqn:Ei.
      + split; [done|]. intros [w Hw]. destruct (split_byte x s) as [|v [|v' vs]] eqn:Es; [by apply split_byte_ne in Es| |done].
        by assert (Some i = None) by (apply IHs; by exists v).
      + split; [|done]. intros _. destruct IHs as [[w ->] _]; [done|]. by exists (String d w). }
  destruct (split_byte x s) as [|w ws] eqn:Es; [by apply split_byte_ne in Es|].
  destruct (rfind_byte x s) as [i|] eqn:Ei; cbn [default from_option] in *; unfold id in *.
  - destruct ws as [|w' ws]; [by assert (Some i = None) by (apply Hn; by exists w)|].
    change (str_take (S i) (String c s)) with (String c (str_take i s)). rewrite IH.
    destruct (byte_eqb c x) eqn:Ec.
    + apply byte_eqb_eq in Ec as ->. change (removelast ("" :: w :: w' :: ws)) with ("" :: removelast (w :: w' :: ws)).
      by destruct (removelast (w :: w' :: ws)) eqn:Er; [|].
    + change (removelast (String c w :: w' :: ws)) with (String c w :: removelast (w' :: ws)).
      change (removelast (w :: w' :: ws)) with (w :: removelast (w' :: ws)). by destruct (removelast (w' :: ws)).
  - destruct (proj1 Hn eq_refl) as [v Hv]. injection Hv as -> ->.
    destruct (byte_eqb c x); done.
Qed.

Lemma cut_lines l e :
  Forall piece_ok l →
  let c := str_take e (lines_text l) in
  ∃ k, str_take (default 0 (rfind_byte nl_byte c)) c = lines_text (firstn k l).
Proof.
  intros Hl c. rewrite take_rfind. destruct (decide (l = [])) as [->|Hne].
  { exists 0. unfold c. by destruct e. }
  destruct (split_start nl_byte c (str_drop e (lines_text l))) as (w & ws & E). unfold c in E at 1. rewrite str_take_drop in E.
  rewrite split_lines in E by done. exists (length (removelast (split_byte nl_byte c))).
  unfold lines_text. rewrite fmap_take, E, take_app_length. done.
Qed.

(** ** Blocks *)

(** The opening tag of a block and the lines between its tags. *)
Definition block_pieces (b : string * list string) : list piece := Opens b.1 :: (Plain <$> b.2) ++ [Closes].

Definition block_ok (b : string * list string) : Prop := piece_ok (Opens b.1) ∧ Forall plain b.2.

Definition blocks_pieces (bs : list (string * list string)) : list piece := concat (block_pieces <$> bs).

Lemma plain_pieces ws : Forall plain ws → Forall piece_ok (Plain <$> ws).
Proof. intros H. by apply Forall_fmap. Qed.

Lemma block_pieces_ok b : block_ok b → Forall piece_ok (block_pieces b).
Proof. intros [Ho Hi]. constructor; [done|]. apply Forall_app. split; [by apply plain_pieces|by constructor]. Qed.

Lemma blocks_pieces_ok bs : Forall block_ok bs → Forall piece_ok (blocks_pieces bs).
Proof.
  induction 1 as [|b bs Hb _ IH]; [constructor|]. apply Forall_app. split; [by apply block_pieces_ok|exact IH].
Qed.

Lemma plain_closed ws : closed (Plain <$> ws) = 0 ∧ ∀ o, is_open o (Plain <$> ws) = o.
Proof. induction ws as [|w ws [IH1 IH2]]; [done|]. split; [exact IH1|]. intros o. apply IH2. Qed.

Lemma closed_app a b : closed (a ++ b) = closed a + closed b.
Proof. unfold closed. induction a as [|p a IH]; [done|]. cbn. rewrite IH. destruct p; done. Qed.

Lemma block_closed b o : closed (block_pieces b) = 1 ∧ is_open o (block_pieces b) = false.
Proof.
  change (block_pieces b) with ([Opens b.1] ++ (Plain <$> b.2) ++ [Closes]). destruct (plain_closed b.2) as [Ec _].
  rewrite !closed_app, Ec, !is_open_app. done.
Qed.

Lemma blocks_closed bs : closed (blocks_pieces bs) = length bs ∧ is_open false (blocks_pieces bs) = false.
Proof.
  induction bs as [|b bs [IH1 IH2]]; [done|]. change (blocks_pieces (b :: bs)) with (block_pieces b ++ blocks_pieces bs).
  destruct (block_closed b false) as [E1 E2]. by rewrite closed_app, is_open_app, E1, E2, IH1, IH2.
Qed.

(** What is left of the lines of some blocks and a trailer: whole blocks and
    then some of the trailer, or the start of a block. *)
Lemma take_blocks k bs tail :
  ∃ j part, firstn k (blocks_pieces bs ++ (Plain <$> tail)) = blocks_pieces (firstn j bs) ++ part ∧
    ((length bs ≤ j ∧ ∃ i, part = Plain <$> firstn i tail) ∨
     (j < length bs ∧ part = []) ∨
     ∃ b i, bs !! j = Some b ∧ part = Opens b.1 :: (Plain <$> firstn i b.2)).
Proof.
  revert k. induction bs as [|b bs IH]; intros k.
  { exists 0, (firstn k (Plain <$> tail)). split; [done|]. left. split; [done|]. exists k. by rewrite fmap_take. }
  change (blocks_pieces (b :: bs)) with (block_pieces b ++ blocks_pieces bs). rewrite <- app_assoc.
  destruct (decide (length (block_pieces b) ≤ k)) as [Hk|Hk].
  - rewrite take_app_ge by done. destruct (IH (k - length (block_pieces b))) as (j & part & -> & Hp).
    exists (S j), part. split; [cbn [firstn]; by rewrite app_assoc|]. cbn [length].
    destruct Hp as [[? Hi]|[[? ->]|(b' & i & ? & ->)]]; [left; split; [lia|done]|right; left; split; [lia|done]|].
    right. right. by exists b', i.
  - rewrite take_app_le by lia. exists 0. unfold block_pieces in *. destruct k as [|k].
    + exists []. split; [done|]. right. left. cbn. split; [lia|done].
    + cbn [firstn length] in *. rewrite length_app, length_fmap in Hk. cbn in Hk. rewrite take_app_le by (rewrite length_fmap; lia).
      eexists. split; [reflexivity|]. right. right. exists b, k. split; [done|]. by rewrite fmap_take.
Qed.

(** ** Messages as blocks *)

Lemma open_tag_opens m : piece_ok (Opens (open_tag m)).
Proof.
  exists (attrs_text (tag_attrs m) +:+ ">"). pose proof (tag_attrs_line m) as H. split; [done|].
  rewrite !contains_app, !contains_attrs by done. done.
Qed.

Lemma split_plain s : contains_byte "<" s = false → contains_byte ">" s = false → Forall plain (split_byte nl_byte s).
Proof.
  intros H1 H2. assert (∀ x, contains_byte x s = false → Forall (λ w, contains_byte x w = false) (split_byte nl_byte s)) as Hx.
  { clear. intros x. induction s as [|c s IH]; [by repeat constructor|]. cbn [contains_byte split_byte].
    intros [Hc Hs]%orb_false_iff. specialize (IH Hs). destruct (byte_eqb c nl_byte); [by constructor|].
    destruct (split_byte nl_byte s); [repeat constructor; cbn; by rewrite Hc|]. inversion_clear IH. constructor; [|done].
    cbn. by rewrite Hc. }
  pose proof (Hx _ H1) as Hp1. pose proof (Hx _ H2) as Hp2. pose proof (split_parts nl_byte s) as Hp3.
  rewrite Forall_forall in Hp1, Hp2, Hp3 |- *. intros w Hw. split_and!; auto.
Qed.

Lemma block_text o inner : lines_text (block_pieces (o, inner)) = join newline (o :: inner ++ [close_tag]).
Proof.
  unfold lines_text, block_pieces. cbn [fmap list_fmap fst snd]. rewrite fmap_app, <- list_fmap_compose. f_equal. f_equal.
  f_equal. induction inner; [done|]. cbn. f_equal. done.
Qed.

Lemma shown_block i m s :
  shown_as i m s → ∃ inner, s = lines_text (block_pieces (open_tag m, inner)) ∧ Forall plain inner.
Proof.
  intros [->|[_ ->]].
  - pose proof (inner_no_bracket _ (message_inner_inner m)) as [H1 H2].
    exists (split_byte nl_byte (message_inner m)). split; [|by apply split_plain]. rewrite block_text, frame_message_text.
    set (ws := split_byte nl_byte (message_inner m)). change (open_tag m :: ws ++ [close_tag]) with ([open_tag m] ++ ws ++ [close_tag]).
    rewrite join_app by (done || by destruct ws). rewrite join_app by (done || apply split_byte_ne).
    unfold ws. rewrite (join_split nl_byte). done.
  - exists ["[message too long to show here; call read]"]. rewrite block_text. split; [done|]. by repeat constructor.
Qed.

Lemma shows_blocks i msgs blocks :
  shows i msgs blocks → ∃ bs, blocks = lines_text ∘ block_pieces <$> bs ∧ Forall block_ok bs ∧
    ∀ j b, bs !! j = Some b → ∃ m, msgs !! j = Some m ∧ b.1 = open_tag m.
Proof.
  revert i msgs. induction blocks as [|s blocks IH]; intros i msgs; cbn [shows]; [by exists []|].
  destruct msgs as [|m msgs]; [done|]. intros [(inner & -> & Hi)%shown_block (bs & -> & Hb & Hm)%IH].
  exists ((open_tag m, inner) :: bs). split_and!; [done|constructor; [split; [apply open_tag_opens|done]|done]|].
  intros [|j] b Hj; [injection Hj as <-; by exists m|]. by apply Hm.
Qed.

Lemma shows_take i msgs blocks j : shows i msgs blocks → shows i msgs (firstn j blocks).
Proof.
  revert i blocks j. induction msgs as [|m msgs IH]; intros i [|b blocks] [|j]; try done. cbn.
  intros [? ?]. split; [done|]. by apply IH.
Qed.

(** ** Notifications *)

(** The first line, the blocks, and the lines that count what is left out. *)
Definition notification_pieces (bs : list (string * list string)) (tail : list string) : list piece :=
  Plain UNTRUSTED_NOTICE :: blocks_pieces bs ++ (Plain <$> tail).

Lemma dec_plain a b n : plain a → plain b → plain (a +:+ dec n +:+ b).
Proof.
  intros (A1 & A2 & A3) (B1 & B2 & B3). pose proof (dec_line n) as H.
  split_and!; rewrite !contains_app, (text_of_contains line_char (dec n)), ?A1, ?A2, ?A3, ?B1, ?B2, ?B3 by done; done.
Qed.

Lemma hidden_plain n : Forall plain (option_list (hidden_line n)).
Proof.
  unfold hidden_line. destruct (Nat.ltb 0 n); cbn; [|constructor]. constructor; [|constructor].
  change ("[" +:+ dec (Z.of_nat n) +:+ ?s) with ("[" +:+ dec (Z.of_nat n) +:+ s). apply dec_plain; [done|].
  by destruct (Nat.eqb n 1).
Qed.

Lemma more_plain n : ∃ ws, Forall plain ws ∧ more_line n = foldr (λ w acc, newline +:+ w +:+ acc) "" ws.
Proof.
  unfold more_line. destruct (Nat.ltb 0 n); [|exists []; by split].
  exists ["[+" +:+ dec (Z.of_nat n) +:+ " more unread; call inbox]"]. split; [|cbn [foldr]; by rewrite str_app_nil_r].
  constructor; [|constructor]. by apply dec_plain.
Qed.

(** Lines after a first one. *)
Definition after_lines (ws : list string) : string := foldr (λ w acc, newline +:+ w +:+ acc) "" ws.

Lemma lines_text_first p l : lines_text (p :: l) = piece_text p +:+ after_lines (piece_text <$> l).
Proof.
  revert p. induction l as [|q l IH]; intros p; [by cbn; rewrite str_app_nil_r|].
  rewrite lines_text_cons by done. by rewrite IH.
Qed.

Lemma after_lines_app a b : after_lines (a ++ b) = after_lines a +:+ after_lines b.
Proof.
  induction a as [|w a IH]; [done|]. change (after_lines ((w :: a) ++ b)) with (newline +:+ w +:+ after_lines (a ++ b)).
  change (after_lines (w :: a)) with (newline +:+ w +:+ after_lines a). by rewrite IH, !str_app_assoc.
Qed.

Lemma after_lines_cons w ws : after_lines (w :: ws) = newline +:+ w +:+ after_lines ws.
Proof. done. Qed.

Lemma after_blocks bs : after_lines (piece_text <$> blocks_pieces bs) = after_lines (lines_text ∘ block_pieces <$> bs).
Proof.
  induction bs as [|b bs IH]; [done|]. change (blocks_pieces (b :: bs)) with (block_pieces b ++ blocks_pieces bs).
  rewrite fmap_app, after_lines_app, IH, fmap_cons, after_lines_cons. unfold compose at 2.
  unfold block_pieces at 1 3. rewrite lines_text_first, fmap_cons, after_lines_cons. by rewrite !str_app_assoc.
Qed.

Lemma plain_text (ws : list string) : piece_text <$> (Plain <$> ws) = ws.
Proof. rewrite <- list_fmap_compose. induction ws; [done|]. cbn. f_equal. done. Qed.

Lemma after_plain ws : Forall plain ws → contains_byte "<" (after_lines ws) = false ∧ contains_byte ">" (after_lines ws) = false.
Proof.
  induction 1 as [|w ws (H1 & H2 & _) _ [IH1 IH2]]; [done|]. cbn [after_lines foldr]. fold (after_lines ws).
  by rewrite !contains_app, H1, H2, IH1, IH2.
Qed.

(** The content before it is cut. *)
Lemma batch_pieces msgs more :
  (∃ ws, frame_batch msgs +:+ more_line more = after_lines ws ∧ Forall plain ws) ∨
  ∃ bs tail, frame_batch msgs +:+ more_line more = lines_text (notification_pieces bs tail) ∧
    Forall block_ok bs ∧ Forall plain tail ∧ shows 0 msgs (lines_text ∘ block_pieces <$> bs) ∧
    ∀ j b, bs !! j = Some b → ∃ m, msgs !! j = Some m ∧ b.1 = open_tag m.
Proof.
  unfold frame_batch. pose proof (frame_batch_spec msgs MAX_FRAMED_BYTES) as H.
  destruct (frame_batch_within msgs MAX_FRAMED_BYTES) as [text shown]. cbn [fst].
  destruct (more_plain more) as (ws & Hw & ->). fold (after_lines ws).
  destruct H as (_ & _ & [(-> & _)|(blocks & _ & Hs & -> & _)]); [left; by exists ws|right].
  destruct (shows_blocks _ _ _ Hs) as (bs & -> & Hb & Hm).
  exists bs, (option_list (hidden_line (length msgs - shown)) ++ ws). split_and!; [|done|apply Forall_app; split; [apply hidden_plain|done]|done|done].
  unfold notification_pieces. rewrite lines_text_first, !fmap_app, !plain_text, !after_lines_app, after_blocks. cbn [piece_text].
  set (l := (lines_text ∘ block_pieces <$> bs) ++ option_list (hidden_line (length msgs - shown))).
  assert (join newline (UNTRUSTED_NOTICE :: l) = UNTRUSTED_NOTICE +:+ after_lines l) as ->.
  { clearbody l. clear. generalize UNTRUSTED_NOTICE as w. induction l as [|v l IH]; intros w; [by cbn; rewrite str_app_nil_r|].
    change (join newline (w :: v :: l)) with (w +:+ newline +:+ join newline (v :: l)). by rewrite IH. }
  unfold l. rewrite after_lines_app. by rewrite !str_app_assoc.
Qed.

Lemma floor_boundary_le s e : floor_boundary s e ≤ e.
Proof. induction e as [|e IH]; cbn; destruct (is_char_boundary _ _); lia. Qed.

Lemma cap_content_length content max :
  String.length TRUNCATION_MARKER ≤ max → String.length (cap_content content max).1 ≤ max.
Proof.
  intros Hm. unfold cap_content. destruct (Nat.leb_spec (String.length content) max); [done|]. cbn [fst].
  pose proof (floor_boundary_le content (min (max - TRUNCATION_RESERVE) (String.length content))) as Hf.
  set (e := floor_boundary _ _) in *. set (c := str_take (default 0 _) _).
  assert (String.length c ≤ max - TRUNCATION_RESERVE) as Hc by (unfold c; rewrite !length_str_take; lia).
  rewrite length_str_app. change (String.length TRUNCATION_MARKER) with 24 in *. unfold TRUNCATION_RESERVE in *.
  destruct (block_left_open c) eqn:Eo; [|lia]. rewrite length_str_app. change (String.length MESSAGE_CLOSE) with 20.
  destruct c as [|x c]; [done|]. cbn [String.length] in *. lia.
Qed.

(** Whole blocks, one more that the cut closes, and text without a tag. *)
Definition notification_shape (shown : list Value) (content : string) (whole : nat) : Prop :=
  ∃ head blocks cut tail, content = head +:+ after_lines blocks +:+ cut +:+ tail ∧
    length blocks = whole ∧ shows 0 shown blocks ∧
    (head = UNTRUSTED_NOTICE ∨ head = "" ∧ blocks = [] ∧ cut = "") ∧
    contains_byte "<" tail = false ∧ contains_byte ">" tail = false ∧
    (cut = "" ∨ ∃ m inner, shown !! whole = Some m ∧ contains_byte "<" inner = false ∧ contains_byte ">" inner = false ∧
       cut = newline +:+ open_tag m +:+ inner +:+ close_tag).

Lemma shape_plain shown s : contains_byte "<" s = false → contains_byte ">" s = false → notification_shape shown s 0.
Proof. intros. exists "", [], "", s. split_and!; [done..|by destruct shown|by right|done|done|by left]. Qed.

Lemma contains_take x n s : contains_byte x s = false → contains_byte x (str_take n s) = false.
Proof. intros H. rewrite <- (str_take_drop n s), contains_app in H. by apply orb_false_iff in H as [? _]. Qed.

Lemma plain_no_blocks s : contains_byte "<" s = false → count_matches 0 MESSAGE_CLOSE s = 0 ∧ block_left_open s = false.
Proof.
  intros H. rewrite <- (str_app_nil_r s). unfold MESSAGE_CLOSE at 1, block_left_open. rewrite count_plain, rfind_plain by done. done.
Qed.

Lemma shape_whole shown bs ws s :
  shows 0 shown (lines_text ∘ block_pieces <$> bs) → Forall plain ws → contains_byte "<" s = false → contains_byte ">" s = false →
  notification_shape shown (lines_text (notification_pieces bs ws) +:+ s) (length bs).
Proof.
  intros Hs Hw H1 H2. destruct (after_plain ws Hw) as [E1 E2].
  exists UNTRUSTED_NOTICE, (lines_text ∘ block_pieces <$> bs), "", (after_lines ws +:+ s). unfold notification_pieces.
  rewrite lines_text_first, fmap_app, plain_text, after_lines_app, after_blocks. split_and!.
  - by rewrite !str_app_assoc.
  - apply length_fmap.
  - done.
  - by left.
  - by rewrite contains_app, E1.
  - by rewrite contains_app, E2.
  - by left.
Qed.

Lemma notification_pieces_ok bs ws : Forall block_ok bs → Forall plain ws → Forall piece_ok (notification_pieces bs ws).
Proof.
  intros. constructor; [done|]. apply Forall_app. split; [by apply blocks_pieces_ok|by apply plain_pieces].
Qed.

Lemma notification_closed bs ws : closed (notification_pieces bs ws) = length bs ∧ is_open false (notification_pieces bs ws) = false.
Proof.
  change (notification_pieces bs ws) with ([Plain UNTRUSTED_NOTICE] ++ blocks_pieces bs ++ (Plain <$> ws)).
  destruct (blocks_closed bs) as [E1 E2]. destruct (plain_closed ws) as [E3 E4].
  rewrite !closed_app, !is_open_app, E1, E3. cbn [is_open foldl]. fold (is_open false (blocks_pieces bs)). rewrite E2, E4.
  split; [cbn; lia|done].
Qed.

(** A cut inside a block. *)
Lemma shape_cut shown bs b m ws s :
  shows 0 shown (lines_text ∘ block_pieces <$> bs) → shown !! length bs = Some m → b = open_tag m → Forall plain ws →
  contains_byte "<" s = false → contains_byte ">" s = false →
  notification_shape shown ((lines_text (Plain UNTRUSTED_NOTICE :: blocks_pieces bs ++ Opens b :: (Plain <$> ws)) +:+ MESSAGE_CLOSE) +:+ s)
    (length bs).
Proof.
  intros Hs Hm -> Hw H1 H2. destruct (after_plain ws Hw) as [E1 E2].
  exists UNTRUSTED_NOTICE, (lines_text ∘ block_pieces <$> bs), (newline +:+ open_tag m +:+ after_lines ws +:+ close_tag), s.
  rewrite lines_text_first, fmap_app, fmap_cons, plain_text, after_lines_app, after_lines_cons, after_blocks. split_and!.
  - by rewrite !str_app_assoc.
  - apply length_fmap.
  - done.
  - by left.
  - done.
  - done.
  - right. by exists m, (after_lines ws).
Qed.

Lemma cut_open bs b ws : closed (Plain UNTRUSTED_NOTICE :: blocks_pieces bs ++ Opens b :: (Plain <$> ws)) = length bs ∧
  is_open false (Plain UNTRUSTED_NOTICE :: blocks_pieces bs ++ Opens b :: (Plain <$> ws)) = true.
Proof.
  change (Plain UNTRUSTED_NOTICE :: blocks_pieces bs ++ Opens b :: (Plain <$> ws)) with
    ([Plain UNTRUSTED_NOTICE] ++ blocks_pieces bs ++ [Opens b] ++ (Plain <$> ws)).
  destruct (blocks_closed bs) as [E1 _]. destruct (plain_closed ws) as [E3 E4]. rewrite !closed_app, !is_open_app, E1, E3, E4.
  split; [cbn; lia|done].
Qed.

Lemma cap_shape shown more max s :
  contains_byte "<" s = false → contains_byte ">" s = false →
  let '(content, whole) := cap_content (frame_batch shown +:+ more_line more) max in
  notification_shape shown (content +:+ s) whole.
Proof.
  intros H1 H2. destruct (batch_pieces shown more) as [(ws & -> & Hw)|(bs & tail & -> & Hb & Ht & Hs & Hm)]; unfold cap_content.
  - destruct (after_plain ws Hw) as [E1 E2]. destruct (Nat.leb _ _).
    + rewrite (proj1 (plain_no_blocks _ E1)). apply shape_plain; rewrite contains_app, ?E1, ?E2; done.
    + set (c := str_take (default 0 _) _). assert (contains_byte "<" c = false) as Ec1 by (by do 2 apply contains_take).
      assert (contains_byte ">" c = false) as Ec2 by (by do 2 apply contains_take).
      destruct (plain_no_blocks _ Ec1) as [-> ->]. apply shape_plain; rewrite !contains_app, ?Ec1, ?Ec2; done.
  - pose proof (notification_pieces_ok bs tail Hb Ht) as Hok. destruct (Nat.leb _ _).
    { rewrite count_lines, (proj1 (notification_closed bs tail)) by done. by apply shape_whole. }
    set (e := floor_boundary _ _). destruct (cut_lines (notification_pieces bs tail) e Hok) as [k ->].
    assert (contains_byte "<" (TRUNCATION_MARKER +:+ s) = false ∧ contains_byte ">" (TRUNCATION_MARKER +:+ s) = false) as [M1 M2]
      by (by rewrite !contains_app).
    destruct k as [|k]; [by apply shape_plain|]. cbn [firstn notification_pieces].
    destruct (take_blocks k bs tail) as (j & part & -> & Hp).
    assert (Forall block_ok (firstn j bs)) as Hbj by (by apply Forall_take).
    assert (shows 0 shown (lines_text ∘ block_pieces <$> firstn j bs)) as Hsj by (rewrite fmap_take; by apply shows_take).
    assert (∀ ws, Forall plain ws → part = Plain <$> ws →
      let l := Plain UNTRUSTED_NOTICE :: blocks_pieces (firstn j bs) ++ part in
      notification_shape shown (((if block_left_open (lines_text l) then lines_text l +:+ MESSAGE_CLOSE else lines_text l) +:+
        TRUNCATION_MARKER) +:+ s) (count_matches 0 MESSAGE_CLOSE (lines_text l))) as Hplain.
    { intros ws Hw -> l. assert (Forall piece_ok l) as Hl by (by apply notification_pieces_ok).
      rewrite left_open_lines, count_lines by done. destruct (notification_closed (firstn j bs) ws) as [Ec Eo].
      change l with (notification_pieces (firstn j bs) ws). rewrite Ec, Eo, str_app_assoc. by apply shape_whole. }
    destruct Hp as [(_ & i & Hp)|[(_ & Hp)|(b & i & Hj & ->)]].
    + by apply (Hplain (firstn i tail)); [apply Forall_take|].
    + by apply (Hplain []); [constructor|].
    + destruct (Hm j b Hj) as (m & Em & Eb). pose proof (lookup_lt_Some _ _ _ Hj) as Hlt.
      destruct (proj1 (Forall_lookup _ _) Hb j b Hj) as [Ho Hi].
      assert (length (firstn j bs) = j) as Elen by (rewrite length_take; lia).
      rewrite left_open_lines, count_lines; [|constructor; [done|]; apply Forall_app; split; [by apply blocks_pieces_ok|];
        constructor; [done|by apply plain_pieces, Forall_take]..].
      destruct (cut_open (firstn j bs) b.1 (firstn i b.2)) as [-> ->]. rewrite str_app_assoc.
      eapply shape_cut; try done; [by rewrite Elen|by apply Forall_take].
Qed.

(** C27: a notification is bounded and says what is whole in it. The text sent
    to a session is never longer than its limit. It has the notice and then the
    frames of the first messages in order, exactly as many as are counted as
    whole (the session mark moves over those only); after them there may be the
    start of the next message's frame, closed where it was cut, and the rest has
    no angle bracket: no text of a message stands outside of its frame. *)
Theorem notification_whole msgs cfg :
  String.length READ_HINT + String.length TRUNCATION_MARKER ≤ max_content_bytes cfg →
  let '(content, whole) := notification_content msgs cfg in
  String.length content ≤ max_content_bytes cfg ∧ notification_shape (firstn (max_messages cfg) msgs) content whole.
Proof.
  intros Hm. unfold notification_content.
  assert ((if Nat.leb (max_messages cfg) (length msgs) then firstn (max_messages cfg) msgs else msgs) = firstn (max_messages cfg) msgs) as ->.
  { destruct (Nat.leb_spec (max_messages cfg) (length msgs)); [done|]. by rewrite take_ge by lia. }
  set (shown := firstn _ _). pose proof (cap_shape shown (length msgs - length shown)
    (max_content_bytes cfg - String.length READ_HINT) READ_HINT eq_refl eq_refl) as Hs.
  pose proof (cap_content_length (frame_batch shown +:+ more_line (length msgs - length shown))
    (max_content_bytes cfg - String.length READ_HINT) ltac:(lia)) as Hl.
  destruct (cap_content _ _) as [content whole]. cbn [fst] in Hl. split; [|done]. rewrite length_str_app. lia.
Qed.

(** Two messages, and a limit that the second does not fit in. *)
Definition long_line : string :=
  "that is cut because it is a good deal longer than what the limit leaves for a second message in one notification".

Definition two_messages : list Value :=
  [VObject [("channel", VString "room"); ("seq", VNumber (NInt 1)); ("text", VString "first")];
   VObject [("channel", VString "room"); ("seq", VNumber (NInt 2)); ("text", VString ("a second one" +:+ newline +:+ long_line))]].

Definition small_push : PushConfig := mk_push_config 300 3 2000 5 460.

Lemma notification_whole_witness :
  (notification_content two_messages small_push).2 = 1 ∧
  notification_shape two_messages (notification_content two_messages small_push).1 1.
Proof.
  pose proof (notification_whole two_messages small_push ltac:(apply Nat.leb_le; by vm_compute)) as H.
  assert ((notification_content two_messages small_push).2 = 1) as E by (by vm_compute). split; [exact E|].
  destruct (notification_content two_messages small_push) as [content whole]. cbn [fst snd] in *. rewrite <- E. apply H.
Defined.
