(* ===== verification/SessionState.v ===== *)
(** * agora-client: the state of one agent session

    [src/crates/agora-client/src/session_state.rs] and
    [src/crates/agora-mcp/src/session_cursor.rs]: the cursor of what a session
    was shown, kept in a file that the hooks, the push task and the bridges
    share under a lock.  The files are a map from names to what is there; each
    call takes the outcomes of the system calls that may fail. *)

From Stdlib Require Import Ascii.
From S2P Require Import Prelude F64 Strs PyFmt Bytes Claims Task StoreDb Framing Notify.

Local Open Scope Z_scope.

Definition MAX_STATE_BYTES : nat := 64 * 1024.

Record SessionState : Type := mk_session {
  cursor : Z; stop_blocks : Z; rewake_owner : option string; updated_ms : Z }.

Definition session_default : SessionState := mk_session 0 0 None 0.

#[export] Instance SessionState_eq_dec : EqDecision SessionState.
Proof. solve_decision. Defined.

(** The ranges of the fields. *)
Definition session_ok (s : SessionState) : Prop :=
  i64_min ≤ cursor s ≤ i64_max ∧ 0 ≤ stop_blocks s ≤ u32_max ∧ i64_min ≤ updated_ms s ≤ i64_max.

(** The JSON of a state: what is written reads back, and takes some bytes for
    the numbers and six at most for a byte of the owner. *)
Class SessionCodec : Type := {
  state_of_json : string → option SessionState;
  state_to_json : SessionState → string }.

Class SessionCodecLaws (C : SessionCodec) : Prop := {
  state_json_back s : session_ok s → state_of_json (state_to_json s) = Some s;
  state_json_short s : session_ok s →
    (String.length (state_to_json s) ≤ 1024 + 6 * String.length (default "" (rewake_owner s)))%nat }.

(** ** Names *)

Section Key.
Context (sha256 : string → list byte).

Definition key_byte (b : byte) : bool :=
  is_ascii_alphanumeric b || byte_eqb b "_" || byte_eqb b "-".

Definition session_key (session_id : string) : string :=
  let rest := default session_id (strip_suffix ".jsonl" session_id) in
  if is_empty_str rest then "default"
  else if Nat.leb (String.length rest) 64 && str_all key_byte rest then rest
  else "h" +:+ hex_bytes (firstn 16 (sha256 rest)).

Lemma hex_bytes_name l : str_all key_byte (hex_bytes l) = true ∧ String.length (hex_bytes l) = (2 * length l)%nat.
Proof.
  unfold hex_bytes. induction l as [|b l [IH1 IH2]]; [done|]. cbn [fmap list_fmap concat_map foldr].
  fold (concat_map (hex_pad 2) (byte_val <$> l)). rewrite str_all_app, length_str_app, hex_pad_length, IH1, IH2.
  split; [|cbn; lia]. rewrite andb_true_r. apply hex_pad_all. by apply sixteen.
Qed.

(** A key is the name of a file: letters, digits, [_] and [-] only. *)
Lemma session_key_name session_id :
  session_key session_id ≠ "" ∧ str_all key_byte (session_key session_id) = true ∧
  (String.length (session_key session_id) ≤ 64)%nat.
Proof.
  unfold session_key. set (rest := default _ _). destruct (is_empty_str rest) eqn:Ee; [split_and!; [done|done|cbn; lia]|].
  destruct (hex_bytes_name (firstn 16 (sha256 rest))) as [Hn Hl]. rewrite length_take in Hl.
  destruct (Nat.leb_spec (String.length rest) 64) as [Hr|Hr]; cbn [andb]; [destruct (str_all key_byte rest) eqn:Ek|].
  1: { split_and!; [by destruct rest|done|done]. }
  all: rewrite str_app_cons, str_app_nil_l; cbn [str_all String.length]; rewrite Hn; split_and!; [done..|lia].
Qed.
End Key.

(** ** Files *)

Inductive node : Type := Regular (bytes : string) (mtime : Z) | Symlink | OtherNode.

(** What is at the path of a directory: nothing, a directory, a link to one, or
    something else. *)
Inductive dir_node : Type := DirMissing | DirReal | DirLink | DirNot.

Definition dir_visible (d : dir_node) : bool := match d with DirReal | DirLink => true | _ => false end.

(** [$AGORA_HOME]: the files below [hooks/sessions], and the locks that other
    processes hold. *)
Record home : Type := mk_home {
  hm_is_dir : bool; hm_hooks : dir_node; hm_sessions : dir_node;
  hm_files : gmap string node; hm_locked : gset string }.

Inductive io_error : Type := IoNotFound | IoInvalidInput | IoLoop | IoOther.

(** Whether the system calls of a run succeed, and the time they see. *)
Record io_env : Type := mk_io { io_mkdir : bool; io_open : bool; io_lock : bool; io_write : bool; io_now : Z }.

Definition json_name (key : string) : string := key +:+ ".json".
Definition lock_name (key : string) : string := key +:+ ".lock".

Definition with_files (f : gmap string node → gmap string node) (h : home) : home :=
  mk_home (hm_is_dir h) (hm_hooks h) (hm_sessions h) (f (hm_files h)) (hm_locked h).

Section State.
Context `{SC : SessionCodec}.

Definition read_state (n : option node) : option SessionState :=
  match n with
  | Some (Regular bytes _) =>
      if Nat.ltb MAX_STATE_BYTES (String.length bytes) then None else state_of_json bytes
  | _ => None
  end.

Definition find_file (h : home) (name : string) : option node :=
  if dir_visible (hm_hooks h) && dir_visible (hm_sessions h) then hm_files h !! name else None.

(** [key] is the [session_key] of a session id, here and below. *)
Definition load (h : home) (key : string) : SessionState :=
  default session_default (read_state (find_file h (json_name key))).

Definition make_private_dir (io : io_env) (d : dir_node) : result io_error dir_node :=
  match d with
  | DirMissing => if io_mkdir io then Ok DirReal else Err IoOther
  | DirReal => Ok DirReal
  | DirLink | DirNot => Err IoInvalidInput
  end.

(** The directories are made one after the other; a new one is empty. *)
Definition session_dir (io : io_env) (h : home) : result io_error unit * home :=
  if negb (hm_is_dir h) then (Err IoNotFound, h)
  else match make_private_dir io (hm_hooks h) with
       | Err e => (Err e, h)
       | Ok hooks =>
           let sessions := match hm_hooks h with DirReal => hm_sessions h | _ => DirMissing end in
           match make_private_dir io sessions with
           | Err e => (Err e, mk_home true hooks sessions (hm_files h) (hm_locked h))
           | Ok dir =>
               let files := match sessions with DirReal => hm_files h | _ => ∅ end in
               (Ok tt, mk_home true hooks dir files (hm_locked h))
           end
       end.

Definition open_lock (io : io_env) (key : string) (h : home) : result io_error unit * home :=
  if negb (io_open io) then (Err IoOther, h)
  else match hm_files h !! lock_name key with
       | None => (Ok tt, with_files (<[lock_name key := Regular "" (io_now io)]>) h)
       | Some (Regular _ _) => (Ok tt, h)
       | Some Symlink => (Err IoLoop, h)
       | Some OtherNode => (Err IoInvalidInput, h)
       end.

(** [set_modified] on the lock file. *)
Definition touch_lock (io : io_env) (key : string) (h : home) : home :=
  with_files (λ fs, match fs !! lock_name key with
                    | Some (Regular b _) => <[lock_name key := Regular b (io_now io)]> fs
                    | _ => fs
                    end) h.

Inductive acquired : Type :=
| Waits                          (* another process holds the lock *)
| LockFailed (e : io_error) (h : home)
| Locked (s : SessionState) (h : home).

Definition acquire (io : io_env) (h : home) (key : string) : acquired :=
  match session_dir io h with
  | (Err e, h) => LockFailed e h
  | (Ok _, h) =>
      match open_lock io key h with
      | (Err e, h) => LockFailed e h
      | (Ok _, h) =>
          if bool_decide (key ∈ hm_locked h) then Waits
          else if negb (io_lock io) then LockFailed IoOther h
          else let h := touch_lock io key h in Locked (load h key) h
      end
  end.

(** The atomic save of a state under the lock: the old file or the new one. *)
Definition save (io : io_env) (key : string) (s : SessionState) (h : home) : result io_error unit * home :=
  if io_write io
  then (Ok tt, with_files (<[json_name key :=
          Regular (state_to_json (mk_session (cursor s) (stop_blocks s) (rewake_owner s) (io_now io))) (io_now io)]>) h)
  else (Err IoOther, h).

Definition set_cursor (c : Z) (s : SessionState) : SessionState :=
  mk_session c (stop_blocks s) (rewake_owner s) (updated_ms s).

Definition try_advance (io : io_env) (h : home) (key : string) (seq : Z) : result io_error bool * home :=
  match session_dir io h with
  | (Err e, h) => (Err e, h)
  | (Ok _, h) =>
      match open_lock io key h with
      | (Err e, h) => (Err e, h)
      | (Ok _, h) =>
          if bool_decide (key ∈ hm_locked h) then (Ok false, h)
          else if negb (io_lock io) then (Err IoOther, h)
          else
            let h := touch_lock io key h in
            let state := load h key in
            if seq <=? cursor state then (Ok false, h)
            else match save io key (set_cursor seq state) h with
                 | (Err e, h) => (Err e, h)
                 | (Ok _, h) => (Ok true, h)
                 end
      end
  end.

(** [gc]: the session files that are older than the age are removed. *)
Definition gc_name (name : string) : bool := ends_with ".json" name || ends_with ".lock" name || starts_with "." name.

Definition gc_old (cutoff : Z) (name : string) (n : node) : bool :=
  gc_name name && match n with Regular _ mtime => mtime <? cutoff | _ => false end.

Definition gc (h : home) (now_ms max_age_ms : Z) : home :=
  let cutoff := sat_i64 (now_ms - max_age_ms) in
  with_files (filter (λ kv, gc_old cutoff kv.1 kv.2 = false)) h.

(** ** The cursor of the push task ([session_cursor.rs]) *)

Definition MAX_ID_BYTES : nat := 256.

(** [raw] is the variable when it is set and UTF-8. *)
Definition parse_session (raw : option string) : option string :=
  match raw with
  | Some id => if negb (is_empty_str id) && Nat.leb (String.length id) MAX_ID_BYTES then Some id else None
  | None => None
  end.

Definition drop_delivered (h : home) (key : string) (msgs : list Value) : list Value :=
  let cursor := cursor (load h key) in
  List.filter (λ m, match seq_of m with Some seq => cursor <? seq | None => true end) msgs.

Definition mark_delivered (io : io_env) (h : home) (key : string) (max_seq : Z) : home :=
  (try_advance io h key max_seq).2.
End State.

(** ** What the calls do to the states *)

Section StateLaws.
Context `{SC : SessionCodec} {SL : SessionCodecLaws SC}.

Lemma names_differ a b : json_name a ≠ lock_name b.
Proof.
  unfold json_name, lock_name. intros E. assert (String.length a = String.length b) as Hl.
  { apply (f_equal String.length) in E. rewrite !length_str_app in E. cbn in E. lia. }
  by apply (str_app_inj a b) in E as [_ ?].
Qed.

Lemma json_name_inj a b : json_name a = json_name b → a = b.
Proof.
  unfold json_name. intros E. assert (String.length a = String.length b) as Hl.
  { apply (f_equal String.length) in E. rewrite !length_str_app in E. cbn in E. lia. }
  by apply (str_app_inj a b) in E as [? _].
Qed.

(** The directories are there. *)
Definition dirs_real (h : home) : Prop := hm_hooks h = DirReal ∧ hm_sessions h = DirReal.

(** The state of every session is the same. *)
Definition same_states (h h' : home) : Prop := ∀ key, load h' key = load h key.

Lemma session_dir_same io h r h' :
  session_dir io h = (r, h') → same_states h h' ∧ (r = Ok tt → dirs_real h').
Proof.
  unfold session_dir, make_private_dir. destruct h as [isd hooks sessions files locked]. cbn.
  destruct isd; cbn; [|by intros [= <- <-]].
  destruct hooks, sessions, (io_mkdir io); intros H; cbn in H; injection H as <- <-; (split; [by intros key|]); done.
Qed.

Lemma with_lock_same io key b h :
  same_states h (with_files (<[lock_name key := Regular b (io_now io)]>) h).
Proof.
  intros k. unfold load, find_file. cbn. destruct (dir_visible (hm_hooks h) && dir_visible (hm_sessions h)); [|done].
  rewrite lookup_insert_ne; [done|]. intros E. by destruct (names_differ k key).
Qed.

Lemma open_lock_same io key h r h' :
  open_lock io key h = (r, h') → same_states h h' ∧ (dirs_real h → dirs_real h').
Proof.
  unfold open_lock. destruct (negb (io_open io)); [by intros [= <- <-]|].
  destruct (hm_files h !! lock_name key) as [[]|]; intros [= <- <-]; try by split.
  split; [apply with_lock_same|done].
Qed.

Lemma touch_lock_same io key h : same_states h (touch_lock io key h) ∧ (dirs_real h → dirs_real (touch_lock io key h)).
Proof.
  split; [|done]. intros k. unfold touch_lock. unfold load, find_file. cbn.
  destruct (dir_visible (hm_hooks h) && dir_visible (hm_sessions h)); [|done].
  destruct (hm_files h !! lock_name key) as [[]|]; try done.
  rewrite lookup_insert_ne; [done|]. intros E. by destruct (names_differ k key).
Qed.

Lemma acquire_same io h key :
  match acquire io h key with
  | Waits => True
  | LockFailed _ h' => same_states h h'
  | Locked s h' => s = load h key ∧ same_states h h' ∧ dirs_real h'
  end.
Proof.
  unfold acquire. destruct (session_dir io h) as [[u|e] h1] eqn:E1; destruct (session_dir_same _ _ _ _ E1) as [S1 D1]; [|done].
  destruct (open_lock io key h1) as [[u'|e] h2] eqn:E2; destruct (open_lock_same _ _ _ _ _ E2) as [S2 D2];
    [|intros k; by rewrite S2, S1].
  destruct (bool_decide _); [done|]. destruct (negb (io_lock io)); [intros k; by rewrite S2, S1|].
  destruct (touch_lock_same io key h2) as [S3 D3]. split_and!.
  - by rewrite S3, S2, S1.
  - intros k. by rewrite S3, S2, S1.
  - destruct u. auto.
Qed.

(** A state that fits its file. *)
Definition fits (s : SessionState) : Prop :=
  session_ok s ∧ (String.length (default "" (rewake_owner s)) ≤ 1000)%nat.

Definition stamped (io : io_env) (s : SessionState) : SessionState :=
  mk_session (cursor s) (stop_blocks s) (rewake_owner s) (io_now io).

Lemma save_load io key s h r h' :
  dirs_real h → fits (stamped io s) → save io key s h = (r, h') →
  dirs_real h' ∧ (∀ k, load h' k = match r with Ok _ => if decide (k = key) then stamped io s else load h k | Err _ => load h k end).
Proof.
  intros [D1 D2] [Hok Hf]. unfold save. fold (stamped io s). destruct (io_write io); intros [= <- <-]; [|done].
  split; [done|]. intros k. unfold load, find_file. cbn. rewrite D1, D2. cbn.
  destruct (decide (k = key)) as [->|Hne].
  - rewrite lookup_insert_eq. cbn [read_state]. pose proof (state_json_short _ Hok) as Hl. cbn [rewake_owner stamped] in *.
    destruct (Nat.ltb_spec MAX_STATE_BYTES (String.length (state_to_json (stamped io s)))) as [Hlt|_].
    { exfalso. change MAX_STATE_BYTES with (64 * 1024)%nat in Hlt. lia. }
    by rewrite state_json_back.
  - rewrite lookup_insert_ne; [done|]. by intros E%json_name_inj.
Qed.

(** The push task's mark moves the cursor up, or leaves every state as it was. *)
Lemma try_advance_spec io h key seq r h' :
  try_advance io h key seq = (r, h') → fits (stamped io (set_cursor seq (load h key))) →
  ∀ k, load h' k = match r with
                   | Ok true => if decide (k = key) then stamped io (set_cursor seq (load h key)) else load h k
                   | _ => load h k
                   end ∧ (r = Ok true → cursor (load h key) < seq).
Proof.
  unfold try_advance. intros E Hf k.
  destruct (session_dir io h) as [[u|e] h1] eqn:E1; destruct (session_dir_same _ _ _ _ E1) as [S1 D1]; [|by injection E as <- <-].
  destruct (open_lock io key h1) as [[u'|e] h2] eqn:E2; destruct (open_lock_same _ _ _ _ _ E2) as [S2 D2];
    [|injection E as <- <-; by rewrite S2, S1].
  destruct (bool_decide _); [injection E as <- <-; by rewrite S2, S1|].
  destruct (negb (io_lock io)); [injection E as <- <-; by rewrite S2, S1|].
  destruct (touch_lock_same io key h2) as [S3 D3]. set (h3 := touch_lock io key h2) in *.
  assert (load h3 key = load h key) as E3 by (by rewrite S3, S2, S1). rewrite E3 in E.
  destruct (Z.leb_spec seq (cursor (load h key))); [injection E as <- <-; by rewrite S3, S2, S1|].
  destruct u. destruct (save io key (set_cursor seq (load h key)) h3) as [r' h4] eqn:E4.
  destruct (save_load _ _ _ _ _ _ (D3 (D2 (D1 eq_refl))) Hf E4) as [_ Hl]. specialize (Hl k).
  destruct r' as [v|e]; injection E as <- <-; rewrite Hl; [|by rewrite S3, S2, S1].
  split; [|done]. destruct (decide (k = key)); [done|]. by rewrite S3, S2, S1.
Qed.
End StateLaws.
