(* ===== verification/HookRun.v ===== *)
(** * agora-hooks: a session is shown every message once

    A session over time: messages arrive in the inbox of its identity and are
    acknowledged, and the hooks of the session run, each of them under the lock
    of its state, with the pages that a background poller fetched before.  A tool
    of the agent that reads the inbox moves the cursor past what it returned, and
    the start of a session after a compaction sets the cursor back. *)

From Stdlib Require Import Ascii.
From S2P Require Import Prelude F64 Strs PyFmt Bytes Claims Task StoreDb Framing Notify NotifyText SessionState Hooks.

Local Open Scope Z_scope.

(** ** Messages in order *)

Definition numbered (m : Value) : Prop := is_Some (seq_of m).

Definition before (a b : Value) : Prop := ∃ x y, seq_of a = Some x ∧ seq_of b = Some y ∧ x < y.

Definition ordered (l : list Value) : Prop := StronglySorted before l ∧ Forall numbered l.

Definition seqs (l : list Value) : list Z := omap seq_of l.

Lemma sort_by_ordered cmp l :
  (∀ a b, before a b → cmp a b = Lt) → StronglySorted before l → sort_by cmp l = l.
Proof.
  intros Hc. induction 1 as [|m l Hs IH Hm]; [done|]. rewrite sort_by_cons, IH. destruct l as [|m' l]; [done|].
  cbn. apply Forall_cons in Hm as [Hm _]. by rewrite (Hc _ _ Hm).
Qed.

Lemma before_by_seq a b : before a b → by_seq a b = Lt.
Proof. intros (x & y & Ea & Eb & Hlt). unfold by_seq. by rewrite Ea, Eb. Qed.

Lemma before_seq_cmp a b : before a b → seq_cmp a b = Lt.
Proof. intros (x & y & Ea & Eb & Hlt). unfold seq_cmp, seq_key. by rewrite Ea, Eb. Qed.

Lemma sublist_elem {A} (l k : list A) x : sublist l k → x ∈ l → x ∈ k.
Proof. induction 1 as [|y l k _ IH|y l k _ IH]; [done|..]; rewrite !elem_of_cons; naive_solver. Qed.

Lemma sublist_sorted l k : sublist l k → StronglySorted before k → StronglySorted before l.
Proof.
  induction 1 as [|m l k Hs IH|m l k Hs IH]; intros H; [done|..]; apply StronglySorted_inv in H as [H1 H2]; [|by apply IH].
  constructor; [by apply IH|]. apply Forall_forall. intros m' Hm'. rewrite Forall_forall in H2. apply H2.
  by eapply sublist_elem.
Qed.

Lemma ordered_sublist l k : sublist l k → ordered k → ordered l.
Proof.
  intros Hs [H1 H2]. split; [by eapply sublist_sorted|]. rewrite Forall_forall in H2 |- *. intros m Hm. apply H2.
  by eapply sublist_elem.
Qed.

Lemma past_sublist c l : sublist (past c l) l.
Proof. induction l as [|m l IH]; [done|]. cbn. destruct (seq_of m); [|by constructor]. destruct (c <? z); by constructor. Qed.

Lemma take_sublist {A} n (l : list A) : sublist (firstn n l) l.
Proof. rewrite <- (take_drop n l) at 2. by apply sublist_inserts_r. Qed.

Lemma past_elem c l m : m ∈ past c l ↔ m ∈ l ∧ ∃ s, seq_of m = Some s ∧ c < s.
Proof.
  unfold past. rewrite list_elem_of_In, List.filter_In, <- list_elem_of_In. apply and_iff_compat_l.
  destruct (seq_of m) as [s|]; [rewrite Z.ltb_lt|]; naive_solver.
Qed.

Lemma seqs_elem s l : s ∈ seqs l ↔ ∃ m, m ∈ l ∧ seq_of m = Some s.
Proof. unfold seqs. by rewrite list_elem_of_omap. Qed.

Lemma ordered_seqs l : ordered l → StronglySorted Z.lt (seqs l).
Proof.
  intros [H1 H2]. induction H1 as [|m l Hs IH Hm]; [constructor|]. apply Forall_cons in H2 as [[s Es] H2].
  cbn. rewrite Es. constructor; [by apply IH|]. apply Forall_forall. intros s' (m' & Hm' & Es')%seqs_elem.
  rewrite Forall_forall in Hm. destruct (Hm m' Hm') as (x & y & Ex & Ey & Hlt). congruence.
Qed.

(** In an ordered list, what is not after its [n]th message is in its start. *)
Lemma ordered_prefix l n q :
  ordered l → l !! n ≫= seq_of = Some q →
  (∀ m s, m ∈ firstn (S n) l → seq_of m = Some s → s ≤ q) ∧
  (∀ m s, m ∈ l → seq_of m = Some s → s ≤ q → m ∈ firstn (S n) l).
Proof.
  intros [Hs _]. revert n. induction Hs as [|m l Hs IH Hm]; intros n Hq; [done|]. rewrite Forall_forall in Hm.
  destruct n as [|n].
  - change (seq_of m = Some q) in Hq. split.
    + cbn. intros m' s ->%list_elem_of_singleton. intros. simplify_eq. lia.
    + intros m' s [->|Hin]%elem_of_cons Es Hle; [by left|]. destruct (Hm m' Hin) as (x & y & Ex & Ey & Hlt). exfalso.
      simplify_eq. lia.
  - change (l !! n ≫= seq_of = Some q) in Hq. destruct (IH n Hq) as [H1 H2].
    change (firstn (S (S n)) (m :: l)) with (m :: firstn (S n) l). split.
    + intros m' s [->|Hin]%elem_of_cons Es; [|by eapply H1].
      destruct (l !! n) as [m'|] eqn:El; [|done]. apply list_elem_of_lookup_2 in El. destruct (Hm m' El) as (x & y & Ex & Ey & Hlt).
      cbn in Hq. simplify_eq. lia.
    + intros m' s [->|Hin]%elem_of_cons Es Hle; [by left|]. right. by eapply H2.
Qed.

(** ** What a text tells *)

Definition frames (ms : list Value) (text : string) : Prop :=
  ∃ header blocks tail, text = header +:+ newline +:+ join newline (UNTRUSTED_NOTICE :: blocks ++ tail) ∧
    length blocks = length ms ∧ shows 0 ms blocks ∧ contains_byte "<" header = false ∧ Forall plain tail.

Definition text_at (k : string) (v : Value) : option string := vget k v ≫= v_str.

(** The text that an outcome hands to the agent. *)
Definition said (o : HookOutcome) : option string :=
  match stdout o with
  | Some v => or_else (vget "hookSpecificOutput" v ≫= text_at "additionalContext")
                (or_else (text_at "reason" v) (text_at "text" v))
  | None => non_empty (Some (stderr o))
  end.

Definition tells (o : HookOutcome) (ms : list Value) : Prop :=
  match said o with None => ms = [] | Some text => ms ≠ [] ∧ frames ms text end.

Lemma shows_length i msgs blocks : shows i msgs blocks → shows i (firstn (length blocks) msgs) blocks.
Proof.
  revert i blocks. induction msgs as [|m msgs IH]; intros i [|b blocks]; try done. cbn. intros [? ?]. split; [done|]. by apply IH.
Qed.

(** ** Rendering *)

Definition any (_ : Z) : bool := true.

Lemma visible_any s : text_of visible s → text_of any s.
Proof. by apply text_of_impl. Qed.

Lemma ascii_any s : str_all (λ b, byte_val b <? 128) s = true → text_of any s.
Proof. intros H. apply text_of_ascii. eapply str_all_impl; [|exact H]. intros b ->. done. Qed.

Lemma dec_any n : text_of any (dec n).
Proof. eapply text_of_impl; [|apply dec_line]. done. Qed.

Lemma shows_any i msgs blocks : shows i msgs blocks → Forall (text_of any) blocks.
Proof.
  revert i blocks. induction msgs as [|m msgs IH]; intros i [|b blocks] H; try done; try constructor.
  - destruct H as [[->|[_ ->]] _]; apply visible_any; [apply frame_message_visible|apply frame_message_stub_visible].
  - destruct H as [_ H]. by eapply IH.
Qed.

Lemma hidden_any n : Forall (text_of any) (option_list (hidden_line n)).
Proof.
  unfold hidden_line. destruct (Nat.ltb 0 n); cbn [option_list]; [|constructor]. constructor; [|constructor].
  apply text_of_app; [by apply ascii_any|]. apply text_of_app; [apply dec_any|]. apply ascii_any. by destruct (Nat.eqb n 1).
Qed.

Lemma dec_ascii n : str_all (λ b, byte_val b <? 128) (dec n) = true.
Proof.
  assert (∀ z, 0 ≤ z → str_all (λ b, byte_val b <? 128) (dec_abs z) = true) as H.
  { intros z Hz. destruct (dec_abs_spec z Hz) as (H & _). eapply str_all_impl; [|exact H].
    intros b Hb. unfold is_ascii_digit, in_range in Hb. lia. }
  unfold dec. destruct (Z.ltb_spec n 0); cbn [str_all]; apply H; lia.
Qed.

Lemma render_header_ascii n : str_all (λ b, byte_val b <? 128) (render_header n) = true.
Proof. unfold render_header. rewrite !str_all_app, dec_ascii. by destruct (Nat.eqb n 1). Qed.

Lemma render_header_plain n : contains_byte "<" (render_header n) = false.
Proof.
  unfold render_header. rewrite !contains_app, (text_of_contains line_char (dec (Z.of_nat n))); [|apply dec_line|done..].
  by destruct (Nat.eqb n 1).
Qed.

Lemma length_bytes s : length (bytes s) = String.length s.
Proof. induction s as [|c s IH]; [done|]. cbn. by rewrite IH. Qed.

(** Nothing is shown, or the first messages are, whole and within the limit. *)
Lemma render_spec msgs max :
  let r := render_messages msgs max in
  rd_shown r = 0%nat ∨
  (rd_shown r ≤ length msgs)%nat ∧ frames (firstn (rd_shown r) (seq_ordered msgs)) (rd_text r) ∧
  (length (chars (rd_text r)) ≤ max)%nat ∧ text_of any (rd_text r) ∧ rd_text r ≠ "" ∧
  rd_last_seq r = seq_ordered msgs !! pred (rd_shown r) ≫= seq_of.
Proof.
  unfold render_messages. destruct msgs as [|m0 msgs0]; [by left|]. set (msgs := m0 :: msgs0).
  set (header := render_header (length msgs)). pose proof (render_header_ascii (length msgs)) as Ha. fold header in Ha.
  assert (length (chars header) = String.length header) as Eh.
  { rewrite <- (str_app_nil_r header), chars_ascii_app by done. rewrite app_nil_r, str_app_nil_r. apply length_bytes. }
  rewrite Eh. destruct (Nat.leb_spec max (String.length header + 1)) as [|Hlt]; [by left|].
  pose proof (frame_batch_spec (seq_ordered msgs) (max - String.length header - 1)) as Hb.
  destruct (frame_batch_within _ _) as [body shown]. destruct Hb as (Hlen & Hle & Hshape).
  destruct (is_empty_str body || Nat.eqb shown 0) eqn:Ee; [by left|]. right. cbn [rd_shown rd_text rd_last_seq].
  apply orb_false_iff in Ee as [_ Hs0%Nat.eqb_neq].
  destruct Hshape as [(_ & -> & _)|(blocks & El & Hshows & -> & _)]; [done|].
  set (body := join _ _) in *.
  assert (text_of any body) as Hab.
  { apply text_of_join; [by apply ascii_any|]. constructor; [by apply ascii_any|]. apply Forall_app.
    split; [by eapply shows_any|apply hidden_any]. }
  assert (length (chars (header +:+ newline +:+ body)) ≤ max)%nat as Hmax.
  { rewrite chars_ascii_app by done. rewrite chars_ascii_app by done. rewrite !length_app, !length_bytes.
    pose proof (chars_length body). change (String.length newline) with 1%nat. lia. }
  destruct (Nat.ltb_spec max (length (chars (header +:+ newline +:+ body)))); [lia|].
  unfold seq_ordered in Hle. rewrite length_sort_by in Hle. split_and!.
  - done.
  - exists header, blocks, (option_list (hidden_line (length (seq_ordered msgs) - shown))). split_and!.
    + done.
    + rewrite length_take. unfold seq_ordered. rewrite length_sort_by. lia.
    + rewrite <- El. by apply shows_length.
    + apply render_header_plain.
    + apply hidden_plain.
  - done.
  - apply text_of_app; [by apply ascii_any|]. apply text_of_app; [by apply ascii_any|done].
  - intros E. apply (f_equal String.length) in E. rewrite !length_str_app in E. change (String.length newline) with 1%nat in E.
    cbn [String.length] in E. lia.
  - by destruct shown.
Qed.

(** A text that fits is not cut. *)
Lemma cap_chars_fits s max : text_of any s → (length (chars s) ≤ max)%nat → cap_chars s max = s.
Proof.
  intros (cs & -> & Hc) Hl. unfold cap_chars. rewrite take_ge by done. clear Hl.
  induction Hc as [|c cs [Hr _] _ IH]; [done|]. cbn [encode]. rewrite chars_encode_char by done. cbn [encode]. by rewrite IH.
Qed.

(** ** The effect of a run *)

Lemma seq_range m q : seq_of m = Some q → i64_min ≤ q ≤ i64_max.
Proof.
  unfold seq_of, vget. destruct m as [| | | | |fields]; try done. destruct (jget "seq" fields) as [v|]; [|done]. cbn.
  destruct v as [| |[z|]| | |]; try done. cbn. unfold checked_i64, in_i64. destruct (_ && _) eqn:E; [|done]. intros. simplify_eq. lia.
Qed.

Lemma v_i64_range v q : v_i64 v = Some q → i64_min ≤ q ≤ i64_max.
Proof. destruct v as [| |[z|]| | |]; try done. cbn. unfold checked_i64, in_i64. destruct (_ && _) eqn:E; [|done]. intros. simplify_eq. lia. Qed.

Definition best_ok (best : option Z) : Prop := ∀ q, best = Some q → i64_min ≤ q ≤ i64_max.

Lemma collect_seqs_ok : ∀ v best, best_ok best → best_ok (collect_seqs v best).
Proof.
  fix IH 1. intros [| | | |items|fields] best Hb; try exact Hb.
  - cbn [collect_seqs]. revert best Hb. induction items as [|v items IHl]; intros best Hb; [exact Hb|]. apply IHl, IH, Hb.
  - cbn [collect_seqs]. revert best Hb. induction fields as [|[k v] fields IHl]; intros best Hb; [exact Hb|]. apply IHl, IH.
    destruct (if String.eqb k "seq" then v_i64 v else None) as [seq|] eqn:E; [|exact Hb]. destruct (0 <? seq); [|exact Hb].
    destruct (String.eqb k "seq"); [|discriminate E]. pose proof (v_i64_range v seq E) as Hr. intros q [= <-].
    destruct best as [b|]; [pose proof (Hb b eq_refl); lia|exact Hr].
Qed.

Lemma max_seq_range v q : max_seq_in v = Some q → i64_min ≤ q ≤ i64_max.
Proof. by apply collect_seqs_ok. Qed.

Definition env_ok (io : io_env) : Prop := i64_min ≤ io_now io ≤ i64_max.

Section Effect.
Context `{SC : SessionCodec} {SL : SessionCodecLaws SC}.

(** A run says nothing and leaves the cursor, or shows the first messages of the
    page past the cursor and moves the cursor to the last of them. *)
Definition hook_effect (key : string) (h h' : home) (page : list Value) (o : HookOutcome) : Prop :=
  fits (load h' key) ∧
  let c := cursor (load h key) in
  ((cursor (load h' key) = c ∧ said o = None) ∨
   ∃ n q, past c page !! n ≫= seq_of = Some q ∧ cursor (load h' key) = Z.max c q ∧ tells o (firstn (S n) (past c page))).

Lemma rendered_effect c page max :
  ordered page → let r := render_messages (past c page) max in rd_shown r ≠ 0%nat →
  ∃ n q, past c page !! n ≫= seq_of = Some q ∧ i64_min ≤ q ≤ i64_max ∧ rd_shown r = S n ∧ rd_last_seq r = Some q ∧
    frames (firstn (S n) (past c page)) (rd_text r) ∧ rd_text r ≠ "" ∧ past c page ≠ [] ∧
    cap_chars (rd_text r) max = rd_text r.
Proof.
  intros Ho r Hs. destruct (ordered_sublist _ _ (past_sublist c page) Ho) as [Hp Hn].
  destruct (render_spec (past c page) max) as [?|(Hle & Hf & Hc & Ha & Hne & Hl)]; [done|].
  unfold seq_ordered in *. rewrite sort_by_ordered in Hf, Hl; [|apply before_seq_cmp|done|apply before_seq_cmp|done].
  fold r in Hle, Hf, Hc, Ha, Hne, Hl. destruct (rd_shown r) as [|n] eqn:En; [done|]. cbn [pred] in Hl.
  destruct (lookup_lt_is_Some_2 (past c page) n ltac:(lia)) as [m Hm]. destruct (proj1 (Forall_lookup _ _) Hn n m Hm) as [q Hq].
  rewrite Hm in Hl. cbn in Hl. exists n, q. rewrite Hm. split_and!; try done.
  - by apply (seq_range m q).
  - by apply (seq_range m q).
  - congruence.
  - intros E. by rewrite E in Hm.
  - by apply cap_chars_fits.
Qed.

Lemma fits_stamped io s c n :
  env_ok io → fits s → i64_min ≤ c ≤ i64_max → 0 ≤ n ≤ u32_max → fits (stamped io (set_blocks n (set_cursor c s))).
Proof. intros Hio [(H1 & H2 & H3) H4] Hc Hn. split; [|done]. by split_and!; cbn; try lia; apply Hio. Qed.

(** What is the same before and after a save: everything but the state of the
    session, which is the old one or the saved one. *)
Lemma saved_effect {A} key e s h (k : home → result HookError A * home) r h' :
  dirs_real h → fits (stamped e s) → saved key e s h k = (r, h') →
  (∃ err, r = Err err ∧ load h' key = load h key) ∨
  ∃ h1, dirs_real h1 ∧ load h1 key = stamped e s ∧ k h1 = (r, h').
Proof.
  intros Hd Hf. unfold saved. destruct (save e key s h) as [r1 h1] eqn:E.
  destruct (save_load _ _ _ _ _ _ Hd Hf E) as [Hd1 Hl]. specialize (Hl key). destruct r1 as [u|err].
  - rewrite decide_True in Hl by done. intros Hk. right. by exists h1.
  - intros [= <- <-]. left. by eexists.
Qed.

Lemma quiet kind r : (∀ o, r = Ok o → said o = None ∧ stderr o = "") → said (run_outcome kind (Some r)) = None.
Proof.
  intros H. destruct r as [o|e].
  - destruct (H o eq_refl) as [Hs He]. unfold run_outcome, normalise. rewrite He. cbn [is_empty_str negb]. rewrite andb_false_r.
    unfold said in *. cbn [stdout stderr]. destruct (stdout o); [done|]. done.
  - unfold run_outcome, normalise. cbn. by rewrite andb_false_r.
Qed.

(** An outcome on the standard output is printed as it is. *)
Lemma printed kind v : run_outcome kind (Some (Ok (outcome_stdout v))) = outcome_stdout v.
Proof. unfold run_outcome, normalise. cbn. by rewrite andb_false_r. Qed.

Lemma unchanged key h h' page kind r :
  load h' key = load h key → fits (load h key) → (∀ o, r = Ok o → said o = None ∧ stderr o = "") →
  hook_effect key h h' page (run_outcome kind (Some r)).
Proof. intros E Hf Hq. split; [by rewrite E|]. left. rewrite E. split; [done|by apply quiet]. Qed.

Section Bodies.
Context (io io2 : io_env) (key : string) (opts : HookOptions) (fetch : Z → option (list Value)) (page : list Value).
Context (Hio : env_ok io) (Hio2 : env_ok io2).

(** At the cursor the daemon does not answer, or returns the page. *)
Context (c : Z) (Hfetch : ∀ p, fetch c = Some p → p = page) (Hpage : ordered page).

Lemma silent_said (o : HookOutcome) : Ok silent = Ok (E := HookError) o → said o = None ∧ stderr o = "".
Proof. by intros [= <-]. Qed.

Lemma error_said e (o : HookOutcome) : Err e = Ok (E := HookError) o → said o = None ∧ stderr o = "".
Proof. done. Qed.

(** A save that shows what was rendered. *)
Lemma shown_effect (kind : HookKind) e h n q blocks s (o : HookOutcome) r h' :
  env_ok e → dirs_real h → fits s → cursor s = c → cursor (load h key) = c → fits (load h key) →
  past c page !! n ≫= seq_of = Some q → 0 ≤ blocks ≤ u32_max →
  tells (run_outcome kind (Some (Ok o))) (firstn (S n) (past c page)) → i64_min ≤ q ≤ i64_max →
  saved key e (set_blocks blocks (set_cursor (Z.max c q) s)) h (λ h, (Ok o, h)) = (r, h') →
  hook_effect key h h' page (run_outcome kind (Some r)).
Proof.
  intros He Hd Hf Hc Hl Hfl Hq Hb Ht Hr Hs.
  assert (fits (stamped e (set_blocks blocks (set_cursor (Z.max c q) s)))) as Hf'.
  { apply fits_stamped; [done..|destruct Hf as [(? & _) _]; lia|done]. }
  destruct (saved_effect _ _ _ _ _ _ _ Hd Hf' Hs) as [(err & -> & E)|(h1 & _ & E & [= <- <-])].
  - by apply unchanged.
  - split; [by rewrite E|]. right. rewrite E, Hl. exists n, q. split_and!; [done|done|exact Ht].
Qed.

Lemma effect_from h0 h h' o : cursor (load h key) = cursor (load h0 key) → hook_effect key h h' page o → hook_effect key h0 h' page o.
Proof. intros E [Hf H]. split; [done|]. by rewrite <- E. Qed.

Lemma tells_frames o text ms : said o = Some text → ms ≠ [] → frames ms text → tells o ms.
Proof. intros E Hm Hf. unfold tells. by rewrite E. Qed.

Lemma take_S_ne n (l : list Value) : l ≠ [] → firstn (S n) l ≠ [].
Proof. by destruct l. Qed.

Lemma context_deliver_effect input s h r h' :
  dirs_real h → fits (load h key) → fits s → cursor s = c → cursor (load h key) = c →
  context_deliver io2 key opts fetch input s h = (r, h') → hook_effect key h h' page (run_outcome KContext (Some r)).
Proof.
  intros Hd Hf Hfs Ec El. unfold context_deliver. rewrite Ec.
  destruct (fetch c) as [p|] eqn:Ep; [|intros [= <- <-]; by apply unchanged; [..|apply error_said]].
  rewrite (Hfetch p eq_refl). destruct (past c page) as [|m0 ms0] eqn:Em; [intros [= <- <-]; by apply unchanged; [..|apply silent_said]|].
  rewrite <- Em. set (rd := render_messages _ _). destruct (rd_last_seq rd) as [q|] eqn:Eq;
    [|intros [= <- <-]; by apply unchanged; [..|apply silent_said]].
  destruct (Nat.ltb_spec 0 (rd_shown rd)) as [En|]; [|intros [= <- <-]; by apply unchanged; [..|apply silent_said]].
  destruct (rendered_effect c page (ho_max_context_chars opts) Hpage) as (n & q' & Hq & Hr & Hn & Hlast & Hfr & Hne & Hp & _);
    [fold rd; lia|]. fold rd in Hn, Hlast, Hfr, Hne. rewrite Eq in Hlast. injection Hlast as <-.
  destruct (is_empty_str (rd_text rd)) eqn:Et; [by destruct (rd_text rd)|]. cbn [negb andb]. intros Hs.
  eapply (shown_effect KContext io2 h n q (stop_blocks s) s); try done.
  - by destruct Hfs as [(_ & ? & _) _].
  - rewrite printed. eapply tells_frames; [reflexivity|by apply take_S_ne|done].
Qed.

Lemma fits_reset s : fits s → fits (set_blocks 0 s).
Proof. intros [(? & ? & ?) ?]. split; [|done]. split_and!; cbn; try done; unfold u32_max; lia. Qed.

Lemma fits_stamp e s : env_ok e → fits s → fits (stamped e s).
Proof. intros [? ?] [(? & ? & ?) ?]. split; [|done]. split_and!; cbn; try done; lia. Qed.

Lemma context_effect event input s h r h' :
  dirs_real h → fits s → cursor s = c → s = load h key →
  context_body io io2 key opts fetch event input s h = (r, h') →
  hook_effect key h h' page (run_outcome KContext (Some r)).
Proof.
  intros Hd Hf Ec Es. unfold context_body. assert (fits (load h key)) as Hfl by (by rewrite <- Es). destruct (_ && _); intros Hs.
  - assert (fits (stamped io (set_blocks 0 s))) as Hf0 by (by apply fits_stamp, fits_reset).
    destruct (saved_effect _ _ _ _ _ _ _ Hd Hf0 Hs) as [(err & -> & E)|(h1 & Hd1 & E & Hk)].
    + by apply unchanged; [..|apply error_said].
    + apply (effect_from h h1); [by rewrite E, <- Es|].
      apply (context_deliver_effect input (set_blocks 0 s)); try done; [by rewrite E|by apply fits_reset|by rewrite E].
  - apply (context_deliver_effect input s); try done. by rewrite <- Es.
Qed.

Lemma stop_effect s h r h' :
  dirs_real h → fits s → cursor s = c → s = load h key →
  stop_body io key opts fetch s h = (r, h') → hook_effect key h h' page (run_outcome KStop (Some r)).
Proof.
  intros Hd Hf Ec Es. unfold stop_body, stop_decide. rewrite Ec. assert (fits (load h key)) as Hfl by (by rewrite <- Es).
  destruct (fetch c) as [p|] eqn:Ep; [|intros [= <- <-]; by apply unchanged; [..|apply error_said]].
  rewrite (Hfetch p eq_refl).
  assert (∀ b, fits (stamped io (set_blocks b s)) → saved key io (set_blocks b s) h (λ h, (Ok silent, h)) = (r, h') →
    hook_effect key h h' page (run_outcome KStop (Some r))) as Hreset.
  { intros b Hfb Hs. destruct (saved_effect _ _ _ _ _ _ _ Hd Hfb Hs) as [(err & -> & E)|(h1 & Hd1 & E & [= <- <-])].
    - by apply unchanged; [..|apply error_said].
    - split; [by rewrite E|]. left. rewrite E, <- Es. split; [done|]. by apply quiet, silent_said. }
  destruct (past c page) as [|m0 ms0] eqn:Em.
  { apply Hreset. by apply fits_stamp, fits_reset. }
  rewrite <- Em. destruct (_ <=? _); [intros [= <- <-]; by apply unchanged; [..|apply silent_said]|].
  rewrite sort_by_ordered; [|apply before_by_seq|by apply (ordered_sublist _ _ (past_sublist _ page))].
  set (rd := render_messages _ _). destruct (Nat.eqb_spec (rd_shown rd) 0) as [|En];
    [intros [= <- <-]; by apply unchanged; [..|apply silent_said]|].
  destruct (rendered_effect c page (ho_max_context_chars opts) Hpage En) as (n & q & Hq & Hr & Hn & Hlast & Hfr & Hne & Hp & Hcap).
  fold rd in Hn, Hlast, Hfr, Hne, Hcap. rewrite Hlast, Hcap, Z.max_comm. intros Hs.
  eapply (shown_effect KStop io h n q (sat_u32 (stop_blocks s + 1)) s); try done.
  - by rewrite <- Es.
  - unfold sat_u32, u32_max. lia.
  - rewrite printed. eapply tells_frames; [reflexivity|by apply take_S_ne|done].
Qed.

Lemma poll_effect s h r h' :
  dirs_real h → fits s → cursor s = c → s = load h key →
  poll_body io key opts fetch s h = (r, h') → hook_effect key h h' page (run_outcome KPoll (Some r)).
Proof.
  intros Hd Hf Ec Es. unfold poll_body. rewrite Ec. assert (fits (load h key)) as Hfl by (by rewrite <- Es).
  destruct (fetch c) as [p|] eqn:Ep; [|intros [= <- <-]; by apply unchanged; [..|apply error_said]].
  rewrite (Hfetch p eq_refl). set (rd := render_messages _ _). destruct (Nat.ltb_spec 0 (rd_shown rd)) as [En|En].
  - destruct (rendered_effect c page (ho_max_context_chars opts) Hpage) as (n & q & Hq & Hr & Hn & Hlast & Hfr & Hne & Hp & Hcap);
      [fold rd; lia|]. fold rd in Hn, Hlast, Hfr, Hne. rewrite Hlast. intros Hs.
    eapply (shown_effect KPoll io h n q (stop_blocks s) s); try done.
    + by rewrite <- Es.
    + by destruct Hf as [(_ & ? & _) _].
    + rewrite printed. eapply tells_frames; [|by apply take_S_ne|exact Hfr]. unfold poll_json. rewrite Hn. done.
  - intros [= <- <-]. apply unchanged; [done..|]. intros o [= <-]. unfold poll_json. replace (rd_shown rd) with 0%nat by lia. done.
Qed.

Lemma rewake_effect owner s h r h' :
  dirs_real h → fits s → cursor s = c → s = load h key →
  rewake_body io key opts owner page s h = (r, h') →
  hook_effect key h h' page (run_outcome KRewake (Some (default silent <$> r))).
Proof.
  intros Hd Hf Ec Es. unfold rewake_body, rewake_fresh. rewrite Ec. assert (fits (load h key)) as Hfl by (by rewrite <- Es).
  destruct (match owner with Some _ => _ | None => _ end); [intros [= <- <-]; by apply unchanged; [..|apply silent_said]|].
  rewrite sort_by_ordered; [|apply before_by_seq|by apply (ordered_sublist _ _ (past_sublist _ page))].
  destruct (past c page) as [|m0 ms0] eqn:Em; [intros [= <- <-]; by apply unchanged; [..|apply silent_said]|].
  rewrite <- Em. set (rd := render_messages _ _). destruct (Nat.eqb_spec (rd_shown rd) 0) as [|En];
    [intros [= <- <-]; by apply unchanged; [..|apply silent_said]|].
  destruct (rendered_effect c page (ho_max_context_chars opts) Hpage En) as (n & q & Hq & Hr & Hn & Hlast & Hfr & Hne & Hp & _).
  fold rd in Hn, Hlast, Hfr, Hne. rewrite Hlast. intros Hs.
  assert (saved key io (set_blocks (stop_blocks s) (set_cursor (Z.max c q) s)) h (λ h, (Ok (wake (rd_text rd)), h)) =
    (default silent <$> r, h')) as Hs'.
  { unfold saved in *. destruct (save io key _ h) as [[u|e] h1] eqn:E in Hs; injection Hs as <- <-; change (set_blocks (stop_blocks s) (set_cursor (Z.max c q) s)) with (set_cursor (Z.max c q) s); rewrite E; done. }
  eapply (shown_effect KRewake io h n q (stop_blocks s) s); try done.
  - by rewrite <- Es.
  - by destruct Hf as [(_ & ? & _) _].
  - assert (run_outcome KRewake (Some (Ok (wake (rd_text rd)))) = wake (rd_text rd)) as ->.
    { unfold run_outcome, normalise. cbn. by destruct (rd_text rd). }
    eapply tells_frames; [|by apply take_S_ne|exact Hfr]. unfold said, wake. cbn. by destruct (rd_text rd).
Qed.
End Bodies.
End Effect.

(** ** A session over time *)

Definition FETCH_LIMIT : nat := 50.

(** The files, the unacknowledged messages of the identity, the highest number
    given out, and the pages that background pollers have fetched, each with the
    cursor it was fetched at. *)
Record world : Type := mk_world {
  w_home : home; w_inbox : list Value; w_top : Z; w_polls : list (Z * list Value) }.

Definition set_home (h : home) (w : world) : world := mk_world h (w_inbox w) (w_top w) (w_polls w).

(** A page of the inbox past a number. *)
Definition page_of (w : world) (after : Z) : list Value := firstn FETCH_LIMIT (past after (w_inbox w)).

Section World.
Context `{SC : SessionCodec} {SL : SessionCodecLaws SC}.
Context (key : string) (opts : HookOptions).

(** Whether the daemon answers. *)
Definition fetch_up (w : world) (up : bool) (after : Z) : option (list Value) := if up then Some (page_of w after) else None.

(** Numbers above the first and up to the second. *)
Definition range : Type := Z * Z.

(** A tool call that reads the inbox: the numbers from the cursor up to the highest
    one in the result of the tool. *)
Definition absorbed (w : world) (input : HookInput) : option range :=
  if bool_decide (HookEvent_parse (hi_event_name input) = HPostToolUse) && from_option is_inbox_tool false (hi_tool_name input)
  then (λ seen, (cursor (load (w_home w) key), seen)) <$> (hi_tool_response input ≫= max_seq_in) else None.

(** A page that was fetched past the cursor there is now, before the cursor was
    set back: the numbers from the cursor up to where the page begins. *)
Definition stale_from (w : world) (after : Z) : option range :=
  if cursor (load (w_home w) key) <? after then Some (cursor (load (w_home w) key), after) else None.

(** The runs of the hooks of the session [key], and the numbers of the messages
    that a run may pass without printing them. *)
Inductive hook_run (w : world) : HookKind → result HookError HookOutcome → home → option range → Prop :=
| run_context io io2 ctx up input r h :
    env_ok io → env_ok io2 →
    context_run io io2 key opts (fetch_up w up) ctx (w_home w) input = HookDone r h → hook_run w KContext r h (absorbed w input)
| run_stop io ctx up input r h :
    env_ok io → stop_run io key opts (fetch_up w up) ctx (w_home w) input = HookDone r h → hook_run w KStop r h None
| run_poll io ctx up session r h :
    env_ok io → poll_run io key opts (fetch_up w up) session ctx (w_home w) = HookDone r h → hook_run w KPoll r h None
| run_quick io after page r h :
    env_ok io → (after, page) ∈ w_polls w → rewake_quick io key opts (Some page) (w_home w) = HookDone r h →
    hook_run w KRewake r h (stale_from w after)
| run_round io after page token fast r h :
    env_ok io → (after, page) ∈ w_polls w →
    rewake_round io key opts token (Some page) fast (w_home w) = HookDone r h →
    hook_run w KRewake (default silent <$> r) h (stale_from w after)
| run_own io token r h :
    env_ok io → (String.length token ≤ 1000)%nat → rewake_own io key token (w_home w) = HookDone r h → hook_run w KRewake r h None.

(** A message arrives, some are acknowledged, a poller fetches a page, or a hook
    runs and hands its outcome to the agent. *)
Inductive wstep (w : world) : option HookOutcome → option range → world → Prop :=
| ws_arrive m seq : seq_of m = Some seq → w_top w < seq →
    wstep w None None (mk_world (w_home w) (w_inbox w ++ [m]) seq (w_polls w))
| ws_ack inbox : sublist inbox (w_inbox w) → wstep w None None (mk_world (w_home w) inbox (w_top w) (w_polls w))
| ws_poll : let after := cursor (load (w_home w) key) in
    wstep w None None (mk_world (w_home w) (w_inbox w) (w_top w) ((after, page_of w after) :: w_polls w))
| ws_run kind r h x : hook_run w kind r h x → wstep w (Some (run_outcome kind (Some r))) x (set_home h w).

(** A number in one of the ranges. *)
Definition passed_over (e : list range) (s : Z) : Prop := Exists (λ p, p.1 < s ≤ p.2) e.

(** Everything up to the cursor that a session starts with. *)
Definition up_to (c : Z) : list range := [(i64_min - 1, c)].

(** A start of the session sets the cursor back or leaves it: what the agent was
    handed since the cursor was set back last, and the numbers that were passed
    without being printed since, before and after. *)
Inductive session_begin (w : world) (out : list HookOutcome) (e : list range) : list HookOutcome → list range → world → Prop :=
| sb_resumed io who unread input r h :
    env_ok io → session_start_run io key opts who unread (w_home w) input = HookDone r h →
    cursor (load h key) = cursor (load (w_home w) key) → session_begin w out e out e (set_home h w)
| sb_reset io who unread input r h :
    env_ok io → session_start_run io key opts who unread (w_home w) input = HookDone r h →
    cursor (load h key) ≠ cursor (load (w_home w) key) → session_begin w out e [] (up_to (cursor (load h key))) (set_home h w).

(** What the agent is handed along a run since the cursor was set back last, and
    the numbers that were passed without being printed: those up to where the
    cursor was then, those up to what an inbox tool returned, and those before the
    beginning of a page that was fetched before then. *)
Inductive session : world → list HookOutcome → list range → world → Prop :=
| se_start w : session w [] (up_to (cursor (load (w_home w) key))) w
| se_step w out e w1 o x w2 : session w out e w1 → wstep w1 o x w2 → session w (out ++ option_list o) (e ++ option_list x) w2
| se_begin w out e w1 out' e' w2 : session w out e w1 → session_begin w1 out e out' e' w2 → session w out' e' w2.

(** A session with an inbox in the order of its numbers, and no page fetched. *)
Record starts (w : world) : Prop := {
  st_ordered : ordered (w_inbox w);
  st_top m s : m ∈ w_inbox w → seq_of m = Some s → s ≤ w_top w;
  st_fits : fits (load (w_home w) key);
  st_polls : w_polls w = [] }.

(** The pages of the pollers hold what they skipped over. *)
Definition page_ok (w : world) (p : Z * list Value) : Prop :=
  ordered p.2 ∧
  (∀ m s, m ∈ p.2 → seq_of m = Some s → s ≤ w_top w) ∧
  ∀ m s m' s', m ∈ w_inbox w → seq_of m = Some s → m' ∈ p.2 → seq_of m' = Some s' → p.1 < s ≤ s' → m ∈ p.2.

Record shown_so_far (w : world) (ms : list Value) (e : list range) : Prop := {
  sf_ordered : ordered (w_inbox w);
  sf_top m s : m ∈ w_inbox w → seq_of m = Some s → s ≤ w_top w;
  sf_low s : i64_min ≤ s → w_top w < s ≤ cursor (load (w_home w) key) → passed_over e s;
  sf_fits : fits (load (w_home w) key);
  sf_polls : Forall (page_ok w) (w_polls w);
  sf_once : StronglySorted Z.lt (seqs ms);
  sf_shown m s : m ∈ ms → seq_of m = Some s → s ≤ cursor (load (w_home w) key);
  sf_none_skipped m s : m ∈ w_inbox w → seq_of m = Some s → s ≤ cursor (load (w_home w) key) → m ∈ ms ∨ passed_over e s }.

Lemma passed_more e e' s : passed_over e s → passed_over (e ++ e') s.
Proof. intros H. apply Exists_app. by left. Qed.

Lemma passed_new e a b s : a < s ≤ b → passed_over (e ++ [(a, b)]) s.
Proof. intros H. apply Exists_app. right. by left. Qed.

Lemma passed_up_to c s : i64_min ≤ s ≤ c → passed_over (up_to c) s.
Proof. intros H. left. cbn. lia. Qed.

(** More may be excused. *)
Lemma shown_more w ms e x : shown_so_far w ms e → shown_so_far w ms (e ++ x).
Proof.
  intros [Ho Ht Hl Hf Hp Hs Hsh Hn]. constructor; try done.
  - intros s Hs1 Hs2. by apply passed_more, Hl.
  - intros m s Hm Es Hle. destruct (Hn m s Hm Es Hle); [by left|right; by apply passed_more].
Qed.

Lemma page_of_ok w after :
  ordered (w_inbox w) → (∀ m s, m ∈ w_inbox w → seq_of m = Some s → s ≤ w_top w) → page_ok w (after, page_of w after).
Proof.
  intros Ho Ht. assert (sublist (page_of w after) (past after (w_inbox w))) as Hs by apply take_sublist.
  assert (ordered (past after (w_inbox w))) as Hop by (by eapply ordered_sublist; [apply past_sublist|]).
  split_and!; cbn [fst snd].
  - by eapply ordered_sublist.
  - intros m s Hm. apply Ht. by eapply sublist_elem; [apply past_sublist|]; eapply sublist_elem.
  - intros m s m' s' Hm Es Hm' Es' Hlt. unfold page_of in *. apply list_elem_of_lookup in Hm' as [i Hi].
    apply lookup_take_Some in Hi as [Hi Hlt'].
    destruct (ordered_prefix (past after (w_inbox w)) i s' Hop) as [_ Hp]; [by rewrite Hi|].
    assert (m ∈ firstn (S i) (past after (w_inbox w))) as Hin by (eapply Hp; [|done|lia]; apply past_elem; eauto with lia).
    eapply sublist_elem; [|exact Hin]. replace (S i) with (min (S i) FETCH_LIMIT) by lia. rewrite <- take_take. apply take_sublist.
Qed.

(** The pages stay as they are where the files change. *)
Lemma page_ok_home w h p : page_ok w p → page_ok (set_home h w) p.
Proof. done. Qed.

(** The cursor stays: nothing is shown. *)
Lemma stays_shown w ms e h :
  shown_so_far w ms e → fits (load h key) → cursor (load h key) = cursor (load (w_home w) key) → shown_so_far (set_home h w) ms e.
Proof.
  intros [Ho Ht Hl Hf Hp Hs Hsh Hn] Hf' Ec. constructor; cbn [w_inbox w_top w_home w_polls set_home]; rewrite ?Ec; done.
Qed.

(** The cursor moves up to [seen] and nothing is printed. *)
Lemma absorb_shown w ms e h seen :
  shown_so_far w ms e → fits (load h key) →
  cursor (load h key) = cursor (load (w_home w) key) ∨ cursor (load h key) = Z.max (cursor (load (w_home w) key)) seen →
  shown_so_far (set_home h w) ms (e ++ [(cursor (load (w_home w) key), seen)]).
Proof.
  intros [Ho Ht Hl Hf Hp Hs Hsh Hn] Hf' Ec. constructor; cbn [w_inbox w_top w_home w_polls set_home]; try done.
  - intros s Hmin Hlt. destruct (decide (s ≤ cursor (load (w_home w) key))) as [Hc|Hc]; [by apply passed_more, Hl; lia|apply passed_new; lia].
  - intros m s Hm Es. pose proof (Hsh m s Hm Es). lia.
  - intros m s Hm Es Hle. destruct (decide (s ≤ cursor (load (w_home w) key))) as [Hc|Hc]; [|right; apply passed_new; lia].
    destruct (Hn m s Hm Es Hc); [by left|right; by apply passed_more].
Qed.

(** The cursor moves to the last of the first messages of a page past it. *)
Lemma advance_shown w ms e x after page h n q :
  shown_so_far w ms e → page_ok w (after, page) → fits (load h key) →
  let c := cursor (load (w_home w) key) in (c < after → x = Some (c, after)) →
  past c page !! n ≫= seq_of = Some q → cursor (load h key) = Z.max c q →
  shown_so_far (set_home h w) (ms ++ firstn (S n) (past c page)) (e ++ option_list x).
Proof.
  intros [Ho Ht Hl Hf Hp Hs Hsh Hn] (Po & Pt & Pc) Hf' c Hst Hq Ec. cbn [fst snd] in *. set (new := firstn (S n) (past c page)) in *.
  assert (ordered (past c page)) as Hop by (by eapply ordered_sublist; [apply past_sublist|]).
  destruct (ordered_prefix _ _ _ Hop Hq) as [Hle Hin].
  assert (∀ m s, m ∈ new → seq_of m = Some s → c < s) as Hc.
  { intros m s Hm Es. eapply sublist_elem in Hm; [|apply take_sublist]. apply past_elem in Hm as (_ & s' & Es' & ?). simplify_eq. done. }
  destruct (past c page !! n) as [mq|] eqn:Emq; [|done]. cbn in Hq.
  assert (mq ∈ page ∧ c < q) as [Hmq Hcq].
  { apply list_elem_of_lookup_2, past_elem in Emq as (? & s' & Es' & ?). simplify_eq. done. }
  assert (q ≤ w_top w) as Hqt by (by eapply Pt).
  replace (Z.max c q) with q in Ec by lia.
  constructor; cbn [w_inbox w_top w_home w_polls set_home]; rewrite ?Ec; try done.
  - lia.
  - unfold seqs. rewrite omap_app. apply StronglySorted_app_2; [|done|].
    + intros a b (m & Hm & Em)%seqs_elem (m' & Hm' & Em')%seqs_elem. pose proof (Hsh m a Hm Em). pose proof (Hc m' b Hm' Em'). lia.
    + apply ordered_seqs. eapply ordered_sublist; [apply take_sublist|done].
  - intros m s [Hm|Hm]%elem_of_app Es; [pose proof (Hsh m s Hm Es); lia|by eapply Hle].
  - intros m s Hm Es Hle'. rewrite elem_of_app. destruct (decide (s ≤ c)) as [Hsc|Hsc].
    { destruct (Hn m s Hm Es Hsc); [by left; left|right; by apply passed_more]. }
    destruct (decide (s ≤ after)) as [Hsa|Hsa]; [right; rewrite Hst by lia; apply passed_new; lia|left; right].
    eapply Hin; [|done|done]. apply past_elem. split; [|exists s; split; [done|lia]]. eapply (Pc m s mq q); try done. lia.
Qed.

(** One run: the cursor and what was shown stay in step. *)
Lemma effect_shown w ms e x after page h o :
  shown_so_far w ms e → page_ok w (after, page) →
  (cursor (load (w_home w) key) < after → x = Some (cursor (load (w_home w) key), after)) →
  hook_effect key (w_home w) h page o → ∃ new, tells o new ∧ shown_so_far (set_home h w) (ms ++ new) (e ++ option_list x).
Proof.
  intros Hw Hpg Hst [Hf' [[Ec Eo]|(n & q & Hq & Ec & Hte)]].
  - exists []. split; [unfold tells; by rewrite Eo|]. rewrite app_nil_r. by apply shown_more, stays_shown.
  - eexists. split; [exact Hte|]. by eapply advance_shown.
Qed.

Lemma under_lock_effect {A} io h (body : SessionState → home → result HookError A * home) r h' :
  under_lock io key h body = HookDone r h' →
  (∃ e, r = Err e ∧ load h' key = load h key) ∨
  ∃ h1, dirs_real h1 ∧ load h1 key = load h key ∧ body (load h key) h1 = (r, h').
Proof.
  unfold under_lock. pose proof (acquire_same io h key) as Ha. destruct (acquire io h key) as [|e h1|s h1]; [done|..].
  - intros [= <- <-]. left. eexists. split; [done|]. apply Ha.
  - destruct Ha as (-> & Hsame & Hd). destruct (body (load h key) h1) as [r1 h2] eqn:E. intros [= <- <-]. right. exists h1.
    split_and!; [done|apply Hsame|done].
Qed.

(** The effect of a run on the page that it worked on, or of a run that absorbs
    what a tool returned. *)
Definition run_ok (w : world) (h : home) (o : HookOutcome) (x : option range) : Prop :=
  let c := cursor (load (w_home w) key) in
  (∃ p, page_ok w p ∧ hook_effect key (w_home w) h p.2 o ∧ (c < p.1 → x = Some (c, p.1))) ∨
  ∃ seen, x = Some (c, seen) ∧ said o = None ∧ fits (load h key) ∧
    (cursor (load h key) = c ∨ cursor (load h key) = Z.max c seen).

Section Runs.
Context (w : world) (ms : list Value) (e : list range) (Hw : shown_so_far w ms e).

Lemma own_page : page_ok w (cursor (load (w_home w) key), page_of w (cursor (load (w_home w) key))).
Proof. destruct Hw. by apply page_of_ok. Qed.

Lemma quiet_run kind r x :
  (∀ o, r = Ok o → said o = None ∧ stderr o = "") → run_ok w (w_home w) (run_outcome kind (Some r)) x.
Proof. intros Hq. left. eexists. split_and!; [apply own_page|apply unchanged; [done|apply Hw|done]|cbn; lia]. Qed.

Lemma locked_run {A} io kind p (f : A → HookOutcome) body r h' x :
  page_ok w p → (cursor (load (w_home w) key) < p.1 → x = Some (cursor (load (w_home w) key), p.1)) → under_lock io key (w_home w) body = HookDone r h' →
  (∀ h1, dirs_real h1 → load h1 key = load (w_home w) key → body (load (w_home w) key) h1 = (r, h') →
     hook_effect key h1 h' p.2 (run_outcome kind (Some (f <$> r)))) →
  run_ok w h' (run_outcome kind (Some (f <$> r))) x.
Proof.
  intros Hp Hx Hu Hb. left. exists p. split_and!; [done| |done].
  destruct (under_lock_effect _ _ _ _ _ Hu) as [(err & -> & E)|(h1 & Hd & E & Ebody)]; [apply unchanged; [done|apply Hw|done]|].
  eapply effect_from; [|by apply (Hb h1)]. by rewrite E.
Qed.

Lemma fmap_id_result {A} (r : result HookError A) : id <$> r = r.
Proof. by destruct r. Qed.

Lemma fetch_own up p : fetch_up w up (cursor (load (w_home w) key)) = Some p → p = page_of w (cursor (load (w_home w) key)).
Proof. destruct up; cbn; congruence. Qed.

Lemma rewake_ok io owner after page r h' :
  env_ok io → (after, page) ∈ w_polls w → rewake_deliver io key opts owner page (w_home w) = HookDone r h' →
  run_ok w h' (run_outcome KRewake (Some (default silent <$> r))) (stale_from w after).
Proof.
  intros Hio Hin Hu. destruct Hw as [_ _ _ Hf Hp _ _ _]. rewrite Forall_forall in Hp. pose proof (Hp _ Hin) as Hpg.
  eapply locked_run; [exact Hpg| |exact Hu|].
  { cbn [fst]. unfold stale_from. intros Hlt. by rewrite (proj2 (Z.ltb_lt _ _) Hlt). }
  intros h1 Hd E Hb. destruct Hpg as (Ho & _).
  eapply (rewake_effect io key opts page Hio _ Ho); try done.
Qed.

(** An inbox tool's result moves the cursor up, and nothing is printed. *)
Lemma absorb_ok io input r h :
  env_ok io → absorb io key (w_home w) input = HookDone r h →
  run_ok w h (run_outcome KContext (Some r)) ((λ seen, (cursor (load (w_home w) key), seen)) <$> (hi_tool_response input ≫= max_seq_in)).
Proof.
  intros Hio. unfold absorb. destruct (hi_tool_response input ≫= max_seq_in) as [seen|] eqn:Eseen; [|intros [= <- <-]; by apply quiet_run, silent_said].
  intros Hu. pose proof (sf_fits _ _ _ Hw) as Hf.
  destruct (under_lock_effect _ _ _ _ _ Hu) as [(err & -> & E)|(h1 & Hd & E & Hb)].
  { right. exists seen. rewrite E. split_and!; [done|by apply quiet, error_said|done|by left]. }
  destruct (Z.ltb_spec (cursor (load (w_home w) key)) seen) as [Hlt|Hle].
  2: { injection Hb as <- <-. right. exists seen. rewrite E. split_and!; [done|by apply quiet, silent_said|done|by left]. }
  assert (fits (stamped io (set_cursor seen (load (w_home w) key)))) as Hfs.
  { apply (fits_stamped io (load (w_home w) key) seen (stop_blocks (load (w_home w) key))); [done..| |apply Hf].
    destruct (hi_tool_response input) as [v|]; [|done]. by apply (max_seq_range v). }
  right. exists seen. destruct (saved_effect _ _ _ _ _ _ _ Hd Hfs Hb) as [(err & -> & E')|(h2 & _ & E' & [= <- <-])].
  - rewrite E', E. split_and!; [done|by apply quiet, error_said|done|by left].
  - rewrite E'. split_and!; [done|by apply quiet, silent_said|done|right; cbn; lia].
Qed.

Lemma run_effect kind r h x : hook_run w kind r h x → run_ok w h (run_outcome kind (Some r)) x.
Proof.
  pose proof own_page as Hpg. pose proof Hpg as (Ho & _). pose proof (sf_fits _ _ _ Hw) as Hf.
  assert (∀ x : option range, cursor (load (w_home w) key) < cursor (load (w_home w) key) → x = Some (cursor (load (w_home w) key), cursor (load (w_home w) key))) as Hown by lia.
  destruct 1 as [io io2 ctx up input r h Hio Hio2 Hr|io ctx up input r h Hio Hr|io ctx up session r h Hio Hr
    |io after page r h Hio Hin Hr|io after page token fast r h Hio Hin Hr|io token r h Hio Htok Hr].
  - unfold context_run in Hr. unfold absorbed.
    assert (∀ ev, under_lock io key (w_home w) (context_body io io2 key opts (fetch_up w up) ev input) = HookDone r h →
      ∀ x, run_ok w h (run_outcome KContext (Some r)) x) as Hbody.
    { intros ev Hr' x. rewrite <- (fmap_id_result r). eapply locked_run; [exact Hpg|apply Hown|exact Hr'|]. intros h1 Hd E Hb. rewrite fmap_id_result.
      eapply (context_effect io io2 key opts (fetch_up w up)); try done; apply fetch_own. }
    destruct (HookEvent_parse (hi_event_name input)) eqn:Eev; try (injection Hr as <- <-; by apply quiet_run, silent_said);
      (destruct ctx; cbn [negb] in Hr; [|injection Hr as <- <-; by apply quiet_run, error_said]);
      (destruct (bool_decide (is_Some _)); [injection Hr as <- <-; by apply quiet_run, silent_said|]);
      (destruct (bool_decide _ && _); [exact (absorb_ok io input r h Hio Hr)|exact (Hbody _ Hr _)]).
  - unfold stop_run in Hr. destruct (bool_decide _); [injection Hr as <- <-; by apply quiet_run, silent_said|].
    destruct ctx; cbn [negb] in Hr; [|injection Hr as <- <-; by apply quiet_run, error_said].
    destruct (hi_stop_hook_active input); [injection Hr as <- <-; by apply quiet_run, silent_said|].
    rewrite <- (fmap_id_result r). eapply locked_run; [exact Hpg|apply Hown|exact Hr|]. intros h1 Hd E Hb. rewrite fmap_id_result.
    eapply (stop_effect io key opts (fetch_up w up)); try done; apply fetch_own.
  - unfold poll_run in Hr. destruct (non_empty session); [|injection Hr as <- <-; by apply quiet_run, error_said].
    destruct ctx; cbn [negb] in Hr; [|injection Hr as <- <-; by apply quiet_run, error_said].
    rewrite <- (fmap_id_result r). eapply locked_run; [exact Hpg|apply Hown|exact Hr|]. intros h1 Hd E Hb. rewrite fmap_id_result.
    eapply (poll_effect io key opts (fetch_up w up)); try done; apply fetch_own.
  - unfold rewake_quick in Hr. destruct page as [|m page]; [injection Hr as <- <-; by apply quiet_run, silent_said|].
    destruct (rewake_deliver io key opts None (m :: page) (w_home w)) as [|r1 h1] eqn:Ed; [done|].
    pose proof (rewake_ok _ _ _ _ _ _ Hio Hin Ed) as Hok. destruct r1; injection Hr as <- <-; exact Hok.
  - unfold rewake_round in Hr. destruct page as [|m page]; [injection Hr as <- <-; destruct fast; by apply quiet_run, silent_said|].
    destruct (rewake_deliver io key opts (Some token) (m :: page) (w_home w)) as [|r1 h1] eqn:Ed; [done|].
    pose proof (rewake_ok _ _ _ _ _ _ Hio Hin Ed) as Hok. destruct r1 as [[o|]|err]; injection Hr as <- <-; destruct fast; exact Hok.
  - rewrite <- (fmap_id_result r). eapply locked_run; [exact Hpg|apply Hown|exact Hr|]. intros h1 Hd E Hb. rewrite fmap_id_result.
    assert (fits (stamped io (set_owner (Some token) (load (w_home w) key)))) as Hfo.
    { apply fits_stamp; [done|]. destruct Hf as [? _]. by split. }
    destruct (saved_effect _ _ _ _ _ _ _ Hd Hfo Hb) as [(err & -> & E')|(h2 & _ & E' & [= <- <-])].
    + apply unchanged; [done|by rewrite E|apply error_said].
    + split; [by rewrite E'|]. left. rewrite E', E. split; [done|]. by apply quiet, silent_said.
Qed.
End Runs.

Lemma wstep_shown w ms e o x w' :
  shown_so_far w ms e → wstep w o x w' →
  ∃ new, shown_so_far w' (ms ++ new) (e ++ option_list x) ∧ match o with Some o => tells o new | None => new = [] end.
Proof.
  intros Hw Hs. pose proof Hw as [Ho Ht Hl Hf Hp Hon Hsh Hn]. destruct Hs as [m seq Em Hlt|inbox Hsub|after|kind r h x Hr]; cbn [option_list].
  - exists []. rewrite !app_nil_r. split; [|done].
    assert (∀ m' s', m' ∈ w_inbox w → seq_of m' = Some s' → s' < seq) as Hlow by (intros m' s' Hm' Es'; pose proof (Ht m' s' Hm' Es'); lia).
    constructor; cbn [w_inbox w_top w_home w_polls]; try done.
    + destruct Ho as [H1 H2]. split; [|apply Forall_app; split; [done|by repeat constructor; eexists]].
      apply StronglySorted_app_2; [|done|by repeat constructor].
      intros a b Ha ->%list_elem_of_singleton. rewrite Forall_forall in H2. destruct (H2 a Ha) as [sa Ea]. exists sa, seq. eauto.
    + intros m' s' [Hm'| ->%list_elem_of_singleton]%elem_of_app Es'; [|simplify_eq; lia]. pose proof (Hlow m' s' Hm' Es'). lia.
    + intros s Hmin Hs. apply Hl; [done|lia].
    + eapply Forall_impl; [exact Hp|]. intros p (P2 & P3 & P4). split_and!; cbn [w_inbox w_top w_home]; try done.
      * intros m' s' Hm' Es'. pose proof (P3 m' s' Hm' Es'). lia.
      * intros m1 s1 m2 s2 [Hm1| ->%list_elem_of_singleton]%elem_of_app E1 Hm2 E2 Hle; [by eapply P4|].
        pose proof (P3 m2 s2 Hm2 E2). simplify_eq. lia.
    + intros m' s' [Hm'| ->%list_elem_of_singleton]%elem_of_app Es' Hle; [by eapply Hn|]. right. simplify_eq. apply Hl; [apply (seq_range m); done|lia].
  - exists []. rewrite !app_nil_r. split; [|done]. constructor; cbn [w_inbox w_top w_home w_polls]; try done.
    + by eapply ordered_sublist.
    + intros m s Hm. apply Ht. by eapply sublist_elem.
    + eapply Forall_impl; [exact Hp|]. intros p (P2 & P3 & P4). split_and!; cbn [w_inbox w_top w_home]; try done.
      intros m1 s1 m2 s2 Hm1. apply P4. by eapply sublist_elem.
    + intros m s Hm. apply Hn. by eapply sublist_elem.
  - exists []. rewrite !app_nil_r. split; [|done]. constructor; cbn [w_inbox w_top w_home w_polls]; try done.
    constructor; [|exact Hp]. exact (page_of_ok w after Ho Ht).
  - destruct (run_effect w ms e Hw kind r h x Hr) as [([after page] & Hpg & He & Hx)|(seen & -> & Hq & Hf' & Ec)].
    + destruct (effect_shown w ms e x after page h _ Hw Hpg Hx He) as (new & Hte & Hsf). by exists new.
    + exists []. rewrite app_nil_r. split; [by apply absorb_shown|]. unfold tells. by rewrite Hq.
Qed.

(** A cursor that was set back, or a session that starts: nothing is shown yet. *)
Lemma starts_shown w :
  ordered (w_inbox w) → (∀ m s, m ∈ w_inbox w → seq_of m = Some s → s ≤ w_top w) → fits (load (w_home w) key) →
  Forall (page_ok w) (w_polls w) → shown_so_far w [] (up_to (cursor (load (w_home w) key))).
Proof.
  intros Ho Ht Hf Hp. constructor; try done.
  - intros s Hmin Hs. apply passed_up_to. lia.
  - constructor.
  - intros m s Hm%elem_of_nil. done.
  - intros m s Hm Es Hle. right. apply passed_up_to. pose proof (seq_range m s Es). lia.
Qed.

(** Fetched pages are kept. *)
Lemma wstep_polls w o x w' p : wstep w o x w' → p ∈ w_polls w → p ∈ w_polls w'.
Proof. destruct 1; cbn [w_polls set_home]; [done..|by right|done]. Qed.

(** The start of a session never moves its cursor forward: the cursor stays or is
    0 again, after a compaction, a clear, or the removal of old files. *)
Lemma session_start_no_advance who unread io h input r h' :
  env_ok io → fits (load h key) → session_start_run io key opts who unread h input = HookDone r h' →
  (cursor (load h' key) = cursor (load h key) ∨ cursor (load h' key) = 0) ∧ fits (load h' key).
Proof.
  intros Hio Hf. unfold session_start_run. destruct (bool_decide _); [intros [= _ <-]; by split; [left|]|].
  set (h0 := gc h (io_now io) SESSION_MAX_AGE_MS).
  assert (load h0 key = load h key ∨ load h0 key = session_default) as Hg.
  { unfold load, find_file, h0, gc, with_files. cbn [hm_hooks hm_sessions hm_files]. destruct (_ && _); [|left; reflexivity].
    rewrite map_lookup_filter. destruct (hm_files h !! json_name key) as [n|]; cbn [mbind option_bind]; [|left; reflexivity].
    case_guard; cbn [mbind option_bind]; [left; reflexivity|right; reflexivity]. }
  assert (fits (load h0 key)) as Hf0 by (destruct Hg as [->| ->]; [done|repeat split; cbn; unfold i64_min, i64_max, u32_max; lia]).
  assert (∀ k, k = load h0 key → (cursor k = cursor (load h key) ∨ cursor k = 0) ∧ fits k) as Hc.
  { intros k ->. split; [|done]. destruct Hg as [->| ->]; [by left|by right]. }
  destruct who as [[[who pk] label]|]; [|intros [= _ <-]; by apply Hc]. unfold session_start_state. fold h0.
  pose proof (acquire_same io h0 key) as Ha. destruct (acquire io h0 key) as [|e h1|s h1]; [done|intros [= _ <-]; by apply Hc, Ha|].
  destruct Ha as (-> & Hs & Hd). intros [= _ <-]. set (c := match hi_source input with Some _ => _ | None => _ end).
  assert (c = cursor (load h0 key) ∨ c = 0) as Ec by (unfold c; repeat case_match; auto).
  destruct (save io key (set_blocks 0 (set_cursor c (load h0 key))) h1) as [r1 h2] eqn:E.
  assert (fits (stamped io (set_blocks 0 (set_cursor c (load h0 key))))) as Hfs.
  { apply fits_stamped; [done..| |unfold u32_max; lia]. destruct Hf0 as [(? & _) _], Ec as [->| ->]; [done|]. unfold i64_min, i64_max. lia. }
  destruct (save_load _ _ _ _ _ _ Hd Hfs E) as [_ Hl]. rewrite Hl. destruct r1; [|by apply Hc, Hs].
  rewrite decide_True by done. split; [|done]. cbn. destruct Ec as [->| ->]; [by apply Hc|by right].
Qed.

(** A start of the session leaves what was shown, or begins anew. *)
Lemma begin_shown w ms out e out' e' w' :
  shown_so_far w ms e → session_begin w out e out' e' w' →
  w_polls w' = w_polls w ∧ (out' = out ∧ shown_so_far w' ms e' ∨ out' = [] ∧ shown_so_far w' [] e').
Proof.
  intros Hw Hb. pose proof Hw as [Ho Ht _ Hf Hp _ _ _]. destruct Hb as [io who unread input r h Hio Hr Ec|io who unread input r h Hio Hr _];
    destruct (session_start_no_advance _ _ _ _ _ _ _ Hio Hf Hr) as [_ Hf']; (split; [done|]).
  - left. split; [done|]. by apply stays_shown.
  - right. split; [done|]. by apply (starts_shown (set_home h w)).
Qed.

End World.
