(* ===== verification/ChannelPush.v ===== *)
(** * agora-mcp: the push task of a session

    The second half of [src/crates/agora-mcp/src/push.rs]: the task that follows
    the events of a session's identity, fetches its inbox and pushes what is new
    on the channel, with the queue, the dedupe cursor and the mark of what the
    session was shown.  Its loop is a sequence of calls; the inbox, whether
    pushing is on, the files of the session and the outcomes of writes are
    arguments. *)

From Stdlib Require Import Ascii.
From S2P Require Import Prelude F64 Strs PyFmt Bytes Claims Task StoreDb Push Framing Notify NotifyText SessionState Hooks Deliver Tracker.

Local Open Scope Z_scope.

Definition PUSH_FETCH_LIMIT : nat := 50.
Definition BACKLOG_LIMIT : nat := 200.
Definition PENDING_CAP : nat := 500.
Definition BACKOFF_MIN : Z := 1000.
Definition BACKOFF_MAX : Z := 30000.
Definition MAX_SLEEP_MS : Z := 24 * 60 * 60 * 1000.

(** The state of the task, with the peer's delivery tracker; instants are times,
    and the session is named by its key ([session_key]). *)
Record PushTask : Type := mk_push {
  pu_seen_upto : Z; pu_linked_before : bool; pu_dirty_since : option Z; pu_last_event : Z;
  pu_bucket : Bucket; pu_pending : list Value; pu_hold_until_ms : Z; pu_me : string;
  pu_session : option string; pu_unsent_floor : option Z; pu_tracker : Tracker }.

Definition new_push (cfg : PushConfig) (me : string) (session : option string) (t : Tracker) (instant now_ms : Z) : PushTask :=
  mk_push 0 false None instant (new_bucket (burst cfg) (refill_ms cfg) now_ms) [] 0 me session None t.

Definition with_tracker (f : Tracker → Tracker) (p : PushTask) : PushTask :=
  mk_push (pu_seen_upto p) (pu_linked_before p) (pu_dirty_since p) (pu_last_event p) (pu_bucket p) (pu_pending p)
    (pu_hold_until_ms p) (pu_me p) (pu_session p) (pu_unsent_floor p) (f (pu_tracker p)).

Definition with_queue (l : list Value) (p : PushTask) : PushTask :=
  mk_push (pu_seen_upto p) (pu_linked_before p) (pu_dirty_since p) (pu_last_event p) (pu_bucket p) l
    (pu_hold_until_ms p) (pu_me p) (pu_session p) (pu_unsent_floor p) (pu_tracker p).

Definition with_floor (floor : option Z) (p : PushTask) : PushTask :=
  mk_push (pu_seen_upto p) (pu_linked_before p) (pu_dirty_since p) (pu_last_event p) (pu_bucket p) (pu_pending p)
    (pu_hold_until_ms p) (pu_me p) (pu_session p) floor (pu_tracker p).

Definition with_seen (seq : Z) (p : PushTask) : PushTask :=
  mk_push seq (pu_linked_before p) (pu_dirty_since p) (pu_last_event p) (pu_bucket p) (pu_pending p)
    (pu_hold_until_ms p) (pu_me p) (pu_session p) (pu_unsent_floor p) (pu_tracker p).

Definition with_bucket (b : Bucket) (p : PushTask) : PushTask :=
  mk_push (pu_seen_upto p) (pu_linked_before p) (pu_dirty_since p) (pu_last_event p) b (pu_pending p)
    (pu_hold_until_ms p) (pu_me p) (pu_session p) (pu_unsent_floor p) (pu_tracker p).

Definition with_hold (ms : Z) (p : PushTask) : PushTask :=
  mk_push (pu_seen_upto p) (pu_linked_before p) (pu_dirty_since p) (pu_last_event p) (pu_bucket p) (pu_pending p)
    ms (pu_me p) (pu_session p) (pu_unsent_floor p) (pu_tracker p).

(** ** Deadlines *)

Definition flush_deadline (last_event dirty_since coalesce : Z) : Z :=
  Z.min (last_event + coalesce) (dirty_since + 4 * coalesce).

Definition next_backoff (current : Z) : Z := Z.min (current * 2) BACKOFF_MAX.

(** How long to wait from [wall_ms] until [at_ms]. *)
Definition wait_until (wall_ms at_ms : Z) : Z :=
  let d := sat_i64 (at_ms - wall_ms) in Z.min (if 0 <=? d then d else 0) MAX_SLEEP_MS.

Definition send_due (p : PushTask) (wall_ms : Z) : Z := Z.max (next_at (pu_bucket p) wall_ms) (pu_hold_until_ms p).

(** ** Messages *)

Definition key_of (m : Value) : option (string * Z) :=
  match seq_of m with Some s => Some (str_field m "channel", s) | None => None end.

Definition messages_of (json : Value) : list Value :=
  match vget "messages" json with Some (VArray l) => l | _ => [] end.

Definition min_seq (msgs : list Value) : option Z :=
  foldl (λ best m, match seq_of m with
                   | Some s => Some (match best with Some b => Z.min b s | None => s end)
                   | None => best
                   end) None msgs.

(** ** Events and fetches *)

Definition mark_dirty (now : Z) (p : PushTask) : PushTask :=
  mk_push (pu_seen_upto p) (pu_linked_before p) (Some (default now (pu_dirty_since p))) now (pu_bucket p) (pu_pending p)
    (pu_hold_until_ms p) (pu_me p) (pu_session p) (pu_unsent_floor p) (pu_tracker p).

(** An acknowledged message no longer waits for its push. *)
Definition acked_by (channel : string) (seq : Z) (m : Value) : bool :=
  match key_of m with Some (c, s) => String.eqb c channel && (s <=? seq) | None => false end.

Definition on_event (now : Z) (e : Event) (p : PushTask) : PushTask :=
  match e with
  | MessageAppended _ _ | ChannelChanged _ | Lagged _ => mark_dirty now p
  | Acked reader channel seq =>
      if String.eqb reader (pu_me p)
      then with_tracker (λ t, on_acked t channel seq)
             (with_queue (List.filter (λ m, negb (acked_by channel seq m)) (pu_pending p)) p)
      else p
  | _ => p
  end.

Definition note_unsent (seq : Z) (p : PushTask) : PushTask :=
  with_floor (Some (match pu_unsent_floor p with Some floor => Z.min floor seq | None => seq end)) p.

(** One fetched message. *)
Definition absorb_one (push : bool) (p : PushTask) (m : Value) : PushTask :=
  match key_of m with
  | None => p
  | Some (channel, seq) =>
      let p := with_tracker (λ t, on_seen t channel seq) p in
      let p := if pu_seen_upto p <? seq
               then if push then with_queue (pu_pending p ++ [m]) p else note_unsent seq p
               else p in
      with_seen (Z.max (pu_seen_upto p) seq) p
  end.

(** The oldest messages beyond the cap are dropped. *)
Definition trim_pending (l : list Value) : list Value * nat :=
  let excess := (length l - PENDING_CAP)%nat in (skipn excess l, excess).

Definition absorb_trim (p : PushTask) : PushTask :=
  let excess := (length (pu_pending p) - PENDING_CAP)%nat in
  let p := match min_seq (firstn excess (pu_pending p)) with Some seq => note_unsent seq p | None => p end in
  let '(kept, dropped) := trim_pending (pu_pending p) in
  let p := with_queue kept p in
  if Nat.ltb 0 dropped then with_tracker (λ t, note_coalesced t (Z.of_nat dropped)) p else p.

(** The state, and whether the cursor moved. *)
Definition absorb_page (msgs : list Value) (push : bool) (p : PushTask) : PushTask * bool :=
  let p' := absorb_trim (foldl (absorb_one push) p msgs) in
  (p', pu_seen_upto p <? pu_seen_upto p').

(** [fetched]: the page past [pu_seen_upto], or nothing when the fetch failed. *)
Definition flush (now : Z) (fetched : option (list Value)) (push : bool) (p : PushTask) : PushTask :=
  let p := mk_push (pu_seen_upto p) (pu_linked_before p) None (pu_last_event p) (pu_bucket p) (pu_pending p)
             (pu_hold_until_ms p) (pu_me p) (pu_session p) (pu_unsent_floor p) (pu_tracker p) in
  match fetched with
  | None => p
  | Some msgs =>
      let '(p, advanced) := absorb_page msgs push p in
      if Nat.leb PUSH_FETCH_LIMIT (length msgs) && advanced then mark_dirty now p else p
  end.

(** The pages of the backlog from [after] on: [None] when a fetch fails, or the
    fuel is out. *)
Fixpoint backlog_pages (fuel : nat) (fetch : Z → option (list Value)) (after : Z) (push : bool)
    (keys : gset (string * Z)) (p : PushTask) : option (gset (string * Z) * PushTask) :=
  match fuel with
  | O => None
  | S f =>
      match fetch after with
      | None => None
      | Some page =>
          let keys := list_to_set (omap key_of page) ∪ keys in
          let p := (absorb_page page push p).1 in
          match max_seq page with
          | Some seq => if Nat.leb BACKLOG_LIMIT (length page) && (after <? seq)
                        then backlog_pages f fetch seq push keys p else Some (keys, p)
          | None => Some (keys, p)
          end
      end
  end.

Definition still_unacked (keys : gset (string * Z)) (m : Value) : bool :=
  match key_of m with Some k => bool_decide (k ∈ keys) | None => false end.

Definition load_backlog (fuel : nat) (fetch : Z → option (list Value)) (enabled : bool) (p : PushTask) : option PushTask :=
  match backlog_pages fuel fetch 0 (pu_linked_before p && enabled) ∅ p with
  | None => None
  | Some (keys, p) =>
      Some (with_queue (List.filter (still_unacked keys) (pu_pending p)) (with_tracker (λ t, retain_only t keys) p))
  end.

(** A link is up: what [serve] does before its loop. *)
Definition link_up (now : Z) (fuel : nat) (fetch : Z → option (list Value)) (enabled : bool) (p : PushTask) : option PushTask :=
  match load_backlog fuel fetch enabled (mark_dirty now p) with
  | None => None
  | Some p => Some (mk_push (pu_seen_upto p) true (pu_dirty_since p) (pu_last_event p) (pu_bucket p) (pu_pending p)
                      (pu_hold_until_ms p) (pu_me p) (pu_session p) (pu_unsent_floor p) (pu_tracker p))
  end.

(** ** Sending *)

(** Where the session's mark may move, and the floor that is left. *)
Definition mark_target (shown_max cursor : Z) (unsent_floor : option Z) : option Z * option Z :=
  let floor := match unsent_floor with Some f => if f <=? cursor then None else Some f | None => None end in
  let target := match floor with Some f => Z.min shown_max (sat_i64 (f - 1)) | None => shown_max end in
  (if cursor <? target then Some target else None, floor).

Section Send.
Context `{SC : SessionCodec}.

(** The tracker is told of every message of the batch. *)
Definition pushed_all (batch : list Value) (now : Z) (t : Tracker) : Tracker :=
  let t := foldl (λ t m, match key_of m with Some (c, s) => on_pushed t c s now | None => t end) t batch in
  if Nat.ltb 1 (length batch) then note_coalesced t (Z.of_nat (length batch - 1)) else t.

(** After a notification went out: what was not shown is noted, and the mark of
    the session moves. *)
Definition after_send (io : io_env) (batch : list Value) (whole : nat) (now : Z) (p : PushTask) (h : home) : PushTask * home :=
  let shown := match pu_session p with Some _ => whole | None => length batch end in
  let p := match min_seq (skipn shown batch) with Some low => note_unsent low p | None => p end in
  let '(p, h) :=
    match pu_session p, max_seq (firstn shown batch) with
    | Some sid, Some max =>
        let '(target, floor) := mark_target max (cursor (load h sid)) (pu_unsent_floor p) in
        (with_floor floor p, match target with Some t => mark_delivered io h sid t | None => h end)
    | _, _ => (p, h)
    end in
  (with_tracker (pushed_all batch now) p, h).

(** [sink]: whether the notifier takes the notification, which is returned. *)
Definition send_pending (io : io_env) (cfg : PushConfig) (wall now : Z) (sink : bool) (p : PushTask) (h : home) :
    PushTask * home * option Value :=
  if bool_decide (pu_pending p = []) || (wall <? pu_hold_until_ms p) then (p, h, None)
  else
    let p := match pu_session p with
             | Some sid => with_queue (drop_delivered h sid (pu_pending p)) p
             | None => p
             end in
    if bool_decide (pu_pending p = []) then (p, h, None)
    else
      let '(ok, b) := try_take (pu_bucket p) wall in
      let p := with_bucket b p in
      if negb ok then (p, h, None)
      else
        let batch := sort_by by_seq (pu_pending p) in
        let p := with_queue batch p in
        let '(note, whole) := build_notification_counted batch cfg in
        if negb sink then (with_hold (sat_i64 (wall + period_ms (refill_ms cfg))) p, h, None)
        else let '(p, h) := after_send io batch whole now (with_queue [] p) h in (p, h, Some note).
End Send.

(** [Engine::sync_delivery] gives the ladder, the heartbeats and the armed rungs. *)
Definition push_tick (now : Z) (ladder : list Mechanism) (enabled : bool) (beats : gmap Mechanism Z) (armed : gset Mechanism)
    (p : PushTask) : PushTask :=
  with_tracker (λ t,
    let t := if decide (t_ladder t = ladder) then t else reconfigure t ladder enabled in
    (tick_with (Tracker.refresh t beats armed) now armed).1) p.

(** The backlog ends: the pages move on, so as many turns as there are sequence
    numbers left are enough. *)
Lemma backlog_pages_total fetch bound push fuel :
  (∀ a, ∃ page, fetch a = Some page ∧ ∀ seq, max_seq page = Some seq → seq ≤ bound) →
  ∀ after keys p, bound - after < Z.of_nat fuel → (1 ≤ fuel)%nat → is_Some (backlog_pages fuel fetch after push keys p).
Proof.
  intros Hf. induction fuel as [|fuel IH]; intros after keys p Hb Hl; [lia|]. cbn [backlog_pages].
  destruct (Hf after) as (page & -> & Hs). cbn zeta. destruct (max_seq page) as [seq|] eqn:E; [|by eexists].
  destruct (Nat.leb _ _); cbn [andb]; [|by eexists]. destruct (Z.ltb_spec after seq); [|by eexists].
  apply IH; specialize (Hs seq eq_refl); lia.
Qed.
