(* ===== verification/PushMark.v ===== *)
(** * agora-mcp: what the mark of the push task passes over

    The push task moves the mark of its session over the messages it showed, so
    that the hooks do not show them again.  What it never showed must stay past
    the mark: the messages of the backlog, those dropped from a full queue and
    those a notification left out or cut. *)

From Stdlib Require Import Ascii.
From S2P Require Import Prelude F64 Strs PyFmt Bytes Claims Task StoreDb Push Framing Notify NotifyText SessionState Hooks Deliver Tracker.
From S2P Require Import HookRun ChannelPush.

Local Open Scope Z_scope.

(** ** Numbers of messages *)

Definition better (f : Z → Z → Z) (best : option Z) (m : Value) : option Z :=
  match seq_of m with Some s => Some (match best with Some b => f b s | None => s end) | None => best end.

Lemma min_seq_spec l acc x :
  foldl (better Z.min) acc l = Some x →
  (∀ b, acc = Some b → x ≤ b) ∧ ∀ m s, m ∈ l → seq_of m = Some s → x ≤ s.
Proof.
  revert acc. induction l as [|m l IH]; intros acc; cbn [foldl].
  { intros ->. split; [intros b [= ->]; lia|intros m s ?%elem_of_nil; done]. }
  intros H. destruct (IH _ H) as [H1 H2]. unfold better in H1.
  destruct (seq_of m) as [s0|] eqn:E.
  - specialize (H1 _ eq_refl). split.
    + intros b ->. lia.
    + intros m' s [->|Hin]%elem_of_cons Es; [|by eapply H2]. simplify_eq. destruct acc; lia.
  - split; [done|]. intros m' s [->|Hin]%elem_of_cons Es; [congruence|by eapply H2].
Qed.

Lemma max_seq_spec l acc x :
  foldl (better Z.max) acc l = Some x → ∀ m s, m ∈ l → seq_of m = Some s → s ≤ x.
Proof.
  assert (∀ l acc x, foldl (better Z.max) acc l = Some x → (∀ b, acc = Some b → b ≤ x) ∧
    ∀ m s, m ∈ l → seq_of m = Some s → s ≤ x) as H; [|intros; by eapply H].
  clear. induction l as [|m l IH]; intros acc x; cbn [foldl].
  { intros ->. split; [intros b [= ->]; lia|intros m s ?%elem_of_nil; done]. }
  intros H. destruct (IH _ _ H) as [H1 H2]. unfold better in H1. destruct (seq_of m) as [s0|] eqn:E.
  - specialize (H1 _ eq_refl). split.
    + intros b ->. lia.
    + intros m' s [->|Hin]%elem_of_cons Es; [|by eapply H2]. simplify_eq. destruct acc; lia.
  - split; [done|]. intros m' s [->|Hin]%elem_of_cons Es; [congruence|by eapply H2].
Qed.

Lemma fold_none f l acc :
  foldl (better f) acc l = None → acc = None ∧ ∀ m, m ∈ l → seq_of m = None.
Proof.
  revert acc. induction l as [|m l IH]; intros acc; cbn [foldl]; [intros ->; split; [done|by intros m ?%elem_of_nil]|].
  intros (H1 & H2)%IH. unfold better in H1. destruct (seq_of m) eqn:E; [done|]. split; [done|].
  intros m' [->|?]%elem_of_cons; auto.
Qed.

Lemma min_seq_le l x m s : min_seq l = Some x → m ∈ l → seq_of m = Some s → x ≤ s.
Proof. intros H. by apply (min_seq_spec l None x). Qed.

Lemma max_seq_ge l x m s : max_seq l = Some x → m ∈ l → seq_of m = Some s → s ≤ x.
Proof. intros H. by apply (max_seq_spec l None x). Qed.

Lemma max_seq_in_range l x : max_seq l = Some x → i64_min ≤ x ≤ i64_max.
Proof.
  assert (∀ l acc, foldl (better Z.max) acc l = Some x → (∀ b, acc = Some b → i64_min ≤ b ≤ i64_max) → i64_min ≤ x ≤ i64_max) as H;
    [|intros Hm; by apply (H l None)].
  clear. induction l as [|m l IH]; intros acc; cbn [foldl]; [by auto|]. intros Hx Ha. apply (IH _ Hx). unfold better.
  destruct (seq_of m) as [s|] eqn:E; [|done]. pose proof (seq_range m s E). intros b [= <-]. destruct acc as [a|]; [|done].
  specialize (Ha a eq_refl). lia.
Qed.

Lemma min_seq_none l m : min_seq l = None → m ∈ l → seq_of m = None.
Proof. intros [_ H]%(fold_none Z.min l None). apply H. Qed.

(** ** A run of the task *)

(** The numbers past the cursor of a page that are new. *)
Fixpoint new_seqs (seen : Z) (msgs : list Value) : list Z :=
  match msgs with
  | [] => []
  | m :: msgs' => match seq_of m with
                  | Some s => (if seen <? s then [s] else []) ++ new_seqs (Z.max seen s) msgs'
                  | None => new_seqs seen msgs'
                  end
  end.

(** The messages of the backlog, page after page. *)
Fixpoint backlog_msgs (fuel : nat) (fetch : Z → option (list Value)) (after : Z) : list Value :=
  match fuel with
  | O => []
  | S f => match fetch after with
           | None => []
           | Some page =>
               page ++ match max_seq page with
                       | Some seq => if Nat.leb BACKLOG_LIMIT (length page) && (after <? seq) then backlog_msgs f fetch seq else []
                       | None => []
                       end
           end
  end.

(** The task and the files, and what happened so far: the new numbers it fetched,
    those that were shown whole or acknowledged, the highest cursor it saw, and
    those that it forgot to have left to the hooks. *)
Record prun : Type := mk_prun {
  pr_task : PushTask; pr_home : home; pr_fetched : list Z; pr_done : list Z; pr_passed : Z; pr_forgot : list Z }.

(** A number that the task fetched and neither shows nor leaves for the hooks. *)
Definition cared (p : PushTask) (done : list Z) (passed s : Z) : Prop :=
  s ∈ seqs (pu_pending p) ∨ s ∈ done ∨ (∃ f, pu_unsent_floor p = Some f ∧ f ≤ s) ∨ s ≤ passed.

Definition task_ok (p : PushTask) (fetched done : list Z) (passed : Z) : Prop :=
  Forall numbered (pu_pending p) ∧ ∀ s, s ∈ fetched → cared p done passed s.

Lemma absorb_one_ok push p m fetched done passed :
  task_ok p fetched done passed →
  task_ok (absorb_one push p m) (fetched ++ new_seqs (pu_seen_upto p) [m]) done passed ∧
  pu_seen_upto (absorb_one push p m) = match seq_of m with Some s => Z.max (pu_seen_upto p) s | None => pu_seen_upto p end.
Proof.
  intros [Hn Hc]. unfold absorb_one, key_of. cbn [new_seqs]. destruct (seq_of m) as [s|] eqn:E; [|by rewrite app_nil_r; split].
  cbn [with_tracker pu_seen_upto]. rewrite app_nil_r. destruct (pu_seen_upto p <? s); [|by rewrite app_nil_r; split; [|done]; split].
  split; [|by destruct push]. destruct push; split; cbn.
  - apply Forall_app. split; [done|]. by repeat constructor; exists s.
  - intros x [Hx| ->%list_elem_of_singleton]%elem_of_app.
    + destruct (Hc x Hx) as [(m' & Hm' & Em')%seqs_elem|Ho]; [left|right; exact Ho]. apply seqs_elem. exists m'.
      split; [by apply elem_of_app; left|done].
    + left. apply seqs_elem. exists m. split; [apply elem_of_app; right; apply list_elem_of_here|done].
  - done.
  - intros x [Hx| ->%list_elem_of_singleton]%elem_of_app.
    + destruct (Hc x Hx) as [?|[?|[(f & Ef & Hf)|?]]]; [by left|by right; left| |by right; right; right].
      right. right. left. cbn. rewrite Ef. eexists. split; [done|lia].
    + right. right. left. cbn. destruct (pu_unsent_floor p); eexists; (split; [done|lia]).
Qed.

Lemma new_seqs_app seen a b :
  new_seqs seen (a ++ b) = new_seqs seen a ++ new_seqs (foldl (λ acc m, match seq_of m with Some s => Z.max acc s | None => acc end) seen a) b.
Proof.
  revert seen. induction a as [|m a IH]; intros seen; [done|]. cbn [app new_seqs foldl]. destruct (seq_of m); [|apply IH].
  by rewrite IH, app_assoc.
Qed.

Lemma absorb_all_ok push p msgs fetched done passed :
  task_ok p fetched done passed →
  let p' := foldl (absorb_one push) p msgs in
  task_ok p' (fetched ++ new_seqs (pu_seen_upto p) msgs) done passed ∧
  pu_seen_upto p' = foldl (λ acc m, match seq_of m with Some s => Z.max acc s | None => acc end) (pu_seen_upto p) msgs.
Proof.
  revert p fetched. induction msgs as [|m msgs IH]; intros p fetched Hok; [by cbn; rewrite app_nil_r; split|].
  destruct (absorb_one_ok push p m fetched done passed Hok) as [Hok1 Es]. cbn [foldl].
  destruct (IH _ _ Hok1) as [Hok2 Es2]. cbn zeta. rewrite Es2, Es in *. split; [|by destruct (seq_of m)].
  cbn [new_seqs] in *. destruct (seq_of m) as [s|]; [|by rewrite app_nil_r in Hok2]. by rewrite app_nil_r, <- app_assoc in Hok2.
Qed.

(** What leaves the queue is covered otherwise. *)
Lemma with_queue_ok p l fetched done done' passed passed' :
  task_ok p fetched done passed → sublist l (pu_pending p) → passed ≤ passed' → (∀ s, s ∈ done → s ∈ done') →
  (∀ m s, m ∈ pu_pending p → seq_of m = Some s → m ∈ l ∨ s ∈ done' ∨ (∃ f, pu_unsent_floor p = Some f ∧ f ≤ s) ∨ s ≤ passed') →
  task_ok (with_queue l p) fetched done' passed'.
Proof.
  intros [Hn Hc] Hs Hp Hd Hm. split; cbn.
  - rewrite Forall_forall in Hn |- *. intros m Hin. apply Hn. by eapply sublist_elem.
  - intros s Hs'. destruct (Hc s Hs') as [(m & Hin & Em)%seqs_elem|[?|[?|?]]].
    + destruct (Hm m s Hin Em) as [Hl|Ho]; [left; apply seqs_elem; by exists m|by right].
    + right. left. auto.
    + right. right. by left.
    + right. right. right. lia.
Qed.

Lemma note_ok p seq fetched done passed :
  task_ok p fetched done passed → task_ok (note_unsent seq p) fetched done passed.
Proof.
  intros [Hn Hc]. split; [done|]. intros s Hs. destruct (Hc s Hs) as [?|[?|[(f & Ef & Hf)|?]]]; [by left|by right; left| |by right; right; right].
  right. right. left. cbn. rewrite Ef. eexists. split; [done|lia].
Qed.

Lemma note_floor p seq : ∃ f, pu_unsent_floor (note_unsent seq p) = Some f ∧ f ≤ seq.
Proof. cbn. destruct (pu_unsent_floor p); eexists; (split; [done|lia]). Qed.

Lemma absorb_trim_ok p fetched done passed :
  task_ok p fetched done passed →
  task_ok (absorb_trim p) fetched done passed ∧ pu_seen_upto (absorb_trim p) = pu_seen_upto p.
Proof.
  intros Hok. unfold absorb_trim. set (excess := (length (pu_pending p) - PENDING_CAP)%nat).
  set (p1 := match min_seq _ with Some seq => note_unsent seq p | None => p end).
  assert (task_ok p1 fetched done passed) as Hok1 by (unfold p1; destruct (min_seq _); [by apply note_ok|done]).
  assert (pu_pending p1 = pu_pending p ∧ pu_seen_upto p1 = pu_seen_upto p) as [Ep Es] by (unfold p1; by destruct (min_seq _)).
  unfold trim_pending. rewrite Ep. fold excess.
  assert (task_ok (with_queue (skipn excess (pu_pending p)) p1) fetched done passed) as Hok2.
  { eapply with_queue_ok; [exact Hok1|rewrite Ep; apply sublist_drop|done|done|].
    intros m s Hm Em. rewrite Ep in Hm. rewrite <- (take_drop excess (pu_pending p)) in Hm. apply elem_of_app in Hm as [Hm|Hm]; [|by left].
    right. right. left. unfold p1. destruct (min_seq (firstn excess (pu_pending p))) as [x|] eqn:Ex.
    - destruct (note_floor p x) as (f & Ef & Hf). exists f. split; [exact Ef|]. pose proof (min_seq_le _ _ _ _ Ex Hm Em). lia.
    - by rewrite (min_seq_none _ _ Ex Hm) in Em. }
  destruct (Nat.ltb 0 excess); (split; [exact Hok2|exact Es]).
Qed.

Lemma absorb_page_ok msgs push p fetched done passed :
  task_ok p fetched done passed →
  task_ok (absorb_page msgs push p).1 (fetched ++ new_seqs (pu_seen_upto p) msgs) done passed ∧
  pu_seen_upto (absorb_page msgs push p).1 = foldl (λ acc m, match seq_of m with Some s => Z.max acc s | None => acc end) (pu_seen_upto p) msgs.
Proof.
  intros Hok. destruct (absorb_all_ok push p msgs _ _ _ Hok) as [H1 E1]. destruct (absorb_trim_ok _ _ _ _ H1) as [H2 E2].
  cbn [absorb_page fst]. split; [exact H2|]. by rewrite E2.
Qed.

Lemma backlog_pages_ok fuel fetch after push keys p fetched done passed keys' p' :
  task_ok p fetched done passed → backlog_pages fuel fetch after push keys p = Some (keys', p') →
  task_ok p' (fetched ++ new_seqs (pu_seen_upto p) (backlog_msgs fuel fetch after)) done passed.
Proof.
  revert after keys p fetched. induction fuel as [|fuel IH]; intros after keys p fetched Hok; [done|]. cbn [backlog_pages backlog_msgs].
  destruct (fetch after) as [page|]; [|done]. destruct (absorb_page_ok page push p _ _ _ Hok) as [Hok1 E1].
  assert (task_ok (absorb_page page push p).1 (fetched ++ new_seqs (pu_seen_upto p) (page ++ [])) done passed) as Hend
    by (by rewrite app_nil_r).
  destruct (max_seq page) as [seq|]; [|by intros [= <- <-]]. destruct (_ && _); [|by intros [= <- <-]].
  intros H. apply (IH _ _ _ _ Hok1) in H. by rewrite E1, <- app_assoc, <- new_seqs_app in H.
Qed.

Section Mark.
Context `{SC : SessionCodec} {SL : SessionCodecLaws SC}.
Context (cfg : PushConfig).

Definition acked_seqs (p : PushTask) (e : Event) : list Z :=
  match e with
  | Acked reader channel seq =>
      if String.eqb reader (pu_me p) then seqs (List.filter (acked_by channel seq) (pu_pending p)) else []
  | _ => []
  end.

(** The batch of a send, and how many messages of it count as shown. *)
Definition batch_of (p : PushTask) (h : home) : list Value :=
  sort_by by_seq match pu_session p with Some sid => drop_delivered h sid (pu_pending p) | None => pu_pending p end.

Definition shown_of (p : PushTask) (h : home) : nat :=
  let batch := batch_of p h in
  match pu_session p with Some _ => (notification_content batch cfg).2 | None => length batch end.

Definition cursor_seen (p : PushTask) (h : home) : Z :=
  match pu_session p with Some sid => cursor (load h sid) | None => i64_min end.

Definition floor_after (p : PushTask) (h : home) : option Z :=
  match min_seq (skipn (shown_of p h) (batch_of p h)) with
  | Some low => pu_unsent_floor (note_unsent low p)
  | None => pu_unsent_floor p
  end.

(** What is shown or acknowledged once the task has sent. *)
Definition done_now (g : prun) : list Z :=
  pr_done g ++ seqs (firstn (shown_of (pr_task g) (pr_home g)) (batch_of (pr_task g) (pr_home g))).

(** Whether a send drops the floor: something is shown, and the cursor has reached
    the first of the messages that were left to the hooks. *)
Definition drops_floor (p : PushTask) (h : home) : bool :=
  match pu_session p, max_seq (firstn (shown_of p h) (batch_of p h)), floor_after p h with
  | Some sid, Some _, Some f => f <=? cursor (load h sid)
  | _, _, _ => false
  end.

(** The numbers past the cursor that are then forgotten. *)
Definition forgotten (g : prun) : list Z :=
  if drops_floor (pr_task g) (pr_home g)
  then List.filter (λ s, (cursor_seen (pr_task g) (pr_home g) <? s) && negb (bool_decide (s ∈ done_now g))) (pr_fetched g)
  else [].

Inductive pstep (g : prun) : prun → Prop :=
| pst_event now e :
    pstep g (mk_prun (on_event now e (pr_task g)) (pr_home g) (pr_fetched g) (pr_done g ++ acked_seqs (pr_task g) e) (pr_passed g) (pr_forgot g))
| pst_flush now msgs push :
    pstep g (mk_prun (flush now (Some msgs) push (pr_task g)) (pr_home g)
      (pr_fetched g ++ new_seqs (pu_seen_upto (pr_task g)) msgs) (pr_done g) (pr_passed g) (pr_forgot g))
| pst_flush_failed now push :
    pstep g (mk_prun (flush now None push (pr_task g)) (pr_home g) (pr_fetched g) (pr_done g) (pr_passed g) (pr_forgot g))
| pst_link now fuel fetch enabled keys p p' :
    (* the messages that are no longer unread left the queue *)
    backlog_pages fuel fetch 0 (pu_linked_before (pr_task g) && enabled) ∅ (mark_dirty now (pr_task g)) = Some (keys, p) →
    link_up now fuel fetch enabled (pr_task g) = Some p' →
    pstep g (mk_prun p' (pr_home g) (pr_fetched g ++ new_seqs (pu_seen_upto (pr_task g)) (backlog_msgs fuel fetch 0))
      (pr_done g ++ seqs (List.filter (λ m, negb (still_unacked keys m)) (pu_pending p))) (pr_passed g) (pr_forgot g))
| pst_send io wall now p h note :
    send_pending io cfg wall now true (pr_task g) (pr_home g) = (p, h, Some note) →
    pstep g (mk_prun p h (pr_fetched g) (done_now g) (Z.max (pr_passed g) (cursor_seen (pr_task g) (pr_home g))) (pr_forgot g ++ forgotten g))
| pst_not_sent io wall now sink p h :
    send_pending io cfg wall now sink (pr_task g) (pr_home g) = (p, h, None) →
    pstep g (mk_prun p h (pr_fetched g) (pr_done g) (Z.max (pr_passed g) (cursor_seen (pr_task g) (pr_home g))) (pr_forgot g))
| pst_tick now ladder enabled beats armed :
    pstep g (mk_prun (push_tick now ladder enabled beats armed (pr_task g)) (pr_home g) (pr_fetched g) (pr_done g) (pr_passed g) (pr_forgot g))
| pst_hooks h :
    (* the hooks of the session ran *)
    pstep g (mk_prun (pr_task g) h (pr_fetched g) (pr_done g) (pr_passed g) (pr_forgot g)).

Definition run_good (g : prun) : Prop := task_ok (pr_task g) (pr_fetched g) (pr_forgot g ++ pr_done g) (pr_passed g).

Lemma more_done p fetched done done' passed : (∀ s, s ∈ done → s ∈ done') → task_ok p fetched done passed → task_ok p fetched done' passed.
Proof. intros Hd [Hn Hc]. split; [done|]. intros s Hs. destruct (Hc s Hs) as [?|[?|[?|?]]]; unfold cared; auto. Qed.

Lemma filter_or {A} (f : A → bool) l x : x ∈ l → x ∈ List.filter f l ∨ x ∈ List.filter (λ y, negb (f y)) l.
Proof.
  rewrite !list_elem_of_In, !List.filter_In, <- !list_elem_of_In. destruct (f x); auto.
Qed.

Lemma drop_delivered_ok p h sid fetched done passed :
  task_ok p fetched done passed →
  task_ok (with_queue (drop_delivered h sid (pu_pending p)) p) fetched done (Z.max passed (cursor (load h sid))).
Proof.
  intros Hok. eapply with_queue_ok; [exact Hok|apply bool_filter_sublist|lia|done|]. intros m s Hm Em.
  unfold drop_delivered. rewrite list_elem_of_In, List.filter_In, <- list_elem_of_In, Em. rewrite Z.ltb_lt.
  destruct (decide (cursor (load h sid) < s)); [by left|]. right. right. right. lia.
Qed.

Lemma same_fields_ok p p' fetched done passed :
  task_ok p fetched done passed → pu_pending p' = pu_pending p → pu_unsent_floor p' = pu_unsent_floor p →
  task_ok p' fetched done passed.
Proof.
  intros [Hn Hc] E1 E2. split; [by rewrite E1|]. intros s Hs. destruct (Hc s Hs) as [?|[?|[?|?]]]; unfold cared; rewrite E1, E2; auto.
Qed.

Lemma more_passed p fetched done passed passed' : passed ≤ passed' → task_ok p fetched done passed → task_ok p fetched done passed'.
Proof. intros Hle [Hn Hc]. split; [done|]. intros s Hs. destruct (Hc s Hs) as [?|[?|[?|?]]]; unfold cared; auto with lia. Qed.

Lemma sorted_queue_ok p l fetched done passed :
  task_ok p fetched done passed → l ≡ₚ pu_pending p → task_ok (with_queue l p) fetched done passed.
Proof.
  intros [Hn Hc] Hp. split; cbn; [by rewrite Hp|]. intros s Hs. destruct (Hc s Hs) as [(m & Hm & Em)%seqs_elem|Ho]; [left|right; exact Ho].
  apply seqs_elem. exists m. cbn. by rewrite Hp.
Qed.

(** The queue before a send. *)
Definition send_queue (p : PushTask) (h : home) : PushTask :=
  match pu_session p with Some sid => with_queue (drop_delivered h sid (pu_pending p)) p | None => p end.

Lemma send_queue_ok p h fetched done passed :
  task_ok p fetched done passed →
  task_ok (send_queue p h) fetched done (Z.max passed (cursor_seen p h)).
Proof.
  intros Hok. unfold send_queue, cursor_seen. destruct (pu_session p); [by apply drop_delivered_ok|]. eapply more_passed; [|exact Hok]. lia.
Qed.

Lemma not_sent_ok io wall now sink p h p' h' fetched done passed :
  task_ok p fetched done passed → send_pending io cfg wall now sink p h = (p', h', None) →
  task_ok p' fetched done (Z.max passed (cursor_seen p h)).
Proof.
  intros Hok. unfold send_pending. destruct (_ || _); [intros [= <- <-]; eapply more_passed; [|exact Hok]; lia|].
  fold (send_queue p h). pose proof (send_queue_ok p h _ _ _ Hok) as Hq. set (q := send_queue p h) in *. clearbody q.
  destruct (bool_decide _); [by intros [= <- <-]|]. destruct (try_take _ _) as [ok b]. destruct ok; cbn [negb]; [|by intros [= <- <-]].
  destruct (build_notification_counted _ _) as [note whole]. destruct sink; cbn [negb]; [by destruct (after_send _ _ _ _ _ _)|].
  intros [= <- <-]. apply (same_fields_ok (with_queue (sort_by by_seq (pu_pending q)) q)); [|done|done].
  apply sorted_queue_ok; [done|]. apply sort_by_perm.
Qed.

(** What a send leaves behind. *)
Lemma sent_shape io wall now p h p' h' note :
  send_pending io cfg wall now true p h = (p', h', Some note) →
  let shown := shown_of p h in let batch := batch_of p h in
  pu_pending p' = [] ∧ note = (build_notification_counted batch cfg).1 ∧ pu_session p' = pu_session p ∧
  match pu_session p, max_seq (firstn shown batch) with
  | Some sid, Some mx =>
      let '(target, floor) := mark_target mx (cursor (load h sid)) (floor_after p h) in
      pu_unsent_floor p' = floor ∧ h' = match target with Some t => mark_delivered io h sid t | None => h end
  | _, _ => pu_unsent_floor p' = floor_after p h ∧ h' = h
  end.
Proof.
  unfold send_pending. destruct (_ || _); [done|]. fold (send_queue p h). set (q := send_queue p h).
  assert (sort_by by_seq (pu_pending q) = batch_of p h ∧ pu_unsent_floor q = pu_unsent_floor p ∧ pu_session q = pu_session p) as (Eb & Ef & Es)
    by (unfold q, send_queue, batch_of; by destruct (pu_session p) eqn:E; rewrite ?E).
  clearbody q. destruct (bool_decide _); [done|]. destruct (try_take _ _) as [ok b]. destruct ok; [|done]. cbn [negb].
  change (pu_pending (with_bucket b q)) with (pu_pending q). rewrite Eb. unfold build_notification_counted, shown_of.
  destruct (notification_content (batch_of p h) cfg) as [content whole] eqn:Ec. cbn [fst snd].
  unfold after_send, floor_after, shown_of. cbn [with_queue with_bucket pu_session]. rewrite Es, Ec. cbn [snd].
  set (shown := match pu_session p with Some _ => whole | None => _ end).
  set (p1 := match min_seq (skipn shown (batch_of p h)) with Some low => _ | None => _ end).
  assert (pu_pending p1 = [] ∧ pu_session p1 = pu_session p ∧ pu_unsent_floor p1 =
    match min_seq (skipn shown (batch_of p h)) with Some low => pu_unsent_floor (note_unsent low p) | None => pu_unsent_floor p end) as (E1 & E2 & E3).
  { unfold p1. destruct (min_seq _) as [low|]; (split; [reflexivity|split; [exact Es|]]); [|exact Ef].
    exact (f_equal (λ o, Some (match o with Some fl => Z.min fl low | None => low end)) Ef). }
  rewrite E2, <- E3. clearbody p1. destruct (pu_session p) as [sid|]; [|intros [= <- <- <-]; exact (conj E1 (conj eq_refl (conj E2 (conj eq_refl eq_refl))))].
  destruct (max_seq _) as [mx|]; [|intros [= <- <- <-]; exact (conj E1 (conj eq_refl (conj E2 (conj eq_refl eq_refl))))].
  destruct (mark_target _ _ _) as [target floor]. intros [= <- <- <-]. exact (conj E1 (conj eq_refl (conj E2 (conj eq_refl eq_refl)))).
Qed.

(** Every fetched number is shown, passed, or not below the floor. *)
Lemma sent_cover p h fetched done passed s :
  task_ok p fetched done passed → s ∈ fetched →
  s ∈ done ++ seqs (firstn (shown_of p h) (batch_of p h)) ∨ s ≤ Z.max passed (cursor_seen p h) ∨
  ∃ f, floor_after p h = Some f ∧ f ≤ s.
Proof.
  intros Hok Hs. destruct (send_queue_ok p h _ _ _ Hok) as [_ Hc].
  assert (pu_pending (send_queue p h) ≡ₚ batch_of p h ∧ pu_unsent_floor (send_queue p h) = pu_unsent_floor p) as [Eb Ef].
  { unfold send_queue, batch_of. rewrite sort_by_perm. by destruct (pu_session p). }
  set (shown := shown_of p h). set (batch := batch_of p h) in *. unfold floor_after. fold shown batch.
  destruct (Hc s Hs) as [(m & Hm & Em)%seqs_elem|[?|[(f & Efl & Hf)|?]]].
  - rewrite Eb, <- (take_drop shown batch) in Hm. apply elem_of_app in Hm as [Hm|Hm].
    + left. apply elem_of_app. right. apply seqs_elem. by exists m.
    + right. right. destruct (min_seq (skipn shown batch)) as [x|] eqn:Ex; [|by rewrite (min_seq_none _ _ Ex Hm) in Em].
      destruct (note_floor p x) as (f & Efl & Hf). exists f. split; [done|]. pose proof (min_seq_le _ _ _ _ Ex Hm Em). lia.
  - left. apply elem_of_app. by left.
  - right. right. rewrite Ef in Efl. destruct (min_seq (skipn shown batch)); [|by exists f]. cbn. rewrite Efl. eexists. split; [done|lia].
  - by right; left.
Qed.

Lemma mark_target_floor mx c floor :
  let '(target, floor') := mark_target mx c floor in
  (floor' = floor ∨ floor' = None ∧ ∃ f, floor = Some f ∧ f ≤ c) ∧
  ∀ t, target = Some t → c < t ∧ (i64_min ≤ c → ∀ f, floor' = Some f → t < f).
Proof.
  unfold mark_target. destruct floor as [f|]; [destruct (Z.leb_spec f c)|]; (split; [eauto|]); intros t Ht.
  - destruct (Z.ltb_spec c mx); [|done]. injection Ht as <-. done.
  - destruct (Z.ltb_spec c (mx `min` sat_i64 (f - 1))) as [Hlt|]; [|done]. injection Ht as <-. split; [done|]. intros Hc f' [= <-].
    unfold sat_i64, i64_max, i64_min in *. lia.
  - destruct (Z.ltb_spec c mx); [|done]. injection Ht as <-. done.
Qed.

Lemma mark_target_le mx c floor floor' t : mark_target mx c floor = (Some t, floor') → t ≤ mx.
Proof.
  unfold mark_target. intros H. destruct floor as [f|]; [destruct (f <=? c)|]; case_match; simplify_eq; lia.
Qed.

(** A send keeps the floor, or forgets what is not shown past the cursor. *)
Lemma sent_floor io wall now g p h note :
  send_pending io cfg wall now true (pr_task g) (pr_home g) = (p, h, Some note) →
  pu_unsent_floor p = floor_after (pr_task g) (pr_home g) ∨ drops_floor (pr_task g) (pr_home g) = true.
Proof.
  intros Hsend. destruct (sent_shape _ _ _ _ _ _ _ _ Hsend) as (_ & _ & _ & Hm). unfold drops_floor.
  destruct (pu_session (pr_task g)) as [sid|]; [|left; apply Hm]. destruct (max_seq _) as [mx|]; [|left; apply Hm].
  pose proof (mark_target_floor mx (cursor (load (pr_home g) sid)) (floor_after (pr_task g) (pr_home g))) as Hmt.
  destruct (mark_target _ _ _) as [target floor]. destruct Hm as [-> _], Hmt as [[->|[_ (f & -> & Hle)]] _]; [by left|right]. by apply Z.leb_le.
Qed.

Lemma forgotten_cover g s :
  drops_floor (pr_task g) (pr_home g) = true → s ∈ pr_fetched g →
  s ∈ done_now g ∨ s ≤ cursor_seen (pr_task g) (pr_home g) ∨ s ∈ forgotten g.
Proof.
  intros Hd Hs. unfold forgotten. rewrite Hd. destruct (decide (s ≤ cursor_seen (pr_task g) (pr_home g))) as [|Hc]; [by right; left|].
  destruct (decide (s ∈ done_now g)) as [|Hn]; [by left|]. right. right.
  rewrite list_elem_of_In, List.filter_In, <- list_elem_of_In. split; [done|]. rewrite bool_decide_eq_false_2 by done. lia.
Qed.

Lemma pstep_good g g' : run_good g → pstep g g' → run_good g'.
Proof.
  unfold run_good. intros Hok Hs. destruct Hs as [now e|now msgs push|now push|now fuel fetch enabled keys p p' Hb Hl|io wall now p h note Hsend
    |io wall now sink p h Hsend|now ladder enabled beats armed|h]; cbn [pr_task pr_home pr_fetched pr_done pr_passed pr_forgot].
  - assert (task_ok (pr_task g) (pr_fetched g) (pr_forgot g ++ pr_done g ++ []) (pr_passed g)) as Hok' by (by rewrite app_nil_r).
    destruct e; try exact Hok'; try exact (same_fields_ok _ _ _ _ _ Hok' eq_refl eq_refl). cbn [on_event acked_seqs].
    destruct (String.eqb reader (pu_me (pr_task g))); [|exact Hok'].
    apply (same_fields_ok (with_queue (List.filter (λ m, negb (acked_by channel seq m)) (pu_pending (pr_task g))) (pr_task g))); [|done|done].
    eapply with_queue_ok; [exact Hok|apply bool_filter_sublist|done|intros s Hs; rewrite app_assoc; apply elem_of_app; by left|].
    intros m s Hm Em. destruct (filter_or (acked_by channel seq) _ _ Hm) as [Hf|Hf]; [|by left].
    right. left. rewrite app_assoc. apply elem_of_app. right. apply seqs_elem. by exists m.
  - unfold flush. set (p0 := mk_push _ _ _ _ _ _ _ _ _ _ _). assert (task_ok p0 (pr_fetched g) (pr_forgot g ++ pr_done g) (pr_passed g)) as H0
      by (exact (same_fields_ok _ _ _ _ _ Hok eq_refl eq_refl)).
    destruct (absorb_page_ok msgs push p0 _ _ _ H0) as [H1 _]. destruct (absorb_page msgs push p0) as [p1 adv]. cbn [fst] in H1.
    destruct (_ && _); [exact (same_fields_ok _ _ _ _ _ H1 eq_refl eq_refl)|exact H1].
  - exact (same_fields_ok _ _ _ _ _ Hok eq_refl eq_refl).
  - unfold link_up, load_backlog in Hl. change (pu_linked_before (mark_dirty now (pr_task g))) with (pu_linked_before (pr_task g)) in Hl.
    rewrite Hb in Hl. injection Hl as <-.
    assert (task_ok (mark_dirty now (pr_task g)) (pr_fetched g) (pr_forgot g ++ pr_done g) (pr_passed g)) as H0 by (exact (same_fields_ok _ _ _ _ _ Hok eq_refl eq_refl)).
    pose proof (backlog_pages_ok _ _ _ _ _ _ _ _ _ _ _ H0 Hb) as H1. cbn [mark_dirty pu_seen_upto] in H1.
    apply (same_fields_ok (with_queue (List.filter (still_unacked keys) (pu_pending p)) p)); [|done|done].
    eapply with_queue_ok; [exact H1|apply bool_filter_sublist|done|intros s Hs; rewrite app_assoc; apply elem_of_app; by left|].
    intros m s Hm Em. destruct (filter_or (still_unacked keys) _ _ Hm) as [Hf|Hf]; [by left|].
    right. left. rewrite app_assoc. apply elem_of_app. right. apply seqs_elem. by exists m.
  - destruct (sent_shape _ _ _ _ _ _ _ _ Hsend) as (Ep & _ & _ & Hm). split; [by rewrite Ep|]. intros s Hs. unfold cared. rewrite Ep.
    destruct (sent_cover _ (pr_home g) _ _ _ s Hok Hs) as [Hd|[Hp|(f & Ef & Hf)]].
    + right. left. rewrite <- app_assoc in Hd. rewrite !elem_of_app in Hd |- *. unfold done_now. rewrite elem_of_app. tauto.
    + by right; right; right.
    + destruct (sent_floor _ _ _ _ _ _ _ Hsend) as [E|Hdf]; [right; right; left; exists f; by rewrite E|].
      destruct (forgotten_cover g s Hdf Hs) as [H|[H|H]]; [right; left; rewrite !elem_of_app; tauto|right; right; right; lia|].
      right. left. rewrite !elem_of_app. tauto.
  - by eapply not_sent_ok.
  - exact (same_fields_ok _ _ _ _ _ Hok eq_refl eq_refl).
  - done.
Qed.

Inductive preach : prun → Prop :=
| pr_start me session t instant now h : preach (mk_prun (new_push cfg me session t instant now) h [] [] i64_min [])
| pr_step g g' : preach g → pstep g g' → preach g'.

Lemma preach_good g : preach g → run_good g.
Proof.
  induction 1 as [me session t instant now h|g g' _ IH Hs]; [|by eapply pstep_good]. split; [constructor|].
  intros s Hs%elem_of_nil. done.
Qed.

(** C25: the mark of the push task passes over nothing that was not shown, but
    where it forgets what it left to the hooks. When a send moves the session's
    cursor up, every new message that the task has fetched, up to the new cursor,
    was shown whole in a notification or was acknowledged, or lies below a cursor
    that the task found, or was forgotten: at this send or an earlier one the
    cursor had reached the first message that was left to the hooks, which makes
    the task drop its note of all of them, and the message was past the cursor and
    not shown. *)
Theorem mark_passes_shown g io wall now p h note sid :
  preach g → send_pending io cfg wall now true (pr_task g) (pr_home g) = (p, h, Some note) →
  pu_session (pr_task g) = Some sid → env_ok io → fits (load (pr_home g) sid) →
  cursor (load (pr_home g) sid) ≤ cursor (load h sid) ∧
  (cursor (load h sid) ≠ cursor (load (pr_home g) sid) → ∀ s, s ∈ pr_fetched g → s ≤ cursor (load h sid) →
     s ∈ done_now g ∨ s ≤ Z.max (pr_passed g) (cursor (load (pr_home g) sid)) ∨ s ∈ pr_forgot g ++ forgotten g).
Proof.
  intros Hg%preach_good Hsend Hsid Hio Hfit.
  destruct (sent_shape _ _ _ _ _ _ _ _ Hsend) as (_ & _ & _ & Hm). rewrite Hsid in Hm.
  assert (cursor_seen (pr_task g) (pr_home g) = cursor (load (pr_home g) sid)) as Ecs by (unfold cursor_seen; by rewrite Hsid).
  pose proof (sent_floor _ _ _ _ _ _ _ Hsend) as Hfl.
  set (c := cursor (load (pr_home g) sid)) in *. destruct (max_seq _) as [mx|] eqn:Emx; [|destruct Hm as [_ ->]; by split].
  pose proof (mark_target_floor mx c (floor_after (pr_task g) (pr_home g))) as Hmt.
  destruct (mark_target _ _ _) as [target floor] eqn:Emt. destruct Hm as [Efl ->], Hmt as [_ Ht]. rewrite Efl in Hfl.
  destruct target as [t|]; [|by split]. destruct (Ht t eq_refl) as [Hct Htf]. unfold mark_delivered.
  destruct (try_advance io (pr_home g) sid t) as [r h'] eqn:Ea. cbn [snd].
  assert (i64_min ≤ c ≤ i64_max) as Hci by (by destruct Hfit as [(? & _) _]).
  assert (t ≤ mx) as Htm by (by eapply mark_target_le).
  pose proof (max_seq_in_range _ _ Emx) as Hmx.
  assert (fits (stamped io (set_cursor t (load (pr_home g) sid)))) as Hft.
  { apply fits_stamp; [done|]. destruct Hfit as [(? & ? & ?) ?]. split; [|done]. split_and!; cbn; try done; lia. }
  destruct (try_advance_spec _ _ _ _ _ _ Ea Hft sid) as [El Hlt]. fold c in Hlt.
  destruct r as [[]|e]; rewrite El; [|by split..]. rewrite decide_True by done. cbn [cursor stamped set_cursor]. split; [lia|].
  intros _ s Hs Hle. destruct (sent_cover _ (pr_home g) _ _ _ s Hg Hs) as [Hd|[Hp|(f & Ef & Hf)]].
  - rewrite <- app_assoc, elem_of_app in Hd. rewrite elem_of_app. unfold done_now. tauto.
  - right. left. by rewrite Ecs in Hp.
  - destruct Hfl as [E|Hdf]; [exfalso; rewrite Ef in E; pose proof (Htf ltac:(lia) f E); lia|].
    destruct (forgotten_cover g s Hdf Hs) as [H|[H|H]]; [by left|right; left; rewrite Ecs in H; lia|]. rewrite elem_of_app. tauto.
Qed.
End Mark.
