(* ===== verification/SessionDemo.v ===== *)
(** * A concrete session

    A codec for session states with its laws, and runs on it: of the hooks, one
    that shows a message and one in which a message that was to be shown again is
    passed over; of the push task, one in which the mark moves over what was shown
    and one in which it moves over a message that nobody showed. *)

From Stdlib Require Import Ascii.
From S2P Require Import Prelude F64 Strs Deliver Tracker PyFmt Task Claims Bytes StoreDb.
From S2P Require Import DemoCodec Framing Push Notify NotifyText SessionState Hooks HookRun.
From S2P Require Import ChannelPush PushMark.

Local Open Scope Z_scope.

Definition demo_state_json (s : SessionState) : string :=
  demo_list [z_text (cursor s); z_text (stop_blocks s); opt_text (rewake_owner s); z_text (updated_ms s)].

Definition demo_state_parse (text : string) : option SessionState :=
  l ← parse_list text;
  match l with
  | [c; b; o; u] => c ← text_z c; b ← text_z b; o ← text_opt o; u ← text_z u; Some (mk_session c b o u)
  | _ => None
  end.

#[export] Instance demo_session : SessionCodec := {| state_of_json := demo_state_parse; state_to_json := demo_state_json |}.

Lemma pos_text_length p n : (Zpos p < 2 ^ Z.of_nat n) → (String.length (pos_text p) ≤ n)%nat.
Proof.
  revert n. induction p as [p IH|p IH|]; intros n Hp; cbn [pos_text String.length]; [..|lia];
    (destruct n as [|n]; [cbn in Hp; lia|]; rewrite Nat2Z.inj_succ, Z.pow_succ_r in Hp by lia; specialize (IH n ltac:(lia)); lia).
Qed.

Lemma z_text_length z : i64_min ≤ z ≤ i64_max → (String.length (z_text z) ≤ 65)%nat.
Proof.
  intros Hz. unfold i64_min, i64_max in Hz. destruct z as [|p|p]; cbn [z_text String.length]; [lia|..];
    pose proof (pos_text_length p 64 ltac:(change (2 ^ Z.of_nat 64) with 18446744073709551616; lia)); lia.
Qed.

Lemma encode_text_length s : String.length (encode_text s) = S (2 * String.length s).
Proof. induction s as [|c s IH]; [done|]. cbn [encode_text String.length]. rewrite IH. lia. Qed.

#[export] Instance demo_session_laws : SessionCodecLaws demo_session.
Proof.
  split.
  - intros [c b o u] _. change (demo_state_parse (demo_state_json (mk_session c b o u)) = Some (mk_session c b o u)).
    unfold demo_state_parse, demo_state_json. rewrite parse_list_demo. cbn [cursor stop_blocks rewake_owner updated_ms].
    cbn [mbind option_bind]. rewrite text_z_text. cbn [mbind option_bind]. rewrite text_z_text. cbn [mbind option_bind].
    rewrite text_opt_text. cbn [mbind option_bind]. by rewrite text_z_text.
  - intros [c b o u] (Hc & Hb & Hu). cbn [state_to_json demo_session demo_state_json cursor stop_blocks rewake_owner updated_ms] in *.
    unfold demo_state_json. cbn [demo_list encode_texts cursor stop_blocks rewake_owner updated_ms]. rewrite !length_str_app, !encode_text_length.
    pose proof (z_text_length c ltac:(lia)). pose proof (z_text_length b ltac:(unfold u32_max, i64_min, i64_max in *; lia)).
    pose proof (z_text_length u ltac:(lia)). assert (String.length (opt_text o) ≤ 2 + 2 * String.length (default "" o))%nat as Ho.
    { destruct o as [o|]; [|done]. change (opt_text (Some o)) with (encode_text o +:+ ""). rewrite length_str_app, encode_text_length.
      cbn. lia. }
    change (String.length "") with 0%nat. lia.
Qed.

(** ** A run *)

Definition demo_io : io_env := mk_io true true true true 5000.
Definition demo_home : home := mk_home true DirMissing DirMissing ∅ ∅.
Definition demo_opts : HookOptions := mk_hook_options DEFAULT_BUDGET_MS DEFAULT_MAX_WAIT_MS false DEFAULT_MAX_BLOCKS 2000.

Definition demo_message (seq : Z) (text : string) : Value :=
  VObject [("channel", VString "room"); ("seq", VNumber (NInt seq)); ("text", VString text)].

Definition prompt : HookInput := mk_hook_input "UserPromptSubmit" None None None false None.

Definition world0 : world := mk_world demo_home [] 0 [].
Definition world1 : world := mk_world demo_home [demo_message 1 "hello"] 1 [].

Definition context_home (w : world) : home :=
  match context_run demo_io demo_io "s" demo_opts (fetch_up w true) true (w_home w) prompt with
  | HookDone _ h => h
  | HookWaits => w_home w
  end.

Definition context_said (w : world) : result HookError HookOutcome :=
  match context_run demo_io demo_io "s" demo_opts (fetch_up w true) true (w_home w) prompt with
  | HookDone r _ => r
  | HookWaits => Err HClient
  end.

Lemma context_demo w r h :
  context_run demo_io demo_io "s" demo_opts (fetch_up w true) true (w_home w) prompt = HookDone r h →
  hook_run "s" demo_opts w KContext r h None.
Proof.
  intros Hr. change None with (absorbed "s" w prompt).
  eapply (run_context _ _ _ demo_io demo_io true true prompt); [unfold env_ok, i64_min, i64_max; cbn; lia..|exact Hr].
Qed.

Definition context_outcome : HookOutcome := run_outcome KContext (Some (context_said world1)).

Lemma demo_delivered : session "s" demo_opts world0 [context_outcome] (up_to 0) (set_home (context_home world1) world1).
Proof.
  apply (se_step _ _ _ [] (up_to 0) world1 (Some context_outcome) None).
  - apply (se_step _ _ _ [] (up_to 0) world0 None None); [apply (se_start "s" demo_opts world0)|].
    apply (ws_arrive _ _ world0 (demo_message 1 "hello") 1); by vm_compute.
  - apply ws_run, context_demo. by vm_compute.
Qed.

Lemma world0_starts : starts "s" world0.
Proof.
  constructor; [by split; constructor|by intros m s ?%elem_of_nil| |done].
  split; [split_and!; by vm_compute|by apply Nat.leb_le; vm_compute].
Qed.


(** ** A message that is not shown again *)

(** Both messages were shown or fetched by a poller when the context of the agent
    was compacted, which is to show every unread message again. The poller's page
    starts past the first, and moves the cursor past it. *)
Definition compacted : home := default demo_home (session_start_state demo_io "s" (context_home world1) (Some "compact")).

Definition woken : home :=
  match rewake_deliver demo_io "s" demo_opts None [demo_message 2 "again"] compacted with HookDone _ h => h | HookWaits => compacted end.

Example reset_passed_over :
  cursor (load (context_home world1) "s") = 1 ∧ cursor (load compacted "s") = 0 ∧ cursor (load woken "s") = 2 ∧
  past (cursor (load woken "s")) [demo_message 1 "hello"; demo_message 2 "again"] = [].
Proof. split_and!; by vm_compute. Qed.

(** ** The push task *)

Definition task0 : PushTask := new_push push_default "me" (Some "s") (new_tracker [WaitTool] false) 0 0.

Definition nothing_unread (after : Z) : option (list Value) := Some [].

Definition run0 : prun := mk_prun task0 demo_home [] [] i64_min [].

Lemma run0_reached : preach push_default run0.
Proof. exact (pr_start _ "me" (Some "s") (new_tracker [WaitTool] false) 0 0 demo_home). Qed.

(** The link comes up with an empty inbox, and a message arrives. *)
Definition linked (fetch : Z → option (list Value)) (p : PushTask) : PushTask := default p (link_up 0 2 fetch true p).

Definition run_pushed : prun :=
  mk_prun (flush 0 (Some [demo_message 1 "hello"]) true (linked nothing_unread task0)) demo_home [1] [] i64_min [].

Lemma run_pushed_reached : preach push_default run_pushed.
Proof.
  eapply pr_step; [eapply pr_step; [exact run0_reached|]|].
  - eapply (pst_link _ run0 0 2 nothing_unread true); by vm_compute.
  - by apply (pst_flush _ (mk_prun (linked nothing_unread task0) demo_home [] [] i64_min []) 0 [demo_message 1 "hello"] true).
Qed.

(** What a send does at a time when a token is free. *)
Local Notation send g := (send_pending demo_io push_default 5000 5000 true (pr_task g) (pr_home g)).

(** The numbers that were shown or acknowledged once the task has sent. *)
Definition done_after (g : prun) : list Z := done_now push_default g.

Lemma demo_env : env_ok demo_io.
Proof. unfold env_ok, i64_min, i64_max. cbn. lia. Qed.

Lemma mark_passes_shown_witness : cursor (load (send run_pushed).1.2 "s") = 1 ∧ 1 ∈ done_after run_pushed.
Proof.
  assert (cursor (load (send run_pushed).1.2 "s") = 1) as Ec by (by vm_compute). split; [exact Ec|]. unfold done_after.
  assert (is_Some (send run_pushed).2) as [note' Hn] by (by vm_compute; eexists).
  destruct (send run_pushed) as [[p h] [note|]] eqn:E; [|discriminate Hn]. change (cursor (load h "s") = 1) in Ec. clear Hn.
  assert (fits (load (pr_home run_pushed) "s")) as Hf.
  { split; [split_and!; by vm_compute|]. apply Nat.leb_le. by vm_compute. }
  assert (forgotten push_default run_pushed = []) as Hfl by (by vm_compute).
  assert ((Z.max (pr_passed run_pushed) (cursor (load (pr_home run_pushed) "s")) <? 1) = true) as Hp by (by vm_compute).
  apply Z.ltb_lt in Hp.
  destruct (mark_passes_shown push_default run_pushed demo_io 5000 5000 p h note "s" run_pushed_reached E
    ltac:(by vm_compute) demo_env Hf) as [_ H].
  rewrite Ec in H. assert (1 ≠ cursor (load (pr_home run_pushed) "s")) as H1 by lia. specialize (H H1 1).
  specialize (H ltac:(apply list_elem_of_here)). specialize (H ltac:(lia)). destruct H as [Hd|[Hd|Hd]]; [exact Hd| |]; exfalso; [lia|].
  rewrite Hfl in Hd. by apply elem_of_nil in Hd.
Defined.

(** ** A message that nobody shows *)

(** Two messages are unread when the link comes up. *)
Definition backlog : list Value := [demo_message 1 "first"; demo_message 2 "second"].
Definition backlog_fetch (after : Z) : option (list Value) := Some (past after backlog).

(** A hook that has room for the first of them. *)
Definition small_opts : HookOptions := mk_hook_options DEFAULT_BUDGET_MS DEFAULT_MAX_WAIT_MS false DEFAULT_MAX_BLOCKS 480.

Definition hook_home : home :=
  match context_run demo_io demo_io "s" small_opts backlog_fetch true demo_home prompt with HookDone _ h => h | HookWaits => demo_home end.

Definition run_linked : prun := mk_prun (linked backlog_fetch task0) demo_home [1; 2] [] i64_min [].

(** The pages of the backlog, as the link read them. *)
Definition linked_pages : gset (string * Z) * PushTask :=
  default (∅, task0) (backlog_pages 2 backlog_fetch 0 false ∅ (mark_dirty 0 task0)).

Lemma linked_pages_read :
  backlog_pages 2 backlog_fetch 0 (pu_linked_before (pr_task run0) && true) ∅ (mark_dirty 0 (pr_task run0)) =
    Some (linked_pages.1, linked_pages.2).
Proof. vm_cast_no_check (eq_refl (Some (linked_pages.1, linked_pages.2))). Qed.

Lemma linked_read : link_up 0 2 backlog_fetch true (pr_task run0) = Some (linked backlog_fetch task0).
Proof. vm_cast_no_check (eq_refl (Some (linked backlog_fetch task0))). Qed.

Lemma run_linked_is : run_linked =
  mk_prun (linked backlog_fetch task0) (pr_home run0)
    (pr_fetched run0 ++ new_seqs (pu_seen_upto (pr_task run0)) (backlog_msgs 2 backlog_fetch 0))
    (pr_done run0 ++ seqs (List.filter (λ m, negb (still_unacked linked_pages.1 m)) (pu_pending linked_pages.2))) (pr_passed run0) (pr_forgot run0).
Proof. by vm_compute. Qed.

(** The hook ran, and then a third message arrived. *)
Definition run_left : prun :=
  mk_prun (flush 0 (Some [demo_message 3 "third"]) true (pr_task run_linked)) hook_home [1; 2; 3] [] i64_min [].

Lemma run_left_reached : preach push_default run_left.
Proof.
  assert (preach push_default run_linked) as H1.
  { rewrite run_linked_is. exact (pr_step _ run0 _ run0_reached (pst_link push_default run0 0 2 backlog_fetch true
      linked_pages.1 linked_pages.2 (linked backlog_fetch task0) linked_pages_read linked_read)). }
  pose proof (pr_step _ _ _ H1 (pst_hooks push_default run_linked hook_home)) as H2.
  assert (∃ g', pstep push_default (mk_prun (pr_task run_linked) hook_home (pr_fetched run_linked) (pr_done run_linked) (pr_passed run_linked) (pr_forgot run_linked)) g' ∧
    g' = run_left) as (g' & Hs & ->).
  { eexists. split; [exact (pst_flush push_default _ 0 [demo_message 3 "third"] true)|by vm_compute]. }
  exact (pr_step _ _ _ H2 Hs).
Qed.

(** C26: the mark can pass over a message that nobody showed. Two messages are
    unread when the link comes up and are left to the hooks; a hook has room for
    the first of them only; then a third arrives and is pushed. The cursor has
    reached the first message that was left, so the task forgets that there was
    another: the mark moves to the third, and no hook shows the second. *)
Theorem mark_skips_unshown :
  preach push_default run_left ∧ is_Some (send run_left).2 ∧
  2 ∈ pr_fetched run_left ∧ ¬ 2 ∈ done_after run_left ∧ cursor (load (pr_home run_left) "s") = 1 ∧
  cursor (load (send run_left).1.2 "s") = 3 ∧
  past (cursor (load (send run_left).1.2 "s")) (backlog ++ [demo_message 3 "third"]) = [].
Proof.
  split; [exact run_left_reached|]. split; [by vm_compute; eexists|].
  split; [apply list_elem_of_further, list_elem_of_here|].
  assert (done_after run_left = [3]) as -> by (by vm_compute).
  split; [intros H%list_elem_of_singleton; discriminate H|]. split; [by vm_compute|]. split; by vm_compute.
Qed.
