(* ===== verification/Metrics.v ===== *)
(** * agora-store: flow metrics and the board summary

    [src/crates/agora-store/src/metrics.rs] and [cards_ext/board.rs]: what the
    cards and jobs of a window of time add up to, read from the tables and the
    event log.  The time a card was blocked is the time that the replay of its
    events says it was. *)

From Stdlib Require Import Ascii.
From stdpp Require Import list_numbers.
From S2P Require Import Prelude F64 Strs PyFmt Bytes Core Crypto Task Settings Predict StoreDb Identity.
From S2P Require Import Policy Board BoardLog Leases StoreReconcile.

Local Open Scope Z_scope.

(** ** What the events of a card say ([CardFlow]) *)

Definition DEFAULT_WINDOW_MS : Z := 14 * 24 * 60 * 60 * 1000.

Definition WIP_STATES : list CardState := [Backlog; Ready; Claimed; Doing; Review; Blocked].

Record CardFlow : Type := mk_flow {
  fl_created : option Z; fl_first_doing : option Z; fl_last_done : option Z;
  fl_blocked : list (Z * Z); fl_blocked_since : option Z }.

Definition no_flow : CardFlow := mk_flow None None None [] None.

(** [get_or_insert]. *)
Definition or_insert (o : option Z) (ts : Z) : option Z := Some (default ts o).

Definition is_text (s : string) (o : option string) : bool := match o with Some t => String.eqb t s | None => false end.

(** The card leaves before it enters: a move from blocked into blocked starts a
    new interval. *)
Definition leave_blocked (ts : Z) (from : option string) (f : CardFlow) : CardFlow :=
  match fl_blocked_since f with
  | Some entered =>
      if is_text "blocked" from
      then mk_flow (fl_created f) (fl_first_doing f) (fl_last_done f) (fl_blocked f ++ [(entered, ts)]) None
      else f
  | None => f
  end.

Definition enter_state (ts : Z) (to : option string) (f : CardFlow) : CardFlow :=
  if is_text "doing" to
  then mk_flow (fl_created f) (or_insert (fl_first_doing f) ts) (fl_last_done f) (fl_blocked f) (fl_blocked_since f)
  else if is_text "done" to
  then mk_flow (fl_created f) (fl_first_doing f) (Some ts) (fl_blocked f) (fl_blocked_since f)
  else if is_text "blocked" to
  then mk_flow (fl_created f) (fl_first_doing f) (fl_last_done f) (fl_blocked f) (or_insert (fl_blocked_since f) ts)
  else f.

Definition flow_apply (kind : string) (ts : Z) (from to : option string) (f : CardFlow) : CardFlow :=
  if String.eqb kind "card.created"
  then mk_flow (or_insert (fl_created f) ts) (fl_first_doing f) (fl_last_done f) (fl_blocked f) (fl_blocked_since f)
  else if String.eqb kind "card.moved" then enter_state ts to (leave_blocked ts from f)
  else f.

(** ** Durations *)

Definition secs (ms : Z) : f64 := (f_of_Z ms / f_of_Z 1000)%f64.

Definition overlap (start stop since now : Z) : Z := Z.max (sat_i64 (Z.min stop now - Z.max start since)) 0.

Definition in_window (since now t : Z) : bool := (since <=? t) && (t <=? now).

(** ** The report *)

Record MetricsReport : Type := mk_metrics {
  mr_since_ms : Z; mr_until_ms : Z; mr_cards_done : Z;
  mr_lead_p50 : option f64; mr_lead_p90 : option f64; mr_cycle_p50 : option f64; mr_cycle_p90 : option f64;
  mr_wip : gmap string Z; mr_blocked_total : f64; mr_blocked_avg : option f64;
  mr_jobs_done : Z; mr_jobs_failed : Z; mr_wait_p50 : option f64; mr_wait_p90 : option f64 }.

Definition in_filter (team lane : option string) (c : card) : bool :=
  match team with Some t => String.eqb (c_team c) t | None => true end
  && match lane with Some l => String.eqb (c_lane c) l | None => true end.

(** What one card adds to the sums. *)
Definition done_at (since now : Z) (f : CardFlow) : option Z :=
  match fl_last_done f with Some t => if in_window since now t then Some t else None | None => None end.

Definition lead_of (since now : Z) (cf : Z * CardFlow) : option f64 :=
  match done_at since now cf.2 with
  | Some t => Some (secs (sat_i64 (t - default cf.1 (fl_created cf.2))))
  | None => None
  end.

Definition cycle_of (since now : Z) (cf : Z * CardFlow) : option f64 :=
  match done_at since now cf.2, fl_first_doing cf.2 with
  | Some t, Some doing => if doing <=? t then Some (secs (sat_i64 (t - doing))) else None
  | _, _ => None
  end.

Definition blocked_in_window (since now : Z) (f : CardFlow) : Z :=
  let open := map (λ entered : Z, (entered, now)) (option_list (fl_blocked_since f)) in
  foldl (λ (acc : Z) (iv : Z * Z), sat_i64 (acc + overlap iv.1 iv.2 since now)) 0 (fl_blocked f ++ open).

Definition sum_blocked (l : list Z) : Z := foldl (λ acc b, if 0 <? b then sat_i64 (acc + b) else acc) 0 l.

Section Report.
Context `{PC : PolicyCodec}.

(** [json_extract] of a member, read as an optional text: a number or a boolean
    is not text. *)
Definition json_extract (key : string) (v : Value) : result StoreError (option string) :=
  match vget key v with
  | None | Some VNull => Ok None
  | Some (VString s) => Ok (Some s)
  | Some (VBool _) | Some (VNumber _) => Err StoreIo
  | Some w => Ok (Some (value_text w))
  end.

(** The rows of the join: the events of a card that the flow reads. *)
Definition flow_events (d : db) (id : string) : list event :=
  List.filter (λ e, String.eqb (e_subject e) id && (String.eqb (e_kind e) "card.created" || String.eqb (e_kind e) "card.moved"))
    (events d).

Definition read_flow (f : CardFlow) (e : event) : result StoreError CardFlow :=
  from ← json_extract "from" (e_data e);
  to ← json_extract "to" (e_data e);
  Ok (flow_apply (e_kind e) (e_ts e) from to f).

Definition card_flow (d : db) (c : card) : result StoreError (Z * CardFlow) :=
  f ← foldl (λ acc e, acc ≫= λ f, read_flow f e) (Ok no_flow) (flow_events d (c_id c));
  Ok (c_created c, f).

(** The cards of the filter, in the order of their ids. *)
Definition filtered (d : db) (team lane : option string) : list card :=
  sort_by (λ a b, String.compare (c_id a) (c_id b)) (List.filter (in_filter team lane) (cards d)).

Definition card_flows (d : db) (team lane : option string) : result StoreError (list (Z * CardFlow)) :=
  try_map (card_flow d) (filtered d team lane).

(** [GROUP BY c.state]: a state with its cards; the others have no key. *)
Definition wip_counts (d : db) (team lane : option string) : gmap string Z :=
  let rows := List.filter (in_filter team lane) (cards d) in
  let groups := (λ s, (s, Z.of_nat (length (List.filter (λ c, String.eqb (c_state c) s) rows)))) <$> remove_dups (c_state <$> rows) in
  foldl (λ m g, alter (λ _, g.2) g.1 m) (list_to_map ((λ s, (card_as_str s, 0)) <$> WIP_STATES)) groups.

Definition ended_in (since now : Z) (t : work_task) : bool := from_option (in_window since now) false (rn_ended (w_run t)).

Definition job_outcomes (d : db) (since now : Z) : Z * Z :=
  let rows := List.filter (ended_in since now) (work_tasks (work d)) in
  let count s := Z.of_nat (length (List.filter (λ t, String.eqb (w_state t) s) rows)) in
  (count "done", count "failed").

(** A difference that does not fit 64 bits is no integer in SQL. *)
Definition queue_wait (since now : Z) (t : work_task) : option (result StoreError f64) :=
  match rn_started (w_run t), cl_requested (w_claim t) with
  | Some started, Some requested =>
      if in_window since now started
      then Some (if in_i64 (started - requested) then Ok (secs (started - requested)) else Err StoreIo)
      else None
  | _, _ => None
  end.

Definition queue_waits (d : db) (since now : Z) : result StoreError (list f64) :=
  try_map id (omap (queue_wait since now) (work_tasks (work d))).

Definition metrics (d : db) (now : Z) (team lane : option string) (since_ms : option Z) : result StoreError MetricsReport :=
  let since := default (sat_i64 (now - DEFAULT_WINDOW_MS)) since_ms in
  flows ← card_flows d team lane;
  let done := omap (λ cf : Z * CardFlow, done_at since now cf.2) flows in
  let lead := omap (lead_of since now) flows in
  let cycle := omap (cycle_of since now) flows in
  let blocked := (λ cf : Z * CardFlow, blocked_in_window since now cf.2) <$> flows in
  let blocked_cards := Z.of_nat (length (List.filter (λ b, 0 <? b) blocked)) in
  waits ← queue_waits d since now;
  let total := secs (sum_blocked blocked) in
  let jobs := job_outcomes d since now in
  Ok (mk_metrics since now (Z.of_nat (length done)) (median lead) (percentile lead P90) (median cycle) (percentile cycle P90)
    (wip_counts d team lane) total (if 0 <? blocked_cards then Some (total / f_of_Z blocked_cards)%f64 else None)
    jobs.1 jobs.2 (median waits) (percentile waits P90)).

(** ** The board summary ([board_extras]) *)

Record QuietView : Type := mk_quiet_view {
  qv_state : string; qv_job : option string; qv_lease : option string; qv_seconds_left : f64; qv_text : string }.
Record BoardExtras : Type := mk_extras {
  bx_needs_owner : list NeedsOwner; bx_wip : list WipView; bx_running : Z; bx_waiting : Z; bx_queued : Z;
  bx_open_leases : Z; bx_quiet : option QuietView; bx_paused : option string }.

Definition count_rows {A} (f : A → bool) (l : list A) : Z := count_u32 (Z.of_nat (length (List.filter f l))).

Definition needs_owner_cards (d : db) : list NeedsOwner :=
  (λ c, mk_needs_owner (c_id c) (c_title c) (c_owner_action c)) <$>
    sort_by (λ a b, String.compare (c_id a) (c_id b)) (List.filter c_needs_owner (cards d)).

Definition pair_cmp (a b : string * string) : comparison :=
  match String.compare a.1 b.1 with Eq => String.compare a.2 b.2 | c => c end.

Definition in_progress (team lane : string) (c : card) : bool :=
  String.eqb (c_team c) team && String.eqb (c_lane c) lane && (String.eqb (c_state c) "claimed" || String.eqb (c_state c) "doing").

(** A lane is shown when it has cards in progress or a limit. *)
Definition lane_view (p : string * string) : tx (option WipView) :=
  count ← query (λ d, count_rows (in_progress p.1 p.2) (cards d));
  e ← effective_for p.1 p.2 false;
  mret (if (0 <? count) || bool_decide (is_Some (ef_wip_limit e)) then Some (mk_wip_view p.1 p.2 count (ef_wip_limit e)) else None).

Fixpoint tx_map {A B} (f : A → tx B) (l : list A) : tx (list B) :=
  match l with [] => mret [] | x :: l' => y ← f x; ys ← tx_map f l'; mret (y :: ys) end.

Definition lane_views : tx (list WipView) :=
  pairs ← query (λ d, sort_by pair_cmp (remove_dups ((λ c, (c_team c, c_lane c)) <$> cards d)));
  views ← tx_map lane_view pairs;
  mret (omap id views).

Definition by_created (a b : lease) : comparison :=
  match l_created a ?= l_created b with Eq => String.compare (l_id a) (l_id b) | c => c end.

Definition quiet_view (now : Z) (d : db) : option QuietView :=
  match sort_by by_created (List.filter open_quiet (leases d)) with
  | [] => None
  | l :: _ =>
      Some (mk_quiet_view "manual" None (Some (l_id l))
        (match l_expected_end l with Some stop => f_max (secs (sat_i64 (stop - now))) (f_of_Z 0) | None => f_of_Z 0 end)
        ("manual quiet window " +:+ l_id l))
  end.

Definition board_extras (now : Z) : tx BoardExtras :=
  needs ← query needs_owner_cards;
  wip ← lane_views;
  d ← query id;
  let tasks := work_tasks (work d) in
  mret (mk_extras needs wip
    (count_rows (λ t, String.eqb (w_state t) "running") tasks)
    (count_rows (λ t, String.eqb (w_state t) "claimed" && bool_decide (is_Some (cl_requested (w_claim t)))
                     && bool_decide (rn_started (w_run t) = None)) tasks)
    (count_rows (λ t, String.eqb (w_state t) "queued") tasks)
    (count_rows (active_at now) (leases d)) (quiet_view now d)
    (snd <$> List.find (λ kv, String.eqb kv.1 "admission_paused") (work_state (work d)))).
End Report.

(** ** The time a card was blocked *)

(** Whether the log has the card blocked at a time. *)
Definition blocked_at (evs : list event) (id : string) (t : Z) : bool :=
  bool_decide (replay (List.filter (λ e, e_ts e <=? t) evs) id = Some Blocked).

(** The milliseconds from [since] on, before [now], at which it is. *)
Definition ms_blocked (evs : list event) (id : string) (since now : Z) : Z :=
  Z.of_nat (length (List.filter (blocked_at evs id) (seqZ since (now - since)))).

Definition events_of (id : string) (evs : list event) : list event := List.filter (λ e, String.eqb (e_subject e) id) evs.

(** What an event of a card says fits the state before it: a move tells whether
    it leaves the blocked state, and a card is not created or reclaimed while it
    is blocked. *)
Definition event_fits (s : option CardState) (e : event) : Prop :=
  (e_kind e = "card.created" → s ≠ Some Blocked ∧ vget "from" (e_data e) = None ∧ vget "to" (e_data e) = None) ∧
  (e_kind e = "card.reclaimed" → s ≠ Some Blocked) ∧
  (e_kind e = "card.moved" → ∃ from to, vget "from" (e_data e) = Some (VString (card_as_str from)) ∧
     vget "to" (e_data e) = Some (VString (card_as_str to)) ∧ (from = Blocked ↔ s = Some Blocked)).

(** The events of a card: their times do not go back, and each fits. *)
Inductive history_ok (id : string) : list event → Prop :=
| ho_nil : history_ok id []
| ho_snoc evs e :
    history_ok id evs → e_subject e = id → Forall (λ x, e_ts x ≤ e_ts e) evs → event_fits (replay evs id) e →
    history_ok id (evs ++ [e]).

(** *** Counting times *)

Lemma count_split (P : Z → bool) since m now :
  since ≤ m ≤ now →
  length (List.filter P (seqZ since (now - since))) =
    (length (List.filter P (seqZ since (m - since))) + length (List.filter P (seqZ m (now - m))))%nat.
Proof.
  intros H. replace (now - since) with ((m - since) + (now - m)) by lia. rewrite seqZ_app by lia.
  rewrite List.filter_app, length_app. by replace (since + (m - since)) with m by lia.
Qed.

Lemma count_ext (P Q : Z → bool) since now :
  (∀ t, since ≤ t < now → P t = Q t) → List.filter P (seqZ since (now - since)) = List.filter Q (seqZ since (now - since)).
Proof. intros H. apply List.filter_ext_in. intros t Ht%list_elem_of_In%elem_of_seqZ. apply H. lia. Qed.

Lemma count_const (b : bool) since now :
  since ≤ now → Z.of_nat (length (List.filter (λ _, b) (seqZ since (now - since)))) = if b then now - since else 0.
Proof.
  intros H. assert (∀ l : list Z, List.filter (λ _, b) l = if b then l else []) as ->.
  { intros l. induction l as [|x l IH]; cbn; [by destruct b|]. rewrite IH. by destruct b. }
  destruct b; [rewrite length_seqZ; lia|done].
Qed.

(** One more event, no earlier than the others: the times up to it are as before. *)
Lemma ms_blocked_snoc evs e id since now :
  since ≤ now → Forall (λ x, e_ts x ≤ e_ts e) evs →
  let m := Z.max since (Z.min (e_ts e) now) in
  ms_blocked (evs ++ [e]) id since now =
    ms_blocked evs id since m + (if bool_decide (replay (evs ++ [e]) id = Some Blocked) then now - m else 0).
Proof.
  intros Hle Hts m. unfold ms_blocked. rewrite (count_split _ since m now), Nat2Z.inj_add by lia. f_equal.
  - do 2 f_equal. apply count_ext. intros t Ht. unfold blocked_at. rewrite List.filter_app. cbn.
    destruct (Z.leb_spec (e_ts e) t); [lia|]. by rewrite app_nil_r.
  - rewrite <- (count_const _ m now) by lia. do 2 f_equal. apply count_ext. intros t Ht. unfold blocked_at.
    do 2 f_equal. rewrite (List.filter_ext_in _ (λ _, true)), List.filter_true; [done|].
    intros x Hx%list_elem_of_In. apply Z.leb_le. rewrite Forall_forall in Hts.
    apply elem_of_app in Hx as [Hx| ->%list_elem_of_singleton]; [specialize (Hts x Hx)|]; lia.
Qed.

(** *** The intervals of a flow *)

Definition span (start stop since now : Z) : Z := Z.max (Z.min stop now - Z.max start since) 0.

Definition closed_time (f : CardFlow) (since now : Z) : Z :=
  foldr (λ (iv : Z * Z) acc, span iv.1 iv.2 since now + acc) 0 (fl_blocked f).

Definition open_time (f : CardFlow) (since now : Z) : Z :=
  match fl_blocked_since f with Some entered => span entered now since now | None => 0 end.

(** What the flow holds is no later than [T]. *)
Definition flow_until (f : CardFlow) (T : Z) : Prop :=
  Forall (λ iv : Z * Z, iv.2 ≤ T) (fl_blocked f) ∧ from_option (λ entered, entered ≤ T) True (fl_blocked_since f).

Lemma closed_until f T since now :
  Forall (λ iv : Z * Z, iv.2 ≤ T) (fl_blocked f) → since ≤ now →
  closed_time f since now = closed_time f since (Z.max since (Z.min T now)).
Proof.
  intros H Hle. unfold closed_time. induction H as [|iv l Hiv _ IH]; [done|]. cbn. rewrite IH. unfold span. lia.
Qed.

Lemma closed_snoc l a b f since now :
  fl_blocked f = l ++ [(a, b)] →
  closed_time f since now = foldr (λ (iv : Z * Z) acc, span iv.1 iv.2 since now + acc) 0 l + span a b since now.
Proof. intros E. unfold closed_time. rewrite E. clear E. induction l as [|x l IH]; cbn; [lia|]. rewrite IH. lia. Qed.

(** The flow of the events read so far. *)
Record flow_tells (f : CardFlow) (evs : list event) (id : string) : Prop := {
  ft_open : is_Some (fl_blocked_since f) ↔ replay evs id = Some Blocked;
  ft_until T : Forall (λ x, e_ts x ≤ T) evs → flow_until f T;
  ft_time since now : since ≤ now → closed_time f since now + open_time f since now = ms_blocked evs id since now }.

Section Tells.
Context (f f' : CardFlow) (evs : list event) (e : event) (id : string).
Context (Hf : flow_tells f evs id) (Hts : Forall (λ x, e_ts x ≤ e_ts e) evs).

(** Nothing moved in or out of the blocked state. *)
Lemma tells_same :
  fl_blocked f' = fl_blocked f → fl_blocked_since f' = fl_blocked_since f →
  (replay (evs ++ [e]) id = Some Blocked ↔ replay evs id = Some Blocked) → flow_tells f' (evs ++ [e]) id.
Proof using Hf Hts.
  intros E1 E2 Er. destruct Hf as [Ho Hu Ht]. split.
  - by rewrite E2, Er.
  - intros T [HT _]%Forall_app. unfold flow_until. rewrite E1, E2. by apply Hu.
  - intros since now Hle. rewrite ms_blocked_snoc by done. set (m := Z.max since _).
    rewrite <- Ht by lia. unfold closed_time at 1, open_time at 1. rewrite E1, E2. fold (closed_time f since now) (open_time f since now).
    destruct (Hu _ Hts) as [Hc Hs]. rewrite (closed_until f (e_ts e) since now) by done. fold m.
    rewrite (bool_decide_ext _ _ Er). unfold open_time. case_bool_decide as Eb.
    + destruct (fl_blocked_since f) as [a|] eqn:Ea; [|by apply Ho in Eb as []]. cbn in Hs. unfold span. lia.
    + destruct (fl_blocked_since f) as [a|] eqn:Ea; [|lia]. destruct Eb. by apply Ho.
Qed.

(** A move out of the state, or between others, then perhaps into it. *)
Lemma tells_left l (b : bool) :
  match fl_blocked_since f with Some a => l = fl_blocked f ++ [(a, e_ts e)] | None => l = fl_blocked f end →
  fl_blocked f' = l → fl_blocked_since f' = (if b then Some (e_ts e) else None) →
  (replay (evs ++ [e]) id = Some Blocked ↔ b = true) → flow_tells f' (evs ++ [e]) id.
Proof using Hf Hts.
  intros El E1 E2 Er. destruct Hf as [Ho Hu Ht]. split.
  - rewrite E2, Er. destruct b; [|by split; [intros [? ?]|]]. split; [done|]. intros _. by exists (e_ts e).
  - intros T HT. pose proof HT as [HT1 HT2]%Forall_app. assert (e_ts e ≤ T) as HT3 by (by inversion HT2). destruct (Hu T HT1) as [H1 H2].
    unfold flow_until. rewrite E1, E2. split; [|destruct b; cbn; done]. destruct (fl_blocked_since f); subst l; [|done].
    apply Forall_app. split; [done|]. by repeat constructor.
  - intros since now Hle. rewrite ms_blocked_snoc by done. set (m := Z.max since _). rewrite <- Ht by lia.
    destruct (Hu _ Hts) as [Hc Hs]. rewrite (bool_decide_ext _ _ Er).
    assert (closed_time f' since now = closed_time f since m + open_time f since m) as ->.
    { unfold open_time. destruct (fl_blocked_since f) as [a|] eqn:Ea; subst l.
      - rewrite (closed_snoc _ _ _ _ _ _ E1). change (foldr _ _ _) with (closed_time f since now).
        rewrite (closed_until f (e_ts e)) by done. fold m. cbn in Hs. unfold span. lia.
      - unfold closed_time at 1. rewrite E1. change (foldr _ _ _) with (closed_time f since now).
        rewrite (closed_until f (e_ts e)) by done. fold m. lia. }
    unfold open_time at 2. rewrite E2. destruct b; [rewrite bool_decide_true by done|rewrite bool_decide_false by done]; unfold span; lia.
Qed.
End Tells.

(** *** Reading the log *)

Section Log.
Context `{PC : PolicyCodec}.

Definition read_all (evs : list event) : result StoreError CardFlow :=
  foldl (λ acc e, acc ≫= λ f, read_flow f e) (Ok no_flow)
    (List.filter (λ e, String.eqb (e_kind e) "card.created" || String.eqb (e_kind e) "card.moved") evs).

Lemma is_text_state s t : is_text (card_as_str s) (Some (card_as_str t)) = bool_decide (t = s).
Proof. by destruct s, t. Qed.

Lemma read_moved f e evs id from to :
  flow_tells f evs id → Forall (λ x, e_ts x ≤ e_ts e) evs → e_subject e = id → e_kind e = "card.moved" →
  vget "to" (e_data e) = Some (VString (card_as_str to)) → (from = Blocked ↔ replay evs id = Some Blocked) →
  flow_tells (flow_apply (e_kind e) (e_ts e) (Some (card_as_str from)) (Some (card_as_str to)) f) (evs ++ [e]) id.
Proof.
  intros Hf Hts Es Ek Eto Hfrom.
  assert (replay (evs ++ [e]) id = Some to) as Er.
  { rewrite replay_snoc. unfold apply_event. rewrite Es, Ek, Eto, bool_decide_true by done. cbn. by rewrite card_parse_as_str. }
  assert (is_Some (fl_blocked_since f) ↔ from = Blocked) as Ho by (rewrite Hfrom; apply Hf).
  rewrite Ek. unfold flow_apply. cbn [String.eqb]. change (String.eqb "card.moved" "card.created") with false.
  change (String.eqb "card.moved" "card.moved") with true. cbn match.
  set (f1 := leave_blocked (e_ts e) (Some (card_as_str from)) f).
  assert (fl_blocked_since f1 = None ∧
    match fl_blocked_since f with Some a => fl_blocked f1 = fl_blocked f ++ [(a, e_ts e)] | None => fl_blocked f1 = fl_blocked f end) as [H0 H1].
  { unfold f1, leave_blocked. change "blocked" with (card_as_str Blocked). rewrite is_text_state.
    destruct (fl_blocked_since f) as [a|] eqn:Ea; [|done]. rewrite bool_decide_true by (apply Ho; eauto). done. }
  apply (tells_left f _ evs e id Hf Hts (fl_blocked f1) (bool_decide (to = Blocked))); [done|..].
  - unfold enter_state. by repeat case_match.
  - unfold enter_state. change "doing" with (card_as_str Doing). change "done" with (card_as_str Done).
    change "blocked" with (card_as_str Blocked). rewrite !is_text_state. destruct to; cbn; by rewrite ?H0.
  - rewrite Er. rewrite bool_decide_eq_true. naive_solver.
Qed.

(** The events of a card are read without an error, and the flow tells the time
    it was blocked. *)
Lemma read_tells evs id : history_ok id evs → ∃ f, read_all evs = Ok f ∧ flow_tells f evs id.
Proof.
  induction 1 as [|evs e _ (f & Er & Hf) Es Hts (Hc & Hr & Hm)].
  - exists no_flow. split; [done|]. split.
    + split; [intros []|]; done.
    + by repeat constructor.
    + intros since now Hle. unfold ms_blocked. rewrite (count_ext _ (λ _, false)) by done. by rewrite count_const.
  - unfold read_all in *. rewrite List.filter_app, foldl_app, Er. cbn [List.filter].
    destruct (String.eqb_spec (e_kind e) "card.created") as [Ec|Ec]; [|destruct (String.eqb_spec (e_kind e) "card.moved") as [Em|Em]]; cbn [orb foldl].
    + destruct (Hc Ec) as (Hb & E1 & E2). unfold read_flow, json_extract, flow_apply. rewrite E1, E2, Ec. cbn. eexists. split; [done|].
      apply (tells_same f); try done. rewrite replay_snoc. unfold apply_event. rewrite Es, Ec, bool_decide_true by done. cbn. done.
    + destruct (Hm Em) as (from & to & E1 & E2 & Hb). unfold read_flow, json_extract. rewrite E1, E2. cbn [mbind result_bind]. eexists. split; [done|].
      by apply read_moved.
    + exists f. split; [done|]. apply (tells_same f); try done. rewrite replay_snoc. unfold apply_event. rewrite Es.
      rewrite (bool_decide_true (id = id)), (bool_decide_false (e_kind e = "card.created")), (bool_decide_false (e_kind e = "card.moved")) by done.
      cbn [negb]. case_bool_decide as Ek; [|done]. specialize (Hr Ek). done.
Qed.

(** The last move into [done]. *)
Definition moved_done (e : event) : bool :=
  String.eqb (e_kind e) "card.moved" && is_text "done" (vget "to" (e_data e) ≫= v_str).

Definition last_done (evs : list event) : option Z := e_ts <$> last (List.filter moved_done evs).

Lemma read_done evs id f : history_ok id evs → read_all evs = Ok f → fl_last_done f = last_done evs.
Proof.
  intros H. revert f. induction H as [|evs e H IH Es _ (Hc & _ & Hm)]; intros f; [by intros [= <-]|].
  destruct (read_tells evs id H) as (f0 & E0 & _). specialize (IH f0 E0). unfold read_all in *. unfold last_done, moved_done in *.
  rewrite !List.filter_app, foldl_app, E0. cbn [List.filter].
  destruct (String.eqb_spec (e_kind e) "card.created") as [Ec|Ec]; [|destruct (String.eqb_spec (e_kind e) "card.moved") as [Em|Em]]; cbn [orb andb foldl].
  - destruct (Hc Ec) as (_ & E1 & E2). unfold read_flow, json_extract, flow_apply. rewrite E1, E2, Ec. cbn. intros [= <-]. cbn.
    by rewrite IH, app_nil_r.
  - destruct (Hm Em) as (from & to & E1 & E2 & _). unfold read_flow, json_extract, flow_apply. rewrite E1, E2, Em. cbn [mbind result_bind option_bind v_str].
    change (String.eqb "card.moved" "card.created") with false. change (String.eqb "card.moved" "card.moved") with true. cbn match.
    intros [= <-]. unfold enter_state. change "done" with (card_as_str Done). change "doing" with (card_as_str Doing).
    change "blocked" with (card_as_str Blocked). rewrite !is_text_state.
    assert (fl_last_done (leave_blocked (e_ts e) (Some (card_as_str from)) f0) = fl_last_done f0) as El
      by (unfold leave_blocked; by repeat case_match).
    destruct to; repeat first [rewrite bool_decide_true by done|rewrite bool_decide_false by done]; cbn [fl_last_done fmap option_fmap option_map];
      rewrite ?last_snoc, ?app_nil_r, ?El; done.
  - intros [= <-]. by rewrite IH, app_nil_r.
Qed.

(** Only the events of the card matter. *)
Lemma replay_events_of id evs : replay (events_of id evs) id = replay evs id.
Proof.
  unfold replay. generalize (@None CardState). induction evs as [|e evs IH]; intros s; [done|]. cbn [events_of List.filter].
  destruct (String.eqb_spec (e_subject e) id) as [Es|Es]; cbn [foldl]; [apply IH|]. unfold events_of in IH. rewrite IH. f_equal.
  unfold apply_event. by rewrite bool_decide_false.
Qed.

Lemma filter_swap {A} (P Q : A → bool) l : List.filter P (List.filter Q l) = List.filter Q (List.filter P l).
Proof. induction l as [|x l IH]; [done|]. cbn. destruct (P x) eqn:E1, (Q x) eqn:E2; cbn; rewrite ?E1, ?E2, ?IH; done. Qed.

Lemma ms_blocked_events_of id evs since now : ms_blocked (events_of id evs) id since now = ms_blocked evs id since now.
Proof.
  unfold ms_blocked. do 2 f_equal. apply count_ext. intros t _. unfold blocked_at. f_equal.
  unfold events_of. rewrite filter_swap. fold (events_of id (List.filter (λ e, e_ts e <=? t) evs)). by rewrite replay_events_of.
Qed.

Lemma flow_events_of d id : flow_events d id =
  List.filter (λ e, String.eqb (e_kind e) "card.created" || String.eqb (e_kind e) "card.moved") (events_of id (events d)).
Proof.
  unfold flow_events, events_of. induction (events d) as [|e l IH]; [done|]. cbn.
  destruct (String.eqb (e_subject e) id); cbn; [destruct (_ || _); by rewrite IH|done].
Qed.

Lemma span_bounds a b since now : since ≤ now → 0 ≤ span a b since now ≤ now - since.
Proof. unfold span. lia. Qed.

Lemma sat_i64_within z : i64_min ≤ z ≤ i64_max → sat_i64 z = z.
Proof. unfold sat_i64. lia. Qed.

(** Sums of what cannot overflow. *)
Lemma fold_spans l since now acc :
  since ≤ now → now - since ≤ i64_max → 0 ≤ acc →
  acc + foldr (λ (iv : Z * Z) acc, span iv.1 iv.2 since now + acc) 0 l ≤ i64_max →
  foldl (λ (acc : Z) (iv : Z * Z), sat_i64 (acc + overlap iv.1 iv.2 since now)) acc l =
    acc + foldr (λ (iv : Z * Z) acc, span iv.1 iv.2 since now + acc) 0 l.
Proof.
  intros Hle Hw. revert acc. induction l as [|[a b] l IH]; intros acc H0 Hm; cbn in *; [lia|].
  pose proof (span_bounds a b since now Hle).
  assert (0 ≤ foldr (λ (iv : Z * Z) acc, span iv.1 iv.2 since now + acc) 0 l) as Hp.
  { clear -Hle. induction l as [|[x y] l IH]; cbn; [done|]. pose proof (span_bounds x y since now Hle). lia. }
  assert (overlap a b since now = span a b since now) as ->.
  { unfold overlap, span in *. unfold sat_i64, i64_min in *. lia. }
  rewrite sat_i64_within by (unfold i64_min; lia). rewrite IH by lia. lia.
Qed.

Definition total (l : list Z) : Z := foldr Z.add 0 l.

Lemma total_nonneg l : Forall (λ b, 0 ≤ b) l → 0 ≤ total l.
Proof. unfold total. induction 1; cbn [foldr]; lia. Qed.

Lemma sum_blocked_total l : Forall (λ b, 0 ≤ b) l → sum_blocked l = Z.min i64_max (total l).
Proof.
  intros H. unfold sum_blocked. assert (∀ acc, 0 ≤ acc ≤ i64_max →
    foldl (λ acc b, if 0 <? b then sat_i64 (acc + b) else acc) acc l = Z.min i64_max (acc + total l)) as Hg.
  { induction H as [|b l Hb Hl IH]; intros acc Hacc; cbn [foldl total foldr]; [lia|]. pose proof (total_nonneg l Hl).
    fold (total l). destruct (Z.ltb_spec 0 b); [|rewrite IH by done; f_equal; lia].
    rewrite IH by (unfold sat_i64, i64_min in *; lia). unfold sat_i64, i64_min in *. lia. }
  rewrite Hg; [f_equal; lia|unfold i64_max; lia].
Qed.

(** The flow of a card of the table. *)
Lemma card_flow_tells d c since now :
  since ≤ now → now - since ≤ i64_max → history_ok (c_id c) (events_of (c_id c) (events d)) →
  ∃ f, card_flow d c = Ok (c_created c, f) ∧ fl_last_done f = last_done (events_of (c_id c) (events d)) ∧
    blocked_in_window since now f = ms_blocked (events d) (c_id c) since now.
Proof.
  intros Hle Hw H. destruct (read_tells _ _ H) as (f & Er & Hf). exists f. split_and!.
  - unfold card_flow. rewrite flow_events_of. fold (read_all (events_of (c_id c) (events d))). by rewrite Er.
  - by eapply read_done.
  - rewrite <- ms_blocked_events_of, <- (ft_time _ _ _ Hf) by done.
    assert (closed_time f since now + open_time f since now =
      foldr (λ (iv : Z * Z) acc, span iv.1 iv.2 since now + acc) 0
        (fl_blocked f ++ map (λ entered : Z, (entered, now)) (option_list (fl_blocked_since f)))) as E.
    { unfold open_time. destruct (fl_blocked_since f) as [a|]; cbn [option_list map]; [|rewrite app_nil_r; unfold closed_time; lia].
      symmetry. exact (closed_snoc (fl_blocked f) a now (mk_flow None None None (fl_blocked f ++ [(a, now)]) None) since now eq_refl). }
    pose proof (ft_time _ _ _ Hf since now Hle) as Et. unfold blocked_in_window. rewrite fold_spans; [lia|done|done|lia|].
    rewrite <- E, Et. unfold ms_blocked. etrans; [|exact Hw]. etrans; [apply inj_le, List.filter_length_le|]. rewrite length_seqZ. lia.
Qed.

Definition wait_fits (t : work_task) : Prop :=
  match rn_started (w_run t), cl_requested (w_claim t) with Some s, Some r => in_i64 (s - r) = true | _, _ => True end.

Lemma queue_waits_Ok d since now : Forall wait_fits (work_tasks (work d)) → ∃ l, queue_waits d since now = Ok l.
Proof.
  unfold queue_waits. induction 1 as [|t l Ht _ [ws IH]]; cbn; [by eexists|]. unfold wait_fits, queue_wait in *.
  repeat case_match; simplify_eq; cbn in *; rewrite ?IH; eauto; try congruence.
Qed.

(** C19: the flow report is right about the board. When the events of the cards
    are in the order of their times and each move tells whether its card was
    blocked, the report on a window exists, its done cards are those whose last
    move into done lies in the window, and its blocked time is the time, summed
    over the cards of the filter, at which the replay of the event log has the
    card blocked: each millisecond of the window counts once. *)
Theorem metrics_exact d now team lane since :
  since ≤ now → now - since ≤ i64_max →
  Forall (λ c, history_ok (c_id c) (events_of (c_id c) (events d))) (cards d) → Forall wait_fits (work_tasks (work d)) →
  ∃ r, metrics d now team lane (Some since) = Ok r ∧ mr_wip r = wip_counts d team lane ∧
    mr_cards_done r = Z.of_nat (length (List.filter (λ c, from_option (in_window since now) false
      (last_done (events_of (c_id c) (events d)))) (filtered d team lane))) ∧
    mr_blocked_total r = secs (Z.min i64_max (total ((λ c, ms_blocked (events d) (c_id c) since now) <$> filtered d team lane))).
Proof.
  intros Hle Hw Hh Ht. destruct (queue_waits_Ok d since now Ht) as [ws Ew].
  assert (∀ c, c ∈ filtered d team lane → history_ok (c_id c) (events_of (c_id c) (events d))) as Hc.
  { intros c Hc. rewrite Forall_forall in Hh. apply Hh. unfold filtered in Hc. rewrite elem_of_sort_by in Hc.
    by apply list_elem_of_In, List.filter_In in Hc as [?%list_elem_of_In _]. }
  assert (∃ flows, card_flows d team lane = Ok flows ∧
    Forall2 (λ c cf, fl_last_done cf.2 = last_done (events_of (c_id c) (events d)) ∧
      blocked_in_window since now cf.2 = ms_blocked (events d) (c_id c) since now) (filtered d team lane) flows) as (flows & Ef & HF).
  { unfold card_flows. induction (filtered d team lane) as [|c l IH]; [by exists []|]. destruct IH as (fs & Ef & HF); [set_solver|].
    destruct (card_flow_tells d c since now) as (f & E & Hd & Hb); [done..|apply Hc; set_solver|].
    exists ((c_created c, f) :: fs). cbn. rewrite E, Ef. split; [done|]. by constructor. }
  unfold metrics. cbn [from_option]. change (id since) with since. rewrite Ef. cbn [mbind result_bind]. rewrite Ew. cbn [mbind result_bind]. eexists. split; [done|].
  cbn [mr_wip mr_cards_done mr_blocked_total]. split_and!; [done|..].
  - f_equal. clear Ef Hc. induction HF as [|c cf l fs [Hd _] _ IH]; [done|]. cbn. unfold done_at at 1. rewrite Hd.
    destruct (last_done _) as [t|]; cbn; [destruct (in_window since now t); cbn|]; by rewrite IH.
  - f_equal. rewrite <- sum_blocked_total.
    + f_equal. clear Ef Hc. induction HF as [|c cf l fs [_ Hb] _ IH]; [done|]. cbn. by rewrite Hb, IH.
    + apply Forall_fmap, Forall_true. intros c. cbn. unfold ms_blocked. lia.
Qed.
End Log.

(** ** A window on one card *)

Definition demo_policies : PolicyCodec :=
  {| parse_policy _ := None; parse_policy_args _ := None; policy_value _ := VNull; value_text _ := "null" |}.

Definition demo_move (ts : Z) (from to : CardState) : event :=
  mk_event ts ts "alice" "card.moved" "c1" (VObject [("from", VString (card_as_str from)); ("to", VString (card_as_str to))]).

Definition demo_events : list event :=
  [mk_event 1 10 "alice" "card.created" "c1" (VObject [("title", VString "t")]);
   demo_move 20 Doing Blocked; demo_move 50 Blocked Doing; demo_move 80 Doing Done].

Definition demo_board : db :=
  set_events demo_events 80 (set_cards [mk_card "c1" "t" "dev" "done" (Some "alice") 10 80 0 (f_of_Z 1) (f_of_Z 1) "core" false ""] empty_db).

Lemma demo_history : history_ok "c1" demo_events.
Proof.
  apply (ho_snoc _ [_; _; _]); [apply (ho_snoc _ [_; _]); [apply (ho_snoc _ [_]); [apply (ho_snoc _ []); [constructor|..]|..]|..]|..];
    try done; try (by repeat constructor); (split; [|split]); try done; intros _; try done; do 2 eexists; by split_and!.
Qed.

Lemma metrics_exact_witness :
  ∃ r, @metrics demo_policies demo_board 100 None (Some "dev") (Some 30) = Ok r ∧ mr_cards_done r = 1 ∧ mr_blocked_total r = secs 20.
Proof.
  destruct (@metrics_exact demo_policies demo_board 100 None (Some "dev") 30) as (r & E & _ & Hd & Hb).
  - lia.
  - unfold i64_max. lia.
  - constructor; [exact demo_history|constructor].
  - constructor.
  - exists r. split; [exact E|]. split; [rewrite Hd|rewrite Hb]; vm_compute; reflexivity.
Defined.
