(* ===== verification/Scrub.v ===== *)
(** * The environment and the exit codes of jobs

    [src/crates/agora-sched/src/envscrub.rs], what of an environment a job's
    command may inherit, and [exit.rs], the exit codes of the work commands; and
    the way of an environment to a job: sent with a run ([agora-daemon/src/work.rs]
    and [work/view.rs]), kept until the job starts ([jobs.rs]), handed to its
    supervisor ([jobs/start.rs]) and given to the command
    ([agora-run/src/supervise.rs]). *)

From Stdlib Require Import Ascii.
From S2P Require Import Prelude Strs WorkRow.

(** ** The environment *)

Definition MAX_VARS : nat := 512.
Definition MAX_VALUE_BYTES : nat := 32 * 1024.
Definition MAX_TOTAL_BYTES : nat := 256 * 1024.

Definition SECRET_FRAGMENTS : list string :=
  ["TOKEN"; "SECRET"; "PASSWORD"; "PASSWD"; "PASSPHRASE"; "CREDENTIAL"; "API_KEY"; "APIKEY"; "ACCESS_KEY"; "PRIVATE";
   "COOKIE"; "SESSION"; "WEBHOOK"].
Definition SECRET_SUFFIXES : list string := ["_KEY"; "_DSN"; "_AUTH"; "_PAT"].
Definition SECRET_PREFIXES : list string := ["AGORA_"; "DYLD_"; "LD_"].
Definition SECRET_NAMES : list string := ["SSH_AUTH_SOCK"; "GPG_AGENT_INFO"; "DATABASE_URL"].

Definition is_secret_name (name : string) : bool :=
  let upper := to_ascii_uppercase name in
  existsb (λ p, contains_str p upper) SECRET_FRAGMENTS || existsb (λ p, ends_with p upper) SECRET_SUFFIXES
  || existsb (λ p, starts_with p upper) SECRET_PREFIXES || existsb (String.eqb upper) SECRET_NAMES.

Definition is_valid_name (name : string) : bool :=
  match name with
  | "" => false
  | String c rest => (is_ascii_alphabetic c || byte_eqb c "_") && str_all (λ b, is_ascii_alphanumeric b || byte_eqb b "_") rest
  end.

Definition nul_byte : byte := byte_of 0.

(** Whether a job may inherit a variable. *)
Definition may_keep (name value : string) : bool :=
  is_valid_name name && negb (is_secret_name name) && Nat.leb (String.length value) MAX_VALUE_BYTES
  && negb (contains_byte nul_byte value).

(** A later value of a name replaces an earlier one. *)
Definition keep_vars (vars : list (string * string)) : gmap string string :=
  foldl (λ kept nv, if may_keep nv.1 nv.2 then <[nv.1 := nv.2]> kept else kept) ∅ vars.

Definition var_size (nv : string * string) : nat := String.length nv.1 + String.length nv.2.

Definition by_name (a b : string * string) : comparison := String.compare a.1 b.1.

(** The names in order, up to the first that does not fit. *)
Fixpoint take_fitting (total : nat) (l : list (string * string)) : list (string * string) :=
  match l with
  | [] => []
  | nv :: l' => if Nat.ltb MAX_TOTAL_BYTES (total + var_size nv) then [] else nv :: take_fitting (total + var_size nv) l'
  end.

Definition scrub_list (vars : list (string * string)) : list (string * string) :=
  take_fitting 0 (firstn MAX_VARS (sort_by by_name (map_to_list (keep_vars vars)))).

Definition scrub_env (vars : list (string * string)) : gmap string string := list_to_map (scrub_list vars).

(** ** From a run to its command *)

Notation env_map := (gmap string string).

(** The variables of an environment in the order of their names. *)
Definition env_pairs (env : env_map) : list (string * string) := sort_by by_name (map_to_list env).

Definition MAX_ENV_BYTES : nat := 256 * 1024.

(** Whether the daemon takes an environment. *)
Definition check_env_size (env : env_map) : bool :=
  negb (Nat.ltb MAX_ENV_BYTES (foldl (λ total nv, total + String.length nv.1 + String.length nv.2) 0 (env_pairs env))).

(** The environments that the daemon keeps, by task. *)
Notation job_table := (gmap string env_map).

Definition put_env (task : string) (env : env_map) (t : job_table) : job_table := <[task := env]> t.
Definition take_env (task : string) (t : job_table) : option env_map * job_table := (t !! task, delete task t).
Definition forget_env (task : string) (t : job_table) : job_table := delete task t.

(** What of a run goes to the table, once the run is committed. *)
Definition work_run_env (task : string) (env : env_map) (t : job_table) : option job_table :=
  if check_env_size env then Some (put_env task (scrub_env (env_pairs env)) t) else None.

Definition MINIMAL_ENV_NAMES : list string := ["PATH"; "HOME"; "LANG"].

(** [lookup]: the environment of the daemon. *)
Definition minimal_env (lookup : string → option string) : env_map :=
  list_to_map (omap (λ name, (λ value, (name, value)) <$> lookup name) MINIMAL_ENV_NAMES).

(** The environment of a job, and whether it is the minimal one. *)
Definition job_env (lookup : string → option string) (task : string) (t : job_table) : env_map * bool * job_table :=
  match take_env task t with
  | (Some env, t') => (env, false, t')
  | (None, t') => (minimal_env lookup, true, t')
  end.

(** The environment in the specification of a job, and that of its command. *)
Definition spec_env (cwd : string) (env : env_map) : env_map := <["PWD" := cwd]> env.
Definition launch_env (cwd : string) (env : env_map) : env_map := <["PWD" := cwd]> env.

(** The daemon starts with an empty table, keeps the environments of runs, and
    takes or forgets them. *)
Inductive table_reach : job_table → Prop :=
| tr_start : table_reach ∅
| tr_run t task env t' : table_reach t → work_run_env task env t = Some t' → table_reach t'
| tr_take t task : table_reach t → table_reach (take_env task t).2
| tr_forget t task : table_reach t → table_reach (forget_env task t).

(** ** Exit codes *)

Definition EXIT_REFUSED : Z := 1.
Definition EXIT_INPUT : Z := 2.
Definition EXIT_TIMEOUT : Z := 124.
Definition EXIT_NOT_EXECUTABLE : Z := 126.
Definition EXIT_NOT_FOUND : Z := 127.
Definition EXIT_INTERRUPTED : Z := 130.

Definition exit_status (code signal : option Z) : option Z :=
  match code, signal with
  | Some code, _ => Some code
  | None, Some signal => Some (Z.max i32_min (Z.min i32_max (128 + signal)))
  | None, None => None
  end.

(** [EACCES], [EPERM], [ENOEXEC] and [EISDIR]. *)
Definition spawn_error_status (errno : Z) : Z :=
  if existsb (Z.eqb errno) [13; 1; 8; 21]%Z then EXIT_NOT_EXECUTABLE else EXIT_NOT_FOUND.

Definition task_exit_status (state : TaskState) (status : option Z) : Z :=
  match state with TDone => default 0%Z status | _ => default EXIT_REFUSED status end.

(** [min_by_key] on whether the end is unknown, the end, and the place. *)
Definition end_cmp (a b : nat * (TaskState * option Z * option Z)) : comparison :=
  match a.2.2, b.2.2 with
  | Some x, Some y => match (x ?= y)%Z with Eq => Nat.compare a.1 b.1 | c => c end
  | Some _, None => Lt
  | None, Some _ => Gt
  | None, None => Nat.compare a.1 b.1
  end.

Definition wait_exit (rows : list (TaskState * option Z * option Z)) (timed_out any : bool) : Z :=
  if timed_out then EXIT_TIMEOUT
  else if any then
    match min_by end_cmp (List.filter (λ r, is_final r.2.1.1) (imap pair rows)) with
    | Some (_, (state, status, _)) => task_exit_status state status
    | None => 0
    end
  else
    match List.find (λ r, negb (bool_decide (r.1.1 = TDone))) rows with
    | Some (state, status, _) => task_exit_status state status
    | None => 0
    end.

(** ** What a job inherits *)

(** The daemon refuses what a scrub would not take whole. *)
Lemma env_bytes_total : MAX_ENV_BYTES = MAX_TOTAL_BYTES.
Proof. exact eq_refl. Qed.

#[local] Opaque MAX_TOTAL_BYTES MAX_VALUE_BYTES MAX_ENV_BYTES.

(** The last value given for a name that a job may inherit. *)
Definition last_kept (vars : list (string * string)) (name : string) : option string :=
  snd <$> last (List.filter (λ nv, String.eqb nv.1 name && may_keep nv.1 nv.2) vars).

Lemma keep_vars_last vars name : keep_vars vars !! name = last_kept vars name.
Proof.
  unfold keep_vars, last_kept. induction vars as [|[n v] vars IH] using rev_ind; [done|].
  rewrite foldl_app, List.filter_app. cbn. destruct (String.eqb_spec n name) as [->|Hn]; cbn.
  - destruct (may_keep name v); [by rewrite last_snoc, lookup_insert_eq|by rewrite app_nil_r].
  - rewrite app_nil_r. destruct (may_keep n v); [by rewrite lookup_insert_ne|done].
Qed.

Lemma last_kept_may vars name value : last_kept vars name = Some value → may_keep name value = true.
Proof.
  unfold last_kept. destruct (last _) as [[n v]|] eqn:E; cbn; [|done]. intros [= <-].
  apply last_Some_elem_of, list_elem_of_In, List.filter_In in E as [_ H]. cbn in H.
  apply andb_true_iff in H as [Hn%String.eqb_eq H]. by subst.
Qed.

Lemma take_fitting_prefix total l : take_fitting total l `prefix_of` l.
Proof.
  revert total. induction l as [|nv l IH]; intros total; cbn [take_fitting]; [done|].
  destruct (Nat.ltb MAX_TOTAL_BYTES (total + var_size nv)); [apply prefix_nil|]. by apply prefix_cons.
Qed.

Definition total_bytes (l : list (string * string)) : nat := sum_list_with var_size l.

Lemma take_fitting_total total l : total ≤ MAX_TOTAL_BYTES → total + total_bytes (take_fitting total l) ≤ MAX_TOTAL_BYTES.
Proof.
  revert total. induction l as [|nv l IH]; intros total Ht; cbn [take_fitting]; [unfold total_bytes; cbn; lia|].
  destruct (Nat.ltb_spec MAX_TOTAL_BYTES (total + var_size nv)); [unfold total_bytes; cbn; lia|].
  specialize (IH (total + var_size nv)). unfold total_bytes in *. cbn [sum_list_with]. lia.
Qed.

Lemma take_fitting_all total l : total + total_bytes l ≤ MAX_TOTAL_BYTES → take_fitting total l = l.
Proof.
  revert total. unfold total_bytes. induction l as [|nv l IH]; intros total Ht; cbn [take_fitting sum_list_with] in *; [done|].
  destruct (Nat.ltb_spec MAX_TOTAL_BYTES (total + var_size nv)); [lia|]. rewrite IH by lia. done.
Qed.

(** The variables that may be kept, in the order of their names. *)
Definition kept_list (vars : list (string * string)) : list (string * string) := sort_by by_name (map_to_list (keep_vars vars)).

Lemma kept_list_elem vars n v : (n, v) ∈ kept_list vars ↔ last_kept vars n = Some v.
Proof. unfold kept_list. rewrite elem_of_sort_by, elem_of_map_to_list. by rewrite keep_vars_last. Qed.

Lemma kept_list_names vars : NoDup (kept_list vars).*1.
Proof. unfold kept_list. rewrite sort_by_perm. apply NoDup_fst_map_to_list. Qed.

#[export] Instance by_name_total : TotalCmp (λ _, True) by_name.
Proof. exact (total_cmp_on (λ _, True) String.compare fst string_total_cmp). Qed.

Lemma kept_list_sorted vars : StronglySorted (cmp_le by_name) (kept_list vars).
Proof. apply (sort_by_sorted (λ _, True) by_name), Forall_forall. done. Qed.

(** What is scrubbed is the front of what may be kept. *)
Lemma scrub_front vars : ∃ rest, kept_list vars = scrub_list vars ++ rest.
Proof.
  destruct (take_fitting_prefix 0 (firstn MAX_VARS (kept_list vars))) as [k E]. exists (k ++ skipn MAX_VARS (kept_list vars)).
  fold (scrub_list vars) in E. rewrite app_assoc. unfold scrub_list at 1. fold (kept_list vars). rewrite <- E. by rewrite take_drop.
Qed.

Lemma scrub_elem vars n v : scrub_env vars !! n = Some v ↔ (n, v) ∈ scrub_list vars.
Proof.
  symmetry. apply elem_of_list_to_map. destruct (scrub_front vars) as [rest E]. pose proof (kept_list_names vars) as H.
  rewrite E, fmap_app in H. by apply NoDup_app in H as [H _].
Qed.

(** What is scrubbed: variables that may be kept, within the limits, the first in
    the order of names, and all of them where they fit. *)
Lemma scrub_spec vars :
  (∀ n v, scrub_env vars !! n = Some v → last_kept vars n = Some v ∧ is_valid_name n = true ∧ is_secret_name n = false ∧
     String.length v ≤ MAX_VALUE_BYTES ∧ contains_byte nul_byte v = false) ∧
  length (scrub_list vars) ≤ MAX_VARS ∧ total_bytes (scrub_list vars) ≤ MAX_TOTAL_BYTES ∧
  (∀ n v m w, last_kept vars n = Some v → scrub_env vars !! m = Some w → String.compare n m = Lt → scrub_env vars !! n = Some v) ∧
  (length (kept_list vars) ≤ MAX_VARS → total_bytes (kept_list vars) ≤ MAX_TOTAL_BYTES →
     ∀ n, scrub_env vars !! n = last_kept vars n).
Proof.
  destruct (scrub_front vars) as [rest E]. split_and!.
  - intros n v Hv%scrub_elem. assert (last_kept vars n = Some v) as Hl by (apply kept_list_elem; rewrite E; apply elem_of_app; by left).
    pose proof (last_kept_may _ _ _ Hl) as Hm. unfold may_keep in Hm. rewrite !andb_true_iff, !negb_true_iff, Nat.leb_le in Hm. naive_solver.
  - etrans; [apply prefix_length, take_fitting_prefix|]. rewrite length_take. lia.
  - apply (take_fitting_total 0). lia.
  - intros n v m w Hn%kept_list_elem Hm%scrub_elem Hlt. apply scrub_elem. pose proof (kept_list_sorted vars) as Hs.
    rewrite E in Hn, Hs. apply elem_of_app in Hn as [Hn|Hn]; [done|]. exfalso.
    pose proof (StronglySorted_app_1_elem_of _ _ _ (m, w) (n, v) Hs Hm Hn) as Hle. unfold cmp_le, by_name in Hle. cbn in Hle.
    rewrite String.compare_antisym, Hlt in Hle. done.
  - intros Hl Ht n. apply option_eq. intros v. rewrite scrub_elem, <- kept_list_elem. unfold scrub_list. fold (kept_list vars).
    by rewrite firstn_all2, take_fitting_all by done.
Qed.

(** In an environment, the value of a name is the one it has. *)
Lemma env_pairs_elem env n v : (n, v) ∈ env_pairs env ↔ env !! n = Some v.
Proof. unfold env_pairs. by rewrite elem_of_sort_by, elem_of_map_to_list. Qed.

Lemma env_last_kept env n v : last_kept (env_pairs env) n = Some v ↔ env !! n = Some v ∧ may_keep n v = true.
Proof.
  split.
  - intros H. split; [|by eapply last_kept_may]. unfold last_kept in H. destruct (last _) as [[n' v']|] eqn:E; cbn in H; [|done]. injection H as <-.
    apply last_Some_elem_of, list_elem_of_In, List.filter_In in E as [E H]. cbn in H. apply andb_true_iff in H as [->%String.eqb_eq _].
    by apply env_pairs_elem, list_elem_of_In.
  - intros [H%env_pairs_elem Hm]. unfold last_kept.
    destruct (last _) as [[n' v']|] eqn:E; cbn.
    + apply last_Some_elem_of, list_elem_of_In, List.filter_In in E as [E H']. cbn in H'. apply andb_true_iff in H' as [->%String.eqb_eq _].
      apply list_elem_of_In, env_pairs_elem in E. apply env_pairs_elem in H. congruence.
    + apply last_None in E. exfalso. apply (List.in_nil (a := (n, v))). rewrite <- E. apply List.filter_In. split; [by apply list_elem_of_In|].
      cbn. by rewrite String.eqb_refl.
Qed.

Lemma size_fold l total : foldl (λ total nv, total + String.length nv.1 + String.length nv.2) total l = total + total_bytes l.
Proof.
  revert total. unfold total_bytes. induction l as [|nv l IH]; intros total; cbn [foldl sum_list_with]; [lia|]. rewrite IH. unfold var_size. lia.
Qed.

Lemma check_env_size_spec env : check_env_size env = true → total_bytes (env_pairs env) ≤ MAX_ENV_BYTES.
Proof. unfold check_env_size. rewrite size_fold, negb_true_iff, Nat.ltb_ge. done. Qed.

Lemma total_submseteq l k : l ⊆+ k → total_bytes l ≤ total_bytes k.
Proof. intros [k' Hk]%submseteq_Permutation. unfold total_bytes. rewrite Hk, sum_list_with_app. lia. Qed.

(** What may be kept of an environment is a part of it. *)
Lemma kept_env_total env : total_bytes (kept_list (env_pairs env)) ≤ total_bytes (env_pairs env).
Proof.
  apply total_submseteq, NoDup_submseteq.
  - eapply NoDup_fmap_1, kept_list_names.
  - intros [n v] H%kept_list_elem. apply env_last_kept in H as [H _]. by apply env_pairs_elem.
Qed.

(** The variables of an environment that a job may inherit. *)
Definition inheritable (env : env_map) : env_map := filter (λ nv, may_keep nv.1 nv.2 = true) env.

Lemma inheritable_lookup env n : inheritable env !! n = last_kept (env_pairs env) n.
Proof.
  apply option_eq. intros v. unfold inheritable. rewrite map_lookup_filter_Some, env_last_kept. done.
Qed.

Lemma kept_inheritable env : length (kept_list (env_pairs env)) = size (inheritable env).
Proof.
  unfold kept_list. rewrite length_sort_by, length_map_to_list. f_equal. apply map_eq. intros n. by rewrite keep_vars_last, inheritable_lookup.
Qed.

(** What the daemon keeps was sent to it, and is scrubbed. *)
Lemma table_scrubbed t task env :
  table_reach t → t !! task = Some env →
  ∃ sent, total_bytes (env_pairs sent) ≤ MAX_ENV_BYTES ∧ env = scrub_env (env_pairs sent).
Proof.
  induction 1 as [|t task' sent t' _ IH Hr|t task' _ IH|t task' _ IH]; [by rewrite lookup_empty|..].
  - unfold work_run_env in Hr. destruct (check_env_size sent) eqn:Ec; [|done]. injection Hr as <-. unfold put_env.
    destruct (decide (task' = task)) as [->|Hne]; [|by rewrite lookup_insert_ne]. rewrite lookup_insert_eq. intros [= <-].
    exists sent. split; [by apply check_env_size_spec|done].
  - cbn. intros [_ H]%lookup_delete_Some. by apply IH.
  - unfold forget_env. intros [_ H]%lookup_delete_Some. by apply IH.
Qed.

Lemma minimal_lookup lookup n : minimal_env lookup !! n = if bool_decide (n ∈ MINIMAL_ENV_NAMES) then lookup n else None.
Proof.
  unfold minimal_env, MINIMAL_ENV_NAMES. case_bool_decide as Hn.
  - rewrite !elem_of_cons, elem_of_nil in Hn. destruct Hn as [->|[->|[->|[]]]]; cbn; destruct (lookup "PATH"), (lookup "HOME"), (lookup "LANG"); reflexivity.
  - rewrite !elem_of_cons, elem_of_nil in Hn. apply not_elem_of_list_to_map_1. intros ([n' v] & -> & H)%list_elem_of_fmap.
    apply list_elem_of_omap in H as (name & H & E). destruct (lookup name); [|done]. injection E as -> ->.
    unfold MINIMAL_ENV_NAMES in H. rewrite !elem_of_cons, elem_of_nil in H. tauto.
Qed.


(** ** A job with a token in its environment *)

Definition sent_env : env_map := list_to_map [("EDITOR", "vi"); ("GH_TOKEN", "t"); ("PWD", "/home")].

Definition demo_table : job_table := default ∅ (work_run_env "t1" sent_env ∅).

