(* ===== verification/Markers.v ===== *)
(** * agora-cli: the managed block of an instruction file

    [src/crates/agora-cli/src/install/markers.rs]: the block that [agora install]
    keeps between two marker lines of a file that others write too, and its
    removal. *)

From Stdlib Require Import Ascii.
From S2P Require Import Prelude Strs PyFmt WorkRow.

Definition BEGIN_MARK : string := "<!-- agora:begin (managed by `agora install`; edits inside are replaced) -->".
Definition END_MARK : string := "<!-- agora:end -->".

Inductive MarkerError : Type := BeginWithoutEnd | EndBeforeBegin | MultipleBlocks.

Definition lf : string := String (byte_of 10) "".
Definition crlf : string := String (byte_of 13) lf.

(** [str::split_inclusive] at the newline. *)
Fixpoint split_lines (s : string) : list string :=
  match s with
  | "" => []
  | String c s' =>
      if byte_eqb c (byte_of 10) then String c "" :: split_lines s'
      else match split_lines s' with [] => [String c ""] | w :: ws => String c w :: ws end
  end.

(** [str::lines]. *)
Definition strip_newline (line : string) : string :=
  match strip_suffix lf line with
  | None => line
  | Some l => default l (strip_suffix (String (byte_of 13) "") l)
  end.

Definition lines (s : string) : list string := strip_newline <$> split_lines s.

Fixpoint str_concat (l : list string) : string := match l with [] => "" | s :: l' => s +:+ str_concat l' end.

Definition newline_of (existing : string) : string := if contains_str crlf existing then crlf else lf.

Definition is_marker (line marker : string) : bool := String.eqb (trim line) marker.

Definition is_blank (line : string) : bool := is_empty_str (trim line).

Definition positions (ls : list string) (marker : string) : list nat :=
  fst <$> List.filter (λ il, is_marker il.2 marker) (imap pair ls).

Definition locate (ls : list string) : result MarkerError (option (nat * nat)) :=
  match positions ls BEGIN_MARK, positions ls END_MARK with
  | [], [] => Ok None
  | [], _ => Err EndBeforeBegin
  | _, [] => Err BeginWithoutEnd
  | first :: more, last :: more' =>
      if Nat.ltb last first then Err EndBeforeBegin
      else match more, more' with [], [] => Ok (Some (first, last)) | _, _ => Err MultipleBlocks end
  end.

Definition render_block (body nl : string) : string :=
  BEGIN_MARK +:+ nl +:+ str_concat ((λ line, line +:+ nl) <$> lines body) +:+ END_MARK +:+ nl.

Definition upsert_block (existing body : string) : result MarkerError string :=
  let ls := split_lines existing in
  let nl := newline_of existing in
  let block := render_block body nl in
  at_ ← locate ls;
  Ok match at_ with
     | Some (first, last) => str_concat (firstn first ls) +:+ block +:+ str_concat (skipn (S last) ls)
     | None => if is_empty_str existing then block
               else if ends_with lf existing then existing +:+ nl +:+ block
               else existing +:+ nl +:+ nl +:+ block
     end.

(** The lines that go with the block: one blank line beside it. *)
Definition removed_span (ls : list string) (first last : nat) : nat * nat :=
  if Nat.ltb 0 first && from_option is_blank false (ls !! (first - 1)) then (first - 1, last)
  else if from_option is_blank false (ls !! S last) then (first, S last)
  else (first, last).

Definition remove_block (existing : string) : result MarkerError (option string) :=
  let ls := split_lines existing in
  at_ ← locate ls;
  Ok match at_ with
     | None => None
     | Some (first, last) =>
         let '(first, last) := removed_span ls first last in
         Some (str_concat (firstn first ls) +:+ str_concat (skipn (S last) ls))
     end.

Definition has_block (existing : string) : bool := existsb (λ line, is_marker line BEGIN_MARK) (lines existing).

(** ** Lines *)

Definition is_lf (c : byte) : bool := byte_eqb c (byte_of 10).

(** A text that ends with a line, and one line of it. *)
Definition ended (s : string) : Prop := s = "" ∨ ∃ t, s = t +:+ lf.

Definition one_line (l : string) : Prop := ∃ w, l = w +:+ lf ∧ contains_byte (byte_of 10) w = false.

Lemma split_lines_concat s : str_concat (split_lines s) = s.
Proof.
  induction s as [|c s IH]; [done|]. cbn [split_lines]. destruct (byte_eqb c (byte_of 10)); cbn [str_concat].
  - by rewrite IH.
  - destruct (split_lines s) as [|w ws]; cbn [str_concat] in *; rewrite str_app_cons; [by rewrite str_app_nil_l, IH|by rewrite IH].
Qed.

Lemma str_concat_app a b : str_concat (a ++ b) = str_concat a +:+ str_concat b.
Proof. induction a as [|x a IH]; cbn [app str_concat]; [done|]. by rewrite IH, str_app_assoc. Qed.

Lemma split_lines_ne c s : split_lines (String c s) ≠ [].
Proof. cbn. by repeat case_match. Qed.

Lemma split_lines_lf a b : split_lines ((a +:+ lf) +:+ b) = split_lines (a +:+ lf) ++ split_lines b.
Proof.
  induction a as [|c a IH]; [done|]. rewrite !str_app_cons. cbn [split_lines]. rewrite IH.
  destruct (byte_eqb c (byte_of 10)); [done|]. destruct (split_lines (a +:+ lf)) eqn:E; [|done].
  by destruct a; apply split_lines_ne in E.
Qed.

Lemma split_lines_app a b : ended a → split_lines (a +:+ b) = split_lines a ++ split_lines b.
Proof. intros [->|[t ->]]; [done|apply split_lines_lf]. Qed.

Lemma split_one_line l : one_line l → split_lines l = [l].
Proof.
  intros (w & -> & Hw). induction w as [|c w IH]; [done|]. cbn [contains_byte] in Hw. apply orb_false_iff in Hw as [Hc Hw].
  rewrite str_app_cons. cbn [split_lines]. rewrite IH, Hc by done. done.
Qed.

Lemma one_line_ended l : one_line l → ended l.
Proof. intros (w & -> & _). right. by exists w. Qed.

Lemma split_concat_lines ls : Forall one_line ls → split_lines (str_concat ls) = ls.
Proof.
  induction 1 as [|l ls Hl _ IH]; [done|]. cbn [str_concat]. rewrite split_lines_app by (by apply one_line_ended).
  by rewrite split_one_line, IH.
Qed.

Lemma ended_app a b : ended a → ended b → ended (a +:+ b).
Proof. intros Ha [->|[t ->]]; [by rewrite str_app_nil_r|]. right. exists (a +:+ t). by rewrite str_app_assoc. Qed.

Lemma ended_concat ls : Forall one_line ls → ended (str_concat ls).
Proof. induction 1; [by left|]. cbn [str_concat]. apply ended_app; [by apply one_line_ended|done]. Qed.

(** ** Looking for the markers *)

Definition unmarked (l : string) : bool := negb (is_marker l BEGIN_MARK) && negb (is_marker l END_MARK).

Definition positions_from (i : nat) (ls : list string) (marker : string) : list nat :=
  fst <$> List.filter (λ il, is_marker il.2 marker) (imap (λ j l, (i + j, l)) ls).

Lemma positions_is ls marker : positions ls marker = positions_from 0 ls marker.
Proof. done. Qed.

Lemma positions_cons i l ls marker :
  positions_from i (l :: ls) marker = (if is_marker l marker then [i] else []) ++ positions_from (S i) ls marker.
Proof.
  unfold positions_from. rewrite imap_cons, Nat.add_0_r. cbn [List.filter snd].
  replace (imap ((λ j l, (i + j, l)) ∘ S) ls) with (imap (λ j l, (S i + j, l)) ls) by (apply imap_ext; intros; unfold compose; f_equal; lia).
  by destruct (is_marker l marker).
Qed.

Lemma positions_app i a b marker : positions_from i (a ++ b) marker = positions_from i a marker ++ positions_from (i + length a) b marker.
Proof.
  revert i. induction a as [|l a IH]; intros i; cbn [app]; [by rewrite Nat.add_0_r|].
  rewrite !positions_cons, IH, <- app_assoc. cbn [length]. do 3 f_equal. lia.
Qed.

Lemma positions_unmarked i ls marker :
  marker = BEGIN_MARK ∨ marker = END_MARK → Forall (λ l, unmarked l = true) ls → positions_from i ls marker = [].
Proof.
  intros Hm H. revert i. induction H as [|l ls Hl _ IH]; intros i; [done|]. rewrite positions_cons, IH, app_nil_r.
  unfold unmarked in Hl. rewrite andb_true_iff, !negb_true_iff in Hl. destruct Hl as [H1 H2], Hm as [->| ->]; [by rewrite H1|by rewrite H2].
Qed.

(** ** One block *)

Definition block_lines (body nl : string) : list string :=
  (BEGIN_MARK +:+ nl) :: ((λ line, line +:+ nl) <$> lines body) ++ [END_MARK +:+ nl].

Definition is_newline (nl : string) : Prop := nl = lf ∨ nl = crlf.

(** No line of the body is a marker once it is rendered. *)
Definition body_ok (body nl : string) : Prop := Forall (λ line, unmarked (line +:+ nl) = true) (lines body).

Lemma newline_marks nl : is_newline nl →
  is_marker (BEGIN_MARK +:+ nl) BEGIN_MARK = true ∧ is_marker (BEGIN_MARK +:+ nl) END_MARK = false ∧
  is_marker (END_MARK +:+ nl) BEGIN_MARK = false ∧ is_marker (END_MARK +:+ nl) END_MARK = true ∧ is_blank nl = true.
Proof. intros [->| ->]; vm_compute; done. Qed.

Lemma with_newline w nl : is_newline nl → contains_byte (byte_of 10) w = false → one_line (w +:+ nl).
Proof.
  intros [->| ->] Hw; [by exists w|]. exists (w +:+ String (byte_of 13) ""). split; [by rewrite str_app_assoc|].
  by rewrite contains_app, Hw.
Qed.

(** A line of a text has its newline at the end alone. *)
Lemma strip_suffix_app p s w : strip_suffix p s = Some w → s = w +:+ p.
Proof.
  revert w. induction s as [|c s IH]; intros w; cbn [strip_suffix]; case_bool_decide as E; subst; try done; [by intros [= <-]..|].
  destruct (strip_suffix p s) as [v|]; [|done]. cbn. intros [= <-]. by rewrite str_app_cons, <- IH.
Qed.

Lemma lines_plain s : Forall (λ l, contains_byte (byte_of 10) l = false) (lines s).
Proof.
  unfold lines. apply Forall_fmap. assert (Forall (λ l, one_line l ∨ contains_byte (byte_of 10) l = false) (split_lines s)) as H.
  { induction s as [|c s IH]; [constructor|]. cbn [split_lines]. destruct (byte_eqb c (byte_of 10)) eqn:Ec.
    - constructor; [|done]. left. exists "". apply byte_eqb_eq in Ec as ->. done.
    - destruct (split_lines s) as [|w ws]; [constructor; [|done]; right; cbn [contains_byte]; by rewrite Ec|].
      apply Forall_cons in IH as [[(w' & -> & Hw)|Hw] Hws]; (constructor; [|done]); [left|right; cbn [contains_byte]; by rewrite Ec].
      exists (String c w'). split; [done|]. cbn [contains_byte]. by rewrite Ec. }
  eapply Forall_impl; [exact H|]. intros l Hl. cbn. unfold strip_newline.
  destruct (strip_suffix lf l) as [w|] eqn:E.
  - apply strip_suffix_app in E as ->. assert (contains_byte (byte_of 10) w = false) as Hw.
    { destruct Hl as [(w' & Ew & Hw)|Hw]; [|rewrite contains_app in Hw; by apply orb_false_iff in Hw as [? _]].
      apply str_app_inj in Ew as [-> _]; [done|]. apply (f_equal String.length) in Ew. rewrite !length_str_app in Ew. lia. }
    destruct (strip_suffix _ w) as [v|] eqn:Ev; cbn; [|done]. apply strip_suffix_app in Ev as ->.
    rewrite contains_app in Hw. by apply orb_false_iff in Hw as [? _].
  - destruct Hl as [(w & -> & _)|Hl]; [|done]. exfalso. clear -E. induction w as [|c w IH]; [done|].
    rewrite str_app_cons in E. cbn [strip_suffix] in E. case_bool_decide; [done|]. by destruct (strip_suffix lf (w +:+ lf)).
Qed.

Lemma block_split body nl : is_newline nl → Forall one_line (block_lines body nl) ∧ render_block body nl = str_concat (block_lines body nl).
Proof.
  intros Hn. split.
  - unfold block_lines. constructor; [by apply with_newline|]. apply Forall_app. split; [|by constructor; [apply with_newline|]].
    apply Forall_fmap. eapply Forall_impl; [apply lines_plain|]. intros l Hl. by apply with_newline.
  - unfold render_block, block_lines. cbn [str_concat]. rewrite str_concat_app. cbn [str_concat]. by rewrite str_app_nil_r, !str_app_assoc.
Qed.

Lemma locate_block pre body nl post :
  ended pre → is_newline nl → Forall (λ l, unmarked l = true) (split_lines pre) → Forall (λ l, unmarked l = true) (split_lines post) →
  body_ok body nl →
  split_lines (pre +:+ render_block body nl +:+ post) = split_lines pre ++ block_lines body nl ++ split_lines post ∧
  locate (split_lines pre ++ block_lines body nl ++ split_lines post) =
    Ok (Some (length (split_lines pre), length (split_lines pre) + S (length (lines body)))).
Proof.
  intros He Hn Hp Hq Hb. destruct (block_split body nl Hn) as [Hl Er]. split.
  - rewrite split_lines_app, Er by done. rewrite split_lines_app by (by apply ended_concat). by rewrite split_concat_lines.
  - destruct (newline_marks nl Hn) as (B1 & B2 & E1 & E2 & _). unfold locate. set (n := length (split_lines pre)).
    assert (∀ marker, marker = BEGIN_MARK ∨ marker = END_MARK →
      positions (split_lines pre ++ block_lines body nl ++ split_lines post) marker =
        (if is_marker (BEGIN_MARK +:+ nl) marker then [n] else []) ++
        (if is_marker (END_MARK +:+ nl) marker then [n + S (length (lines body))] else [])) as Hpos.
    { intros marker Hm. rewrite positions_is, !positions_app. unfold block_lines. rewrite positions_cons, positions_app, positions_cons.
      rewrite !(positions_unmarked _ _ marker Hm) by (done || by apply Forall_fmap).
      cbn [app]. rewrite !app_nil_r, length_fmap. unfold n. rewrite Nat.add_0_l.
      replace (S (length (split_lines pre)) + length (lines body)) with (length (split_lines pre) + S (length (lines body))) by lia. done. }
    rewrite (Hpos BEGIN_MARK) by (by left). rewrite (Hpos END_MARK) by (by right). rewrite B1, B2, E1, E2. cbn [app]. destruct (Nat.ltb_spec (n + S (length (lines body))) n); [lia|done].
Qed.

(** The block is replaced where it stands; the text around it stays. *)
Theorem upsert_in_place pre body nl post body' :
  ended pre → is_newline nl → Forall (λ l, unmarked l = true) (split_lines pre) → Forall (λ l, unmarked l = true) (split_lines post) →
  body_ok body nl →
  let text := pre +:+ render_block body nl +:+ post in
  upsert_block text body' = Ok (pre +:+ render_block body' (newline_of text) +:+ post).
Proof.
  intros He Hn Hp Hq Hb text. destruct (locate_block pre body nl post) as [Es El]; [done..|]. unfold upsert_block.
  rewrite (Es : split_lines text = _), El. cbn [mbind result_bind]. do 2 f_equal; [|f_equal].
  - by rewrite firstn_app, Nat.sub_diag, firstn_all, app_nil_r, split_lines_concat.
  - replace (S (length (split_lines pre) + S (length (lines body)))) with (length (split_lines pre ++ block_lines body nl) + 0).
    + by rewrite app_assoc, skipn_app, Nat.add_0_r, skipn_all, Nat.sub_diag, app_nil_l, skipn_O, split_lines_concat.
    + unfold block_lines. rewrite length_app. cbn [length]. rewrite length_app, length_fmap. cbn. lia.
Qed.

(** ** Installing and removing *)

(** The text with its last line ended. *)
Definition ended_text (s : string) : string :=
  if is_empty_str s then "" else if ends_with lf s then s else s +:+ newline_of s.

(** A text that has no marker lines, also once its last line is ended. *)
Definition unmanaged (s : string) : Prop :=
  Forall (λ l, unmarked l = true) (split_lines s) ∧ Forall (λ l, unmarked l = true) (split_lines (ended_text s)).

Definition cr : byte := byte_of 13.

(** The newline of the text is told by the text: it has a line that ends in CRLF,
    or no carriage return at all. *)
Definition newline_told (s body : string) : Prop :=
  contains_str crlf s = true ∨ contains_byte cr s = false ∧ contains_byte cr body = false.

Lemma newline_of_is s : is_newline (newline_of s).
Proof. unfold newline_of, is_newline. destruct (contains_str crlf s); auto. Qed.

Lemma ended_text_ended s : ended (ended_text s).
Proof.
  unfold ended_text. destruct (is_empty_str s); [by left|]. destruct (ends_with lf s) eqn:E.
  - unfold ends_with in E. destruct (strip_suffix lf s) as [w|] eqn:Es; [|done]. right. exists w. by apply strip_suffix_app.
  - right. destruct (newline_of_is s) as [->| ->]; [by exists s|]. exists (s +:+ String (byte_of 13) ""). by rewrite str_app_assoc.
Qed.

(** What an installation appends its block to. *)
Definition before_block (s : string) : string := if is_empty_str s then "" else ended_text s +:+ newline_of s.

Lemma unmarked_newline nl : is_newline nl → unmarked nl = true.
Proof. intros [->| ->]; vm_compute; done. Qed.

Lemma before_ended s : ended (before_block s).
Proof.
  unfold before_block. destruct (is_empty_str s); [by left|]. apply ended_app; [apply ended_text_ended|].
  apply one_line_ended. rewrite <- (str_app_nil_l (newline_of s)). by apply with_newline; [apply newline_of_is|].
Qed.

Lemma before_split s : is_empty_str s = false → split_lines (before_block s) = split_lines (ended_text s) ++ [newline_of s].
Proof.
  intros E. unfold before_block. rewrite E, split_lines_app by apply ended_text_ended. f_equal.
  apply split_one_line. rewrite <- (str_app_nil_l (newline_of s)). by apply with_newline; [apply newline_of_is|].
Qed.

Lemma before_unmarked s : unmanaged s → Forall (λ l, unmarked l = true) (split_lines (before_block s)).
Proof.
  intros [_ H]. destruct (is_empty_str s) eqn:E; [unfold before_block; rewrite E; constructor|].
  rewrite before_split by done. apply Forall_app. split; [done|]. constructor; [|done]. apply unmarked_newline, newline_of_is.
Qed.

Lemma locate_unmarked ls : Forall (λ l, unmarked l = true) ls → locate ls = Ok None.
Proof.
  intros H. unfold locate. rewrite (positions_unmarked 0 ls BEGIN_MARK (or_introl eq_refl) H : positions ls BEGIN_MARK = []).
  by rewrite (positions_unmarked 0 ls END_MARK (or_intror eq_refl) H : positions ls END_MARK = []).
Qed.

Lemma upsert_appends s body : unmanaged s → upsert_block s body = Ok (before_block s +:+ render_block body (newline_of s)).
Proof.
  intros [H _]. unfold upsert_block. rewrite locate_unmarked by done. cbn [mbind result_bind]. f_equal. unfold before_block, ended_text.
  destruct (is_empty_str s); [done|]. destruct (ends_with lf s); by rewrite !str_app_assoc.
Qed.

Lemma contains_str_byte c p s : contains_str (String c p) s = true → contains_byte c s = true.
Proof.
  induction s as [|a s IH]; [done|]. cbn [contains_str contains_byte]. rewrite orb_true_iff. intros [H|H]; apply orb_true_iff; [left|right; auto].
  unfold starts_with in H. cbn [strip_prefix] in H. destruct (byte_eqb c a) eqn:E; [|done]. apply byte_eqb_eq in E as ->. apply byte_eqb_refl.
Qed.

Lemma starts_with_app p a b : starts_with p a = true → starts_with p (a +:+ b) = true.
Proof. rewrite !starts_with_true. intros [r ->]. exists (r +:+ b). by rewrite str_app_assoc. Qed.

Lemma contains_str_app p a b : contains_str p a = true → contains_str p (a +:+ b) = true.
Proof.
  induction a as [|c a IH]; [cbn [contains_str]; rewrite orb_false_r; intros H|].
  - destruct p; [|done]. rewrite str_app_nil_l. by destruct b.
  - rewrite str_app_cons. cbn [contains_str]. rewrite !orb_true_iff. intros [H|H]; [left|right; auto].
    by apply (starts_with_app p (String c a) b).
Qed.

Lemma concat_without c ls : contains_byte c (str_concat ls) = false ↔ Forall (λ l, contains_byte c l = false) ls.
Proof.
  induction ls as [|l ls IH]; cbn [str_concat]; [by split|]. rewrite contains_app, orb_false_iff, IH, Forall_cons. done.
Qed.

Lemma lines_without c s : contains_byte c s = false → Forall (λ l, contains_byte c l = false) (lines s).
Proof.
  intros H. rewrite <- (split_lines_concat s), concat_without in H. apply Forall_fmap. eapply Forall_impl; [exact H|].
  intros l Hl. cbn. unfold strip_newline. destruct (strip_suffix lf l) as [w|] eqn:E; [|done]. apply strip_suffix_app in E as ->.
  rewrite contains_app in Hl. apply orb_false_iff in Hl as [Hw _]. destruct (strip_suffix _ w) as [v|] eqn:Ev; cbn; [|done].
  apply strip_suffix_app in Ev as ->. rewrite contains_app in Hw. by apply orb_false_iff in Hw as [? _].
Qed.

Lemma before_prefix s : ∃ r, before_block s = s +:+ r.
Proof.
  unfold before_block, ended_text. destruct s as [|c s]; [by exists ""|]. cbn [is_empty_str].
  destruct (ends_with lf (String c s)); rewrite ?str_app_assoc; by eexists.
Qed.

(** The block does not change the newline of the text. *)
Lemma newline_kept s body :
  newline_told s body → newline_of (before_block s +:+ render_block body (newline_of s)) = newline_of s.
Proof.
  intros [H|[H1 H2]]; unfold newline_of at 1.
  - destruct (before_prefix s) as [r ->]. rewrite str_app_assoc, contains_str_app by done. unfold newline_of. by rewrite H.
  - assert (contains_str crlf s = false) as Hs.
    { destruct (contains_str crlf s) eqn:E; [|done]. apply contains_str_byte in E. unfold cr in *. congruence. }
    assert (newline_of s = lf) as En by (unfold newline_of; by rewrite Hs). rewrite En.
    assert (contains_byte cr (before_block s +:+ render_block body lf) = false) as Ht.
    { rewrite contains_app. apply orb_false_iff. split.
      - unfold before_block, ended_text. rewrite En. destruct (is_empty_str s); [done|].
        destruct (ends_with lf s); rewrite !contains_app, H1; done.
      - unfold render_block. rewrite !contains_app. apply orb_false_iff. split; [done|]. apply orb_false_iff. split; [done|].
        apply orb_false_iff. split; [|done]. apply concat_without, Forall_fmap. eapply Forall_impl; [by apply lines_without|].
        intros l Hl. unfold compose. by rewrite contains_app, Hl. }
    destruct (contains_str crlf (before_block s +:+ render_block body lf)) eqn:E; [|done]. apply contains_str_byte in E. unfold cr in *. congruence.
Qed.

Lemma remove_appended s body nl :
  unmanaged s → is_newline nl → body_ok body nl → remove_block (before_block s +:+ render_block body nl) = Ok (Some (ended_text s)).
Proof.
  intros Hs Hn Hb. pose proof (before_unmarked s Hs) as Hu.
  destruct (locate_block (before_block s) body nl "") as [Es El]; [apply before_ended|done|done|constructor|done|].
  rewrite str_app_nil_r in Es. cbn [split_lines] in *. rewrite app_nil_r in *. unfold remove_block. rewrite Es, El. cbn [mbind result_bind].
  assert (∀ k, skipn (S (length (split_lines (before_block s)) + S (length (lines body))) + k) (split_lines (before_block s) ++ block_lines body nl) = []) as Hskip.
  { intros k. apply skipn_all2. unfold block_lines. rewrite length_app. cbn [length]. rewrite length_app, length_fmap. cbn. lia. }
  assert ((split_lines (before_block s) ++ block_lines body nl) !! S (length (split_lines (before_block s)) + S (length (lines body))) = None) as Hend.
  { apply lookup_ge_None. unfold block_lines. rewrite length_app. cbn [length]. rewrite length_app, length_fmap. cbn. lia. }
  specialize (Hskip 0). rewrite Nat.add_0_r in Hskip. unfold removed_span. rewrite Hend.
  destruct (is_empty_str s) eqn:E.
  - assert (before_block s = "") as E0 by (unfold before_block; by rewrite E). rewrite E0 in *. cbn [split_lines length app] in *. cbn [Nat.ltb Nat.leb andb from_option].
    rewrite Hskip. unfold ended_text. rewrite E. by rewrite firstn_O.
  - rewrite before_split in * by done. rewrite length_app in *. cbn [length] in *.
    replace (length (split_lines (ended_text s)) + 1 - 1) with (length (split_lines (ended_text s))) by lia.
    rewrite <- app_assoc, lookup_app_r, Nat.sub_diag by done. cbn [lookup list_lookup from_option app].
    destruct (newline_marks _ (newline_of_is s)) as (_ & _ & _ & _ & ->).
    replace (Nat.ltb 0 (length (split_lines (ended_text s)) + 1)) with true by (symmetry; apply Nat.ltb_lt; lia). cbn [andb].
    rewrite <- app_assoc in Hskip. cbn [app] in Hskip. rewrite Hskip. cbn [str_concat].
    by rewrite firstn_app, Nat.sub_diag, firstn_all, app_nil_r, split_lines_concat, str_app_nil_r.
Qed.

(** C30: installing the block and removing it again leaves the file as it was.
    A file without markers gets the block after its own text; removing the block
    gives the text back, its last line ended; and installing another body over
    the block is the same as installing that body at first, so that an update
    does not grow the file. *)
Theorem markers_roundtrip existing body body' :
  unmanaged existing → body_ok body (newline_of existing) → newline_told existing body →
  ∃ rest, upsert_block existing body = Ok (existing +:+ rest) ∧
    remove_block (existing +:+ rest) = Ok (Some (ended_text existing)) ∧
    upsert_block (existing +:+ rest) body' = upsert_block existing body'.
Proof.
  intros Hu Hb Hn. destruct (before_prefix existing) as [r Er]. exists (r +:+ render_block body (newline_of existing)).
  rewrite <- str_app_assoc, <- Er. split_and!.
  - by apply upsert_appends.
  - apply remove_appended; [done|apply newline_of_is|done].
  - pose proof (upsert_in_place (before_block existing) body (newline_of existing) "" body' (before_ended _) (newline_of_is _)
      (before_unmarked _ Hu) ltac:(constructor) Hb) as H. cbn zeta in H. rewrite !str_app_nil_r in H.
    rewrite H, newline_kept by done. symmetry. by apply upsert_appends.
Qed.

Lemma all_unmarked ls : forallb unmarked ls = true → Forall (λ l, unmarked l = true) ls.
Proof. rewrite List.forallb_forall, List.Forall_forall. done. Qed.

Lemma markers_roundtrip_witness :
  ∃ rest, upsert_block "Notes" "Use agora." = Ok ("Notes" +:+ rest) ∧ remove_block ("Notes" +:+ rest) = Ok (Some ("Notes" +:+ lf)) ∧
    upsert_block ("Notes" +:+ rest) "Use it." = upsert_block "Notes" "Use it.".
Proof.
  apply (markers_roundtrip "Notes" "Use agora." "Use it."); [split|..].
  - apply all_unmarked. vm_compute. reflexivity.
  - apply all_unmarked. vm_compute. reflexivity.
  - apply (Forall_fmap (λ line, line +:+ newline_of "Notes") (λ l, unmarked l = true)), all_unmarked. vm_compute. reflexivity.
  - right. split; reflexivity.
Defined.
