(* ===== verification/Compat.v ===== *)
(** * agora-sched: [work order] and [work plan] over given tasks

    [src/crates/agora-sched/src/render.rs]: the result of [work order] and [work
    plan] as text or JSON; whatever the ids, titles and kinds of the tasks hold,
    the output consists of printable characters and newlines.

    [src/crates/agora-sched/src/compat.rs]: the command line of [work order] and
    [work plan] when the tasks are given with [--tasks] and [--task].  The words
    are read as argparse reads them (abbreviations, [--name=value], negative
    numbers as values), the documents are read and loaded, and the result or the
    error is printed.  [read] stands for the reader of a [--tasks] file, which may
    change the world it reads from, and [from_str] for [serde_json::from_str],
    whose error is a line and a column. *)

From Stdlib Require Import Ascii.
From S2P Require Import Prelude F64 Strs PyFmt Task Graph Order Plan Assign Claims Bytes.
From S2P Require Import StoreDb Framing Markers.

Inductive Mode : Type :=
| MOrder
| MPlan (agents : nat) (assign : bool) (conflict_cost : option f64).

Definition join_text (ls : list string) : string := join newline (printable <$> ls).

Definition count (n : nat) : PyJson := PInt (to_i64 n).

Definition task_id (g : Graph) (index : nat) : option string := t_id <$> g_tasks g !! index.

(** The id of the descendant that moved a task up. *)
Definition moved_up_for (g : Graph) (ordered : Ordered) (index : nat) : option string :=
  match o_source ordered !! index with Some (Some source) => task_id g source | _ => None end.

Definition queued_value (q : Queued) : string :=
  match q with QInt value => dec value | QFloat value => float_repr value | QText text => text end.

Definition str_or_null (o : option string) : PyJson := match o with Some s => PStr s | None => PNull end.

(** ** Orders *)

Definition order_json (g : Graph) (policy : OrderPolicy) (ordered : Ordered) : string :=
  let rows := omap (λ index,
    match g_tasks g !! index with
    | None => None
    | Some task => Some (PObject [("id", PStr (t_id task)); ("tier", PInt (t_tier task));
                                  ("moved_up_for", str_or_null (moved_up_for g ordered index))])
    end) (o_order ordered) in
  json_dumps_indent2 (PObject [("policy", PStr (policy_as_str policy)); ("order", PList rows)]).

Definition order_line (g : Graph) (ordered : Ordered) (position index : nat) : option string :=
  match g_tasks g !! index with
  | None => None
  | Some task =>
      let parts := [t_kind task]
        ++ match t_queued task with Some q => ["queued " +:+ queued_value q] | None => [] end
        ++ match moved_up_for g ordered index with Some source => ["moved up for " +:+ source] | None => [] end in
      let title := if is_empty_str (t_title task) then "" else " " +:+ t_title task in
      Some (dec (Z.of_nat (position + 1)) +:+ ". " +:+ t_id task +:+ title +:+ " (" +:+ join ", " parts +:+ ")")
  end.

Definition order_lines (g : Graph) (ordered : Ordered) : list string :=
  omap id (imap (order_line g ordered) (o_order ordered)).

(** ** Schedules *)

Definition slot_json (g : Graph) (slot : Slot) : option PyJson :=
  match task_id g (s_task slot) with
  | Some id => Some (PObject [("id", PStr id); ("start", PFloat (s_start slot)); ("end", PFloat (s_end slot))])
  | None => None
  end.

Definition schedule_json (g : Graph) (agents : nat) (result : Schedule) : string :=
  json_dumps_indent2 (PObject [("agents", count agents); ("makespan", PFloat (makespan result));
    ("lower_bound", PFloat (lower_bound result));
    ("lanes", PList ((λ lane, PList (omap (slot_json g) lane)) <$> lanes result))]).

Definition slot_text (g : Graph) (slot : Slot) : option string :=
  match task_id g (s_task slot) with
  | Some id => Some (id +:+ " [" +:+ fmt_g (s_start slot) +:+ "-" +:+ fmt_g (s_end slot) +:+ "]")
  | None => None
  end.

Definition lane_line (g : Graph) (lane_index : nat) (lane : list Slot) : string :=
  let who := "agent " +:+ dec (Z.of_nat (lane_index + 1)) +:+ ": " in
  match omap (slot_text g) lane with [] => who +:+ "idle" | steps => who +:+ join ", " steps end.

Definition schedule_lines (g : Graph) (result : Schedule) : list string :=
  imap (lane_line g) (lanes result)
  ++ ["makespan " +:+ fmt_g (makespan result) +:+ "; lower bound " +:+ fmt_g (lower_bound result)].

(** ** Assignments *)

Definition pynum_json (value : PyNum) : PyJson := match value with PyInt n => PInt n | PyFloat x => PFloat x end.

Definition pynum_value (value : PyNum) : f64 := match value with PyInt n => f_of_Z n | PyFloat x => x end.

Definition chosen (g : Graph) (choice : option nat) : option string := choice ≫= task_id g.

Definition assign_json (g : Graph) (agents : nat) (result : Assignment) : string :=
  let rows := imap (λ agent (cc : option nat * PyNum),
    PObject [("agent", count agent); ("task", str_or_null (chosen g cc.1)); ("cost", pynum_json cc.2)])
    (zip (choices result) (costs result)) in
  json_dumps_indent2 (PObject [("agents", count agents); ("assignment", PList rows);
    ("potential", pynum_json (potential result)); ("rounds", PInt (Z.of_nat (rounds result))); ("equilibrium", PBool true)]).

Definition assign_lines (g : Graph) (result : Assignment) : list string :=
  imap (λ agent choice, "agent " +:+ dec (Z.of_nat (agent + 1)) +:+ ": " +:+ default "idle" (chosen g choice)) (choices result)
  ++ ["Nash equilibrium after " +:+ dec (Z.of_nat (rounds result)) +:+ " rounds; potential " +:+ fmt_g (pynum_value (potential result))].

(** A plan for one agent without [--assign] has the shape of an order. *)
Definition render (g : Graph) (policy : OrderPolicy) (mode : Mode) (json : bool) : string :=
  let as_order := let ordered := order g policy in
    if json then order_json g policy ordered else join_text (order_lines g ordered) in
  match mode with
  | MPlan agents true conflict_cost =>
      let result := assign g agents policy conflict_cost in
      if json then assign_json g agents result else join_text (assign_lines g result)
  | MPlan agents false _ =>
      if Nat.ltb 1 agents then
        let result := schedule g agents policy in
        if json then schedule_json g agents result else join_text (schedule_lines g result)
      else as_order
  | MOrder => as_order
  end.

(** ** Printable output *)

Definition out_char (c : Z) : bool := is_printable c || (c =? 10)%Z.

(** A text that is put together, part by part. *)
Ltac split_text := repeat match goal with |- text_of _ (_ +:+ _) => apply text_of_app end.

Lemma printable_out s : text_of is_printable s → text_of out_char s.
Proof. apply text_of_impl. intros c Hc. unfold out_char. by rewrite Hc. Qed.

Lemma graphic_text s : str_all is_graphic s = true → text_of is_printable s.
Proof.
  intros H. apply text_of_ascii. eapply str_all_impl; [|exact H]. intros b Hb. unfold is_graphic, in_range in Hb.
  apply andb_true_iff in Hb as [H1 H2]. apply andb_true_iff. split; [lia|]. apply is_printable_graphic. lia.
Qed.

Lemma graphic_out s : str_all is_graphic s = true → text_of out_char s.
Proof. intros H. by apply printable_out, graphic_text. Qed.

Lemma printable_text s : text_of is_printable (printable s).
Proof.
  unfold printable. apply text_of_concat. eapply Forall_impl; [apply chars_range|]. intros c Hc. unfold printable_char.
  destruct (is_printable c) eqn:E; [apply text_of_char; [exact Hc|done]|]. apply graphic_text, push_escape_graphic. apply Hc.
Qed.

Lemma newline_out : text_of out_char newline.
Proof. apply text_of_ascii. by vm_compute. Qed.

(** Digits, and texts made of them. *)
Lemma digits_graphic s : str_all is_ascii_digit s = true → str_all is_graphic s = true.
Proof.
  apply str_all_impl. intros b. unfold is_ascii_digit, is_graphic, in_range. rewrite !andb_true_iff, !Z.leb_le. lia.
Qed.

Lemma dec_graphic n : str_all is_graphic (dec n) = true.
Proof.
  unfold dec. destruct (Z.ltb_spec n 0); cbn [str_all]; [rewrite andb_true_iff; split; [done|]|]; apply digits_graphic, dec_abs_spec; lia.
Qed.

Lemma substring_all p n m s : str_all p s = true → str_all p (String.substring n m s) = true.
Proof.
  revert n m. induction s as [|c s IH]; intros n m H; [by destruct n, m|]. cbn [str_all] in H. apply andb_true_iff in H as [H1 H2].
  destruct n as [|n], m as [|m]; cbn [String.substring str_all]; [done| |by apply IH..]. rewrite H1. by apply IH.
Qed.

Lemma only_digits_all s : str_all is_ascii_digit (only_digits s) = true.
Proof. induction s as [|c s IH]; [done|]. cbn [only_digits]. destruct (is_ascii_digit c) eqn:E; cbn [str_all]; by rewrite ?E. Qed.

Lemma trim_end_all p x s : str_all p s = true → str_all p (trim_end_byte x s) = true.
Proof.
  induction s as [|c s IH]; [done|]. cbn [trim_end_byte str_all]. intros [H1 H2]%andb_true_iff. specialize (IH H2).
  destruct (trim_end_byte x s); [destruct (byte_eqb c x); [done|]|]; cbn [str_all] in *; by rewrite H1.
Qed.

Lemma zeros_digits k : str_all is_ascii_digit (zeros k) = true.
Proof. apply (zeros_spec k 0). Qed.

Lemma shortest_digits_all x : str_all is_ascii_digit (shortest_digits x).1 = true.
Proof.
  unfold shortest_digits. destruct (split_exp (fmt_shortest_exp x)) as [mantissa exp].
  match goal with |- context [let '(_, _) := ?p in _] => destruct p as [text exp'] end.
  destruct (is_empty_str _); [done|]. apply trim_end_all, only_digits_all.
Qed.

Lemma exp_suffix_graphic e : str_all is_graphic (exp_suffix e) = true.
Proof.
  unfold exp_suffix, dec_pad. rewrite !str_all_app. rewrite (proj2 (Z.ltb_ge (Z.abs e) 0)) by lia.
  rewrite (digits_graphic (dec_abs _)) by (apply dec_abs_spec; lia). rewrite (digits_graphic (zeros _)) by apply zeros_digits.
  by destruct (e <? 0)%Z.
Qed.

Lemma float_repr_graphic x : str_all is_graphic (float_repr x) = true.
Proof.
  unfold float_repr. destruct (non_finite_text x) as [t|] eqn:E; [destruct x as [|[]| |]; try done; by injection E as <-|].
  pose proof (shortest_digits_all (f_abs x)) as Hd. destruct (shortest_digits (f_abs x)) as [digits e]. cbn [fst] in Hd.
  rewrite str_all_app. apply andb_true_iff. split; [unfold sign_text; by destruct (is_sign_negative x)|].
  destruct (_ && _).
  - unfold fixed_digits. repeat case_match; rewrite !str_all_app; repeat (apply andb_true_iff; split); try done;
      apply digits_graphic; try done; try apply zeros_digits; by apply substring_all.
  - unfold sci_digits. rewrite str_all_app, exp_suffix_graphic, andb_true_r. apply digits_graphic in Hd.
    destruct digits as [|h [|h' t]]; [done|done|]. cbn [str_all] in Hd. apply andb_true_iff in Hd as [H1 H2]. rewrite str_app_cons.
    cbn [str_all]. rewrite H1. exact H2.
Qed.

Lemma json_char_graphic c : (0 ≤ c < 2097152)%Z → str_all is_graphic (json_char c) = true.
Proof.
  intros Hc. unfold json_char. repeat (destruct (Z.eqb _ _); [done|]).
  destruct ((32 <=? c)%Z && (c <=? 126)%Z) eqn:E.
  - apply andb_true_iff in E as [H1%Z.leb_le H2%Z.leb_le]. unfold encode_char. rewrite (proj2 (Z.ltb_lt c 128)) by lia. cbn [str_all].
    rewrite andb_true_r. unfold is_graphic, in_range. rewrite byte_val_of by lia. apply andb_true_iff. lia.
  - assert (Forall (λ u, 0 ≤ u)%Z (utf16_units c)) as Hu.
    { unfold utf16_units. destruct (Z.ltb_spec c 65536); repeat constructor; Z.div_mod_to_equations; lia. }
    clear E. induction Hu as [|u us Hu _ IH]; [done|]. cbn [concat_map foldr]. rewrite !str_all_app, hex_pad_graphic by done.
    cbn. exact IH.
Qed.

Lemma json_str_out s : text_of out_char (write_json_str s).
Proof.
  unfold write_json_str. apply text_of_app; [literal|]. apply text_of_app; [|literal]. apply text_of_concat.
  eapply Forall_impl; [apply chars_range|]. intros c Hc. by apply graphic_out, json_char_graphic.
Qed.

Lemma indent_out d : text_of out_char (push_indent d).
Proof. induction d as [|d IH]; cbn [push_indent]; [apply text_of_nil|]. apply text_of_app; [literal|done]. Qed.

Lemma json_block_out d open close items :
  text_of out_char open → text_of out_char close → Forall (text_of out_char) items → text_of out_char (json_block d open close items).
Proof.
  intros Ho Hc Hi. unfold json_block. destruct items as [|i items]; [by apply text_of_app|]. cbn zeta.
  pose proof newline_out. pose proof (indent_out d). pose proof (indent_out (S d)). unfold close_block.
  assert (text_of out_char ",") by literal. split_text; try done. apply text_of_join; [|done]. by split_text.
Qed.

(** JSON text: strings are escaped, and the rest is ASCII. *)
Lemma write_json_out v : ∀ d, text_of out_char (write_json v d).
Proof.
  revert v. fix IH 1. intros v d. destruct v as [|b|i|f|s|items|members]; cbn [write_json].
  - literal.
  - destruct b; literal.
  - apply graphic_out, dec_graphic.
  - apply graphic_out. unfold json_float. destruct f as [|[]| |]; try done; apply float_repr_graphic.
  - apply json_str_out.
  - apply json_block_out; [literal..|]. induction items as [|i items IHi]; constructor; [apply IH|exact IHi].
  - apply json_block_out; [literal..|]. induction members as [|[k m] members IHm]; constructor; [|exact IHm]. cbn [fst snd].
    apply text_of_app; [apply json_str_out|]. apply text_of_app; [literal|apply IH].
Qed.

Lemma join_text_out ls : text_of out_char (join_text ls).
Proof. apply text_of_join; [apply newline_out|]. apply Forall_fmap, Forall_true. intros l. apply printable_out, printable_text. Qed.

Lemma render_out g policy mode json : text_of out_char (render g policy mode json).
Proof.
  unfold render, order_json, assign_json, schedule_json, json_dumps_indent2.
  destruct mode as [|agents assign cost]; [|destruct assign; [|destruct (Nat.ltb 1 agents)]]; destruct json;
    apply write_json_out || apply join_text_out.
Qed.

(** ** The lines of an order *)

Lemma order_line_Some g ordered position index t :
  g_tasks g !! index = Some t → ∃ rest, order_line g ordered position index = Some (dec (Z.of_nat (position + 1)) +:+ ". " +:+ t_id t +:+ rest).
Proof. intros Ht. unfold order_line. rewrite Ht. by eexists. Qed.

(** Nothing is dropped when each item has a text. *)
Lemma omap_imap_all {A} (f : nat → A → option string) l :
  (∀ k x, x ∈ l → is_Some (f k x)) → Some <$> omap id (imap f l) = imap f l.
Proof.
  revert f. induction l as [|x l IH]; intros f Hf; [done|]. rewrite imap_cons. cbn.
  destruct (Hf 0 x) as [s Es]; [by left|]. rewrite Es. cbn. f_equal. apply IH. intros k y Hy. apply Hf. by right.
Qed.

(** There is a line for each task, in the order. *)
Lemma order_lines_spec g ordered :
  Forall (λ i, i < length (g_tasks g)) (o_order ordered) →
  length (order_lines g ordered) = length (o_order ordered) ∧
  ∀ position index t, o_order ordered !! position = Some index → g_tasks g !! index = Some t →
    ∃ rest, order_lines g ordered !! position = Some (dec (Z.of_nat (position + 1)) +:+ ". " +:+ t_id t +:+ rest).
Proof.
  intros H. assert (Some <$> order_lines g ordered = imap (order_line g ordered) (o_order ordered)) as Hl.
  { apply omap_imap_all. intros k i Hi. rewrite Forall_forall in H. apply H in Hi. apply lookup_lt_is_Some in Hi as [t Ht].
    destruct (order_line_Some g ordered k i t Ht) as [rest ->]. eauto. }
  split; [by rewrite <- (length_fmap Some), Hl, length_imap|]. intros position index t Hi Ht.
  destruct (order_line_Some g ordered position index t Ht) as [rest Er]. exists rest.
  apply (f_equal (.!! position)) in Hl. rewrite list_lookup_fmap, list_lookup_imap, Hi in Hl. cbn in Hl. rewrite Er in Hl.
  destruct (order_lines g ordered !! position); cbn in Hl; congruence.
Qed.

(** ** The command line *)

Record CompatOutput : Type := mk_compat_output {
  co_exit_code : Z;
  co_stdout : string;
  co_stderr : string }.

(** The word before an inline value. *)
Definition word_name (arg : string) : string := match split_once "=" arg with Some (name, _) => name | None => arg end.

Definition given_word (arg : string) : bool :=
  let name := word_name arg in Nat.leb 4 (String.length name) && starts_with name "--tasks".

Definition is_given_tasks (args : list string) : bool := existsb given_word args.

Inductive Sub : Type := SubOrder | SubPlan.

Definition sub_name (sub : Sub) : string := match sub with SubOrder => "order" | SubPlan => "plan" end.

Inductive Opt : Type := OHelp | OScope | OJson | OPolicy | OTasks | OTask | OAgents | OAssign | OConflictCost.

Definition takes_value (opt : Opt) : bool :=
  match opt with OScope | OPolicy | OTasks | OTask | OAgents | OConflictCost => true | OHelp | OJson | OAssign => false end.

Definition SHARED_OPTIONS : list (string * Opt) :=
  [("-h", OHelp); ("--help", OHelp); ("--scope", OScope); ("--json", OJson); ("--policy", OPolicy);
   ("--tasks", OTasks); ("--task", OTask)].

Definition PLAN_OPTIONS : list (string * Opt) :=
  [("--agents", OAgents); ("--assign", OAssign); ("--conflict-cost", OConflictCost)].

Definition option_table (sub : Sub) : list (string * Opt) :=
  SHARED_OPTIONS ++ match sub with SubPlan => PLAN_OPTIONS | SubOrder => [] end.

(** How argparse classifies a word. *)
Inductive Token : Type :=
| TValue
| TOption (name : string) (opt : Opt) (explicit : option string)
| TUnknown
| TAmbiguous (message : string).

Definition is_negative_number (word : string) : bool :=
  match strip_prefix "-" word with
  | None => false
  | Some body =>
      all_digits body ||
      match split_once "." body with
      | Some (whole, part) => (is_empty_str whole || all_digits whole) && all_digits part
      | None => false
      end
  end.

Definition named (spelled : string) (entry : string * Opt) : bool := String.eqb entry.1 spelled.

(** An abbreviation of a long option, when it is one. *)
Definition abbreviated (spelled : string) (explicit : option string) (table : list (string * Opt)) : option Token :=
  if starts_with "--" spelled then
    match filter (λ entry : string * Opt, starts_with spelled entry.1) table with
    | [] => None
    | [(name, opt)] => Some (TOption name opt explicit)
    | many => Some (TAmbiguous ("ambiguous option: " +:+ spelled +:+ " could match " +:+ join ", " many.*1))
    end
  else None.

Definition classify (word : string) (table : list (string * Opt)) : Token :=
  if negb (starts_with "-" word) || String.eqb word "-" then TValue
  else
    match find (named word) table with
    | Some (name, opt) => TOption name opt None
    | None =>
        let '(spelled, explicit) := match split_once "=" word with Some (s, v) => (s, Some v) | None => (word, None) end in
        match find (named spelled) table with
        | Some (name, opt) => TOption name opt explicit
        | None =>
            match abbreviated spelled explicit table with
            | Some token => token
            | None => if is_negative_number word || contains_byte " " word then TValue else TUnknown
            end
        end
    end.

Record Parsed : Type := mk_parsed {
  p_scope : option string;
  p_json : bool;
  p_policy : OrderPolicy;
  p_tasks : list string;
  p_specs : list string;
  p_agents : option nat;
  p_assign : bool;
  p_conflict_cost : option f64 }.

Definition parsed_default : Parsed := mk_parsed None false Fifo [] [] None false None.

Inductive Stop : Type := SHelp | SError (message : string).

Definition argument_error (name detail : string) : Stop := SError ("argument " +:+ name +:+ ": " +:+ detail).

Definition agents_value (text : string) : result string nat :=
  match py_int text with
  | None => Err (repr_str text +:+ " is not a whole number")
  | Some value =>
      if (value <? 1)%Z then Err (repr_str text +:+ " is less than 1")
      else if (value <=? Z.of_nat MAX_AGENTS)%Z then Ok (Z.to_nat value)
      else Err (repr_str text +:+ " is more than " +:+ dec (Z.of_nat MAX_AGENTS))
  end.

Definition cost_value (text : string) : result string f64 :=
  match py_float text with
  | None => Err (repr_str text +:+ " is not a number")
  | Some value =>
      if is_finite value && f_le (f_of_Z 0) value then Ok value
      else Err (repr_str text +:+ " is not a finite number, zero or more")
  end.

Definition map_err {E F A} (f : E → F) (r : result E A) : result F A := match r with Ok a => Ok a | Err e => Err (f e) end.

Definition apply_opt (p : Parsed) (name : string) (opt : Opt) (value : string) : result Stop Parsed :=
  let '(mk_parsed scope json policy tasks specs agents assign cost) := p in
  match opt with
  | OHelp => Err SHelp
  | OJson => Ok (mk_parsed scope true policy tasks specs agents assign cost)
  | OAssign => Ok (mk_parsed scope json policy tasks specs agents true cost)
  | OScope => Ok (mk_parsed (Some value) json policy tasks specs agents assign cost)
  | OTasks => Ok (mk_parsed scope json policy (tasks ++ [value]) specs agents assign cost)
  | OTask => Ok (mk_parsed scope json policy tasks (specs ++ [value]) agents assign cost)
  | OPolicy =>
      match policy_parse value with
      | Some policy' => Ok (mk_parsed scope json policy' tasks specs agents assign cost)
      | None => Err (argument_error name ("invalid choice: " +:+ repr_str value +:+ " (choose from 'fifo', 'wsjf', 'critical-path')"))
      end
  | OAgents =>
      n ← map_err (argument_error name) (agents_value value);
      Ok (mk_parsed scope json policy tasks specs (Some n) assign cost)
  | OConflictCost =>
      x ← map_err (argument_error name) (cost_value value);
      Ok (mk_parsed scope json policy tasks specs agents assign (Some x))
  end.

Definition is_value (token : Token) : bool := match token with TValue => true | _ => false end.

(** The loop over the words: what was parsed, and the words left over. *)
Fixpoint parse_words (table : list (string * Opt)) (words : list string) (p : Parsed) (extras : list string) :
    result Stop (Parsed * list string) :=
  match words with
  | [] => Ok (p, extras)
  | word :: rest =>
      match classify word table with
      | TValue | TUnknown => parse_words table rest p (extras ++ [word])
      | TAmbiguous message => Err (SError message)
      | TOption name opt explicit =>
          match takes_value opt, explicit with
          | false, Some text => Err (argument_error name ("ignored explicit argument " +:+ repr_str text))
          | false, None => p' ← apply_opt p name opt ""; parse_words table rest p' extras
          | true, Some text => p' ← apply_opt p name opt text; parse_words table rest p' extras
          | true, None =>
              match rest with
              | next :: rest' =>
                  if is_value (classify next table) then
                    p' ← apply_opt p name opt next; parse_words table rest' p' extras
                  else Err (argument_error name "expected one argument")
              | [] => Err (argument_error name "expected one argument")
              end
          end
      end
  end.

Definition parse (sub : Sub) (words : list string) : result Stop Parsed :=
  '(p, extras) ← parse_words (option_table sub) words parsed_default [];
  match sub, p_agents p with
  | SubPlan, None => Err (SError "the following arguments are required: --agents")
  | _, _ =>
      match extras with
      | [] => Ok p
      | _ => Err (SError ("unrecognized arguments: " +:+ join " " extras))
      end
  end.

Definition MAX_TASKS : nat := 2000.

Definition json_message (line column : nat) (text : string) : string :=
  let before := sum_list_with (λ l, length (chars l)) (take (line - 1) (split_lines text)) in
  "Expecting value: line " +:+ dec (Z.of_nat line) +:+ " column " +:+ dec (Z.of_nat column)
  +:+ " (char " +:+ dec (Z.of_nat (before + (column - 1))) +:+ ")".

Definition usage (sub : Sub) : string :=
  match sub with
  | SubOrder =>
      "usage: work order [-h] [--scope SCOPE] [--json] [--policy {fifo,wsjf,critical-path}] [--tasks FILE] [--task SPEC]"
  | SubPlan =>
      "usage: work plan [-h] [--scope SCOPE] [--json] [--policy {fifo,wsjf,critical-path}] [--tasks FILE] [--task SPEC] --agents AGENTS [--assign] [--conflict-cost COST]"
  end.

Definition fail_with (message : string) : CompatOutput :=
  mk_compat_output 2 "" ("work: " +:+ printable message +:+ newline).

Definition usage_error (sub : Sub) (message : string) : CompatOutput :=
  mk_compat_output 2 "" (usage sub +:+ newline +:+ "work " +:+ sub_name sub +:+ ": error: " +:+ printable message +:+ newline).

Definition command_error (message : string) : CompatOutput :=
  mk_compat_output 2 "" ("usage: work {order,plan} ..." +:+ newline +:+ "work: error: " +:+ printable message +:+ newline).

(** The words before the first [--]. *)
Fixpoint before_dashes (words : list string) : list string :=
  match words with
  | [] => []
  | word :: rest => if String.eqb word "--" then [] else word :: before_dashes rest
  end.

Section World.
  Context {W : Type} (read : W → string → result string string * W) (from_str : string → result (nat * nat) Value).

(** The documents in the order of their flags, up to the first that fails. *)
Fixpoint read_documents (paths : list string) (w : W) : result string (list Value) * W :=
  match paths with
  | [] => (Ok [], w)
  | path :: paths' =>
      match read w path with
      | (Err message, w') => (Err message, w')
      | (Ok text, w') =>
          match from_str text with
          | Err (line, column) => (Err (json_message line column text), w')
          | Ok document =>
              match read_documents paths' w' with
              | (Ok documents, w'') => (Ok (document :: documents), w'')
              | (Err message, w'') => (Err message, w'')
              end
          end
      end
  end.

Definition mode_of (sub : Sub) (p : Parsed) : Mode :=
  match sub with
  | SubOrder => MOrder
  | SubPlan => MPlan (default 1 (p_agents p)) (p_assign p) (p_conflict_cost p)
  end.

(** The part of [render_given] after the documents are read. *)
Definition render_tasks (sub : Sub) (p : Parsed) (documents : list Value) : result string string :=
  tasks ← map_err Task.message (load_tasks documents (p_specs p));
  if Nat.eqb (length tasks) 0 then Err "no tasks were given"
  else if Nat.ltb MAX_TASKS (length tasks) then Err ("more than " +:+ dec (Z.of_nat MAX_TASKS) +:+ " tasks")
  else
    graph ← map_err Task.message (Graph_new tasks);
    Ok (render graph (p_policy p) (mode_of sub p) (p_json p)).

Definition render_given (sub : Sub) (p : Parsed) (w : W) : result string string * W :=
  let '(documents, w') := read_documents (p_tasks p) w in (documents ≫= render_tasks sub p, w').

Definition run_parsed (sub : Sub) (dash_dash : bool) (p : Parsed) (w : W) : CompatOutput * W :=
  if dash_dash then (fail_with "only add and run take a command after --", w)
  else if bool_decide (is_Some (p_scope p)) then (fail_with "--scope does not apply to tasks given with --tasks or --task", w)
  else if bool_decide (is_Some (p_conflict_cost p)) && negb (p_assign p) then (fail_with "--conflict-cost needs --assign", w)
  else if Nat.ltb 1 (length (filter (λ path, path = "-") (p_tasks p))) then
    (fail_with "--tasks - reads the standard input once", w)
  else
    let '(rendered, w') := render_given sub p w in
    (match rendered with
     | Ok text => mk_compat_output 0 (text +:+ newline) ""
     | Err message => fail_with message
     end, w').

Definition run_sub (sub : Sub) (rest : list string) (w : W) : CompatOutput * W :=
  let head := before_dashes rest in
  let dash_dash := negb (Nat.eqb (length head) (length rest)) in
  match parse sub head with
  | Err SHelp => (mk_compat_output 0 (usage sub +:+ newline) "", w)
  | Err (SError message) => (usage_error sub message, w)
  | Ok p => run_parsed sub dash_dash p w
  end.

Definition run (args : list string) (w : W) : CompatOutput * W :=
  match args with
  | [] => (command_error "the following arguments are required: command", w)
  | command :: rest =>
      if String.eqb command "order" then run_sub SubOrder rest w
      else if String.eqb command "plan" then run_sub SubPlan rest w
      else (command_error ("argument command: invalid choice: " +:+ repr_str command +:+ " (choose from 'order', 'plan')"), w)
  end.
End World.

(** ** The output *)

(** An outcome of the command: a result on the standard output, or a message on
    the other; both end with a newline. *)
Definition outcome_ok (o : CompatOutput) : Prop :=
  text_of out_char (co_stdout o) ∧ text_of out_char (co_stderr o) ∧
  ((co_exit_code o = 0%Z ∧ ends_with newline (co_stdout o) = true ∧ co_stderr o = "") ∨
   (co_exit_code o = 2%Z ∧ co_stdout o = "" ∧ ends_with newline (co_stderr o) = true)).

Lemma ends_with_app s t : ends_with t (s +:+ t) = true.
Proof.
  unfold ends_with. induction s as [|c s IH].
  - rewrite str_app_nil_l. destruct t; cbn [strip_suffix]; by rewrite bool_decide_eq_true_2.
  - rewrite str_app_cons. cbn [strip_suffix]. case_bool_decide; [done|]. by destruct (strip_suffix t (s +:+ t)).
Qed.

Lemma outcome_error text : text_of out_char text → outcome_ok (mk_compat_output 2 "" (text +:+ newline)).
Proof.
  intros H. split_and!; [apply text_of_nil|apply text_of_app; [done|apply newline_out]|]. right. split_and!; [done..|]. apply ends_with_app.
Qed.

Lemma outcome_success text : text_of out_char text → outcome_ok (mk_compat_output 0 (text +:+ newline) "").
Proof.
  intros H. split_and!; [apply text_of_app; [done|apply newline_out]|apply text_of_nil|]. left. split_and!; [done| |done]. apply ends_with_app.
Qed.

Lemma usage_out sub : text_of out_char (usage sub).
Proof. destruct sub; literal. Qed.

Lemma message_out m : text_of out_char (printable m).
Proof. apply printable_out, printable_text. Qed.

Lemma fail_ok m : outcome_ok (fail_with m).
Proof. unfold fail_with. rewrite <- str_app_assoc. apply outcome_error. apply text_of_app; [literal|apply message_out]. Qed.

Lemma usage_error_ok sub m : outcome_ok (usage_error sub m).
Proof.
  unfold usage_error. rewrite <- !str_app_assoc. apply outcome_error. split_text;
    [apply usage_out|literal|literal|destruct sub; literal|literal|apply message_out].
Qed.

Lemma command_error_ok m : outcome_ok (command_error m).
Proof. unfold command_error. rewrite <- !str_app_assoc. apply outcome_error. split_text; [literal..|apply message_out]. Qed.

#[export] Hint Resolve fail_ok usage_error_ok command_error_ok usage_out outcome_success : core.

Section Outcome.
  Context {W : Type} (read : W → string → result string string * W) (from_str : string → result (nat * nat) Value).

Lemma render_tasks_out sub p documents text : render_tasks sub p documents = Ok text → text_of out_char text.
Proof.
  unfold render_tasks. destruct (load_tasks _ _) as [tasks|]; [|done]. cbn [mbind result_bind map_err].
  destruct (Nat.eqb _ _); [done|]. destruct (Nat.ltb _ _); [done|]. destruct (Graph_new tasks) as [g|]; [|done].
  cbn [mbind result_bind map_err]. intros [= <-]. apply render_out.
Qed.

Lemma run_parsed_ok sub dd p w : outcome_ok (run_parsed read from_str sub dd p w).1.
Proof.
  unfold run_parsed. repeat case_match; cbn; auto. unfold render_given in *. destruct (read_documents _ _ _ _) as [[docs|] w']; simplify_eq/=.
  eauto using render_tasks_out.
Qed.

(** C35: Whatever the words, the documents and the reader are, [work order] and
    [work plan] over given tasks end with exit code 0, a result on the standard
    output and nothing on the standard error, or with exit code 2, nothing on the
    standard output and a message on the standard error; what is printed ends
    with a newline and consists of printable characters and newlines only, also
    when titles, ids, file names or the words themselves hold control characters. *)
Theorem compat_output args w : outcome_ok (run read from_str args w).1.
Proof.
  unfold run. destruct args as [|command rest]; [apply command_error_ok|].
  assert (∀ sub, outcome_ok (run_sub read from_str sub rest w).1) as H; [|destruct (String.eqb command "order"); [apply H|]; destruct (String.eqb command "plan"); [apply H|apply command_error_ok]].
  intros sub. unfold run_sub. destruct (parse sub (before_dashes rest)) as [p|[|m]]; [apply run_parsed_ok|cbn; auto|cbn; auto].
Qed.
End Outcome.

(** ** The words *)

Lemma before_dashes_all words : "--" ∉ words → before_dashes words = words.
Proof.
  induction words as [|x words IH]; [done|]. intros H. apply not_elem_of_cons in H as [H1 H2]. cbn [before_dashes].
  destruct (String.eqb_spec x "--"); [by subst|]. by rewrite IH.
Qed.

Lemma find_In {A} (f : A → bool) l x : find f l = Some x → x ∈ l ∧ f x = true.
Proof. intros H. apply find_some in H as [H1 H2]. by rewrite list_elem_of_In. Qed.

(** An option is an entry of the table. *)
Lemma classify_entry word table name opt explicit : classify word table = TOption name opt explicit → (name, opt) ∈ table.
Proof.
  unfold classify. destruct (_ || _); [done|]. destruct (find (named word) table) as [[n o]|] eqn:E1.
  { intros [= <- <- <-]. by apply find_In in E1 as [? _]. }
  destruct (match split_once "=" word with Some (s, v) => (s, Some v) | None => (word, None) end) as [spelled ex].
  destruct (find (named spelled) table) as [[n o]|] eqn:E2.
  { intros [= <- <- <-]. by apply find_In in E2 as [? _]. }
  unfold abbreviated. destruct (starts_with "--" spelled); [|by destruct (_ || _)].
  destruct (filter _ table) as [|[n o] [|? ?]] eqn:E3; [by destruct (_ || _)| |done]. intros [= <- <- <-].
  assert ((n, o) ∈ filter (λ entry : string * Opt, starts_with spelled entry.1) table) as H by (rewrite E3; by left).
  by apply list_elem_of_filter in H as [_ H].
Qed.

(** One round of the loop: a word left over, or an option with its value, which
    is inline or the next word. *)
Lemma parse_words_step table word rest p extras r :
  parse_words table (word :: rest) p extras = Ok r →
  ((∀ name opt explicit, classify word table ≠ TOption name opt explicit) ∧ (∀ m, classify word table ≠ TAmbiguous m) ∧
   parse_words table rest p (extras ++ [word]) = Ok r) ∨
  ∃ name opt explicit value p' rest',
    classify word table = TOption name opt explicit ∧ apply_opt p name opt value = Ok p' ∧ parse_words table rest' p' extras = Ok r ∧
    (rest = rest' ∨ ∃ next, rest = next :: rest' ∧ classify next table = TValue).
Proof.
  cbn [parse_words]. destruct (classify word table) as [|name opt explicit| |m] eqn:E; [by left; split_and!| |by left; split_and!|done].
  intros H. right. destruct (takes_value opt), explicit as [text|]; [| |done|].
  - destruct (apply_opt p name opt text) as [p'|] eqn:E'; [|done]. exists name, opt, (Some text), text, p', rest. auto.
  - destruct rest as [|next rest']; [done|]. destruct (classify next table) eqn:En; try done. cbn [is_value] in H.
    destruct (apply_opt p name opt next) as [p'|] eqn:E'; [|done]. exists name, opt, None, next, p', rest'. split_and!; eauto.
  - destruct (apply_opt p name opt "") as [p'|] eqn:E'; [|done]. exists name, opt, None, "", p', rest. auto.
Qed.

(** Induction on the words, over the rounds of the loop. *)
Lemma parse_words_rounds (P : list string → Parsed → Parsed → Prop) table :
  (∀ p, P [] p p) →
  (∀ word rest p p', (∀ name opt explicit, classify word table ≠ TOption name opt explicit) → (∀ m, classify word table ≠ TAmbiguous m) →
     P rest p p' → P (word :: rest) p p') →
  (∀ word rest rest' name opt explicit value p p1 p', classify word table = TOption name opt explicit →
     apply_opt p name opt value = Ok p1 → rest = rest' ∨ (∃ next, rest = next :: rest' ∧ classify next table = TValue) →
     P rest' p1 p' → P (word :: rest) p p') →
  ∀ words p extras p' extras', parse_words table words p extras = Ok (p', extras') → P words p p'.
Proof.
  intros Hnil Hleft Hopt words. remember (length words) as n eqn:Hn. revert words Hn.
  induction (lt_wf n) as [n _ IH]. intros [|word rest] -> p extras p' extras' H; [cbn in H; simplify_eq; apply Hnil|].
  apply parse_words_step in H as [(H1 & H2 & H)|(name & opt & ex & value & p1 & rest' & H1 & H2 & H & Hr)].
  - apply Hleft; [done..|]. eapply IH; [|done|done]. cbn. lia.
  - eapply Hopt; [done..|]. eapply IH; [|done|done]. destruct Hr as [->|(next & -> & _)]; cbn; lia.
Qed.

(** Orders have no conflict cost. *)
Lemma parse_order_cost words p : parse SubOrder words = Ok p → p_conflict_cost p = None.
Proof.
  unfold parse. destruct (parse_words _ _ _ _) as [[p' extras]|] eqn:E; [|done]. cbn. destruct extras; [|done]. intros [= <-].
  refine (parse_words_rounds (λ _ p p', p_conflict_cost p = None → p_conflict_cost p' = None) (option_table SubOrder) _ _ _ words _ _ _ _ E eq_refl);
    [done|naive_solver|].
  clear. intros word rest rest' name opt ex value p p1 p' Hc%classify_entry Ha _ IH Hp. apply IH. destruct p. cbn in Hp. subst.
  unfold apply_opt in Ha. destruct opt; try (by simplify_eq/=).
  - by destruct (policy_parse value); simplify_eq/=.
  - by destruct (agents_value value); simplify_eq/=.
  - exfalso. unfold option_table, SHARED_OPTIONS in Hc. set_solver.
Qed.

(** ** Which commands give tasks *)

Lemma split_once_app x s a b : split_once x s = Some (a, b) → s = a +:+ String x b.
Proof.
  revert a b. induction s as [|c s IH]; intros a b; cbn [split_once]; [done|]. destruct (byte_eqb c x) eqn:E.
  - intros [= <- <-]. apply byte_eqb_eq in E as ->. done.
  - destruct (split_once x s) as [[a' b']|]; [|done]. intros [= <- <-]. rewrite str_app_cons. by rewrite (IH a' b').
Qed.

Lemma prefixes_of_tasks s : starts_with s "--tasks" = true → s ∈ [""; "-"; "--"; "--t"; "--ta"; "--tas"; "--task"; "--tasks"].
Proof.
  intros [r Hr]%starts_with_true. do 7 (destruct s as [|? s]; [set_solver|rewrite str_app_cons in Hr; injection Hr as <- Hr]).
  destruct s; [set_solver|done].
Qed.

Definition is_task_opt (opt : Opt) : bool := match opt with OTasks | OTask => true | _ => false end.

(** A word that names [--tasks] or [--task], or may. *)
Lemma given_word_classified sub word :
  given_word word = true →
  match classify word (option_table sub) with TOption _ opt _ => is_task_opt opt = true | TAmbiguous _ => True | _ => False end.
Proof.
  unfold given_word, word_name. destruct (split_once "=" word) as [[s v]|] eqn:E; cbn zeta; intros [Hl%Nat.leb_le Hp%prefixes_of_tasks]%andb_true_iff.
  - apply split_once_app in E as ->. repeat (apply elem_of_cons in Hp as [->|Hp]; [cbn in Hl; try lia; by destruct sub; vm_compute|]). set_solver.
  - repeat (apply elem_of_cons in Hp as [->|Hp]; [cbn in Hl; try lia; by destruct sub; vm_compute|]). set_solver.
Qed.

(** The spelling an option was recognised by is a prefix of its name. *)
Lemma classify_prefix word table name opt explicit :
  classify word table = TOption name opt explicit →
  (starts_with (word_name word) name = true ∧ (word_name word = name ∨ starts_with "--" (word_name word) = true)) ∨ word = name.
Proof.
  unfold classify, word_name. destruct (_ || _); [done|]. destruct (find (named word) table) as [[n o]|] eqn:E1.
  { intros [= <- <- <-]. right. apply find_In in E1 as [_ H]. by apply String.eqb_eq in H. }
  set (sp := match split_once "=" word with Some (s, v) => (s, Some v) | None => (word, None) end).
  assert (match split_once "=" word with Some (name0, _) => name0 | None => word end = sp.1) as ->
    by (unfold sp; by destruct (split_once "=" word) as [[]|]).
  destruct sp as [spelled ex]. cbn [fst]. destruct (find (named spelled) table) as [[n o]|] eqn:E2.
  { intros [= <- <- <-]. left. apply find_In in E2 as [_ H]. apply String.eqb_eq in H. cbn in H. subst. split; [|by left]. apply starts_with_true.
    exists "". by rewrite str_app_nil_r. }
  unfold abbreviated. destruct (starts_with "--" spelled) eqn:Hd; [|by destruct (_ || _)].
  destruct (filter _ table) as [|[n o] [|? ?]] eqn:E3; [by destruct (_ || _)| |done]. intros [= <- <- <-]. left. split; [|by right].
  assert ((n, o) ∈ filter (λ entry : string * Opt, starts_with spelled entry.1) table) as H by (rewrite E3; by left).
  by apply list_elem_of_filter in H as [H%Is_true_true _].
Qed.

(** [--tasks] and [--task] are recognised by four letters at least: fewer are
    ambiguous. *)
Lemma task_opt_given sub word name opt explicit :
  classify word (option_table sub) = TOption name opt explicit → is_task_opt opt = true → given_word word = true.
Proof.
  intros Hc Ho. pose proof (classify_entry _ _ _ _ _ Hc) as Hin. pose proof (classify_prefix _ _ _ _ _ Hc) as Hp.
  assert (name = "--tasks" ∨ name = "--task") as Hname.
  { destruct sub; unfold option_table, SHARED_OPTIONS, PLAN_OPTIONS in Hin; cbn [app] in Hin;
      repeat (apply elem_of_cons in Hin as [[= -> ->]|Hin]; [by auto|]); by apply not_elem_of_nil in Hin. }
  destruct Hp as [[Hp Hl]| ->]; [|by destruct Hname as [-> | ->]].
  assert (starts_with (word_name word) "--tasks" = true) as Hp'.
  { destruct Hname as [-> | ->]; [done|]. apply starts_with_true in Hp as [r Hr]. apply starts_with_true. exists (r +:+ "s").
    by rewrite <- str_app_assoc, <- Hr. }
  assert (starts_with "--" (word_name word) = true) as Hd by (destruct Hl as [-> | ?]; [by destruct Hname as [-> | ->]|done]). clear Hl.
  unfold given_word. rewrite Hp', andb_true_r. apply Nat.leb_le. apply prefixes_of_tasks in Hp'.
  destruct (decide (4 ≤ String.length (word_name word))) as [|Hs]; [done|exfalso].
  unfold word_name in *. destruct (split_once "=" word) as [[s v]|] eqn:E; [apply split_once_app in E as ->|];
    (repeat (apply elem_of_cons in Hp' as [->|Hp']; [cbn in Hs; try lia; try done; destruct sub; by vm_compute in Hc|])); set_solver.
Qed.

(** Tasks were given: a document or a spec. *)
Definition gives_tasks (p : Parsed) : bool := negb (bool_decide (p_tasks p = [] ∧ p_specs p = [])).

Lemma apply_opt_gives p name opt value p' : apply_opt p name opt value = Ok p' → gives_tasks p' = gives_tasks p || is_task_opt opt.
Proof.
  destruct p as [scope json policy tasks specs agents assign cost]. unfold apply_opt, gives_tasks. intros H.
  destruct opt; cbn [is_task_opt]; rewrite ?orb_false_r, ?orb_true_r; try (by simplify_eq/=).
  - by destruct (policy_parse value); simplify_eq/=.
  - simplify_eq/=. rewrite bool_decide_eq_false_2; [done|]. intros [[]%app_nil _]. done.
  - simplify_eq/=. rewrite bool_decide_eq_false_2; [done|]. intros [_ []%app_nil]. done.
  - by destruct (agents_value value); simplify_eq/=.
  - by destruct (cost_value value); simplify_eq/=.
Qed.

Lemma not_given_word sub word :
  (∀ name opt explicit, classify word (option_table sub) ≠ TOption name opt explicit) →
  (∀ m, classify word (option_table sub) ≠ TAmbiguous m) → given_word word = false.
Proof.
  intros H1 H2. destruct (given_word word) eqn:E; [|done]. apply (given_word_classified sub) in E.
  destruct (classify word (option_table sub)); naive_solver.
Qed.

(** The test the command line uses to route a command is exact: a command
    that parses gives tasks with [--tasks] or [--task], in any of the spellings
    argparse accepts for them, precisely when [is_given_tasks] says so. *)
Theorem given_tasks_exact sub words p : parse sub words = Ok p → is_given_tasks words = gives_tasks p.
Proof.
  unfold parse. destruct (parse_words _ _ _ _) as [[p' extras]|] eqn:E; [|done]. intros H. assert (p' = p) as -> by (cbn in H; by repeat case_match; simplify_eq).
  apply (parse_words_rounds (λ words p p', gives_tasks p' = gives_tasks p || is_given_tasks words) (option_table sub)) in E; [by rewrite E| | |]; clear.
  - intros p. cbn. by rewrite orb_false_r.
  - intros word rest p p' H1 H2 IH. unfold is_given_tasks in *. cbn [existsb]. by rewrite (not_given_word sub word).
  - intros word rest rest' name opt ex value p p1 p' Hc Ha%apply_opt_gives Hr IH. rewrite IH, Ha.
    change (is_given_tasks (word :: rest)) with (given_word word || is_given_tasks rest).
    assert (given_word word = is_task_opt opt) as Hw.
    { destruct (is_task_opt opt) eqn:Eo; [by eapply task_opt_given|]. destruct (given_word word) eqn:Eg; [|done].
      apply (given_word_classified sub) in Eg. rewrite Hc in Eg. congruence. }
    assert (is_given_tasks rest = is_given_tasks rest') as ->.
    { destruct Hr as [->|(next & -> & Hn)]; [done|]. unfold is_given_tasks. cbn [existsb].
      rewrite (not_given_word sub next); [done|by rewrite Hn..]. }
    rewrite Hw. by rewrite orb_assoc.
Qed.

(** ** What an order prints *)

(** [ls] lists the tasks, numbered from one, each once and after its
    prerequisites. *)
Definition lists_order (tasks : list Task) (ls : list string) : Prop :=
  ∃ places, places ≡ₚ seq 0 (length tasks) ∧ length ls = length tasks ∧
    (∀ i j p d, places !! i = Some p → places !! j = Some d → prereq tasks p d → i < j) ∧
    ∀ i index t, places !! i = Some index → tasks !! index = Some t →
      ∃ rest, ls !! i = Some (dec (Z.of_nat (i + 1)) +:+ ". " +:+ t_id t +:+ rest).

Lemma order_lines_listed tasks g policy : Graph_new tasks = Ok g → lists_order tasks (order_lines g (order g policy)).
Proof.
  intros Hg. destruct (order_respects_prerequisites tasks g policy Hg) as [Hp Hr]. pose proof (Graph_new_ok _ _ Hg) as [Ht _].
  destruct (order_lines_spec g (order g policy)) as [Hl Hs].
  { apply Forall_forall. intros i Hi. rewrite Hp in Hi. apply elem_of_seq in Hi. rewrite Ht. lia. }
  exists (o_order (order g policy)). split_and!; [done| |done|by rewrite Ht in Hs].
  rewrite Hl. by rewrite Hp, length_seq.
Qed.

(** The tasks a command may order: some, not too many, and with an order. *)
Definition accepted (p : Parsed) (documents : list Value) (tasks : list Task) : Prop :=
  load_tasks documents (p_specs p) = Ok tasks ∧ 0 < length tasks ≤ MAX_TASKS ∧ orderable tasks.

Lemma render_tasks_spec sub p documents :
  match render_tasks sub p documents with
  | Ok text => ∃ tasks g, accepted p documents tasks ∧ Graph_new tasks = Ok g ∧ text = render g (p_policy p) (mode_of sub p) (p_json p)
  | Err _ => ¬ ∃ tasks, accepted p documents tasks
  end.
Proof.
  unfold render_tasks, accepted. destruct (load_tasks documents (p_specs p)) as [tasks|]; [|by intros (? & ? & _)].
  cbn [mbind result_bind map_err]. destruct (Nat.eqb_spec (length tasks) 0); [intros (t & [= <-] & ? & _); lia|].
  destruct (Nat.ltb_spec MAX_TASKS (length tasks)); [intros (t & [= <-] & ? & _); lia|].
  pose proof (Graph_new_orderable tasks) as Hg. destruct (Graph_new tasks) as [g|] eqn:E; cbn [mbind result_bind map_err].
  - exists tasks, g. destruct Hg as (_ & _ & Ho). split_and!; try done. lia.
  - intros (t & [= <-] & _ & ?). done.
Qed.

Section OrderRun.
  Context {W : Type} (read : W → string → result string string * W) (from_str : string → result (nat * nat) Value).

(** C34: [work order] over given tasks whose documents can be read succeeds
    exactly when the tasks load, there is one at least and at most 2000, their ids
    are distinct, every prerequisite is one of them and no task waits for itself;
    as text it then prints a line for each task, numbered from one, every task
    once and after all its prerequisites. *)
Theorem compat_order words p documents w w' :
  "--" ∉ words → parse SubOrder words = Ok p → p_scope p = None → length (filter (λ path, path = "-") (p_tasks p)) ≤ 1 →
  read_documents read from_str (p_tasks p) w = (Ok documents, w') →
  let o := (run read from_str ("order" :: words) w).1 in
  (co_exit_code o = 0%Z ↔ ∃ tasks, accepted p documents tasks) ∧
  (co_exit_code o = 0%Z → p_json p = false →
   ∃ tasks ls, accepted p documents tasks ∧ co_stdout o = join newline (printable <$> ls) +:+ newline ∧ lists_order tasks ls).
Proof.
  intros Hd Hp Hs Hi Hr. cbn zeta. unfold run. change (String.eqb "order" "order") with true. cbv iota. unfold run_sub.
  rewrite (before_dashes_all words Hd), Hp, Nat.eqb_refl. cbn [negb]. unfold run_parsed.
  rewrite Hs, (parse_order_cost words p Hp), (proj2 (Nat.ltb_ge _ _) Hi). unfold render_given. rewrite Hr.
  cbn [mbind result_bind]. pose proof (render_tasks_spec SubOrder p documents) as H.
  destruct (render_tasks SubOrder p documents) as [text|m]; cbn [fst co_exit_code co_stdout fail_with].
  - destruct H as (tasks & g & Ha & Hg & ->). split; [split; [by exists tasks|done]|]. intros _ Hj.
    exists tasks, (order_lines g (order g (p_policy p))). split_and!; [done| |by apply order_lines_listed].
    unfold render, mode_of, join_text. by rewrite Hj.
  - split; [|done]. split; [done|]. intros Hx. by destruct H.
Qed.
End OrderRun.

(** ** Examples *)

(** A reader with one file and the words that give it and a task of its own. *)
Definition demo_read (w : nat) (path : string) : result string string * nat :=
  if String.eqb path "tasks.json" then (Ok "tasks", S w) else (Err "no such file", S w).

Definition demo_from_str (text : string) : result (nat * nat) Value :=
  if String.eqb text "tasks" then
    Ok (VArray [VObject [("id", VString "a"); ("kind", VString "crash"); ("after", VArray [VString "b"])]])
  else Err (1, 1).

Definition demo_words : list string := ["--tasks"; "tasks.json"; "--task=id=b,title=the first"].

Definition demo_parsed : Parsed := mk_parsed None false Fifo ["tasks.json"] ["id=b,title=the first"] None false None.

Definition demo_document : Value :=
  VArray [VObject [("id", VString "a"); ("kind", VString "crash"); ("after", VArray [VString "b"])]].

Example compat_demo_run :
  run demo_read demo_from_str ("order" :: demo_words) 0 =
  (mk_compat_output 0 ("1. b the first (other, moved up for a)" +:+ newline +:+ "2. a (crash)" +:+ newline) "", 1).
Proof. by vm_compute. Qed.

Example demo_cycle :
  (run demo_read demo_from_str ["order"; "--task"; "id=a,after=b"; "--task"; "id=b,after=a"] 0).1 =
  mk_compat_output 2 "" ("work: the tasks form a cycle: a -> b -> a" +:+ newline).
Proof. by vm_compute. Qed.

Lemma given_tasks_exact_witness : is_given_tasks demo_words = true.
Proof. rewrite (given_tasks_exact SubOrder demo_words demo_parsed); [done|by vm_compute]. Defined.

Lemma compat_order_witness :
  ∃ tasks ls, accepted demo_parsed [demo_document] tasks ∧
    co_stdout (run demo_read demo_from_str ("order" :: demo_words) 0).1 = join newline (printable <$> ls) +:+ newline ∧ lists_order tasks ls.
Proof.
  destruct (compat_order demo_read demo_from_str demo_words demo_parsed [demo_document] 0 1) as [_ H];
    [by vm_compute; set_solver|by vm_compute|done|by vm_compute; lia|by vm_compute|]. apply H; by vm_compute.
Defined.
